(* ===== verification/_CoqProject ===== *)
-Q . S2P
Prelude.v
Limbs.v
Primality.v
Curve.v
CurveGroup.v
CurveOrder.v
Bytes.v
Scalar4x64.v
ModExp.v
Field5x52.v
FieldImpl.v
Group.v
GroupLaw.v
Wnaf.v
Ecmult.v
EcmultTable.v
EcmultLaw.v
Der.v
ScalarImpl.v
Sha256.v
Nonces.v
StaticTable.v
GenPoints.v
EcmultGen.v
EcmultGenLaw.v
Ecdsa.v
Keys.v
Secp.v
SecpLaw.v
Stream.v
SegBuffer.v
Framing.v
Conn.v
ConnLaw.v
ConnRuns.v
Peers.v
PeersInv.v
PeersSafe.v
PeersLaw.v
PeersRuns.v
Blob.v
Certs.v
Crypto.v
SecpCerts.v
SecpRuns.v
Entity.v
Core.v
Commands.v
Archipelago.v
StablePoint.v
Client.v
AppRuns.v
Messages.v
Codec.v
CodecRuns.v
Limits.v
Agreement.v
CoreInv.v
CoreSteps.v
CoreGrow.v
CoreOps.v
CoreDeliver.v
PaceMaker.v
Proposer.v
RoundRobin.v
CoreInit.v
Network.v
Safety.v
Scenario.v
Runs.v
PaceRuns.v
PaceSafe.v
Voting.v
DeliveryCore.v
Promise.v
Delivery.v
DeliveryInv.v
DeliveryRun.v
DeliverySafe.v
DeliveryRuns.v
