(* ===== verification/Prelude.v ===== *)
(** * A verification development for archipelago-hotstuff

    The program is a replicated state machine: HotStuff replicas
    ([src/hotstuff/include/hotstuff], [src/hotstuff/src]) agree on blocks of
    command hashes, and Archipelago ([src/hotstuff/examples]) puts timestamps
    on commands and orders them in batches before the leader proposes them.
    The replicas talk over salticidae ([src/hotstuff/salticidae]) and sign with
    secp256k1 ([src/hotstuff/secp256k1]).

    ** Parts, bottom up

    Every file below models the sources it names; definitions keep the names
    of the C and C++ functions.

    Words and bytes.
    - Prelude (this file): unsigned words as [Z] with [u16], [u32], [u64]; the
      state-and-exception monad [M S E] the C++ member functions are written
      in, and its weakest preconditions [wp], by which they are specified.
    - Bytes: byte strings as lists of [Z], host byte order, htole and letoh.
    - Stream, Blob: DataStream, Blob and Bits of salticidae's stream.h.

    secp256k1 ([secp256k1/src]).
    - Limbs, ModExp: carry chains and addition chains; Primality: the moduli.
    - Scalar4x64, ScalarImpl: scalar_4x64_impl.h, scalar_impl.h.
    - Field5x52, FieldImpl: field_5x52_impl.h, field_5x52_int128_impl.h,
      field_impl.h.
    - Curve is the reference, the chord-and-tangent law; Group is group_impl.h
      and GroupLaw proves the one computes the other.  CurveGroup proves that
      the law is a group (associativity by ring normalisation, with Bignums for
      the coefficients), CurveOrder that the generator has the order n.
    - Sha256: hash_impl.h, with FIPS 180-4, RFC 2104 and RFC 6979 as reference.
    - Wnaf, Ecmult, EcmultTable, EcmultLaw: ecmult_impl.h, the windowed digits,
      the tables and Strauss's loop.  StaticTable, GenPoints, EcmultGen,
      EcmultGenLaw: ecmult_static_context.h and ecmult_gen_impl.h, the blinded
      multiplication with the generator.
    - Der, Ecdsa: ecdsa_impl.h.  Nonces: the nonce function of RFC 6979.
      Keys: eckey_impl.h.  Secp: secp256k1.c, contexts and the public functions;
      SecpLaw is what they promise.

    Connections ([salticidae]).
    - SegBuffer: buffer.h.  Framing: the frame of a message, msg.h.
    - Conn: the worker's side of a connection, conn.h, conn.cpp and on_read of
      network.h.  What the kernel answers is a list in the state.
    - Peers: PeerNetwork of network.h, which connections to the other replicas
      there are and which is used.  Every connection carries the state of Conn;
      the closures of the dispatcher, the workers, the timers and the user are
      the events of [Peers.run], in any order.

    HotStuff.
    - Certs: ReplicaConfig (entity.h) and the certificate classes of crypto.h
      as the interface [CertScheme]; its laws [CertSchemeLaws] are all that the
      consensus proofs use.  Crypto has the implementations and discharges the
      laws, over an abstract signature scheme [SigScheme]; SecpCerts makes it
      from the functions of Secp.
    - Entity: Block and EntityStorage (entity.h).  Blocks are shared and
      mutated through [block_t] pointers, so they live in a heap and pointers
      are indices into it.
    - Core: HotStuffCore (consensus.h, consensus.cpp).  What the object sends,
      decides and resolves is appended to a trace of events.
    - Messages, Codec, CodecRuns: the wire formats of blocks and messages.
    - PaceMaker, Proposer, RoundRobin: PMHighTail, PMWaitQC and
      PMRoundRobinProposer (liveness.h).
    - Promise: promise.hpp.  Delivery: the part of HotStuffBase (hotstuff.h,
      hotstuff.cpp) that fetches, verifies and delivers blocks and hands
      messages to the core, with the verification pool of task.h.
    - Commands: the command queues of HotStuffBase; Voting: do_vote.

    Archipelago.
    - Archipelago, StablePoint: the replica (archipelago_app.cpp and the parts
      of hotstuff.cpp made for it); Client: archipelago_client.cpp.

    ** How the parts meet

    [Network.step] runs replicas: one input is handed to one core, whose code
    runs to completion.  Byzantine replicas are the inputs: anything may
    arrive, subject to the checks HotStuffBase makes first and to signatures
    being unforgeable.  That HotStuffBase makes these checks is not assumed:
    [DeliverySafe.engine_refines_network] proves that the delivery engine, for
    whatever messages, pool answers and timeouts, in any order, moves the core
    only by inputs of [Network].  The commands a core decides are the input of
    Commands and of Archipelago's callbacks.

    ** What the theorems show

    - Agreement, CoreInv, CoreSteps, CoreGrow, CoreOps, CoreDeliver, CoreInit,
      Network, Safety: every operation of the core keeps the invariant that
      ties a replica's lock, votes and decisions to the history of votes; hence
      agreement, no equivocation, and that the exception "safety breached" is
      unreachable, provided the QC of a block is for one of its ancestors.
      Runs shows that without that proviso, which the code does not check, the
      checks of the code admit a fork, and reach the exception.
    - DeliveryCore, DeliveryInv, DeliveryRun, DeliverySafe, DeliveryRuns: the
      delivery engine.  A ghost list gives every promise a meaning (what its
      value will say about the core); the invariant types promises and
      callbacks by it and counts the callbacks still to run as tokens.  From
      it: the refinement of Network, termination, no lost wake-up, and that
      with nothing outstanding every delivery has ended.  Also what a Byzantine
      peer can do: keep a block and its descendants from ever being delivered by an
      early vote, and make a handler throw with one message.
    - Proposer, RoundRobin, PaceRuns, PaceSafe: beats are served in order, the
      rotation reaches every replica (and where it stalls), parents picked by
      PMHighTail can be proposed on in every execution.
    - Codec, CodecRuns: certificates read from any bytes verify only for a
      quorum of signers; formats read back what was written; block hashes bind
      contents up to collisions of SHA-256.
    - Commands, StablePoint, Client, AppRuns: callbacks are neither lost nor
      called twice, batches are exact and final, what followers accept, and
      what a faulty replica or client can influence.
    - Field5x52, FieldImpl, Scalar4x64, ScalarImpl, GroupLaw, Sha256: the
      arithmetic is exact on the documented ranges of limbs and computes the
      field, the scalars, the group law and the hash functions.
    - EcmultLaw, EcmultGenLaw, GenPoints, Der, SecpLaw, SecpCerts, SecpRuns: the
      multiplications compute multiples of points, the 1024 entries of the
      static table are the right points, verification is the equation of ECDSA,
      signing gives the signature of the first suitable nonce, keys and
      encodings are what the header promises, and a vote signed with the bytes
      of a key verifies under the key derived from it.  SecpRuns signs.
    - ConnLaw, ConnRuns, Limits: messages come out of a connection
      whole and in order however the bytes are cut and the queue fills up, and no
      connection is left idle, as long as the messages are good (a checksum that
      is right, a size within the limit); and where a connection stalls or gives
      up, among it that proposals of larger systems exceed the size limit.
    - PeersInv, PeersSafe: no registered peer is stranded, whatever happens: it
      is being retried, or its connection will tell when it ends.  PeersLaw: both
      ends of a handshake between disconnected peers decide alike; how a second
      attempt makes assertions fail; and how the rest of a message that was cut
      goes out as the next one.  PeersRuns: these in runs, and others in which
      PeerNetwork aborts.

    Scenario is a symbolic instance of the interfaces (a digest is the term it
    hashes, a signature names its signer) in which everything runs; the files
    named Runs evaluate executions in it, as witnesses and counterexamples.

    ** Bounds

    Loops of the C++ code that follow pointers carry a fuel equal to the
    length of the heap; that it suffices is part of the specifications
    ([ENoFuel] is never raised).  Callbacks of promises nest: [Promise.run]
    carries the bound, and [DeliverySafe.events_terminate] shows that three
    levels per stored or arriving block and six more are enough and that a
    larger bound changes nothing.  Loops of secp256k1 are unrolled or structural
    but for those that draw until a number is in range: signing returns the
    first suitable nonce as soon as the bound admits it, and for a context
    without a seed two draws are enough.  The loops of a connection have a bound
    computed from the buffers; on_read and _recv_data call each other twice at
    most, and [ConnLaw] proves that no bound is ever reached.

    ** What is not modelled, and why

    - Threads: a handler runs to completion before the next one starts, as in
      the event loop that runs them; the worker threads of VeriPool only
      compute a result, which arrives as an event at any later time and in any
      order.  The lock-free queues between threads are lists.
    - The pace maker's continuations of what the core resolves are later steps
      of the pace maker, not part of the call that resolved them.
    - Reference counts, statistics, logging, command lines, libuv events, the
      system calls and the TLS handshake that make a connection, the delays of
      timers: no influence on the state modelled here, or pure input and output.
      ClientNetwork and the getters of PeerNetwork are left out.
    - C pointers of the group code do not alias, except where a function is
      called with an output that is an input and the model says so.
    - That ECDSA cannot be forged is a hypothesis of the protocol (signatures
      of correct replicas are theirs), as usual.  OpenSSL, libuv and GMP are
      libraries; the digest of the checksum is a parameter.
    - Of secp256k1: the batched multiplication of Pippenger, ecmult_const, the
      optional modules and the callbacks other than the default ones, which
      ECDSA does not use.  ecmult_gen_context_build is modelled with the static
      table; the computation of the table at run time has no theorem.
    - 32-bit and assembly back ends of secp256k1 are alternatives to the
      modelled ones on other machines.
    - HOTSTUFF_TWO_STEP and CPPROMISE_USE_STACK_FREE builds. *)

From Stdlib Require Import ZArith Lia.
From stdpp Require Export base tactics option list numbers gmap sets.

#[global] Open Scope Z_scope.

(** ** Machine integers

    Unsigned integers are [Z] values; arithmetic that can leave the range is
    followed by the truncation C++ applies. *)

Definition u16 (x : Z) : Z := x mod 2 ^ 16.
Definition u32 (x : Z) : Z := x mod 2 ^ 32.
Definition u64 (x : Z) : Z := x mod 2 ^ 64.

Lemma u32_small x : 0 <= x < 2 ^ 32 -> u32 x = x.
Proof. apply Z.mod_small. Qed.
Lemma u64_small x : 0 <= x < 2 ^ 64 -> u64 x = x.
Proof. apply Z.mod_small. Qed.
Lemma u16_range x : 0 <= u16 x < 2 ^ 16.
Proof. by apply Z.mod_pos_bound. Qed.
Lemma u32_range x : 0 <= u32 x < 2 ^ 32.
Proof. by apply Z.mod_pos_bound. Qed.
Lemma u64_range x : 0 <= u64 x < 2 ^ 64.
Proof. by apply Z.mod_pos_bound. Qed.

(** [lia] with division and remainder by numerals. *)
Ltac dlia := Z.div_mod_to_equations; lia.

(** ** Shifts and masks as arithmetic *)

Lemma shiftr_div x n : 0 <= n -> Z.shiftr x n = x / 2 ^ n.
Proof. apply Z.shiftr_div_pow2. Qed.
Lemma shiftl_mul x n : 0 <= n -> Z.shiftl x n = x * 2 ^ n.
Proof. apply Z.shiftl_mul_pow2. Qed.

Lemma land_mask x n : 0 <= n -> Z.land x (2 ^ n - 1) = x mod 2 ^ n.
Proof. intros ?. replace (2 ^ n - 1) with (Z.ones n) by (rewrite Z.ones_equiv; lia). by apply Z.land_ones. Qed.

(** A mask that is not at the bottom of the word. *)
Lemma land_field x k n : 0 <= k -> 0 <= n ->
  Z.land x (Z.shiftl (Z.ones n) k) = ((x / 2 ^ k) mod 2 ^ n) * 2 ^ k.
Proof.
  intros Hk Hn. rewrite <- Z.land_ones, <- Z.shiftr_div_pow2, <- Z.shiftl_mul_pow2 by done.
  apply Z.bits_inj'. intros i Hi. rewrite Z.land_spec.
  destruct (decide (i < k)).
  - by rewrite !Z.shiftl_spec_low, andb_false_r by done.
  - rewrite !Z.shiftl_spec, Z.land_spec, Z.shiftr_spec by lia. do 2 f_equal. lia.
Qed.

(** [|] of values whose bits do not overlap is [+]. *)
Lemma lor_add n a b : 0 <= n -> 0 <= b < 2 ^ n -> Z.lor (a * 2 ^ n) b = a * 2 ^ n + b.
Proof.
  intros Hn Hb. rewrite <- Z.lxor_lor, <- Z.add_nocarry_lxor; [done|..];
  apply Z.bits_inj'; intros i Hi; rewrite Z.land_spec, Z.bits_0;
  (destruct (decide (i < n));
   [by rewrite <- Z.shiftl_mul_pow2, Z.shiftl_spec_low by lia
   |apply andb_false_iff; right; rewrite <- (Z.mod_small b (2 ^ n)) by lia;
    apply Z.mod_pow2_bits_high; lia]).
Qed.

Lemma log2_lt_pow n a : 0 < n -> 0 <= a < 2 ^ n -> Z.log2 a < n.
Proof. intros Hn Ha. destruct (decide (a = 0)) as [->|]; [done|]. apply Z.log2_lt_pow2; lia. Qed.

Lemma lxor_bound n a b : 0 < n -> 0 <= a < 2 ^ n -> 0 <= b < 2 ^ n -> 0 <= Z.lxor a b < 2 ^ n.
Proof.
  intros Hn Ha Hb. assert (0 <= Z.lxor a b) by (apply Z.lxor_nonneg; lia). split; [done|].
  destruct (decide (Z.lxor a b = 0)) as [->|]; [lia|]. apply Z.log2_lt_pow2; [lia|].
  eapply Z.le_lt_trans; [apply Z.log2_lxor; lia|]. by apply Z.max_lub_lt; apply log2_lt_pow.
Qed.

(** ** State-and-exception monad

    A C++ member function that mutates its object and may throw is a state
    transformer with an error result: a [throw] keeps the mutations made
    before it. *)

Definition M (S E A : Type) : Type := S -> (A + E) * S.

Section MonadOps.
Context {S E : Type}.

#[export] Instance M_ret : MRet (M S E) := fun A a s => (inl a, s).
#[export] Instance M_bind : MBind (M S E) := fun A B f m s =>
  match m s with
  | (inl a, s') => f a s'
  | (inr e, s') => (inr e, s')
  end.
#[export] Instance M_fmap : FMap (M S E) := fun A B f m s =>
  match m s with
  | (inl a, s') => (inl (f a), s')
  | (inr e, s') => (inr e, s')
  end.

Definition throw {A} (e : E) : M S E A := fun s => (inr e, s).
Definition get : M S E S := fun s => (inl s, s).
Definition gets {A} (f : S -> A) : M S E A := fun s => (inl (f s), s).
Definition modify (f : S -> S) : M S E unit := fun s => (inl tt, f s).

Definition from_option {A} (e : E) (o : option A) : M S E A :=
  match o with Some a => mret a | None => throw e end.

(** Weakest precondition: [Q] for a normal return, [X] for an exception. *)
Definition wp {A} (m : M S E A) (Q : A -> S -> Prop) (X : E -> S -> Prop)
    (s : S) : Prop :=
  match m s with
  | (inl a, s') => Q a s'
  | (inr e, s') => X e s'
  end.

Context {A B : Type}.
Implicit Types (Q : A -> S -> Prop) (X : E -> S -> Prop).

Lemma wp_ret a Q X s : Q a s -> wp (mret a) Q X s.
Proof. done. Qed.

Lemma wp_throw e Q X s : X e s -> wp (throw e) Q X s.
Proof. done. Qed.

Lemma wp_bind (m : M S E B) (f : B -> M S E A) Q X s :
  wp m (fun b s' => wp (f b) Q X s') X s -> wp (m ≫= f) Q X s.
Proof. unfold wp, mbind, M_bind. by destruct (m s) as [[b|e] s']. Qed.

Lemma wp_gets (f : S -> A) Q X s : Q (f s) s -> wp (gets f) Q X s.
Proof. done. Qed.

Lemma wp_mono (m : M S E A) Q Q' X X' s :
  wp m Q X s -> (forall a s', Q a s' -> Q' a s') ->
  (forall e s', X e s' -> X' e s') -> wp m Q' X' s.
Proof. unfold wp. destruct (m s) as [[a|e] s']; auto. Qed.

Lemma wp_from_option e (o : option A) Q X s :
  (forall a, o = Some a -> Q a s) -> (o = None -> X e s) ->
  wp (from_option e o) Q X s.
Proof. destruct o; intros; [apply wp_ret | apply wp_throw]; auto. Qed.
End MonadOps.

Section MonadUnit.
Context {S E : Type}.
Lemma wp_get (Q : S -> S -> Prop) (X : E -> S -> Prop) s : Q s s -> wp get Q X s.
Proof. done. Qed.

Lemma wp_modify (f : S -> S) (Q : unit -> S -> Prop) (X : E -> S -> Prop) s :
  Q tt (f s) -> wp (modify f) Q X s.
Proof. done. Qed.

(** A [when]-guarded statement: C's [if] with no [else]. *)
Definition mwhen (b : bool) (m : M S E unit) : M S E unit :=
  if b then m else mret tt.
End MonadUnit.

(** A run that ends well, with the state it ends in. *)
Lemma ends_well {A S E} (r : (A + E) * S) a : r.1 = inl a -> r = (inl a, r.2).
Proof. destruct r. cbn. by intros ->. Qed.

Create HintDb wpdb.
#[export] Hint Resolve wp_ret wp_throw : wpdb.

(** Steps a [wp] goal through one monadic construct. *)
Ltac wp_step :=
  match goal with
  | |- wp (_ ≫= _) _ _ _ => apply wp_bind
  | |- wp (mret _) _ _ _ => apply wp_ret
  | |- wp (throw _) _ _ _ => apply wp_throw
  | |- wp (gets _) _ _ _ => apply wp_gets
  | |- wp get _ _ _ => apply wp_get
  | |- wp (modify _) _ _ _ => apply wp_modify
  | |- wp (mwhen ?b _) _ _ _ => destruct b eqn:?; unfold mwhen
  | |- wp (if ?b then _ else _) _ _ _ => destruct b eqn:?
  | |- wp (from_option _ _) _ _ _ => apply wp_from_option; intros
  end.
Ltac wp_steps := repeat (wp_step; cbn beta).
