(* ===== verification/Limbs.v ===== *)
(** * Limb arithmetic

    Machine words of the big-integer code of secp256k1: splitting a
    double-width sum, the accumulator (c0, c1, c2) of the multiplication
    macros, and the tactics that turn a straight-line limb computation into
    linear equations. *)

From S2P Require Import Prelude.

Definition u128 (x : Z) : Z := x mod 2 ^ 128.

Lemma u128_small x : 0 <= x < 2 ^ 128 -> u128 x = x.
Proof. apply Z.mod_small. Qed.
Lemma u128_range x : 0 <= u128 x < 2 ^ 128.
Proof. by apply Z.mod_pos_bound. Qed.

(** [t & 0xFFFFFFFFFFFFFFFF] and [t >>= 64]. *)
Definition lo64 (t : Z) : Z := Z.land t 0xFFFFFFFFFFFFFFFF.
Definition hi64 (t : Z) : Z := Z.shiftr t 64.

Lemma split64 t : t = lo64 t + 2 ^ 64 * hi64 t /\ 0 <= lo64 t < 2 ^ 64.
Proof.
  unfold lo64, hi64. change 0xFFFFFFFFFFFFFFFF with (2 ^ 64 - 1).
  rewrite land_mask, shiftr_div by lia. pose proof (Z.mod_pos_bound t (2 ^ 64)).
  pose proof (Z.div_mod t (2 ^ 64)). lia.
Qed.

Lemma u64_split t : u64 t = lo64 t.
Proof. unfold u64, lo64. change 0xFFFFFFFFFFFFFFFF with (2 ^ 64 - 1). by rewrite land_mask. Qed.

(** ~ on uint64_t. *)
Definition not64 (x : Z) : Z := u64 (Z.lnot x).

Lemma not64_spec x : 0 <= x < 2 ^ 64 -> not64 x = 2 ^ 64 - 1 - x.
Proof. intros Hx. unfold not64, u64, Z.lnot. rewrite <- (Z.mod_add _ 1), Z.mod_small by lia. lia. Qed.

Lemma lor_high n a b : 0 <= n -> 0 <= a < 2 ^ n -> Z.lor a (Z.shiftl b n) = a + b * 2 ^ n.
Proof. intros Hn Ha. rewrite Z.lor_comm, shiftl_mul, lor_add by done. lia. Qed.

(** ** Shifts across limbs *)

(** [lo >> k | hi << (64 - k)], also written with [+]. *)
Lemma shl_word k hi : 0 < k < 64 -> u64 (Z.shiftl hi (64 - k)) = (hi mod 2 ^ k) * 2 ^ (64 - k).
Proof.
  intros Hk. rewrite shiftl_mul by lia. unfold u64.
  replace (2 ^ 64) with (2 ^ k * 2 ^ (64 - k)) by (rewrite <- Z.pow_add_r by lia; f_equal; lia).
  apply Z.mul_mod_distr_r; lia.
Qed.

Lemma shr_word k lo : 0 < k < 64 -> 0 <= lo < 2 ^ 64 -> 0 <= lo / 2 ^ k < 2 ^ (64 - k).
Proof.
  intros Hk Hl. split; [apply Z.div_pos; lia|]. apply Z.div_lt_upper_bound; [lia|].
  rewrite <- Z.pow_add_r by lia. replace (k + (64 - k)) with 64 by lia. lia.
Qed.

Lemma funnel k lo hi : 0 < k < 64 -> 0 <= lo < 2 ^ 64 ->
  Z.lor (Z.shiftr lo k) (u64 (Z.shiftl hi (64 - k))) = lo / 2 ^ k + (hi mod 2 ^ k) * 2 ^ (64 - k).
Proof.
  intros Hk Hl. rewrite shl_word, shiftr_div by lia. rewrite Z.lor_comm, lor_add; [lia|lia|].
  by apply shr_word.
Qed.

(** A truncated sum and its carry. *)
Lemma carry_out x y : 0 <= x < 2 ^ 64 -> 0 <= y < 2 ^ 64 ->
  u64 (x + y) + 2 ^ 64 * Z.b2z (u64 (x + y) <? y) = x + y.
Proof.
  intros Hx Hy. unfold u64. destruct (decide (x + y < 2 ^ 64)).
  - rewrite Z.mod_small by lia. rewrite (proj2 (Z.ltb_ge _ _)) by lia. simpl Z.b2z. lia.
  - rewrite <- (Z.mod_add _ (-1)), Z.mod_small by lia. rewrite (proj2 (Z.ltb_lt _ _)) by lia. simpl Z.b2z. lia.
Qed.

Lemma b2z_range b : 0 <= Z.b2z b <= 1.
Proof. destruct b; simpl; lia. Qed.

Lemma and_carry (b : bool) x : 0 <= x -> Z.land (Z.b2z b) (Z.b2z (x =? 0)) = Z.b2z (x <? Z.b2z b).
Proof.
  intros Hx. destruct b; simpl Z.b2z at 1; [|by rewrite (proj2 (Z.ltb_ge _ _))].
  destruct (Z.eqb_spec x 0) as [->|]; [done|]. by rewrite (proj2 (Z.ltb_ge _ _)) by (simpl; lia).
Qed.

(** ** The accumulator of the macros

    [c2] is a uint64_t in scalar_reduce_512 and a uint32_t in
    scalar_mul_512: [w2] is its truncation. *)

Record Acc := mkAcc { c0 : Z; c1 : Z; c2 : Z }.

Section Macros.
Variable w2 : Z -> Z.

Definition muladd (a b : Z) (c : Acc) : Acc :=
  let t := u128 (a * b) in
  let th := u64 (Z.shiftr t 64) in let tl := u64 t in
  let c0' := u64 (c0 c + tl) in
  let th := u64 (th + Z.b2z (c0' <? tl)) in
  let c1' := u64 (c1 c + th) in
  mkAcc c0' c1' (w2 (c2 c + Z.b2z (c1' <? th))).

Definition muladd_fast (a b : Z) (c : Acc) : Acc :=
  let t := u128 (a * b) in
  let th := u64 (Z.shiftr t 64) in let tl := u64 t in
  let c0' := u64 (c0 c + tl) in
  let th := u64 (th + Z.b2z (c0' <? tl)) in
  mkAcc c0' (u64 (c1 c + th)) (c2 c).

Definition muladd2 (a b : Z) (c : Acc) : Acc :=
  let t := u128 (a * b) in
  let th := u64 (Z.shiftr t 64) in let tl := u64 t in
  let th2 := u64 (th + th) in
  let c2' := w2 (c2 c + Z.b2z (th2 <? th)) in
  let tl2 := u64 (tl + tl) in
  let th2 := u64 (th2 + Z.b2z (tl2 <? tl)) in
  let c0' := u64 (c0 c + tl2) in
  let th2 := u64 (th2 + Z.b2z (c0' <? tl2)) in
  let c2' := w2 (c2' + Z.land (Z.b2z (c0' <? tl2)) (Z.b2z (th2 =? 0))) in
  let c1' := u64 (c1 c + th2) in
  mkAcc c0' c1' (w2 (c2' + Z.b2z (c1' <? th2))).

Definition sumadd (a : Z) (c : Acc) : Acc :=
  let c0' := u64 (c0 c + a) in
  let over := Z.b2z (c0' <? a) in
  let c1' := u64 (c1 c + over) in
  mkAcc c0' c1' (w2 (c2 c + Z.b2z (c1' <? over))).

Definition sumadd_fast (a : Z) (c : Acc) : Acc :=
  let c0' := u64 (c0 c + a) in
  mkAcc c0' (u64 (c1 c + Z.b2z (c0' <? a))) (c2 c).

(** The state after extract(n) and extract_fast(n); n is [c0] before. *)
Definition extract (c : Acc) : Acc := mkAcc (c1 c) (c2 c) 0.
Definition extract_fast (c : Acc) : Acc := mkAcc (c1 c) 0 (c2 c).
End Macros.

(** The number an accumulator stands for, and its range after at most [k]
    additions. *)
Definition aval (c : Acc) : Z := c0 c + 2 ^ 64 * c1 c + 2 ^ 128 * c2 c.

Record acc_ok (k : Z) (c : Acc) : Prop := {
  ao_0 : 0 <= c0 c < 2 ^ 64;
  ao_1 : 0 <= c1 c < 2 ^ 64;
  ao_2 : 0 <= c2 c <= k;
}.

(** A truncation that keeps values below 2^32. *)
Definition keeps_small (w2 : Z -> Z) : Prop := forall x, 0 <= x < 2 ^ 32 -> w2 x = x.

Lemma product_bound a b : 0 <= a < 2 ^ 64 -> 0 <= b < 2 ^ 64 -> 0 <= a * b <= (2 ^ 64 - 1) * (2 ^ 64 - 1).
Proof. intros Ha Hb. split; [lia|]. apply Z.mul_le_mono_nonneg; lia. Qed.

(** The two halves of a product. *)
Lemma product_split a b : 0 <= a < 2 ^ 64 -> 0 <= b < 2 ^ 64 ->
  exists tl th, u64 (u128 (a * b)) = tl /\ u64 (Z.shiftr (u128 (a * b)) 64) = th /\
    a * b = tl + 2 ^ 64 * th /\ 0 <= tl < 2 ^ 64 /\ 0 <= th <= 2 ^ 64 - 2.
Proof.
  intros Ha Hb. pose proof (product_bound a b Ha Hb) as Hp. rewrite u128_small by lia.
  destruct (split64 (a * b)) as [Hs Hr]. fold (hi64 (a * b)). rewrite (u64_split (a * b)).
  assert (0 <= hi64 (a * b) <= 2 ^ 64 - 2) by lia. rewrite u64_small by lia.
  by exists (lo64 (a * b)), (hi64 (a * b)).
Qed.

Section MacroSpecs.
Variables (w2 : Z -> Z) (Hw2 : keeps_small w2).

Lemma muladd_spec k a b c : 0 <= a < 2 ^ 64 -> 0 <= b < 2 ^ 64 -> acc_ok k c -> k < 2 ^ 31 ->
  acc_ok (k + 1) (muladd w2 a b c) /\ aval (muladd w2 a b c) = aval c + a * b.
Proof.
  intros Ha Hb [H0 H1 H2] Hk. unfold muladd.
  destruct (product_split a b Ha Hb) as (tl & th & -> & -> & Hab & Htl & Hth).
  pose proof (carry_out (c0 c) tl H0 Htl) as Hc0. pose proof (u64_range (c0 c + tl)).
  set (c0' := u64 (c0 c + tl)) in *. pose proof (b2z_range (c0' <? tl)).
  rewrite (u64_small (th + _)) by lia.
  pose proof (carry_out (c1 c) (th + Z.b2z (c0' <? tl)) H1 ltac:(lia)) as Hc1.
  pose proof (u64_range (c1 c + (th + Z.b2z (c0' <? tl)))). set (c1' := u64 (c1 c + _)) in *.
  pose proof (b2z_range (c1' <? th + Z.b2z (c0' <? tl))). rewrite Hw2 by lia.
  split; [split; simpl; lia|]. unfold aval. simpl. lia.
Qed.

Lemma muladd_fast_spec a b c : 0 <= a < 2 ^ 64 -> 0 <= b < 2 ^ 64 -> acc_ok 0 c ->
  aval c + a * b < 2 ^ 128 ->
  acc_ok 0 (muladd_fast a b c) /\ aval (muladd_fast a b c) = aval c + a * b.
Proof.
  intros Ha Hb [H0 H1 H2] Hlt. unfold muladd_fast, aval in *.
  destruct (product_split a b Ha Hb) as (tl & th & -> & -> & Hab & Htl & Hth).
  pose proof (carry_out (c0 c) tl H0 Htl) as Hc0. pose proof (u64_range (c0 c + tl)).
  set (c0' := u64 (c0 c + tl)) in *. pose proof (b2z_range (c0' <? tl)).
  rewrite (u64_small (th + _)) by lia. rewrite u64_small by lia.
  split; [split; simpl; lia|]. simpl. lia.
Qed.

Lemma muladd2_spec k a b c : 0 <= a < 2 ^ 64 -> 0 <= b < 2 ^ 64 -> acc_ok k c -> k < 2 ^ 31 ->
  acc_ok (k + 2) (muladd2 w2 a b c) /\ aval (muladd2 w2 a b c) = aval c + 2 * (a * b).
Proof.
  intros Ha Hb [H0 H1 H2] Hk. unfold muladd2.
  destruct (product_split a b Ha Hb) as (tl & th & -> & -> & Hab & Htl & Hth).
  pose proof (carry_out th th ltac:(lia) ltac:(lia)) as Hth2. pose proof (u64_range (th + th)).
  set (th2 := u64 (th + th)) in *. pose proof (b2z_range (th2 <? th)).
  rewrite (Hw2 (c2 c + Z.b2z (th2 <? th))) by lia.
  pose proof (carry_out tl tl ltac:(lia) ltac:(lia)) as Htl2. pose proof (u64_range (tl + tl)).
  set (tl2 := u64 (tl + tl)) in *. pose proof (b2z_range (tl2 <? tl)).
  rewrite (u64_small (th2 + Z.b2z (tl2 <? tl))) by lia.
  set (th2' := th2 + Z.b2z (tl2 <? tl)) in *.
  pose proof (carry_out (c0 c) tl2 ltac:(lia) ltac:(lia)) as Hc0. pose proof (u64_range (c0 c + tl2)).
  set (c0' := u64 (c0 c + tl2)) in *. pose proof (b2z_range (c0' <? tl2)).
  assert (0 <= th2' < 2 ^ 64) as Hth2' by lia.
  pose proof (carry_out th2' (Z.b2z (c0' <? tl2)) Hth2' ltac:(lia)) as Hov.
  pose proof (u64_range (th2' + Z.b2z (c0' <? tl2))). set (th2'' := u64 (th2' + _)) in *.
  rewrite (and_carry (c0' <? tl2) th2'') by lia.
  pose proof (b2z_range (th2'' <? Z.b2z (c0' <? tl2))).
  rewrite (Hw2 (_ + Z.b2z (th2'' <? Z.b2z (c0' <? tl2)))) by lia.
  pose proof (carry_out (c1 c) th2'' ltac:(lia) ltac:(lia)) as Hc1. pose proof (u64_range (c1 c + th2'')).
  set (c1' := u64 (c1 c + th2'')) in *. pose proof (b2z_range (c1' <? th2'')). rewrite Hw2 by lia.
  assert (0 <= tl2 + 2 ^ 64 * th2' <= 2 ^ 129) by lia.
  split; [split; simpl; lia|]. unfold aval. simpl. lia.
Qed.

Lemma sumadd_spec k a c : 0 <= a < 2 ^ 64 -> acc_ok k c -> k < 2 ^ 31 ->
  acc_ok (k + 1) (sumadd w2 a c) /\ aval (sumadd w2 a c) = aval c + a.
Proof.
  intros Ha [H0 H1 H2] Hk. unfold sumadd.
  pose proof (carry_out (c0 c) a H0 Ha) as Hc0. pose proof (u64_range (c0 c + a)).
  set (c0' := u64 (c0 c + a)) in *. pose proof (b2z_range (c0' <? a)).
  pose proof (carry_out (c1 c) (Z.b2z (c0' <? a)) H1 ltac:(lia)) as Hc1.
  pose proof (u64_range (c1 c + Z.b2z (c0' <? a))). set (c1' := u64 (c1 c + _)) in *.
  pose proof (b2z_range (c1' <? Z.b2z (c0' <? a))). rewrite Hw2 by lia.
  split; [split; simpl; lia|]. unfold aval. simpl. lia.
Qed.

Lemma sumadd_fast_spec a c : 0 <= a < 2 ^ 64 -> acc_ok 0 c -> aval c + a < 2 ^ 128 ->
  acc_ok 0 (sumadd_fast a c) /\ aval (sumadd_fast a c) = aval c + a.
Proof.
  intros Ha [H0 H1 H2] Hlt. unfold sumadd_fast, aval in *.
  pose proof (carry_out (c0 c) a H0 Ha) as Hc0. pose proof (u64_range (c0 c + a)).
  set (c0' := u64 (c0 c + a)) in *. pose proof (b2z_range (c0' <? a)). rewrite u64_small by lia.
  split; [split; simpl; lia|]. simpl. lia.
Qed.
End MacroSpecs.

(** ** Straight-line code

    [limb_run] works from the inside out on a goal about a chain of truncated
    sums: each truncation is discharged by its range, each word and carry
    becomes a variable with its defining equation. *)

Ltac no_limbs e :=
  lazymatch e with
  | context [u128 _] => fail
  | context [lo64 _] => fail
  | context [hi64 _] => fail
  | context [u64 _] => fail
  | context [u32 _] => fail
  | _ => idtac
  end.

Ltac limb_split e :=
  let lo := fresh "lo" in let hi := fresh "hi" in let He := fresh "He" in let Hr := fresh "Hr" in
  destruct (split64 e) as [He Hr];
  set (lo := lo64 e) in *; set (hi := hi64 e) in *; clearbody lo hi.

Ltac limb_run := repeat match goal with
  | |- context [u128 ?e] => no_limbs e; rewrite (u128_small e) by lia
  | |- context [u64 ?e] => no_limbs e; rewrite (u64_small e) by lia
  | |- context [u32 ?e] => no_limbs e; rewrite (u32_small e) by lia
  | |- context [lo64 ?e] => no_limbs e; limb_split e
  | |- context [hi64 ?e] => no_limbs e; limb_split e
  end.

(** ** Running the accumulator *)

Lemma keeps_small_u32 : keeps_small u32.
Proof. intros x Hx. by apply u32_small. Qed.
Lemma keeps_small_u64 : keeps_small u64.
Proof. intros x Hx. apply u64_small. lia. Qed.

Lemma extract_spec k c : acc_ok k c -> k < 2 ^ 31 ->
  acc_ok 0 (extract c) /\ aval c = c0 c + 2 ^ 64 * aval (extract c).
Proof. intros [] Hk. unfold aval. split; [split|]; simpl; lia. Qed.

Lemma extract_fast_spec c : acc_ok 0 c ->
  acc_ok 0 (extract_fast c) /\ aval c = c0 c + 2 ^ 64 * aval (extract_fast c).
Proof. intros []. unfold aval. split; [split|]; simpl; lia. Qed.

Lemma mkAcc_ok x : 0 <= x < 2 ^ 64 -> acc_ok 0 (mkAcc x 0 0) /\ aval (mkAcc x 0 0) = x.
Proof. intros Hx. unfold aval. split; [split|]; simpl; lia. Qed.

(** An accumulator that holds a single word. *)
Lemma aval_word c : acc_ok 0 c -> aval c < 2 ^ 64 -> aval c = c0 c.
Proof. intros []. unfold aval. lia. Qed.

(** Names the result of a step and keeps its value and ranges. *)
Ltac acc_name t H :=
  let c := fresh "c" in let Hok := fresh "Hok" in let Hv := fresh "Hv" in
  destruct H as [Hok Hv]; pose proof (ao_0 _ _ Hok); pose proof (ao_1 _ _ Hok);
  set (c := t) in *; clearbody c.

Ltac acc_step w Hw :=
  match goal with
  | |- context [mkAcc ?x 0 0] => acc_name (mkAcc x 0 0) (mkAcc_ok x ltac:(lia))
  | Hc : acc_ok ?k ?c |- context [muladd w ?a ?b ?c] => is_var c;
      acc_name (muladd w a b c) (muladd_spec w Hw k a b c ltac:(lia) ltac:(lia) Hc ltac:(lia))
  | Hc : acc_ok ?k ?c |- context [muladd2 w ?a ?b ?c] => is_var c;
      acc_name (muladd2 w a b c) (muladd2_spec w Hw k a b c ltac:(lia) ltac:(lia) Hc ltac:(lia))
  | Hc : acc_ok ?k ?c |- context [sumadd w ?a ?c] => is_var c;
      acc_name (sumadd w a c) (sumadd_spec w Hw k a c ltac:(lia) Hc ltac:(lia))
  | Hc : acc_ok 0 ?c |- context [muladd_fast ?a ?b ?c] => is_var c;
      acc_name (muladd_fast a b c) (muladd_fast_spec a b c ltac:(lia) ltac:(lia) Hc ltac:(lia))
  | Hc : acc_ok 0 ?c |- context [sumadd_fast ?a ?c] => is_var c;
      acc_name (sumadd_fast a c) (sumadd_fast_spec a c ltac:(lia) Hc ltac:(lia))
  | Hc : acc_ok ?k ?c |- context [extract ?c] => is_var c;
      acc_name (extract c) (extract_spec k c Hc ltac:(lia))
  | Hc : acc_ok 0 ?c |- context [extract_fast ?c] => is_var c;
      acc_name (extract_fast c) (extract_fast_spec c Hc)
  end.
