(* ===== verification/Primality.v ===== *)
(** * Primality of the two moduli of secp256k1

    Pocklington's criterion and the certificates for the field size p and the
    group order n, which the inverses and square roots of the curve rely on. *)

From Stdlib Require Import Znumtheory Zdivisibility ZmodInv.
From Bignums Require Import BigN.
From S2P Require Import Prelude.

(** ** Powers modulo [n], on machine-word numbers *)

Fixpoint big_pow (b n : bigN) (e : positive) : bigN :=
  match e with
  | xH => BigN.modulo b n
  | xO e => BigN.modulo (BigN.square (big_pow b n e)) n
  | xI e => BigN.modulo (BigN.mul (BigN.square (big_pow b n e)) b) n
  end.

Definition big (x : Z) : bigN := BigN.of_pos (Z.to_pos x).

Definition pow_mod (b e n : Z) : Z := BigN.to_Z (big_pow (big b) (big n) (Z.to_pos e)).

Lemma big_spec x : 0 < x -> BigN.to_Z (big x) = x.
Proof. intros Hx. unfold big. rewrite BigN.spec_of_pos. lia. Qed.

Lemma big_pow_spec b n e : BigN.to_Z n <> 0 ->
  BigN.to_Z (big_pow b n e) = BigN.to_Z b ^ Zpos e mod BigN.to_Z n.
Proof.
  intros Hn. induction e as [e IH|e IH|]; cbn [big_pow]; rewrite BigN.spec_modulo, ?BigN.spec_mul, ?BigN.spec_square, ?IH.
  - replace (Z.pos e~1) with (Z.pos e + Z.pos e + 1) by lia. rewrite !Z.pow_add_r, Z.pow_1_r by lia.
    set (x := _ ^ Z.pos e). by rewrite (Z.mul_mod (x * x)), (Z.mul_mod x x), <- Z.mul_mod by done.
  - replace (Z.pos e~0) with (Z.pos e + Z.pos e) by lia. by rewrite Z.pow_add_r, <- Z.mul_mod by lia.
  - by rewrite Z.pow_1_r.
Qed.

Lemma pow_mod_correct b e n : 0 < b -> 0 < e -> 0 < n -> pow_mod b e n = b ^ e mod n.
Proof. intros. unfold pow_mod. rewrite big_pow_spec; rewrite !big_spec by done; [|lia]. by rewrite Z2Pos.id. Qed.

(** ** Trial division *)

(** No divisor among [d], [d + 1], ..., [d + k - 1]. *)
Fixpoint no_divisor (k : nat) (d n : Z) : bool :=
  match k with
  | O => true
  | S k => if n mod d =? 0 then false else no_divisor k (d + 1) n
  end.

Lemma no_divisor_spec k d n e : 0 < d -> no_divisor k d n = true -> d <= e < d + Z.of_nat k -> ~ (e | n).
Proof.
  revert d. induction k as [|k IH]; intros d Hd; cbn [no_divisor]; [lia|].
  destruct (Z.eqb_spec (n mod d) 0) as [|Hm]; [done|]. intros Hk He.
  destruct (decide (e = d)) as [->|]; [|apply (IH (d + 1)); [lia|done|lia]].
  intros Hdv%Z.mod_divide; [done|lia].
Qed.

(** A number with no divisor up to its square root. *)
Lemma small_divisor n m : 1 < m < n -> (m | n) -> exists d, 2 <= d /\ d * d <= n /\ (d | n).
Proof.
  intros Hm [k Hk]. destruct (decide (m * m <= n)); [exists m; split; [lia|]; split; [done|by exists k]|].
  exists k. assert (2 <= k) by nia. split; [done|]. split; [nia|]. exists m. lia.
Qed.

Lemma trial_prime n k : 1 < n -> n < (Z.of_nat k + 2) * (Z.of_nat k + 2) -> no_divisor k 2 n = true -> Z.prime n.
Proof.
  intros Hn Hk Hd. split; [done|]. intros m Hm Hdv. destruct (small_divisor n m Hm Hdv) as (d & Hd2 & Hdd & Hdn).
  revert Hdn. apply (no_divisor_spec k 2); [lia|done|nia].
Qed.

(** ** Pocklington's criterion *)

Lemma prime_divisor n : 1 < n -> exists r, Z.prime r /\ (r | n).
Proof.
  intros Hn. induction (Z.lt_wf 0 n) as [n _ IH]. destruct (prime_dec n) as [Hp|Hp].
  { exists n. by rewrite prime_alt. }
  destruct (not_prime_divide n Hn Hp) as (d & Hd & Hdn).
  destruct (IH d) as (r & Hr & Hrd); [lia|lia|]. exists r. split; [done|]. by transitivity d.
Qed.

Lemma composite_divisor n : 1 < n -> ~ Z.prime n -> exists r, Z.prime r /\ (r | n) /\ r * r <= n.
Proof.
  intros Hn Hp. destruct (not_prime_divide n Hn) as (m & Hm & Hmn); [by rewrite <- prime_alt|].
  destruct (small_divisor n m Hm Hmn) as (d & Hd & Hdd & Hdn). destruct (prime_divisor d) as (r & Hr & Hrd); [lia|].
  exists r. split; [done|]. split; [by transitivity d|].
  pose proof (Z.divide_pos_le r d ltac:(lia) Hrd). pose proof (Z.prime_ge_2 r Hr). nia.
Qed.

(** If [b ^ q = 1] for a prime [q] but [b <> 1] modulo a prime [r], then q
    divides r - 1. *)
Lemma order_divides q r b : Z.prime q -> Z.prime r -> 0 <= b -> b ^ q mod r = 1 -> b mod r <> 1 -> (q | r - 1).
Proof.
  intros Hq Hr Hb Hbq Hb1. pose proof (Z.prime_ge_2 _ Hq). pose proof (Z.prime_ge_2 _ Hr).
  destruct (Znumtheory.Zdivide_dec q (r - 1)) as [|Hnd]; [done|]. destruct Hb1.
  assert (b mod r <> 0) as Hnz.
  { intros Hz. rewrite <- Z.mod_pow_l, Hz, Z.pow_0_l, Z.mod_0_l in Hbq by lia. lia. }
  pose proof (Z.fermat_nz r b Hr Hnz) as Hf.
  destruct (proj1 (Z.Bezout_coprime_iff q (r - 1)) (Z.coprime_prime_l q (r - 1) Hq Hnd)) as (u & v & Huv).
  set (u' := u mod (r - 1) + (r - 1)). set (k := u / (r - 1)).
  assert (u = u' + (k - 1) * (r - 1)) as Hu by (subst u' k; pose proof (Z.div_mod u (r - 1)); lia).
  pose proof (Z.mod_pos_bound u (r - 1) ltac:(lia)). assert (0 < u') as Hu0 by lia.
  set (w := - v - (k - 1) * q). assert (u' * q = 1 + w * (r - 1)) as Hw by (subst w; nia).
  assert (0 <= w) by nia. clearbody u' k w.
  assert (b ^ (u' * q) mod r = 1) as Hpow.
  { rewrite (Z.mul_comm u' q), Z.pow_mul_r, <- Z.mod_pow_l, Hbq, Z.pow_1_l by lia. apply Z.mod_1_l. lia. }
  rewrite Hw, Z.pow_add_r, Z.pow_1_r, (Z.mul_comm w), Z.pow_mul_r in Hpow by lia.
  by rewrite <- Z.mul_mod_idemp_r, <- Z.mod_pow_l, Hf, Z.pow_1_l, Z.mod_1_l, Z.mul_1_r in Hpow by lia.
Qed.

(** The conditions of the criterion for the base 2, as a check. *)
Definition pocklington_check (n : Z) (qs : list Z) : bool :=
  let f := foldr Z.mul 1 qs in
  (n <? f * f) && (pow_mod 2 (n - 1) n =? 1) &&
  forallb (fun q => ((n - 1) mod q =? 0) && (Z.gcd (pow_mod 2 ((n - 1) / q) n - 1) n =? 1)) qs.

(** Distinct primes that divide a number multiply to a divisor. *)
Lemma primes_divide qs m : NoDup qs -> Forall Z.prime qs -> Forall (fun q => (q | m)) qs ->
  (foldr Z.mul 1 qs | m).
Proof.
  induction 1 as [|q qs Hq _ IH]; intros Hp Hd; [apply Z.divide_1_l|].
  apply Forall_cons in Hp as [Hpq Hp]. apply Forall_cons in Hd as [Hdq Hd]. cbn [foldr].
  destruct (IH Hp Hd) as [k Hk]. assert (Z.coprime (foldr Z.mul 1 qs) q) as Hc.
  { clear -Hq Hpq Hp. induction qs as [|q' qs IH]; cbn [foldr]; [apply Z.coprime_1_l|].
    apply not_elem_of_cons in Hq as [Hne Hq]. apply Forall_cons in Hp as [Hpq' Hp].
    apply Z.coprime_mul_l; [|by apply IH]. apply Z.coprime_prime_l; [done|].
    intros Hdv. apply Hne. symmetry. by apply Z.divide_prime_prime. }
  subst m. assert ((q | k)) as [j ->].
  { apply (Z.gauss q (foldr Z.mul 1 qs) k); [|unfold Z.coprime in Hc; by rewrite Z.gcd_comm].
    by rewrite Z.mul_comm. }
  exists j. lia.
Qed.

Lemma primes_prod_pos qs : Forall Z.prime qs -> 0 < foldr Z.mul 1 qs.
Proof. induction 1 as [|q qs Hq _ IH]; cbn [foldr]; [lia|]. pose proof (Z.prime_ge_2 q Hq). lia. Qed.

Theorem pocklington n qs : 1 < n -> NoDup qs -> Forall Z.prime qs -> pocklington_check n qs = true -> Z.prime n.
Proof.
  intros Hn Hnd Hp Hc. unfold pocklington_check in Hc. rewrite !andb_true_iff, Z.ltb_lt, Z.eqb_eq in Hc.
  destruct Hc as [[Hlt Hone] Hall]. rewrite forallb_forall in Hall. rewrite pow_mod_correct in Hone by lia.
  apply prime_alt. destruct (prime_dec n) as [|Hnp]; [done|]. exfalso. rewrite <- prime_alt in Hnp.
  destruct (composite_divisor n Hn Hnp) as (r & Hr & Hrn & Hrr). pose proof (Z.prime_ge_2 r Hr).
  assert (forall x, x mod n mod r = x mod r) as Hmod.
  { intros x. destruct Hrn as [k ->]. by rewrite Z.mul_comm, Z.rem_mul_r, Z.mul_comm, Z.mod_add, Z.mod_mod by nia. }
  assert ((foldr Z.mul 1 qs | r - 1)) as Hf.
  { apply primes_divide; [done..|]. apply Forall_forall. intros q Hq. rewrite Forall_forall in Hp.
    specialize (Hp q Hq). pose proof (Z.prime_ge_2 q Hp). apply list_elem_of_In in Hq. specialize (Hall q Hq).
    rewrite andb_true_iff, !Z.eqb_eq in Hall. destruct Hall as [Hdv Hg].
    apply Z.mod_divide in Hdv as [k Hk]; [|lia]. assert (0 < k) by nia.
    rewrite Hk, Z.div_mul, pow_mod_correct in Hg by lia. apply (order_divides q r (2 ^ k)); [done..|lia| |].
    - by rewrite <- Z.pow_mul_r, <- Hk, <- Hmod, Hone, Z.mod_1_l by lia.
    - intros Hb1. assert ((r | Z.gcd (2 ^ k mod n - 1) n)) as Hd.
      { apply Z.gcd_greatest; [|done]. apply Z.mod_divide; [lia|].
        by rewrite <- Zminus_mod_idemp_l, Hmod, Hb1 by lia. }
      rewrite Hg in Hd. apply Z.divide_pos_le in Hd; lia. }
  apply Z.divide_pos_le in Hf; [|lia]. pose proof (primes_prod_pos qs Hp). nia.
Qed.

(** ** Certificates *)

Ltac by_trial k := apply (trial_prime _ k); vm_compute; reflexivity.

(** Certificate of one number; its factors have to be in scope as primes. *)
Ltac by_pocklington qs :=
  apply (pocklington _ qs);
  [reflexivity|apply (bool_decide_unpack _); vm_compute; exact I
  |repeat (apply Forall_cons; split; [assumption|]); apply Forall_nil_2|vm_compute; reflexivity].

(** The field size and the order of the group. *)
Definition fp : Z := 0xFFFFFFFFFFFFFFFFFFFFFFFFFFFFFFFFFFFFFFFFFFFFFFFFFFFFFFFEFFFFFC2F.
Definition order : Z := 0xFFFFFFFFFFFFFFFFFFFFFFFFFFFFFFFEBAAEDCE6AF48A03BBFD25E8CD0364141.

Lemma prime_fp : Z.prime fp.
Proof.
  assert (Z.prime 96557) by by_trial 400%nat. assert (Z.prime 7240687) by by_trial 2700%nat.
  assert (Z.prime 107590001) by by_trial 10400%nat.
  assert (Z.prime 255515944373312847190720520512484175977) by by_pocklington [107590001; 7240687; 96557].
  assert (Z.prime 205115282021455665897114700593932402728804164701536103180137503955397371)
    by by_pocklington [255515944373312847190720520512484175977].
  by_pocklington [205115282021455665897114700593932402728804164701536103180137503955397371].
Qed.

Lemma prime_order : Z.prime order.
Proof.
  assert (Z.prime 1627771) by by_trial 1300%nat. assert (Z.prime 297159362677) by by_pocklington [1627771].
  assert (Z.prime 545358713) by by_trial 23400%nat.
  assert (Z.prime 29047611873442575647497758179) by by_pocklington [297159362677; 545358713].
  assert (Z.prime 341948486974166000522343609283189) by by_pocklington [29047611873442575647497758179].
  assert (Z.prime 44706919) by by_trial 6700%nat. assert (Z.prime 120233) by by_trial 400%nat.
  assert (Z.prime 174723607534414371449) by by_pocklington [44706919; 120233].
  by_pocklington [341948486974166000522343609283189; 174723607534414371449].
Qed.

(** ** Inverses and square roots as powers *)

Lemma pow_inverse m x y : Z.prime m -> y mod m = x ^ (m - 2) mod m ->
  (x * y) mod m = if x mod m =? 0 then 0 else 1.
Proof.
  intros Hm Hy. pose proof (Z.prime_ge_2 m Hm). rewrite <- Z.mul_mod_idemp_r, Hy, Z.mul_mod_idemp_r by lia.
  destruct (Z.eqb_spec (x mod m) 0) as [H0|H0].
  - by rewrite <- Z.mul_mod_idemp_l, H0, Z.mul_0_l, Z.mod_0_l by lia.
  - rewrite <- Z.pow_succ_r by lia. replace (Z.succ (m - 2)) with (m - 1) by lia. by apply Z.fermat_nz.
Qed.

(** A power that is its own square root test (m = 3 mod 4). *)
Lemma pow_root m x y : Z.prime m -> m mod 4 = 3 -> y mod m = x ^ ((m + 1) / 4) mod m ->
  (exists s, (s * s) mod m = x mod m) -> (y * y) mod m = x mod m.
Proof.
  intros Hm H4 Hy [s Hs]. pose proof (Z.prime_ge_2 m Hm). set (k := (m + 1) / 4).
  assert (4 * k = m + 1) as Hk by (subst k; dlia). fold k in Hy. clearbody k.
  rewrite Z.mul_mod, Hy, <- Z.mul_mod, <- Z.pow_add_r by lia.
  rewrite <- Z.mod_pow_l, <- Hs, Z.mod_pow_l, Z.pow_mul_l, <- Z.pow_add_r by lia.
  replace (k + k + (k + k)) with (Z.succ (Z.succ (m - 1))) by lia. rewrite !Z.pow_succ_r by lia.
  destruct (decide (s mod m = 0)) as [H0|H0].
  - by rewrite <- (Z.mul_mod_idemp_l s), <- (Z.mul_mod_idemp_l s s), H0, !Z.mul_0_l by lia.
  - by rewrite Z.mul_assoc, <- Z.mul_mod_idemp_r, (Z.fermat_nz m s Hm H0), Z.mul_1_r by lia.
Qed.

(** Cancellation modulo a prime. *)
Lemma prime_cancel m a b : Z.prime m -> (a * b) mod m = 0 -> a mod m = 0 \/ b mod m = 0.
Proof.
  intros Hm Hab. pose proof (Z.prime_ge_2 m Hm). apply Z.mod_divide in Hab; [|lia].
  destruct (proj1 (Z.divide_prime_mul a b m Hm) Hab); [left|right]; by apply Z.mod_divide; [lia|].
Qed.
