(* ===== verification/Curve.v ===== *)
(** * The curve y^2 = x^3 + 7 over the integers modulo p

    The reference for the group code: affine points with the chord-and-tangent
    law, as executable definitions over [Zmod fp], and the facts about them
    that the Jacobian formulas use. *)

From Stdlib Require Import Zmod Ring Field.
From S2P Require Import Prelude Primality.

Notation fld := (Zmod fp).

Declare Scope fld_scope.
Delimit Scope fld_scope with F.

Notation "0" := (@Zmod.zero fp) : fld_scope.
Notation "1" := (@Zmod.one fp) : fld_scope.
Infix "+" := (@Zmod.add fp) : fld_scope.
Infix "*" := (@Zmod.mul fp) : fld_scope.
Infix "-" := (@Zmod.sub fp) : fld_scope.
Notation "- x" := (@Zmod.opp fp x) : fld_scope.
Infix "/" := (@Zmod.mdiv fp) : fld_scope.
Notation "2" := (1 + 1)%F : fld_scope.
Notation "3" := (1 + 1 + 1)%F : fld_scope.

Lemma fld_ring : @Ring_theory.ring_theory fld (@Zmod.zero fp) (@Zmod.one fp) (@Zmod.add fp) (@Zmod.mul fp) (@Zmod.sub fp) (@Zmod.opp fp) eq.
Proof. exact (Zmod.ring_theory fp). Qed.
Lemma fld_field : @Field_theory.field_theory fld (@Zmod.zero fp) (@Zmod.one fp) (@Zmod.add fp) (@Zmod.mul fp) (@Zmod.sub fp) (@Zmod.opp fp) (@Zmod.mdiv fp) (@Zmod.inv fp) eq.
Proof. exact (Zmod.field_theory fp prime_fp). Qed.

Add Field fld_field_inst : fld_field.

Definition curve_b : fld := Zmod.of_Z fp 7.

(** An affine point; [None] is the point at infinity. *)
Definition point : Type := option (fld * fld).

Definition on_curve (P : point) : Prop :=
  match P with None => True | Some (x, y) => (y * y = x * x * x + curve_b)%F end.

(** The third point of a line of slope [l] through [(x1, y1)] and a point with
    abscissa [x2], reflected. *)
Definition chord (l x1 y1 x2 : fld) : fld * fld :=
  let x3 := (l * l - x1 - x2)%F in (x3, (l * (x1 - x3) - y1)%F).

Definition padd (P Q : point) : point :=
  match P, Q with
  | None, _ => Q
  | _, None => P
  | Some (x1, y1), Some (x2, y2) =>
    if Zmod.eqb x1 x2 then
      if Zmod.eqb y1 y2 then Some (chord (3 * x1 * x1 / (2 * y1)) x1 y1 x2)%F else None
    else Some (chord ((y2 - y1) / (x2 - x1)) x1 y1 x2)%F
  end.

Definition pneg (P : point) : point :=
  match P with None => None | Some (x, y) => Some (x, (- y)%F) end.

(** ** Algebra *)

Lemma fld_eqb x y : Zmod.eqb x y = true <-> (x : fld) = y.
Proof. apply Zmod.eqb_eq. Qed.

Lemma fld_eqb_false x y : Zmod.eqb x y = false <-> (x : fld) <> y.
Proof. rewrite <- fld_eqb. by destruct (Zmod.eqb x y). Qed.

Lemma fld_integral (x y : fld) : (x * y = 0)%F -> x = 0%F \/ y = 0%F.
Proof. apply (Zmod.mul_0_iff_prime prime_fp). Qed.

Lemma fld_mul_nz (x y : fld) : x <> 0%F -> y <> 0%F -> (x * y)%F <> 0%F.
Proof. intros Hx Hy [?|?]%fld_integral; done. Qed.

Lemma fld_cancel (a x y : fld) : a <> 0%F -> (a * x = a * y)%F -> x = y.
Proof.
  intros Ha H. assert (a * (x - y) = 0)%F as [?|H2]%fld_integral; [|done|].
  { transitivity (a * x - a * y)%F; [ring|]. rewrite H. ring. }
  replace x with (x - y + y)%F by ring. rewrite H2. ring.
Qed.

Lemma fld_sub_nz (x y : fld) : x <> y -> (x - y)%F <> 0%F.
Proof. intros Hne H0. apply Hne. replace x with (x - y + y)%F by ring. rewrite H0. ring. Qed.

Lemma fld_2 : (2 <> 0)%F.
Proof. intros H. apply (f_equal Zmod.to_Z) in H. by vm_compute in H. Qed.

(** What makes the third point lie on the curve: the line meets the cubic in
    [x1] and [x2]. *)
Definition secant (l x1 y1 x2 : fld) : Prop :=
  (x1 * x1 + x1 * x2 + x2 * x2 - l * l * (x1 + x2) - 2 * l * (y1 - l * x1) = 0)%F.

Lemma chord_on_curve l x1 y1 x2 : on_curve (Some (x1, y1)) -> secant l x1 y1 x2 -> on_curve (Some (chord l x1 y1 x2)).
Proof.
  unfold on_curve, secant, chord. intros H1 HS. cbv zeta.
  match type of HS with ?s = _ =>
    transitivity ((l * l - x1 - x2) * (l * l - x1 - x2) * (l * l - x1 - x2) + curve_b -
      (x1 * x1 * x1 + curve_b - y1 * y1) - (l * l - x1 - x2 - x1) * s)%F end; [ring|].
  rewrite HS, H1. ring.
Qed.

Lemma secant_chord l x1 y1 x2 y2 : on_curve (Some (x1, y1)) -> on_curve (Some (x2, y2)) -> x1 <> x2 ->
  (l * (x2 - x1) = y2 - y1)%F -> secant l x1 y1 x2.
Proof.
  unfold on_curve, secant. intros H1 H2 Hne Hl. apply (fld_cancel (x1 - x2)%F); [by apply fld_sub_nz|].
  assert (y2 = y1 + l * (x2 - x1))%F as -> by (rewrite Hl; ring).
  match goal with |- (_ = _ * 0)%F => idtac end.
  transitivity ((x1 * x1 * x1 + curve_b - y1 * y1) - (x2 * x2 * x2 + curve_b -
    (y1 + l * (x2 - x1)) * (y1 + l * (x2 - x1))))%F; [ring|]. rewrite <- H1, <- H2. ring.
Qed.

Lemma secant_tangent l x y : (l * (2 * y) = 3 * x * x)%F -> secant l x y x.
Proof.
  intros Hl. unfold secant. transitivity (3 * x * x - l * (2 * y))%F; [ring|]. rewrite Hl. ring.
Qed.

(** The slopes of [padd]. *)
Lemma slope_mul (n d : fld) : d <> 0%F -> (n / d * d = n)%F.
Proof. intros Hd. field. done. Qed.

(** ** No point has y = 0 *)

Lemma cube_power m z c e : Z.prime m -> 0 <= e -> 3 * e = m - 1 -> (z * z * z) mod m = c mod m ->
  z mod m <> 0 -> c ^ e mod m = 1.
Proof.
  intros Hm He H3 Hz Hnz. pose proof (Z.prime_ge_2 m Hm). rewrite <- Z.mod_pow_l, <- Hz, Z.mod_pow_l.
  replace (z * z * z) with (z ^ 3) by ring. rewrite <- Z.pow_mul_r, H3 by lia. by apply Z.fermat_nz.
Qed.

(** -7 is not a cube modulo p. *)
Definition third : Z := (fp - 1) / 3.
Lemma third_eq : 3 * third = fp - 1.
Proof. vm_compute. reflexivity. Qed.
Lemma minus7_power : pow_mod (fp - 7) third fp =? 1 = false.
Proof. vm_compute. reflexivity. Qed.
#[local] Opaque third.

Lemma no_cube_root z : (z * z * z) mod fp <> (-7) mod fp.
Proof.
  intros Hz. assert (z mod fp <> 0) as Hnz.
  { intros H0. rewrite <- Z.mul_mod_idemp_r, H0, Z.mul_0_r in Hz by done. by vm_compute in Hz. }
  assert (0 < third) as H0 by (pose proof third_eq; unfold fp in *; lia).
  pose proof (cube_power fp z (-7) third prime_fp (Z.lt_le_incl _ _ H0) third_eq Hz Hnz) as Hc.
  rewrite <- Z.mod_pow_l in Hc. change (-7 mod fp) with (fp - 7) in Hc. rewrite <- pow_mod_correct in Hc by (done || lia).
  apply Z.eqb_eq in Hc. rewrite minus7_power in Hc. done.
Qed.

Lemma curve_no_cube (x : fld) : (x * x * x + curve_b)%F <> 0%F.
Proof.
  intros H. apply (no_cube_root (Zmod.to_Z x)).
  assert (x * x * x = - curve_b)%F as Hx.
  { transitivity (x * x * x + curve_b - curve_b)%F; [ring|]. rewrite H. ring. }
  apply (f_equal Zmod.to_Z) in Hx. rewrite !Zmod.to_Z_mul, Z.mul_mod_idemp_l in Hx by done.
  rewrite Hx. by vm_compute.
Qed.

Lemma curve_y_nz x y : on_curve (Some (x, y)) -> y <> 0%F.
Proof. intros H ->. apply (curve_no_cube x). cbn in H. rewrite <- H. ring. Qed.

(** Two curve points with the same abscissa are equal or opposite. *)
Lemma same_abscissa x y1 y2 : on_curve (Some (x, y1)) -> on_curve (Some (x, y2)) -> y1 = y2 \/ y1 = (- y2)%F.
Proof.
  cbn. intros H1 H2. destruct (fld_integral (y1 - y2) (y1 + y2))%F as [H|H].
  - transitivity (y1 * y1 - y2 * y2)%F; [ring|]. rewrite H1, H2. ring.
  - left. transitivity (y1 - y2 + y2)%F; [ring|]. rewrite H. ring.
  - right. transitivity (y1 + y2 - y2)%F; [ring|]. rewrite H. ring.
Qed.

Lemma padd_on_curve P Q : on_curve P -> on_curve Q -> on_curve (padd P Q).
Proof.
  intros HP HQ. destruct P as [[x1 y1]|]; [|done]. destruct Q as [[x2 y2]|]; [|done]. unfold padd.
  destruct (Zmod.eqb x1 x2) eqn:Hx.
  - apply fld_eqb in Hx. subst x2. destruct (Zmod.eqb y1 y2) eqn:Hy; [|done].
    apply chord_on_curve; [done|]. apply secant_tangent, slope_mul, fld_mul_nz; [apply fld_2|by apply (curve_y_nz x1)].
  - apply fld_eqb_false in Hx. apply chord_on_curve; [done|]. apply (secant_chord _ x1 y1 x2 y2); [done..|].
    by apply slope_mul, fld_sub_nz.
Qed.
