(* ===== verification/CurveGroup.v ===== *)
(** * The affine law is a group

    Associativity of the chord-and-tangent law on y^2 = x^3 + 7, and integer
    multiples of a point: what the algorithms that multiply points compute with. *)

From Stdlib Require Import Zmod Ring Field.
From S2P Require Import Prelude Primality Curve.

Lemma padd_0_l P : padd None P = P.
Proof. done. Qed.
Lemma padd_0_r P : padd P None = P.
Proof. by destruct P as [[]|]. Qed.

(** ** Lines

    [line P Q l S]: the line of slope [l] through [P] and [Q], the tangent if
    they are equal, meets the curve again in the opposite of [S]. *)
Definition line (x1 y1 x2 y2 l x3 y3 : fld) : Prop :=
  secant l x2 y2 x1 /\ y1 = (y2 + l * (x1 - x2))%F /\ x3 = (l * l - x1 - x2)%F /\ y3 = (l * (x2 - x3) - y2)%F.

Lemma generic_x q s l m x1 x3 :
  secant l q s x1 -> secant m q s x3 ->
  let y1 := (s + l * (x1 - q))%F in let y3 := (s + m * (x3 - q))%F in
  let x4 := (l * l - x1 - q)%F in let y4 := (l * (q - x4) - s)%F in
  let x5 := (m * m - x3 - q)%F in let y5 := (m * (q - x5) - s)%F in
  ((y3 - y4) * (y3 - y4) * ((x5 - x1) * (x5 - x1)) - (y5 - y1) * (y5 - y1) * ((x3 - x4) * (x3 - x4)) =
   (x4 + x3 - x1 - x5) * ((x3 - x4) * (x3 - x4)) * ((x5 - x1) * (x5 - x1)))%F.
Proof.
  intros H1 H2. cbv zeta. unfold secant in *.
  assert (x1 * x1 = l * l * (x1 + q) + 2 * l * (s - l * q) - x1 * q - q * q)%F as E1.
  { transitivity (x1 * x1 - (q * q + q * x1 + x1 * x1 - l * l * (q + x1) - 2 * l * (s - l * q)))%F; [rewrite H1|]; ring. }
  assert (x3 * x3 = m * m * (x3 + q) + 2 * m * (s - m * q) - x3 * q - q * q)%F as E2.
  { transitivity (x3 * x3 - (q * q + q * x3 + x3 * x3 - m * m * (q + x3) - 2 * m * (s - m * q)))%F; [rewrite H2|]; ring. }
  clear H1 H2. ring [E1 E2].
Qed.
Lemma generic_y q s l m x1 x3 :
  secant l q s x1 -> secant m q s x3 ->
  let y1 := (s + l * (x1 - q))%F in let y3 := (s + m * (x3 - q))%F in
  let x4 := (l * l - x1 - q)%F in let y4 := (l * (q - x4) - s)%F in
  let x5 := (m * m - x3 - q)%F in let y5 := (m * (q - x5) - s)%F in
  let n3 := (y3 - y4)%F in let d3 := (x3 - x4)%F in let n4 := (y5 - y1)%F in let d4 := (x5 - x1)%F in
  let X := (n3 * n3 - (x4 + x3) * (d3 * d3))%F in
  (n3 * (x4 * (d3 * d3) - X) * d4 - y4 * (d3 * d3 * d3) * d4 = n4 * (x1 * (d3 * d3) - X) * d3 - y1 * (d3 * d3 * d3) * d4)%F.
Proof.
  intros H1 H2. cbv zeta. unfold secant in *.
  assert (x1 * x1 = l * l * (x1 + q) + 2 * l * (s - l * q) - x1 * q - q * q)%F as E1.
  { transitivity (x1 * x1 - (q * q + q * x1 + x1 * x1 - l * l * (q + x1) - 2 * l * (s - l * q)))%F; [rewrite H1|]; ring. }
  assert (x3 * x3 = m * m * (x3 + q) + 2 * m * (s - m * q) - x3 * q - q * q)%F as E2.
  { transitivity (x3 * x3 - (q * q + q * x3 + x3 * x3 - m * m * (q + x3) - 2 * m * (s - m * q)))%F; [rewrite H2|]; ring. }
  clear H1 H2. ring [E1 E2].
Qed.

(** The doubling of [P + Q] against [P + (Q + (P + Q))], with the slope of the
    line through [Q] and [P + Q] written as [w / d]. *)
Lemma tangent_xy q s l d : secant l q s (q + d) ->
  let x3 := (q + d)%F in let y3 := (l * (q - x3) - s)%F in let x1 := (l * l - q - x3)%F in let y1 := (s + l * (x1 - q))%F in
  let w := (y3 - s)%F in let x5 := (w * w - (x3 + q) * (d * d))%F in let y5 := (w * (q * (d * d) - x5) - s * (d * d * d))%F in
  let n := (3 * x3 * x3)%F in let e := (2 * y3)%F in let n4 := (y5 - y1 * (d * d * d))%F in let d4 := (x5 - x1 * (d * d))%F in
  let X := (n * n - 2 * x3 * (e * e))%F in
  (d * d * (n * n * (d4 * d4)) - n4 * n4 * (e * e) = (2 * x3 * (d * d) - x1 * (d * d) - x5) * (e * e) * (d4 * d4))%F /\
  ((n * (x3 * (e * e) - X) - y3 * (e * e * e)) * d4 * d = (n4 * (x1 * (e * e) - X) - y1 * (e * e) * d4 * d) * e)%F.
Proof.
  intros H1. cbv zeta. unfold secant in *.
  assert (d * d = - (3 * q * d) - 3 * q * q + l * l * (d + 2 * q) + 2 * l * (s - l * q))%F as E.
  { transitivity (d * d - (q * q + q * (q + d) + (q + d) * (q + d) - l * l * (q + (q + d)) - 2 * l * (s - l * q)))%F; [rewrite H1|]; ring. }
  clear H1. split; ring [E].
Qed.

(** The sum of two points with the line through them, whether chord or tangent. *)
Definition third (l q s x1 : fld) : fld * fld := let x4 := (l * l - x1 - q)%F in (x4, (l * (q - x4) - s)%F).

Lemma sum_line x1 y1 q s : on_curve (Some (x1, y1)) -> on_curve (Some (q, s)) ->
  padd (Some (x1, y1)) (Some (q, s)) = None /\ (x1, y1) = (q, - s)%F \/
  exists l, secant l q s x1 /\ y1 = (s + l * (x1 - q))%F /\ padd (Some (x1, y1)) (Some (q, s)) = Some (third l q s x1) /\
    (x1 = q -> l * (2 * s) = 3 * q * q)%F.
Proof.
  intros H1 H2. destruct (Zmod.eqb x1 q) eqn:Hx.
  - apply fld_eqb in Hx. subst x1. destruct (same_abscissa _ _ _ H1 H2) as [<- | ->].
    + right. set (l := (3 * q * q / (2 * y1))%F). exists l. assert (2 * y1 <> 0)%F as Hnz by (apply fld_mul_nz; [apply fld_2|by apply (curve_y_nz q)]).
      pose proof (slope_mul (3 * q * q) (2 * y1) Hnz)%F as Hl. split; [by apply secant_tangent|]. split; [ring|].
      split; [|done]. unfold padd. rewrite !(proj2 (fld_eqb _ _) eq_refl). done.
    + left. split; [|done]. unfold padd. rewrite (proj2 (fld_eqb _ _) eq_refl), (proj2 (fld_eqb_false _ _)); [done|].
      intros Hs. apply (curve_y_nz q s H2). apply (fld_cancel 2%F); [apply fld_2|]. transitivity (s - - s)%F; [ring|].
      rewrite Hs. ring.
  - apply fld_eqb_false in Hx. right. exists ((s - y1) / (q - x1) : fld)%F.
    pose proof (slope_mul (s - y1) (q - x1) (fld_sub_nz _ _ (not_eq_sym Hx)))%F as Hl.
    set (l := ((s - y1) / (q - x1))%F) in *. assert (y1 = s + l * (x1 - q))%F as Hy.
    { transitivity (s - l * (q - x1))%F; [rewrite Hl|]; ring. }
    split; [|split; [done|split; [|done]]].
    + apply (secant_chord l q s x1 y1); [done|done|congruence|]. rewrite Hy. ring.
    + unfold padd. rewrite (proj2 (fld_eqb_false _ _) Hx). fold l. unfold chord, third. cbv zeta. do 2 f_equal.
      rewrite Hy. ring.
Qed.

Lemma padd_comm P Q : on_curve P -> on_curve Q -> padd P Q = padd Q P.
Proof.
  destruct P as [[x1 y1]|], Q as [[x2 y2]|]; [|done..]. intros H1 H2. unfold padd.
  destruct (Zmod.eqb x1 x2) eqn:Hx.
  - apply fld_eqb in Hx. subst x2. rewrite (proj2 (fld_eqb _ _) eq_refl).
    destruct (Zmod.eqb y1 y2) eqn:Hy; [apply fld_eqb in Hy; subst; by rewrite (proj2 (fld_eqb _ _) eq_refl)|].
    apply fld_eqb_false in Hy. by rewrite (proj2 (fld_eqb_false _ _)).
  - apply fld_eqb_false in Hx. rewrite (proj2 (fld_eqb_false _ _)) by done.
    assert ((y1 - y2) / (x1 - x2) = (y2 - y1) / (x2 - x1))%F as ->.
    { assert (x1 - x2 <> 0)%F by (by apply fld_sub_nz). assert (x2 - x1 <> 0)%F by (by apply fld_sub_nz). field. done. }
    pose proof (slope_mul (y2 - y1) (x2 - x1) (fld_sub_nz _ _ (not_eq_sym Hx)))%F as Hl.
    set (l := ((y2 - y1) / (x2 - x1))%F) in *. clearbody l. unfold chord. cbv zeta.
    assert (y2 = y1 + l * (x2 - x1))%F as -> by (rewrite Hl; ring). f_equal. f_equal; ring.
Qed.

Lemma pneg_on_curve P : on_curve P -> on_curve (pneg P).
Proof. destruct P as [[x y]|]; [|done]. cbn. intros <-. ring. Qed.
Lemma pneg_involutive P : pneg (pneg P) = P.
Proof. destruct P as [[x y]|]; [|done]. cbn. do 2 f_equal. ring. Qed.

Lemma fld_opp_nz x y : on_curve (Some (x, y)) -> y <> (- y)%F.
Proof.
  intros H Hy. apply (curve_y_nz x y H). apply (fld_cancel 2%F); [apply fld_2|]. transitivity (y - - y)%F; [ring|].
  rewrite <- Hy. ring.
Qed.

Lemma padd_neg_r P : on_curve P -> padd P (pneg P) = None.
Proof.
  destruct P as [[x y]|]; [|done]. intros H. cbn. rewrite (proj2 (fld_eqb _ _) eq_refl), (proj2 (fld_eqb_false _ _)); [done|].
  by apply (fld_opp_nz x).
Qed.

Lemma padd_none P Q : on_curve P -> on_curve Q -> padd P Q = None -> P = pneg Q.
Proof.
  destruct P as [[x1 y1]|]; [|by cbn; intros _ _ ->]. destruct Q as [[x2 y2]|]; [|done]. intros H1 H2 Hs.
  destruct (sum_line x1 y1 x2 y2 H1 H2) as [[_ ->]|(l & _ & _ & Hp & _)]; [done|congruence].
Qed.

Lemma pneg_padd P Q : on_curve P -> on_curve Q -> pneg (padd P Q) = padd (pneg P) (pneg Q).
Proof.
  destruct P as [[x1 y1]|], Q as [[x2 y2]|]; [|done..]. intros H1 H2. cbn [pneg]. unfold padd.
  destruct (Zmod.eqb x1 x2) eqn:Hx.
  - apply fld_eqb in Hx. subst x2. assert (Zmod.eqb (- y1)%F (- y2)%F = Zmod.eqb y1 y2) as ->.
    { apply eq_iff_eq_true. rewrite !fld_eqb. split; [|by intros ->]. intros E.
      transitivity (- - y1)%F; [ring|]. rewrite E. ring. }
    destruct (Zmod.eqb y1 y2) eqn:Hy; [|done]. cbn [pneg]. f_equal.
    pose proof (curve_y_nz _ _ H1) as Hnz. pose proof fld_2.
    assert (3 * x1 * x1 / (2 * - y1) = - (3 * x1 * x1 / (2 * y1)))%F as ->.
    { field. split; [done|]. split; [exact fld_2|]. intros E. apply Hnz. transitivity (- - y1)%F; [ring|]. rewrite E. ring. }
    set (l := (3 * x1 * x1 / (2 * y1))%F). unfold chord. cbv zeta. f_equal; ring.
  - apply fld_eqb_false in Hx. cbn [pneg]. f_equal.
    assert ((- y2 - - y1) / (x2 - x1) = - ((y2 - y1) / (x2 - x1)))%F as ->.
    { field. by apply fld_sub_nz. }
    set (l := ((y2 - y1) / (x2 - x1))%F). unfold chord. cbv zeta. f_equal; ring.
Qed.

Lemma padd_distinct x1 y1 x2 y2 l : x1 <> x2 -> (l * (x2 - x1) = y2 - y1)%F ->
  padd (Some (x1, y1)) (Some (x2, y2)) = Some (chord l x1 y1 x2).
Proof.
  intros Hx Hl. unfold padd. rewrite (proj2 (fld_eqb_false _ _) Hx).
  replace ((y2 - y1) / (x2 - x1))%F with l; [done|].
  apply (fld_cancel (x2 - x1)%F); [by apply fld_sub_nz, not_eq_sym|].
  pose proof (slope_mul (y2 - y1) (x2 - x1) (fld_sub_nz _ _ (not_eq_sym Hx)))%F as Hk.
  transitivity (l * (x2 - x1))%F; [ring|]. rewrite Hl, <- Hk at 1. ring.
Qed.

Lemma padd_same x y l : y <> 0%F -> (l * (2 * y) = 3 * x * x)%F ->
  padd (Some (x, y)) (Some (x, y)) = Some (chord l x y x).
Proof.
  intros Hy Hl. unfold padd. rewrite !(proj2 (fld_eqb _ _) eq_refl).
  assert (2 * y <> 0)%F as Hnz by (apply fld_mul_nz; [apply fld_2|done]).
  replace (3 * x * x / (2 * y))%F with l; [done|]. apply (fld_cancel (2 * y)%F); [done|].
  pose proof (slope_mul (3 * x * x) (2 * y) Hnz)%F as Hk.
  transitivity (l * (2 * y))%F; [ring|]. rewrite Hl, <- Hk at 1. ring.
Qed.

Lemma padd_sub P Q : on_curve P -> on_curve Q -> padd (padd P Q) (pneg Q) = P.
Proof.
  destruct Q as [[q s]|]; [|intros _ _; by destruct P as [[]|]].
  destruct P as [[x1 y1]|]; [|intros _ H; by rewrite padd_0_l, padd_neg_r].
  intros H1 H2. destruct (sum_line x1 y1 q s H1 H2) as [[-> [= -> ->]]|(l & Hs & -> & -> & _)]; [done|].
  cbn [pneg]. unfold third. cbv zeta. set (x4 := (l * l - x1 - q)%F).
  destruct (Zmod.eqb x4 q) eqn:Hx.
  - apply fld_eqb in Hx. rewrite Hx. assert (x1 = l * l - 2 * q)%F as Hx1 by (transitivity (l * l - q - x4)%F; [unfold x4; ring|]; rewrite Hx; ring).
    clearbody x4. subst x1.
    replace (l * (q - q) - s)%F with (- s)%F by ring. rewrite (padd_same _ _ (- l)).
    + unfold chord. cbv zeta. do 2 f_equal; ring.
    + intros E. apply (curve_y_nz q s H2). transitivity (- - s)%F; [ring|]. rewrite E. ring.
    + unfold secant in Hs. transitivity (2 * l * s + 0)%F; [ring|]. rewrite <- Hs. ring.
  - apply fld_eqb_false in Hx. rewrite (padd_distinct _ _ _ _ (- l)) by (done || ring).
    unfold chord. cbv zeta. unfold x4. do 2 f_equal; ring.
Qed.

Lemma padd_cancel_r P P' Q : on_curve P -> on_curve P' -> on_curve Q -> padd P Q = padd P' Q -> P = P'.
Proof. intros H H' HQ E. rewrite <- (padd_sub P Q), E by done. by apply padd_sub. Qed.

(** Both sums are finite and no outer sum is a doubling. *)
Lemma assoc_generic x1 y1 q s l m x3 y3 : secant l q s x1 -> secant m q s x3 ->
  y1 = (s + l * (x1 - q))%F -> y3 = (s + m * (x3 - q))%F ->
  (third l q s x1).1 <> x3 -> (third m q s x3).1 <> x1 ->
  padd (Some (third l q s x1)) (Some (x3, y3)) = padd (Some (x1, y1)) (Some (third m q s x3)).
Proof.
  intros Hl Hm -> ->. pose proof (generic_x q s l m x1 x3 Hl Hm) as GX. pose proof (generic_y q s l m x1 x3 Hl Hm) as GY.
  unfold third. cbv zeta in *. cbn [fst].
  set (x4 := (l * l - x1 - q)%F) in *. set (x5 := (m * m - x3 - q)%F) in *.
  set (y4 := (l * (q - x4) - s)%F) in *. set (y5 := (m * (q - x5) - s)%F) in *.
  set (y1 := (s + l * (x1 - q))%F) in *. set (y3 := (s + m * (x3 - q))%F) in *. intros H4 H5.
  pose proof (fld_sub_nz _ _ (not_eq_sym H4)) as D4. pose proof (fld_sub_nz _ _ H5) as D5.
  pose proof (slope_mul (y3 - y4) (x3 - x4) D4)%F as L3. pose proof (slope_mul (y5 - y1) (x5 - x1) D5)%F as L4.
  set (k := ((y3 - y4) / (x3 - x4))%F) in *. set (j := ((y5 - y1) / (x5 - x1))%F) in *.
  rewrite (padd_distinct _ _ _ _ k H4 L3), (padd_distinct _ _ _ _ j (not_eq_sym H5) L4).
  clearbody k j x4 x5 y4 y5 y1 y3. rewrite <- L3, <- L4 in GX, GY. clear L3 L4 Hl Hm. unfold chord. cbv zeta.
  set (d := (x3 - x4)%F) in *. set (e := (x5 - x1)%F) in *.
  assert (k * k - x4 - x3 = j * j - x1 - x5)%F as EX.
  { apply (fld_cancel (d * d * (e * e))%F); [by repeat apply fld_mul_nz|].
    transitivity (k * d * (k * d) * (e * e) - (x4 + x3) * (d * d) * (e * e))%F; [ring|].
    transitivity (k * d * (k * d) * (e * e) - (j * e * (j * e) * (d * d)) + j * e * (j * e) * (d * d) - (x4 + x3) * (d * d) * (e * e))%F; [ring|].
    rewrite GX. ring. }
  rewrite <- EX. do 2 f_equal. apply (fld_cancel (d * d * d * e)%F); [by repeat apply fld_mul_nz|].
  transitivity (k * d * (x4 * (d * d) - (k * d * (k * d) - (x4 + x3) * (d * d))) * e - y4 * (d * d * d) * e)%F; [ring|].
  rewrite GY. ring.
Qed.

(** The sum [P + Q] is the third point, so that the outer left sum is a doubling. *)
Lemma assoc_tangent x1 y1 q s l m : secant l q s x1 -> y1 = (s + l * (x1 - q))%F ->
  let '(x3, y3) := third l q s x1 in
  y3 = (s + m * (x3 - q))%F -> x3 <> q -> y3 <> 0%F -> (third m q s x3).1 <> x1 ->
  padd (Some (x3, y3)) (Some (x3, y3)) = padd (Some (x1, y1)) (Some (third m q s x3)).
Proof.
  intros Hl Hy1. unfold third. cbv zeta. set (x3 := (l * l - x1 - q)%F). set (y3 := (l * (q - x3) - s)%F).
  cbn [fst]. set (x5 := (m * m - x3 - q)%F). intros Hy3 Hx3 Hnz H5.
  pose proof (fld_sub_nz _ _ Hx3) as Hd. set (d := (x3 - q)%F) in *.
  assert (secant l q s (q + d)) as Hl'.
  { unfold secant in *. transitivity (q * q + q * x1 + x1 * x1 - l * l * (q + x1) - 2 * l * (s - l * q))%F; [|done].
    unfold d, x3. ring. }
  pose proof (tangent_xy q s l d Hl') as [GX GY]. cbv zeta in GX, GY.
  replace (q + d)%F with x3 in * by (unfold d; ring). fold y3 in GX, GY.
  replace (l * l - q - x3)%F with x1 in * by (unfold x3; ring). rewrite <- Hy1 in GX, GY.
  assert (y3 - s = m * d)%F as Hw by (rewrite Hy3; ring). rewrite Hw in GX, GY.
  pose proof (fld_sub_nz _ _ H5) as D5. set (y5 := (m * (q - x5) - s)%F).
  pose proof (slope_mul (y5 - y1) (x5 - x1) D5)%F as L4. set (j := ((y5 - y1) / (x5 - x1))%F) in *.
  assert (2 * y3 <> 0)%F as He by (apply fld_mul_nz; [apply fld_2|done]).
  pose proof (slope_mul (3 * x3 * x3) (2 * y3) He)%F as L3. set (k := (3 * x3 * x3 / (2 * y3))%F) in *.
  rewrite (padd_same _ _ k Hnz L3), (padd_distinct _ _ _ _ j (not_eq_sym H5) L4). unfold chord. cbv zeta.
  assert (m * d * (m * d) - (x3 + q) * (d * d) = x5 * (d * d))%F as E5 by (unfold x5; ring). rewrite E5 in GX, GY.
  replace (m * d * (q * (d * d) - x5 * (d * d)) - s * (d * d * d))%F with (y5 * (d * d * d))%F in * by (unfold y5; ring).
  rewrite <- L3 in GX, GY. set (e := (2 * y3)%F) in *. set (c := (x5 - x1)%F) in *.
  replace (y5 * (d * d * d) - y1 * (d * d * d))%F with (j * c * (d * d * d))%F in * by (rewrite L4; ring).
  replace (x5 * (d * d) - x1 * (d * d))%F with (c * (d * d))%F in * by (unfold c; ring).
  clearbody x3 y3 x5 d k j e c y5.
  assert (k * k - x3 - x3 = j * j - x1 - x5)%F as EX.
  { set (f := (d * d * d * d * d * d * (e * e) * (c * c))%F). apply (fld_cancel f); [by repeat apply fld_mul_nz|].
    transitivity (d * d * (k * e * (k * e) * (c * (d * d) * (c * (d * d)))) - j * c * (d * d * d) * (j * c * (d * d * d)) * (e * e) +
      f * (j * j) - f * (x3 + x3))%F; [unfold f; ring|]. rewrite GX. unfold f. ring. }
  rewrite <- EX. do 2 f_equal. apply (fld_cancel (e * e * e * c * d * d * d)%F); [by repeat apply fld_mul_nz|].
  transitivity ((k * e * (x3 * (e * e) - (k * e * (k * e) - 2 * x3 * (e * e))) - y3 * (e * e * e)) * (c * (d * d)) * d)%F; [ring|].
  rewrite GY. ring.
Qed.

Lemma padd_self_ne P Q : on_curve P -> on_curve Q -> padd P Q = Q -> P = None.
Proof. intros HP HQ E. by rewrite <- (padd_sub P Q), E, padd_neg_r. Qed.

(** Associativity when the left outer sum is not a cancellation and the right
    one is neither that nor a doubling. *)
Lemma assoc_step P Q R : on_curve P -> on_curve Q -> on_curve R ->
  P <> pneg Q -> Q <> pneg R -> padd P Q <> pneg R -> P <> pneg (padd Q R) -> P <> padd Q R ->
  padd (padd P Q) R = padd P (padd Q R).
Proof.
  destruct P as [[x1 y1]|]; [|done]. destruct Q as [[q s]|]; [|done]. destruct R as [[x3 y3]|]; [|intros; by rewrite !padd_0_r].
  intros HP HQ HR. rewrite (padd_comm (Some (q, s)) (Some (x3, y3))) by done. intros N1 N2 N3 N4 N5.
  destruct (sum_line x1 y1 q s HP HQ) as [[_ [= -> ->]]|(l & Hl & Hy1 & El & _)]; [done|].
  destruct (sum_line x3 y3 q s HR HQ) as [[_ [= -> ->]]|(m & Hm & Hy3 & Em & _)].
  { destruct N2. cbn. do 2 f_equal. ring. }
  pose proof (padd_on_curve _ _ HP HQ) as HPQ. pose proof (padd_on_curve _ _ HR HQ) as HQR.
  rewrite Em in N4, N5, HQR |- *. rewrite El in N3, HPQ |- *.
  assert ((third m q s x3).1 <> x1) as H5.
  { destruct (third m q s x3) as [x5 y5]. cbn [fst]. intros ->. destruct (same_abscissa _ _ _ HP HQR) as [-> | ->]; done. }
  destruct (Zmod.eqb (third l q s x1).1 x3) eqn:E.
  - apply fld_eqb in E. assert (third l q s x1 = (x3, y3)) as E3.
    { destruct (third l q s x1) as [x4 y4]. cbn [fst] in E. subst x4. by destruct (same_abscissa _ _ _ HPQ HR) as [-> | ->]. }
    pose proof (assoc_tangent x1 y1 q s l m Hl Hy1) as HT. rewrite E3 in HT |- *. apply HT; [done| |by apply (curve_y_nz x3)|done].
    intros ->. destruct (same_abscissa _ _ _ HR HQ) as [-> | ->]; [|by destruct N2; cbn; do 2 f_equal; ring].
    rewrite E3 in El. by apply padd_self_ne in El.
  - apply fld_eqb_false in E. by apply assoc_generic.
Qed.

#[export] Instance point_eq_dec : EqDecision point.
Proof.
  intros P Q. destruct P as [[x1 y1]|], Q as [[x2 y2]|]; [|by right..|by left].
  destruct (Zmod.eqb x1 x2) eqn:Hx; [apply fld_eqb in Hx; subst; destruct (Zmod.eqb y1 y2) eqn:Hy|].
  - apply fld_eqb in Hy. subst. by left.
  - apply fld_eqb_false in Hy. right. congruence.
  - apply fld_eqb_false in Hx. right. congruence.
Defined.

#[local] Hint Resolve pneg_on_curve padd_on_curve : core.

Lemma padd_sub_l P Q : on_curve P -> on_curve Q -> padd (pneg Q) (padd Q P) = P.
Proof. intros HP HQ. rewrite (padd_comm Q P), padd_comm by auto. by apply padd_sub. Qed.

Lemma pneg_self P : on_curve P -> P = pneg P -> P = None.
Proof. destruct P as [[x y]|]; [|done]. intros H [= E]. by apply (fld_opp_nz x) in E. Qed.

Lemma padd_assoc P Q R : on_curve P -> on_curve Q -> on_curve R -> padd (padd P Q) R = padd P (padd Q R).
Proof.
  intros HP HQ HR.
  destruct (decide (P = pneg Q)) as [->|N1].
  { rewrite padd_sub_l, (padd_comm (pneg Q)), padd_neg_r by auto. done. }
  destruct (decide (Q = pneg R)) as [->|N2].
  { rewrite (padd_comm (pneg R)), padd_neg_r, padd_0_r by auto. rewrite <- (pneg_involutive R) at 2. by rewrite padd_sub by auto. }
  destruct (decide (padd P Q = pneg R)) as [E|N3].
  { rewrite E, (padd_comm (pneg R)), padd_neg_r by auto. rewrite <- (pneg_involutive R), <- E, pneg_padd, (padd_comm (pneg P)) by auto.
    rewrite <- (pneg_involutive Q) at 1. rewrite padd_sub_l by auto. by rewrite padd_neg_r. }
  destruct (decide (P = pneg (padd Q R))) as [E|N4].
  { rewrite E, (padd_comm (pneg (padd Q R)) (padd Q R)), padd_neg_r by auto.
    rewrite pneg_padd, (padd_comm (pneg Q)) by auto. rewrite <- (pneg_involutive Q) at 2. rewrite padd_sub by auto.
    by rewrite padd_comm, padd_neg_r by auto. }
  destruct (decide (P = padd Q R)) as [E5|N5]; [|by apply assoc_step].
  destruct (decide (R = padd P Q)) as [E6|N6].
  - assert (padd P (pneg R) = Q) as A by (rewrite E5; by apply padd_sub).
    assert (padd R (pneg P) = Q) as B by (rewrite E6, (padd_comm P Q) by auto; by apply padd_sub).
    assert (Q = pneg Q) as C by (rewrite <- B at 2; rewrite pneg_padd, pneg_involutive, padd_comm by auto; done).
    apply pneg_self in C; [|done]. by rewrite C, padd_0_r.
  - rewrite (padd_comm _ R), (padd_comm P Q), (padd_comm P (padd Q R)), (padd_comm Q R) by auto. symmetry.
    apply assoc_step; [done..| | | | |].
    + intros ->. by rewrite pneg_involutive in N2.
    + intros ->. by rewrite pneg_involutive in N1.
    + rewrite padd_comm by auto. intros E. by rewrite E, pneg_involutive in N4.
    + rewrite padd_comm by auto. intros ->. by rewrite pneg_involutive in N3.
    + by rewrite padd_comm by auto.
Qed.

(** ** Multiples *)

Fixpoint pmul (p : positive) (P : point) : point :=
  match p with
  | xH => P
  | xO p => pmul p (padd P P)
  | xI p => padd P (pmul p (padd P P))
  end.

Definition zmul (k : Z) (P : point) : point :=
  match k with Z0 => None | Zpos p => pmul p P | Zneg p => pneg (pmul p P) end.

Lemma pmul_on_curve p P : on_curve P -> on_curve (pmul p P).
Proof. revert P. induction p; cbn [pmul]; auto. Qed.
#[local] Hint Resolve pmul_on_curve : core.

Lemma zmul_on_curve k P : on_curve P -> on_curve (zmul k P).
Proof. destruct k; cbn [zmul]; auto. done. Qed.
#[local] Hint Resolve zmul_on_curve : core.

Lemma pmul_succ p P : on_curve P -> pmul (Pos.succ p) P = padd P (pmul p P).
Proof.
  revert P. induction p as [p IH|p IH|]; intros P HP; [|done|done].
  change (pmul (Pos.succ p) (padd P P) = padd P (padd P (pmul p (padd P P)))). rewrite IH, padd_assoc by auto. done.
Qed.

Lemma zmul_0 P : zmul 0 P = None.
Proof. done. Qed.
Lemma zmul_1 P : zmul 1 P = P.
Proof. done. Qed.

Lemma zmul_opp k P : zmul (- k) P = pneg (zmul k P).
Proof. destruct k; cbn [zmul Z.opp]; [done|done|by rewrite pneg_involutive]. Qed.

Lemma zmul_succ k P : on_curve P -> zmul (Z.succ k) P = padd P (zmul k P).
Proof.
  intros HP. destruct k as [|p|p]; [by rewrite padd_0_r| |].
  - rewrite <- Pos2Z.inj_succ. by apply pmul_succ.
  - destruct (decide (p = 1%positive)) as [->|Hp]; [cbn; by rewrite padd_neg_r|].
    destruct (Pos.succ_pred_or p) as [|Hs]; [done|]. set (q := Pos.pred p) in *. clearbody q. subst p.
    replace (Z.succ (Z.neg (Pos.succ q))) with (Z.neg q) by lia. cbn [zmul]. rewrite pmul_succ, pneg_padd by auto.
    rewrite <- padd_assoc, padd_neg_r by auto. done.
Qed.

Lemma zmul_pred k P : on_curve P -> zmul (Z.pred k) P = padd (pneg P) (zmul k P).
Proof.
  intros HP. rewrite <- (Z.succ_pred k) at 2. rewrite zmul_succ, <- padd_assoc, (padd_comm (pneg P)), padd_neg_r by auto.
  done.
Qed.

Lemma zmul_add a b P : on_curve P -> zmul (a + b) P = padd (zmul a P) (zmul b P).
Proof.
  intros HP. induction a using Z.peano_ind.
  - done.
  - by rewrite Z.add_succ_l, !zmul_succ, IHa, padd_assoc by auto.
  - by rewrite Z.add_pred_l, !zmul_pred, IHa, padd_assoc by auto.
Qed.

Lemma zmul_sub a b P : on_curve P -> zmul (a - b) P = padd (zmul a P) (pneg (zmul b P)).
Proof. intros HP. by rewrite <- Z.add_opp_r, zmul_add, zmul_opp by done. Qed.

Lemma zmul_none k : zmul k None = None.
Proof.
  destruct k as [|p|p]; [done|..]; cbn [zmul]; [|change None with (pneg None); f_equal]; induction p; cbn [pmul]; auto.
  all: by rewrite IHp.
Qed.

Lemma zmul_mul a b P : on_curve P -> zmul (a * b) P = zmul a (zmul b P).
Proof.
  intros HP. induction a using Z.peano_ind.
  - done.
  - by rewrite Z.mul_succ_l, Z.add_comm, zmul_succ, zmul_add, IHa by auto.
  - rewrite zmul_pred, <- IHa by auto. replace (Z.pred a * b) with (- b + a * b) by lia. by rewrite zmul_add, zmul_opp by auto.
Qed.

Lemma padd_swap P Q R T : on_curve P -> on_curve Q -> on_curve R -> on_curve T ->
  padd (padd P Q) (padd R T) = padd (padd P R) (padd Q T).
Proof.
  intros HP HQ HR HT. rewrite !padd_assoc by auto. f_equal. rewrite <- !padd_assoc by auto. f_equal. by apply padd_comm.
Qed.

Lemma zmul_padd k P Q : on_curve P -> on_curve Q -> zmul k (padd P Q) = padd (zmul k P) (zmul k Q).
Proof.
  intros HP HQ. induction k using Z.peano_ind.
  - done.
  - by rewrite !zmul_succ, IHk, padd_swap by auto.
  - by rewrite !zmul_pred, IHk, pneg_padd, padd_swap by auto.
Qed.

(** Multiples of a point of order [n] depend on the factor modulo [n]. *)
Lemma zmul_mod n k P : on_curve P -> n <> 0 -> zmul n P = None -> zmul (k mod n) P = zmul k P.
Proof.
  intros HP Hn H0. rewrite (Z.div_mod k n) at 2 by done. rewrite zmul_add, Z.mul_comm, zmul_mul, H0, zmul_none by done. done.
Qed.

Lemma zmul_congr n a b P : on_curve P -> n <> 0 -> zmul n P = None -> a mod n = b mod n -> zmul a P = zmul b P.
Proof. intros HP Hn H0 E. by rewrite <- (zmul_mod n a), E, zmul_mod. Qed.

(** In a group of prime order only multiples of the order vanish. *)
Lemma zmul_eq_none n k P : Z.prime n -> on_curve P -> zmul n P = None -> P <> None -> zmul k P = None -> k mod n = 0.
Proof.
  intros Hn HP H0 HPn Hk. destruct (decide (k mod n = 0)) as [|Hnz]; [done|]. destruct HPn.
  pose proof (Z.prime_ge_2 n Hn). assert (Z.coprime k n) as Hc.
  { unfold Z.coprime. rewrite Z.gcd_comm. apply Z.coprime_prime_l; [done|]. intros Hd. apply Hnz. by apply Z.mod_divide; [lia|]. }
  destruct (proj1 (Z.Bezout_coprime_iff k n) Hc) as (u & v & Huv).
  rewrite <- (zmul_1 P), <- Huv, zmul_add, !zmul_mul, Hk, H0, !zmul_none by done. done.
Qed.
