(* ===== verification/CurveOrder.v ===== *)
(** * The order of the curve

    The generator of secp256k1 has the prime order n, checked by computing with
    machine-word numbers, and every point of the curve is one of its multiples:
    three cosets would be more points than the curve can have. *)

From Stdlib Require Import Zmod Ring Field.
From Bignums Require Import BigZ.
From S2P Require Import Prelude Primality Curve CurveGroup.

(** ** Jacobian arithmetic on machine-word numbers *)

Definition big_fp : bigZ := BigZ.of_Z fp.
Definition bmul (a b : bigZ) : bigZ := BigZ.modulo (BigZ.mul a b) big_fp.
Definition btwice (a : bigZ) : bigZ := BigZ.add a a.
Definition bzero (a : bigZ) : bool := BigZ.eqb (BigZ.modulo a big_fp) BigZ.zero.

(** A point with x = X / Z^2 and y = Y / Z^3. *)
Definition jac : Type := option (bigZ * bigZ * bigZ).

Definition jdouble (J : jac) : jac :=
  match J with
  | None => None
  | Some (X, Y, Z) =>
    let M := bmul X X in let M := BigZ.add M (btwice M) in
    let Y2 := bmul Y Y in
    let S := btwice (btwice (bmul X Y2)) in
    let X' := BigZ.sub (bmul M M) (btwice S) in
    Some (X', BigZ.sub (bmul M (BigZ.sub S X')) (btwice (btwice (btwice (bmul Y2 Y2)))), btwice (bmul Y Z))
  end.

Definition jadd (J K : jac) : jac :=
  match J, K with
  | None, _ => K
  | _, None => J
  | Some (X1, Y1, Z1), Some (X2, Y2, Z2) =>
    let Z11 := bmul Z1 Z1 in let Z22 := bmul Z2 Z2 in
    let U := bmul X1 Z22 in let S := bmul Y1 (bmul Z2 Z22) in
    let H := BigZ.sub (bmul X2 Z11) U in let R := BigZ.sub (bmul Y2 (bmul Z1 Z11)) S in
    if bzero H then if bzero R then jdouble J else None
    else
      let H2 := bmul H H in let H3 := bmul H H2 in let V := bmul U H2 in
      let X' := BigZ.sub (BigZ.sub (bmul R R) H3) (btwice V) in
      Some (X', BigZ.sub (bmul R (BigZ.sub V X')) (bmul S H3), bmul H (bmul Z1 Z2))
  end.

Fixpoint jmul (p : positive) (J : jac) : jac :=
  match p with
  | xH => J
  | xO p => jmul p (jdouble J)
  | xI p => jadd J (jmul p (jdouble J))
  end.

(** ** What it computes *)

Definition B (a : bigZ) : fld := Zmod.of_Z fp (BigZ.to_Z a).

Lemma big_fp_spec : BigZ.to_Z big_fp = fp.
Proof. apply BigZ.spec_of_Z. Qed.

Lemma B_mul a b : B (bmul a b) = (B a * B b)%F.
Proof.
  unfold B, bmul. rewrite BigZ.spec_modulo, BigZ.spec_mul, big_fp_spec, <- Zmod.of_Z_mul. apply Zmod.of_Z_inj.
  by rewrite Z.mod_mod.
Qed.
Lemma B_add a b : B (BigZ.add a b) = (B a + B b)%F.
Proof. unfold B. by rewrite BigZ.spec_add, Zmod.of_Z_add. Qed.
Lemma B_twice a : B (btwice a) = (B a + B a)%F.
Proof. apply B_add. Qed.
Lemma B_sub a b : B (BigZ.sub a b) = (B a - B b)%F.
Proof. unfold B. by rewrite BigZ.spec_sub, Zmod.of_Z_sub. Qed.

Lemma B_zero a : bzero a = Zmod.eqb (B a) 0%F.
Proof.
  unfold bzero. rewrite BigZ.spec_eqb, BigZ.spec_modulo, big_fp_spec, BigZ.spec_0.
  apply eq_iff_eq_true. rewrite Z.eqb_eq, fld_eqb. change 0%F with (Zmod.of_Z fp 0). unfold B. by rewrite Zmod.of_Z_inj.
Qed.

#[local] Hint Rewrite B_mul B_add B_twice B_sub : bfield.

Definition jrep (J : jac) (P : point) : Prop :=
  match J, P with
  | None, None => True
  | Some (X, Y, Z), Some (x, y) => B Z <> 0%F /\ B X = (x * (B Z * B Z))%F /\ B Y = (y * (B Z * B Z * B Z))%F
  | _, _ => False
  end.

Lemma jdouble_spec J P : on_curve P -> jrep J P -> jrep (jdouble J) (padd P P).
Proof.
  destruct J as [[[X Y] Z]|], P as [[x y]|]; [|done..]. intros HP (Hz & HX & HY). pose proof (curve_y_nz x y HP) as Hy.
  assert (2 * y <> 0)%F as Hnz by (apply fld_mul_nz; [apply fld_2|done]).
  pose proof (slope_mul (3 * x * x) (2 * y) Hnz)%F as Hl. set (l := (3 * x * x / (2 * y))%F) in *.
  rewrite (padd_same x y l Hy Hl). unfold chord. cbv zeta. unfold jdouble. cbv zeta. unfold jrep.
  autorewrite with bfield. rewrite HX, HY. set (z := B Z) in *. clearbody l z.
  assert (z * z * (z * z) * z <> 0)%F as Hz5 by (by repeat apply fld_mul_nz).
  split; [|split].
  - intros E. destruct (fld_mul_nz (2 * y)%F (z * z * (z * z))%F) as []; [done|by repeat apply fld_mul_nz|]. rewrite <- E. ring.
  - transitivity ((3 * x * x * (3 * x * x) - 2 * x * (2 * y) * (2 * y)) * (z * z * (z * z)) * (z * z * (z * z)))%F; [ring|].
    rewrite <- Hl. ring.
  - transitivity ((3 * x * x * (x * (2 * y) * (2 * y) - (3 * x * x * (3 * x * x) - 2 * x * (2 * y) * (2 * y))) - y * (2 * y) * (2 * y) * (2 * y)) *
      (z * z * (z * z)) * (z * z * (z * z)) * (z * z * (z * z)))%F; [ring|].
    rewrite <- Hl. ring.
Qed.

Lemma jadd_spec J K P Q : on_curve P -> on_curve Q -> jrep J P -> jrep K Q -> jrep (jadd J K) (padd P Q).
Proof.
  intros HP HQ. destruct J as [[[X1 Y1] Z1]|], P as [[x1 y1]|]; try done.
  destruct K as [[[X2 Y2] Z2]|], Q as [[x2 y2]|]; try done. intros HJ HK.
  pose proof (jdouble_spec (Some (X1, Y1, Z1)) (Some (x1, y1)) HP HJ) as Hd.
  unfold jadd. cbv zeta. rewrite !B_zero. autorewrite with bfield.
  destruct HJ as (Hz1 & HX1 & HY1), HK as (Hz2 & HX2 & HY2). rewrite HX1, HY1, HX2, HY2.
  set (z := B Z1) in *. set (w := B Z2) in *. assert (z * w <> 0)%F as Hzw by (by apply fld_mul_nz).
  assert (forall a b c : fld, c <> 0%F -> Zmod.eqb (c * (a - b)) 0%F = Zmod.eqb a b) as Hcmp.
  { intros a b c Hc. apply eq_iff_eq_true. rewrite !fld_eqb. split; [|intros ->; ring].
    intros [?|E]%fld_integral; [done|]. transitivity (a - b + b)%F; [ring|]. rewrite E. ring. }
  replace (x2 * (w * w) * (z * z) - x1 * (z * z) * (w * w))%F with (z * w * (z * w) * (x2 - x1))%F by ring.
  replace (y2 * (w * w * w) * (z * (z * z)) - y1 * (z * z * z) * (w * (w * w)))%F with (z * w * (z * w) * (z * w) * (y2 - y1))%F by ring.
  rewrite !Hcmp by (by repeat apply fld_mul_nz).
  destruct (Zmod.eqb x2 x1) eqn:Hx; [apply fld_eqb in Hx; subst x2; destruct (Zmod.eqb y2 y1) eqn:Hy|].
  - apply fld_eqb in Hy. by subst y2.
  - apply fld_eqb_false in Hy. unfold padd. rewrite (proj2 (fld_eqb _ _) eq_refl), (proj2 (fld_eqb_false _ _)); [done|congruence].
  - apply fld_eqb_false in Hx. pose proof (slope_mul (y2 - y1) (x2 - x1) (fld_sub_nz _ _ Hx))%F as Hl.
    set (l := ((y2 - y1) / (x2 - x1))%F) in *. rewrite (padd_distinct _ _ _ _ l (not_eq_sym Hx) Hl).
    unfold chord. cbv zeta. unfold jrep. autorewrite with bfield. rewrite HX1, HY1, HX2, HY2. fold z w.
    assert (y2 = y1 + l * (x2 - x1))%F as Hy2 by (rewrite Hl; ring).
    split; [|split; rewrite Hy2; ring].
    intros E. destruct (fld_mul_nz (z * w * (z * w) * (x2 - x1))%F (z * w)%F) as []; [|done|rewrite <- E; ring].
    by repeat apply fld_mul_nz; try apply fld_sub_nz.
Qed.

Lemma jmul_spec p J P : on_curve P -> jrep J P -> jrep (jmul p J) (pmul p P).
Proof.
  revert J P. induction p as [p IH|p IH|]; intros J P HP HJ; cbn [jmul pmul]; [|by apply IH, jdouble_spec; try apply padd_on_curve|done].
  apply jadd_spec; [done|by apply pmul_on_curve, padd_on_curve|done|]. by apply IH, jdouble_spec; try apply padd_on_curve.
Qed.

Definition jac_of (x y : Z) : jac := Some (BigZ.of_Z x, BigZ.of_Z y, BigZ.one).

Lemma jac_of_spec x y : jrep (jac_of x y) (Some (Zmod.of_Z fp x, Zmod.of_Z fp y)).
Proof.
  unfold jac_of, jrep, B. rewrite !BigZ.spec_of_Z, BigZ.spec_1. change (Zmod.of_Z fp 1) with 1%F.
  split; [|split; ring]. intros H. apply (f_equal Zmod.to_Z) in H. by vm_compute in H.
Qed.

(** ** The generator *)

Definition gen_x : Z := 0x79BE667EF9DCBBAC55A06295CE870B07029BFCDB2DCE28D959F2815B16F81798.
Definition gen_y : Z := 0x483ADA7726A3C4655DA4FBFC0E1108A8FD17B448A68554199C47D08FFB10D4B8.
Definition gen : point := Some (Zmod.of_Z fp gen_x, Zmod.of_Z fp gen_y).

Lemma gen_on_curve : on_curve gen.
Proof. apply Zmod.to_Z_inj. vm_compute. reflexivity. Qed.

Lemma gen_order_check : jmul (Z.to_pos order) (jac_of gen_x gen_y) = None.
Proof. vm_compute. reflexivity. Qed.

Lemma gen_order : zmul order gen = None.
Proof.
  pose proof (jmul_spec (Z.to_pos order) _ _ gen_on_curve (jac_of_spec gen_x gen_y)) as H.
  rewrite gen_order_check in H. change (zmul order gen) with (pmul (Z.to_pos order) gen).
  fold gen in H. by destruct (pmul (Z.to_pos order) gen).
Qed.

Lemma gen_finite : gen <> None.
Proof. done. Qed.

(** ** Counting *)

#[local] Opaque fp order.

(** The abscissa and the parity of the ordinate tell a point. *)
Definition code (P : point) : Z :=
  match P with None => 0 | Some (x, y) => 1 + (2 * Zmod.to_Z x + Zmod.to_Z y mod 2) end.

Lemma to_Z_range (x : fld) : 0 <= Zmod.to_Z x < fp.
Proof. pose proof (Zmod.to_Z_range x). assert (0 < fp) by (by vm_compute). lia. Qed.

Lemma code_range P : 0 <= code P < 2 * fp + 1.
Proof. destruct P as [[x y]|]; cbn [code]; [pose proof (to_Z_range x); dlia|]. by vm_compute. Qed.

Lemma fp_odd : fp mod 2 = 1.
Proof. by vm_compute. Qed.

Lemma code_inj P Q : on_curve P -> on_curve Q -> code P = code Q -> P = Q.
Proof.
  destruct P as [[x1 y1]|], Q as [[x2 y2]|]; intros HP HQ; cbn [code];
    [|pose proof (to_Z_range x1); dlia|pose proof (to_Z_range x2); dlia|done].
  intros E. assert (Zmod.to_Z x1 = Zmod.to_Z x2 /\ Zmod.to_Z y1 mod 2 = Zmod.to_Z y2 mod 2) as [Ex%Zmod.to_Z_inj Ey] by dlia.
  subst x2. destruct (same_abscissa _ _ _ HP HQ) as [->|E1]; [done|]. exfalso.
  pose proof (curve_y_nz _ _ HQ) as Hy2. assert (Zmod.to_Z y2 <> 0) as Hnz.
  { intros E0. apply Hy2, Zmod.to_Z_inj. by rewrite E0, Zmod.to_Z_0. }
  rewrite E1, Zmod.to_Z_opp in Ey. pose proof (to_Z_range y2).
  replace (- Zmod.to_Z y2) with (fp - Zmod.to_Z y2 + (-1) * fp) in Ey by lia.
  rewrite Z.mod_add, (Z.mod_small (fp - Zmod.to_Z y2)) in Ey by lia. pose proof fp_odd. dlia.
Qed.

Lemma points_bound (l : list point) : NoDup l -> Forall on_curve l -> Z.of_nat (length l) <= 2 * fp + 1.
Proof.
  intros Hnd Hc. assert (NoDup (code <$> l)) as Hnd'.
  { clear -Hnd Hc. induction Hnd as [|P l Hin _ IH]; [constructor|]. apply Forall_cons in Hc as [HP Hc].
    cbn. constructor; [|by apply IH]. intros (Q & HQ & Hin')%list_elem_of_fmap. rewrite Forall_forall in Hc.
    apply Hin. by rewrite (code_inj P Q HP (Hc Q Hin') HQ). }
  assert (code <$> l ⊆+ seqZ 0 (2 * fp + 1)) as Hs.
  { apply NoDup_submseteq; [done|]. intros c (P & -> & _)%list_elem_of_fmap. apply elem_of_seqZ. pose proof (code_range P). lia. }
  apply submseteq_length in Hs. rewrite length_fmap, length_seqZ in Hs.
  assert (0 <= 2 * fp + 1) by (by vm_compute). lia.
Qed.

Lemma order_large : 2 * fp + 1 < 3 * order /\ order mod 2 = 1 /\ 2 < order.
Proof. by vm_compute. Qed.

(** The multiples of the generator, moved by [P]. *)
Definition coset (P : point) : list point := (fun i => padd P (zmul i gen)) <$> seqZ 0 order.

Lemma gen_multiple_small a b : 0 <= a < order -> 0 <= b < order -> zmul a gen = zmul b gen -> a = b.
Proof.
  intros Ha Hb E. assert (zmul (a - b) gen = None) as H0.
  { rewrite zmul_sub, E by apply gen_on_curve. apply padd_neg_r, zmul_on_curve, gen_on_curve. }
  apply (zmul_eq_none order) in H0; [|apply prime_order|apply gen_on_curve|apply gen_order|apply gen_finite].
  destruct (decide (b <= a)) as [Hle|Hle].
  - rewrite Z.mod_small in H0 by lia. lia.
  - replace (a - b) with (order - (b - a) + (-1) * order) in H0 by lia. rewrite Z.mod_add, Z.mod_small in H0 by lia. lia.
Qed.

#[local] Hint Resolve gen_on_curve zmul_on_curve pneg_on_curve padd_on_curve : core.

Lemma padd_cancel_l P Q R : on_curve P -> on_curve Q -> on_curve R -> padd P Q = padd P R -> Q = R.
Proof. intros HP HQ HR. rewrite !(padd_comm P) by auto. by apply padd_cancel_r. Qed.

Lemma coset_elem P Q : Q ∈ coset P <-> exists i, 0 <= i < order /\ Q = padd P (zmul i gen).
Proof.
  unfold coset. rewrite list_elem_of_fmap. split; intros (i & H1 & H2); exists i; rewrite elem_of_seqZ in *; split; (done || lia).
Qed.

Lemma coset_NoDup P : on_curve P -> NoDup (coset P).
Proof.
  intros HP. unfold coset. apply NoDup_fmap_2_strong; [|apply NoDup_seqZ]. intros i j Hi Hj.
  rewrite elem_of_seqZ in *. intros E%padd_cancel_l; auto. apply gen_multiple_small; (done || lia).
Qed.

Lemma coset_length P : length (coset P) = Z.to_nat order.
Proof. unfold coset. by rewrite length_fmap, length_seqZ. Qed.

Lemma coset_on_curve P : on_curve P -> Forall on_curve (coset P).
Proof. intros HP. apply Forall_forall. intros Q (i & _ & ->)%coset_elem. auto. Qed.

(** Two cosets that meet differ by a multiple of the generator. *)
Lemma coset_meet P Q T : on_curve P -> on_curve Q -> T ∈ coset P -> T ∈ coset Q -> exists k, P = padd Q (zmul k gen).
Proof.
  intros HP HQ (i & _ & ->)%coset_elem (j & _ & E)%coset_elem. exists (j - i).
  rewrite <- (padd_sub P (zmul i gen)), E, zmul_sub, padd_assoc by auto. done.
Qed.

Lemma half_multiple P k : on_curve P -> padd P P = zmul k gen -> exists h, P = zmul h gen.
Proof.
  intros HP E. exists (k * ((order + 1) / 2)). set (h := k * ((order + 1) / 2)).
  assert (zmul (2 * h) gen = padd P P) as Eh.
  { rewrite E. apply (zmul_congr order); [auto|by vm_compute|apply gen_order|]. destruct order_large as (_ & Ho & _).
    assert (2 * ((order + 1) / 2) = order + 1) as E2 by dlia. subst h.
    replace (2 * (k * ((order + 1) / 2))) with (k * (2 * ((order + 1) / 2))) by ring. rewrite E2.
    replace (k * (order + 1)) with (k + k * order) by ring. apply Z.mod_add. by vm_compute. }
  set (T := padd P (pneg (zmul h gen))). assert (padd T T = None) as HT.
  { subst T. rewrite padd_swap, <- Eh, <- pneg_padd, <- zmul_add by auto. replace (h + h) with (2 * h) by lia.
    by apply padd_neg_r; auto. }
  apply padd_none in HT; [|by subst T; auto..]. apply pneg_self in HT; [|by subst T; auto].
  subst T. apply padd_none in HT; auto. by rewrite HT, pneg_involutive.
Qed.

#[local] Opaque coset.

(** Every point of the curve is a multiple of the generator. *)
Lemma curve_generated P : on_curve P -> exists k, P = zmul k gen.
Proof.
  intros HP. destruct (decide (P ∈ coset None)) as [(i & _ & ->)%coset_elem|Hin]; [by exists i|]. exfalso.
  assert (forall k, P <> zmul k gen) as Hne.
  { intros k ->. apply Hin, coset_elem. exists (k mod order). destruct order_large as (_ & _ & ?).
    split; [apply Z.mod_pos_bound; lia|]. by rewrite padd_0_l, (zmul_mod order) by (auto using gen_order; lia). }
  pose proof (points_bound (coset None ++ coset P ++ coset (pneg P))) as Hb.
  rewrite !length_app, !coset_length in Hb.
  destruct order_large as (H3 & _ & H2). enough (Z.of_nat (Z.to_nat order + (Z.to_nat order + Z.to_nat order)) <= 2 * fp + 1) by lia.
  apply Hb.
  - apply NoDup_app. split; [by apply coset_NoDup|]. split.
    + intros T HT [HT'|HT']%elem_of_app.
      * destruct (coset_meet P None T HP I HT' HT) as [k Hk]. exact (Hne k Hk).
      * destruct (coset_meet (pneg P) None T (pneg_on_curve P HP) I HT' HT) as [k Hk].
        apply (Hne (- k)). rewrite zmul_opp, <- (pneg_involutive P), Hk. reflexivity.
    + apply NoDup_app. split; [by apply coset_NoDup|]. split; [|by apply coset_NoDup; auto].
      intros T HT HT'. destruct (coset_meet P (pneg P) T HP (pneg_on_curve P HP) HT HT') as [k Hk].
      destruct (half_multiple P k HP) as [h Hh]; [|by apply (Hne h)]. rewrite Hk at 1.
      rewrite (padd_comm (pneg P)), padd_assoc, (padd_comm (pneg P)), padd_neg_r, padd_0_r by auto. done.
  - rewrite !Forall_app. split_and!; apply coset_on_curve; auto. done.
Qed.

Lemma curve_order P : on_curve P -> zmul order P = None.
Proof.
  intros HP. destruct (curve_generated P HP) as [k ->]. by rewrite <- zmul_mul, Z.mul_comm, zmul_mul, gen_order, zmul_none by auto.
Qed.
