(* ===== verification/Bytes.v ===== *)
(** * Bytes and integer encodings

    Bytes are [Z] values in [0, 256).  Little-endian encodings of fixed-width
    integers, byte swapping, and the host byte order as a parameter: what
    [reinterpret_cast] of an integer to bytes yields depends on it, and
    [htole]/[letoh] ([salticidae/type.h]) undo that dependence. *)

From Stdlib Require Import ZArith Lia.
From S2P Require Import Prelude.

Definition byte_ok (b : Z) : Prop := 0 <= b < 256.

#[export] Instance byte_ok_dec b : Decision (byte_ok b).
Proof. unfold byte_ok. apply _. Defined.

(** The [n] low bytes of [x], least significant first. *)
Fixpoint le_bytes (n : nat) (x : Z) : list Z :=
  match n with
  | O => []
  | S n => x mod 256 :: le_bytes n (x / 256)
  end.

Fixpoint le_val (l : list Z) : Z :=
  match l with
  | [] => 0
  | b :: l => b + 256 * le_val l
  end.

Lemma le_bytes_length n x : length (le_bytes n x) = n.
Proof. revert x. induction n as [|n IH]; intros x; simpl; [done|]. by rewrite IH. Qed.

Lemma le_bytes_ok n x : Forall byte_ok (le_bytes n x).
Proof.
  revert x. induction n as [|n IH]; intros x; simpl; constructor; [|done].
  by apply Z.mod_pos_bound.
Qed.

Lemma pow256_S n : 2 ^ (8 * Z.of_nat (S n)) = 256 * 2 ^ (8 * Z.of_nat n).
Proof. replace (8 * Z.of_nat (S n)) with (8 + 8 * Z.of_nat n) by lia. by rewrite Z.pow_add_r by lia. Qed.

Lemma le_val_bytes n x : le_val (le_bytes n x) = x mod 2 ^ (8 * Z.of_nat n).
Proof.
  revert x. induction n as [|n IH]; intros x.
  - simpl. by rewrite Z.mod_1_r.
  - rewrite pow256_S. cbn [le_bytes le_val]. rewrite IH.
    rewrite Z.rem_mul_r by lia. done.
Qed.

Lemma le_val_range l : Forall byte_ok l -> 0 <= le_val l < 2 ^ (8 * Z.of_nat (length l)).
Proof.
  induction 1 as [|b l Hb _ IH]; [simpl; lia|].
  cbn [length]. rewrite pow256_S. cbn [le_val]. unfold byte_ok in Hb. lia.
Qed.

Lemma le_bytes_val l : Forall byte_ok l -> le_bytes (length l) (le_val l) = l.
Proof.
  induction 1 as [|b l Hb _ IH]; [done|]. cbn [length le_bytes le_val].
  unfold byte_ok in Hb. rewrite (Z.mul_comm 256), Z.mod_add, Z.mod_small by lia.
  rewrite Z.div_add, Z.div_small by lia. by rewrite Z.add_0_l, IH.
Qed.

Lemma le_val_small n x : 0 <= x < 2 ^ (8 * Z.of_nat n) -> le_val (le_bytes n x) = x.
Proof. intros Hx. rewrite le_val_bytes. by apply Z.mod_small. Qed.

Lemma le_bytes_inj n x y : 0 <= x < 2 ^ (8 * Z.of_nat n) -> 0 <= y < 2 ^ (8 * Z.of_nat n) ->
  le_bytes n x = le_bytes n y -> x = y.
Proof. intros Hx Hy Heq. by rewrite <- (le_val_small n x), <- (le_val_small n y), Heq. Qed.

Lemma le_val_app l1 l2 : le_val (l1 ++ l2) = le_val l1 + 2 ^ (8 * Z.of_nat (length l1)) * le_val l2.
Proof.
  induction l1 as [|b l1 IH]; [simpl; lia|]. cbn [app length]. rewrite pow256_S.
  cbn [le_val]. rewrite IH. ring.
Qed.

(** Big-endian value, as hash functions and group elements use it. *)
Definition be_bytes (n : nat) (x : Z) : list Z := reverse (le_bytes n x).
Definition be_val (l : list Z) : Z := le_val (reverse l).

Lemma be_bytes_length n x : length (be_bytes n x) = n.
Proof. unfold be_bytes. by rewrite length_reverse, le_bytes_length. Qed.

Lemma be_bytes_ok n x : Forall byte_ok (be_bytes n x).
Proof. unfold be_bytes. rewrite Forall_reverse. apply le_bytes_ok. Qed.

Lemma be_val_bytes n x : be_val (be_bytes n x) = x mod 2 ^ (8 * Z.of_nat n).
Proof. unfold be_val, be_bytes. by rewrite reverse_involutive, le_val_bytes. Qed.

Lemma be_bytes_val l : Forall byte_ok l -> be_bytes (length l) (be_val l) = l.
Proof.
  intros Hl. unfold be_bytes, be_val. rewrite <- length_reverse, le_bytes_val.
  - by rewrite reverse_involutive.
  - by rewrite Forall_reverse.
Qed.

Lemma be_val_app l1 l2 : be_val (l1 ++ l2) = be_val l1 * 2 ^ (8 * Z.of_nat (length l2)) + be_val l2.
Proof. unfold be_val. rewrite reverse_app, le_val_app, length_reverse. lia. Qed.

Lemma be_val_cons b l : be_val (b :: l) = b * 2 ^ (8 * Z.of_nat (length l)) + be_val l.
Proof. change (b :: l) with ([b] ++ l). rewrite be_val_app. f_equal. unfold be_val, reverse. cbn. lia. Qed.

Lemma be_val_range l : Forall byte_ok l -> 0 <= be_val l < 2 ^ (8 * Z.of_nat (length l)).
Proof.
  intros Hl. unfold be_val. rewrite <- length_reverse. apply le_val_range. by rewrite Forall_reverse.
Qed.

(** ** Host byte order *)

Class Host := big_endian : bool.

Section Host.
Context `{Host}.

(** The object representation of an [n]-byte integer. *)
Definition host_bytes (n : nat) (x : Z) : list Z :=
  if big_endian then be_bytes n x else le_bytes n x.
Definition host_val (l : list Z) : Z :=
  if big_endian then be_val l else le_val l.

Definition bswap (n : nat) (x : Z) : Z := le_val (be_bytes n x).

(** template htole / letoh *)
Definition htole (n : nat) (x : Z) : Z := if big_endian then bswap n x else x.
Definition letoh (n : nat) (x : Z) : Z := if big_endian then bswap n x else x.

Lemma host_bytes_length n x : length (host_bytes n x) = n.
Proof. unfold host_bytes. destruct big_endian; [apply be_bytes_length|apply le_bytes_length]. Qed.

Lemma host_bytes_ok n x : Forall byte_ok (host_bytes n x).
Proof. unfold host_bytes. destruct big_endian; [apply be_bytes_ok|apply le_bytes_ok]. Qed.

Lemma host_val_bytes n x : 0 <= x < 2 ^ (8 * Z.of_nat n) -> host_val (host_bytes n x) = x.
Proof.
  intros Hx. unfold host_val, host_bytes. destruct big_endian.
  - rewrite be_val_bytes. by apply Z.mod_small.
  - by apply le_val_small.
Qed.

Lemma host_bytes_val l : Forall byte_ok l -> host_bytes (length l) (host_val l) = l.
Proof.
  intros Hl. unfold host_val, host_bytes. destruct big_endian; [by apply be_bytes_val|by apply le_bytes_val].
Qed.

Lemma host_val_range l : Forall byte_ok l -> 0 <= host_val l < 2 ^ (8 * Z.of_nat (length l)).
Proof.
  intros Hl. unfold host_val. destruct big_endian; [by apply be_val_range|by apply le_val_range].
Qed.

Lemma bswap_range n x : 0 <= bswap n x < 2 ^ (8 * Z.of_nat n).
Proof.
  unfold bswap. pose proof (le_val_range _ (be_bytes_ok n x)) as Hr.
  by rewrite be_bytes_length in Hr.
Qed.

Lemma bswap_bytes n x : le_bytes n (bswap n x) = be_bytes n x.
Proof.
  unfold bswap. rewrite <- (be_bytes_length n x) at 1. apply le_bytes_val, be_bytes_ok.
Qed.

Lemma bswap_involutive n x : 0 <= x < 2 ^ (8 * Z.of_nat n) -> bswap n (bswap n x) = x.
Proof.
  intros Hx. unfold bswap at 1. unfold be_bytes at 1. rewrite bswap_bytes. unfold be_bytes.
  rewrite reverse_involutive. by apply le_val_small.
Qed.

(** Encoding through htole is little-endian on every host. *)
Lemma host_bytes_htole n x : host_bytes n (htole n x) = le_bytes n x.
Proof.
  unfold host_bytes, htole. destruct big_endian; [|done].
  unfold be_bytes. rewrite bswap_bytes. unfold be_bytes. by rewrite reverse_involutive.
Qed.

Lemma letoh_host_val l : Forall byte_ok l -> letoh (length l) (host_val l) = le_val l.
Proof.
  intros Hl. unfold letoh, host_val. destruct big_endian; [|done].
  unfold bswap. by rewrite be_bytes_val.
Qed.

Lemma letoh_htole n x : 0 <= x < 2 ^ (8 * Z.of_nat n) -> letoh n (htole n x) = x.
Proof.
  intros Hx. unfold letoh, htole. destruct big_endian; [by apply bswap_involutive|done].
Qed.

Lemma htole_range n x : 0 <= x < 2 ^ (8 * Z.of_nat n) -> 0 <= htole n x < 2 ^ (8 * Z.of_nat n).
Proof. intros Hx. unfold htole. destruct big_endian; [apply bswap_range|done]. Qed.
End Host.
