(* ===== verification/Scalar4x64.v ===== *)
(** * Scalars modulo the group order, in four 64-bit limbs

    [secp256k1/src/scalar_4x64_impl.h], with the portable code of the three
    512-bit routines (the assembler versions are alternatives selected by
    USE_ASM_X86_64).  The functions that write through [r] return the new
    limbs. *)

From S2P Require Import Prelude Bytes Limbs Primality.

Definition N_0 : Z := 0xBFD25E8CD0364141.
Definition N_1 : Z := 0xBAAEDCE6AF48A03B.
Definition N_2 : Z := 0xFFFFFFFFFFFFFFFE.
Definition N_3 : Z := 0xFFFFFFFFFFFFFFFF.

Definition N_C_0 : Z := u64 (not64 N_0 + 1).
Definition N_C_1 : Z := not64 N_1.
Definition N_C_2 : Z := 1.

Definition N_H_0 : Z := 0xDFE92F46681B20A0.
Definition N_H_1 : Z := 0x5D576E7357A4501D.
Definition N_H_2 : Z := 0xFFFFFFFFFFFFFFFF.
Definition N_H_3 : Z := 0x7FFFFFFFFFFFFFFF.

Record scalar := mkScalar { d0 : Z; d1 : Z; d2 : Z; d3 : Z }.

(** d[i] *)
Definition limb (a : scalar) (i : Z) : Z :=
  if i =? 0 then d0 a else if i =? 1 then d1 a else if i =? 2 then d2 a else d3 a.

Definition scalar_clear : scalar := mkScalar 0 0 0 0.
Definition scalar_set_int (v : Z) : scalar := mkScalar v 0 0 0.

Definition scalar_get_bits (a : scalar) (offset count : Z) : Z :=
  u32 (Z.land (Z.shiftr (limb a (Z.shiftr offset 6)) (Z.land offset 0x3F)) (u64 (Z.shiftl 1 count - 1))).

Definition scalar_get_bits_var (a : scalar) (offset count : Z) : Z :=
  if Z.shiftr (offset + count - 1) 6 =? Z.shiftr offset 6 then scalar_get_bits a offset count
  else u32 (Z.land (Z.lor (Z.shiftr (limb a (Z.shiftr offset 6)) (Z.land offset 0x3F))
                          (u64 (Z.shiftl (limb a (Z.shiftr offset 6 + 1)) (64 - Z.land offset 0x3F))))
                   (u64 (Z.shiftl 1 count - 1))).

(** Comparisons are 0 or 1, combined with [|], [&] and [~] on int. *)
Definition scalar_check_overflow (a : scalar) : Z :=
  let yes := 0 in let no := 0 in
  let no := Z.lor no (Z.b2z (d3 a <? N_3)) in
  let no := Z.lor no (Z.b2z (d2 a <? N_2)) in
  let yes := Z.lor yes (Z.land (Z.b2z (N_2 <? d2 a)) (Z.lnot no)) in
  let no := Z.lor no (Z.b2z (d1 a <? N_1)) in
  let yes := Z.lor yes (Z.land (Z.b2z (N_1 <? d1 a)) (Z.lnot no)) in
  Z.lor yes (Z.land (Z.b2z (N_0 <=? d0 a)) (Z.lnot no)).

Definition scalar_reduce (r : scalar) (overflow : Z) : scalar :=
  let t := u128 (d0 r + u64 (overflow * N_C_0)) in
  let r0 := lo64 t in let t := hi64 t in
  let t := u128 (t + (d1 r + u64 (overflow * N_C_1))) in
  let r1 := lo64 t in let t := hi64 t in
  let t := u128 (t + (d2 r + u64 (overflow * N_C_2))) in
  let r2 := lo64 t in let t := hi64 t in
  let t := u128 (t + d3 r) in
  mkScalar r0 r1 r2 (lo64 t).

(** Returns r and the overflow flag. *)
Definition scalar_add (a b : scalar) : scalar * Z :=
  let t := d0 a + d0 b in
  let r0 := lo64 t in let t := hi64 t in
  let t := u128 (t + (d1 a + d1 b)) in
  let r1 := lo64 t in let t := hi64 t in
  let t := u128 (t + (d2 a + d2 b)) in
  let r2 := lo64 t in let t := hi64 t in
  let t := u128 (t + (d3 a + d3 b)) in
  let r3 := lo64 t in let t := hi64 t in
  let r := mkScalar r0 r1 r2 r3 in
  let overflow := t + scalar_check_overflow r in
  (scalar_reduce r overflow, overflow).

Definition scalar_cadd_bit (r : scalar) (bit flag : Z) : scalar :=
  let bit := u32 (bit + Z.land (u32 (flag - 1)) 0x100) in
  let at_limb i := u64 (Z.shiftl (Z.b2z (Z.shiftr bit 6 =? i)) (Z.land bit 0x3F)) in
  let t := u128 (d0 r + at_limb 0) in
  let r0 := lo64 t in let t := hi64 t in
  let t := u128 (t + (d1 r + at_limb 1)) in
  let r1 := lo64 t in let t := hi64 t in
  let t := u128 (t + (d2 r + at_limb 2)) in
  let r2 := lo64 t in let t := hi64 t in
  let t := u128 (t + (d3 r + at_limb 3)) in
  mkScalar r0 r1 r2 (lo64 t).

(** b32[i]; eight bytes from [i], most significant first. *)
Definition load_be64 (b32 : list Z) (i : nat) : Z :=
  let b j := b32 !!! (i + j)%nat in
  Z.lor (Z.lor (Z.lor (Z.lor (Z.lor (Z.lor (Z.lor (b 7%nat) (Z.shiftl (b 6%nat) 8))
    (Z.shiftl (b 5%nat) 16)) (Z.shiftl (b 4%nat) 24)) (Z.shiftl (b 3%nat) 32))
    (Z.shiftl (b 2%nat) 40)) (Z.shiftl (b 1%nat) 48)) (Z.shiftl (b 0%nat) 56).

Definition scalar_set_b32 (b32 : list Z) : scalar * Z :=
  let r := mkScalar (load_be64 b32 24) (load_be64 b32 16) (load_be64 b32 8) (load_be64 b32 0) in
  let over := scalar_check_overflow r in
  (scalar_reduce r over, over).

(** Eight assignments [bin[i] = d >> 56], ..., [bin[i+7] = d] to unsigned char. *)
Definition store_be64 (d : Z) : list Z := (fun s => Z.shiftr d s mod 256) <$> [56; 48; 40; 32; 24; 16; 8; 0].

Definition scalar_get_b32 (a : scalar) : list Z :=
  store_be64 (d3 a) ++ store_be64 (d2 a) ++ store_be64 (d1 a) ++ store_be64 (d0 a).

Definition scalar_is_zero (a : scalar) : bool :=
  Z.lor (Z.lor (Z.lor (d0 a) (d1 a)) (d2 a)) (d3 a) =? 0.

Definition scalar_negate (a : scalar) : scalar :=
  let nonzero := u64 (0xFFFFFFFFFFFFFFFF * Z.b2z (negb (scalar_is_zero a))) in
  let t := u128 (not64 (d0 a) + N_0 + 1) in
  let r0 := Z.land t nonzero in let t := hi64 t in
  let t := u128 (t + (not64 (d1 a) + N_1)) in
  let r1 := Z.land t nonzero in let t := hi64 t in
  let t := u128 (t + (not64 (d2 a) + N_2)) in
  let r2 := Z.land t nonzero in let t := hi64 t in
  let t := u128 (t + (not64 (d3 a) + N_3)) in
  mkScalar r0 r1 r2 (Z.land t nonzero).

Definition scalar_is_one (a : scalar) : bool :=
  Z.lor (Z.lor (Z.lor (Z.lxor (d0 a) 1) (d1 a)) (d2 a)) (d3 a) =? 0.

Definition scalar_is_high (a : scalar) : Z :=
  let yes := 0 in let no := 0 in
  let no := Z.lor no (Z.b2z (d3 a <? N_H_3)) in
  let yes := Z.lor yes (Z.land (Z.b2z (N_H_3 <? d3 a)) (Z.lnot no)) in
  let no := Z.lor no (Z.land (Z.b2z (d2 a <? N_H_2)) (Z.lnot yes)) in
  let no := Z.lor no (Z.land (Z.b2z (d1 a <? N_H_1)) (Z.lnot yes)) in
  let yes := Z.lor yes (Z.land (Z.b2z (N_H_1 <? d1 a)) (Z.lnot no)) in
  Z.lor yes (Z.land (Z.b2z (N_H_0 <? d0 a)) (Z.lnot no)).

(** flag is an int used as a truth value; returns r and -1 or 1. *)
Definition scalar_cond_negate (r : scalar) (flag : Z) : scalar * Z :=
  let mask := u64 (Z.b2z (flag =? 0) - 1) in
  let nonzero := u64 (Z.b2z (scalar_is_zero r) - 1) in
  let t := u128 (Z.lxor (d0 r) mask + Z.land (N_0 + 1) mask) in
  let r0 := Z.land t nonzero in let t := hi64 t in
  let t := u128 (t + (Z.lxor (d1 r) mask + Z.land N_1 mask)) in
  let r1 := Z.land t nonzero in let t := hi64 t in
  let t := u128 (t + (Z.lxor (d2 r) mask + Z.land N_2 mask)) in
  let r2 := Z.land t nonzero in let t := hi64 t in
  let t := u128 (t + (Z.lxor (d3 r) mask + Z.land N_3 mask)) in
  (mkScalar r0 r1 r2 (Z.land t nonzero), 2 * Z.b2z (mask =? 0) - 1).

(** l[0..7] *)
Record wide := mkWide { l0 : Z; l1 : Z; l2 : Z; l3 : Z; l4 : Z; l5 : Z; l6 : Z; l7 : Z }.

(** The three stages of scalar_reduce_512 and their intermediate limbs. *)
Record limbs7 := mkLimbs7 { m0 : Z; m1 : Z; m2 : Z; m3 : Z; m4 : Z; m5 : Z; m6 : Z }.
Record limbs5 := mkLimbs5 { p0 : Z; p1 : Z; p2 : Z; p3 : Z; p4 : Z }.

(** Reduce 512 bits into 385: m[0..6] = l[0..3] + n[0..3] * SECP256K1_N_C. *)
Definition reduce_385 (l : wide) : limbs7 :=
  let n0 := l4 l in let n1 := l5 l in let n2 := l6 l in let n3 := l7 l in
  let muladd := muladd u64 in let sumadd := sumadd u64 in
  let c := mkAcc (l0 l) 0 0 in
  let c := muladd_fast n0 N_C_0 c in
  let m0 := c0 c in let c := extract_fast c in
  let c := sumadd_fast (l1 l) c in
  let c := muladd n1 N_C_0 c in
  let c := muladd n0 N_C_1 c in
  let m1 := c0 c in let c := extract c in
  let c := sumadd (l2 l) c in
  let c := muladd n2 N_C_0 c in
  let c := muladd n1 N_C_1 c in
  let c := sumadd n0 c in
  let m2 := c0 c in let c := extract c in
  let c := sumadd (l3 l) c in
  let c := muladd n3 N_C_0 c in
  let c := muladd n2 N_C_1 c in
  let c := sumadd n1 c in
  let m3 := c0 c in let c := extract c in
  let c := muladd n3 N_C_1 c in
  let c := sumadd n2 c in
  let m4 := c0 c in let c := extract c in
  let c := sumadd_fast n3 c in
  let m5 := c0 c in let c := extract_fast c in
  mkLimbs7 m0 m1 m2 m3 m4 m5 (u32 (c0 c)).

(** Reduce 385 bits into 258: p[0..4] = m[0..3] + m[4..6] * SECP256K1_N_C. *)
Definition reduce_258 (m : limbs7) : limbs5 :=
  let muladd := muladd u64 in let sumadd := sumadd u64 in
  let c := mkAcc (m0 m) 0 0 in
  let c := muladd_fast (m4 m) N_C_0 c in
  let p0 := c0 c in let c := extract_fast c in
  let c := sumadd_fast (m1 m) c in
  let c := muladd (m5 m) N_C_0 c in
  let c := muladd (m4 m) N_C_1 c in
  let p1 := c0 c in let c := extract c in
  let c := sumadd (m2 m) c in
  let c := muladd (m6 m) N_C_0 c in
  let c := muladd (m5 m) N_C_1 c in
  let c := sumadd (m4 m) c in
  let p2 := c0 c in let c := extract c in
  let c := sumadd_fast (m3 m) c in
  let c := muladd_fast (m6 m) N_C_1 c in
  let c := sumadd_fast (m5 m) c in
  let p3 := c0 c in let c := extract_fast c in
  mkLimbs5 p0 p1 p2 p3 (u32 (c0 c + m6 m)).

(** Reduce 258 bits into 256: r[0..3] = p[0..3] + p[4] * SECP256K1_N_C; with
    the carry. *)
Definition reduce_256 (p : limbs5) : scalar * Z :=
  let t := u128 (p0 p + u128 (N_C_0 * p4 p)) in
  let r0 := lo64 t in let t := hi64 t in
  let t := u128 (t + u128 (p1 p + u128 (N_C_1 * p4 p))) in
  let r1 := lo64 t in let t := hi64 t in
  let t := u128 (t + (p2 p + p4 p)) in
  let r2 := lo64 t in let t := hi64 t in
  let t := u128 (t + p3 p) in
  let r3 := lo64 t in let t := hi64 t in
  (mkScalar r0 r1 r2 r3, t).

Definition scalar_reduce_512 (l : wide) : scalar :=
  let '(r, c) := reduce_256 (reduce_258 (reduce_385 l)) in
  scalar_reduce r (u32 (c + scalar_check_overflow r)).

Definition scalar_mul_512 (a b : scalar) : wide :=
  let muladd := muladd u32 in
  let c := mkAcc 0 0 0 in
  let c := muladd_fast (d0 a) (d0 b) c in
  let l0 := c0 c in let c := extract_fast c in
  let c := muladd (d0 a) (d1 b) c in
  let c := muladd (d1 a) (d0 b) c in
  let l1 := c0 c in let c := extract c in
  let c := muladd (d0 a) (d2 b) c in
  let c := muladd (d1 a) (d1 b) c in
  let c := muladd (d2 a) (d0 b) c in
  let l2 := c0 c in let c := extract c in
  let c := muladd (d0 a) (d3 b) c in
  let c := muladd (d1 a) (d2 b) c in
  let c := muladd (d2 a) (d1 b) c in
  let c := muladd (d3 a) (d0 b) c in
  let l3 := c0 c in let c := extract c in
  let c := muladd (d1 a) (d3 b) c in
  let c := muladd (d2 a) (d2 b) c in
  let c := muladd (d3 a) (d1 b) c in
  let l4 := c0 c in let c := extract c in
  let c := muladd (d2 a) (d3 b) c in
  let c := muladd (d3 a) (d2 b) c in
  let l5 := c0 c in let c := extract c in
  let c := muladd_fast (d3 a) (d3 b) c in
  let l6 := c0 c in let c := extract_fast c in
  mkWide l0 l1 l2 l3 l4 l5 l6 (c0 c).

Definition scalar_sqr_512 (a : scalar) : wide :=
  let muladd := muladd u32 in let muladd2 := muladd2 u32 in
  let c := mkAcc 0 0 0 in
  let c := muladd_fast (d0 a) (d0 a) c in
  let l0 := c0 c in let c := extract_fast c in
  let c := muladd2 (d0 a) (d1 a) c in
  let l1 := c0 c in let c := extract c in
  let c := muladd2 (d0 a) (d2 a) c in
  let c := muladd (d1 a) (d1 a) c in
  let l2 := c0 c in let c := extract c in
  let c := muladd2 (d0 a) (d3 a) c in
  let c := muladd2 (d1 a) (d2 a) c in
  let l3 := c0 c in let c := extract c in
  let c := muladd2 (d1 a) (d3 a) c in
  let c := muladd (d2 a) (d2 a) c in
  let l4 := c0 c in let c := extract c in
  let c := muladd2 (d2 a) (d3 a) c in
  let l5 := c0 c in let c := extract c in
  let c := muladd_fast (d3 a) (d3 a) c in
  let l6 := c0 c in let c := extract_fast c in
  mkWide l0 l1 l2 l3 l4 l5 l6 (c0 c).

Definition scalar_mul (a b : scalar) : scalar := scalar_reduce_512 (scalar_mul_512 a b).
Definition scalar_sqr (a : scalar) : scalar := scalar_reduce_512 (scalar_sqr_512 a).

(** Returns r and the bits shifted out. *)
Definition scalar_shr_int (r : scalar) (n : Z) : scalar * Z :=
  (mkScalar (u64 (Z.shiftr (d0 r) n + u64 (Z.shiftl (d1 r) (64 - n))))
            (u64 (Z.shiftr (d1 r) n + u64 (Z.shiftl (d2 r) (64 - n))))
            (u64 (Z.shiftr (d2 r) n + u64 (Z.shiftl (d3 r) (64 - n))))
            (Z.shiftr (d3 r) n),
   Z.land (d0 r) (Z.shiftl 1 n - 1)).

Definition scalar_split_128 (a : scalar) : scalar * scalar :=
  (mkScalar (d0 a) (d1 a) 0 0, mkScalar (d2 a) (d3 a) 0 0).

Definition scalar_eq (a b : scalar) : bool :=
  Z.lor (Z.lor (Z.lor (Z.lxor (d0 a) (d0 b)) (Z.lxor (d1 a) (d1 b))) (Z.lxor (d2 a) (d2 b)))
    (Z.lxor (d3 a) (d3 b)) =? 0.

Definition wide_at (l : wide) (i : Z) : Z :=
  [l0 l; l1 l; l2 l; l3 l; l4 l; l5 l; l6 l; l7 l] !!! Z.to_nat i.

Definition scalar_mul_shift_var (a b : scalar) (shift : Z) : scalar :=
  let l := scalar_mul_512 a b in
  let shiftlimbs := Z.shiftr shift 6 in
  let shiftlow := Z.land shift 0x3F in
  let shifthigh := 64 - shiftlow in
  let part i bound := Z.lor (Z.shiftr (wide_at l (i + shiftlimbs)) shiftlow)
    (if (shift <? bound) && negb (shiftlow =? 0)
     then u64 (Z.shiftl (wide_at l (i + 1 + shiftlimbs)) shifthigh) else 0) in
  let r := mkScalar (if shift <? 512 then part 0 448 else 0)
                    (if shift <? 448 then part 1 384 else 0)
                    (if shift <? 384 then part 2 320 else 0)
                    (if shift <? 320 then Z.shiftr (wide_at l (3 + shiftlimbs)) shiftlow else 0) in
  scalar_cadd_bit r 0 (Z.land (Z.shiftr (wide_at l (Z.shiftr (shift - 1) 6)) (Z.land (shift - 1) 0x3f)) 1).

(** ** Meaning *)

Definition sval (a : scalar) : Z := d0 a + 2 ^ 64 * d1 a + 2 ^ 128 * d2 a + 2 ^ 192 * d3 a.

(** The order of the group. *)

Record limbs_ok (a : scalar) : Prop := {
  lo_0 : 0 <= d0 a < 2 ^ 64;
  lo_1 : 0 <= d1 a < 2 ^ 64;
  lo_2 : 0 <= d2 a < 2 ^ 64;
  lo_3 : 0 <= d3 a < 2 ^ 64;
}.

(** A scalar in normal form. *)
Definition scalar_ok (a : scalar) : Prop := limbs_ok a /\ sval a < order.

Lemma scalar_ok_range a : scalar_ok a -> 0 <= sval a < order.
Proof. intros [[] ?]. unfold sval in *. lia. Qed.

Definition wval (l : wide) : Z :=
  l0 l + 2 ^ 64 * l1 l + 2 ^ 128 * l2 l + 2 ^ 192 * l3 l +
  2 ^ 256 * l4 l + 2 ^ 320 * l5 l + 2 ^ 384 * l6 l + 2 ^ 448 * l7 l.

(** The constants as numbers, for the arithmetic below. *)
Lemma consts : N_C_0 = 0x402DA1732FC9BEBF /\ N_C_1 = 0x4551231950B75FC4 /\ N_C_2 = 1.
Proof. done. Qed.

Ltac scalar_consts := unfold N_0, N_1, N_2, N_3, N_H_0, N_H_1, N_H_2, N_H_3, order in *;
  destruct consts as (HN0 & HN1 & HN2); rewrite ?HN0, ?HN1, ?HN2 in *; clear HN0 HN1 HN2.

(** Evaluates the 0/1 arithmetic of the comparisons by cases. *)
Ltac compare_cases :=
  repeat match goal with
  | |- context [?x <? ?y] => destruct (Z.ltb_spec x y)
  | |- context [?x <=? ?y] => destruct (Z.leb_spec x y)
  end; simpl Z.b2z; first [reflexivity | lia].

Lemma check_overflow_spec a : limbs_ok a ->
  scalar_check_overflow a = Z.b2z (order <=? sval a).
Proof.
  intros []. unfold scalar_check_overflow, sval. scalar_consts. cbv zeta. compare_cases.
Qed.

Lemma reduce_spec r o : limbs_ok r -> 0 <= o <= 1 ->
  limbs_ok (scalar_reduce r o) /\
  exists k, 0 <= k /\ sval (scalar_reduce r o) = sval r + o * (2 ^ 256 - order) - k * 2 ^ 256.
Proof.
  intros [] Ho. unfold scalar_reduce, sval. scalar_consts. cbv zeta. limb_run.
  cbn [d0 d1 d2 d3]. split; [by split|]. exists hi2. lia.
Qed.

(** Reduction of a number below twice the order. *)
Lemma reduce_once r t : limbs_ok r -> 0 <= t -> sval r + 2 ^ 256 * t < 2 * order ->
  let o := t + scalar_check_overflow r in
  o = Z.b2z (order <=? sval r + 2 ^ 256 * t) /\
  scalar_ok (scalar_reduce r o) /\ sval (scalar_reduce r o) = (sval r + 2 ^ 256 * t) mod order.
Proof.
  intros Hr Ht Hlt o. subst o. rewrite check_overflow_spec by done.
  assert (0 <= sval r < 2 ^ 256) as Hb by (destruct Hr; unfold sval; lia).
  set (o := t + Z.b2z (order <=? sval r)).
  assert (o = Z.b2z (order <=? sval r + 2 ^ 256 * t)) as Ho.
  { subst o. unfold order in *. compare_cases. }
  assert (0 <= o <= 1) as Ho1 by (rewrite Ho; apply b2z_range).
  destruct (reduce_spec r o Hr Ho1) as (Hok & k & Hk & Heq).
  assert (0 <= sval (scalar_reduce r o) < 2 ^ 256) as Hb' by (destruct Hok; unfold sval; lia).
  assert (sval (scalar_reduce r o) = (sval r + 2 ^ 256 * t) mod order) as Hm.
  { destruct (Z.leb_spec order (sval r + 2 ^ 256 * t)); simpl in Ho; rewrite Ho in *; clearbody o.
    - rewrite <- (Z.mod_add _ (-1)), Z.mod_small by (unfold order in *; lia). unfold order in *. lia.
    - rewrite Z.mod_small by (unfold order in *; lia). unfold order in *. lia. }
  split; [done|]. split; [|done]. split; [done|]. rewrite Hm. apply Z.mod_pos_bound. done.
Qed.

Lemma scalar_add_spec a b : scalar_ok a -> scalar_ok b ->
  let '(r, o) := scalar_add a b in
  scalar_ok r /\ sval r = (sval a + sval b) mod order /\ o = Z.b2z (order <=? sval a + sval b).
Proof.
  intros [[] Ha] [[] Hb]. unfold scalar_add. cbv zeta.
  assert (sval a + sval b < 2 * order) as Hlt by lia. unfold sval in Hlt at 1 2.
  limb_run. lazymatch goal with |- context [?h + scalar_check_overflow ?r] => set (s := r); set (t := h) end.
  assert (limbs_ok s) as Hs by (by split).
  assert (sval a + sval b = sval s + 2 ^ 256 * t) as Heq by (unfold sval; simpl; subst t; lia).
  destruct (reduce_once s t Hs) as (Ho & Hok & Hm); [subst t; lia|lia|]. rewrite Ho, Heq in *. done.
Qed.

(** ** Bytes *)

Lemma load_be64_spec b32 i : Forall byte_ok b32 -> (i + 8 <= length b32)%nat ->
  load_be64 b32 i = be_val (take 8 (drop i b32)).
Proof.
  intros Hok Hl. unfold load_be64.
  assert (forall j, (j < 8)%nat -> b32 !!! (i + j)%nat = drop i b32 !!! j) as Hd.
  { intros j Hj. by rewrite lookup_total_drop. }
  rewrite !Hd by lia. assert (8 <= length (drop i b32))%nat as Hl' by (rewrite length_drop; lia).
  assert (Forall byte_ok (drop i b32)) as Hok' by (by apply Forall_drop).
  set (l := drop i b32) in *. clearbody l. clear Hd Hok Hl.
  do 8 (destruct l as [|? l]; [simpl in Hl'; lia|]). clear Hl'.
  rewrite !Forall_cons in Hok'. unfold byte_ok in Hok'. destruct Hok' as (?&?&?&?&?&?&?&?&_).
  cbn [lookup_total list_lookup_total]. rewrite (lor_high 8) by lia. rewrite (lor_high 16) by lia. rewrite (lor_high 24) by lia.
  rewrite (lor_high 32) by lia. rewrite (lor_high 40) by lia. rewrite (lor_high 48) by lia. rewrite (lor_high 56) by lia.
  unfold be_val. simpl take. unfold reverse. cbn -[Z.mul Z.add Z.pow]. rewrite take_0. cbn -[Z.mul Z.add Z.pow]. lia.
Qed.

Lemma store_be64_spec d : store_be64 d = be_bytes 8 d.
Proof.
  unfold store_be64, be_bytes, le_bytes, reverse. cbn -[Z.div Z.modulo Z.shiftr].
  rewrite !shiftr_div by lia. rewrite !Z.div_div by lia. change (2 ^ 0) with 1. rewrite Z.div_1_r. reflexivity.
Qed.

Lemma set_b32_spec b32 : length b32 = 32%nat -> Forall byte_ok b32 ->
  let '(r, over) := scalar_set_b32 b32 in
  scalar_ok r /\ sval r = be_val b32 mod order /\ over = Z.b2z (order <=? be_val b32).
Proof.
  intros Hl Hok. unfold scalar_set_b32. cbv zeta. rewrite !load_be64_spec by (done || lia).
  set (r := mkScalar _ _ _ _).
  assert (sval r = be_val b32 /\ limbs_ok r) as [Hv Hr].
  { assert (b32 = take 8 (drop 0 b32) ++ take 8 (drop 8 b32) ++ take 8 (drop 16 b32) ++ take 8 (drop 24 b32)) as Hsplit.
    { do 32 (destruct b32 as [|? b32]; [done|]). by destruct b32. }
    assert (forall i, (i <= 24)%nat -> length (take 8 (drop i b32)) = 8%nat /\
      0 <= be_val (take 8 (drop i b32)) < 2 ^ 64) as Hb.
    { intros i Hi. assert (length (take 8 (drop i b32)) = 8%nat) as H8 by (rewrite length_take, length_drop; lia).
      split; [done|]. pose proof (be_val_range (take 8 (drop i b32))) as Hr. rewrite H8 in Hr.
      apply Hr. by apply Forall_take, Forall_drop. }
    destruct (Hb 0%nat), (Hb 8%nat), (Hb 16%nat), (Hb 24%nat); try lia. split; [|by split].
    rewrite Hsplit at 1. rewrite !be_val_app, !length_app. unfold sval. cbn [d0 d1 d2 d3 r].
    repeat match goal with H : length (take 8 _) = 8%nat |- _ => rewrite H; clear H end.
    change (8 * Z.of_nat (8 + (8 + 8))) with 192. change (8 * Z.of_nat (8 + 8)) with 128.
    change (8 * Z.of_nat 8) with 64. lia. }
  assert (sval r + 2 ^ 256 * 0 < 2 * order) as Hlt by (destruct Hr; unfold sval, order in *; lia).
  destruct (reduce_once r 0 Hr ltac:(lia) Hlt) as (Ho & Hok' & Hm).
  rewrite Z.mul_0_r, Z.add_0_r, Hv in Ho, Hm. rewrite Z.add_0_l in Ho, Hm, Hok'. done.
Qed.

Lemma get_b32_spec a : limbs_ok a -> scalar_get_b32 a = be_bytes 32 (sval a).
Proof.
  intros []. unfold scalar_get_b32. rewrite !store_be64_spec.
  set (l := be_bytes 8 (d3 a) ++ _). assert (length l = 32%nat) as Hl
    by (subst l; rewrite !length_app, !be_bytes_length; lia).
  assert (Forall byte_ok l) as Hok by (subst l; rewrite !Forall_app; auto using be_bytes_ok).
  rewrite <- (be_bytes_val l Hok), Hl. f_equal. subst l. rewrite !be_val_app, !length_app, !be_bytes_length, !be_val_bytes.
  change (8 * Z.of_nat (8 + (8 + 8))) with 192. change (8 * Z.of_nat (8 + 8)) with 128.
  change (8 * Z.of_nat 8) with 64. rewrite !Z.mod_small by lia. unfold sval. lia.
Qed.

(** ** Predicates and negation *)

Lemma is_zero_spec a : limbs_ok a -> scalar_is_zero a = (sval a =? 0).
Proof.
  intros []. unfold scalar_is_zero, sval. apply eq_bool_prop_intro.
  rewrite !Is_true_true, !Z.eqb_eq, !Z.lor_eq_0_iff. lia.
Qed.

Lemma is_one_spec a : limbs_ok a -> scalar_is_one a = (sval a =? 1).
Proof.
  intros []. unfold scalar_is_one, sval. apply eq_bool_prop_intro.
  rewrite !Is_true_true, !Z.eqb_eq, !Z.lor_eq_0_iff, Z.lxor_eq_0_iff. lia.
Qed.

Lemma eq_spec a b : limbs_ok a -> limbs_ok b -> scalar_eq a b = (sval a =? sval b).
Proof.
  intros [] []. unfold scalar_eq, sval. apply eq_bool_prop_intro.
  rewrite !Is_true_true, !Z.eqb_eq, !Z.lor_eq_0_iff, !Z.lxor_eq_0_iff. lia.
Qed.

Lemma is_high_spec a : limbs_ok a -> scalar_is_high a = Z.b2z (order / 2 <? sval a).
Proof.
  intros []. unfold scalar_is_high, sval. change (order / 2) with
    0x7FFFFFFFFFFFFFFFFFFFFFFFFFFFFFFF5D576E7357A4501DDFE92F46681B20A0.
  scalar_consts. cbv zeta. compare_cases.
Qed.

Lemma land_all t : Z.land t (2 ^ 64 - 1) = lo64 t.
Proof. done. Qed.

Lemma negate_spec a : scalar_ok a ->
  scalar_ok (scalar_negate a) /\ sval (scalar_negate a) = (- sval a) mod order.
Proof.
  intros [Hok Hlt]. unfold scalar_negate. rewrite is_zero_spec by done.
  destruct (Z.eqb_spec (sval a) 0) as [->|Hne]; cbv zeta; simpl negb; cbv beta iota delta [Z.b2z].
  - change (u64 _) with 0. rewrite !Z.land_0_r. done.
  - change (u64 _) with (2 ^ 64 - 1). rewrite !land_all. destruct Hok. rewrite !not64_spec by done.
    assert (0 < sval a) by (unfold sval in *; lia).
    rewrite <- (Z.mod_add _ 1), Z.mod_small by lia. unfold scalar_ok, sval in *. scalar_consts.
    limb_run. cbn [d0 d1 d2 d3]. split; [split; [by split|]|]; lia.
Qed.

(** cond_negate is negate or the identity, by the flag. *)
Lemma cond_negate_spec r flag : scalar_ok r ->
  let '(r', s) := scalar_cond_negate r flag in
  r' = (if flag =? 0 then r else scalar_negate r) /\ s = if flag =? 0 then 1 else -1.
Proof.
  intros [Hok Hlt]. unfold scalar_cond_negate, scalar_negate. rewrite !is_zero_spec by done. cbv zeta.
  destruct Hok. destruct (Z.eqb_spec flag 0) as [->|Hf]; simpl Z.b2z.
  - change (u64 (1 - 1)) with 0. rewrite !Z.lxor_0_r, !Z.land_0_r, !Z.add_0_r. split; [|done].
    destruct (Z.eqb_spec (sval r) 0) as [H0|H0]; simpl Z.b2z.
    + change (u64 (1 - 1)) with 0. rewrite !Z.land_0_r. unfold sval in H0.
      destruct r as [a0 a1 a2 a3]. simpl in *. f_equal; lia.
    + change (u64 (0 - 1)) with (2 ^ 64 - 1). rewrite !land_all. destruct r as [a0 a1 a2 a3]. simpl in *.
      limb_run. f_equal; lia.
  - change (u64 (0 - 1)) with (2 ^ 64 - 1). split; [|done].
    assert (forall x, 0 <= x < 2 ^ 64 -> Z.lxor x (2 ^ 64 - 1) = not64 x) as Hx.
    { intros x Hx. unfold not64, u64. rewrite <- Z.land_ones by lia. change (2 ^ 64 - 1) with (Z.ones 64).
      apply Z.bits_inj'. intros i Hi. rewrite Z.lxor_spec, Z.land_spec, Z.lnot_spec by done.
      destruct (decide (i < 64)).
      - rewrite Z.ones_spec_low by lia. by rewrite xorb_true_r, andb_true_r.
      - rewrite Z.ones_spec_high by lia. rewrite xorb_false_r, andb_false_r.
        rewrite <- (Z.mod_small x (2 ^ 64)) by done. apply Z.mod_pow2_bits_high. lia. }
    rewrite !Hx by done. change (Z.land (N_0 + 1) (2 ^ 64 - 1)) with (N_0 + 1).
    change (Z.land N_1 (2 ^ 64 - 1)) with N_1. change (Z.land N_2 (2 ^ 64 - 1)) with N_2.
    change (Z.land N_3 (2 ^ 64 - 1)) with N_3. rewrite Z.add_assoc.
    replace (u64 (0xFFFFFFFFFFFFFFFF * Z.b2z (negb (sval r =? 0)))) with (u64 (Z.b2z (sval r =? 0) - 1));
      [done|]. by destruct (sval r =? 0).
Qed.

(** Adding a bit that stays below 2^256; any other position is a no-op. *)
Lemma at_limb_sum bit : 0 <= bit < 256 ->
  let at_limb i := u64 (Z.shiftl (Z.b2z (Z.shiftr bit 6 =? i)) (Z.land bit 0x3F)) in
  at_limb 0 + 2 ^ 64 * at_limb 1 + 2 ^ 128 * at_limb 2 + 2 ^ 192 * at_limb 3 = 2 ^ bit /\
  forall i, 0 <= at_limb i < 2 ^ 64.
Proof.
  intros Hb. cbv zeta. split; [|intros i; apply u64_range].
  change 0x3F with (2 ^ 6 - 1). rewrite land_mask, shiftr_div by lia.
  pose proof (Z.div_mod bit (2 ^ 6) ltac:(lia)) as Hd. pose proof (Z.mod_pos_bound bit (2 ^ 6) ltac:(lia)) as Hm.
  set (q := bit / 2 ^ 6) in *. set (m := bit mod 2 ^ 6) in *.
  assert (0 < 2 ^ m < 2 ^ 64) as Hp by (split; [lia|]; apply Z.pow_lt_mono_r; lia).
  rewrite !shiftl_mul by lia. rewrite Hd, Z.pow_add_r by lia.
  assert (q = 0 \/ q = 1 \/ q = 2 \/ q = 3) as Hq by lia.
  destruct Hq as [-> | [-> | [-> | ->]]]; cbn -[Z.pow Z.mul u64]; rewrite !Z.mul_0_l, Z.mul_1_l;
    change (u64 0) with 0; rewrite u64_small by lia; lia.
Qed.

Lemma cadd_bit_spec r bit flag : limbs_ok r -> 0 <= bit < 256 -> 0 <= flag <= 1 ->
  sval r + flag * 2 ^ bit < 2 ^ 256 ->
  limbs_ok (scalar_cadd_bit r bit flag) /\ sval (scalar_cadd_bit r bit flag) = sval r + flag * 2 ^ bit.
Proof.
  intros [] Hb Hf Hlt. unfold scalar_cadd_bit. cbv zeta.
  assert (flag = 0 \/ flag = 1) as [-> | ->] by lia.
  - change (Z.land (u32 (0 - 1)) 0x100) with (2 ^ 8). rewrite u32_small by lia.
    assert (4 <= Z.shiftr (bit + 2 ^ 8) 6) as Hs.
    { rewrite shiftr_div by lia. apply Z.div_le_lower_bound; lia. }
    rewrite !(proj2 (Z.eqb_neq _ _)) by lia. simpl Z.b2z. rewrite Z.shiftl_0_l. change (u64 0) with 0.
    unfold sval in *. limb_run. cbn [d0 d1 d2 d3]. split; [by split|lia].
  - change (Z.land (u32 (1 - 1)) 0x100) with 0. rewrite Z.add_0_r, u32_small by lia.
    destruct (at_limb_sum bit Hb) as [Hsum Hr]. cbv zeta in Hsum, Hr.
    pose proof (Hr 0) as Hr0. pose proof (Hr 1) as Hr1. pose proof (Hr 2) as Hr2. pose proof (Hr 3) as Hr3.
    set (a0 := u64 (Z.shiftl (Z.b2z (_ =? 0)) _)) in *. set (a1 := u64 (Z.shiftl (Z.b2z (_ =? 1)) _)) in *.
    set (a2 := u64 (Z.shiftl (Z.b2z (_ =? 2)) _)) in *. set (a3 := u64 (Z.shiftl (Z.b2z (_ =? 3)) _)) in *.
    clearbody a0 a1 a2 a3. clear Hr. rewrite <- Hsum in *. unfold sval in *. limb_run.
    cbn [d0 d1 d2 d3]. split; [by split|lia].
Qed.

(** ** Multiplication *)

Lemma wide_bound l : 0 <= l0 l < 2 ^ 64 -> 0 <= l1 l < 2 ^ 64 -> 0 <= l2 l < 2 ^ 64 -> 0 <= l3 l < 2 ^ 64 ->
  0 <= l4 l < 2 ^ 64 -> 0 <= l5 l < 2 ^ 64 -> 0 <= l6 l < 2 ^ 64 -> 0 <= l7 l < 2 ^ 64 ->
  0 <= wval l < 2 ^ 512.
Proof. unfold wval. lia. Qed.

Record wide_ok (l : wide) : Prop := {
  wo_0 : 0 <= l0 l < 2 ^ 64; wo_1 : 0 <= l1 l < 2 ^ 64; wo_2 : 0 <= l2 l < 2 ^ 64; wo_3 : 0 <= l3 l < 2 ^ 64;
  wo_4 : 0 <= l4 l < 2 ^ 64; wo_5 : 0 <= l5 l < 2 ^ 64; wo_6 : 0 <= l6 l < 2 ^ 64; wo_7 : 0 <= l7 l < 2 ^ 64 }.

Lemma sval_mul_bound a b : limbs_ok a -> limbs_ok b -> 0 <= sval a * sval b < 2 ^ 512.
Proof.
  intros [] []. assert (0 <= sval a < 2 ^ 256 /\ 0 <= sval b < 2 ^ 256) as [Ha Hb] by (unfold sval; lia).
  split; [lia|]. change (2 ^ 512) with (2 ^ 256 * 2 ^ 256). apply Z.mul_lt_mono_nonneg; lia.
Qed.

Lemma mul_512_spec a b : limbs_ok a -> limbs_ok b ->
  wide_ok (scalar_mul_512 a b) /\ wval (scalar_mul_512 a b) = sval a * sval b.
Proof.
  intros Ha Hb. pose proof (sval_mul_bound a b Ha Hb) as Hbound. destruct Ha, Hb.
  destruct a as [a0 a1 a2 a3], b as [b0 b1 b2 b3]. cbn [d0 d1 d2 d3] in *.
  unfold scalar_mul_512. cbv zeta. cbn [d0 d1 d2 d3].
  assert (sval (mkScalar a0 a1 a2 a3) * sval (mkScalar b0 b1 b2 b3) =
    a0 * b0 + 2 ^ 64 * (a0 * b1 + a1 * b0) + 2 ^ 128 * (a0 * b2 + a1 * b1 + a2 * b0) +
    2 ^ 192 * (a0 * b3 + a1 * b2 + a2 * b1 + a3 * b0) + 2 ^ 256 * (a1 * b3 + a2 * b2 + a3 * b1) +
    2 ^ 320 * (a2 * b3 + a3 * b2) + 2 ^ 384 * (a3 * b3)) as Heq by (unfold sval; cbn [d0 d1 d2 d3]; ring).
  rewrite Heq in *. clear Heq. pose proof (product_bound a0 b0).
  repeat acc_step u32 keeps_small_u32.
  match goal with Hc : acc_ok 0 ?c |- context [mkWide _ _ _ _ _ _ _ (Limbs.c0 ?c)] =>
    pose proof (aval_word c Hc ltac:(lia)) end.
  split; [split; cbn [l0 l1 l2 l3 l4 l5 l6 l7]; done|].
  unfold wval. cbn [l0 l1 l2 l3 l4 l5 l6 l7]. lia.
Qed.

Lemma sqr_512_spec a : limbs_ok a ->
  wide_ok (scalar_sqr_512 a) /\ wval (scalar_sqr_512 a) = sval a * sval a.
Proof.
  intros Ha. pose proof (sval_mul_bound a a Ha Ha) as Hbound. destruct Ha.
  destruct a as [a0 a1 a2 a3]. cbn [d0 d1 d2 d3] in *.
  unfold scalar_sqr_512. cbv zeta. cbn [d0 d1 d2 d3].
  assert (sval (mkScalar a0 a1 a2 a3) * sval (mkScalar a0 a1 a2 a3) =
    a0 * a0 + 2 ^ 64 * (2 * (a0 * a1)) + 2 ^ 128 * (2 * (a0 * a2) + a1 * a1) +
    2 ^ 192 * (2 * (a0 * a3) + 2 * (a1 * a2)) + 2 ^ 256 * (2 * (a1 * a3) + a2 * a2) +
    2 ^ 320 * (2 * (a2 * a3)) + 2 ^ 384 * (a3 * a3)) as Heq by (unfold sval; cbn [d0 d1 d2 d3]; ring).
  rewrite Heq in *. clear Heq. pose proof (product_bound a0 a0).
  repeat acc_step u32 keeps_small_u32.
  match goal with Hc : acc_ok 0 ?c |- context [mkWide _ _ _ _ _ _ _ (Limbs.c0 ?c)] =>
    pose proof (aval_word c Hc ltac:(lia)) end.
  split; [split; cbn [l0 l1 l2 l3 l4 l5 l6 l7]; done|].
  unfold wval. cbn [l0 l1 l2 l3 l4 l5 l6 l7]. lia.
Qed.

(** Words below the top one of the intermediate values. *)
Record limbs7_ok (m : limbs7) : Prop := {
  mo_0 : 0 <= m0 m < 2 ^ 64; mo_1 : 0 <= m1 m < 2 ^ 64; mo_2 : 0 <= m2 m < 2 ^ 64; mo_3 : 0 <= m3 m < 2 ^ 64;
  mo_4 : 0 <= m4 m < 2 ^ 64; mo_5 : 0 <= m5 m < 2 ^ 64; mo_6 : 0 <= m6 m <= 1 }.
Definition mval (m : limbs7) : Z := m0 m + 2 ^ 64 * m1 m + 2 ^ 128 * m2 m + 2 ^ 192 * m3 m +
  2 ^ 256 * m4 m + 2 ^ 320 * m5 m + 2 ^ 384 * m6 m.
Record limbs5_ok (p : limbs5) : Prop := {
  po_0 : 0 <= p0 p < 2 ^ 64; po_1 : 0 <= p1 p < 2 ^ 64; po_2 : 0 <= p2 p < 2 ^ 64; po_3 : 0 <= p3 p < 2 ^ 64;
  po_4 : 0 <= p4 p <= 2 }.
Definition pval (p : limbs5) : Z := p0 p + 2 ^ 64 * p1 p + 2 ^ 128 * p2 p + 2 ^ 192 * p3 p + 2 ^ 256 * p4 p.

(** 2^256 - order *)
Definition fold_const : Z := 2 ^ 256 - order.

Lemma reduce_385_spec l : wide_ok l -> limbs7_ok (reduce_385 l) /\
  mval (reduce_385 l) = l0 l + 2 ^ 64 * l1 l + 2 ^ 128 * l2 l + 2 ^ 192 * l3 l +
    fold_const * (l4 l + 2 ^ 64 * l5 l + 2 ^ 128 * l6 l + 2 ^ 192 * l7 l).
Proof.
  intros []. destruct l as [x0 x1 x2 x3 x4 x5 x6 x7]. cbn [l0 l1 l2 l3 l4 l5 l6 l7] in *.
  unfold reduce_385. cbv zeta. cbn [l0 l1 l2 l3 l4 l5 l6 l7].
  destruct consts as (HN0 & HN1 & _). rewrite HN0, HN1. clear HN0 HN1.
  repeat acc_step u64 keeps_small_u64.
  match goal with Hc : acc_ok 0 ?c |- context [u32 (Limbs.c0 ?c)] =>
    assert (aval c <= 1) by lia; pose proof (aval_word c Hc ltac:(lia)) end.
  rewrite u32_small by lia. split.
  - split; cbn [m0 m1 m2 m3 m4 m5 m6]; lia.
  - unfold mval, fold_const, order. cbn [m0 m1 m2 m3 m4 m5 m6]. lia.
Qed.

Lemma reduce_258_spec m : limbs7_ok m -> mval m < 2 ^ 384 + 2 ^ 383 -> limbs5_ok (reduce_258 m) /\
  pval (reduce_258 m) = m0 m + 2 ^ 64 * m1 m + 2 ^ 128 * m2 m + 2 ^ 192 * m3 m +
    fold_const * (m4 m + 2 ^ 64 * m5 m + 2 ^ 128 * m6 m).
Proof.
  intros [] Hb. destruct m as [x0 x1 x2 x3 x4 x5 x6]. unfold mval in Hb. cbn [m0 m1 m2 m3 m4 m5 m6] in *.
  unfold reduce_258. cbv zeta. cbn [m0 m1 m2 m3 m4 m5 m6].
  destruct consts as (HN0 & HN1 & _). rewrite HN0, HN1. clear HN0 HN1.
  repeat acc_step u64 keeps_small_u64.
  match goal with Hc : acc_ok 0 ?c |- context [u32 (Limbs.c0 ?c + x6)] =>
    assert (aval c + x6 <= 2) by lia; pose proof (aval_word c Hc ltac:(lia)) end.
  rewrite u32_small by lia. split.
  - split; cbn [p0 p1 p2 p3 p4]; lia.
  - unfold pval, fold_const, order. cbn [p0 p1 p2 p3 p4]. lia.
Qed.

Lemma reduce_256_spec p : limbs5_ok p -> pval p < 2 ^ 258 ->
  let '(r, c) := reduce_256 p in
  limbs_ok r /\ 0 <= c <= 1 /\ sval r + 2 ^ 256 * c =
    p0 p + 2 ^ 64 * p1 p + 2 ^ 128 * p2 p + 2 ^ 192 * p3 p + fold_const * p4 p.
Proof.
  intros [] Hb. destruct p as [x0 x1 x2 x3 x4]. unfold pval in Hb. cbn [p0 p1 p2 p3 p4] in *.
  unfold reduce_256, sval, fold_const, order. cbv zeta. cbn [p0 p1 p2 p3 p4 d0 d1 d2 d3].
  destruct consts as (HN0 & HN1 & _). rewrite HN0, HN1. clear HN0 HN1. limb_run.
  split; [by split|]. lia.
Qed.

Lemma mod_order_eq x y k : x = y + k * order -> x mod order = y mod order.
Proof. intros ->. by rewrite Z.mod_add. Qed.

Lemma reduce_512_spec l : wide_ok l ->
  scalar_ok (scalar_reduce_512 l) /\ sval (scalar_reduce_512 l) = wval l mod order.
Proof.
  intros Hl. unfold scalar_reduce_512. destruct (reduce_385_spec l Hl) as [Hm Hmv].
  set (m := reduce_385 l) in *. clearbody m.
  assert (mval m < 2 ^ 384 + 2 ^ 383) as Hmb by (destruct Hl; rewrite Hmv; unfold fold_const, order; lia).
  destruct (reduce_258_spec m Hm Hmb) as [Hp Hpv]. set (p := reduce_258 m) in *. clearbody p.
  assert (pval p < 2 ^ 258) as Hpb by (destruct Hp; unfold pval; lia).
  pose proof (reduce_256_spec p Hp Hpb) as Hr. destruct (reduce_256 p) as [r c].
  destruct Hr as (Hr & Hc & Hrv).
  assert (sval r + 2 ^ 256 * c < 2 * order) as Hlt
    by (destruct Hp; rewrite Hrv; unfold fold_const, order; lia).
  destruct (reduce_once r c Hr ltac:(lia) Hlt) as (Ho & Hok & Hv).
  rewrite u32_small by (rewrite Ho; destruct (order <=? _); simpl; lia).
  split; [done|]. rewrite Hv, Hrv. unfold pval, mval in *.
  eapply (mod_order_eq _ _ (- (l4 l + 2 ^ 64 * l5 l + 2 ^ 128 * l6 l + 2 ^ 192 * l7 l) -
    (m4 m + 2 ^ 64 * m5 m + 2 ^ 128 * m6 m) - p4 p)).
  unfold wval, fold_const in *. lia.
Qed.

Lemma scalar_mul_spec a b : limbs_ok a -> limbs_ok b ->
  scalar_ok (scalar_mul a b) /\ sval (scalar_mul a b) = (sval a * sval b) mod order.
Proof.
  intros Ha Hb. destruct (mul_512_spec a b Ha Hb) as [Hw Hv]. rewrite <- Hv. by apply reduce_512_spec.
Qed.

Lemma scalar_sqr_spec a : limbs_ok a ->
  scalar_ok (scalar_sqr a) /\ sval (scalar_sqr a) = (sval a * sval a) mod order.
Proof.
  intros Ha. destruct (sqr_512_spec a Ha) as [Hw Hv]. rewrite <- Hv. by apply reduce_512_spec.
Qed.

(** ** Shifts across limbs *)

Lemma shr_int_spec r n : limbs_ok r -> 0 < n < 16 ->
  let '(r', low) := scalar_shr_int r n in
  limbs_ok r' /\ sval r' = sval r / 2 ^ n /\ low = sval r mod 2 ^ n.
Proof.
  intros Hr Hn. unfold scalar_shr_int. rewrite !shl_word by lia. rewrite !shiftr_div by lia.
  rewrite shiftl_mul, Z.mul_1_l, land_mask by lia.
  assert (2 ^ n * 2 ^ (64 - n) = 2 ^ 64) as HPQ by (rewrite <- Z.pow_add_r by lia; f_equal; lia).
  assert (forall x, 0 <= x < 2 ^ 64 -> 0 <= x / 2 ^ n < 2 ^ (64 - n) /\ x = 2 ^ n * (x / 2 ^ n) + x mod 2 ^ n /\
    0 <= x mod 2 ^ n <= 2 ^ n - 1) as Hx.
  { intros x Hx. split; [apply shr_word; lia|]. split; [apply Z.div_mod; lia|].
    pose proof (Z.mod_pos_bound x (2 ^ n)). lia. }
  destruct r as [x0 x1 x2 x3], Hr. cbn [d0 d1 d2 d3] in *. unfold sval. cbn [d0 d1 d2 d3].
  destruct (Hx x0) as (? & E0 & ?), (Hx x1) as (? & E1 & ?), (Hx x2) as (? & E2 & ?), (Hx x3) as (? & E3 & ?); try done.
  set (P := 2 ^ n) in *. set (Q := 2 ^ (64 - n)) in *.
  set (q0 := x0 / P) in *. set (q1 := x1 / P) in *. set (q2 := x2 / P) in *. set (q3 := x3 / P) in *.
  set (t0 := x0 mod P) in *. set (t1 := x1 mod P) in *. set (t2 := x2 mod P) in *. set (t3 := x3 mod P) in *.
  assert (0 < P /\ 0 < Q) as [HP HQ] by (subst P Q; split; lia).
  assert (forall t, 0 <= t <= P - 1 -> 0 <= t * Q <= 2 ^ 64 - Q) as Hq by (intros t Ht; nia).
  pose proof (Hq t1). pose proof (Hq t2). pose proof (Hq t3).
  clearbody P Q q0 q1 q2 q3 t0 t1 t2 t3. rewrite !u64_small by lia. split; [split; cbn [d0 d1 d2 d3]; lia|].
  set (v := q0 + t1 * Q + 2 ^ 64 * (q1 + t2 * Q) + 2 ^ 128 * (q2 + t3 * Q) + 2 ^ 192 * q3).
  assert (x0 + 2 ^ 64 * x1 + 2 ^ 128 * x2 + 2 ^ 192 * x3 = P * v + t0) as ->.
  { subst v. rewrite E0, E1, E2, E3, <- HPQ. change (2 ^ 128) with (2 ^ 64 * 2 ^ 64).
    change (2 ^ 192) with (2 ^ 64 * 2 ^ 64 * 2 ^ 64). rewrite <- HPQ. ring. }
  split.
  - apply Z.div_unique with t0; lia.
  - rewrite Z.mul_comm, Z.add_comm, Z.mod_add, Z.mod_small by lia. done.
Qed.

(** The rounded product by the constants of scalar_split_lambda. *)
Lemma mul_shift_272_spec a b : limbs_ok a -> limbs_ok b ->
  limbs_ok (scalar_mul_shift_var a b 272) /\
  sval (scalar_mul_shift_var a b 272) = (sval a * sval b + 2 ^ 271) / 2 ^ 272.
Proof.
  intros Ha Hb. destruct (mul_512_spec a b Ha Hb) as [Hw Hv]. rewrite <- Hv.
  unfold scalar_mul_shift_var. set (l := scalar_mul_512 a b) in *. clearbody l. clear Hv Ha Hb a b.
  cbv zeta. change (Z.shiftr 272 6) with 4. change (Z.land 272 0x3F) with 16.
  change (Z.shiftr (272 - 1) 6) with 4. change (Z.land (272 - 1) 0x3f) with 15.
  unfold wide_at. simpl Z.to_nat. cbn [Z.ltb Z.compare Pos.compare Pos.compare_cont negb Z.eqb andb].
  destruct l as [x0 x1 x2 x3 x4 x5 x6 x7], Hw. cbn [l0 l1 l2 l3 l4 l5 l6 l7] in *.
  set (L := [x0; x1; x2; x3; x4; x5; x6; x7]).
  change (L !!! Z.to_nat (0 + 4)) with x4. change (L !!! Z.to_nat (0 + 1 + 4)) with x5.
  change (L !!! Z.to_nat (1 + 4)) with x5. change (L !!! Z.to_nat (1 + 1 + 4)) with x6.
  change (L !!! Z.to_nat (2 + 4)) with x6. change (L !!! Z.to_nat (2 + 1 + 4)) with x7.
  change (L !!! Z.to_nat (3 + 4)) with x7. change (L !!! Z.to_nat 4) with x4. clear L.
  rewrite !funnel, !shiftr_div by lia. change (Z.land ?x 1) with (Z.land x (2 ^ 1 - 1)). rewrite land_mask by lia.
  change (64 - 16) with 48. change (2 ^ 16) with 65536. change (2 ^ 15) with 32768. change (2 ^ 1) with 2.
  assert (forall x y, 0 <= x < 2 ^ 64 -> 0 <= x / 65536 + (y mod 65536) * 2 ^ 48 < 2 ^ 64) as Hr.
  { intros x y Hx. dlia. }
  set (r := mkScalar _ _ _ _). assert (limbs_ok r) as Hok by (split; cbn [r d0 d1 d2 d3]; dlia).
  assert (sval r < 2 ^ 240) as Hb by (unfold sval; cbn [r d0 d1 d2 d3]; dlia).
  destruct (cadd_bit_spec r 0 ((x4 / 32768) mod 2) Hok) as [Hok' ->]; [lia|dlia|dlia|].
  split; [done|]. unfold wval, sval. cbn [r d0 d1 d2 d3 l0 l1 l2 l3 l4 l5 l6 l7].
  apply Z.div_unique with (x0 + 2 ^ 64 * x1 + 2 ^ 128 * x2 + 2 ^ 192 * x3 +
    2 ^ 256 * (x4 mod 65536) + 2 ^ 271 - ((x4 / 32768) mod 2) * 2 ^ 272); [left|]; dlia.
Qed.

(** ** Properties *)

(** On normalised scalars, add, negate, mul, sqr and cond_negate are the
    operations of the integers modulo the group order, with normalised
    results; the returned flags tell an overflow of the order and the sign. *)
Theorem scalar_ring a b flag : scalar_ok a -> scalar_ok b ->
  (scalar_ok (scalar_add a b).1 /\ sval (scalar_add a b).1 = (sval a + sval b) mod order /\
   (scalar_add a b).2 = Z.b2z (order <=? sval a + sval b)) /\
  (scalar_ok (scalar_mul a b) /\ sval (scalar_mul a b) = (sval a * sval b) mod order) /\
  (scalar_ok (scalar_sqr a) /\ sval (scalar_sqr a) = (sval a * sval a) mod order) /\
  (scalar_ok (scalar_negate a) /\ sval (scalar_negate a) = (- sval a) mod order) /\
  (scalar_cond_negate a flag = if flag =? 0 then (a, 1) else (scalar_negate a, -1)) /\
  scalar_is_high a = Z.b2z (order / 2 <? sval a).
Proof.
  intros Ha Hb. pose proof (scalar_add_spec a b Ha Hb) as Hadd. destruct (scalar_add a b) as [r o].
  pose proof (cond_negate_spec a flag Ha) as Hc. destruct (scalar_cond_negate a flag) as [r' s].
  split; [exact Hadd|]. split; [by apply scalar_mul_spec; [apply Ha|apply Hb]|]. split; [by apply scalar_sqr_spec, Ha|].
  split; [by apply negate_spec|]. split; [|by apply is_high_spec, Ha].
  destruct Hc as [-> ->]. by destruct (flag =? 0).
Qed.

(** Reading 32 bytes gives the number they encode modulo the order and says
    whether it was out of range; writing it back gives the bytes again when
    it was in range. *)
Theorem scalar_bytes b32 : length b32 = 32%nat -> Forall byte_ok b32 ->
  let '(r, over) := scalar_set_b32 b32 in
  scalar_ok r /\ sval r = be_val b32 mod order /\ over = Z.b2z (order <=? be_val b32) /\
  (over = 0 -> scalar_get_b32 r = b32).
Proof.
  intros Hl Hok. pose proof (set_b32_spec b32 Hl Hok) as Hs. destruct (scalar_set_b32 b32) as [r over].
  destruct Hs as (Hr & Hv & Ho). split; [done|]. split; [done|]. split; [done|]. intros H0.
  rewrite get_b32_spec by apply Hr. rewrite Hv, Z.mod_small, <- Hl; [by apply be_bytes_val|].
  pose proof (be_val_range b32 Hok). rewrite H0 in Ho. destruct (Z.leb_spec order (be_val b32)); [done|lia].
Qed.

Lemma scalar_ring_witness :
  let a := mkScalar 5 0 0 (2 ^ 63) in let b := mkScalar 0 7 0 (2 ^ 63 + 1) in
  (scalar_ok (scalar_add a b).1 /\ sval (scalar_add a b).1 = (sval a + sval b) mod order /\
   (scalar_add a b).2 = Z.b2z (order <=? sval a + sval b)) /\
  (scalar_ok (scalar_mul a b) /\ sval (scalar_mul a b) = (sval a * sval b) mod order) /\
  (scalar_ok (scalar_sqr a) /\ sval (scalar_sqr a) = (sval a * sval a) mod order) /\
  (scalar_ok (scalar_negate a) /\ sval (scalar_negate a) = (- sval a) mod order) /\
  (scalar_cond_negate a 1 = if 1 =? 0 then (a, 1) else (scalar_negate a, -1)) /\
  scalar_is_high a = Z.b2z (order / 2 <? sval a).
Proof.
  intros a b. apply scalar_ring; (split; [split; cbn; lia|by vm_compute]).
Defined.

Lemma scalar_bytes_witness :
  let '(r, over) := scalar_set_b32 (replicate 32 255) in
  scalar_ok r /\ sval r = be_val (replicate 32 255) mod order /\
  over = Z.b2z (order <=? be_val (replicate 32 255)) /\
  (over = 0 -> scalar_get_b32 r = replicate 32 255).
Proof. apply (scalar_bytes (replicate 32 255)); [done|by apply Forall_replicate]. Defined.
