(* ===== verification/ModExp.v ===== *)
(** * Multiplication modulo a number, and powers

    The interface of the representations of scalars and field elements to the
    code that only multiplies and squares (inverses and square roots by
    addition chains), and the calculus of exponents that checks such chains. *)

From S2P Require Import Prelude.

Class MulMod (A : Type) := { mm_mul : A -> A -> A; mm_sqr : A -> A }.

(** The values are taken modulo [m]; the operations are total on [mm_ok]. *)
Class MulModLaws (A : Type) `{!MulMod A} (m : Z) := {
  mm_ok : A -> Prop;
  mm_val : A -> Z;
  mm_pos : 0 < m;
  mm_mul_ok a b : mm_ok a -> mm_ok b ->
    mm_ok (mm_mul a b) /\ mm_val (mm_mul a b) mod m = (mm_val a * mm_val b) mod m;
  mm_sqr_ok a : mm_ok a ->
    mm_ok (mm_sqr a) /\ mm_val (mm_sqr a) mod m = (mm_val a * mm_val a) mod m;
}.

(** for (i = 0; i < n; i++) sqr(&t, &t) *)
Definition sqr_n `{MulMod A} (n : nat) (t : A) : A := Nat.iter n mm_sqr t.

Section Powers.
Context {A : Type} `{HL : MulModLaws A m}.

(** [a] is [x ^ e]. *)
Definition is_pow (x : A) (e : Z) (a : A) : Prop :=
  0 <= e /\ mm_ok a /\ mm_val a mod m = mm_val x ^ e mod m.

Lemma is_pow_1 x : mm_ok x -> is_pow x 1 x.
Proof. intros Hx. split; [lia|]. split; [done|]. by rewrite Z.pow_1_r. Qed.

Lemma is_pow_mul x e f a b : is_pow x e a -> is_pow x f b -> is_pow x (e + f) (mm_mul a b).
Proof.
  intros (He & Ha & Hae) (Hf & Hb & Hbf). destruct (mm_mul_ok a b Ha Hb) as [Hok Hv].
  split; [lia|]. split; [done|]. rewrite Hv, Z.pow_add_r by done.
  by rewrite Z.mul_mod, Hae, Hbf, <- Z.mul_mod by (pose proof mm_pos; lia).
Qed.

Lemma is_pow_sqr x e a : is_pow x e a -> is_pow x (2 * e) (mm_sqr a).
Proof.
  intros (He & Ha & Hae). destruct (mm_sqr_ok a Ha) as [Hok Hv].
  split; [lia|]. split; [done|]. replace (2 * e) with (e + e) by lia. rewrite Hv, Z.pow_add_r by done.
  by rewrite Z.mul_mod, Hae, <- Z.mul_mod by (pose proof mm_pos; lia).
Qed.

Lemma is_pow_sqr_n x n e a : is_pow x e a -> is_pow x (2 ^ Z.of_nat n * e) (sqr_n n a).
Proof.
  intros Ha. induction n as [|n IH]; [by rewrite Z.mul_1_l|].
  replace (2 ^ Z.of_nat (S n) * e) with (2 * (2 ^ Z.of_nat n * e))
    by (rewrite Nat2Z.inj_succ, Z.pow_succ_r by lia; lia).
  simpl. by apply is_pow_sqr.
Qed.

Lemma is_pow_eq x e f a : is_pow x e a -> e = f -> is_pow x f a.
Proof. by intros ? <-. Qed.
End Powers.

(** Computes the exponent of an addition chain: the goal is
    [is_pow x e chain] with a number [e]. *)
Ltac chain_pow := repeat lazymatch goal with
  | |- is_pow _ _ (mm_mul _ _) => apply is_pow_mul
  | |- is_pow _ _ (sqr_n _ _) => apply is_pow_sqr_n
  | |- is_pow _ _ (mm_sqr _) => apply is_pow_sqr
  | |- is_pow _ _ _ => eassumption
  end.

(** Names an intermediate value [v] of a chain and its exponent [e]. *)
Ltac chain_name v e :=
  let y := fresh "y" in let Hy := fresh "Hy" in
  match goal with
  | H : is_pow ?x 1 ?x |- _ =>
    assert (is_pow x e v) as Hy by (eapply is_pow_eq; [chain_pow|vm_compute; reflexivity]);
    set (y := v) in *; clearbody y
  end.
