(* ===== verification/Field5x52.v ===== *)
(** * The field of secp256k1 in five limbs

    [secp256k1/src/field_5x52.h], [field_5x52_impl.h] and the portable
    [field_5x52_int128_impl.h]: numbers modulo p in five limbs of 52 bits that
    may hold more.  The record is the array [n]; the [magnitude] of the VERIFY
    build is the predicate [fe_mag]. *)

From S2P Require Import Prelude Bytes Limbs Primality ModExp.

Definition M52 : Z := 0xFFFFFFFFFFFFF.
Definition M48 : Z := 0x0FFFFFFFFFFFF.

Record fe := mkFe { n0 : Z; n1 : Z; n2 : Z; n3 : Z; n4 : Z }.
Record fe_storage := mkFeS { s0 : Z; s1 : Z; s2 : Z; s3 : Z }.

(** SECP256K1_FE_CONST and SECP256K1_FE_STORAGE_CONST. *)
Definition fe_const (d7 d6 d5 d4 d3 d2 d1 d0 : Z) : fe := mkFe
  (Z.lor d0 (u64 (Z.shiftl (Z.land d1 0xFFFFF) 32)))
  (Z.lor (Z.lor (Z.shiftr d1 20) (u64 (Z.shiftl d2 12))) (u64 (Z.shiftl (Z.land d3 0xFF) 44)))
  (Z.lor (Z.shiftr d3 8) (u64 (Z.shiftl (Z.land d4 0xFFFFFFF) 24)))
  (Z.lor (Z.lor (Z.shiftr d4 28) (u64 (Z.shiftl d5 4))) (u64 (Z.shiftl (Z.land d6 0xFFFF) 36)))
  (Z.lor (Z.shiftr d6 16) (u64 (Z.shiftl d7 16))).

Definition fe_storage_const (d7 d6 d5 d4 d3 d2 d1 d0 : Z) : fe_storage := mkFeS
  (Z.lor d0 (u64 (Z.shiftl d1 32))) (Z.lor d2 (u64 (Z.shiftl d3 32)))
  (Z.lor d4 (u64 (Z.shiftl d5 32))) (Z.lor d6 (u64 (Z.shiftl d7 32))).

(** ** Normalisation *)

(** The pass [t0 += x * 0x1000003D1ULL; t1 += (t0 >> 52); t0 &= M52; ...]. *)
Definition carry_pass (x : Z) (t : fe) : fe :=
  let t0 := u64 (n0 t + u64 (x * 0x1000003D1)) in
  let t1 := u64 (n1 t + Z.shiftr t0 52) in let t0 := Z.land t0 M52 in
  let t2 := u64 (n2 t + Z.shiftr t1 52) in let t1 := Z.land t1 M52 in
  let t3 := u64 (n3 t + Z.shiftr t2 52) in let t2 := Z.land t2 M52 in
  let t4 := u64 (n4 t + Z.shiftr t3 52) in let t3 := Z.land t3 M52 in
  mkFe t0 t1 t2 t3 t4.

(** [x = t4 >> 48; t4 &= M48] and the first pass. *)
Definition first_pass (r : fe) : fe :=
  carry_pass (Z.shiftr (n4 r) 48) (mkFe (n0 r) (n1 r) (n2 r) (n3 r) (Z.land (n4 r) M48)).

(** Whether a final reduction is needed. *)
Definition final_x (t : fe) : Z :=
  let m := Z.land (Z.land (n1 t) (n2 t)) (n3 t) in
  Z.lor (Z.shiftr (n4 t) 48)
        (Z.land (Z.land (Z.b2z (n4 t =? M48)) (Z.b2z (m =? M52))) (Z.b2z (0xFFFFEFFFFFC2F <=? n0 t))).

Definition mask_top (t : fe) : fe := mkFe (n0 t) (n1 t) (n2 t) (n3 t) (Z.land (n4 t) M48).

Definition fe_normalize (r : fe) : fe :=
  let t := first_pass r in mask_top (carry_pass (final_x t) t).

Definition fe_normalize_weak (r : fe) : fe := first_pass r.

Definition fe_normalize_var (r : fe) : fe :=
  let t := first_pass r in
  if negb (final_x t =? 0) then mask_top (carry_pass 1 t) else t.

Definition fe_normalizes_to_zero (r : fe) : bool :=
  let t := first_pass r in
  let z0 := n0 t in let z1 := Z.lxor (n0 t) 0x1000003D0 in
  let z0 := Z.lor z0 (n1 t) in let z1 := Z.land z1 (n1 t) in
  let z0 := Z.lor z0 (n2 t) in let z1 := Z.land z1 (n2 t) in
  let z0 := Z.lor z0 (n3 t) in let z1 := Z.land z1 (n3 t) in
  let z0 := Z.lor z0 (n4 t) in let z1 := Z.land z1 (Z.lxor (n4 t) 0xF000000000000) in
  (z0 =? 0) || (z1 =? M52).

Definition fe_normalizes_to_zero_var (r : fe) : bool :=
  let x := Z.shiftr (n4 r) 48 in
  let t0 := u64 (n0 r + u64 (x * 0x1000003D1)) in
  let z0 := Z.land t0 M52 in
  let z1 := Z.lxor z0 0x1000003D0 in
  if negb (z0 =? 0) && negb (z1 =? M52) then false
  else
    let t4 := Z.land (n4 r) M48 in
    let t1 := u64 (n1 r + Z.shiftr t0 52) in
    let t2 := u64 (n2 r + Z.shiftr t1 52) in
    let t1 := Z.land t1 M52 in let z0 := Z.lor z0 t1 in let z1 := Z.land z1 t1 in
    let t3 := u64 (n3 r + Z.shiftr t2 52) in
    let t2 := Z.land t2 M52 in let z0 := Z.lor z0 t2 in let z1 := Z.land z1 t2 in
    let t4 := u64 (t4 + Z.shiftr t3 52) in
    let t3 := Z.land t3 M52 in let z0 := Z.lor z0 t3 in let z1 := Z.land z1 t3 in
    let z0 := Z.lor z0 t4 in let z1 := Z.land z1 (Z.lxor t4 0xF000000000000) in
    (z0 =? 0) || (z1 =? M52).

(** ** Small operations *)

(** [a] is an int, converted to uint64_t. *)
Definition fe_set_int (a : Z) : fe := mkFe (u64 a) 0 0 0 0.

Definition fe_is_zero (a : fe) : bool :=
  Z.lor (Z.lor (Z.lor (Z.lor (n0 a) (n1 a)) (n2 a)) (n3 a)) (n4 a) =? 0.

Definition fe_is_odd (a : fe) : bool := negb (Z.land (n0 a) 1 =? 0).

Definition fe_clear : fe := mkFe 0 0 0 0 0.

(** The loop of fe_cmp_var over the remaining limbs, most significant first. *)
Fixpoint cmp_limbs (l : list (Z * Z)) : Z :=
  match l with
  | [] => 0
  | (a, b) :: l => if b <? a then 1 else if a <? b then -1 else cmp_limbs l
  end.

Definition fe_cmp_var (a b : fe) : Z :=
  cmp_limbs [(n4 a, n4 b); (n3 a, n3 b); (n2 a, n2 b); (n1 a, n1 b); (n0 a, n0 b)].

(** The number is not reduced when it is p or more: the result says so. *)
Definition fe_set_b32 (a : list Z) : fe * bool :=
  let b i := a !!! i%nat in
  let sh x k := Z.shiftl x k in
  let r := mkFe
    (Z.lor (Z.lor (Z.lor (Z.lor (Z.lor (Z.lor (b 31%nat) (sh (b 30%nat) 8)) (sh (b 29%nat) 16))
      (sh (b 28%nat) 24)) (sh (b 27%nat) 32)) (sh (b 26%nat) 40)) (sh (Z.land (b 25%nat) 0xF) 48))
    (Z.lor (Z.lor (Z.lor (Z.lor (Z.lor (Z.lor (Z.land (Z.shiftr (b 25%nat) 4) 0xF) (sh (b 24%nat) 4))
      (sh (b 23%nat) 12)) (sh (b 22%nat) 20)) (sh (b 21%nat) 28)) (sh (b 20%nat) 36)) (sh (b 19%nat) 44))
    (Z.lor (Z.lor (Z.lor (Z.lor (Z.lor (Z.lor (b 18%nat) (sh (b 17%nat) 8)) (sh (b 16%nat) 16))
      (sh (b 15%nat) 24)) (sh (b 14%nat) 32)) (sh (b 13%nat) 40)) (sh (Z.land (b 12%nat) 0xF) 48))
    (Z.lor (Z.lor (Z.lor (Z.lor (Z.lor (Z.lor (Z.land (Z.shiftr (b 12%nat) 4) 0xF) (sh (b 11%nat) 4))
      (sh (b 10%nat) 12)) (sh (b 9%nat) 20)) (sh (b 8%nat) 28)) (sh (b 7%nat) 36)) (sh (b 6%nat) 44))
    (Z.lor (Z.lor (Z.lor (Z.lor (Z.lor (b 5%nat) (sh (b 4%nat) 8)) (sh (b 3%nat) 16))
      (sh (b 2%nat) 24)) (sh (b 1%nat) 32)) (sh (b 0%nat) 40)) in
  if (n4 r =? M48) && (Z.land (Z.land (n3 r) (n2 r)) (n1 r) =? M52) && (0xFFFFEFFFFFC2F <=? n0 r)
  then (r, false) else (r, true).

Definition fe_get_b32 (a : fe) : list Z :=
  let o n s := Z.land (Z.shiftr n s) 0xFF in
  [o (n4 a) 40; o (n4 a) 32; o (n4 a) 24; o (n4 a) 16; o (n4 a) 8; o (n4 a) 0;
   o (n3 a) 44; o (n3 a) 36; o (n3 a) 28; o (n3 a) 20; o (n3 a) 12; o (n3 a) 4;
   Z.lor (Z.land (Z.shiftr (n2 a) 48) 0xF) (Z.shiftl (Z.land (n3 a) 0xF) 4);
   o (n2 a) 40; o (n2 a) 32; o (n2 a) 24; o (n2 a) 16; o (n2 a) 8; o (n2 a) 0;
   o (n1 a) 44; o (n1 a) 36; o (n1 a) 28; o (n1 a) 20; o (n1 a) 12; o (n1 a) 4;
   Z.lor (Z.land (Z.shiftr (n0 a) 48) 0xF) (Z.shiftl (Z.land (n1 a) 0xF) 4);
   o (n0 a) 40; o (n0 a) 32; o (n0 a) 24; o (n0 a) 16; o (n0 a) 8; o (n0 a) 0].

Definition fe_negate (a : fe) (m : Z) : fe := mkFe
  (u64 (0xFFFFEFFFFFC2F * 2 * (m + 1) - n0 a)) (u64 (M52 * 2 * (m + 1) - n1 a))
  (u64 (M52 * 2 * (m + 1) - n2 a)) (u64 (M52 * 2 * (m + 1) - n3 a)) (u64 (M48 * 2 * (m + 1) - n4 a)).

Definition fe_mul_int (r : fe) (a : Z) : fe :=
  mkFe (u64 (n0 r * a)) (u64 (n1 r * a)) (u64 (n2 r * a)) (u64 (n3 r * a)) (u64 (n4 r * a)).

Definition fe_add (r a : fe) : fe :=
  mkFe (u64 (n0 r + n0 a)) (u64 (n1 r + n1 a)) (u64 (n2 r + n2 a)) (u64 (n3 r + n3 a)) (u64 (n4 r + n4 a)).

(** The masked choice of one limb; [mask0 = flag + ~0]. *)
Definition cmov_limb (flag r a : Z) : Z :=
  let mask0 := u64 (flag + not64 0) in
  let mask1 := not64 mask0 in
  Z.lor (Z.land r mask0) (Z.land a mask1).

Definition fe_cmov (r a : fe) (flag : Z) : fe :=
  let c := cmov_limb flag in
  mkFe (c (n0 r) (n0 a)) (c (n1 r) (n1 a)) (c (n2 r) (n2 a)) (c (n3 r) (n3 a)) (c (n4 r) (n4 a)).

Definition fe_storage_cmov (r a : fe_storage) (flag : Z) : fe_storage :=
  let c := cmov_limb flag in
  mkFeS (c (s0 r) (s0 a)) (c (s1 r) (s1 a)) (c (s2 r) (s2 a)) (c (s3 r) (s3 a)).

Definition fe_to_storage (a : fe) : fe_storage := mkFeS
  (Z.lor (n0 a) (u64 (Z.shiftl (n1 a) 52)))
  (Z.lor (Z.shiftr (n1 a) 12) (u64 (Z.shiftl (n2 a) 40)))
  (Z.lor (Z.shiftr (n2 a) 24) (u64 (Z.shiftl (n3 a) 28)))
  (Z.lor (Z.shiftr (n3 a) 36) (u64 (Z.shiftl (n4 a) 16))).

Definition fe_from_storage (a : fe_storage) : fe := mkFe
  (Z.land (s0 a) M52)
  (Z.lor (Z.shiftr (s0 a) 52) (Z.land (u64 (Z.shiftl (s1 a) 12)) M52))
  (Z.lor (Z.shiftr (s1 a) 40) (Z.land (u64 (Z.shiftl (s2 a) 24)) M52))
  (Z.lor (Z.shiftr (s2 a) 28) (Z.land (u64 (Z.shiftl (s3 a) 36)) M52))
  (Z.shiftr (s3 a) 16).

(** ** Multiplication *)

Definition RR : Z := 0x1000003D10.

(** int64_t; the conversion of an unsigned value. *)
Definition s64 (x : Z) : Z := u64 (x + 2 ^ 63) - 2 ^ 63.

Definition fe_mul_inner (a b : fe) : fe :=
  let a0 := n0 a in let a1 := n1 a in let a2 := n2 a in let a3 := n3 a in let a4 := n4 a in
  let b0 := n0 b in let b1 := n1 b in let b2 := n2 b in let b3 := n3 b in let b4 := n4 b in
  let d := u128 (a0 * b3 + a1 * b2 + a2 * b1 + a3 * b0) in
  let c := u128 (a4 * b4) in
  let d := u128 (d + u128 (Z.land c M52 * RR)) in let c := Z.shiftr c 52 in
  let t3 := u64 (Z.land d M52) in let d := Z.shiftr d 52 in
  let d := u128 (d + u128 (a0 * b4 + a1 * b3 + a2 * b2 + a3 * b1 + a4 * b0)) in
  let d := u128 (d + u128 (c * RR)) in
  let t4 := u64 (Z.land d M52) in let d := Z.shiftr d 52 in
  let tx := Z.shiftr t4 48 in let t4 := Z.land t4 (Z.shiftr M52 4) in
  let c := u128 (a0 * b0) in
  let d := u128 (d + u128 (a1 * b4 + a2 * b3 + a3 * b2 + a4 * b1)) in
  let u0 := u64 (Z.land d M52) in let d := Z.shiftr d 52 in
  let u0 := Z.lor (u64 (Z.shiftl u0 4)) tx in
  let c := u128 (c + u128 (u0 * Z.shiftr RR 4)) in
  let r0 := u64 (Z.land c M52) in let c := Z.shiftr c 52 in
  let c := u128 (c + u128 (a0 * b1 + a1 * b0)) in
  let d := u128 (d + u128 (a2 * b4 + a3 * b3 + a4 * b2)) in
  let c := u128 (c + u128 (Z.land d M52 * RR)) in let d := Z.shiftr d 52 in
  let r1 := u64 (Z.land c M52) in let c := Z.shiftr c 52 in
  let c := u128 (c + u128 (a0 * b2 + a1 * b1 + a2 * b0)) in
  let d := u128 (d + u128 (a3 * b4 + a4 * b3)) in
  let c := u128 (c + u128 (Z.land d M52 * RR)) in let d := Z.shiftr d 52 in
  let r2 := u64 (Z.land c M52) in let c := Z.shiftr c 52 in
  let c := u128 (c + u128 (d * RR + t3)) in
  let r3 := u64 (Z.land c M52) in let c := Z.shiftr c 52 in
  let c := u128 (c + t4) in
  mkFe r0 r1 r2 r3 (u64 c).

Definition fe_sqr_inner (a : fe) : fe :=
  let a0 := n0 a in let a1 := n1 a in let a2 := n2 a in let a3 := n3 a in let a4 := n4 a in
  let d := u128 (u64 (a0 * 2) * a3 + u64 (a1 * 2) * a2) in
  let c := u128 (a4 * a4) in
  let d := u128 (d + u128 (Z.land c M52 * RR)) in let c := Z.shiftr c 52 in
  let t3 := s64 (Z.land d M52) in let d := Z.shiftr d 52 in
  let a4 := u64 (a4 * 2) in
  let d := u128 (d + u128 (a0 * a4 + u64 (a1 * 2) * a3 + a2 * a2)) in
  let d := u128 (d + u128 (c * RR)) in
  let t4 := s64 (Z.land d M52) in let d := Z.shiftr d 52 in
  let tx := Z.shiftr t4 48 in let t4 := s64 (Z.land t4 (Z.shiftr M52 4)) in
  let c := u128 (a0 * a0) in
  let d := u128 (d + u128 (a1 * a4 + u64 (a2 * 2) * a3)) in
  let u0 := s64 (Z.land d M52) in let d := Z.shiftr d 52 in
  let u0 := Z.lor (s64 (Z.shiftl u0 4)) tx in
  let c := u128 (c + u128 (u128 u0 * Z.shiftr RR 4)) in
  let r0 := u64 (Z.land c M52) in let c := Z.shiftr c 52 in
  let a0 := u64 (a0 * 2) in
  let c := u128 (c + u128 (a0 * a1)) in
  let d := u128 (d + u128 (a2 * a4 + a3 * a3)) in
  let c := u128 (c + u128 (Z.land d M52 * RR)) in let d := Z.shiftr d 52 in
  let r1 := u64 (Z.land c M52) in let c := Z.shiftr c 52 in
  let c := u128 (c + u128 (a0 * a2 + a1 * a1)) in
  let d := u128 (d + u128 (a3 * a4)) in
  let c := u128 (c + u128 (Z.land d M52 * RR)) in let d := Z.shiftr d 52 in
  let r2 := u64 (Z.land c M52) in let c := Z.shiftr c 52 in
  let c := u128 (c + u128 (d * RR + u128 t3)) in
  let r3 := u64 (Z.land c M52) in let c := Z.shiftr c 52 in
  let c := u128 (c + u128 t4) in
  mkFe r0 r1 r2 r3 (u64 c).

Definition fe_mul (a b : fe) : fe := fe_mul_inner a b.
Definition fe_sqr (a : fe) : fe := fe_sqr_inner a.

(** ** Values and magnitudes *)


Definition fval (a : fe) : Z := n0 a + 2 ^ 52 * n1 a + 2 ^ 104 * n2 a + 2 ^ 156 * n3 a + 2 ^ 208 * n4 a.

(** secp256k1_fe_verify: a value of magnitude [m], and a normalised one. *)
Record fe_mag (m : Z) (a : fe) : Prop := {
  fm_0 : 0 <= n0 a <= M52 * (2 * m); fm_1 : 0 <= n1 a <= M52 * (2 * m);
  fm_2 : 0 <= n2 a <= M52 * (2 * m); fm_3 : 0 <= n3 a <= M52 * (2 * m);
  fm_4 : 0 <= n4 a <= M48 * (2 * m);
}.

Record fe_normal (a : fe) : Prop := {
  fn_0 : 0 <= n0 a < 2 ^ 52; fn_1 : 0 <= n1 a < 2 ^ 52; fn_2 : 0 <= n2 a < 2 ^ 52;
  fn_3 : 0 <= n3 a < 2 ^ 52; fn_4 : 0 <= n4 a < 2 ^ 48; fn_lt : fval a < fp;
}.

Lemma mod_fp_eq x y k : x = y + k * fp -> x mod fp = y mod fp.
Proof. intros ->. by rewrite Z.mod_add. Qed.

Lemma split_at n t : 0 <= n ->
  t = Z.land t (2 ^ n - 1) + 2 ^ n * Z.shiftr t n /\ 0 <= Z.land t (2 ^ n - 1) < 2 ^ n.
Proof.
  intros Hn. rewrite land_mask, shiftr_div by done. pose proof (Z.mod_pos_bound t (2 ^ n)).
  pose proof (Z.div_mod t (2 ^ n)). lia.
Qed.

Lemma s64_small x : 0 <= x < 2 ^ 63 -> s64 x = x.
Proof. intros Hx. unfold s64. rewrite u64_small by lia. lia. Qed.

(** ** Straight-line code on 52-bit limbs *)

Ltac no_trunc e :=
  lazymatch e with
  | context [u128 _] => fail
  | context [u64 _] => fail
  | context [s64 _] => fail
  | context [Z.land _ _] => fail
  | context [Z.shiftr _ _] => fail
  | context [Z.lor _ _] => fail
  | _ => idtac
  end.

Ltac split_limb n e :=
  let He := fresh "He" in let Hr := fresh "Hr" in let lo := fresh "lo" in let hi := fresh "hi" in
  destruct (split_at n e ltac:(done)) as [He Hr];
  set (lo := Z.land e (2 ^ n - 1)) in *; set (hi := Z.shiftr e n) in *; clearbody lo hi;
  assert (0 <= hi < 2 ^ 64) by lia.

Ltac fe_run := repeat match goal with
  | |- context [u128 ?e] => no_trunc e; rewrite (u128_small e) by lia
  | |- context [u64 ?e] => no_trunc e; rewrite (u64_small e) by lia
  | |- context [s64 ?e] => no_trunc e; rewrite (s64_small e) by lia
  | |- context [Z.land ?e (2 ^ 52 - 1)] => no_trunc e; split_limb 52 e
  | |- context [Z.shiftr ?e 52] => no_trunc e; split_limb 52 e
  | |- context [Z.land ?e (2 ^ 48 - 1)] => no_trunc e; split_limb 48 e
  | |- context [Z.shiftr ?e 48] => no_trunc e; split_limb 48 e
  | |- context [Z.lor (Z.shiftl ?a 4) ?b] => no_trunc a; no_trunc b;
      rewrite (shiftl_mul a 4), (lor_add 4 a b) by lia
  | |- context [Z.shiftl ?a 4] => no_trunc a; rewrite (shiftl_mul a 4) by lia
  | |- context [Z.lor (?a * 2 ^ 4) ?b] => no_trunc a; no_trunc b; rewrite (lor_add 4 a b) by lia
  end.

Ltac fe_masks :=
  change M52 with (2 ^ 52 - 1) in *; change M48 with (2 ^ 48 - 1) in *;
  change (Z.shiftr (2 ^ 52 - 1) 4) with (2 ^ 48 - 1);
  change (Z.shiftr RR 4) with 0x1000003D1; change RR with 0x1000003D10.

Ltac name_product a b :=
  let q := fresh "q" in let Hq := fresh "Hq" in
  assert (0 <= a * b < 2 ^ 112) as Hq by (split; [apply Z.mul_nonneg_nonneg; lia|nia]);
  set (q := a * b) in *; clearbody q.

(** Operands that the multiplication accepts (VERIFY_BITS). *)
Record mul_range (a : fe) : Prop := {
  mr_0 : 0 <= n0 a < 2 ^ 56; mr_1 : 0 <= n1 a < 2 ^ 56; mr_2 : 0 <= n2 a < 2 ^ 56;
  mr_3 : 0 <= n3 a < 2 ^ 56; mr_4 : 0 <= n4 a < 2 ^ 52;
}.

Lemma fe_mul_spec a b : mul_range a -> mul_range b ->
  fe_mag 1 (fe_mul a b) /\ fval (fe_mul a b) mod fp = (fval a * fval b) mod fp.
Proof.
  destruct a as [a0 a1 a2 a3 a4], b as [b0 b1 b2 b3 b4]. intros [] []. cbn [n0 n1 n2 n3 n4] in *.
  unfold fe_mul, fe_mul_inner. cbn [n0 n1 n2 n3 n4].
  assert (Hval : fval (mkFe a0 a1 a2 a3 a4) * fval (mkFe b0 b1 b2 b3 b4) =
    a0 * b0 + 2 ^ 52 * (a0 * b1 + a1 * b0) + 2 ^ 104 * (a0 * b2 + a1 * b1 + a2 * b0) +
    2 ^ 156 * (a0 * b3 + a1 * b2 + a2 * b1 + a3 * b0) +
    2 ^ 208 * (a0 * b4 + a1 * b3 + a2 * b2 + a3 * b1 + a4 * b0) +
    2 ^ 260 * (a1 * b4 + a2 * b3 + a3 * b2 + a4 * b1) + 2 ^ 312 * (a2 * b4 + a3 * b3 + a4 * b2) +
    2 ^ 364 * (a3 * b4 + a4 * b3) + 2 ^ 416 * (a4 * b4)) by (unfold fval; cbn [n0 n1 n2 n3 n4]; ring).
  rewrite Hval. clear Hval.
  cbv zeta. fe_masks.
  name_product a0 b0; name_product a0 b1; name_product a0 b2; name_product a0 b3; name_product a0 b4;
  name_product a1 b0; name_product a1 b1; name_product a1 b2; name_product a1 b3; name_product a1 b4;
  name_product a2 b0; name_product a2 b1; name_product a2 b2; name_product a2 b3; name_product a2 b4;
  name_product a3 b0; name_product a3 b1; name_product a3 b2; name_product a3 b3; name_product a3 b4;
  name_product a4 b0; name_product a4 b1; name_product a4 b2; name_product a4 b3; name_product a4 b4.
  fe_run. split; [split; cbn [n0 n1 n2 n3 n4]; fe_masks; lia|].
  apply (mod_fp_eq _ _ (- (16 * (2 ^ 156 * lo + 2 ^ 208 * hi + 2 ^ 52 * lo3 + 2 ^ 104 * lo4 + 2 ^ 156 * hi4) + 16 * lo2 + hi5))).
  unfold fval, fp. cbn [n0 n1 n2 n3 n4]. lia.
Qed.

Lemma fe_sqr_spec a : mul_range a ->
  fe_mag 1 (fe_sqr a) /\ fval (fe_sqr a) mod fp = (fval a * fval a) mod fp.
Proof.
  destruct a as [a0 a1 a2 a3 a4]. intros []. cbn [n0 n1 n2 n3 n4] in *.
  unfold fe_sqr, fe_sqr_inner. cbn [n0 n1 n2 n3 n4].
  assert (Hval : fval (mkFe a0 a1 a2 a3 a4) * fval (mkFe a0 a1 a2 a3 a4) =
    a0 * a0 + 2 ^ 53 * (a0 * a1) + 2 ^ 104 * (2 * (a0 * a2) + a1 * a1) + 2 ^ 157 * (a0 * a3 + a1 * a2) +
    2 ^ 208 * (2 * (a0 * a4) + 2 * (a1 * a3) + a2 * a2) + 2 ^ 261 * (a1 * a4 + a2 * a3) +
    2 ^ 312 * (2 * (a2 * a4) + a3 * a3) + 2 ^ 365 * (a3 * a4) + 2 ^ 416 * (a4 * a4))
    by (unfold fval; cbn [n0 n1 n2 n3 n4]; ring).
  rewrite Hval. clear Hval. cbv zeta. fe_masks.
  rewrite (u64_small (a0 * 2)), (u64_small (a1 * 2)), (u64_small (a2 * 2)), (u64_small (a4 * 2)) by lia.
  replace (a0 * 2 * a3 + a1 * 2 * a2) with (2 * (a0 * a3) + 2 * (a1 * a2)) by ring.
  replace (a0 * (a4 * 2) + a1 * 2 * a3 + a2 * a2) with (2 * (a0 * a4) + 2 * (a1 * a3) + a2 * a2) by ring.
  replace (a1 * (a4 * 2) + a2 * 2 * a3) with (2 * (a1 * a4) + 2 * (a2 * a3)) by ring.
  replace (a0 * 2 * a1) with (2 * (a0 * a1)) by ring.
  replace (a2 * (a4 * 2) + a3 * a3) with (2 * (a2 * a4) + a3 * a3) by ring.
  replace (a0 * 2 * a2 + a1 * a1) with (2 * (a0 * a2) + a1 * a1) by ring.
  replace (a3 * (a4 * 2)) with (2 * (a3 * a4)) by ring.
  name_product a0 a0; name_product a0 a1; name_product a0 a2; name_product a0 a3; name_product a0 a4;
  name_product a1 a1; name_product a1 a2; name_product a1 a3; name_product a1 a4;
  name_product a2 a2; name_product a2 a3; name_product a2 a4;
  name_product a3 a3; name_product a3 a4; name_product a4 a4.
  fe_run. split; [split; cbn [n0 n1 n2 n3 n4]; fe_masks; lia|].
  apply (mod_fp_eq _ _ (- (16 * (2 ^ 156 * lo + 2 ^ 208 * hi + 2 ^ 52 * lo3 + 2 ^ 104 * lo4 + 2 ^ 156 * hi4) + 16 * lo2 + hi5))).
  unfold fval, fp. cbn [n0 n1 n2 n3 n4]. lia.
Qed.

(** ** Normalisation *)

Ltac fe_limbs := cbn [n0 n1 n2 n3 n4] in *.

Lemma fp_value : fp = 2 ^ 256 - 0x1000003D1.
Proof. reflexivity. Qed.

(** A carry pass keeps the number plus the folded top bits. *)
Lemma carry_pass_spec x t : 0 <= x < 2 ^ 16 ->
  0 <= n0 t < 2 ^ 64 - 2 ^ 49 -> 0 <= n1 t < 2 ^ 64 - 2 ^ 12 -> 0 <= n2 t < 2 ^ 64 - 2 ^ 12 ->
  0 <= n3 t < 2 ^ 64 - 2 ^ 12 -> 0 <= n4 t < 2 ^ 64 - 2 ^ 12 ->
  let r := carry_pass x t in
  0 <= n0 r < 2 ^ 52 /\ 0 <= n1 r < 2 ^ 52 /\ 0 <= n2 r < 2 ^ 52 /\ 0 <= n3 r < 2 ^ 52 /\
  n4 t <= n4 r <= n4 t + 2 ^ 12 /\ fval r = fval t + x * 0x1000003D1.
Proof.
  destruct t as [t0 t1 t2 t3 t4]. fe_limbs. intros. unfold carry_pass. cbv zeta. fe_limbs. fe_masks.
  fe_run. unfold fval. fe_limbs. lia.
Qed.

(** The first pass leaves less than 2^256 + 2^220. *)
Lemma first_pass_spec a : fe_mag 2047 a -> let t := first_pass a in
  0 <= n0 t < 2 ^ 52 /\ 0 <= n1 t < 2 ^ 52 /\ 0 <= n2 t < 2 ^ 52 /\ 0 <= n3 t < 2 ^ 52 /\
  0 <= n4 t < 2 ^ 48 + 2 ^ 12 /\ fval t mod fp = fval a mod fp.
Proof.
  destruct a as [a0 a1 a2 a3 a4]. intros []. fe_limbs. unfold first_pass. fe_limbs. fe_masks.
  destruct (split_at 48 a4) as [He Hr]; [lia|].
  set (lo := Z.land a4 (2 ^ 48 - 1)) in *. set (hi := Z.shiftr a4 48) in *. clearbody lo hi.
  pose proof (carry_pass_spec hi (mkFe a0 a1 a2 a3 lo)) as H. fe_limbs. cbv zeta in *.
  destruct H as (?&?&?&?&?&Hv); [lia..|]. do 4 (split; [done|]). split; [lia|].
  apply (mod_fp_eq _ _ (- hi)). rewrite Hv. unfold fval. fe_limbs. rewrite fp_value. lia.
Qed.

Lemma land_full n a b : 0 <= n -> 0 <= a < 2 ^ n -> Z.land a b = 2 ^ n - 1 -> a = 2 ^ n - 1.
Proof.
  intros Hn Ha Hl. rewrite <- (Z.mod_small a (2 ^ n)), <- land_mask, <- Hl by lia.
  by rewrite Z.land_assoc, Z.land_diag.
Qed.

Lemma land_full_iff n a b : 0 <= n -> 0 <= a < 2 ^ n -> 0 <= b < 2 ^ n ->
  Z.land a b = 2 ^ n - 1 <-> a = 2 ^ n - 1 /\ b = 2 ^ n - 1.
Proof.
  intros Hn Ha Hb. split.
  - intros Hl. split; [by apply (land_full n a b)|]. apply (land_full n b a); [done..|]. by rewrite Z.land_comm.
  - intros [-> ->]. apply Z.land_diag.
Qed.

Lemma land_range n a b : 0 <= n -> 0 <= a < 2 ^ n -> 0 <= b < 2 ^ n -> 0 <= Z.land a b < 2 ^ n.
Proof.
  intros Hn Ha Hb. assert (0 <= Z.land a b) by (apply Z.land_nonneg; lia).
  rewrite <- (Z.mod_small a (2 ^ n)), <- land_mask, <- Z.land_assoc, (Z.land_comm (2 ^ n - 1)), Z.land_assoc,
    land_mask by lia. apply Z.mod_pos_bound. lia.
Qed.

Lemma lxor_eq_iff a b c : Z.lxor a b = c <-> a = Z.lxor c b.
Proof.
  split; intros H; [rewrite <- H|rewrite H];
  by rewrite Z.lxor_assoc, Z.lxor_nilpotent, Z.lxor_0_r.
Qed.

(** The comparison with p. *)
Definition ge_p (t : fe) : bool :=
  (n4 t =? M48) && (Z.land (Z.land (n1 t) (n2 t)) (n3 t) =? M52) && (0xFFFFEFFFFFC2F <=? n0 t).

Lemma ge_p_spec t : 0 <= n0 t < 2 ^ 52 -> 0 <= n1 t < 2 ^ 52 -> 0 <= n2 t < 2 ^ 52 ->
  0 <= n3 t < 2 ^ 52 -> 0 <= n4 t < 2 ^ 48 -> ge_p t = (fp <=? fval t).
Proof.
  intros ?????. unfold ge_p. fe_masks. apply eq_iff_eq_true. rewrite !andb_true_iff, !Z.leb_le, !Z.eqb_eq.
  rewrite !land_full_iff by (lia || (apply land_range; lia)). unfold fval, fp. lia.
Qed.

Lemma final_x_spec t : 0 <= n0 t < 2 ^ 52 -> 0 <= n1 t < 2 ^ 52 -> 0 <= n2 t < 2 ^ 52 ->
  0 <= n3 t < 2 ^ 52 -> 0 <= n4 t < 2 ^ 48 + 2 ^ 12 -> final_x t = Z.b2z (fp <=? fval t).
Proof.
  intros H0 H1 H2 H3 H4. unfold final_x. rewrite shiftr_div by lia. destruct (decide (n4 t < 2 ^ 48)).
  - rewrite <- (ge_p_spec t) by lia. rewrite Z.div_small by lia. unfold ge_p.
    by destruct (_ =? M48), (_ =? M52), (_ <=? _).
  - rewrite <- (Z.div_unique (n4 t) (2 ^ 48) 1 (n4 t - 2 ^ 48)) by lia. rewrite (proj2 (Z.eqb_neq _ _)) by (fe_masks; lia).
    rewrite (proj2 (Z.leb_le fp _)) by (unfold fval, fp; lia). by destruct (_ =? M52), (_ <=? _).
Qed.

Lemma normal_val a : fe_normal a -> 0 <= fval a < fp.
Proof. intros []. split; [unfold fval; lia|done]. Qed.

Lemma final_pass_spec t : 0 <= n0 t < 2 ^ 52 -> 0 <= n1 t < 2 ^ 52 -> 0 <= n2 t < 2 ^ 52 ->
  0 <= n3 t < 2 ^ 52 -> 0 <= n4 t < 2 ^ 48 + 2 ^ 12 ->
  let r := mask_top (carry_pass (Z.b2z (fp <=? fval t)) t) in fe_normal r /\ fval r = fval t mod fp.
Proof.
  intros H0 H1 H2 H3 H4. set (x := Z.b2z (fp <=? fval t)).
  assert (0 <= x <= 1) as Hx by apply b2z_range.
  assert (0 <= fval t - x * fp < fp) as Hlt.
  { subst x. destruct (Z.leb_spec fp (fval t)); cbn [Z.b2z]; [|unfold fval in *; lia].
    unfold fval, fp in *. lia. }
  cbv zeta. destruct (carry_pass_spec x t) as (?&?&?&?&?&Hv); [lia..|]. set (r := carry_pass x t) in *.
  clearbody r x. unfold mask_top. fe_masks. destruct (split_at 48 (n4 r)) as [He Hr]; [lia|].
  set (lo := Z.land (n4 r) (2 ^ 48 - 1)) in *. set (hi := Z.shiftr (n4 r) 48) in *. clearbody lo hi.
  assert (Hn : fval (mkFe (n0 r) (n1 r) (n2 r) (n3 r) lo) = fval t - x * fp).
  { rewrite fp_value in *. unfold fval in *. fe_limbs. lia. }
  rewrite Hn. split; [split; fe_limbs; lia|]. rewrite <- (Z.mod_small _ _ Hlt).
  by apply (mod_fp_eq _ _ (- x)); lia.
Qed.

Lemma normalize_spec a : fe_mag 2047 a ->
  fe_normal (fe_normalize a) /\ fval (fe_normalize a) = fval a mod fp.
Proof.
  intros Ha. destruct (first_pass_spec a Ha) as (H0&H1&H2&H3&H4&Hv). unfold fe_normalize.
  cbv zeta. rewrite final_x_spec, <- Hv by done. by apply final_pass_spec.
Qed.

Lemma normalize_weak_spec a : fe_mag 2047 a ->
  fe_mag 1 (fe_normalize_weak a) /\ fval (fe_normalize_weak a) mod fp = fval a mod fp.
Proof.
  intros Ha. destruct (first_pass_spec a Ha) as (H0&H1&H2&H3&H4&Hv). unfold fe_normalize_weak.
  split; [split; fe_masks; lia|done].
Qed.

Lemma normalize_var_eq a : fe_mag 2047 a -> fe_normalize_var a = fe_normalize a.
Proof.
  intros Ha. destruct (first_pass_spec a Ha) as (H0&H1&H2&H3&H4&Hv). unfold fe_normalize_var, fe_normalize.
  cbv zeta. rewrite final_x_spec by done. destruct (Z.leb_spec fp (fval (first_pass a))) as [|Hlt]; cbn [Z.b2z Z.eqb negb]; [done|].
  set (t := first_pass a) in *. clearbody t. destruct t as [t0 t1 t2 t3 t4]. unfold carry_pass, mask_top. fe_limbs.
  assert (t4 < 2 ^ 48) by (unfold fval, fp in Hlt; fe_limbs; lia).
  cbv zeta. fe_limbs. fe_masks. change (0 * _) with 0. change (u64 0) with 0.
  rewrite Z.add_0_r. repeat (rewrite u64_small by lia; rewrite ?(land_mask _ 52), ?(shiftr_div _ 52), ?Z.div_small, ?Z.add_0_r by lia).
  by rewrite land_mask, !Z.mod_small by lia.
Qed.

(** ** Tests for zero *)

(** Both zero tests decide whether the result of the first pass is 0 or p. *)
Lemma zero_bits t0 t1 t2 t3 t4 : 0 <= t0 < 2 ^ 52 -> 0 <= t1 < 2 ^ 52 -> 0 <= t2 < 2 ^ 52 ->
  0 <= t3 < 2 ^ 52 -> 0 <= t4 < 2 ^ 48 + 2 ^ 12 ->
  (Z.lor (Z.lor (Z.lor (Z.lor t0 t1) t2) t3) t4 =? 0) ||
  (Z.land (Z.land (Z.land (Z.land (Z.lxor t0 0x1000003D0) t1) t2) t3) (Z.lxor t4 0xF000000000000) =? M52) =
  (fval (mkFe t0 t1 t2 t3 t4) mod fp =? 0).
Proof.
  intros H0 H1 H2 H3 H4. set (v := fval (mkFe t0 t1 t2 t3 t4)).
  assert (Hv : 0 <= v < 2 * fp) by (unfold v, fval, fp; fe_limbs; lia).
  assert (Hmod : v mod fp = 0 <-> v = 0 \/ v = fp).
  { split; [|by intros [-> | ->]; vm_compute]. intros Hm. apply Z.mod_divide in Hm; [|by vm_compute].
    destruct Hm as [k Hk]. unfold fp in *. lia. }
  pose proof (lxor_bound 52 t0 0x1000003D0 ltac:(lia) ltac:(lia) ltac:(lia)).
  pose proof (lxor_bound 52 t4 0xF000000000000 ltac:(lia) ltac:(lia) ltac:(lia)).
  apply eq_iff_eq_true. rewrite orb_true_iff, !Z.eqb_eq, Hmod. fe_masks.
  rewrite !Z.lor_eq_0_iff, !land_full_iff, !lxor_eq_iff
    by (lia || (repeat apply land_range; lia)).
  change (Z.lxor (2 ^ 52 - 1) 0x1000003D0) with 0xFFFFEFFFFFC2F.
  change (Z.lxor (2 ^ 52 - 1) 0xF000000000000) with (2 ^ 48 - 1).
  unfold v, fval, fp. fe_limbs. lia.
Qed.

Lemma normalizes_to_zero_spec a : fe_mag 2047 a -> fe_normalizes_to_zero a = (fval a mod fp =? 0).
Proof.
  intros Ha. destruct (first_pass_spec a Ha) as (H0&H1&H2&H3&H4&<-). unfold fe_normalizes_to_zero. cbv zeta.
  rewrite zero_bits by done. by destruct (first_pass a).
Qed.

(** The early return of the variable-time test only skips work. *)
Lemma normalizes_to_zero_var_eq a : fe_normalizes_to_zero_var a = fe_normalizes_to_zero a.
Proof.
  unfold fe_normalizes_to_zero_var, fe_normalizes_to_zero, first_pass, carry_pass. cbv zeta. fe_limbs.
  set (t0 := u64 (n0 a + _)). set (z0 := Z.land t0 M52). clearbody t0.
  match goal with |- _ = (Z.lor (Z.lor (Z.lor (Z.lor _ ?t1) ?t2) ?t3) ?t4 =? 0) || _ =>
    set (u1 := t1); set (u2 := t2); set (u3 := t3); set (u4 := t4) end.
  destruct (negb (z0 =? 0) && negb (Z.lxor z0 0x1000003D0 =? M52)) eqn:Hfast; [|done].
  apply andb_true_iff in Hfast as [Hz Hp]. rewrite negb_true_iff, Z.eqb_neq in Hz, Hp.
  symmetry. apply orb_false_iff. rewrite !Z.eqb_neq. split.
  - by rewrite !Z.lor_eq_0_iff; intros ((((? & ?) & ?) & ?) & ?).
  - intros Hl. apply Hp. change M52 with (2 ^ 52 - 1) in *.
    apply (land_full 52 _ (Z.land u1 (Z.land u2 (Z.land u3 (Z.lxor u4 0xF000000000000))))); [lia| |by rewrite !Z.land_assoc].
    apply lxor_bound; [lia| |lia]. unfold z0. rewrite land_mask by lia. by apply Z.mod_pos_bound.
Qed.

(** ** Small operations *)

Lemma fe_mag_weaken m m' a : fe_mag m a -> m <= m' -> fe_mag m' a.
Proof. intros [] Hm. unfold M52, M48 in *. split; unfold M52, M48; lia. Qed.

Lemma normal_mag a : fe_normal a -> fe_mag 1 a.
Proof. intros []. split; fe_masks; lia. Qed.

Lemma mag_mul_range a : fe_mag 8 a -> mul_range a.
Proof. intros []. split; fe_masks; lia. Qed.

Lemma set_int_spec a : 0 <= a < 2 ^ 31 -> fe_normal (fe_set_int a) /\ fval (fe_set_int a) = a.
Proof.
  intros Ha. unfold fe_set_int, fval. rewrite u64_small by lia.
  split; [split; unfold fval, fp; fe_limbs; lia|fe_limbs; lia].
Qed.

Lemma fe_is_zero_spec a : fe_normal a -> fe_is_zero a = (fval a =? 0).
Proof.
  intros []. unfold fe_is_zero. apply eq_iff_eq_true. rewrite !Z.eqb_eq, !Z.lor_eq_0_iff. unfold fval. lia.
Qed.

Lemma fe_is_odd_spec a : fe_normal a -> fe_is_odd a = Z.odd (fval a).
Proof.
  intros []. unfold fe_is_odd. change 1 with (Z.ones 1). rewrite Z.land_ones by lia.
  replace (fval a) with (n0 a + 2 * (2 ^ 51 * n1 a + 2 ^ 103 * n2 a + 2 ^ 155 * n3 a + 2 ^ 207 * n4 a))
    by (unfold fval; lia).
  change (2 ^ 1) with 2. rewrite Z.odd_add_mul_2, (Zmod_odd (n0 a)). by destruct (Z.odd (n0 a)).
Qed.

Lemma cmp_var_spec a b : fe_normal a -> fe_normal b ->
  fe_cmp_var a b = match fval a ?= fval b with Lt => -1 | Eq => 0 | Gt => 1 end.
Proof.
  intros [] []. unfold fe_cmp_var. cbn [cmp_limbs]. unfold fval in *.
  repeat match goal with |- context [?x <? ?y] => destruct (Z.ltb_spec x y) end;
  destruct (Z.compare_spec (n0 a + 2 ^ 52 * n1 a + 2 ^ 104 * n2 a + 2 ^ 156 * n3 a + 2 ^ 208 * n4 a)
    (n0 b + 2 ^ 52 * n1 b + 2 ^ 104 * n2 b + 2 ^ 156 * n3 b + 2 ^ 208 * n4 b)); lia.
Qed.

Lemma fe_add_spec ma mb a b : fe_mag ma a -> fe_mag mb b -> ma + mb <= 2048 ->
  fe_mag (ma + mb) (fe_add a b) /\ fval (fe_add a b) = fval a + fval b.
Proof.
  intros [] [] Hm. unfold fe_add, fval. fe_masks. fe_limbs. fe_run.
  split; [split; fe_limbs; fe_masks; lia|lia].
Qed.

Lemma mul_int_spec m a k : fe_mag m a -> 0 <= k -> 0 <= m -> k * m <= 2048 ->
  fe_mag (k * m) (fe_mul_int a k) /\ fval (fe_mul_int a k) = k * fval a.
Proof.
  intros [F0 F1 F2 F3 F4] Hk Hm0 Hm. unfold fe_mul_int, fval. fe_masks. fe_limbs.
  assert (forall x B, 0 <= x <= B * (2 * m) -> 0 <= B -> 0 <= x * k <= B * (2 * (k * m))) as Hs.
  { intros x B Hx HB. split; [apply Z.mul_nonneg_nonneg; lia|]. replace (B * (2 * (k * m))) with (B * (2 * m) * k) by ring.
    apply Z.mul_le_mono_nonneg_r; lia. }
  pose proof (Hs _ _ F0 ltac:(lia)). pose proof (Hs _ _ F1 ltac:(lia)). pose proof (Hs _ _ F2 ltac:(lia)).
  pose proof (Hs _ _ F3 ltac:(lia)). pose proof (Hs _ _ F4 ltac:(lia)). set (q := k * m) in *.
  assert (0 <= q) by (apply Z.mul_nonneg_nonneg; lia). clearbody q.
  rewrite !u64_small by lia. split; [split; fe_limbs; fe_masks; lia|ring].
Qed.

(** The subtraction is from a multiple of p that dominates every limb. *)
Lemma fe_negate_spec m a : fe_mag m a -> 0 <= m < 2047 ->
  fe_mag (m + 1) (fe_negate a m) /\ fval (fe_negate a m) mod fp = (- fval a) mod fp.
Proof.
  intros [] Hm. unfold fe_negate. fe_masks. fe_limbs. rewrite !u64_small by lia.
  split; [split; fe_limbs; fe_masks; lia|]. apply (mod_fp_eq _ _ (2 * (m + 1))). unfold fval, fp. fe_limbs. lia.
Qed.

Lemma cmov_limb_spec flag r a : 0 <= flag <= 1 -> 0 <= r < 2 ^ 64 -> 0 <= a < 2 ^ 64 ->
  cmov_limb flag r a = if flag =? 0 then r else a.
Proof.
  intros Hf Hr Ha. unfold cmov_limb.
  assert (forall x, 0 <= x < 2 ^ 64 -> Z.land x (2 ^ 64 - 1) = x) as Hall.
  { intros x Hx. rewrite land_mask by lia. by apply Z.mod_small. }
  assert (flag = 0 \/ flag = 1) as [-> | ->] by lia; cbn [Z.eqb].
  - change (u64 (0 + not64 0)) with (2 ^ 64 - 1). change (not64 (2 ^ 64 - 1)) with 0.
    by rewrite Z.land_0_r, Z.lor_0_r, Hall.
  - change (u64 (1 + not64 0)) with 0. change (not64 0) with (2 ^ 64 - 1). by rewrite Z.land_0_r, Z.lor_0_l, Hall.
Qed.

Lemma fe_cmov_spec r a flag m : 0 <= flag <= 1 -> fe_mag m r -> fe_mag m a -> m <= 2048 ->
  fe_cmov r a flag = if flag =? 0 then r else a.
Proof.
  intros Hf [] [] Hm. unfold fe_cmov, M52, M48 in *. rewrite !cmov_limb_spec by lia.
  destruct r, a. by destruct (flag =? 0).
Qed.

(** ** Bytes *)

(** [x | y << k | ...] with the pieces in increasing, disjoint positions. *)
Ltac lor_pieces := repeat match goal with
  | |- context [Z.lor ?a (Z.shiftl ?b ?n)] => no_trunc a; rewrite (lor_high n a b) by lia
  end.

(** A byte and its two halves. *)
Lemma nibbles b : byte_ok b ->
  b = Z.land b 0xF + 16 * Z.land (Z.shiftr b 4) 0xF /\
  0 <= Z.land b 0xF < 16 /\ 0 <= Z.land (Z.shiftr b 4) 0xF < 16.
Proof.
  intros Hb. unfold byte_ok in Hb. change 0xF with (2 ^ 4 - 1). rewrite !land_mask, shiftr_div by lia.
  change (2 ^ 4) with 16. dlia.
Qed.

Definition pack (a0 a1 a2 a3 a4 a5 a6 : Z) (k : Z) : Z :=
  Z.lor (Z.lor (Z.lor (Z.lor (Z.lor (Z.lor a0 (Z.shiftl a1 k)) (Z.shiftl a2 (k + 8)))
    (Z.shiftl a3 (k + 16))) (Z.shiftl a4 (k + 24))) (Z.shiftl a5 (k + 32))) (Z.shiftl a6 (k + 40)).

Lemma pack_spec k a0 a1 a2 a3 a4 a5 a6 : 0 <= k -> 0 <= a0 < 2 ^ k -> byte_ok a1 -> byte_ok a2 -> byte_ok a3 ->
  byte_ok a4 -> byte_ok a5 -> 0 <= a6 -> pack a0 a1 a2 a3 a4 a5 a6 k =
  a0 + 2 ^ k * (a1 + 2 ^ 8 * a2 + 2 ^ 16 * a3 + 2 ^ 24 * a4 + 2 ^ 32 * a5 + 2 ^ 40 * a6).
Proof.
  intros Hk H0 H1 H2 H3 H4 H5 H6. unfold byte_ok in *. unfold pack.
  rewrite (lor_high k) by lia. rewrite (lor_high (k + 8)); [|lia|rewrite Z.pow_add_r by lia; nia].
  rewrite (lor_high (k + 16)); [|lia|rewrite !Z.pow_add_r by lia; nia].
  rewrite (lor_high (k + 24)); [|lia|rewrite !Z.pow_add_r by lia; nia].
  rewrite (lor_high (k + 32)); [|lia|rewrite !Z.pow_add_r by lia; nia].
  rewrite (lor_high (k + 40)); [|lia|rewrite !Z.pow_add_r by lia; nia].
  rewrite !Z.pow_add_r by lia. ring.
Qed.

Lemma fe_set_b32_spec l : length l = 32%nat -> Forall byte_ok l ->
  let '(r, ok) := fe_set_b32 l in
  fe_mag 1 r /\ fval r = be_val l /\ ok = (be_val l <? fp) /\ (ok = true -> fe_normal r).
Proof.
  intros Hl Hok. do 32 (destruct l as [|? l]; [done|]). destruct l; [|done]. clear Hl.
  rewrite !Forall_cons in Hok. repeat (destruct Hok as [? Hok]). clear Hok.
  unfold fe_set_b32. cbn [lookup_total list_lookup_total].
  repeat match goal with
  | |- context [Z.lor (Z.lor (Z.lor (Z.lor (Z.lor (Z.lor ?a0 (Z.shiftl ?a1 8)) (Z.shiftl ?a2 16))
    (Z.shiftl ?a3 24)) (Z.shiftl ?a4 32)) (Z.shiftl ?a5 40)) (Z.shiftl ?a6 48)] =>
    change (Z.lor _ (Z.shiftl a6 48)) with (pack a0 a1 a2 a3 a4 a5 a6 8)
  | |- context [Z.lor (Z.lor (Z.lor (Z.lor (Z.lor (Z.lor ?a0 (Z.shiftl ?a1 4)) (Z.shiftl ?a2 12))
    (Z.shiftl ?a3 20)) (Z.shiftl ?a4 28)) (Z.shiftl ?a5 36)) (Z.shiftl ?a6 44)] =>
    change (Z.lor _ (Z.shiftl a6 44)) with (pack a0 a1 a2 a3 a4 a5 a6 4)
  end.
  repeat match goal with
  | H : byte_ok ?b |- context [Z.land (Z.shiftr ?b 4) 0xF] =>
    let lo := fresh "lo" in let hi := fresh "hi" in let He := fresh "He" in let Hlo := fresh in let Hhi := fresh in
    destruct (nibbles b H) as (He & Hlo & Hhi);
    set (lo := Z.land b 0xF) in *; set (hi := Z.land (Z.shiftr b 4) 0xF) in *; clearbody lo hi
  end.
  rewrite !pack_spec by (done || lia || (unfold byte_ok in *; lia)).
  unfold byte_ok in *. lor_pieces.
  match goal with |- context [if _ then (?x, false) else _] => set (r := x) end.
  match goal with |- context [be_val ?x] => assert (be_val x = fval r) as -> end.
  { unfold be_val, reverse. cbn -[Z.mul Z.add Z.pow]. unfold r, fval. fe_limbs. lia. }
  assert (0 <= n0 r < 2 ^ 52) as B0 by (unfold r; fe_limbs; lia).
  assert (0 <= n1 r < 2 ^ 52) as B1 by (unfold r; fe_limbs; lia).
  assert (0 <= n2 r < 2 ^ 52) as B2 by (unfold r; fe_limbs; lia).
  assert (0 <= n3 r < 2 ^ 52) as B3 by (unfold r; fe_limbs; lia).
  assert (0 <= n4 r < 2 ^ 48) as B4 by (unfold r; fe_limbs; lia).
  clearbody r. pose proof (ge_p_spec r B0 B1 B2 B3 B4) as Hge. unfold ge_p in Hge.
  rewrite (Z.land_comm (n3 r) (n2 r)), (Z.land_comm _ (n1 r)), Z.land_assoc, Hge.
  assert (fe_mag 1 r) by (split; fe_masks; lia).
  destruct (Z.leb_spec fp (fval r)).
  - split; [done|]. split; [done|]. split; [|done]. symmetry. apply Z.ltb_ge. lia.
  - split; [done|]. split; [done|]. split; [symmetry; apply Z.ltb_lt; lia|]. by split.
Qed.

(** The bytes of a limb, least significant first: [n >> k], [n >> (k + 8)], ... *)
Lemma telescope n k k' : 0 <= k -> k' = k + 8 ->
  Z.shiftr n k = Z.land (Z.shiftr n k) 0xFF + 256 * Z.shiftr n k'.
Proof.
  intros Hk ->. change 0xFF with (2 ^ 8 - 1). rewrite land_mask, !shiftr_div, Z.pow_add_r, <- Z.div_div by lia.
  change (2 ^ 8) with 256. dlia.
Qed.

Lemma land_byte x : byte_ok (Z.land x 0xFF).
Proof. change 0xFF with (2 ^ 8 - 1). rewrite land_mask by lia. by apply Z.mod_pos_bound. Qed.

Lemma low_nibble x : Z.land x 0xF = x mod 16.
Proof. change 0xF with (2 ^ 4 - 1). by rewrite land_mask by lia. Qed.

Lemma fe_get_b32_spec a : fe_normal a -> fe_get_b32 a = be_bytes 32 (fval a).
Proof.
  intros [H0 H1 H2 H3 H4 _]. unfold fe_get_b32.
  pose proof (telescope (n4 a) 0 8 ltac:(lia) ltac:(lia)). pose proof (telescope (n4 a) 8 16 ltac:(lia) ltac:(lia)). pose proof (telescope (n4 a) 16 24 ltac:(lia) ltac:(lia)).
  pose proof (telescope (n4 a) 24 32 ltac:(lia) ltac:(lia)). pose proof (telescope (n4 a) 32 40 ltac:(lia) ltac:(lia)). pose proof (telescope (n4 a) 40 48 ltac:(lia) ltac:(lia)).
  assert (forall n, 0 <= n < 2 ^ 52 -> n = n mod 16 + 16 * Z.shiftr n 4) as Hlow.
  { intros n Hn. rewrite shiftr_div by lia. change (2 ^ 4) with 16. dlia. }
  assert (forall n, 0 <= n < 2 ^ 52 -> 0 <= Z.shiftr n 48 < 16) as Hhigh.
  { intros n Hn. rewrite shiftr_div by lia. split; [apply Z.div_pos; lia|apply Z.div_lt_upper_bound; lia]. }
  assert (forall n, 0 <= n < 2 ^ 52 -> Z.shiftr n 52 = 0) as Hz.
  { intros n Hn. rewrite shiftr_div by lia. by apply Z.div_small. }
  assert (Z.shiftr (n4 a) 48 = 0) as Hz4 by (rewrite shiftr_div by lia; by apply Z.div_small).
  pose proof (telescope (n3 a) 4 12 ltac:(lia) ltac:(lia)). pose proof (telescope (n3 a) 12 20 ltac:(lia) ltac:(lia)). pose proof (telescope (n3 a) 20 28 ltac:(lia) ltac:(lia)).
  pose proof (telescope (n3 a) 28 36 ltac:(lia) ltac:(lia)). pose proof (telescope (n3 a) 36 44 ltac:(lia) ltac:(lia)). pose proof (telescope (n3 a) 44 52 ltac:(lia) ltac:(lia)).
  pose proof (telescope (n1 a) 4 12 ltac:(lia) ltac:(lia)). pose proof (telescope (n1 a) 12 20 ltac:(lia) ltac:(lia)). pose proof (telescope (n1 a) 20 28 ltac:(lia) ltac:(lia)).
  pose proof (telescope (n1 a) 28 36 ltac:(lia) ltac:(lia)). pose proof (telescope (n1 a) 36 44 ltac:(lia) ltac:(lia)). pose proof (telescope (n1 a) 44 52 ltac:(lia) ltac:(lia)).
  pose proof (telescope (n2 a) 0 8 ltac:(lia) ltac:(lia)). pose proof (telescope (n2 a) 8 16 ltac:(lia) ltac:(lia)). pose proof (telescope (n2 a) 16 24 ltac:(lia) ltac:(lia)).
  pose proof (telescope (n2 a) 24 32 ltac:(lia) ltac:(lia)). pose proof (telescope (n2 a) 32 40 ltac:(lia) ltac:(lia)). pose proof (telescope (n2 a) 40 48 ltac:(lia) ltac:(lia)).
  pose proof (telescope (n0 a) 0 8 ltac:(lia) ltac:(lia)). pose proof (telescope (n0 a) 8 16 ltac:(lia) ltac:(lia)). pose proof (telescope (n0 a) 16 24 ltac:(lia) ltac:(lia)).
  pose proof (telescope (n0 a) 24 32 ltac:(lia) ltac:(lia)). pose proof (telescope (n0 a) 32 40 ltac:(lia) ltac:(lia)). pose proof (telescope (n0 a) 40 48 ltac:(lia) ltac:(lia)).
  rewrite !Z.shiftr_0_r in *.
  pose proof (Hlow _ H3). pose proof (Hlow _ H1). pose proof (Hz _ H3). pose proof (Hz _ H1).
  pose proof (Hhigh _ H2). pose proof (Hhigh _ H0).
  rewrite !low_nibble, !(Z.mod_small (Z.shiftr _ 48)) by (by apply Hhigh).
  pose proof (Z.mod_pos_bound (n3 a) 16 ltac:(lia)). pose proof (Z.mod_pos_bound (n1 a) 16 ltac:(lia)).
  rewrite !(lor_high 4) by lia.
  match goal with |- ?l = _ => assert (be_val l = fval a) as Hv; [|assert (Forall byte_ok l) as Hok] end.
  - unfold be_val, reverse. cbn -[Z.mul Z.add Z.pow Z.land Z.shiftr Z.modulo]. unfold fval. lia.
  - repeat first [apply Forall_nil_2 | apply Forall_cons_2]; try apply land_byte; unfold byte_ok; lia.
  - rewrite <- Hv. exact (eq_sym (be_bytes_val _ Hok)).
Qed.

(** ** The packed form *)

Definition sto_val (s : fe_storage) : Z := s0 s + 2 ^ 64 * s1 s + 2 ^ 128 * s2 s + 2 ^ 192 * s3 s.

Record sto_ok (s : fe_storage) : Prop := {
  so_0 : 0 <= s0 s < 2 ^ 64; so_1 : 0 <= s1 s < 2 ^ 64; so_2 : 0 <= s2 s < 2 ^ 64; so_3 : 0 <= s3 s < 2 ^ 64;
}.

(** A limb cut at bit [k]. *)
Lemma cut k n : 0 <= k -> n = n mod 2 ^ k + 2 ^ k * (n / 2 ^ k) /\ 0 <= n mod 2 ^ k < 2 ^ k.
Proof. intros Hk. pose proof (Z.div_mod n (2 ^ k)). pose proof (Z.mod_pos_bound n (2 ^ k)). lia. Qed.

Lemma pack_high lo n k j : 0 < k < 64 -> j = 64 - k -> 0 <= lo < 2 ^ j ->
  Z.lor lo (u64 (Z.shiftl n j)) = lo + (n mod 2 ^ k) * 2 ^ j.
Proof. intros Hk -> Hlo. rewrite shl_word, Z.lor_comm, lor_add by lia. lia. Qed.

Ltac cut_at k n :=
  let lo := fresh "lo" in let hi := fresh "hi" in
  destruct (cut k n ltac:(done)) as [? ?]; set (lo := n mod 2 ^ k) in *; set (hi := n / 2 ^ k) in *; clearbody lo hi.

Lemma to_storage_spec a : fe_normal a ->
  sto_ok (fe_to_storage a) /\ sto_val (fe_to_storage a) = fval a.
Proof.
  destruct a as [a0 a1 a2 a3 a4]. intros [H0 H1 H2 H3 H4 _]. fe_limbs. unfold fe_to_storage. fe_limbs.
  rewrite !shiftr_div by lia. rewrite (pack_high a0 a1 12 52) by lia.
  cut_at 12 a1. rewrite (pack_high hi a2 24 40) by lia.
  cut_at 24 a2. rewrite (pack_high hi0 a3 36 28) by lia.
  cut_at 36 a3. rewrite (pack_high hi1 a4 48 16), (Z.mod_small a4) by lia.
  unfold sto_val, fval. split; [split|]; cbn [s0 s1 s2 s3 n0 n1 n2 n3 n4]; lia.
Qed.

(** [(n << (52 - k)) & M52] *)
Lemma shl_mask k j n : 0 < k < 52 -> j = 52 - k -> Z.land (u64 (Z.shiftl n j)) M52 = (n mod 2 ^ k) * 2 ^ j.
Proof.
  intros Hk ->. change M52 with (2 ^ 52 - 1). rewrite land_mask, shiftl_mul by lia. unfold u64.
  replace (2 ^ 64) with (2 ^ 52 * 2 ^ 12) by done. rewrite Z.rem_mul_r by lia.
  rewrite (Z.mul_comm (2 ^ 52)), Z.mod_add, Z.mod_mod by lia.
  replace (2 ^ 52) with (2 ^ k * 2 ^ (52 - k)) by (rewrite <- Z.pow_add_r by lia; f_equal; lia).
  apply Z.mul_mod_distr_r; lia.
Qed.

Lemma from_storage_spec s : sto_ok s ->
  fe_mag 1 (fe_from_storage s) /\ fval (fe_from_storage s) = sto_val s /\
  (sto_val s < fp -> fe_normal (fe_from_storage s)).
Proof.
  destruct s as [a0 a1 a2 a3]. intros []. cbn [s0 s1 s2 s3] in *. unfold fe_from_storage. cbn [s0 s1 s2 s3].
  rewrite (shl_mask 40 12), (shl_mask 28 24), (shl_mask 16 36) by lia. change M52 with (2 ^ 52 - 1).
  rewrite land_mask, !shiftr_div by lia.
  rewrite !(Z.lor_comm (_ / _)).
  cut_at 52 a0. cut_at 40 a1. cut_at 28 a2. cut_at 16 a3. rewrite !lor_add by lia.
  match goal with |- _ /\ fval ?r = _ /\ _ => assert (fval r = sto_val (mkFeS a0 a1 a2 a3)) as Hv end.
  { unfold sto_val, fval. cbn [s0 s1 s2 s3 n0 n1 n2 n3 n4]. lia. }
  split; [split; fe_limbs; fe_masks; lia|]. split; [done|]. intros Hlt. rewrite <- Hv in Hlt.
  split; [fe_limbs; lia..|done].
Qed.

(** ** The five-limb representation multiplies modulo p *)

#[export] Instance fe_mulmod : MulMod fe := {| mm_mul := fe_mul; mm_sqr := fe_sqr |}.

#[export, refine] Instance fe_laws : MulModLaws fe fp := {| mm_ok := fe_mag 8; mm_val := fval |}.
Proof.
  - done.
  - intros a b Ha Hb. destruct (fe_mul_spec a b) as [Hm Hv]; [by apply mag_mul_range..|].
    split; [by apply (fe_mag_weaken 1)|done].
  - intros a Ha. destruct (fe_sqr_spec a) as [Hm Hv]; [by apply mag_mul_range|].
    split; [by apply (fe_mag_weaken 1)|done].
Defined.

(** ** Properties *)

Lemma normal_inj a b : fe_normal a -> fe_normal b -> fval a = fval b -> a = b.
Proof.
  destruct a, b. intros [? ? ? ? ? _] [? ? ? ? ? _] Hv. unfold fval in Hv. fe_limbs. f_equal; lia.
Qed.

(** C39. Multiplication and squaring of operands of magnitude 8 (limbs of 56 bits)
    never overflow their 128-bit accumulators and are exact modulo p, with a
    result of magnitude 1; addition, negation and multiplication by a small
    integer are exact and have the magnitudes the comments give. *)
Theorem field_ring a b k : fe_mag 8 a -> fe_mag 8 b -> 0 <= k <= 32 ->
  (fe_mag 1 (fe_mul a b) /\ fval (fe_mul a b) mod fp = (fval a * fval b) mod fp) /\
  (fe_mag 1 (fe_sqr a) /\ fval (fe_sqr a) mod fp = (fval a * fval a) mod fp) /\
  (fe_mag 16 (fe_add a b) /\ fval (fe_add a b) = fval a + fval b) /\
  (fe_mag 9 (fe_negate a 8) /\ fval (fe_negate a 8) mod fp = (- fval a) mod fp) /\
  (fe_mag (k * 8) (fe_mul_int a k) /\ fval (fe_mul_int a k) = k * fval a).
Proof.
  intros Ha Hb Hk. split; [by apply fe_mul_spec; apply mag_mul_range|].
  split; [by apply fe_sqr_spec, mag_mul_range|]. split; [by apply (fe_add_spec 8 8)|].
  split; [by apply (fe_negate_spec 8)|]. apply mul_int_spec; [done|lia..].
Qed.

(** On every operand of magnitude at most 2047 normalisation gives the unique
    representation below p, the variable-time version the same limbs, the weak
    one the same residue with magnitude 1, and both zero tests decide whether
    the number is a multiple of p. *)
Theorem field_normalize a : fe_mag 2047 a ->
  (fe_normal (fe_normalize a) /\ fval (fe_normalize a) = fval a mod fp) /\
  fe_normalize_var a = fe_normalize a /\
  (fe_mag 1 (fe_normalize_weak a) /\ fval (fe_normalize_weak a) mod fp = fval a mod fp) /\
  fe_normalizes_to_zero a = (fval a mod fp =? 0) /\ fe_normalizes_to_zero_var a = (fval a mod fp =? 0).
Proof.
  intros Ha. rewrite normalizes_to_zero_var_eq, normalizes_to_zero_spec by done.
  split; [by apply normalize_spec|]. split; [by apply normalize_var_eq|].
  split; [by apply normalize_weak_spec|done].
Qed.

(** The magnitude 2048 that secp256k1_fe_verify still admits is one too many:
    the first pass of a normalisation overflows and the residue changes. *)
Theorem field_magnitude_limit :
  let a := mkFe (M52 * 4096) (M52 * 4096) (M52 * 4096) (M52 * 4096) (M48 * 4096) in
  fe_mag 2048 a /\ fval (fe_normalize a) <> fval a mod fp.
Proof. cbv zeta. split; [by split|by vm_compute]. Qed.

(** Thirty-two bytes are read as the number they encode and refused exactly
    when it is p or more; bytes and packed storage give the same element back. *)
Theorem field_bytes l a : length l = 32%nat -> Forall byte_ok l -> fe_normal a ->
  ((fe_set_b32 l).2 = (be_val l <? fp) /\ fval (fe_set_b32 l).1 = be_val l) /\
  ((fe_set_b32 l).2 = true -> fe_get_b32 (fe_set_b32 l).1 = l) /\
  fe_set_b32 (fe_get_b32 a) = (a, true) /\
  fe_from_storage (fe_to_storage a) = a.
Proof.
  intros Hl Hok Ha. pose proof (fe_set_b32_spec l Hl Hok) as H1.
  destruct (fe_set_b32 l) as [r o]. destruct H1 as (_ & Hv & Ho & Hn). cbn [fst snd].
  split; [done|]. split.
  { intros ->. rewrite fe_get_b32_spec, Hv, <- Hl by auto. by apply be_bytes_val. }
  split.
  - rewrite fe_get_b32_spec by done.
    pose proof (fe_set_b32_spec (be_bytes 32 (fval a)) (be_bytes_length _ _) (be_bytes_ok _ _)) as H2.
    destruct (fe_set_b32 (be_bytes 32 (fval a))) as [r' o']. destruct H2 as (_ & Hv2 & Ho2 & Hn2).
    pose proof (normal_val a Ha) as Hr. rewrite be_val_bytes, Z.mod_small in Hv2, Ho2 by (unfold fp in Hr; cbn; lia).
    rewrite (proj2 (Z.ltb_lt _ _)) in Ho2 by lia. subst o'. f_equal. apply normal_inj; auto.
  - destruct (to_storage_spec a Ha) as [Hs Hsv]. destruct (from_storage_spec _ Hs) as (_ & Hf & Hn2).
    apply normal_inj; [|done|congruence]. apply Hn2. rewrite Hsv. apply Ha.
Qed.

Lemma field_ring_witness :
  let a := mkFe (M52 * 16) (M52 * 16) (M52 * 16) (M52 * 16) (M48 * 16) in let b := mkFe 3 (2 ^ 52) 0 0 (2 ^ 49) in
  (fe_mag 1 (fe_mul a b) /\ fval (fe_mul a b) mod fp = (fval a * fval b) mod fp) /\
  (fe_mag 1 (fe_sqr a) /\ fval (fe_sqr a) mod fp = (fval a * fval a) mod fp) /\
  (fe_mag 16 (fe_add a b) /\ fval (fe_add a b) = fval a + fval b) /\
  (fe_mag 9 (fe_negate a 8) /\ fval (fe_negate a 8) mod fp = (- fval a) mod fp) /\
  (fe_mag (2 * 8) (fe_mul_int a 2) /\ fval (fe_mul_int a 2) = 2 * fval a).
Proof. intros a b. apply (field_ring a b 2); [by split|by split|lia]. Defined.

Lemma field_normalize_witness :
  let a := mkFe (M52 * 4094) (M52 * 4094) 0 (M52 * 4094) (M48 * 4094) in
  (fe_normal (fe_normalize a) /\ fval (fe_normalize a) = fval a mod fp) /\
  fe_normalize_var a = fe_normalize a /\
  (fe_mag 1 (fe_normalize_weak a) /\ fval (fe_normalize_weak a) mod fp = fval a mod fp) /\
  fe_normalizes_to_zero a = (fval a mod fp =? 0) /\ fe_normalizes_to_zero_var a = (fval a mod fp =? 0).
Proof. intros a. apply (field_normalize a). by split. Defined.

Lemma field_bytes_witness :
  let l := replicate 32 254 in let a := mkFe 0xFFFFEFFFFFC2E M52 M52 M52 M48 in
  ((fe_set_b32 l).2 = (be_val l <? fp) /\ fval (fe_set_b32 l).1 = be_val l) /\
  ((fe_set_b32 l).2 = true -> fe_get_b32 (fe_set_b32 l).1 = l) /\
  fe_set_b32 (fe_get_b32 a) = (a, true) /\
  fe_from_storage (fe_to_storage a) = a.
Proof. intros l a. apply (field_bytes l a); [done|by apply Forall_replicate|by split]. Defined.
