(* ===== verification/FieldImpl.v ===== *)
(** * Field elements: equality, square roots, inverses

    [secp256k1/src/field_impl.h].  The two addition chains are written over any
    representation that multiplies and squares; the rest is over the five-limb
    one.  [fe_inv_var] is the USE_FIELD_INV_BUILTIN branch and [fe_is_quad_var]
    the USE_NUM_NONE one, which do not call a bignum library. *)

From S2P Require Import Prelude Bytes Limbs Primality ModExp Field5x52.

Definition fe_equal (a b : fe) : bool := fe_normalizes_to_zero (fe_add (fe_negate a 1) b).
Definition fe_equal_var (a b : fe) : bool := fe_normalizes_to_zero_var (fe_add (fe_negate a 1) b).

Section Chains.
Context {A : Type} `{MulMod A}.

(** The blocks of ones shared by the two chains: x2, x3, x22 and x223. *)
Record blocks := mkBlocks { bl_2 : A; bl_3 : A; bl_22 : A; bl_223 : A }.

Definition fe_blocks (a : A) : blocks :=
  let x2 := mm_mul (mm_sqr a) a in
  let x3 := mm_mul (mm_sqr x2) a in
  let x6 := mm_mul (sqr_n 3 x3) x3 in
  let x9 := mm_mul (sqr_n 3 x6) x3 in
  let x11 := mm_mul (sqr_n 2 x9) x2 in
  let x22 := mm_mul (sqr_n 11 x11) x11 in
  let x44 := mm_mul (sqr_n 22 x22) x22 in
  let x88 := mm_mul (sqr_n 44 x44) x44 in
  let x176 := mm_mul (sqr_n 88 x88) x88 in
  let x220 := mm_mul (sqr_n 44 x176) x44 in
  let x223 := mm_mul (sqr_n 3 x220) x3 in
  mkBlocks x2 x3 x22 x223.

Definition sqrt_chain (a : A) : A :=
  let b := fe_blocks a in
  let t1 := mm_mul (sqr_n 23 (bl_223 b)) (bl_22 b) in
  let t1 := mm_mul (sqr_n 6 t1) (bl_2 b) in
  mm_sqr (mm_sqr t1).

Definition inv_chain (a : A) : A :=
  let b := fe_blocks a in
  let t1 := mm_mul (sqr_n 23 (bl_223 b)) (bl_22 b) in
  let t1 := mm_mul (sqr_n 5 t1) a in
  let t1 := mm_mul (sqr_n 3 t1) (bl_2 b) in
  mm_mul a (sqr_n 2 t1).
End Chains.

(** The root and whether squaring it gives the argument back. *)
Definition fe_sqrt (a : fe) : fe * bool :=
  let r := sqrt_chain a in (r, fe_equal (fe_sqr r) a).

Definition fe_inv (a : fe) : fe := inv_chain a.
Definition fe_inv_var (a : fe) : fe := fe_inv a.
Definition fe_is_quad_var (a : fe) : bool := (fe_sqrt a).2.

#[export] Instance fe_inhabited : Inhabited fe := populate fe_clear.

(** while (++i < len) r[i] = r[i - 1] * a[i]; [n] iterations from [i]. *)
Fixpoint inv_all_forward (n i : nat) (r a : list fe) : list fe :=
  match n with
  | O => r
  | S n => inv_all_forward n (S i) (<[i := fe_mul (r !!! pred i) (a !!! i)]> r) a
  end.

(** while (i > 0) { j = i--; r[j] = r[i] * u; u = u * a[j]; } r[0] = u *)
Fixpoint inv_all_backward (i : nat) (u : fe) (r a : list fe) : list fe :=
  match i with
  | O => <[0%nat := u]> r
  | S i' => inv_all_backward i' (fe_mul u (a !!! i)) (<[i := fe_mul (r !!! i') u]> r) a
  end.

(** [r] is the output array before the call. *)
Definition fe_inv_all_var (r a : list fe) : list fe :=
  let len := length a in
  if (len <? 1)%nat then r
  else
    let r := <[0%nat := a !!! 0%nat]> r in
    let r := inv_all_forward (pred len) 1 r a in
    let u := fe_inv_var (r !!! pred len) in
    inv_all_backward (pred len) u r a.

(** ** Equality *)

Lemma fe_equal_diff m a b : fe_mag 1 a -> fe_mag m b -> 0 <= m <= 2045 ->
  fe_equal a b = ((fval b - fval a) mod fp =? 0).
Proof.
  intros Ha Hb Hm. unfold fe_equal. destruct (fe_negate_spec 1 a Ha) as [Hn Hv]; [lia|].
  destruct (fe_add_spec 2 m _ b Hn Hb) as [Hs Hsv]; [lia|].
  rewrite normalizes_to_zero_spec by (by apply (fe_mag_weaken (2 + m)); [|lia]).
  rewrite Hsv, <- Zplus_mod_idemp_l, Hv, Zplus_mod_idemp_l. f_equal. f_equal. lia.
Qed.

Lemma sub_mod_zero a b : (b - a) mod fp = 0 <-> a mod fp = b mod fp.
Proof.
  split; intros Hz.
  - apply Z.mod_divide in Hz as [k Hk]; [|done]. apply (mod_fp_eq _ _ (- k)). lia.
  - by rewrite Zminus_mod, Hz, Z.sub_diag.
Qed.

Lemma fe_equal_spec m a b : fe_mag 1 a -> fe_mag m b -> 0 <= m <= 2045 ->
  fe_equal a b = (fval a mod fp =? fval b mod fp).
Proof.
  intros. rewrite (fe_equal_diff m) by done. apply eq_iff_eq_true. by rewrite !Z.eqb_eq, sub_mod_zero.
Qed.

Lemma fe_equal_var_eq a b : fe_equal_var a b = fe_equal a b.
Proof. apply normalizes_to_zero_var_eq. Qed.

(** ** The chains *)

Section ChainSpecs.
Context {A : Type} `{HL : MulModLaws A m}.

Lemma fe_blocks_spec x : mm_ok x -> let b := fe_blocks x in
  is_pow x (2 ^ 2 - 1) (bl_2 b) /\ is_pow x (2 ^ 3 - 1) (bl_3 b) /\ is_pow x (2 ^ 22 - 1) (bl_22 b) /\
  is_pow x (2 ^ 223 - 1) (bl_223 b).
Proof.
  intros Hx%is_pow_1. unfold fe_blocks. cbv zeta. cbn [bl_2 bl_3 bl_22 bl_223].
  chain_name (mm_mul (mm_sqr x) x) (2 ^ 2 - 1). chain_name (mm_mul (mm_sqr y) x) (2 ^ 3 - 1).
  chain_name (mm_mul (sqr_n 3 y0) y0) (2 ^ 6 - 1). chain_name (mm_mul (sqr_n 3 y1) y0) (2 ^ 9 - 1).
  chain_name (mm_mul (sqr_n 2 y2) y) (2 ^ 11 - 1). chain_name (mm_mul (sqr_n 11 y3) y3) (2 ^ 22 - 1).
  chain_name (mm_mul (sqr_n 22 y4) y4) (2 ^ 44 - 1). chain_name (mm_mul (sqr_n 44 y5) y5) (2 ^ 88 - 1).
  chain_name (mm_mul (sqr_n 88 y6) y6) (2 ^ 176 - 1). chain_name (mm_mul (sqr_n 44 y7) y5) (2 ^ 220 - 1).
  chain_name (mm_mul (sqr_n 3 y8) y0) (2 ^ 223 - 1). exact (conj Hy (conj Hy0 (conj Hy4 Hy9))).
Qed.

Lemma sqrt_chain_spec x : mm_ok x -> is_pow x ((fp + 1) / 4) (sqrt_chain x).
Proof.
  intros Hx. destruct (fe_blocks_spec x Hx) as (H2 & H3 & H22 & H223). unfold sqrt_chain.
  eapply is_pow_eq; [chain_pow|vm_compute; reflexivity].
Qed.

Lemma inv_chain_spec x : mm_ok x -> is_pow x (fp - 2) (inv_chain x).
Proof.
  intros Hx. destruct (fe_blocks_spec x Hx) as (H2 & H3 & H22 & H223). apply is_pow_1 in Hx. unfold inv_chain.
  eapply is_pow_eq; [chain_pow|vm_compute; reflexivity].
Qed.
End ChainSpecs.

(** ** Batch inversion *)

Lemma fe_mul_ok a b : fe_mag 8 a -> fe_mag 8 b ->
  fe_mag 8 (fe_mul a b) /\ fval (fe_mul a b) mod fp = (fval a * fval b) mod fp.
Proof.
  intros Ha Hb. destruct (fe_mul_spec a b) as [Hm Hv]; [by apply mag_mul_range..|].
  split; [by apply (fe_mag_weaken 1)|done].
Qed.

(** [r] holds prefix products of [a] up to position [n]. *)
Definition prefixes (n : nat) (r a : list fe) : Prop := forall i, (i < n)%nat ->
  fe_mag 8 (r !!! i) /\
  fval (r !!! i) mod fp = match i with O => fval (a !!! O) mod fp
                          | S k => (fval (r !!! k) * fval (a !!! i)) mod fp end.

Lemma forward_spec k i r a : (1 <= i)%nat -> (i + k = length a)%nat -> length r = length a ->
  Forall (fe_mag 8) a -> prefixes i r a ->
  length (inv_all_forward k i r a) = length a /\ prefixes (i + k) (inv_all_forward k i r a) a.
Proof.
  revert i r. induction k as [|k IH]; intros i r Hi Hk Hr Ha Hp; cbn [inv_all_forward].
  { by rewrite Nat.add_0_r. }
  replace (i + S k)%nat with (S i + k)%nat by lia. apply IH; [lia|lia|by rewrite length_insert|done|].
  assert (fe_mag 8 (a !!! i)) as Hai by (apply (Forall_lookup_total_1 _ _ _ Ha); lia).
  intros j Hj. destruct (decide (j = i)) as [->|].
  - rewrite list_lookup_total_insert_eq by lia. destruct i as [|i]; [lia|]. cbn [pred].
    rewrite list_lookup_total_insert_ne by lia. destruct (Hp i ltac:(lia)) as [Hm _].
    destruct (fe_mul_ok (r !!! i) (a !!! S i) Hm Hai) as [Hok Hv]. split; [exact Hok|exact Hv].
  - destruct j as [|j]; rewrite ?list_lookup_total_insert_ne by lia; first [apply (Hp 0%nat) | apply (Hp (S j))]; lia.
Qed.

(** With [u] the inverse of the [i]-th prefix, positions up to [i] become the
    inverses of the elements and the others stay. *)
Lemma backward_spec i u r a : (i < length a)%nat -> length r = length a -> Forall (fe_mag 8) a ->
  prefixes (S i) r a -> fe_mag 8 u -> (fval u * fval (r !!! i)) mod fp = 1 ->
  let r' := inv_all_backward i u r a in
  length r' = length a /\
  (forall j, (j <= i)%nat -> fe_mag 8 (r' !!! j) /\ (fval (a !!! j) * fval (r' !!! j)) mod fp = 1) /\
  (forall j, (i < j < length a)%nat -> r' !!! j = r !!! j).
Proof.
  revert u r. induction i as [|i IH]; intros u r Hi Hr Ha Hp Hu Hinv; cbn [inv_all_backward].
  - rewrite length_insert. split; [done|]. split.
    + intros [|j] Hj; [|lia]. rewrite list_lookup_total_insert_eq by lia. split; [done|].
      destruct (Hp 0%nat ltac:(lia)) as [_ H0].
      by rewrite Z.mul_comm, <- Z.mul_mod_idemp_r, <- H0, Z.mul_mod_idemp_r by done.
    + intros j Hj. by rewrite list_lookup_total_insert_ne by lia.
  - destruct (Hp i ltac:(lia)) as [Hmi _]. destruct (Hp (S i) ltac:(lia)) as [_ Hvs]. cbv zeta in *.
    assert (fe_mag 8 (a !!! S i)) as Has by (apply (Forall_lookup_total_1 _ _ _ Ha); lia).
    destruct (fe_mul_ok (r !!! i) u Hmi Hu) as [Hok1 Hv1].
    destruct (fe_mul_ok u (a !!! S i) Hu Has) as [Hok2 Hv2].
    rewrite <- Z.mul_mod_idemp_r, Hvs, Z.mul_mod_idemp_r in Hinv by done.
    edestruct (IH (fe_mul u (a !!! S i)) (<[S i := fe_mul (r !!! i) u]> r)) as (Hl & Hlow & Hhigh);
      [lia|by rewrite length_insert|done| |done| |].
    + intros j Hj. destruct j as [|j]; rewrite ?list_lookup_total_insert_ne by lia; first [apply (Hp 0%nat) | apply (Hp (S j))]; lia.
    + rewrite list_lookup_total_insert_ne, <- Z.mul_mod_idemp_l, Hv2, Z.mul_mod_idemp_l by (done || lia).
      rewrite <- Hinv. f_equal. ring.
    + split; [done|]. split.
      * intros j Hj. destruct (decide (j = S i)) as [->|]; [|apply Hlow; lia].
        rewrite Hhigh, list_lookup_total_insert_eq by lia. split; [done|].
        rewrite <- Z.mul_mod_idemp_r, Hv1, Z.mul_mod_idemp_r by done. rewrite <- Hinv. f_equal. ring.
      * intros j Hj. rewrite Hhigh, list_lookup_total_insert_ne by lia. done.
Qed.

Lemma fe_is_pow e x a : is_pow (HL := fe_laws) x e a -> fe_mag 8 a /\ fval a mod fp = fval x ^ e mod fp.
Proof. intros (_ & Hok & Hv). by split. Qed.

Lemma fe_inv_spec a : fe_mag 8 a -> fe_mag 8 (fe_inv a) /\ fval (fe_inv a) mod fp = fval a ^ (fp - 2) mod fp.
Proof. intros Ha. exact (fe_is_pow _ _ _ (inv_chain_spec (HL := fe_laws) a Ha)). Qed.

Lemma fe_root_spec a : fe_mag 8 a ->
  fe_mag 8 (sqrt_chain a) /\ fval (sqrt_chain a) mod fp = fval a ^ ((fp + 1) / 4) mod fp.
Proof. intros Ha. exact (fe_is_pow _ _ _ (sqrt_chain_spec (HL := fe_laws) a Ha)). Qed.

Lemma prefix_nonzero n r a : prefixes n r a -> (forall i, (i < n)%nat -> fval (a !!! i) mod fp <> 0) ->
  forall i, (i < n)%nat -> fval (r !!! i) mod fp <> 0.
Proof.
  intros Hp Ha i. induction i as [|i IH]; intros Hi; destruct (Hp _ Hi) as [_ ->]; [by apply Ha|].
  intros H0%prime_cancel; [|apply prime_fp]. destruct H0 as [H0|H0]; [by apply IH in H0; [|lia]|by apply Ha in H0].
Qed.

(** ** Properties *)

(** fe_inv computes the inverse modulo p, which is prime (zero for zero). *)
Theorem fe_inv_correct a : fe_mag 8 a ->
  fe_mag 8 (fe_inv a) /\ (fval a * fval (fe_inv a)) mod fp = (if fval a mod fp =? 0 then 0 else 1).
Proof.
  intros Ha. destruct (fe_inv_spec a Ha) as [Hm Hv]. split; [done|].
  apply pow_inverse; [apply prime_fp|done].
Qed.

(** fe_sqrt answers yes exactly on the squares modulo p, and then its result
    is a root; fe_is_quad_var is that answer. *)
Theorem fe_sqrt_correct a : fe_mag 8 a ->
  ((fe_sqrt a).2 = true <-> exists s, (s * s) mod fp = fval a mod fp) /\
  ((fe_sqrt a).2 = true -> (fval (fe_sqrt a).1 * fval (fe_sqrt a).1) mod fp = fval a mod fp) /\
  fe_is_quad_var a = (fe_sqrt a).2.
Proof.
  intros Ha. destruct (fe_root_spec a Ha) as [Hok Hv]. unfold fe_is_quad_var, fe_sqrt. cbv zeta. cbn [fst snd].
  set (r := sqrt_chain a) in *. clearbody r. destruct (fe_sqr_spec r (mag_mul_range _ Hok)) as [Hm Hs].
  rewrite (fe_equal_spec 8) by (exact Ha || exact Hm || lia). rewrite Z.eqb_eq, Hs. split; [|split; [exact id|reflexivity]].
  split.
  - intros Heq. by exists (fval r).
  - intros Hex. by apply (pow_root fp (fval a)); [apply prime_fp|..].
Qed.

(** fe_inv_all_var inverts every element of an array of nonzero elements with
    one inversion. *)
Theorem inv_all_correct r a : length r = length a -> Forall (fe_mag 8) a ->
  Forall (fun x => fval x mod fp <> 0) a ->
  let r' := fe_inv_all_var r a in
  length r' = length a /\
  forall i, (i < length a)%nat -> fe_mag 8 (r' !!! i) /\ (fval (a !!! i) * fval (r' !!! i)) mod fp = 1.
Proof.
  intros Hr Ha Hn. cbv zeta. unfold fe_inv_all_var. destruct (Nat.ltb_spec (length a) 1) as [|Hl].
  { split; [done|]. intros i Hi. lia. }
  set (r0 := <[0%nat := a !!! 0%nat]> r). assert (length r0 = length a) as Hr0 by (subst r0; by rewrite length_insert).
  assert (forall i, (i < length a)%nat -> fe_mag 8 (a !!! i)) as Ham by (intros i Hi; by apply (Forall_lookup_total_1 _ _ _ Ha)).
  assert (prefixes 1 r0 a) as Hp0.
  { intros [|i] Hi; [|lia]. subst r0. rewrite list_lookup_total_insert_eq by lia. split; [by apply Ham|done]. }
  destruct (forward_spec (pred (length a)) 1 r0 a) as [Hl1 Hp1]; [lia|lia|done..|].
  set (r1 := inv_all_forward (pred (length a)) 1 r0 a) in *.
  replace (1 + pred (length a))%nat with (S (pred (length a))) in Hp1 by lia.
  destruct (Hp1 (pred (length a)) ltac:(lia)) as [Hm _].
  destruct (fe_inv_correct (r1 !!! pred (length a)) Hm) as [Hum Hinv].
  rewrite (proj2 (Z.eqb_neq _ _)), Z.mul_comm in Hinv.
  2:{ apply (prefix_nonzero (S (pred (length a))) r1 a Hp1); [|lia].
      intros i Hi. apply (Forall_lookup_total_1 _ _ _ Hn). lia. }
  unfold fe_inv_var. destruct (backward_spec (pred (length a)) (fe_inv (r1 !!! pred (length a))) r1 a)
    as (Hlen & Hlow & _); [lia|done..|]. split; [done|]. intros i Hi. apply Hlow. lia.
Qed.

Definition sample_fe : fe := mkFe (M52 * 9) 7 0 5 (2 ^ 50).
Lemma sample_fe_mag : fe_mag 8 sample_fe.
Proof. by split. Qed.

Lemma fe_inv_correct_witness :
  fe_mag 8 (fe_inv sample_fe) /\
  (fval sample_fe * fval (fe_inv sample_fe)) mod fp = (if fval sample_fe mod fp =? 0 then 0 else 1).
Proof. apply fe_inv_correct. exact sample_fe_mag. Defined.

Lemma fe_sqrt_correct_witness :
  ((fe_sqrt sample_fe).2 = true <-> exists s, (s * s) mod fp = fval sample_fe mod fp) /\
  ((fe_sqrt sample_fe).2 = true ->
     (fval (fe_sqrt sample_fe).1 * fval (fe_sqrt sample_fe).1) mod fp = fval sample_fe mod fp) /\
  fe_is_quad_var sample_fe = (fe_sqrt sample_fe).2.
Proof. apply fe_sqrt_correct. exact sample_fe_mag. Defined.

Lemma inv_all_correct_witness :
  let a := [sample_fe; fe_set_int 5; fe_set_int 1] in
  let r' := fe_inv_all_var (replicate 3 fe_clear) a in
  length r' = length a /\
  forall i, (i < length a)%nat -> fe_mag 8 (r' !!! i) /\ (fval (a !!! i) * fval (r' !!! i)) mod fp = 1.
Proof.
  intros a. apply (inv_all_correct (replicate 3 fe_clear) a); [done| |].
  - repeat constructor; by vm_compute.
  - repeat constructor; by vm_compute.
Defined.
