(* ===== verification/Group.v ===== *)
(** * Group elements

    [secp256k1/src/group.h] and [group_impl.h] (non-exhaustive build): affine
    and Jacobian elements of the curve and their operations, in the five-limb
    field.  A C function that writes through [r] is a function of its inputs
    and, where some path leaves part of [*r] as it was, of the old [r]; a
    pointer that may be NULL ([rzr]) gives a second result, [None] when the
    path does not write it. *)

From S2P Require Import Prelude Bytes Limbs Primality ModExp Field5x52 FieldImpl.

Record ge := mkGe { ge_x : fe; ge_y : fe; ge_inf : bool }.
Record gej := mkGej { gej_x : fe; gej_y : fe; gej_z : fe; gej_inf : bool }.
Record ge_storage := mkGeS { ges_x : fe_storage; ges_y : fe_storage }.

Definition ge_const (a b c d e f g h i j k l m n o p : Z) : ge :=
  mkGe (fe_const a b c d e f g h) (fe_const i j k l m n o p) false.

Definition ge_const_g : ge := ge_const
  0x79BE667E 0xF9DCBBAC 0x55A06295 0xCE870B07 0x029BFCDB 0x2DCE28D9 0x59F2815B 0x16F81798
  0x483ADA77 0x26A3C465 0x5DA4FBFC 0x0E1108A8 0xFD17B448 0xA6855419 0x9C47D08F 0xFB10D4B8.

Definition CURVE_B : Z := 7.

Definition ge_set_gej_zinv (a : gej) (zi : fe) : ge :=
  let zi2 := fe_sqr zi in
  let zi3 := fe_mul zi2 zi in
  mkGe (fe_mul (gej_x a) zi2) (fe_mul (gej_y a) zi3) (gej_inf a).

Definition ge_set_xy (x y : fe) : ge := mkGe x y false.
Definition ge_is_infinity (a : ge) : bool := ge_inf a.

Definition ge_neg (a : ge) : ge := mkGe (ge_x a) (fe_negate (fe_normalize_weak (ge_y a)) 1) (ge_inf a).

(** The input is rescaled to z = 1 in place: [r] and the new [a]. *)
Definition ge_set_gej (a : gej) : ge * gej :=
  let z := fe_inv (gej_z a) in
  let z2 := fe_sqr z in
  let z3 := fe_mul z z2 in
  let x := fe_mul (gej_x a) z2 in
  let y := fe_mul (gej_y a) z3 in
  (mkGe x y (gej_inf a), mkGej x y (fe_set_int 1) (gej_inf a)).

Definition ge_set_gej_var (r : ge) (a : gej) : ge * gej :=
  if gej_inf a then (mkGe (ge_x r) (ge_y r) (gej_inf a), a)
  else
    let z := fe_inv_var (gej_z a) in
    let z2 := fe_sqr z in
    let z3 := fe_mul z z2 in
    let x := fe_mul (gej_x a) z2 in
    let y := fe_mul (gej_y a) z3 in
    (mkGe x y (gej_inf a), mkGej x y (fe_set_int 1) (gej_inf a)).

(** The second loop: finite elements take the next inverse. *)
Fixpoint set_all_loop (r : list ge) (a : list gej) (azi : list fe) : list ge :=
  match r, a with
  | ri :: r, ai :: a =>
    if gej_inf ai then mkGe (ge_x ri) (ge_y ri) true :: set_all_loop r a azi
    else
      match azi with
      | zi :: azi => ge_set_gej_zinv ai zi :: set_all_loop r a azi
      | [] => ri :: set_all_loop r a azi
      end
  | _, _ => r
  end.

(** [checked_malloc] is taken to succeed (it calls the error callback
    otherwise). *)
Definition ge_set_all_gej_var (r : list ge) (a : list gej) : list ge :=
  let az := gej_z <$> filter (fun g => gej_inf g = false) a in
  let azi := fe_inv_all_var (replicate (length az) fe_clear) az in
  set_all_loop r a azi.

#[export] Instance gej_inhabited : Inhabited gej := populate (mkGej fe_clear fe_clear fe_clear false).
#[export] Instance ge_inhabited : Inhabited ge := populate (mkGe fe_clear fe_clear false).

(** while (i > 0) { zi *= zr[i]; i--; r[i] = a[i] with zi } *)
Fixpoint set_table_loop (i : nat) (zi : fe) (r : list ge) (a : list gej) (zr : list fe) : list ge :=
  match i with
  | O => r
  | S i' =>
    let zi := fe_mul zi (zr !!! i) in
    set_table_loop i' zi (<[i' := ge_set_gej_zinv (a !!! i') zi]> r) a zr
  end.

Definition ge_set_table_gej_var (r : list ge) (a : list gej) (zr : list fe) : list ge :=
  match length a with
  | O => r
  | S i =>
    let zi := fe_inv (gej_z (a !!! i)) in
    set_table_loop i zi (<[i := ge_set_gej_zinv (a !!! i) zi]> r) a zr
  end.

(** while (i > 0) { if (i != len - 1) zs *= zr[i]; i--; r[i] = a[i] with zs } *)
Fixpoint globalz_loop (i len : nat) (zs : fe) (r : list ge) (a : list gej) (zr : list fe) : list ge :=
  match i with
  | O => r
  | S i' =>
    let zs := if decide (i = pred len) then zs else fe_mul zs (zr !!! i) in
    globalz_loop i' len zs (<[i' := ge_set_gej_zinv (a !!! i') zs]> r) a zr
  end.

Definition ge_globalz_set_table_gej (r : list ge) (globalz : fe) (a : list gej) (zr : list fe) : list ge * fe :=
  match length a with
  | O => (r, globalz)
  | S i =>
    let r := <[i := mkGe (gej_x (a !!! i)) (gej_y (a !!! i)) false]> r in
    (globalz_loop i (S i) (zr !!! i) r a zr, gej_z (a !!! i))
  end.

Definition gej_set_infinity : gej := mkGej fe_clear fe_clear fe_clear true.
Definition ge_set_infinity : ge := mkGe fe_clear fe_clear true.
Definition gej_clear : gej := mkGej fe_clear fe_clear fe_clear false.
Definition ge_clear : ge := mkGe fe_clear fe_clear false.

Definition ge_set_xquad (x : fe) : ge * bool :=
  let x2 := fe_sqr x in
  let x3 := fe_mul x x2 in
  let c := fe_add (fe_set_int CURVE_B) x3 in
  let '(y, ok) := fe_sqrt c in
  (mkGe x y false, ok).

Definition ge_set_xo_var (x : fe) (odd : bool) : ge * bool :=
  let '(r, ok) := ge_set_xquad x in
  if negb ok then (r, false)
  else
    let y := fe_normalize_var (ge_y r) in
    let y := if negb (Bool.eqb (fe_is_odd y) odd) then fe_negate y 1 else y in
    (mkGe (ge_x r) y (ge_inf r), true).

Definition gej_set_ge (a : ge) : gej := mkGej (ge_x a) (ge_y a) (fe_set_int 1) (ge_inf a).

Definition gej_eq_x_var (x : fe) (a : gej) : bool :=
  let r := fe_mul (fe_sqr (gej_z a)) x in
  let r2 := fe_normalize_weak (gej_x a) in
  fe_equal_var r r2.

Definition gej_neg (a : gej) : gej :=
  mkGej (gej_x a) (fe_negate (fe_normalize_weak (gej_y a)) 1) (gej_z a) (gej_inf a).

Definition gej_is_infinity (a : gej) : bool := gej_inf a.

Definition gej_is_valid_var (a : gej) : bool :=
  if gej_inf a then false
  else
    let y2 := fe_sqr (gej_y a) in
    let x3 := fe_mul (fe_sqr (gej_x a)) (gej_x a) in
    let z2 := fe_sqr (gej_z a) in
    let z6 := fe_mul (fe_sqr z2) z2 in
    let z6 := fe_mul_int z6 CURVE_B in
    let x3 := fe_normalize_weak (fe_add x3 z6) in
    fe_equal_var y2 x3.

Definition ge_is_valid_var (a : ge) : bool :=
  if ge_inf a then false
  else
    let y2 := fe_sqr (ge_y a) in
    let x3 := fe_mul (fe_sqr (ge_x a)) (ge_x a) in
    let x3 := fe_normalize_weak (fe_add x3 (fe_set_int CURVE_B)) in
    fe_equal_var y2 x3.

(** The result and the value stored in [*rzr]. *)
Definition gej_double_var (r a : gej) : gej * fe :=
  if gej_inf a then (mkGej (gej_x r) (gej_y r) (gej_z r) (gej_inf a), fe_set_int 1)
  else
    let rzr := fe_mul_int (fe_normalize_weak (gej_y a)) 2 in
    let rz := fe_mul_int (fe_mul (gej_z a) (gej_y a)) 2 in
    let t1 := fe_mul_int (fe_sqr (gej_x a)) 3 in
    let t2 := fe_sqr t1 in
    let t3 := fe_mul_int (fe_sqr (gej_y a)) 2 in
    let t4 := fe_mul_int (fe_sqr t3) 2 in
    let t3 := fe_mul t3 (gej_x a) in
    let rx := fe_mul_int t3 4 in
    let rx := fe_negate rx 4 in
    let rx := fe_add rx t2 in
    let t2 := fe_negate t2 1 in
    let t3 := fe_mul_int t3 6 in
    let t3 := fe_add t3 t2 in
    let ry := fe_mul t1 t3 in
    let t2 := fe_negate t4 2 in
    let ry := fe_add ry t2 in
    (mkGej rx ry rz false, rzr).

Definition gej_double_nonzero (r a : gej) : gej * fe := gej_double_var r a.

(** The common end of the variable-time additions: x and y of the sum from
    u1, s1, h and i. *)
Definition add_finish (u1 s1 h i : fe) : fe * fe :=
  let i2 := fe_sqr i in
  let h2 := fe_sqr h in
  let h3 := fe_mul h h2 in
  let t := fe_mul u1 h2 in
  let rx := fe_add (fe_negate (fe_add (fe_mul_int t 2) h3) 3) i2 in
  let ry := fe_mul (fe_add (fe_negate rx 5) t) i in
  let h3 := fe_negate (fe_mul h3 s1) 1 in
  (rx, fe_add ry h3).

Definition gej_add_var (r a b : gej) : gej * option fe :=
  if gej_inf a then (b, None)
  else if gej_inf b then (a, Some (fe_set_int 1))
  else
    let z22 := fe_sqr (gej_z b) in
    let z12 := fe_sqr (gej_z a) in
    let u1 := fe_mul (gej_x a) z22 in
    let u2 := fe_mul (gej_x b) z12 in
    let s1 := fe_mul (fe_mul (gej_y a) z22) (gej_z b) in
    let s2 := fe_mul (fe_mul (gej_y b) z12) (gej_z a) in
    let h := fe_add (fe_negate u1 1) u2 in
    let i := fe_add (fe_negate s1 1) s2 in
    if fe_normalizes_to_zero_var h then
      if fe_normalizes_to_zero_var i then
        let '(d, z) := gej_double_var (mkGej (gej_x r) (gej_y r) (gej_z r) false) a in (d, Some z)
      else (mkGej (gej_x r) (gej_y r) (gej_z r) true, Some (fe_set_int 0))
    else
      let hz := fe_mul h (gej_z b) in
      let rz := fe_mul (gej_z a) hz in
      let '(rx, ry) := add_finish u1 s1 h i in
      (mkGej rx ry rz false, Some hz).

Definition gej_add_ge_var (r a : gej) (b : ge) : gej * option fe :=
  if gej_inf a then (gej_set_ge b, None)
  else if ge_inf b then (a, Some (fe_set_int 1))
  else
    let z12 := fe_sqr (gej_z a) in
    let u1 := fe_normalize_weak (gej_x a) in
    let u2 := fe_mul (ge_x b) z12 in
    let s1 := fe_normalize_weak (gej_y a) in
    let s2 := fe_mul (fe_mul (ge_y b) z12) (gej_z a) in
    let h := fe_add (fe_negate u1 1) u2 in
    let i := fe_add (fe_negate s1 1) s2 in
    if fe_normalizes_to_zero_var h then
      if fe_normalizes_to_zero_var i then
        let '(d, z) := gej_double_var (mkGej (gej_x r) (gej_y r) (gej_z r) false) a in (d, Some z)
      else (mkGej (gej_x r) (gej_y r) (gej_z r) true, Some (fe_set_int 0))
    else
      let rz := fe_mul (gej_z a) h in
      let '(rx, ry) := add_finish u1 s1 h i in
      (mkGej rx ry rz false, Some h).

(** [b] has the z coordinate 1 / bzinv. *)
Definition gej_add_zinv_var (r a : gej) (b : ge) (bzinv : fe) : gej :=
  if ge_inf b then a
  else if gej_inf a then
    let bzinv2 := fe_sqr bzinv in
    let bzinv3 := fe_mul bzinv2 bzinv in
    mkGej (fe_mul (ge_x b) bzinv2) (fe_mul (ge_y b) bzinv3) (fe_set_int 1) (ge_inf b)
  else
    let az := fe_mul (gej_z a) bzinv in
    let z12 := fe_sqr az in
    let u1 := fe_normalize_weak (gej_x a) in
    let u2 := fe_mul (ge_x b) z12 in
    let s1 := fe_normalize_weak (gej_y a) in
    let s2 := fe_mul (fe_mul (ge_y b) z12) az in
    let h := fe_add (fe_negate u1 1) u2 in
    let i := fe_add (fe_negate s1 1) s2 in
    if fe_normalizes_to_zero_var h then
      if fe_normalizes_to_zero_var i then (gej_double_var (mkGej (gej_x r) (gej_y r) (gej_z r) false) a).1
      else mkGej (gej_x r) (gej_y r) (gej_z r) true
    else
      let rz := fe_mul (gej_z a) h in
      let '(rx, ry) := add_finish u1 s1 h i in
      mkGej rx ry rz false.

(** The unified, constant-time addition; flags as ints. *)
Definition gej_add_ge (a : gej) (b : ge) : gej :=
  let fe_1 := fe_const 0 0 0 0 0 0 0 1 in
  let a_inf := Z.b2z (gej_inf a) in
  let zz := fe_sqr (gej_z a) in
  let u1 := fe_normalize_weak (gej_x a) in
  let u2 := fe_mul (ge_x b) zz in
  let s1 := fe_normalize_weak (gej_y a) in
  let s2 := fe_mul (fe_mul (ge_y b) zz) (gej_z a) in
  let t := fe_add u1 u2 in
  let m := fe_add s1 s2 in
  let rr := fe_sqr t in
  let m_alt := fe_negate u2 1 in
  let tt := fe_mul u1 m_alt in
  let rr := fe_add rr tt in
  let degenerate := Z.b2z (fe_normalizes_to_zero m && fe_normalizes_to_zero rr) in
  let rr_alt := fe_mul_int s1 2 in
  let m_alt := fe_add m_alt u1 in
  let rr_alt := fe_cmov rr_alt rr (1 - degenerate) in
  let m_alt := fe_cmov m_alt m (1 - degenerate) in
  let n := fe_sqr m_alt in
  let q := fe_mul n t in
  let n := fe_sqr n in
  let n := fe_cmov n m degenerate in
  let t := fe_sqr rr_alt in
  let rz := fe_mul (gej_z a) m_alt in
  let infinity := Z.b2z (fe_normalizes_to_zero rz) * (1 - a_inf) in
  let rz := fe_mul_int rz 2 in
  let q := fe_negate q 1 in
  let t := fe_normalize_weak (fe_add t q) in
  let rx := t in
  let t := fe_mul_int t 2 in
  let t := fe_add t q in
  let t := fe_mul t rr_alt in
  let t := fe_add t n in
  let ry := fe_normalize_weak (fe_negate t 3) in
  let rx := fe_mul_int rx 4 in
  let ry := fe_mul_int ry 4 in
  mkGej (fe_cmov rx (ge_x b) a_inf) (fe_cmov ry (ge_y b) a_inf) (fe_cmov rz fe_1 a_inf)
    (negb (infinity =? 0)).

Definition gej_rescale (r : gej) (s : fe) : gej :=
  let zz := fe_sqr s in
  mkGej (fe_mul (gej_x r) zz) (fe_mul (fe_mul (gej_y r) zz) s) (fe_mul (gej_z r) s) (gej_inf r).

Definition ge_to_storage (a : ge) : ge_storage :=
  mkGeS (fe_to_storage (fe_normalize (ge_x a))) (fe_to_storage (fe_normalize (ge_y a))).

Definition ge_from_storage (a : ge_storage) : ge :=
  mkGe (fe_from_storage (ges_x a)) (fe_from_storage (ges_y a)) false.

Definition ge_storage_cmov (r a : ge_storage) (flag : Z) : ge_storage :=
  mkGeS (fe_storage_cmov (ges_x r) (ges_x a) flag) (fe_storage_cmov (ges_y r) (ges_y a) flag).

(** USE_ENDOMORPHISM *)
Definition ge_mul_lambda (a : ge) : ge :=
  let beta := fe_const 0x7ae96a2b 0x657c0710 0x6e64479e 0xac3434e9 0x9cf04975 0x12f58995 0xc1396c28 0x719501ee in
  mkGe (fe_mul (ge_x a) beta) (ge_y a) (ge_inf a).

Definition gej_has_quad_y_var (a : gej) : bool :=
  if gej_inf a then false else fe_is_quad_var (fe_mul (gej_y a) (gej_z a)).
