(* ===== verification/GroupLaw.v ===== *)
(** * The group code computes the group law

    Every operation of [Group] on Jacobian and affine elements is related to
    the affine law of [Curve]: magnitudes of the coordinates stay within what
    the field code accepts, and the result stands for the sum. *)

From Stdlib Require Import Zmod Ring Field.
From S2P Require Import Prelude Bytes Limbs Primality Curve ModExp Field5x52 FieldImpl Group.

(** ** Field elements as elements of Zmod p *)

Definition F (a : fe) : fld := Zmod.of_Z fp (fval a).

(** [a] has magnitude [m] and stands for [x]. *)
Definition rep (m : Z) (a : fe) (x : fld) : Prop := fe_mag m a /\ F a = x.

Lemma F_eq a b : fval a mod fp = fval b mod fp -> F a = F b.
Proof. intros H. unfold F. by apply Zmod.of_Z_inj. Qed.

Lemma F_zero a : (fval a mod fp =? 0) = true <-> F a = 0%F.
Proof.
  rewrite Z.eqb_eq. unfold F. change (@Zmod.zero fp) with (Zmod.of_Z fp 0). by rewrite Zmod.of_Z_inj.
Qed.

Lemma rep_weaken m m' a x : rep m a x -> m <= m' -> rep m' a x.
Proof. intros [Hm Hx] Hle. split; [by apply (fe_mag_weaken m)|done]. Qed.

Lemma rep_mul m k a b x y : rep m a x -> rep k b y -> m <= 8 -> k <= 8 -> rep 1 (fe_mul a b) (x * y)%F.
Proof.
  intros [Ha <-] [Hb <-] Hm Hk.
  destruct (fe_mul_spec a b) as [Hr Hv]; [by apply mag_mul_range, (fe_mag_weaken m)|by apply mag_mul_range, (fe_mag_weaken k)|].
  split; [done|]. unfold F. rewrite <- Zmod.of_Z_mul. by apply Zmod.of_Z_inj.
Qed.

Lemma rep_sqr m a x : rep m a x -> m <= 8 -> rep 1 (fe_sqr a) (x * x)%F.
Proof.
  intros [Ha <-] Hm. destruct (fe_sqr_spec a) as [Hr Hv]; [by apply mag_mul_range, (fe_mag_weaken m)|].
  split; [done|]. unfold F. rewrite <- Zmod.of_Z_mul. by apply Zmod.of_Z_inj.
Qed.

Lemma rep_add m k a b x y : rep m a x -> rep k b y -> m + k <= 2048 -> rep (m + k) (fe_add a b) (x + y)%F.
Proof.
  intros [Ha <-] [Hb <-] Hm. destruct (fe_add_spec m k a b Ha Hb Hm) as [Hr Hv].
  split; [done|]. unfold F. by rewrite Hv, Zmod.of_Z_add.
Qed.

Lemma rep_neg m k a x : rep m a x -> m <= k -> 0 <= k < 2047 -> rep (k + 1) (fe_negate a k) (- x)%F.
Proof.
  intros [Ha <-] Hm Hk. destruct (fe_negate_spec k a) as [Hr Hv]; [by apply (fe_mag_weaken m)|done|].
  split; [done|]. unfold F. rewrite <- Zmod.of_Z_opp. by apply Zmod.of_Z_inj.
Qed.

Lemma rep_mul_int m k a x : rep m a x -> 0 <= k -> 0 <= m -> k * m <= 2048 ->
  rep (k * m) (fe_mul_int a k) (Zmod.of_Z fp k * x)%F.
Proof.
  intros [Ha <-] Hk Hm0 Hm. destruct (mul_int_spec m a k Ha Hk Hm0 Hm) as [Hr Hv].
  split; [done|]. unfold F. by rewrite Hv, Zmod.of_Z_mul.
Qed.

Lemma rep_weak m a x : rep m a x -> m <= 2047 -> rep 1 (fe_normalize_weak a) x.
Proof.
  intros [Ha <-] Hm. destruct (normalize_weak_spec a) as [Hr Hv]; [by apply (fe_mag_weaken m)|].
  split; [done|]. by apply F_eq.
Qed.

Lemma rep_normalize m a x : rep m a x -> m <= 2047 ->
  rep 1 (fe_normalize a) x /\ fe_normal (fe_normalize a) /\ fe_normalize_var a = fe_normalize a.
Proof.
  intros [Ha <-] Hm. assert (fe_mag 2047 a) as Ha' by (by apply (fe_mag_weaken m)).
  destruct (normalize_spec a Ha') as [Hr Hv]. split; [|split; [done|by apply normalize_var_eq]].
  split; [by apply normal_mag|]. apply F_eq. by rewrite Hv, Z.mod_mod.
Qed.

Lemma rep_set_int k : 0 <= k < 2 ^ 31 -> rep 1 (fe_set_int k) (Zmod.of_Z fp k).
Proof. intros Hk. destruct (set_int_spec k Hk) as [Hn Hv]. split; [by apply normal_mag|]. unfold F. by rewrite Hv. Qed.

Lemma rep_zero_var m a x : rep m a x -> m <= 2047 -> fe_normalizes_to_zero_var a = Zmod.eqb x 0%F.
Proof.
  intros [Ha <-] Hm. rewrite normalizes_to_zero_var_eq, normalizes_to_zero_spec by (by apply (fe_mag_weaken m)).
  apply eq_iff_eq_true. by rewrite F_zero, fld_eqb.
Qed.

Lemma rep_zero m a x : rep m a x -> m <= 2047 -> fe_normalizes_to_zero a = Zmod.eqb x 0%F.
Proof. rewrite <- normalizes_to_zero_var_eq. apply rep_zero_var. Qed.

Lemma rep_equal_var m a b x y : rep 1 a x -> rep m b y -> 0 <= m <= 2045 -> fe_equal_var a b = Zmod.eqb x y.
Proof.
  intros [Ha <-] [Hb <-] Hm. rewrite fe_equal_var_eq, (fe_equal_spec m) by done.
  apply eq_iff_eq_true. rewrite Z.eqb_eq, fld_eqb. unfold F. by rewrite Zmod.of_Z_inj.
Qed.

Lemma rep_inv m a x : rep m a x -> m <= 8 -> exists z, rep 8 (fe_inv a) z /\ (x <> 0%F -> (x * z)%F = 1%F).
Proof.
  intros [Ha <-] Hm. destruct (fe_inv_correct a) as [Hr Hv]; [by apply (fe_mag_weaken m)|].
  exists (F (fe_inv a)). split; [done|]. intros Hnz. unfold F. rewrite <- Zmod.of_Z_mul.
  change 1%F with (Zmod.of_Z fp 1). apply Zmod.of_Z_inj. rewrite Hv.
  destruct (fval a mod fp =? 0) eqn:Hz; [|done]. by apply F_zero in Hz.
Qed.

(** Small constants. *)
Lemma small_consts : Zmod.of_Z fp 2 = 2%F /\ Zmod.of_Z fp 3 = 3%F /\ Zmod.of_Z fp 4 = (2 + 2)%F /\
  Zmod.of_Z fp 6 = (3 + 3)%F /\ Zmod.of_Z fp 1 = 1%F /\ Zmod.of_Z fp 0 = 0%F /\ Zmod.of_Z fp 7 = curve_b.
Proof. repeat split; apply Zmod.to_Z_inj; vm_compute; reflexivity. Qed.

(** ** Straight-line field code

    [fe_steps] names the intermediate values of a sequence of field operations
    and records their magnitude and meaning; magnitudes are closed numerals,
    so every side condition is decided by computation. *)

Ltac mag_norm H :=
  match type of H with rep ?m ?a ?x => let m' := eval vm_compute in m in change (rep m' a x) in H end.

Ltac fe_name t H :=
  let v := fresh "v" in let Hv := fresh "Hv" in
  pose proof H as Hv; mag_norm Hv; set (v := t) in *; clearbody v.

Ltac mag := first [assumption | vm_compute; discriminate | vm_compute; split; [discriminate|reflexivity]].

Ltac fe_step := match goal with
  | Ha : rep _ ?a _, Hb : rep _ ?b _ |- context [fe_mul ?a ?b] => fe_name (fe_mul a b) (rep_mul _ _ a b _ _ Ha Hb ltac:(mag) ltac:(mag))
  | Ha : rep _ ?a _ |- context [fe_sqr ?a] => fe_name (fe_sqr a) (rep_sqr _ a _ Ha ltac:(mag))
  | Ha : rep _ ?a _, Hb : rep _ ?b _ |- context [fe_add ?a ?b] => fe_name (fe_add a b) (rep_add _ _ a b _ _ Ha Hb ltac:(mag))
  | Ha : rep _ ?a _ |- context [fe_negate ?a ?k] => fe_name (fe_negate a k) (rep_neg _ k a _ Ha ltac:(mag) ltac:(mag))
  | Ha : rep _ ?a _ |- context [fe_mul_int ?a ?k] => fe_name (fe_mul_int a k) (rep_mul_int _ k a _ Ha ltac:(mag) ltac:(mag) ltac:(mag))
  | Ha : rep _ ?a _ |- context [fe_normalize_weak ?a] => fe_name (fe_normalize_weak a) (rep_weak _ a _ Ha ltac:(mag))
  | |- context [fe_set_int ?k] => fe_name (fe_set_int k) (rep_set_int k ltac:(mag))
  end.
Ltac fe_steps := repeat fe_step.

(** ** Elements of the group *)

(** Coordinates the code accepts as inputs. *)
Definition gej_mag (a : gej) : Prop := fe_mag 8 (gej_x a) /\ fe_mag 8 (gej_y a) /\ fe_mag 8 (gej_z a).
Definition ge_mag (a : ge) : Prop := fe_mag 8 (ge_x a) /\ fe_mag 8 (ge_y a).

(** The point an element stands for. *)
Definition gej_rep (a : gej) (P : point) : Prop :=
  match P with
  | None => gej_inf a = true
  | Some (x, y) => gej_inf a = false /\ F (gej_z a) <> 0%F /\
      F (gej_x a) = (x * (F (gej_z a) * F (gej_z a)))%F /\
      F (gej_y a) = (y * (F (gej_z a) * F (gej_z a) * F (gej_z a)))%F
  end.

Definition ge_rep (a : ge) (P : point) : Prop :=
  match P with
  | None => ge_inf a = true
  | Some (x, y) => ge_inf a = false /\ F (ge_x a) = x /\ F (ge_y a) = y
  end.

Lemma rep_F m a : fe_mag m a -> rep m a (F a).
Proof. by split. Qed.

Ltac rep_close := match goal with
  | Hv : rep ?m ?v ?x |- rep ?k ?v ?y => replace y with x by ring; apply (rep_weaken m k v x Hv); vm_compute; discriminate
  end.

(** ** Doubling *)

Ltac consts := destruct small_consts as (E2 & E3 & E4 & E6 & E1 & E0 & E7);
  rewrite ?E2, ?E3, ?E4, ?E6, ?E1, ?E0, ?E7 in *.

Lemma double_alg (l x y z : fld) : (l * (2 * y) = 3 * x * x)%F ->
  let X := (x * (z * z))%F in let Y := (y * (z * z * z))%F in
  let '(x3, y3) := chord l x y x in
  let rz := (2 * (z * Y))%F in
  let t1 := (3 * (X * X))%F in let t3 := (2 * (Y * Y) * X)%F in let t4 := (2 * ((2 * (Y * Y)) * (2 * (Y * Y))))%F in
  (- ((2 + 2) * t3) + t1 * t1 = x3 * (rz * rz))%F /\
  (t1 * ((3 + 3) * t3 + - (t1 * t1)) + - t4 = y3 * (rz * rz * rz))%F.
Proof.
  intros Hl. cbv zeta. unfold chord. cbv zeta. split.
  - symmetry. transitivity (((l * (2 * y)) * (l * (2 * y)) - 2 * x * (2 * y) * (2 * y)) *
      (z * z * z * z * z * z * z * z))%F; [ring|]. rewrite Hl. ring.
  - symmetry. transitivity (((l * (2 * y)) * (3 * x) * (2 * y) * (2 * y) -
      (l * (2 * y)) * (l * (2 * y)) * (l * (2 * y)) - y * (2 * y) * (2 * y) * (2 * y)) *
      (z * z * z * z * z * z * z * z * z * z * z * z))%F; [ring|]. rewrite Hl. ring.
Qed.

Lemma padd_double x y : padd (Some (x, y)) (Some (x, y)) = Some (chord (3 * x * x / (2 * y)) x y x)%F.
Proof. unfold padd. by rewrite !(proj2 (fld_eqb _ _)). Qed.

(** What the additions need of their operands; it holds on the curve and on
    the isomorphic curves that the multiplications move to. *)
Definition ordinary (P : point) : Prop :=
  match P with None => True | Some (_, y) => y <> 0%F end.

Lemma on_curve_ordinary P : on_curve P -> ordinary P.
Proof. destruct P as [[x y]|]; [apply curve_y_nz|done]. Qed.
#[export] Hint Resolve on_curve_ordinary : core.

Lemma tangent_slope x y : y <> 0%F -> ((3 * x * x / (2 * y)) * (2 * y) = 3 * x * x)%F.
Proof. intros H. apply slope_mul, fld_mul_nz; [apply fld_2|done]. Qed.

Lemma gej_double_spec r a P : gej_mag r -> gej_mag a -> gej_rep a P -> ordinary P ->
  let '(d, rzr) := gej_double_var r a in
  gej_mag d /\ gej_rep d (padd P P) /\ fe_mag 8 rzr /\
  (gej_inf a = false -> F (gej_z d) = (F (gej_z a) * F rzr)%F).
Proof.
  intros Hr (Hx & Hy & Hz) HP Hc. unfold gej_double_var. destruct P as [[x y]|].
  2:{ cbn in HP. rewrite HP. split; [done|]. split; [done|]. split; [|done].
      by apply (fe_mag_weaken 1); [apply normal_mag, set_int_spec|]. }
  destruct HP as (Hinf & Hnz & HX & HY). rewrite Hinf.
  pose proof (rep_F _ _ Hx) as Rx. pose proof (rep_F _ _ Hy) as Ry. pose proof (rep_F _ _ Hz) as Rz.
  cbv zeta. destruct a as [ax ay az ai]. cbn [gej_x gej_y gej_z gej_inf] in *.
  fe_steps. consts. rewrite padd_double.
  pose proof (double_alg _ x y (F az) (tangent_slope x y Hc)) as Halg. cbv zeta in Halg.
  destruct (chord _ x y x) as [x3 y3]. rewrite <- HX, <- HY in Halg. destruct Halg as [Ha1 Ha2].
  repeat match goal with H : rep _ ?v _ |- context [?v] => destruct H as [? H] end.
  split; [repeat split; cbn [gej_x gej_y gej_z]; by eapply fe_mag_weaken; [eassumption|]|].
  split; [|split; [by eapply fe_mag_weaken; [eassumption|]|]].
  - cbn [gej_rep gej_x gej_y gej_z gej_inf]. split; [done|]. rewrite Hv9, Hv16, Hv17, Ha1, Ha2.
    split; [|split; ring]. apply fld_mul_nz; [apply fld_2|]. apply fld_mul_nz; [done|]. rewrite HY.
    apply fld_mul_nz; [done|]. by repeat apply fld_mul_nz.
  - intros _. cbn [gej_z]. rewrite Hv17, Hv19. ring.
Qed.

(** ** Addition *)

(** The values of the common end of the additions. *)
Lemma add_finish_spec u1 s1 h i U S H R : rep 1 u1 U -> rep 1 s1 S -> rep 3 h H -> rep 3 i R ->
  let '(rx, ry) := add_finish u1 s1 h i in
  let X := (R * R - H * (H * H) - 2 * U * (H * H))%F in
  rep 8 rx X /\ rep 8 ry (R * (U * (H * H) - X) - H * (H * H) * S)%F.
Proof.
  intros Hu Hs Hh Hi. unfold add_finish. cbv zeta. fe_steps. consts.
  split; rep_close.
Qed.

(** The algebra of the chord in Jacobian coordinates with z = [z]. *)
Lemma add_alg (l x1 y1 x2 y2 z : fld) : (l * (x2 - x1) = y2 - y1)%F ->
  let U := (x1 * (z * z))%F in let S := (y1 * (z * z * z))%F in
  let H := ((x2 - x1) * (z * z))%F in let R := ((y2 - y1) * (z * z * z))%F in
  let X := (R * R - H * (H * H) - 2 * U * (H * H))%F in
  let '(x3, y3) := chord l x1 y1 x2 in
  let rz := (z * H)%F in
  (X = x3 * (rz * rz))%F /\ (R * (U * (H * H) - X) - H * (H * H) * S = y3 * (rz * rz * rz))%F.
Proof. intros Hl. cbv zeta. unfold chord. cbv zeta. rewrite <- Hl. split; ring. Qed.

Lemma padd_chord x1 y1 x2 y2 : x1 <> x2 ->
  padd (Some (x1, y1)) (Some (x2, y2)) = Some (chord ((y2 - y1) / (x2 - x1)) x1 y1 x2)%F.
Proof. intros Hne. unfold padd. by rewrite (proj2 (fld_eqb_false _ _) Hne). Qed.

Lemma padd_opposite x y1 y2 : y1 <> y2 -> padd (Some (x, y1)) (Some (x, y2)) = None.
Proof. intros Hne. unfold padd. by rewrite (proj2 (fld_eqb _ _) eq_refl), (proj2 (fld_eqb_false _ _) Hne). Qed.

(** The decision and the three outcomes of a variable-time addition of finite
    elements, whatever [z] the two are brought to. *)
Lemma add_cases r a u1 s1 h i rz x1 y1 x2 y2 z :
  gej_mag r -> gej_mag a -> gej_rep a (Some (x1, y1)) -> ordinary (Some (x1, y1)) ->
  rep 1 u1 (x1 * (z * z))%F -> rep 1 s1 (y1 * (z * z * z))%F ->
  rep 3 h ((x2 - x1) * (z * z))%F -> rep 3 i ((y2 - y1) * (z * z * z))%F ->
  fe_mag 8 rz -> z <> 0%F -> F rz = (z * ((x2 - x1) * (z * z)))%F ->
  let res := if fe_normalizes_to_zero_var h then
      if fe_normalizes_to_zero_var i then (gej_double_var (mkGej (gej_x r) (gej_y r) (gej_z r) false) a).1
      else mkGej (gej_x r) (gej_y r) (gej_z r) true
    else mkGej (add_finish u1 s1 h i).1 (add_finish u1 s1 h i).2 rz false in
  gej_mag res /\ gej_rep res (padd (Some (x1, y1)) (Some (x2, y2))).
Proof.
  intros Hr Ha HP Hc Hu Hs Hh Hi Hrz Hz HZ. cbv zeta.
  rewrite (rep_zero_var _ _ _ Hh), (rep_zero_var _ _ _ Hi) by done.
  assert ((x2 - x1) * (z * z) = 0 <-> x1 = x2)%F as Hhz.
  { split; [|intros ->; ring]. intros [H|H]%fld_integral; [|by apply fld_mul_nz in H].
    transitivity (x2 - (x2 - x1))%F; [ring|]. rewrite H. ring. }
  assert ((y2 - y1) * (z * z * z) = 0 <-> y1 = y2)%F as Hiz.
  { split; [|intros ->; ring]. intros [H|H]%fld_integral; [|exfalso; revert H; apply fld_mul_nz; [by apply fld_mul_nz|done]].
    transitivity (y2 - (y2 - y1))%F; [ring|]. rewrite H. ring. }
  destruct (Zmod.eqb _ 0%F) eqn:E1; [apply fld_eqb, Hhz in E1; subst x2; destruct (Zmod.eqb _ 0%F) eqn:E2|].
  - apply fld_eqb, Hiz in E2. subst y2.
    pose proof (gej_double_spec (mkGej (gej_x r) (gej_y r) (gej_z r) false) a _ Hr Ha HP Hc) as Hd.
    destruct (gej_double_var _ a) as [d w]. by destruct Hd as (? & ? & _).
  - apply fld_eqb_false in E2. rewrite Hiz in E2. by rewrite padd_opposite.
  - apply fld_eqb_false in E1. rewrite Hhz in E1. rewrite padd_chord by done.
    pose proof (add_finish_spec _ _ _ _ _ _ _ _ Hu Hs Hh Hi) as Hf. destruct (add_finish u1 s1 h i) as [rx ry].
    destruct Hf as [[Hmx Hx] [Hmy Hy]].
    pose proof (add_alg _ x1 y1 x2 y2 z (slope_mul (y2 - y1) (x2 - x1) (fld_sub_nz _ _ (not_eq_sym E1)))) as Halg.
    cbv zeta in Halg. destruct (chord _ x1 y1 x2) as [x3 y3]. destruct Halg as [A1 A2].
    split; [by split|]. cbn [gej_rep gej_x gej_y gej_z gej_inf fst snd]. rewrite HZ, Hx, Hy, A2, A1.
    split; [done|]. split; [|done]. apply fld_mul_nz; [done|]. by rewrite Hhz.
Qed.

(** Restates what a named value stands for. *)
Ltac rep_ring eqs := match goal with
  | Hv : rep ?m ?v ?x |- rep ?m ?v ?y => replace y with x by (eqs; ring); exact Hv
  end.

(** The rzr contract: the ratio of the z coordinates of result and first operand. *)
Definition z_ratio (a res : gej) (w : option fe) : Prop :=
  gej_inf a = false -> gej_inf res = false -> exists v, w = Some v /\ fe_mag 8 v /\ F (gej_z res) = (F (gej_z a) * F v)%F.

Ltac rep_conv H := match type of H with rep _ _ ?x => match goal with |- rep _ _ ?y => replace y with x; [exact H|] end end.

Lemma add_pick r a u1 s1 h i rz hz w0 x1 y1 x2 y2 z :
  gej_mag r -> gej_mag a -> gej_rep a (Some (x1, y1)) -> ordinary (Some (x1, y1)) ->
  rep 1 u1 (x1 * (z * z))%F -> rep 1 s1 (y1 * (z * z * z))%F ->
  rep 3 h ((x2 - x1) * (z * z))%F -> rep 3 i ((y2 - y1) * (z * z * z))%F ->
  rep 1 rz (z * ((x2 - x1) * (z * z)))%F -> z <> 0%F -> fe_mag 8 hz -> F rz = (F (gej_z a) * F hz)%F ->
  let '(res, w) := if fe_normalizes_to_zero_var h then
      if fe_normalizes_to_zero_var i then
        let '(d, z) := gej_double_var (mkGej (gej_x r) (gej_y r) (gej_z r) false) a in (d, Some z)
      else (mkGej (gej_x r) (gej_y r) (gej_z r) true, w0)
    else let '(rx, ry) := add_finish u1 s1 h i in (mkGej rx ry rz false, Some hz) in
  gej_mag res /\ gej_rep res (padd (Some (x1, y1)) (Some (x2, y2))) /\ z_ratio a res w.
Proof.
  intros Hr Ha HP Hc Hu Hs Hh Hi [Hrz HZ] Hz Hhm Hhz.
  pose proof (add_cases r a u1 s1 h i rz x1 y1 x2 y2 z Hr Ha HP Hc Hu Hs Hh Hi (fe_mag_weaken 1 8 rz Hrz ltac:(lia)) Hz HZ) as Hres.
  cbv zeta in Hres. destruct (fe_normalizes_to_zero_var h); [destruct (fe_normalizes_to_zero_var i)|].
  - pose proof (gej_double_spec (mkGej (gej_x r) (gej_y r) (gej_z r) false) a _ Hr Ha HP Hc) as Hd.
    destruct (gej_double_var _ a) as [d w]. destruct Hd as (_ & _ & Hwm & Hw). destruct Hres as [Hm Hp].
    split; [exact Hm|]. split; [exact Hp|]. intros Hi1 _. exists w. split; [done|]. split; [done|]. by apply Hw.
  - destruct Hres as [Hm Hp]. split; [exact Hm|]. split; [exact Hp|]. by intros _ Hi2.
  - destruct (add_finish u1 s1 h i) as [rx ry]. destruct Hres as [Hm Hp]. split; [exact Hm|]. split; [exact Hp|].
    intros _ _. by exists hz.
Qed.

Lemma F_set_int k : 0 <= k < 2 ^ 31 -> F (fe_set_int k) = Zmod.of_Z fp k.
Proof. intros Hk. by destruct (rep_set_int k Hk). Qed.

Lemma gej_set_ge_mag b : ge_mag b -> gej_mag (gej_set_ge b).
Proof. intros [Hx Hy]. split; [done|]. split; [done|]. apply (fe_mag_weaken 1); [by apply rep_set_int|done]. Qed.

Lemma gej_set_ge_rep b Q : ge_rep b Q -> gej_rep (gej_set_ge b) Q.
Proof.
  destruct Q as [[x y]|]; [|done]. intros (Hi & <- & <-). unfold gej_set_ge. cbn [gej_rep gej_x gej_y gej_z gej_inf].
  rewrite F_set_int by done. change (Zmod.of_Z fp 1) with (@Zmod.one fp).
  split; [done|]. split; [|split; ring]. intros H. apply (f_equal Zmod.to_Z) in H. by vm_compute in H.
Qed.

Lemma gej_add_spec r a b P Q : gej_mag r -> gej_mag a -> gej_mag b -> gej_rep a P -> gej_rep b Q ->
  ordinary P ->
  let '(res, w) := gej_add_var r a b in
  gej_mag res /\ gej_rep res (padd P Q) /\ z_ratio a res w.
Proof.
  intros Hr Ha Hb HP HQ HcP. unfold gej_add_var.
  destruct P as [[x1 y1]|]; [|cbn in HP; rewrite HP; split; [done|]; split; [by destruct Q|]; by intros H; rewrite HP in H].
  pose proof HP as (Hia & Hza & HXa & HYa). rewrite Hia.
  destruct Q as [[x2 y2]|].
  2:{ cbn in HQ. rewrite HQ. split; [done|]. split; [done|]. intros _ _. exists (fe_set_int 1). split; [done|].
      split; [by eapply fe_mag_weaken; [apply rep_set_int|]|]. rewrite F_set_int by done. change (Zmod.of_Z fp 1) with (@Zmod.one fp). ring. }
  pose proof HQ as (Hib & Hzb & HXb & HYb). rewrite Hib. cbv zeta.
  pose proof Ha as (Rx & Ry & Rz). pose proof Hb as (Rx' & Ry' & Rz').
  apply rep_F in Rx, Ry, Rz, Rx', Ry', Rz'.
  fe_steps. set (Z1 := F (gej_z a)) in *. set (Z2 := F (gej_z b)) in *.
  match goal with |- context [add_finish ?u1 ?s1 ?h ?i] => match goal with |- context [(mkGej _ _ ?rz false, Some ?hz)] =>
    is_var rz; apply (add_pick r a u1 s1 h i rz hz (Some _) x1 y1 x2 y2 (Z1 * Z2)%F); try done end end.
  1-5: rep_ring ltac:(rewrite ?HXa, ?HYa, ?HXb, ?HYb).
  - by apply fld_mul_nz.
  - match goal with H : rep _ ?v _ |- fe_mag _ ?v => by eapply fe_mag_weaken; [exact (proj1 H)|] end.
  - repeat match goal with H : rep _ ?v _ |- context [F ?v] => destruct H as [? ->] end. fold Z1. ring.
Qed.

Lemma gej_add_ge_var_spec r a b P Q : gej_mag r -> gej_mag a -> ge_mag b -> gej_rep a P -> ge_rep b Q ->
  ordinary P ->
  let '(res, w) := gej_add_ge_var r a b in
  gej_mag res /\ gej_rep res (padd P Q) /\ z_ratio a res w.
Proof.
  intros Hr Ha Hb HP HQ HcP. unfold gej_add_ge_var. pose proof Hb as (Rx' & Ry').
  destruct P as [[x1 y1]|].
  2:{ cbn in HP; rewrite HP. split; [by apply gej_set_ge_mag|]. split; [by apply gej_set_ge_rep|].
      by intros H; rewrite HP in H. }
  pose proof HP as (Hia & Hza & HXa & HYa). rewrite Hia.
  destruct Q as [[x2 y2]|].
  2:{ cbn in HQ. rewrite HQ. split; [done|]. split; [done|]. intros _ _. exists (fe_set_int 1). split; [done|].
      split; [by eapply fe_mag_weaken; [apply rep_set_int|]|]. rewrite F_set_int by done. change (Zmod.of_Z fp 1) with (@Zmod.one fp). ring. }
  destruct HQ as (Hib & HXb & HYb). rewrite Hib. cbv zeta.
  pose proof Ha as (Rx & Ry & Rz). apply rep_F in Rx, Ry, Rz, Rx', Ry'.
  fe_steps. set (Z1 := F (gej_z a)) in *.
  match goal with |- context [add_finish ?u1 ?s1 ?h ?i] => match goal with |- context [mkGej _ _ ?rz false] =>
    is_var rz; apply (add_pick r a u1 s1 h i rz h (Some _) x1 y1 x2 y2 Z1); try done end end.
  1-5: rep_ring ltac:(rewrite ?HXa, ?HYa, ?HXb, ?HYb).
  - match goal with H : rep _ ?v _ |- fe_mag _ ?v => by eapply fe_mag_weaken; [exact (proj1 H)|] end.
  - repeat match goal with H : rep _ ?v _ |- context [F ?v] => destruct H as [? ->] end. fold Z1. ring.
Qed.

(** An affine element whose z coordinate is 1 / [w]. *)
Definition zinv_rep (b : ge) (w : fld) (Q : point) : Prop :=
  match Q with
  | None => ge_inf b = true
  | Some (x, y) => ge_inf b = false /\ x = (F (ge_x b) * (w * w))%F /\ y = (F (ge_y b) * (w * w * w))%F
  end.

Lemma fld_1_0 : 1%F <> 0%F.
Proof. intros H. apply (f_equal Zmod.to_Z) in H. by vm_compute in H. Qed.

Lemma gej_add_zinv_spec r a b bzinv P Q : gej_mag r -> gej_mag a -> ge_mag b -> fe_mag 8 bzinv ->
  gej_rep a P -> zinv_rep b (F bzinv) Q -> F bzinv <> 0%F -> ordinary P ->
  let res := gej_add_zinv_var r a b bzinv in gej_mag res /\ gej_rep res (padd P Q).
Proof.
  intros Hr Ha Hb Hw HP HQ Hwnz HcP. cbv zeta. unfold gej_add_zinv_var. pose proof Hb as (Rx' & Ry').
  destruct Q as [[x2 y2]|].
  2:{ cbn in HQ. rewrite HQ. split; [done|]. by destruct P as [[]|]. }
  destruct HQ as (Hib & HX2 & HY2). rewrite Hib. pose proof Ha as (Rx & Ry & Rz). apply rep_F in Rx, Ry, Rz, Rx', Ry', Hw.
  destruct P as [[x1 y1]|].
  2:{ cbn in HP. rewrite HP. cbv zeta. fe_steps. consts.
      repeat match goal with H : rep _ ?v _ |- context [?v] => destruct H as [? H] end.
      split; [repeat split; cbn [gej_x gej_y gej_z]; by eapply fe_mag_weaken; [eassumption|]|].
      cbn [padd gej_rep gej_x gej_y gej_z gej_inf]. split; [done|].
      repeat match goal with H : F ?v = _ |- context [F ?v] => is_var v; rewrite H end.
      split; [apply fld_1_0|]. rewrite HX2, HY2. split; ring. }
  pose proof HP as (Hia & Hza & HXa & HYa). rewrite Hia. cbv zeta.
  fe_steps. set (Z1 := F (gej_z a)) in *.
  match goal with |- context [add_finish ?u1 ?s1 ?h ?i] => match goal with |- context [mkGej _ _ ?rz false] =>
    is_var rz; pose proof (add_cases r a u1 s1 h i rz x1 y1 x2 y2 Z1 Hr Ha HP HcP) as Hres end end.
  cbv zeta in Hres. destruct (add_finish _ _ _ _) as [rx ry].
  apply Hres; [rep_ring ltac:(rewrite ?HXa, ?HYa, ?HX2, ?HY2)..| | |].
  - match goal with H : rep _ ?v _ |- fe_mag _ ?v => by eapply fe_mag_weaken; [exact (proj1 H)|] end.
  - done.
  - match goal with H : rep _ ?v _ |- F ?v = _ => rewrite (proj2 H), HX2, HXa; ring end.
Qed.

(** ** The unified addition *)

Lemma fe_1_rep : rep 1 (fe_const 0 0 0 0 0 0 0 1) 1%F.
Proof. split; [by split|]. apply Zmod.to_Z_inj. by vm_compute. Qed.

Lemma rep_cmov m k j r a x y flag : rep m r x -> rep k a y -> m <= j -> k <= j -> j <= 2048 ->
  flag = 0 \/ flag = 1 -> rep j (fe_cmov r a flag) (if flag =? 0 then x else y).
Proof.
  intros [Hr <-] [Ha <-] Hm Hk Hj Hf. rewrite (fe_cmov_spec r a flag j).
  - destruct Hf as [-> | ->]; (split; [by eapply fe_mag_weaken|done]).
  - lia.
  - by eapply fe_mag_weaken.
  - by eapply fe_mag_weaken.
  - done.
Qed.

(** Any slope [l] of the line with numerator [n] and denominator [d] brought to
    [z], and the symmetric form of the sum. *)
Lemma unified_alg (l x1 y1 x2 y2 z n d m4 : fld) :
  n = (l * d * z)%F -> (l * (x1 - x2) = y1 - y2)%F -> m4 = ((y1 + y2) * (z * z * z) * (d * d * d))%F ->
  let t := ((x1 + x2) * (z * z))%F in let q := (d * d * t)%F in
  let '(x3, y3) := chord l x1 y1 x2 in
  let rz := (2 * (z * d))%F in
  ((2 + 2) * (n * n - q) = x3 * (rz * rz))%F /\
  ((2 + 2) * - ((2 * (n * n - q) - q) * n + m4) = y3 * (rz * rz * rz))%F.
Proof.
  intros -> Hl ->. cbv zeta. unfold chord. cbv zeta. split; [ring|].
  assert (y2 = y1 - l * (x1 - x2))%F as -> by (rewrite Hl; ring). ring.
Qed.

Lemma cmov_pick m k r a x y flag : rep m r x -> rep k a y -> m <= 2048 -> k <= 2048 ->
  flag = 0 \/ flag = 1 -> fe_cmov r a flag = if flag =? 0 then r else a.
Proof.
  intros [Hr _] [Ha _] Hm Hk Hf. apply (fe_cmov_spec r a flag 2048); [lia| | |done]; by eapply fe_mag_weaken.
Qed.

Ltac cmov_step := match goal with
  | Hr : rep _ ?r _, Ha : rep _ ?a _ |- context [fe_cmov ?r ?a ?f] =>
    rewrite (cmov_pick _ _ r a _ _ f Hr Ha ltac:(mag) ltac:(mag) ltac:(first [left; reflexivity | right; reflexivity]));
    cbn [Z.eqb Z.sub Z.b2z]
  end.

(** Which slope the unified formula uses, and when the sum is infinite. *)
Lemma unified_cases x1 y1 x2 y2 : on_curve (Some (x1, y1)) -> on_curve (Some (x2, y2)) ->
  let m := (y1 + y2)%F in let rr := ((x1 + x2) * (x1 + x2) - x1 * x2)%F in
  let P := padd (Some (x1, y1)) (Some (x2, y2)) in
  (m <> 0%F -> exists l, P = Some (chord l x1 y1 x2) /\ (rr = l * m)%F /\ (l * (x1 - x2) = y1 - y2)%F) /\
  (m = 0%F -> rr <> 0%F -> P = None) /\
  (m = 0%F -> rr = 0%F -> x1 = x2 /\ P = None \/
    x1 <> x2 /\ exists l, P = Some (chord l x1 y1 x2) /\ (2 * y1 = l * (x1 - x2))%F /\ (l * (x1 - x2) = y1 - y2)%F).
Proof.
  intros H1 H2. cbv zeta.
  assert (x1 <> x2 -> exists l, padd (Some (x1, y1)) (Some (x2, y2)) = Some (chord l x1 y1 x2) /\
    (l * (x1 - x2) = y1 - y2)%F) as Hchord.
  { intros Hne. rewrite padd_chord by done. eexists. split; [done|].
    pose proof (slope_mul (y2 - y1) (x2 - x1) (fld_sub_nz _ _ (not_eq_sym Hne)))%F as Hl.
    set (l := ((y2 - y1) / (x2 - x1))%F) in *. clearbody l.
    transitivity (- (l * (x2 - x1)))%F; [ring|]. rewrite Hl. ring. }
  assert (y1 + y2 = 0 -> x1 = x2 -> padd (Some (x1, y1)) (Some (x2, y2)) = None)%F as Hopp.
  { intros Hm <-. apply padd_opposite. intros <-. apply (curve_y_nz x1 y1 H1).
    apply (fld_cancel 2%F); [apply fld_2|]. transitivity (y1 + y1)%F; [ring|]. rewrite Hm. ring. }
  assert (((x1 + x2) * (x1 + x2) - x1 * x2) * (x1 - x2) = (y1 - y2) * (y1 + y2))%F as Hcub.
  { transitivity ((x1 * x1 * x1 + curve_b) - (x2 * x2 * x2 + curve_b))%F; [ring|].
    cbn in H1, H2. rewrite <- H1, <- H2. ring. }
  split; [|split].
  - intros Hm. destruct (Zmod.eqb x1 x2) eqn:Hx.
    + apply fld_eqb in Hx. subst x2. destruct (same_abscissa _ _ _ H1 H2) as [<- | ->]; [|by destruct Hm; ring].
      rewrite padd_double. eexists. split; [done|]. pose proof (tangent_slope x1 y1 (curve_y_nz _ _ H1)) as Hl.
      set (l := (3 * x1 * x1 / (2 * y1))%F) in *. clearbody l. split; [|ring].
      transitivity (3 * x1 * x1)%F; [ring|]. rewrite <- Hl. ring.
    + apply fld_eqb_false in Hx. destruct (Hchord Hx) as (l & HP & Hl). exists l. split; [done|]. split; [|done].
      apply (fld_cancel (x1 - x2)%F); [by apply fld_sub_nz|].
      transitivity (((x1 + x2) * (x1 + x2) - x1 * x2) * (x1 - x2))%F; [ring|]. rewrite Hcub, <- Hl. ring.
  - intros Hm Hr. apply Hopp; [done|]. rewrite Hm in Hcub.
    destruct (fld_integral ((x1 + x2) * (x1 + x2) - x1 * x2) (x1 - x2))%F as [?|H]; [rewrite Hcub; ring|done|].
    transitivity (x1 - x2 + x2)%F; [ring|]. rewrite H. ring.
  - intros Hm Hr. destruct (Zmod.eqb x1 x2) eqn:Hx; [apply fld_eqb in Hx; left; auto|].
    apply fld_eqb_false in Hx. right. split; [done|]. destruct (Hchord Hx) as (l & HP & Hl). exists l.
    split; [done|]. split; [|done]. rewrite Hl. transitivity (y1 - y2 + (y1 + y2))%F; [ring|]. rewrite Hm. ring.
Qed.

(** The finite cases: the numerator [n], denominator [d] and last term [m4]
    that the code picked give the sum. *)
Lemma unified_finish rx ry rz zd x1 y1 x2 y2 z n d m4 :
  let t := ((x1 + x2) * (z * z))%F in let q := (d * d * t)%F in
  rep 4 rx ((2 + 2) * (n * n - q))%F -> rep 4 ry ((2 + 2) * - ((2 * (n * n - q) - q) * n + m4))%F ->
  rep 2 rz (2 * (z * d))%F -> rep 1 zd (z * d)%F -> z <> 0%F ->
  (d = 0%F -> padd (Some (x1, y1)) (Some (x2, y2)) = None) ->
  (d <> 0%F -> exists l, padd (Some (x1, y1)) (Some (x2, y2)) = Some (chord l x1 y1 x2) /\
    n = (l * d * z)%F /\ (l * (x1 - x2) = y1 - y2)%F /\ m4 = ((y1 + y2) * (z * z * z) * (d * d * d))%F) ->
  let res := mkGej rx ry rz (negb (Z.b2z (fe_normalizes_to_zero zd) * 1 =? 0)) in
  gej_mag res /\ gej_rep res (padd (Some (x1, y1)) (Some (x2, y2))).
Proof.
  cbv zeta. intros [Mx Hx] [My Hy] [Mz Hz] Hzd Hnz Hinf Hfin.
  split; [repeat split; cbn [gej_x gej_y gej_z]; by eapply fe_mag_weaken; [eassumption|]|].
  rewrite (rep_zero _ _ _ Hzd) by done. destruct (Zmod.eqb (z * d)%F 0%F) eqn:E.
  - apply fld_eqb, fld_integral in E as [|E]; [done|]. by rewrite Hinf.
  - apply fld_eqb_false in E. assert (d <> 0%F) as Hd by (intros ->; apply E; ring).
    destruct (Hfin Hd) as (l & -> & Hn & Hl & Hm). pose proof (unified_alg l x1 y1 x2 y2 z n d m4 Hn Hl Hm) as Halg.
    cbv zeta in Halg. destruct (chord l x1 y1 x2) as [x3 y3]. destruct Halg as [A1 A2].
    cbn [gej_rep gej_x gej_y gej_z gej_inf Z.b2z]. rewrite Hx, Hy, Hz, A2, A1.
    split; [done|]. split; [|done]. apply fld_mul_nz; [apply fld_2|done].
Qed.

Ltac unified_branch :=
  match goal with |- context [fe_normalizes_to_zero ?m && fe_normalizes_to_zero ?rr] =>
    destruct (fe_normalizes_to_zero m && fe_normalizes_to_zero rr) eqn:Hdg end;
  cbn [Z.b2z]; change (1 - 1) with 0; change (1 - 0) with 1;
  repeat first [cmov_step | fe_step]; consts.

Lemma gej_add_ge_spec a b P Q : gej_mag a -> ge_mag b -> gej_rep a P -> ge_rep b Q ->
  on_curve P -> on_curve Q -> Q <> None ->
  let res := gej_add_ge a b in gej_mag res /\ gej_rep res (padd P Q).
Proof.
  intros (Rx & Ry & Rz) (Rx' & Ry') HP HQ HcP HcQ HQn. destruct Q as [[x2 y2]|]; [|done]. clear HQn.
  destruct HQ as (Hib & <- & <-). pose proof fe_1_rep as R1. cbv zeta. unfold gej_add_ge. cbv zeta.
  set (one := fe_const 0 0 0 0 0 0 0 1) in *. clearbody one. apply rep_F in Rx, Ry, Rz, Rx', Ry'.
  destruct P as [[x1 y1]|].
  - destruct HP as (Hia & Hza & HXa & HYa). rewrite Hia. cbn [Z.b2z]. change (1 - 0) with 1. fe_steps.
    set (x2 := F (ge_x b)) in *. set (y2 := F (ge_y b)) in *. set (z := F (gej_z a)) in *.
    destruct (unified_cases x1 y1 x2 y2 HcP HcQ) as (Hc1 & Hc2 & Hc3).
    assert (z * z * z <> 0)%F as Hz3 by (by repeat apply fld_mul_nz).
    unified_branch;
    match goal with |- context [mkGej ?rx ?ry ?rz (negb (Z.b2z (fe_normalizes_to_zero ?zd) * _ =? _))] =>
      set (RX := rx) in *; set (RY := ry) in *; set (RZ := rz) in *; set (ZD := zd) in * end.
    + apply andb_true_iff in Hdg as [Hm0 Hr0].
      match type of Hm0 with fe_normalizes_to_zero ?m = _ => match goal with H : rep _ m _ |- _ =>
        rewrite (rep_zero _ _ _ H ltac:(mag)), fld_eqb, HYa in Hm0 end end.
      match type of Hr0 with fe_normalizes_to_zero ?m = _ => match goal with H : rep _ m _ |- _ =>
        rewrite (rep_zero _ _ _ H ltac:(mag)), fld_eqb, HXa in Hr0 end end.
      assert (y1 + y2 = 0)%F as Hm.
      { apply (fld_cancel (z * z * z)%F); [done|]. transitivity 0%F; [rewrite <- Hm0|]; ring. }
      assert ((x1 + x2) * (x1 + x2) - x1 * x2 = 0)%F as Hr.
      { apply (fld_cancel (z * z * z * z)%F); [by repeat apply fld_mul_nz|]. transitivity 0%F; [rewrite <- Hr0|]; ring. }
      apply (unified_finish RX RY RZ ZD x1 y1 x2 y2 z (2 * y1 * (z * z * z))%F ((x1 - x2) * (z * z))%F ((y1 + y2) * (z * z * z))%F);
        [rep_ring ltac:(rewrite ?HXa, ?HYa)..|done| |].
      * intros Hd. destruct (Hc3 Hm Hr) as [[_ ?]|[Hne _]]; [done|]. exfalso. revert Hd.
        apply fld_mul_nz; [by apply fld_sub_nz|by apply fld_mul_nz].
      * intros Hd. destruct (Hc3 Hm Hr) as [[-> _]|(_ & l & HP & Hl2 & Hl)]; [destruct Hd; ring|].
        exists l. split; [done|]. split; [rewrite Hl2; ring|]. split; [done|]. rewrite Hm. ring.
    + assert ((y1 + y2) * (z * z * z) = 0 -> (x1 + x2) * (x1 + x2) - x1 * x2 <> 0)%F as Hnd.
      { intros Hm Hr. apply andb_false_iff in Hdg. destruct Hdg as [Hdg|Hdg];
        (match type of Hdg with fe_normalizes_to_zero ?m = _ => match goal with H : rep _ m _ |- _ =>
          rewrite (rep_zero _ _ _ H ltac:(mag)), fld_eqb_false in Hdg end end; apply Hdg).
        - rewrite HYa, <- Hm. ring.
        - rewrite HXa. transitivity (((x1 + x2) * (x1 + x2) - x1 * x2) * (z * z * z * z))%F; [ring|]. rewrite Hr. ring. }
      apply (unified_finish RX RY RZ ZD x1 y1 x2 y2 z (((x1 + x2) * (x1 + x2) - x1 * x2) * (z * z * z * z))%F
        ((y1 + y2) * (z * z * z))%F ((y1 + y2) * (z * z * z) * ((y1 + y2) * (z * z * z)) * ((y1 + y2) * (z * z * z)) * ((y1 + y2) * (z * z * z)))%F);
        [rep_ring ltac:(rewrite ?HXa, ?HYa)..|done| |].
      * intros Hd. apply Hc2; [|by apply Hnd]. apply fld_integral in Hd as [?|?]; done.
      * intros Hd. destruct Hc1 as (l & HP & Hr & Hl); [intros Hm; apply Hd; rewrite Hm; ring|].
        exists l. split; [done|]. split; [rewrite Hr; ring|]. split; [done|ring].
  - cbn in HP. rewrite HP. cbn [Z.b2z]. change (1 - 1) with 0. fe_steps.
    unified_branch;
    (split; [repeat split; cbn [gej_x gej_y gej_z]; by eapply fe_mag_weaken; [exact (proj1 R1) || exact (proj1 Rx') || exact (proj1 Ry')|]|]);
    cbn [padd gej_rep gej_x gej_y gej_z gej_inf]; rewrite Z.mul_0_r, (proj2 R1);
    (split; [done|]; split; [apply fld_1_0|split; ring]).
Qed.

(** ** Conversions *)

Lemma set_gej_zinv_spec a zi P : gej_mag a -> fe_mag 8 zi -> gej_rep a P ->
  (P <> None -> (F zi * F (gej_z a) = 1)%F) ->
  ge_mag (ge_set_gej_zinv a zi) /\ ge_rep (ge_set_gej_zinv a zi) P.
Proof.
  intros (Rx & Ry & Rz) Rw HP Hi. apply rep_F in Rx, Ry, Rz, Rw. unfold ge_set_gej_zinv. cbv zeta. fe_steps.
  repeat match goal with H : rep _ ?v _ |- context [?v] => destruct H as [? H] end.
  split; [split; by eapply fe_mag_weaken|]. destruct P as [[x y]|]; [|done].
  destruct HP as (Hia & Hnz & HX & HY). cbn [ge_rep ge_x ge_y ge_inf]. split; [done|]. specialize (Hi ltac:(done)).
  repeat match goal with H : F ?v = _ |- context [F ?v] => rewrite H end. split.
  - transitivity (x * (F zi * F (gej_z a)) * (F zi * F (gej_z a)))%F; [ring|]. rewrite Hi. ring.
  - transitivity (y * (F zi * F (gej_z a)) * (F zi * F (gej_z a)) * (F zi * F (gej_z a)))%F; [ring|]. rewrite Hi. ring.
Qed.

Lemma ge_set_gej_spec a P : gej_mag a -> gej_rep a P ->
  let '(r, a') := ge_set_gej a in ge_mag r /\ ge_rep r P /\ gej_mag a' /\ gej_rep a' P.
Proof.
  intros (Rx & Ry & Rz) HP. pose proof (rep_F _ _ Rz) as Rz'. apply rep_F in Rx, Ry. unfold ge_set_gej. cbv zeta.
  destruct (rep_inv _ _ _ Rz' ltac:(mag)) as (zi & Ri & Hzi). set (w := fe_inv (gej_z a)) in *. clearbody w.
  fe_steps. consts. repeat match goal with H : rep _ ?v _ |- context [?v] => destruct H as [? H] end.
  match goal with |- ge_mag ?r /\ _ => assert (ge_mag r /\ ge_rep r P) as [Hm Hr] end.
  { split; [split; by eapply fe_mag_weaken|]. destruct P as [[x y]|]; [|done]. destruct HP as (Hia & Hnz & HX & HY).
    cbn [ge_rep ge_x ge_y ge_inf]. split; [done|]. specialize (Hzi Hnz).
    repeat match goal with H : F ?v = _ |- context [F ?v] => rewrite H end.
    replace (F (gej_x a)) with (x * (F (gej_z a) * F (gej_z a)))%F.
    replace (F (gej_y a)) with (y * (F (gej_z a) * F (gej_z a) * F (gej_z a)))%F. split.
    - transitivity (x * (F (gej_z a) * zi) * (F (gej_z a) * zi))%F; [ring|]. rewrite Hzi. ring.
    - transitivity (y * (F (gej_z a) * zi) * (F (gej_z a) * zi) * (F (gej_z a) * zi))%F; [ring|]. rewrite Hzi. ring. }
  split; [done|]. split; [done|]. split.
  - destruct Hm as [? ?]. split; [done|]. split; [done|]. by eapply fe_mag_weaken.
  - destruct P as [[x y]|]; [|done]. destruct Hr as (Hi & HX & HY). cbn [gej_rep gej_x gej_y gej_z gej_inf] in *.
    cbn [ge_x ge_y] in *. rewrite HX, HY. match goal with H : F ?v = 1%F |- context [F ?v] => rewrite H end.
    split; [done|]. split; [apply fld_1_0|split; ring].
Qed.

Lemma ge_set_gej_var_spec r a P : gej_mag a -> ge_mag r -> gej_rep a P ->
  let '(r', a') := ge_set_gej_var r a in ge_mag r' /\ ge_rep r' P /\ gej_mag a' /\ gej_rep a' P.
Proof.
  intros Ha Hr HP. pose proof (ge_set_gej_spec a P Ha HP) as H. unfold ge_set_gej_var. unfold ge_set_gej in H.
  destruct (gej_inf a) eqn:Hi; [|exact H]. destruct P as [[x y]|]; [by destruct HP as [? _]; congruence|]. done.
Qed.

Lemma ge_neg_spec a P : ge_mag a -> ge_rep a P -> ge_mag (ge_neg a) /\ ge_rep (ge_neg a) (pneg P).
Proof.
  intros (Rx & Ry) HP. apply rep_F in Rx, Ry. unfold ge_neg. fe_steps.
  repeat match goal with H : rep _ ?v _ |- context [?v] => destruct H as [? H] end.
  split; [split; by eapply fe_mag_weaken|]. destruct P as [[x y]|]; [|done]. destruct HP as (? & HX & HY).
  cbn [pneg ge_rep ge_x ge_y ge_inf]. split; [done|]. split; [done|].
  match goal with H : F ?v = _ |- F ?v = _ => rewrite H end. by rewrite HY.
Qed.

Lemma gej_neg_spec a P : gej_mag a -> gej_rep a P -> gej_mag (gej_neg a) /\ gej_rep (gej_neg a) (pneg P).
Proof.
  intros (Rx & Ry & Rz) HP. apply rep_F in Rx, Ry, Rz. unfold gej_neg. fe_steps.
  repeat match goal with H : rep _ ?v _ |- context [?v] => destruct H as [? H] end.
  split; [repeat split; by eapply fe_mag_weaken|]. destruct P as [[x y]|]; [|done]. destruct HP as (? & ? & HX & HY).
  cbn [pneg gej_rep gej_x gej_y gej_z gej_inf]. split; [done|]. split; [done|]. split; [done|].
  match goal with H : F ?v = _ |- F ?v = _ => rewrite H end. rewrite HY. ring.
Qed.

Lemma gej_rescale_spec a s P : gej_mag a -> fe_mag 8 s -> F s <> 0%F -> gej_rep a P ->
  gej_mag (gej_rescale a s) /\ gej_rep (gej_rescale a s) P.
Proof.
  intros (Rx & Ry & Rz) Rs Hs HP. apply rep_F in Rx, Ry, Rz, Rs. unfold gej_rescale. cbv zeta. fe_steps.
  repeat match goal with H : rep _ ?v _ |- context [?v] => destruct H as [? H] end.
  split; [repeat split; by eapply fe_mag_weaken|]. destruct P as [[x y]|]; [|done]. destruct HP as (? & ? & HX & HY).
  cbn [gej_rep gej_x gej_y gej_z gej_inf]. split; [done|].
  repeat match goal with H : F ?v = _ |- context [F ?v] => is_var v; rewrite H end. rewrite HX, HY.
  split; [by apply fld_mul_nz|]. split; ring.
Qed.

(** ** Validity and decompression *)

Lemma ge_is_valid_spec a : ge_mag a ->
  ge_is_valid_var a = true <-> ge_inf a = false /\ on_curve (Some (F (ge_x a), F (ge_y a))).
Proof.
  intros (Rx & Ry). apply rep_F in Rx, Ry. unfold ge_is_valid_var, CURVE_B. destruct (ge_inf a); [by split; [|intros [? _]]|].
  cbv zeta. fe_steps. consts.
  match goal with |- fe_equal_var ?u ?v = true <-> _ => match goal with Hu : rep _ u _, Hv : rep _ v _ |- _ =>
    rewrite (rep_equal_var _ u v _ _ Hu Hv ltac:(done)), fld_eqb end end. cbn [on_curve]. tauto.
Qed.

Lemma gej_is_valid_spec a P : gej_mag a -> gej_rep a P -> gej_is_valid_var a = true <-> P <> None /\ on_curve P.
Proof.
  intros (Rx & Ry & Rz) HP. apply rep_F in Rx, Ry, Rz. unfold gej_is_valid_var, CURVE_B. destruct P as [[x y]|].
  2:{ cbn in HP. rewrite HP. by split; [|intros [? _]]. }
  destruct HP as (-> & Hnz & HX & HY). cbv zeta. fe_steps. consts.
  match goal with |- fe_equal_var ?u ?v = true <-> _ => match goal with Hu : rep _ u _, Hv : rep _ v _ |- _ =>
    rewrite (rep_equal_var _ u v _ _ Hu Hv ltac:(done)), fld_eqb, HX, HY end end. cbn [on_curve].
  set (z := F (gej_z a)) in *. assert (z * z * z * z * z * z <> 0)%F as Hz6 by (by repeat apply fld_mul_nz).
  split.
  - intros H. split; [done|]. apply (fld_cancel _ _ _ Hz6). etransitivity; [|etransitivity; [exact H|]]; ring.
  - intros [_ H]. transitivity (y * y * (z * z * z * z * z * z))%F; [ring|]. rewrite H. ring.
Qed.

Lemma F_square c : (exists s, (s * s) mod fp = fval c mod fp) <-> exists y : fld, (y * y = F c)%F.
Proof.
  split.
  - intros [s Hs]. exists (Zmod.of_Z fp s). unfold F. rewrite <- Zmod.of_Z_mul. by apply Zmod.of_Z_inj.
  - intros [y Hy]. exists (Zmod.to_Z y). apply (f_equal Zmod.to_Z) in Hy. unfold F in Hy.
    rewrite Zmod.to_Z_mul, Zmod.to_Z_of_Z in Hy. exact Hy.
Qed.

Lemma ge_set_xquad_spec x : fe_mag 8 x ->
  let '(r, ok) := ge_set_xquad x in
  (ok = true <-> exists y, on_curve (Some (F x, y))) /\ ge_x r = x /\ ge_inf r = false /\ fe_mag 8 (ge_y r) /\
  (ok = true -> on_curve (Some (F x, F (ge_y r)))).
Proof.
  intros Rx. apply rep_F in Rx. unfold ge_set_xquad, CURVE_B. cbv zeta. fe_steps. consts.
  match goal with |- context [fe_sqrt ?c] => set (cc := c) in * end.
  match goal with H : rep 2 cc _ |- _ => destruct H as [Hm Hc] end.
  assert (fe_mag 8 cc) as Hm8 by (by eapply fe_mag_weaken).
  destruct (fe_sqrt_correct cc Hm8) as (Hiff & Hroot & _). destruct (fe_root_spec cc Hm8) as [Hr _].
  change (sqrt_chain cc) with (fe_sqrt cc).1 in Hr. rewrite F_square, Hc in Hiff. destruct (fe_sqrt cc) as [y ok].
  cbn [fst snd ge_x ge_y ge_inf] in *. cbn [on_curve].
  assert (forall y' : fld, (y' * y' = curve_b + F x * (F x * F x) <-> y' * y' = F x * F x * F x + curve_b)%F) as Heq.
  { intros y'. split; intros ->; ring. }
  split; [|split; [done|]; split; [done|]; split; [done|]].
  - rewrite Hiff. split; intros [y' Hy]; exists y'; by apply Heq.
  - intros Hok. apply Heq. rewrite <- Hc. unfold F. rewrite <- Zmod.of_Z_mul. apply Zmod.of_Z_inj. by apply Hroot.
Qed.

Lemma F_to_Z a : Zmod.to_Z (F a) = fval a mod fp.
Proof. unfold F. apply Zmod.to_Z_of_Z. Qed.

Lemma odd_negate (y : fld) : y <> 0%F -> Z.odd (Zmod.to_Z (- y)%F) = negb (Z.odd (Zmod.to_Z y)).
Proof.
  intros Hy. rewrite Zmod.to_Z_opp. pose proof (Zmod.unsigned_pos_bound y ltac:(done)) as Hr.
  assert (Zmod.to_Z y <> 0) by (by intros H%Zmod.unsigned_0_iff).
  rewrite <- (Z.mod_add _ 1), Z.mod_small by (unfold fp in *; lia).
  rewrite Z.add_comm, <- Z.sub_opp_r, Z.opp_involutive, Z.odd_sub, Z.mul_1_l. by destruct (Z.odd (Zmod.to_Z y)).
Qed.

Lemma ge_set_xo_spec x odd : fe_mag 8 x ->
  let '(r, ok) := ge_set_xo_var x odd in
  (ok = true <-> exists y, on_curve (Some (F x, y))) /\
  (ok = true -> ge_mag r /\ ge_inf r = false /\ ge_x r = x /\ on_curve (Some (F x, F (ge_y r))) /\
     Z.odd (Zmod.to_Z (F (ge_y r))) = odd).
Proof.
  intros Rx. unfold ge_set_xo_var. pose proof (ge_set_xquad_spec x Rx) as H. destruct (ge_set_xquad x) as [r ok].
  destruct H as (Hiff & Hx & Hi & Hm & Hc). destruct ok; cbn [negb]; [|split; [exact Hiff|done]].
  split; [exact Hiff|]. intros _. specialize (Hc eq_refl). rewrite Hx, Hi.
  destruct (rep_normalize 8 (ge_y r) _ (rep_F _ _ Hm) ltac:(lia)) as (Rn & Hn & Hv). rewrite Hv.
  set (y := fe_normalize (ge_y r)) in *. clearbody y. rewrite (fe_is_odd_spec y Hn).
  assert (Z.odd (fval y) = Z.odd (Zmod.to_Z (F (ge_y r)))) as Ho.
  { rewrite <- (proj2 Rn), F_to_Z, Z.mod_small; [done|by apply normal_val]. }
  rewrite Ho. cbn [ge_x ge_y ge_inf].
  destruct (Bool.eqb (Z.odd (Zmod.to_Z (F (ge_y r)))) odd) eqn:He; cbn [negb].
  - apply Bool.eqb_prop in He. rewrite (proj2 Rn).
    split; [split; [done|]; by eapply fe_mag_weaken; [exact (proj1 Rn)|]|]. by split.
  - destruct (rep_neg 1 1 y _ Rn ltac:(lia) ltac:(lia)) as [Hnm Hnv]. rewrite Hnv.
    split; [split; [done|by eapply fe_mag_weaken]|]. split; [done|]. split; [done|]. split.
    + cbn [on_curve] in *. transitivity (F (ge_y r) * F (ge_y r))%F; [ring|done].
    + rewrite odd_negate by (by apply (curve_y_nz (F x))). revert He. by destruct (Z.odd (Zmod.to_Z (F (ge_y r)))), odd.
Qed.

(** ** Packed elements *)

Lemma ge_storage_spec a P : ge_mag a -> ge_rep a P -> P <> None ->
  ge_mag (ge_from_storage (ge_to_storage a)) /\ ge_rep (ge_from_storage (ge_to_storage a)) P.
Proof.
  intros (Rx & Ry) HP Hn. destruct P as [[x y]|]; [|done]. destruct HP as (Hi & HX & HY).
  destruct (rep_normalize 8 _ _ (rep_F _ _ Rx) ltac:(lia)) as (Rnx & Hnx & _).
  destruct (rep_normalize 8 _ _ (rep_F _ _ Ry) ltac:(lia)) as (Rny & Hny & _).
  unfold ge_from_storage, ge_to_storage. cbn [ges_x ges_y].
  destruct (to_storage_spec _ Hnx) as [Hsx Hvx]. destruct (to_storage_spec _ Hny) as [Hsy Hvy].
  destruct (from_storage_spec _ Hsx) as (Hmx & Hfx & _). destruct (from_storage_spec _ Hsy) as (Hmy & Hfy & _).
  split; [split; cbn [ge_x ge_y]; by eapply fe_mag_weaken|]. cbn [ge_rep ge_x ge_y ge_inf]. split; [done|].
  split; [rewrite <- HX, <- (proj2 Rnx)|rewrite <- HY, <- (proj2 Rny)]; apply F_eq; congruence.
Qed.

(** The endomorphism: x is multiplied by a cube root of one. *)
Lemma ge_mul_lambda_spec a P : ge_mag a -> ge_rep a P -> on_curve P ->
  exists Q, ge_mag (ge_mul_lambda a) /\ ge_rep (ge_mul_lambda a) Q /\ on_curve Q.
Proof.
  intros (Rx & Ry) HP Hc. unfold ge_mul_lambda. cbv zeta.
  set (beta := fe_const _ _ _ _ _ _ _ _).
  assert (exists b, rep 1 beta b /\ (b * b * b = 1)%F) as (b & Rb & Hb).
  { exists (F beta). split; [by split; [split|]|]. apply Zmod.to_Z_inj. vm_compute. reflexivity. }
  clearbody beta. apply rep_F in Rx. fe_steps. match goal with H : rep 1 ?v (F (ge_x a) * b)%F |- _ => destruct H as [Hm Hv] end.
  exists (match P with None => None | Some (x, y) => Some (x * b, y)%F end).
  split; [split; [by eapply fe_mag_weaken|done]|]. destruct P as [[x y]|]; [|done]. destruct HP as (Hi & HX & HY).
  cbn [ge_rep ge_x ge_y ge_inf]. split; [by rewrite Hv, HX|]. cbn [on_curve] in *.
  rewrite Hc. transitivity (x * x * x * (b * b * b) + curve_b)%F; [rewrite Hb|]; ring.
Qed.

(** ** Batches *)

(** [zi] is the inverse of the z coordinate of [g]. *)
Definition inv_of (zi : fe) (g : gej) : Prop := fe_mag 8 zi /\ (F zi * F (gej_z g) = 1)%F.

Definition finite (g : gej) : Prop := gej_inf g = false.

Lemma set_all_loop_spec r a azi Ps : length r = length a -> Forall gej_mag a -> Forall ge_mag r ->
  Forall2 gej_rep a Ps -> Forall2 inv_of azi (filter finite a) ->
  Forall2 ge_rep (set_all_loop r a azi) Ps /\ Forall ge_mag (set_all_loop r a azi).
Proof.
  revert r azi Ps. induction a as [|g a IH]; intros [|ri r] azi Ps Hl Ha Hr HP Hz; try done.
  { by apply Forall2_nil_inv_l in HP as ->. }
  apply Forall2_cons_inv_l in HP as (P & Ps' & HP & HPs & ->). apply Forall_cons in Ha as [Hg Ha].
  apply Forall_cons in Hr as [Hri Hr]. injection Hl as Hl. cbn [set_all_loop].
  destruct (gej_inf g) eqn:Hi.
  - rewrite filter_cons_False in Hz by (unfold finite; congruence).
    destruct (IH r azi Ps' Hl Ha Hr HPs Hz) as [H1 H2]. split; constructor; [|done|done|done].
    destruct P as [[x y]|]; [by destruct HP; congruence|done].
  - rewrite filter_cons_True in Hz by done. apply Forall2_cons_inv_r in Hz as (zi & azi' & [Hm Hzi] & Hz & ->).
    destruct (IH r azi' Ps' Hl Ha Hr HPs Hz) as [H1 H2].
    destruct (set_gej_zinv_spec g zi P Hg Hm HP (fun _ => Hzi)). by split; constructor.
Qed.

Lemma ge_set_all_spec r a Ps : length r = length a -> Forall gej_mag a -> Forall ge_mag r ->
  Forall2 gej_rep a Ps -> Forall2 ge_rep (ge_set_all_gej_var r a) Ps /\ Forall ge_mag (ge_set_all_gej_var r a).
Proof.
  intros Hl Ha Hr HP. unfold ge_set_all_gej_var. cbv zeta. change (fun g => gej_inf g = false) with finite.
  set (fa := filter finite a). apply set_all_loop_spec; [done..|].
  assert (Forall (fun g => gej_mag g /\ F (gej_z g) <> 0%F) fa) as Hfa.
  { apply Forall_forall. intros g [Hf Hg]%list_elem_of_filter.
    split; [by rewrite Forall_forall in Ha; apply Ha|]. apply list_elem_of_lookup in Hg as [i Hi].
    destruct (Forall2_lookup_l _ _ _ _ _ HP Hi) as ([[x y]|] & _ & Hrep); [by destruct Hrep as (_ & ? & _)|].
    cbn in Hrep. unfold finite in Hf. congruence. }
  destruct (inv_all_correct (replicate (length (gej_z <$> fa)) fe_clear) (gej_z <$> fa)) as [Hlen Hinv].
  - by rewrite length_replicate.
  - apply Forall_fmap. eapply Forall_impl; [exact Hfa|]. by intros g [(_ & _ & Hz) _].
  - apply Forall_fmap. eapply Forall_impl; [exact Hfa|]. intros g [_ Hz] H0. apply Hz, F_zero. by rewrite Z.eqb_eq.
  - apply Forall2_same_length_lookup. split; [by etrans; [exact Hlen|apply length_fmap]|].
    intros i zi g Hzi Hg. change (filter finite a) with fa in Hg. pose proof (lookup_lt_Some _ _ _ Hg) as Hlt.
    destruct (Hinv i) as [Hm Hv]; [by rewrite length_fmap|].
    rewrite (list_lookup_total_correct _ _ _ Hzi) in Hm, Hv.
    rewrite (list_lookup_total_correct (gej_z <$> fa) i (gej_z g)) in Hv by (by rewrite list_lookup_fmap, Hg).
    split; [done|]. unfold F. rewrite <- Zmod.of_Z_mul. change 1%F with (Zmod.of_Z fp 1).
    apply Zmod.of_Z_inj. rewrite Z.mul_comm. by rewrite Hv.
Qed.

(** ** Properties *)

(** The point of an affine element. *)
Definition lift (c : ge) : point := if ge_inf c then None else Some (F (ge_x c), F (ge_y c)).

(** The three additions of the group code (Jacobian, mixed variable-time and
    unified constant-time) of elements standing for curve points compute the
    affine chord-and-tangent sum, in every case (infinity, equal and opposite
    operands, degenerate slopes), with coordinates in the accepted range. *)
Theorem gej_additions r a b c P Q : gej_mag r -> gej_mag a -> gej_mag b -> ge_mag c ->
  gej_rep a P -> gej_rep b Q -> ge_rep c Q -> on_curve P -> on_curve Q ->
  (gej_mag (gej_add_var r a b).1 /\ gej_rep (gej_add_var r a b).1 (padd P Q)) /\
  (gej_mag (gej_add_ge_var r a c).1 /\ gej_rep (gej_add_ge_var r a c).1 (padd P Q)) /\
  (Q <> None -> gej_mag (gej_add_ge a c) /\ gej_rep (gej_add_ge a c) (padd P Q)) /\
  on_curve (padd P Q).
Proof.
  intros Hr Ha Hb Hc HP HQ HQc HcP HcQ.
  pose proof (gej_add_spec r a b P Q Hr Ha Hb HP HQ ltac:(auto)) as H1. destruct (gej_add_var r a b) as [d1 w1].
  pose proof (gej_add_ge_var_spec r a c P Q Hr Ha Hc HP HQc ltac:(auto)) as H2. destruct (gej_add_ge_var r a c) as [d2 w2].
  split; [by destruct H1 as (? & ? & _)|]. split; [by destruct H2 as (? & ? & _)|].
  split; [intros Hn; by apply gej_add_ge_spec|by apply padd_on_curve].
Qed.

(** Doubling never needs to produce infinity from a finite point: no curve
    point has y = 0; the result stands for the tangent point and rzr is the
    ratio of the z coordinates. *)
Theorem gej_doubling r a P : gej_mag r -> gej_mag a -> gej_rep a P -> on_curve P ->
  gej_mag (gej_double_var r a).1 /\ gej_rep (gej_double_var r a).1 (padd P P) /\
  gej_inf (gej_double_var r a).1 = gej_inf a /\
  (gej_inf a = false -> F (gej_z (gej_double_var r a).1) = (F (gej_z a) * F (gej_double_var r a).2)%F).
Proof.
  intros Hr Ha HP Hc. pose proof (gej_double_spec r a P Hr Ha HP ltac:(auto)) as H.
  assert (gej_inf (gej_double_var r a).1 = gej_inf a) as Hi by (unfold gej_double_var; by destruct (gej_inf a)).
  destruct (gej_double_var r a) as [d w]. destruct H as (? & ? & _ & Hw). by split_and!.
Qed.

(** Decompression succeeds exactly on the abscissas of curve points and gives
    the point whose y has the requested parity. *)
Theorem ge_decompression x odd : fe_mag 8 x ->
  ((ge_set_xo_var x odd).2 = true <-> exists y, on_curve (Some (F x, y))) /\
  ((ge_set_xo_var x odd).2 = true ->
    let r := (ge_set_xo_var x odd).1 in ge_mag r /\ ge_inf r = false /\ ge_x r = x /\ on_curve (lift r) /\
    Z.odd (Zmod.to_Z (F (ge_y r))) = odd).
Proof.
  intros Hx. pose proof (ge_set_xo_spec x odd Hx) as H. destruct (ge_set_xo_var x odd) as [r ok].
  destruct H as [H1 H2]. split; [exact H1|]. intros Hok. destruct (H2 Hok) as (Hm & Hi & Hxx & Hc & Ho).
  unfold lift. cbn [fst]. rewrite Hi, Hxx. by split_and!.
Qed.

(** Conversions keep the point: to affine (one by one, variable time, in a
    batch with a single inversion), to packed storage and back, rescaling. *)
Theorem ge_conversions r a s P : ge_mag r -> gej_mag a -> gej_rep a P -> fe_mag 8 s -> F s <> 0%F ->
  ge_rep (ge_set_gej a).1 P /\ ge_rep (ge_set_gej_var r a).1 P /\ gej_rep (ge_set_gej a).2 P /\
  (P <> None -> ge_rep (ge_from_storage (ge_to_storage (ge_set_gej a).1)) P) /\
  gej_rep (gej_rescale a s) P /\
  (forall rs gs Ps, length rs = length gs -> Forall gej_mag gs -> Forall ge_mag rs -> Forall2 gej_rep gs Ps ->
     Forall2 ge_rep (ge_set_all_gej_var rs gs) Ps).
Proof.
  intros Hr Ha HP Hs Hs0. pose proof (ge_set_gej_spec a P Ha HP) as H1. destruct (ge_set_gej a) as [r1 a1].
  pose proof (ge_set_gej_var_spec r a P Ha Hr HP) as H2. destruct (ge_set_gej_var r a) as [r2 a2].
  destruct H1 as (Hm1 & Hr1 & _ & Ha1). destruct H2 as (_ & Hr2 & _). cbn [fst snd].
  split; [done|]. split; [done|]. split; [done|]. split; [intros Hn; by apply ge_storage_spec|].
  split; [by apply gej_rescale_spec|]. intros rs gs Ps ? ? ? ?. by apply ge_set_all_spec.
Qed.

(** The generator and its image under the endomorphism, for the witnesses. *)
Definition lambda_g : ge := ge_mul_lambda ge_const_g.

Lemma g_ok : ge_mag ge_const_g /\ ge_mag lambda_g /\ on_curve (lift ge_const_g) /\ on_curve (lift lambda_g).
Proof.
  assert (ge_mag ge_const_g /\ ge_mag lambda_g) as [H1 H2] by (split; repeat split; by vm_compute).
  split; [done|]. split; [done|]. split; [apply (ge_is_valid_spec _ H1)|apply (ge_is_valid_spec _ H2)]; by vm_compute.
Qed.

Lemma sample_gej (c : ge) : ge_mag c -> gej_mag (gej_set_ge c).
Proof. apply gej_set_ge_mag. Qed.

Lemma lift_rep c : ge_rep c (lift c).
Proof. unfold lift. by destruct (ge_inf c) eqn:H. Qed.

Lemma gej_additions_witness :
  let a := gej_set_ge ge_const_g in let b := gej_set_ge lambda_g in let c := lambda_g in let r := gej_clear in
  let P := lift ge_const_g in let Q := lift lambda_g in
  (gej_mag (gej_add_var r a b).1 /\ gej_rep (gej_add_var r a b).1 (padd P Q)) /\
  (gej_mag (gej_add_ge_var r a c).1 /\ gej_rep (gej_add_ge_var r a c).1 (padd P Q)) /\
  (Q <> None -> gej_mag (gej_add_ge a c) /\ gej_rep (gej_add_ge a c) (padd P Q)) /\
  on_curve (padd P Q).
Proof.
  intros a b c r P Q. destruct g_ok as (H1 & H2 & H3 & H4).
  apply (gej_additions r a b c P Q);
    [by repeat split|by apply gej_set_ge_mag|by apply gej_set_ge_mag|exact H2
    |apply gej_set_ge_rep, lift_rep|apply gej_set_ge_rep, lift_rep|apply lift_rep|exact H3|exact H4].
Defined.

Lemma gej_doubling_witness :
  let a := gej_set_ge ge_const_g in let r := gej_clear in let P := lift ge_const_g in
  gej_mag (gej_double_var r a).1 /\ gej_rep (gej_double_var r a).1 (padd P P) /\
  gej_inf (gej_double_var r a).1 = gej_inf a /\
  (gej_inf a = false -> F (gej_z (gej_double_var r a).1) = (F (gej_z a) * F (gej_double_var r a).2)%F).
Proof.
  intros a r P. destruct g_ok as (H1 & _ & H3 & _).
  apply (gej_doubling r a P); [by repeat split|by apply gej_set_ge_mag|apply gej_set_ge_rep, lift_rep|exact H3].
Defined.

Lemma ge_decompression_witness :
  let x := ge_x ge_const_g in
  ((ge_set_xo_var x true).2 = true <-> exists y, on_curve (Some (F x, y))) /\
  ((ge_set_xo_var x true).2 = true ->
    let r := (ge_set_xo_var x true).1 in ge_mag r /\ ge_inf r = false /\ ge_x r = x /\ on_curve (lift r) /\
    Z.odd (Zmod.to_Z (F (ge_y r))) = true).
Proof. intros x. apply (ge_decompression x true). apply g_ok. Defined.

Lemma ge_conversions_witness :
  let a := gej_set_ge ge_const_g in let r := ge_clear in let s := fe_set_int 1 in let P := lift ge_const_g in
  ge_rep (ge_set_gej a).1 P /\ ge_rep (ge_set_gej_var r a).1 P /\ gej_rep (ge_set_gej a).2 P /\
  (P <> None -> ge_rep (ge_from_storage (ge_to_storage (ge_set_gej a).1)) P) /\
  gej_rep (gej_rescale a s) P /\
  (forall rs gs Ps, length rs = length gs -> Forall gej_mag gs -> Forall ge_mag rs -> Forall2 gej_rep gs Ps ->
     Forall2 ge_rep (ge_set_all_gej_var rs gs) Ps).
Proof.
  intros a r s P. destruct g_ok as (H1 & _).
  apply (ge_conversions r a s P);
    [by repeat split|by apply gej_set_ge_mag|apply gej_set_ge_rep, lift_rep|by repeat split|].
  intros H. apply (f_equal Zmod.to_Z) in H. by vm_compute in H.
Defined.
