(* ===== verification/Wnaf.v ===== *)
(** * Windowed non-adjacent forms

    secp256k1_ecmult_wnaf ([secp256k1/src/ecmult_impl.h]): the signed digits by
    which a scalar multiplies a point, with at most one nonzero digit in any
    [w] places, and the proof that they add up to the scalar. *)

From S2P Require Import Prelude Bytes Limbs Primality Scalar4x64.

(** The while loop: [bit], [carry], the array and [last_set_bit].  Every round
    advances [bit], so [len] rounds are enough. *)
Fixpoint wnaf_loop (fuel : nat) (s : scalar) (sign w len bit carry : Z) (wnaf : list Z) (last : Z) : list Z * Z :=
  match fuel with
  | O => (wnaf, last)
  | S fuel =>
    if bit <? len then
      if scalar_get_bits s bit 1 =? carry then wnaf_loop fuel s sign w len (bit + 1) carry wnaf last
      else
        let now := if len - bit <? w then len - bit else w in
        let word := scalar_get_bits_var s bit now + carry in
        let carry := Z.land (Z.shiftr word (w - 1)) 1 in
        let word := word - Z.shiftl carry w in
        wnaf_loop fuel s sign w len (bit + now) carry (<[Z.to_nat bit := sign * word]> wnaf) bit
    else (wnaf, last)
  end.

(** The array of [len] digits and the number of digits set. *)
Definition ecmult_wnaf (len : Z) (a : scalar) (w : Z) : list Z * Z :=
  let '(s, sign) := if negb (scalar_get_bits a 255 1 =? 0) then (scalar_negate a, -1) else (a, 1) in
  let '(wnaf, last) := wnaf_loop (Z.to_nat len) s sign w len 0 0 (replicate (Z.to_nat len) 0) (-1) in
  (wnaf, last + 1).

(** ** Bits of a scalar *)

Lemma add_shift_bit k a b j : 0 <= k -> 0 <= a < 2 ^ k -> 0 <= j ->
  Z.testbit (a + 2 ^ k * b) j = if j <? k then Z.testbit a j else Z.testbit b (j - k).
Proof.
  intros Hk Ha Hj. rewrite (Z.add_comm a), (Z.mul_comm _ b), <- lor_add by done.
  rewrite Z.lor_spec, <- Z.shiftl_mul_pow2 by done. destruct (Z.ltb_spec j k).
  - by rewrite Z.shiftl_spec_low by lia.
  - rewrite Z.shiftl_spec by lia. rewrite <- (Z.mod_small a (2 ^ k)) by done.
    rewrite Z.mod_pow2_bits_high by lia. by rewrite orb_false_r.
Qed.

Lemma limb_bit a i j : limbs_ok a -> 0 <= i < 4 -> 0 <= j < 64 ->
  Z.testbit (limb a i) j = Z.testbit (sval a) (64 * i + j).
Proof.
  intros [] Hi Hj. assert (sval a = d0 a + 2 ^ 64 * (d1 a + 2 ^ 64 * (d2 a + 2 ^ 64 * d3 a))) as -> by (unfold sval; lia).
  assert (i = 0 \/ i = 1 \/ i = 2 \/ i = 3) as [->|[->|[->| ->]]] by lia; unfold limb; cbn [Z.eqb Pos.eqb];
    repeat (rewrite add_shift_bit by lia; match goal with |- context [?x <? 64] => destruct (Z.ltb_spec x 64); try lia end);
    f_equal; lia.
Qed.

(** What the two readers of bit fields return. *)
Definition field (x off cnt : Z) : Z := (x / 2 ^ off) mod 2 ^ cnt.

Lemma field_bit x off cnt j : 0 <= off -> 0 <= cnt -> 0 <= j ->
  Z.testbit (field x off cnt) j = (j <? cnt) && Z.testbit x (off + j).
Proof.
  intros Ho Hc Hj. unfold field. rewrite <- shiftr_div by done. destruct (Z.ltb_spec j cnt).
  - rewrite Z.mod_pow2_bits_low, Z.shiftr_spec by lia. cbn. f_equal. lia.
  - by rewrite Z.mod_pow2_bits_high by lia.
Qed.

Lemma mask_bit x cnt j : 0 < cnt <= 32 -> 0 <= j ->
  Z.testbit (u32 (Z.land x (u64 (Z.shiftl 1 cnt - 1)))) j = (j <? cnt) && Z.testbit x j.
Proof.
  intros Hc Hj. assert (1 <= 2 ^ cnt <= 2 ^ 32) by (split; [|apply Z.pow_le_mono_r]; lia).
  rewrite shiftl_mul, Z.mul_1_l, u64_small, land_mask by lia.
  unfold u32. destruct (Z.ltb_spec j cnt).
  - by rewrite !Z.mod_pow2_bits_low by lia.
  - destruct (decide (j < 32)); [rewrite Z.mod_pow2_bits_low by lia|]; by rewrite Z.mod_pow2_bits_high by lia.
Qed.

Lemma offset_split off : 0 <= off -> Z.shiftr off 6 = off / 64 /\ Z.land off 0x3F = off mod 64.
Proof. intros Ho. rewrite shiftr_div by done. split; [done|]. by apply (land_mask off 6). Qed.

Lemma get_bits_spec a off cnt : limbs_ok a -> 0 <= off -> 0 < cnt <= 32 -> off mod 64 + cnt <= 64 -> off + cnt <= 256 ->
  scalar_get_bits a off cnt = field (sval a) off cnt.
Proof.
  intros Ha Ho Hc Hw Hl. unfold scalar_get_bits. destruct (offset_split off Ho) as [-> ->]. apply Z.bits_inj'. intros j Hj.
  rewrite mask_bit, field_bit by lia. destruct (Z.ltb_spec j cnt); [|done]. cbn [andb].
  rewrite Z.shiftr_spec by lia. rewrite limb_bit by (done || dlia). f_equal. dlia.
Qed.

Lemma get_bits_var_spec a off cnt : limbs_ok a -> 0 <= off -> 0 < cnt <= 32 -> off + cnt <= 256 ->
  scalar_get_bits_var a off cnt = field (sval a) off cnt.
Proof.
  intros Ha Ho Hc Hl. unfold scalar_get_bits_var. rewrite shiftr_div by lia. destruct (offset_split off Ho) as [-> ->].
  change (2 ^ 6) with 64. destruct (Z.eqb_spec ((off + cnt - 1) / 64) (off / 64)); [apply get_bits_spec; (done || dlia)|].
  apply Z.bits_inj'. intros j Hj. rewrite mask_bit, field_bit by lia. destruct (Z.ltb_spec j cnt); [|done]. cbn [andb].
  rewrite Z.lor_spec, Z.shiftr_spec by lia. unfold u64. rewrite Z.mod_pow2_bits_low by lia.
  destruct (decide (j + off mod 64 < 64)).
  - rewrite Z.shiftl_spec_low, orb_false_r, limb_bit by (done || dlia). f_equal. dlia.
  - rewrite Z.shiftl_spec, (limb_bit _ (off / 64 + 1)) by (done || dlia).
    assert (Z.testbit (limb a (off / 64)) (j + off mod 64) = false) as ->.
    { assert (0 <= limb a (off / 64) < 2 ^ 64) as Hr by (destruct Ha; unfold limb; repeat case_match; lia).
      rewrite <- (Z.mod_small _ _ Hr). apply Z.mod_pow2_bits_high. lia. }
    cbn [orb]. f_equal. dlia.
Qed.

(** ** The sum of the digits *)

Fixpoint wsum (d : list Z) : Z :=
  match d with [] => 0 | v :: d => v + 2 * wsum d end.

Lemma wsum_zero n : wsum (replicate n 0) = 0.
Proof. induction n as [|n IH]; cbn [replicate wsum]; lia. Qed.

Lemma wsum_insert d i v u : d !! i = Some u -> wsum (<[i := v]> d) = wsum d + (v - u) * 2 ^ Z.of_nat i.
Proof.
  revert d. induction i as [|i IH]; intros [|t d] H; try done.
  - injection H as ->. cbn [insert list_insert wsum]. change (2 ^ Z.of_nat 0) with 1. lia.
  - cbn [insert list_insert wsum]. rewrite IH by done.
    rewrite Nat2Z.inj_succ, Z.pow_succ_r by lia. lia.
Qed.

(** A window with the incoming carry, as the digit and the outgoing carry. *)
Lemma word_cases f c w : 2 <= w -> 0 <= f < 2 ^ w -> 0 <= c <= 1 -> Z.odd (f + c) = true ->
  let k := Z.land (Z.shiftr (f + c) (w - 1)) 1 in let v := f + c - Z.shiftl k w in
  0 <= k <= 1 /\ Z.odd v = true /\ Z.abs v < 2 ^ (w - 1) /\ v = f + c - k * 2 ^ w /\ (f + c <= 2 ^ (w - 1) -> k = 0).
Proof.
  intros Hw Hf Hc Ho. cbv zeta. rewrite shiftr_div by lia. rewrite (land_mask _ 1), shiftl_mul by lia.
  assert (2 ^ w = 2 * 2 ^ (w - 1)) as Hp by (rewrite <- Z.pow_succ_r by lia; f_equal; lia).
  assert (Z.odd (2 ^ (w - 1)) = false) as He by (rewrite Z.odd_pow by lia; done).
  set (p := 2 ^ (w - 1)) in *. assert (0 < p) by (by apply Z.pow_pos_nonneg; lia). rewrite Hp in *.
  assert (f + c <> 2 * p) as Hn by (intros E; rewrite E, Z.odd_mul in Ho; done).
  assert (f + c <> p) as Hn' by (intros E; rewrite E, He in Ho; done).
  assert (((f + c) / p) mod 2 ^ 1 = if p <=? f + c then 1 else 0) as ->.
  { destruct (Z.leb_spec p (f + c)).
    - replace ((f + c) / p) with 1; [done|]. apply Z.div_unique with (f + c - p); lia.
    - by rewrite Z.div_small by lia. }
  assert (forall k, Z.odd (f + c - k * (2 * p)) = Z.odd (f + c)) as Hodd.
  { intros k. rewrite Z.odd_sub, !Z.odd_mul. cbn [Z.odd]. by rewrite andb_false_r, xorb_false_r. }
  rewrite Hodd. destruct (Z.leb_spec p (f + c)); split_and!; try done; lia.
Qed.

(** ** The invariant of the loop *)

Record wnaf_inv (x sign w len bit carry last : Z) (d : list Z) : Prop := {
  wi_bit : 0 <= bit <= len;
  wi_carry : 0 <= carry <= 1;
  wi_len : Z.of_nat (length d) = len;
  wi_sum : wsum d = sign * (x mod 2 ^ bit - carry * 2 ^ bit);
  wi_last : -1 <= last < bit \/ last = -1;
  wi_gap : last = -1 \/ last + w <= bit \/ bit = len;
  wi_top : last = -1 \/ exists v, d !! Z.to_nat last = Some v /\ v <> 0;
  wi_high i v : d !! i = Some v -> last < Z.of_nat i -> v = 0;
  wi_digit i v : d !! i = Some v -> v = 0 \/ Z.odd v = true /\ Z.abs v < 2 ^ (w - 1);
  wi_sep i j u v : (i < j)%nat -> d !! i = Some u -> d !! j = Some v -> u <> 0 -> v <> 0 -> Z.of_nat i + w <= Z.of_nat j;
  wi_end : bit = len -> carry = 0;
}.

Lemma field_split x bit n : 0 <= bit -> 0 <= n -> x mod 2 ^ (bit + n) = x mod 2 ^ bit + 2 ^ bit * field x bit n.
Proof. intros. unfold field. rewrite Z.pow_add_r by done. apply Z.rem_mul_r; lia. Qed.

Lemma field_range x bit n : 0 <= n -> 0 <= field x bit n < 2 ^ n.
Proof. intros. apply Z.mod_pos_bound. by apply Z.pow_pos_nonneg. Qed.

(** Below the top of the number there is nothing. *)
Lemma field_top x bit n len : 0 <= x < 2 ^ (len - 1) -> 0 <= bit -> 0 < n -> bit + n = len -> field x bit n < 2 ^ (n - 1).
Proof.
  intros Hx Hb Hn Hl. unfold field. assert (x / 2 ^ bit < 2 ^ (n - 1)) as Hd.
  { apply Z.div_lt_upper_bound; [by apply Z.pow_pos_nonneg|]. rewrite <- Z.pow_add_r by lia. replace (bit + (n - 1)) with (len - 1) by lia. lia. }
  assert (0 <= x / 2 ^ bit) by (apply Z.div_pos; [lia|by apply Z.pow_pos_nonneg]).
  assert (2 ^ (n - 1) <= 2 ^ n) by (apply Z.pow_le_mono_r; lia). rewrite Z.mod_small; lia.
Qed.

Lemma field_odd x bit n : 0 <= bit -> 0 < n -> Z.odd (field x bit n) = (field x bit 1 =? 1).
Proof.
  intros Hb Hn. rewrite <- Z.bit0_odd, field_bit by lia. destruct (Z.ltb_spec 0 n); [|lia]. cbn [andb].
  pose proof (field_range x bit 1 ltac:(lia)) as Hr. change (2 ^ 1) with 2 in Hr.
  pose proof (field_bit x bit 1 0 ltac:(lia) ltac:(lia) ltac:(lia)) as H0. change (0 <? 1) with true in H0. cbn [andb] in H0.
  rewrite <- H0. set (f := field x bit 1) in *. clearbody f. assert (f = 0 \/ f = 1) as [-> | ->] by lia; reflexivity.
Qed.

Section Loop.
Context (x sign w len : Z).
Hypothesis Hx : 0 <= x < 2 ^ (len - 1).
Hypothesis Hw : 2 <= w.
Hypothesis Hsign : sign = 1 \/ sign = -1.

Lemma inv_skip bit carry last d : wnaf_inv x sign w len bit carry last d -> bit < len -> field x bit 1 = carry ->
  wnaf_inv x sign w len (bit + 1) carry last d.
Proof.
  intros [] Hb Hf. split; try done; try lia.
  - rewrite wi_sum0, field_split by lia. rewrite Hf, Z.pow_add_r by lia. lia.
  - intros He. pose proof (field_top x bit 1 len). cbn in *. rewrite Hf in *. lia.
Qed.

Lemma inv_digit bit carry last d : wnaf_inv x sign w len bit carry last d -> bit < len -> field x bit 1 <> carry ->
  let now := if len - bit <? w then len - bit else w in
  let word := field x bit now + carry in
  let k := Z.land (Z.shiftr word (w - 1)) 1 in
  wnaf_inv x sign w len (bit + now) k bit (<[Z.to_nat bit := sign * (word - Z.shiftl k w)]> d).
Proof.
  intros I Hb Hf. cbv zeta. set (now := if len - bit <? w then len - bit else w).
  assert (1 <= now <= w /\ bit + now <= len /\ (now = w \/ bit + now = len)) as (Hn & Hnl & Hnw).
  { subst now. destruct (Z.ltb_spec (len - bit) w); lia. }
  pose proof (wi_bit _ _ _ _ _ _ _ _ I). pose proof (wi_carry _ _ _ _ _ _ _ _ I) as Hc.
  pose proof (field_range x bit now ltac:(lia)) as Hr. pose proof (field_range x bit 1 ltac:(lia)) as Hr1. change (2 ^ 1) with 2 in Hr1.
  assert (2 ^ now <= 2 ^ w) as Hnp by (apply Z.pow_le_mono_r; lia).
  assert (Z.odd (field x bit now + carry) = true) as Ho.
  { rewrite Z.odd_add, field_odd by lia. assert (carry = 0 \/ carry = 1) as [-> | ->] by lia; destruct (Z.eqb_spec (field x bit 1) 1); done || lia. }
  destruct (word_cases (field x bit now) carry w Hw ltac:(lia) Hc Ho) as (Hk & Hvo & Hva & Hv & Hk0).
  set (word := field x bit now + carry) in *. set (k := Z.land _ 1) in *. set (v := word - Z.shiftl k w) in *.
  assert (bit + now = len -> k = 0) as Hend.
  { intros He. apply Hk0. pose proof (field_top x bit now len Hx ltac:(lia) ltac:(lia) He).
    assert (2 ^ (now - 1) <= 2 ^ (w - 1)) by (apply Z.pow_le_mono_r; lia). lia. }
  assert (v <> 0) as Hv0 by (intros E; rewrite E in Hvo; done).
  assert (sign * v <> 0 /\ Z.odd (sign * v) = true /\ Z.abs (sign * v) < 2 ^ (w - 1)) as (Hs0 & Hso & Hsa).
  { destruct Hsign as [-> | ->]; [by rewrite Z.mul_1_l|]. rewrite Z.mul_comm, <- Z.opp_eq_mul_m1, Z.odd_opp, Z.abs_opp. split_and!; [lia|done|lia]. }
  destruct I as [_ _ Hlen Hsum Hlast Hgap _ Hhigh Hdig Hsep _].
  assert (Z.to_nat bit < length d)%nat as Hlt by lia.
  destruct (lookup_lt_is_Some_2 d (Z.to_nat bit) Hlt) as [u Hu]. assert (u = 0) as -> by (apply (Hhigh _ _ Hu); lia).
  assert (forall i t, <[Z.to_nat bit := sign * v]> d !! i = Some t -> i = Z.to_nat bit /\ t = sign * v \/ i <> Z.to_nat bit /\ d !! i = Some t) as Hlk.
  { intros i t. destruct (decide (i = Z.to_nat bit)) as [->|]; [rewrite list_lookup_insert_eq by done; intros [= <-]; by left|].
    rewrite list_lookup_insert_ne by done. by right. }
  split; try lia.
  - by rewrite length_insert.
  - rewrite (wsum_insert _ _ _ _ Hu), Hsum, field_split, Z2Nat.id by lia. rewrite Hv. unfold word.
    destruct Hnw as [-> |He]; [rewrite !Z.pow_add_r by lia; lia|]. rewrite (Hend He). lia.
  - right. exists (sign * v). by rewrite list_lookup_insert_eq.
  - intros i t [[-> ->]|[Hi Ht]]%Hlk Hbi; [lia|]. apply (Hhigh _ _ Ht). lia.
  - intros i t [[-> ->]|[Hi Ht]]%Hlk; [by right|]. by apply (Hdig i).
  - intros i j t t' Hij [[-> ->]|[Hi Ht]]%Hlk [[-> ->]|[Hj Ht']]%Hlk Hn0 Hn0'; [lia| | |by apply (Hsep i j t t')].
    + destruct Hn0'. apply (Hhigh _ _ Ht'). lia.
    + assert (Z.of_nat i <= last) as Hil by (destruct (decide (last < Z.of_nat i)); [by destruct Hn0; apply (Hhigh i)|lia]).
      lia.
Qed.
End Loop.

Lemma wnaf_loop_spec s sign w len : limbs_ok s -> 0 <= sval s < 2 ^ (len - 1) -> 2 <= w <= 31 -> len <= 256 ->
  sign = 1 \/ sign = -1 ->
  forall fuel bit carry last d, wnaf_inv (sval s) sign w len bit carry last d -> len - bit <= Z.of_nat fuel ->
  let '(d', last') := wnaf_loop fuel s sign w len bit carry d last in wnaf_inv (sval s) sign w len len 0 last' d'.
Proof.
  intros Hs Hx Hw Hl Hsg. induction fuel as [|fuel IH]; intros bit carry last d I Hf; cbn [wnaf_loop];
    pose proof (wi_bit _ _ _ _ _ _ _ _ I).
  { assert (bit = len) as -> by lia. by rewrite (wi_end _ _ _ _ _ _ _ _ I eq_refl) in I. }
  destruct (Z.ltb_spec bit len) as [Hb|Hb].
  2:{ assert (bit = len) as -> by lia. by rewrite (wi_end _ _ _ _ _ _ _ _ I eq_refl) in I. }
  rewrite get_bits_spec by (done || dlia). destruct (Z.eqb_spec (field (sval s) bit 1) carry) as [He|He].
  - apply IH; [|lia]. apply inv_skip; (done || lia).
  - cbv zeta. pose proof (inv_digit (sval s) sign w len Hx ltac:(lia) Hsg bit carry last d I Hb He) as I'. cbv zeta in I'.
    set (now := if len - bit <? w then len - bit else w) in *.
    assert (1 <= now <= w /\ bit + now <= len) as [Hn Hnl] by (subst now; destruct (Z.ltb_spec (len - bit) w); lia).
    rewrite get_bits_var_spec by (done || lia). apply IH; [exact I'|lia].
Qed.

Lemma wnaf_start x sign w len : 0 < len -> 
  wnaf_inv x sign w len 0 0 (-1) (replicate (Z.to_nat len) 0).
Proof.
  intros Hl. assert (forall i v, replicate (Z.to_nat len) 0 !! i = Some v -> v = 0) as Hz.
  { by intros i v [? _]%lookup_replicate. }
  split; try lia.
  - rewrite length_replicate. lia.
  - rewrite wsum_zero. change (2 ^ 0) with 1. rewrite Z.mod_1_r. lia.
  - intros i v ?%Hz. done.
  - intros i v ?%Hz. by left.
  - by intros i j u v _ ?%Hz.
Qed.

(** The number that the digits represent: the scalar, or its negative residue
    when the top bit is set. *)
Definition signed_scalar (a : scalar) : Z := if sval a <? 2 ^ 255 then sval a else sval a - order.

Lemma signed_scalar_mod a : scalar_ok a -> signed_scalar a mod order = sval a.
Proof.
  intros Ha. pose proof (scalar_ok_range a Ha). unfold signed_scalar. destruct (_ <? _); [by apply Z.mod_small|].
  replace (sval a - order) with (sval a + (-1) * order) by lia. rewrite Z.mod_add by done. by apply Z.mod_small.
Qed.

Lemma signed_scalar_bound a : scalar_ok a -> Z.abs (signed_scalar a) < 2 ^ 255.
Proof.
  intros Ha. pose proof (scalar_ok_range a Ha). unfold signed_scalar. unfold order in *. destruct (Z.ltb_spec (sval a) (2 ^ 255)); lia.
Qed.

(** What a caller of ecmult_wnaf relies on. *)
Record wnaf_ok (x w len n : Z) (d : list Z) : Prop := {
  wo_len : Z.of_nat (length d) = len;
  wo_sum : wsum d = x;
  wo_digit i v : d !! i = Some v -> v = 0 \/ Z.odd v = true /\ Z.abs v < 2 ^ (w - 1);
  wo_sep i j u v : (i < j)%nat -> d !! i = Some u -> d !! j = Some v -> u <> 0 -> v <> 0 -> Z.of_nat i + w <= Z.of_nat j;
  wo_range : 0 <= n <= len;
  wo_high i v : d !! i = Some v -> n <= Z.of_nat i -> v = 0;
  wo_top : n = 0 \/ exists v, d !! Z.to_nat (n - 1) = Some v /\ v <> 0;
}.

Lemma wnaf_spec len a w : scalar_ok a -> 2 <= w <= 31 -> len <= 256 -> Z.abs (signed_scalar a) < 2 ^ (len - 1) ->
  let '(d, n) := ecmult_wnaf len a w in wnaf_ok (signed_scalar a) w len n d.
Proof.
  intros Ha Hw Hl Hx. assert (0 < len) as Hl0.
  { destruct (decide (0 < len)); [done|]. rewrite Z.pow_neg_r in Hx by lia. lia. }
  pose proof (scalar_ok_range a Ha) as Hr. unfold ecmult_wnaf. rewrite get_bits_spec by (try apply Ha; done || dlia).
  assert (field (sval a) 255 1 = if sval a <? 2 ^ 255 then 0 else 1) as ->.
  { unfold field. change (2 ^ 1) with 2. unfold order in *. destruct (Z.ltb_spec (sval a) (2 ^ 255)).
    - by rewrite Z.div_small by lia.
    - replace (sval a / 2 ^ 255) with 1; [done|]. apply Z.div_unique with (sval a - 2 ^ 255); lia. }
  assert (exists s sign, (if negb ((if sval a <? 2 ^ 255 then 0 else 1) =? 0) then (scalar_negate a, -1) else (a, 1)) = (s, sign) /\
    limbs_ok s /\ 0 <= sval s < 2 ^ (len - 1) /\ (sign = 1 \/ sign = -1) /\ sign * sval s = signed_scalar a) as (s & sign & -> & Hs & Hsx & Hsg & Hv).
  { unfold signed_scalar in *. destruct (Z.ltb_spec (sval a) (2 ^ 255)); cbn [Z.eqb negb].
    - exists a, 1. split_and!; [done|apply Ha|lia..].
    - destruct (negate_spec a Ha) as [Hn Hnv]. exists (scalar_negate a), (-1).
      assert (sval (scalar_negate a) = order - sval a) as E.
      { rewrite Hnv. replace (- sval a) with (order - sval a + (-1) * order) by lia. rewrite Z.mod_add by done. apply Z.mod_small. lia. }
      rewrite E. split_and!; [done|apply Hn|lia..]. }
  pose proof (wnaf_loop_spec s sign w len Hs Hsx Hw Hl Hsg (Z.to_nat len) 0 0 (-1) _ (wnaf_start (sval s) sign w len Hl0) ltac:(lia)) as I.
  destruct (wnaf_loop _ _ _ _ _ _ _ _ _) as [d last]. destruct I as [_ _ Hlen Hsum Hlast Hgap Htop Hhigh Hdig Hsep _].
  split; [done| |exact Hdig|exact Hsep|lia| |].
  - rewrite Hsum, <- Hv. assert (2 ^ (len - 1) <= 2 ^ len) by (apply Z.pow_le_mono_r; lia). rewrite Z.mod_small by lia. lia.
  - intros i v Hi Hn. apply (Hhigh i v Hi). lia.
  - destruct Htop as [->|(v & Hv' & Hn)]; [by left|]. right. exists v. by replace (last + 1 - 1) with last by lia.
Qed.

(** ** Property *)

(** The digits of secp256k1_ecmult_wnaf add up to the scalar, taken with the
    sign that makes it short; each is zero or odd and below 2^(w-1), nonzero
    ones are at least [w] places apart, and the length returned is one past the
    last of them. *)
Theorem wnaf_correct len a w : scalar_ok a -> 2 <= w <= 30 -> len <= 256 -> Z.abs (signed_scalar a) < 2 ^ (len - 1) ->
  signed_scalar a mod order = sval a /\ let '(d, n) := ecmult_wnaf len a w in wnaf_ok (signed_scalar a) w len n d.
Proof.
  intros Ha Hw Hl Hx. split; [by apply signed_scalar_mod|]. apply wnaf_spec; [done|lia|done..].
Qed.

Lemma wnaf_correct_witness : let a := mkScalar 0 0 0 (2 ^ 63 + 5) in
  signed_scalar a mod order = sval a /\ let '(d, n) := ecmult_wnaf 256 a 5 in wnaf_ok (signed_scalar a) 5 256 n d.
Proof.
  intros a. assert (scalar_ok a) as Ha by (repeat split; by vm_compute).
  apply (wnaf_correct 256 a 5); [done|lia|lia|by vm_compute].
Defined.
