(* ===== verification/Ecmult.v ===== *)
(** * Double multiplication of points

    [secp256k1/src/ecmult_impl.h] with USE_ENDOMORPHISM undefined: tables of odd
    multiples, the context with the table of the generator and the interleaved
    (Strauss) evaluation of windowed digits.  Arrays are lists; an array that C
    leaves uninitialised is an argument. *)

From S2P Require Import Prelude Bytes Limbs Primality ModExp Scalar4x64 Field5x52 FieldImpl Group Wnaf.

Definition WINDOW_A : Z := 5.
Definition WINDOW_G : Z := 16.
Definition ECMULT_TABLE_SIZE (w : Z) : Z := Z.shiftl 1 (w - 2).
Definition table_a : nat := Z.to_nat (ECMULT_TABLE_SIZE WINDOW_A).
Definition table_g : nat := Z.to_nat (ECMULT_TABLE_SIZE WINDOW_G).

#[export] Instance ge_storage_inhabited : Inhabited ge_storage :=
  populate (mkGeS (mkFeS 0 0 0 0) (mkFeS 0 0 0 0)).

(** ** Tables of odd multiples *)

(** for (i = 1; i < n; i++): [k] rounds from [i], in the arrays from [o]. *)
Fixpoint odd_multiples_loop (k i o : nat) (d_ge : ge) (prej : list gej) (zr : list fe) : list gej * list fe :=
  match k with
  | O => (prej, zr)
  | S k =>
    let '(r, rzr) := gej_add_ge_var (prej !!! (o + i)%nat) (prej !!! (o + i - 1)%nat) d_ge in
    let zr := match rzr with Some z => <[(o + i)%nat := z]> zr | None => zr end in
    odd_multiples_loop k (S i) o d_ge (<[(o + i)%nat := r]> prej) zr
  end.

(** The arrays [prej + o] and [zr + o] of [n] entries; [d] is an uninitialised
    local, which the doubling of a finite [a] does not read. *)
Definition odd_multiples_table (n o : nat) (prej : list gej) (zr : list fe) (a : gej) : list gej * list fe :=
  let d := (gej_double_var gej_clear a).1 in
  let d_ge := mkGe (gej_x d) (gej_y d) false in
  let a_ge := ge_set_gej_zinv a (gej_z d) in
  let prej := <[o := mkGej (ge_x a_ge) (ge_y a_ge) (gej_z a) false]> prej in
  let zr := <[o := gej_z d]> zr in
  let '(prej, zr) := odd_multiples_loop (n - 1) 1 o d_ge prej zr in
  let l := prej !!! (o + n - 1)%nat in
  (<[(o + n - 1)%nat := mkGej (gej_x l) (gej_y l) (fe_mul (gej_z l) (gej_z d)) (gej_inf l)]> prej, zr).

Definition odd_multiples_table_globalz_windowa (prej : list gej) (zr : list fe) (pre : list ge) (globalz : fe) (a : gej)
    : list ge * fe :=
  let '(prej, zr) := odd_multiples_table table_a 0 prej zr a in
  ge_globalz_set_table_gej pre globalz prej zr.

(** The arrays from malloc are [prej], [prea] and [zr]. *)
Definition odd_multiples_table_storage_var (prej : list gej) (prea : list ge) (zr : list fe) (n : nat) (a : gej)
    : list ge_storage :=
  let '(prej, zr) := odd_multiples_table n 0 prej zr a in
  ge_to_storage <$> ge_set_table_gej_var prea prej zr.

(** ECMULT_TABLE_GET_GE and ECMULT_TABLE_GET_GE_STORAGE: the odd multiple [n]. *)
Definition ECMULT_TABLE_GET_GE (pre : list ge) (n : Z) : ge :=
  if 0 <? n then pre !!! Z.to_nat ((n - 1) / 2) else ge_neg (pre !!! Z.to_nat ((- n - 1) / 2)).

Definition ECMULT_TABLE_GET_GE_STORAGE (pre : list ge_storage) (n : Z) : ge :=
  if 0 <? n then ge_from_storage (pre !!! Z.to_nat ((n - 1) / 2))
  else ge_neg (ge_from_storage (pre !!! Z.to_nat ((- n - 1) / 2))).

(** ** The context *)

(** secp256k1_ecmult_context: pre_g is NULL or the table. *)
Record ecmult_context := mkEcmult { pre_g : option (list ge_storage) }.

Definition ecmult_context_init : ecmult_context := mkEcmult None.

Definition ecmult_context_build (prej : list gej) (prea : list ge) (zr : list fe) (ctx : ecmult_context) : ecmult_context :=
  match pre_g ctx with
  | Some _ => ctx
  | None => mkEcmult (Some (odd_multiples_table_storage_var prej prea zr table_g (gej_set_ge ge_const_g)))
  end.

Definition ecmult_context_clone (src : ecmult_context) : ecmult_context := mkEcmult (pre_g src).
Definition ecmult_context_is_built (ctx : ecmult_context) : bool := if pre_g ctx then true else false.
Definition ecmult_context_clear (ctx : ecmult_context) : ecmult_context := ecmult_context_init.

(** ** Strauss' algorithm *)

(** struct secp256k1_strauss_point_state *)
Record strauss_point_state := mkPS { wnaf_na : list Z; bits_na : Z; input_pos : nat }.

(** The arrays of struct secp256k1_strauss_state that hold points. *)
Record strauss_state := mkStrauss { st_prej : list gej; st_zr : list fe; st_pre_a : list ge }.

(** for (np = 0; np < num; ++np): the points that take part, their digits, and
    the number of digits of the longest. *)
Fixpoint strauss_points (np : nat) (l : list (gej * scalar)) (ps : list strauss_point_state) (bits : Z)
    : list strauss_point_state * Z :=
  match l with
  | [] => (ps, bits)
  | (a, na) :: l =>
    if scalar_is_zero na || gej_is_infinity a then strauss_points (S np) l ps bits
    else
      let '(d, b) := ecmult_wnaf 256 na WINDOW_A in
      strauss_points (S np) l (ps ++ [mkPS d b np]) (if bits <? b then b else bits)
  end.

(** for (np = 1; np < no; ++np): tables of the further points on the curve the
    previous table ended with. *)
Fixpoint strauss_tables (np : nat) (ps : list strauss_point_state) (a : list gej) (prej : list gej) (zr : list fe)
    : list gej * list fe :=
  match ps with
  | [] => (prej, zr)
  | p :: ps =>
    let tmp := gej_rescale (a !!! input_pos p) (gej_z (prej !!! (np * table_a - 1)%nat)) in
    let '(prej, zr) := odd_multiples_table table_a (np * table_a) prej zr tmp in
    let zr := <[(np * table_a)%nat := fe_mul (zr !!! (np * table_a)%nat) (gej_z (a !!! input_pos p))]> zr in
    strauss_tables (S np) ps a prej zr
  end.

(** The tables of all points with the same denominator. *)
Definition strauss_pre_a (st : strauss_state) (ps : list strauss_point_state) (a : list gej) : list ge * fe :=
  match ps with
  | [] => (st_pre_a st, fe_set_int 1)
  | p :: ps' =>
    let '(prej, zr) := odd_multiples_table table_a 0 (st_prej st) (st_zr st) (a !!! input_pos p) in
    let '(prej, zr) := strauss_tables 1 ps' a prej zr in
    ge_globalz_set_table_gej (st_pre_a st) fe_clear (take (table_a * length ps) prej) zr
  end.

(** The digit [i], added if it is set and not zero. *)
Fixpoint strauss_add_points (i : Z) (np : nat) (ps : list strauss_point_state) (pre_a : list ge) (r : gej) : gej :=
  match ps with
  | [] => r
  | p :: ps =>
    let n := wnaf_na p !!! Z.to_nat i in
    let r := if (i <? bits_na p) && negb (n =? 0)
      then (gej_add_ge_var r r (ECMULT_TABLE_GET_GE (drop (np * table_a) pre_a) n)).1 else r in
    strauss_add_points i (S np) ps pre_a r
  end.

(** for (i = bits - 1; i >= 0; i--) *)
Fixpoint strauss_loop (bits : nat) (ps : list strauss_point_state) (pre_a : list ge) (table : list ge_storage)
    (wnaf_ng : list Z) (bits_ng : Z) (gz : fe) (r : gej) : gej :=
  match bits with
  | O => r
  | S i =>
    let r := (gej_double_var r r).1 in
    let r := strauss_add_points (Z.of_nat i) 0 ps pre_a r in
    let n := wnaf_ng !!! i in
    let r := if (Z.of_nat i <? bits_ng) && negb (n =? 0)
      then gej_add_zinv_var r r (ECMULT_TABLE_GET_GE_STORAGE table n) gz else r in
    strauss_loop i ps pre_a table wnaf_ng bits_ng gz r
  end.

(** [ng] may be NULL; the digits of the generator's factor are then not read,
    and neither is the table. *)
Definition ecmult_strauss_wnaf (ctx : ecmult_context) (st : strauss_state) (a : list gej) (na : list scalar)
    (ng : option scalar) : gej :=
  let '(ps, bits) := strauss_points 0 (zip a na) [] 0 in
  let '(pre_a, gz) := strauss_pre_a st ps a in
  let '(wnaf_ng, bits_ng) := match ng with Some ng => ecmult_wnaf 256 ng WINDOW_G | None => ([], 0) end in
  let bits := if bits <? bits_ng then bits_ng else bits in
  let r := strauss_loop (Z.to_nat bits) ps pre_a (default [] (pre_g ctx)) wnaf_ng bits_ng gz gej_set_infinity in
  if gej_inf r then r else mkGej (gej_x r) (gej_y r) (fe_mul (gej_z r) gz) (gej_inf r).

(** secp256k1_ecmult: r = na * a + ng * G; the arrays are locals. *)
Definition ecmult (ctx : ecmult_context) (st : strauss_state) (a : gej) (na ng : scalar) : gej :=
  ecmult_strauss_wnaf ctx st [a] [na] (Some ng).
