(* ===== verification/EcmultTable.v ===== *)
(** * Tables of odd multiples hold odd multiples

    The tables are computed on curves isomorphic to the one of secp256k1, on
    which some point is affine; here the isomorphisms, and what the tables hold
    in their three forms (Jacobian, common denominator, affine). *)

From Stdlib Require Import Zmod Ring Field.
From S2P Require Import Prelude Bytes Limbs Primality Curve CurveGroup CurveOrder ModExp Scalar4x64 Field5x52 FieldImpl Group GroupLaw Wnaf Ecmult.

(** ** Isomorphic curves *)

Definition iso (u : fld) (P : point) : point :=
  match P with None => None | Some (x, y) => Some (x * (u * u), y * (u * u * u))%F end.

Lemma iso_ordinary u P : u <> 0%F -> ordinary P -> ordinary (iso u P).
Proof. destruct P as [[x y]|]; [|done]. intros Hu Hy. cbn. by repeat apply fld_mul_nz. Qed.

Lemma iso_pneg u P : iso u (pneg P) = pneg (iso u P).
Proof. destruct P as [[x y]|]; [|done]. cbn. do 2 f_equal. ring. Qed.

Lemma fld_eqb_scale (c a b : fld) : c <> 0%F -> Zmod.eqb (a * c)%F (b * c)%F = Zmod.eqb a b.
Proof.
  intros Hc. apply eq_iff_eq_true. rewrite !fld_eqb. split; [|by intros ->]. intros E.
  apply (fld_cancel c); [done|]. transitivity (a * c)%F; [ring|]. rewrite E. ring.
Qed.

(** The chord-and-tangent law does not see the constant of the curve. *)
Lemma iso_padd u P Q : u <> 0%F -> ordinary P -> iso u (padd P Q) = padd (iso u P) (iso u Q).
Proof.
  intros Hu HP. destruct P as [[x1 y1]|], Q as [[x2 y2]|]; [|done..]. cbn [iso]. unfold padd.
  assert (u * u <> 0 /\ u * u * u <> 0)%F as [Hu2 Hu3] by (split; by repeat apply fld_mul_nz).
  rewrite !fld_eqb_scale by done. destruct (Zmod.eqb x1 x2) eqn:Hx.
  - destruct (Zmod.eqb y1 y2) eqn:Hy; [|done]. apply fld_eqb in Hx, Hy. subst x2 y2. cbn in HP.
    assert (2 * y1 <> 0)%F as Hd by (apply fld_mul_nz; [apply fld_2|done]).
    assert (2 * (y1 * (u * u * u)) <> 0)%F as Hd' by (apply fld_mul_nz; [apply fld_2|by apply fld_mul_nz]).
    pose proof (slope_mul (3 * x1 * x1) (2 * y1) Hd)%F as Hl.
    assert (3 * (x1 * (u * u)) * (x1 * (u * u)) / (2 * (y1 * (u * u * u))) = 3 * x1 * x1 / (2 * y1) * u)%F as ->.
    { apply (fld_cancel _ _ _ Hd'). rewrite Zmod.mul_comm, slope_mul by done.
      transitivity (3 * x1 * x1 / (2 * y1) * (2 * y1) * (u * u * u * u))%F; [rewrite Hl|]; ring. }
    unfold chord. cbv zeta. cbn [iso]. do 2 f_equal; ring.
  - apply fld_eqb_false in Hx. pose proof (fld_sub_nz _ _ (not_eq_sym Hx)) as Hd.
    pose proof (slope_mul (y2 - y1) (x2 - x1) Hd)%F as Hl.
    assert (x2 * (u * u) - x1 * (u * u) <> 0)%F as Hd'.
    { replace (x2 * (u * u) - x1 * (u * u))%F with ((x2 - x1) * (u * u))%F by ring. by apply fld_mul_nz. }
    assert ((y2 * (u * u * u) - y1 * (u * u * u)) / (x2 * (u * u) - x1 * (u * u)) = (y2 - y1) / (x2 - x1) * u)%F as ->.
    { apply (fld_cancel _ _ _ Hd'). rewrite Zmod.mul_comm, slope_mul by done.
      transitivity ((y2 - y1) / (x2 - x1) * (x2 - x1) * (u * u * u))%F; [rewrite Hl|]; ring. }
    unfold chord. cbv zeta. cbn [iso]. do 2 f_equal; ring.
Qed.

(** A Jacobian element of the isomorphic curve is one of the curve with its z
    coordinate multiplied. *)
Lemma gej_rep_iso x y z z' i u P : gej_rep (mkGej x y z i) (iso u P) -> u <> 0%F -> F z' = (F z * u)%F -> gej_rep (mkGej x y z' i) P.
Proof.
  destruct P as [[a b]|]; [|done]. cbn [iso gej_rep gej_x gej_y gej_z gej_inf]. intros (Hi & Hz & HX & HY) Hu ->.
  split; [done|]. split; [by apply fld_mul_nz|]. rewrite HX, HY. split; ring.
Qed.

(** The scaling of an element by [zi], whatever it stands for. *)
Lemma set_gej_zinv_raw a zi : gej_mag a -> fe_mag 8 zi ->
  let r := ge_set_gej_zinv a zi in ge_mag r /\ ge_inf r = gej_inf a /\
  F (ge_x r) = (F (gej_x a) * (F zi * F zi))%F /\ F (ge_y r) = (F (gej_y a) * (F zi * F zi * F zi))%F.
Proof.
  intros (Rx & Ry & _) Rz. apply rep_F in Rx, Ry, Rz. unfold ge_set_gej_zinv. cbv zeta. fe_steps.
  cbn [ge_x ge_y ge_inf]. repeat match goal with H : rep _ ?v _ |- context [?v] => destruct H as [? H] end.
  split; [split; by eapply fe_mag_weaken|]. done.
Qed.

(** ** The odd multiples *)

Definition odd_multiple (P : point) (i : nat) : point := zmul (2 * Z.of_nat i + 1) P.

Lemma odd_multiple_0 P : odd_multiple P 0 = P.
Proof. done. Qed.

Lemma odd_multiple_S P i : on_curve P -> odd_multiple P (S i) = padd (odd_multiple P i) (padd P P).
Proof.
  intros HP. unfold odd_multiple. change (padd P P) with (zmul 2 P). rewrite <- zmul_add by done. f_equal. lia.
Qed.

Lemma odd_multiple_on_curve P i : on_curve P -> on_curve (odd_multiple P i).
Proof. apply zmul_on_curve. Qed.
#[export] Hint Resolve odd_multiple_on_curve : core.

Lemma zmul_finite k P : on_curve P -> P <> None -> 0 < k < order -> zmul k P <> None.
Proof.
  intros HP Hn Hk H0. apply (zmul_eq_none order k P prime_order HP (curve_order P HP) Hn) in H0.
  rewrite Z.mod_small in H0 by lia. lia.
Qed.

Lemma odd_multiple_finite P i : on_curve P -> P <> None -> Z.of_nat i < 2 ^ 20 -> odd_multiple P i <> None.
Proof.
  intros HP Hn Hi. apply zmul_finite; [done..|]. unfold order. lia.
Qed.

(** The entries [o], ..., [o + n - 1]: the [i]-th stands for the [i]-th odd
    multiple on the curve moved by [u], and zr has the ratios of the z's. *)
Record mchain (o n : nat) (u : fld) (P : point) (prej : list gej) (zr : list fe) : Prop := {
  ch_entry i : (i < n)%nat -> gej_mag (prej !!! (o + i)%nat) /\ gej_rep (prej !!! (o + i)%nat) (iso u (odd_multiple P i)) /\
    gej_inf (prej !!! (o + i)%nat) = false;
  ch_mag i : (i < n)%nat -> fe_mag 8 (zr !!! (o + i)%nat);
  ch_ratio i : (S i < n)%nat ->
    F (gej_z (prej !!! (o + S i)%nat)) = (F (gej_z (prej !!! (o + i)%nat)) * F (zr !!! (o + S i)%nat))%F;
}.

Lemma gej_inf_finite a P : gej_rep a P -> gej_inf a = false <-> P <> None.
Proof. destruct P as [[x y]|]; cbn; [intros [-> _]; by split|intros ->; by split]. Qed.

Lemma iso_finite u P : iso u P <> None <-> P <> None.
Proof. by destruct P as [[]|]. Qed.

(** What the result variable held before matters only to an infinite sum. *)
Lemma gej_add_ge_var_junk r a b : gej_inf a = false -> gej_inf (gej_add_ge_var gej_clear a b).1 = false ->
  gej_add_ge_var r a b = gej_add_ge_var gej_clear a b.
Proof.
  intros Ha. unfold gej_add_ge_var, gej_double_var. rewrite Ha. destruct (ge_inf b); [done|]. cbv zeta.
  destruct (fe_normalizes_to_zero_var _); [|done]. by destruct (fe_normalizes_to_zero_var _).
Qed.

Lemma odd_multiples_loop_spec k n o u P d_ge prej zr : (1 <= n)%nat -> Z.of_nat (n + k) < 2 ^ 20 ->
  (o + n + k <= length prej)%nat -> (o + n + k <= length zr)%nat ->
  on_curve P -> P <> None -> u <> 0%F -> ge_mag d_ge -> ge_rep d_ge (iso u (padd P P)) -> mchain o n u P prej zr ->
  let '(prej', zr') := odd_multiples_loop k n o d_ge prej zr in
  mchain o (n + k) u P prej' zr' /\ length prej' = length prej /\ length zr' = length zr /\
  (forall j, (j < o + n)%nat -> prej' !!! j = prej !!! j /\ zr' !!! j = zr !!! j) /\
  (forall j, (o + n + k <= j)%nat -> prej' !!! j = prej !!! j /\ zr' !!! j = zr !!! j).
Proof.
  revert n prej zr. induction k as [|k IH]; intros n prej zr Hn Hb Hlp Hlz HP HPn Hu Hdm Hdr I; cbn [odd_multiples_loop].
  { rewrite Nat.add_0_r. done. }
  replace (o + n - 1)%nat with (o + (n - 1))%nat by lia.
  destruct (ch_entry _ _ _ _ _ _ I (n - 1)) as (Hm & Hr & Hi); [lia|].
  assert (gej_mag gej_clear) as Hcl by (by repeat split).
  pose proof (gej_add_ge_var_junk (prej !!! (o + n)%nat) (prej !!! (o + (n - 1))%nat) d_ge Hi) as Hjunk.
  pose proof (gej_add_ge_var_spec gej_clear (prej !!! (o + (n - 1))%nat) d_ge _ _ Hcl Hm Hdm Hr Hdr
    (iso_ordinary _ _ Hu (on_curve_ordinary _ (odd_multiple_on_curve P _ HP)))) as Hadd.
  destruct (gej_add_ge_var gej_clear _ _) as [r w]. destruct Hadd as (Hrm & Hrr & Hw).
  rewrite <- iso_padd, <- odd_multiple_S in Hrr by auto. replace (S (n - 1)) with n in Hrr by lia.
  assert (gej_inf r = false) as Hri.
  { apply (gej_inf_finite _ _ Hrr), iso_finite, odd_multiple_finite; [done..|lia]. }
  rewrite (Hjunk Hri). destruct (Hw Hi Hri) as (v & -> & Hv & Hz).
  specialize (IH (S n) (<[(o + n)%nat := r]> prej) (<[(o + n)%nat := v]> zr)).
  rewrite !length_insert in IH. replace (n + S k)%nat with (S n + k)%nat by lia.
  assert (mchain o (S n) u P (<[(o + n)%nat := r]> prej) (<[(o + n)%nat := v]> zr)) as I'.
  { split; intros i Hin.
    - destruct (decide (i = n)) as [->|]; [rewrite list_lookup_total_insert_eq by lia; done|].
      rewrite list_lookup_total_insert_ne by lia. apply (ch_entry _ _ _ _ _ _ I). lia.
    - destruct (decide (i = n)) as [->|]; [rewrite list_lookup_total_insert_eq by lia; done|].
      rewrite list_lookup_total_insert_ne by lia. apply (ch_mag _ _ _ _ _ _ I). lia.
    - destruct (decide (S i = n)) as [<-|].
      + rewrite !list_lookup_total_insert_eq, list_lookup_total_insert_ne by lia. replace (o + (S i - 1))%nat with (o + i)%nat in Hz by lia. done.
      + rewrite !list_lookup_total_insert_ne by lia. apply (ch_ratio _ _ _ _ _ _ I). lia. }
  specialize (IH ltac:(lia) ltac:(lia) ltac:(lia) ltac:(lia) HP HPn Hu Hdm Hdr I').
  replace (S n + k)%nat with (n + S k)%nat in * by lia.
  destruct (odd_multiples_loop k (S n) o d_ge _ _) as [prej' zr']. destruct IH as (H1 & H2 & H3 & H5 & H6).
  split; [done|]. split; [done|]. split; [done|]. split; intros j Hj.
  - destruct (H5 j ltac:(lia)) as [-> ->]. by rewrite !list_lookup_total_insert_ne by lia.
  - destruct (H6 j ltac:(lia)) as [-> ->]. by rewrite !list_lookup_total_insert_ne by lia.
Qed.

(** [g] stands for [P] if its z coordinate is read as [z]. *)
Definition scaled (g : gej) (z : fld) (P : point) : Prop :=
  match P with
  | None => False
  | Some (x, y) => gej_inf g = false /\ z <> 0%F /\ F (gej_x g) = (x * (z * z))%F /\ F (gej_y g) = (y * (z * z * z))%F
  end.

(** A finished table: only the last z coordinate is the true one, the others
    follow from it and the ratios. *)
Record mtable (o n : nat) (zeta : nat -> fld) (P : point) (prej : list gej) (zr : list fe) : Prop := {
  mt_entry i : (i < n)%nat -> gej_mag (prej !!! (o + i)%nat) /\ scaled (prej !!! (o + i)%nat) (zeta i) (odd_multiple P i);
  mt_mag i : (i < n)%nat -> fe_mag 8 (zr !!! (o + i)%nat);
  mt_ratio i : (S i < n)%nat -> zeta (S i) = (zeta i * F (zr !!! (o + S i)%nat))%F;
  mt_last : F (gej_z (prej !!! (o + (n - 1))%nat)) = zeta (n - 1)%nat;
}.

Lemma scaled_iso g u P : gej_rep g (iso u P) -> gej_inf g = false -> u <> 0%F -> scaled g (F (gej_z g) * u)%F P.
Proof.
  destruct P as [[x y]|]; [|cbn; congruence]. cbn. intros (_ & Hz & HX & HY) Hi Hu. rewrite HX, HY.
  split; [done|]. split; [by apply fld_mul_nz|]. split; ring.
Qed.

Lemma gej_double_finite a P : gej_mag a -> gej_rep a P -> on_curve P -> P <> None ->
  exists x y, padd P P = Some (x, y) /\ gej_mag (gej_double_var gej_clear a).1 /\
    scaled (gej_double_var gej_clear a).1 (F (gej_z (gej_double_var gej_clear a).1)) (padd P P).
Proof.
  intros Ha HP Hc Hn. assert (gej_mag gej_clear) as Hcl by (by repeat split).
  pose proof (gej_double_spec gej_clear a P Hcl Ha HP (on_curve_ordinary _ Hc)) as H.
  assert (gej_inf (gej_double_var gej_clear a).1 = false) as Hi.
  { unfold gej_double_var. destruct P as [[x y]|]; [|done]. by destruct HP as (-> & _). }
  destruct (gej_double_var gej_clear a) as [d w]. destruct H as (Hm & Hr & _). cbn [fst] in *.
  destruct (padd P P) as [[x y]|]; [|cbn in Hr; congruence]. exists x, y. by destruct Hr as (_ & ? & ? & ?).
Qed.

Lemma odd_multiples_table_spec n o prej zr a P : (1 <= n)%nat -> Z.of_nat n < 2 ^ 20 ->
  (o + n <= length prej)%nat -> (o + n <= length zr)%nat ->
  gej_mag a -> gej_rep a P -> on_curve P -> P <> None ->
  let '(prej', zr') := odd_multiples_table n o prej zr a in
  exists zeta, mtable o n zeta P prej' zr' /\ zeta 0%nat = (F (gej_z a) * F (zr' !!! o))%F /\
  length prej' = length prej /\ length zr' = length zr /\
  (forall j, (j < o)%nat \/ (o + n <= j)%nat -> prej' !!! j = prej !!! j /\ zr' !!! j = zr !!! j).
Proof.
  intros Hn Hb Hlp Hlz Ha HP Hc HPn. unfold odd_multiples_table. cbv zeta.
  destruct (gej_double_finite a P Ha HP Hc HPn) as (x2 & y2 & E2 & Hdm & Hds). set (d := (gej_double_var gej_clear a).1) in *.
  rewrite E2 in Hds. destruct Hds as (Hdi & Hdz & HdX & HdY). set (u := F (gej_z d)) in *.
  destruct Hdm as (Hdx & Hdy & Hdzm).
  assert (exists x y, P = Some (x, y)) as (x & y & EP) by (destruct P as [[x y]|]; [by exists x, y|done]).
  pose proof HP as HP'. rewrite EP in HP'. destruct HP' as (Hai & Haz & HaX & HaY).
  set (a_ge := ge_set_gej_zinv a (gej_z d)).
  destruct (set_gej_zinv_raw a (gej_z d) Ha Hdzm) as (Hagm & _ & Hagx & Hagy). fold a_ge u in Hagm, Hagx, Hagy.
  clearbody a_ge. set (p0 := mkGej (ge_x a_ge) (ge_y a_ge) (gej_z a) false). destruct Hagm as [Hagxm Hagym].
  assert (gej_mag p0 /\ gej_rep p0 (iso u P)) as [Hp0m Hp0r].
  { split; [by split_and!; [..|apply Ha]|]. rewrite EP. cbn. split; [done|]. split; [done|]. rewrite Hagx, Hagy, HaX, HaY. split; ring. }
  pose proof (odd_multiples_loop_spec (n - 1) 1 o u P (mkGe (gej_x d) (gej_y d) false) (<[o := p0]> prej) (<[o := gej_z d]> zr)) as HL.
  rewrite !length_insert in HL. replace (1 + (n - 1))%nat with n in HL by lia.
  assert (mchain o 1 u P (<[o := p0]> prej) (<[o := gej_z d]> zr)) as I0.
  { split; intros i Hi; [..|lia]; assert (i = 0)%nat as -> by lia; rewrite Nat.add_0_r, list_lookup_total_insert_eq by lia.
    - by rewrite odd_multiple_0.
    - done. }
  specialize (HL ltac:(lia) Hb ltac:(lia) ltac:(lia)). specialize (HL Hc HPn Hdz).
  specialize (HL ltac:(by split)). rewrite E2 in HL. specialize (HL ltac:(by split_and!) I0).
  destruct (odd_multiples_loop _ _ _ _ _ _) as [prej' zr']. destruct HL as (I & HL1 & HL2 & HL4 & HL5).
  replace (o + n - 1)%nat with (o + (n - 1))%nat by lia. set (l := prej' !!! (o + (n - 1))%nat).
  destruct (ch_entry _ _ _ _ _ _ I (n - 1)) as (Hlm & Hlr & Hli); [lia|]. fold l in Hlm, Hlr, Hli.
  destruct (HL4 o ltac:(lia)) as [Ho Hzo]. rewrite list_lookup_total_insert_eq in Ho by lia. rewrite list_lookup_total_insert_eq in Hzo by lia.
  set (lz := fe_mul (gej_z l) (gej_z d)).
  assert (rep 1 lz (F (gej_z l) * u)%F) as [Hlzm Hlz'].
  { apply (rep_mul 8 8); [by apply rep_F, Hlm|by apply rep_F|lia..]. }
  set (l' := mkGej (gej_x l) (gej_y l) lz (gej_inf l)).
  assert (gej_mag l') as Hl'm by (destruct Hlm as (? & ? & _); repeat split; try done; by eapply fe_mag_weaken).
  exists (fun i => F (gej_z (prej' !!! (o + i)%nat)) * u)%F. split; [|split; [|split; [|split; [done|]]]].
  - split.
    + intros i Hi. destruct (decide (i = n - 1)%nat) as [->|Hne].
      * rewrite list_lookup_total_insert_eq by lia. split; [done|].
        pose proof (scaled_iso l u _ Hlr Hli Hdz) as Hs. fold l. by destruct (odd_multiple P (n - 1)) as [[]|].
      * rewrite list_lookup_total_insert_ne by lia. destruct (ch_entry _ _ _ _ _ _ I i Hi) as (? & ? & ?).
        split; [done|]. by apply scaled_iso.
    + apply (ch_mag _ _ _ _ _ _ I).
    + intros i Hi. rewrite (ch_ratio _ _ _ _ _ _ I i Hi). ring.
    + rewrite list_lookup_total_insert_eq by lia. exact Hlz'.
  - rewrite Nat.add_0_r, Ho, Hzo. done.
  - by rewrite length_insert, HL1.
  - intros j Hj. destruct (decide (j < o)%nat) as [Hlt|Hge].
    + destruct (HL4 j ltac:(lia)) as [E1 E3]. rewrite list_lookup_total_insert_ne, E1, E3 by lia.
      by rewrite !list_lookup_total_insert_ne by lia.
    + destruct (HL5 j ltac:(lia)) as [E1 E3]. rewrite list_lookup_total_insert_ne, E1, E3 by lia.
      by rewrite !list_lookup_total_insert_ne by lia.
Qed.

(** ** The table with one denominator and the affine table *)

Lemma scaled_zinv g z P zi : gej_mag g -> fe_mag 8 zi -> scaled g z P ->
  ge_mag (ge_set_gej_zinv g zi) /\ ge_rep (ge_set_gej_zinv g zi) (iso (z * F zi) P).
Proof.
  intros Hg Hz HP. destruct (set_gej_zinv_raw g zi Hg Hz) as (Hm & Hi & HX & HY). split; [done|].
  destruct P as [[x y]|]; [|done]. destruct HP as (Hgi & _ & Hx & Hy). cbn [ge_rep iso]. rewrite Hi, HX, HY, Hx, Hy.
  split; [done|]. split; ring.
Qed.

Lemma iso_1 P : iso 1%F P = P.
Proof. destruct P as [[x y]|]; [|done]. cbn. do 2 f_equal; ring. Qed.

Section FromTable.
Context (n : nat) (zeta : nat -> fld) (P : point) (a : list gej) (zr : list fe).
Hypothesis HT : mtable 0 n zeta P a zr.
Hypothesis Hn : length a = n.

Lemma table_entry i : (i < n)%nat -> gej_mag (a !!! i) /\ scaled (a !!! i) (zeta i) (odd_multiple P i).
Proof. apply (mt_entry _ _ _ _ _ _ HT). Qed.

Lemma globalz_loop_spec i zs r : (i < n)%nat -> length r = n -> fe_mag 8 zs -> (i = n - 1 -> zs = zr !!! i)%nat ->
  ((i < n - 1)%nat -> (zeta i * F zs)%F = zeta (n - 1)%nat) ->
  let r' := globalz_loop i n zs r a zr in
  (forall j, (j < i)%nat -> ge_mag (r' !!! j) /\ ge_rep (r' !!! j) (iso (zeta (n - 1)%nat) (odd_multiple P j))) /\
  (forall j, (i <= j)%nat -> r' !!! j = r !!! j) /\ length r' = n.
Proof.
  revert zs r. induction i as [|i IH]; intros zs r Hi Hr Hzs Hfirst Hlater; cbn [globalz_loop]; [split_and!; auto with lia|].
  set (zs' := if decide (S i = pred n) then zs else fe_mul zs (zr !!! S i)).
  assert (fe_mag 8 zs' /\ (zeta i * F zs')%F = zeta (n - 1)%nat) as [Hm Hz].
  { pose proof (mt_ratio _ _ _ _ _ _ HT i Hi) as Hrat. cbn [plus] in Hrat. subst zs'. destruct (decide (S i = pred n)) as [E|E].
    - rewrite Hfirst in Hzs |- * by lia. split; [done|]. rewrite <- Hrat. f_equal. lia.
    - pose proof (mt_mag _ _ _ _ _ _ HT (S i) Hi) as Hzm. cbn [plus] in Hzm.
      destruct (rep_mul 8 8 _ _ _ _ (rep_F _ _ Hzs) (rep_F _ _ Hzm)) as [? Hv]; [lia..|].
      split; [by eapply fe_mag_weaken|]. rewrite Hv, <- Hlater, Hrat by lia. ring. }
  destruct (table_entry i ltac:(lia)) as [Hgm Hgs]. destruct (scaled_zinv _ _ _ zs' Hgm Hm Hgs) as [Hem Her]. rewrite Hz in Her.
  destruct (IH zs' (<[i := ge_set_gej_zinv (a !!! i) zs']> r)) as (H1 & H2 & H3); [lia|by rewrite length_insert|done|lia|done|].
  split; [|split; [|done]].
  - intros j Hj. destruct (decide (j = i)) as [->|]; [|apply H1; lia]. rewrite H2, list_lookup_total_insert_eq by lia. done.
  - intros j Hj. by rewrite H2, list_lookup_total_insert_ne by lia.
Qed.

Lemma globalz_spec r gz : (1 <= n)%nat -> length r = n ->
  let '(r', gz') := ge_globalz_set_table_gej r gz a zr in
  fe_mag 8 gz' /\ F gz' <> 0%F /\ length r' = n /\
  forall i, (i < n)%nat -> ge_mag (r' !!! i) /\ ge_rep (r' !!! i) (iso (F gz') (odd_multiple P i)).
Proof.
  intros H1 Hr. unfold ge_globalz_set_table_gej. assert (length a = S (n - 1)) as El by lia. rewrite El.
  pose proof (mt_last _ _ _ _ _ _ HT) as HL. cbn [plus] in HL. set (i := (n - 1)%nat) in *. replace (S i) with n by lia.
  destruct (table_entry i ltac:(lia)) as [(Hmx & Hmy & Hmz) Hs].
  set (r0 := <[i := _]> r). pose proof (globalz_loop_spec i (zr !!! i) r0) as HG. cbv zeta in HG.
  destruct HG as (G1 & G2 & G3); [lia|by unfold r0; rewrite length_insert|exact (mt_mag _ _ _ _ _ _ HT i ltac:(lia))|done|intros; exfalso; lia|].
  fold i in G1. rewrite HL. split; [done|]. split; [|split; [done|]].
  { destruct (odd_multiple P i) as [[]|]; [|done]. by destruct Hs as (_ & ? & _). }
  intros j Hj. destruct (decide (j = i)) as [->|]; [|apply G1; lia]. rewrite G2 by lia. unfold r0.
  rewrite list_lookup_total_insert_eq by lia. split; [done|].
  destruct (odd_multiple P i) as [[x y]|]; [|done]. by destruct Hs as (_ & _ & ? & ?).
Qed.

Lemma set_table_loop_spec i zi r : (i < n)%nat -> length r = n -> fe_mag 8 zi -> (zeta i * F zi = 1)%F ->
  let r' := set_table_loop i zi r a zr in
  (forall j, (j < i)%nat -> ge_mag (r' !!! j) /\ ge_rep (r' !!! j) (odd_multiple P j)) /\
  (forall j, (i <= j)%nat -> r' !!! j = r !!! j) /\ length r' = n.
Proof.
  revert zi r. induction i as [|i IH]; intros zi r Hi Hr Hzi H1; cbn [set_table_loop]; [split_and!; auto with lia|].
  pose proof (mt_mag _ _ _ _ _ _ HT (S i) Hi) as Hzm. pose proof (mt_ratio _ _ _ _ _ _ HT i Hi) as Hrat. cbn [plus] in Hzm, Hrat.
  destruct (rep_mul 8 8 _ _ _ _ (rep_F _ _ Hzi) (rep_F _ _ Hzm)) as [Hm Hv]; [lia..|]. set (zi' := fe_mul zi (zr !!! S i)) in *.
  assert (fe_mag 8 zi') as Hm8 by (by eapply fe_mag_weaken).
  assert (zeta i * F zi' = 1)%F as Hz by (rewrite Hv, <- H1, Hrat; ring).
  destruct (table_entry i ltac:(lia)) as [Hgm Hgs]. destruct (scaled_zinv _ _ _ zi' Hgm Hm8 Hgs) as [Hem Her]. rewrite Hz, iso_1 in Her.
  destruct (IH zi' (<[i := ge_set_gej_zinv (a !!! i) zi']> r)) as (G1 & G2 & G3); [lia|by rewrite length_insert|done..|].
  split; [|split; [|done]].
  - intros j Hj. destruct (decide (j = i)) as [->|]; [|apply G1; lia]. rewrite G2, list_lookup_total_insert_eq by lia. done.
  - intros j Hj. by rewrite G2, list_lookup_total_insert_ne by lia.
Qed.

Lemma set_table_spec r : (1 <= n)%nat -> length r = n ->
  let r' := ge_set_table_gej_var r a zr in
  length r' = n /\ forall i, (i < n)%nat -> ge_mag (r' !!! i) /\ ge_rep (r' !!! i) (odd_multiple P i).
Proof.
  intros H1 Hr. unfold ge_set_table_gej_var. assert (length a = S (n - 1)) as El by lia. rewrite El. cbv zeta.
  pose proof (mt_last _ _ _ _ _ _ HT) as HL. cbn [plus] in HL. set (i := (n - 1)%nat) in *.
  destruct (table_entry i ltac:(lia)) as [Hgm Hs].
  destruct (rep_inv 8 (gej_z (a !!! i)) _ (rep_F _ _ (proj2 (proj2 Hgm))) ltac:(lia)) as (w & [Hwm Hw] & Hinv).
  set (zi := fe_inv (gej_z (a !!! i))) in *. assert (zeta i * F zi = 1)%F as Hz1.
  { rewrite HL, Hw in *. apply Hinv. destruct (odd_multiple P i) as [[]|]; [|done]. by destruct Hs as (_ & ? & _). }
  destruct (scaled_zinv _ _ _ zi Hgm Hwm Hs) as [Hem Her]. rewrite Hz1, iso_1 in Her.
  destruct (set_table_loop_spec i zi (<[i := ge_set_gej_zinv (a !!! i) zi]> r)) as (G1 & G2 & G3); [lia|by rewrite length_insert|done..|].
  split; [done|]. intros j Hj. destruct (decide (j = i)) as [->|]; [|apply G1; lia].
  rewrite G2, list_lookup_total_insert_eq by lia. done.
Qed.
End FromTable.
