(* ===== verification/EcmultLaw.v ===== *)
(** * Double multiplication multiplies

    The context's table holds the odd multiples of the generator, and
    secp256k1_ecmult computes [na * P + ng * G] in the group of the curve, for
    every point and every pair of scalars. *)

From Stdlib Require Import Zmod Ring Field.
From S2P Require Import Prelude Bytes Limbs Primality Curve CurveGroup CurveOrder ModExp Scalar4x64 Field5x52 FieldImpl Group GroupLaw Wnaf Ecmult EcmultTable.

#[local] Hint Resolve gen_on_curve zmul_on_curve pneg_on_curve padd_on_curve : core.

Lemma table_a_value : Z.of_nat table_a = 8.
Proof. done. Qed.
Lemma table_g_value : Z.of_nat table_g = 16384.
Proof. unfold table_g. rewrite Z2Nat.id; done. Qed.
#[global] Opaque table_a table_g.

(** ** The generator and the context *)

Lemma lift_g : lift ge_const_g = gen.
Proof.
  unfold lift, gen. change (ge_inf ge_const_g) with false. cbv iota. by f_equal.
Qed.

Lemma g_mag : ge_mag ge_const_g.
Proof. apply g_ok. Qed.

Lemma g_rep : ge_rep ge_const_g gen.
Proof. rewrite <- lift_g. apply lift_rep. Qed.

(** The table of a built context. *)
Record table_ok (t : list ge_storage) : Prop := {
  tb_len : length t = table_g;
  tb_entry i : (i < table_g)%nat -> ge_mag (ge_from_storage (t !!! i)) /\ ge_rep (ge_from_storage (t !!! i)) (odd_multiple gen i);
}.

Lemma storage_table_spec prej prea zr n a P : (1 <= n)%nat -> Z.of_nat n < 2 ^ 20 ->
  length prej = n -> length prea = n -> length zr = n -> gej_mag a -> gej_rep a P -> on_curve P -> P <> None ->
  let t := odd_multiples_table_storage_var prej prea zr n a in
  length t = n /\ forall i, (i < n)%nat -> ge_mag (ge_from_storage (t !!! i)) /\ ge_rep (ge_from_storage (t !!! i)) (odd_multiple P i).
Proof.
  intros Hn Hb H1 H2 H3 Ha HP Hc HPn. cbv zeta. unfold odd_multiples_table_storage_var.
  pose proof (odd_multiples_table_spec n 0 prej zr a P Hn Hb ltac:(lia) ltac:(lia) Ha HP Hc HPn) as HT.
  destruct (odd_multiples_table n 0 prej zr a) as [prej' zr']. destruct HT as (zeta & HT & _ & Hl & _).
  destruct (set_table_spec n zeta P prej' zr' HT ltac:(lia) prea Hn H2) as [Hlen Hs].
  split; [by rewrite length_fmap|]. intros i Hi. rewrite (list_lookup_total_fmap ge_to_storage) by lia.
  destruct (Hs i Hi) as [Hm Hr]. apply ge_storage_spec; [done..|]. apply odd_multiple_finite; [done..|lia].
Qed.

Lemma context_build_spec prej prea zr : length prej = table_g -> length prea = table_g -> length zr = table_g ->
  exists t, pre_g (ecmult_context_build prej prea zr ecmult_context_init) = Some t /\ table_ok t.
Proof.
  intros H1 H2 H3. pose proof table_g_value. eexists. split; [done|].
  destruct (storage_table_spec prej prea zr table_g (gej_set_ge ge_const_g) gen) as [Hl He];
    [lia|lia|done..|apply gej_set_ge_mag, g_mag|apply gej_set_ge_rep, g_rep|apply gen_on_curve|done|].
  by split.
Qed.

(** ** Entries for digits *)

Lemma digit_index v w : 2 <= w -> Z.odd v = true -> Z.abs v < 2 ^ (w - 1) ->
  let i := if 0 <? v then (v - 1) / 2 else (- v - 1) / 2 in
  0 <= i < 2 ^ (w - 2) /\ v = if 0 <? v then 2 * i + 1 else - (2 * i + 1).
Proof.
  intros Hw Ho Hv. assert (2 ^ (w - 1) = 2 * 2 ^ (w - 2)) as E by (rewrite <- Z.pow_succ_r by lia; f_equal; lia).
  rewrite Z.odd_spec in Ho. destruct Ho as [m ->]. cbv zeta. rewrite E in Hv.
  destruct (Z.ltb_spec 0 (2 * m + 1)); dlia.
Qed.

Lemma table_get_spec pre v w n u P : 2 <= w -> Z.of_nat n = 2 ^ (w - 2) -> Z.odd v = true -> Z.abs v < 2 ^ (w - 1) ->
  (forall i, (i < n)%nat -> ge_mag (pre !!! i) /\ ge_rep (pre !!! i) (iso u (odd_multiple P i))) ->
  ge_mag (ECMULT_TABLE_GET_GE pre v) /\ ge_rep (ECMULT_TABLE_GET_GE pre v) (iso u (zmul v P)).
Proof.
  intros Hw Hn Ho Hv Hp. destruct (digit_index v w Hw Ho Hv) as [Hi Ev]. unfold ECMULT_TABLE_GET_GE.
  destruct (0 <? v).
  - destruct (Hp (Z.to_nat ((v - 1) / 2))) as [Hm Hr]; [lia|]. split; [done|]. unfold odd_multiple in Hr.
    rewrite Z2Nat.id, <- Ev in Hr by lia. done.
  - destruct (Hp (Z.to_nat ((- v - 1) / 2))) as [Hm Hr]; [lia|].
    destruct (ge_neg_spec _ _ Hm Hr) as [Hnm Hnr]. split; [done|]. unfold odd_multiple in Hnr.
    rewrite <- iso_pneg, <- zmul_opp, Z2Nat.id, <- Ev in Hnr by lia. done.
Qed.

Lemma table_get_storage_spec t v : table_ok t -> Z.odd v = true -> Z.abs v < 2 ^ (WINDOW_G - 1) ->
  ge_mag (ECMULT_TABLE_GET_GE_STORAGE t v) /\ ge_rep (ECMULT_TABLE_GET_GE_STORAGE t v) (zmul v gen).
Proof.
  intros [Hl He] Ho Hv. destruct (table_get_spec (ge_from_storage <$> t) v WINDOW_G table_g 1%F gen) as [Hm Hr];
    [done|apply table_g_value|done|done| |].
  { intros i Hi. rewrite (list_lookup_total_fmap ge_from_storage), iso_1 by lia. by apply He. }
  rewrite iso_1 in Hr. pose proof table_g_value. destruct (digit_index v WINDOW_G ltac:(done) Ho Hv) as [Hi _].
  change (2 ^ (WINDOW_G - 2)) with 16384 in Hi. unfold ECMULT_TABLE_GET_GE, ECMULT_TABLE_GET_GE_STORAGE in *.
  destruct (0 <? v); rewrite (list_lookup_total_fmap ge_from_storage) in Hm, Hr by lia; done.
Qed.

(** ** Suffixes of the digits *)

Lemma wsum_drop d i : (i < length d)%nat -> wsum (drop i d) = d !!! i + 2 * wsum (drop (S i) d).
Proof.
  intros Hi. destruct (lookup_lt_is_Some_2 d i Hi) as [v Hv]. rewrite (drop_S d v i Hv). cbn [wsum].
  by rewrite (list_lookup_total_correct _ _ _ Hv).
Qed.

Lemma wsum_high d n : (forall i v, d !! i = Some v -> (n <= i)%nat -> v = 0) -> wsum (drop n d) = 0.
Proof.
  intros Hz. remember (drop n d) as l eqn:El. assert (Forall (fun v => v = 0) l) as Hl.
  { subst l. apply Forall_lookup. intros i v. rewrite lookup_drop. intros Hv. apply (Hz _ _ Hv). lia. }
  clear -Hl. induction Hl as [|v l -> _ IH]; cbn [wsum]; lia.
Qed.

(** ** The evaluation loop *)

(** An accumulator that stands for [A] on the curve moved by [u]. *)
Definition acc (u : fld) (r : gej) (A : point) : Prop := gej_mag r /\ gej_rep r (iso u A).

Lemma acc_double u r A : u <> 0%F -> on_curve A -> acc u r A -> acc u (gej_double_var r r).1 (padd A A).
Proof.
  intros Hu HA [Hm Hr]. pose proof (gej_double_spec r r (iso u A) Hm Hm Hr (iso_ordinary _ _ Hu (on_curve_ordinary _ HA))) as H.
  destruct (gej_double_var r r) as [d w]. destruct H as (? & Hd & _). split; [done|]. by rewrite iso_padd by auto.
Qed.

Lemma acc_add u r b A Q : u <> 0%F -> on_curve A -> acc u r A -> ge_mag b -> ge_rep b (iso u Q) ->
  acc u (gej_add_ge_var r r b).1 (padd A Q).
Proof.
  intros Hu HA [Hm Hr] Hb HQ.
  pose proof (gej_add_ge_var_spec r r b _ _ Hm Hm Hb Hr HQ (iso_ordinary _ _ Hu (on_curve_ordinary _ HA))) as H.
  destruct (gej_add_ge_var r r b) as [d w]. destruct H as (? & Hd & _). split; [done|]. by rewrite iso_padd by auto.
Qed.

Lemma acc_add_zinv u r b A Q z : u = F z -> u <> 0%F -> fe_mag 8 z -> on_curve A -> acc u r A -> ge_mag b -> ge_rep b Q ->
  acc u (gej_add_zinv_var r r b z) (padd A Q).
Proof.
  intros -> Hu Hz HA [Hm Hr] Hb HQ. unfold acc. rewrite iso_padd by auto.
  apply (gej_add_zinv_spec r r b z); [done..| |done|by apply iso_ordinary; auto].
  destruct Q as [[x y]|]; [|done]. cbn in *. destruct HQ as (? & <- & <-). done.
Qed.

Section Evaluation.
Context (ps : list strauss_point_state) (pre_a : list ge) (table : list ge_storage) (ng : list Z) (bits_ng : Z) (gz : fe).
Context (digit contrib : nat -> point).
Hypothesis Hgz : fe_mag 8 gz /\ F gz <> 0%F.
Hypothesis Hlen : length ng = 256%nat.
Hypothesis Htable : bits_ng = 0 \/ table_ok table.
Hypothesis Hng : forall i v, ng !! i = Some v -> v = 0 \/ Z.odd v = true /\ Z.abs v < 2 ^ (WINDOW_G - 1).
Hypothesis Hbits : forall i v, ng !! i = Some v -> bits_ng <= Z.of_nat i -> v = 0.
Hypothesis Hdigit : forall i, on_curve (digit i).
Hypothesis Hcontrib : forall i, on_curve (contrib i).
Hypothesis Hstep : forall i, (i < 256)%nat -> contrib i = padd (padd (contrib (S i)) (contrib (S i))) (digit i).
Hypothesis Hpoints : forall i r A, (i < 256)%nat -> on_curve A -> acc (F gz) r A ->
  acc (F gz) (strauss_add_points (Z.of_nat i) 0 ps pre_a r) (padd A (digit i)).

(** What the accumulator stands for when the digits from [i] on are done. *)
Definition strauss_sum (i : nat) : point := padd (contrib i) (zmul (wsum (drop i ng)) gen).

Lemma strauss_sum_step i : (i < 256)%nat ->
  strauss_sum i = padd (padd (padd (strauss_sum (S i)) (strauss_sum (S i))) (digit i)) (zmul (ng !!! i) gen).
Proof.
  intros Hi. unfold strauss_sum. rewrite Hstep, wsum_drop by lia. set (C := contrib (S i)). set (w := wsum _).
  assert (on_curve C) by apply Hcontrib. pose proof (Hdigit i). set (D := digit i) in *.
  replace (ng !!! i + 2 * w) with (w + w + ng !!! i) by lia. rewrite !zmul_add by auto.
  set (G := zmul w gen). assert (on_curve G) by (subst G; auto). set (E := zmul (ng !!! i) gen). assert (on_curve E) by (subst E; auto).
  rewrite (padd_swap C G C G), <- padd_assoc by auto. f_equal. rewrite !padd_assoc by auto. f_equal. f_equal.
  rewrite (padd_comm D), padd_assoc by auto. done.
Qed.

Lemma strauss_loop_spec bits r : (bits <= 256)%nat -> acc (F gz) r (strauss_sum bits) ->
  acc (F gz) (strauss_loop bits ps pre_a table ng bits_ng gz r) (strauss_sum 0).
Proof.
  destruct Hgz as [Hzm Hz]. assert (forall i, on_curve (strauss_sum i)) as Hsum by (intros; unfold strauss_sum; auto).
  revert r. induction bits as [|i IH]; intros r Hb Hr; cbn [strauss_loop]; [done|]. cbv zeta. apply IH; [lia|].
  apply acc_double, (Hpoints i) in Hr; [|auto with lia..]. set (r' := strauss_add_points _ _ _ _ _) in *.
  rewrite strauss_sum_step by lia. set (A := padd (padd _ _) (digit i)) in *.
  assert (on_curve A) as HA by (subst A; auto). clearbody A r'.
  destruct (lookup_lt_is_Some_2 ng i) as [v Hv]; [lia|]. rewrite (list_lookup_total_correct _ _ _ Hv).
  destruct (Z.ltb_spec (Z.of_nat i) bits_ng) as [Hlt|Hge]; [destruct (Z.eqb_spec v 0) as [->|Hv0]|]; cbn [andb negb].
  - by rewrite zmul_0, padd_0_r.
  - destruct (Hng i v Hv) as [|[Ho Ha]]; [done|]. destruct Htable as [|HT]; [lia|].
    destruct (table_get_storage_spec table v HT Ho Ha) as [Hm Hg]. by apply acc_add_zinv.
  - rewrite (Hbits i v Hv) by lia. by rewrite zmul_0, padd_0_r.
Qed.
End Evaluation.

Lemma acc_finish z r A : fe_mag 8 z -> F z <> 0%F -> acc (F z) r A ->
  let r' := if gej_inf r then r else mkGej (gej_x r) (gej_y r) (fe_mul (gej_z r) z) (gej_inf r) in
  gej_mag r' /\ gej_rep r' A.
Proof.
  intros Hz Hn [(Hmx & Hmy & Hmz) Hr]. cbv zeta. destruct (gej_inf r) eqn:Hi.
  - split; [done|]. destruct A as [[x y]|]; [|done]. destruct Hr as [? _]. congruence.
  - destruct (rep_mul 8 8 _ _ _ _ (rep_F _ _ Hmz) (rep_F _ _ Hz)) as [Hm Hv]; [lia..|].
    split; [split_and!; [done..|by eapply fe_mag_weaken]|]. destruct r as [rx ry rz ri]. cbn in Hi. subst ri.
    by eapply gej_rep_iso.
Qed.

Lemma zmul_signed a P : scalar_ok a -> on_curve P -> zmul (signed_scalar a) P = zmul (sval a) P.
Proof.
  intros Ha HP. apply (zmul_congr order); [done..|by apply curve_order|].
  rewrite signed_scalar_mod by done. symmetry. apply Z.mod_small. by apply scalar_ok_range.
Qed.

Lemma acc_none u : acc u gej_set_infinity None.
Proof. by split; [repeat split|]. Qed.

(** The digits of one point and of the generator. *)
Lemma strauss_run ps pre_a table gz digit contrib ng b : fe_mag 8 gz -> F gz <> 0%F -> table_ok table -> scalar_ok ng ->
  0 <= b <= 256 -> (forall i, on_curve (digit i)) -> (forall i, on_curve (contrib i)) ->
  (forall i, (i < 256)%nat -> contrib i = padd (padd (contrib (S i)) (contrib (S i))) (digit i)) ->
  (forall i r A, (i < 256)%nat -> on_curve A -> acc (F gz) r A ->
    acc (F gz) (strauss_add_points (Z.of_nat i) 0 ps pre_a r) (padd A (digit i))) ->
  (forall i, b <= Z.of_nat i -> contrib i = None) ->
  let '(wnaf_ng, bits_ng) := ecmult_wnaf 256 ng WINDOW_G in
  acc (F gz) (strauss_loop (Z.to_nat (if b <? bits_ng then bits_ng else b)) ps pre_a table wnaf_ng bits_ng gz gej_set_infinity)
    (padd (contrib 0%nat) (zmul (sval ng) gen)).
Proof.
  intros Hgz Hgz0 HT Hng Hb Hd Hc Hstep Hpts Hhigh.
  pose proof (wnaf_spec 256 ng WINDOW_G Hng ltac:(done) ltac:(done) (signed_scalar_bound ng Hng)) as HW.
  destruct (ecmult_wnaf 256 ng WINDOW_G) as [d bn]. destruct HW as [Hl Hs Hdig _ Hr Hz _].
  set (bits := if b <? bn then bn else b). assert (b <= bits /\ bn <= bits /\ bits <= 256) as (H1 & H2 & H3).
  { subst bits. destruct (Z.ltb_spec b bn); lia. }
  pose proof (strauss_loop_spec ps pre_a table d bn gz digit contrib (conj Hgz Hgz0) ltac:(lia) (or_intror HT) Hdig
    ltac:(intros i v Hv Hi; by apply (Hz i)) Hd Hc Hstep Hpts (Z.to_nat bits) gej_set_infinity ltac:(lia)) as H.
  unfold strauss_sum in H. rewrite Hhigh, wsum_high in H by (lia || intros i v Hv Hi; apply (Hz i v Hv); lia).
  specialize (H (acc_none _)). by rewrite drop_0, Hs, zmul_signed in H by auto.
Qed.

(** The arrays of a call with one point. *)
Definition strauss_arrays (st : strauss_state) : Prop :=
  length (st_prej st) = table_a /\ length (st_zr st) = table_a /\ length (st_pre_a st) = table_a.

Lemma ecmult_spec ctx t st a P na ng : pre_g ctx = Some t -> table_ok t -> strauss_arrays st ->
  gej_mag a -> gej_rep a P -> on_curve P -> scalar_ok na -> scalar_ok ng ->
  let r := ecmult ctx st a na ng in gej_mag r /\ gej_rep r (padd (zmul (sval na) P) (zmul (sval ng) gen)).
Proof.
  intros Hctx HT (Hl1 & Hl2 & Hl3) Ha HP Hc Hna Hng. cbv zeta. unfold ecmult, ecmult_strauss_wnaf. rewrite Hctx.
  cbn [zip zip_with strauss_points default]. unfold gej_is_infinity. rewrite is_zero_spec by apply Hna.
  destruct ((sval na =? 0) || gej_inf a) eqn:Hskip.
  - assert (zmul (sval na) P = None) as ->.
    { apply orb_true_iff in Hskip as [->%Z.eqb_eq|Hi]; [done|]. destruct P as [[x y]|]; [|apply zmul_none]. destruct HP as [? _]. congruence. }
    cbn [strauss_pre_a]. destruct (rep_set_int 1 ltac:(done)) as [Hm1 Hv1]. change (Zmod.of_Z fp 1) with (@Zmod.one fp) in Hv1.
    pose proof (strauss_run [] (st_pre_a st) t (fe_set_int 1) (fun _ => None) (fun _ => None) ng 0) as H.
    rewrite Hv1 in H. specialize (H ltac:(by eapply fe_mag_weaken) fld_1_0 HT Hng ltac:(lia) ltac:(done) ltac:(done) ltac:(done)).
    specialize (H ltac:(intros i r A _ _ Hr; by rewrite padd_0_r) ltac:(done)).
    destruct (ecmult_wnaf 256 ng WINDOW_G) as [d bn]. rewrite <- Hv1 in H. apply acc_finish in H; [done|by eapply fe_mag_weaken|].
    rewrite Hv1. apply fld_1_0.
  - apply orb_false_iff in Hskip as [_ Hi]. assert (P <> None) as HPn by (apply (gej_inf_finite _ _ HP); done).
    pose proof (wnaf_spec 256 na WINDOW_A Hna ltac:(done) ltac:(done) (signed_scalar_bound na Hna)) as HW.
    destruct (ecmult_wnaf 256 na WINDOW_A) as [d b]. destruct HW as [Hl Hs Hdig _ Hr Hz _].
    cbn [strauss_points app strauss_pre_a strauss_tables length input_pos].
    change ([a] !!! 0%nat) with a. pose proof table_a_value as H8.
    pose proof (odd_multiples_table_spec table_a 0 (st_prej st) (st_zr st) a P ltac:(lia) ltac:(lia) ltac:(lia) ltac:(lia) Ha HP Hc HPn) as HO.
    destruct (odd_multiples_table table_a 0 _ _ a) as [prej zr]. destruct HO as (zeta & HO & _ & Hlp & _).
    rewrite Nat.mul_1_r, take_ge by lia.
    pose proof (globalz_spec table_a zeta P prej zr HO ltac:(lia) (st_pre_a st) fe_clear ltac:(lia) Hl3) as HG.
    destruct (ge_globalz_set_table_gej _ _ prej zr) as [pre_a gz]. destruct HG as (Hgm & Hgz & _ & Hpre).
    replace (if 0 <? b then b else 0) with b by (destruct (Z.ltb_spec 0 b); lia).
    pose proof (strauss_run [mkPS d b 0] pre_a t gz (fun i => zmul (d !!! i) P) (fun i => zmul (wsum (drop i d)) P) ng b
      Hgm Hgz HT Hng ltac:(lia) (fun i => zmul_on_curve _ P Hc) (fun i => zmul_on_curve _ P Hc)) as H. cbv beta in H.
    assert (forall i, (i < 256)%nat -> zmul (wsum (drop i d)) P =
      padd (padd (zmul (wsum (drop (S i) d)) P) (zmul (wsum (drop (S i) d)) P)) (zmul (d !!! i) P)) as Hstep.
    { intros i Hi'. rewrite <- !zmul_add by done. rewrite (wsum_drop d i) by lia. f_equal. lia. }
    assert (forall i r A, (i < 256)%nat -> on_curve A -> acc (F gz) r A ->
      acc (F gz) (strauss_add_points (Z.of_nat i) 0 [mkPS d b 0] pre_a r) (padd A (zmul (d !!! i) P))) as Hpts.
    { intros i r A Hi' HA Hr'. cbn [strauss_add_points wnaf_na bits_na]. rewrite Nat2Z.id, Nat.mul_0_l, drop_0.
      destruct (lookup_lt_is_Some_2 d i) as [v Hv]; [lia|]. rewrite (list_lookup_total_correct _ _ _ Hv).
      destruct (Z.ltb_spec (Z.of_nat i) b) as [Hlt|Hge]; [destruct (Z.eqb_spec v 0) as [->|Hv0]|]; cbn [andb negb].
      - by rewrite zmul_0, padd_0_r.
      - destruct (Hdig i v Hv) as [|[Ho Hav]]; [contradiction|].
        destruct (table_get_spec pre_a v WINDOW_A table_a (F gz) P ltac:(done) H8 Ho Hav Hpre) as [Hm Hg]. by apply acc_add.
      - rewrite (Hz i v Hv) by lia. by rewrite zmul_0, padd_0_r. }
    assert (forall i, b <= Z.of_nat i -> zmul (wsum (drop i d)) P = None) as Hhigh.
    { intros i Hi'. rewrite wsum_high; [done|]. intros j v Hv Hj. apply (Hz j v Hv). lia. }
    specialize (H Hstep Hpts Hhigh). destruct (ecmult_wnaf 256 ng WINDOW_G) as [dg bn].
    rewrite drop_0, Hs, zmul_signed in H by done. by apply acc_finish in H.
Qed.

(** ** Property *)

(** C37. With the context built by secp256k1_ecmult_context_build, secp256k1_ecmult
    computes [na * P + ng * G] for every point of the curve, the one at infinity
    included, and all scalars, whatever the arrays held before; and every point
    of the curve is a multiple of G, so this is defined by scalars alone. *)
Theorem ecmult_correct prej prea zr st a P na ng :
  length prej = table_g -> length prea = table_g -> length zr = table_g -> strauss_arrays st ->
  gej_mag a -> gej_rep a P -> on_curve P -> scalar_ok na -> scalar_ok ng ->
  let r := ecmult (ecmult_context_build prej prea zr ecmult_context_init) st a na ng in
  gej_rep r (padd (zmul (sval na) P) (zmul (sval ng) (lift ge_const_g))) /\
  exists k, P = zmul k (lift ge_const_g) /\ gej_rep r (zmul (sval na * k + sval ng) (lift ge_const_g)).
Proof.
  intros H1 H2 H3 Hst Ha HP Hc Hna Hng. destruct (context_build_spec prej prea zr H1 H2 H3) as (t & Hctx & Ht).
  destruct (ecmult_spec _ t st a P na ng Hctx Ht Hst Ha HP Hc Hna Hng) as [_ Hr]. rewrite lift_g.
  split; [exact Hr|]. destruct (curve_generated P Hc) as [k Hk]. exists k. split; [exact Hk|].
  rewrite zmul_add, (zmul_mul (sval na)), <- Hk by apply gen_on_curve. exact Hr.
Qed.

Lemma ecmult_correct_witness :
  let prej := replicate table_g (gej_set_ge ge_const_g) in let prea := replicate table_g ge_const_g in
  let zr := replicate table_g fe_clear in
  let st := mkStrauss (replicate table_a (gej_set_ge ge_const_g)) (replicate table_a fe_clear) (replicate table_a ge_const_g) in
  let a := gej_set_ge ge_const_g in let na := mkScalar 7 0 0 1 in let ng := mkScalar 0 5 0 0 in
  let r := ecmult (ecmult_context_build prej prea zr ecmult_context_init) st a na ng in
  gej_rep r (padd (zmul (sval na) gen) (zmul (sval ng) (lift ge_const_g))) /\
  exists k, gen = zmul k (lift ge_const_g) /\ gej_rep r (zmul (sval na * k + sval ng) (lift ge_const_g)).
Proof.
  intros prej prea zr st a na ng.
  assert (scalar_ok na) as Hna by (repeat split; by vm_compute). assert (scalar_ok ng) as Hng by (repeat split; by vm_compute).
  apply (ecmult_correct prej prea zr st a gen na ng); [apply length_replicate..| | | |apply gen_on_curve|exact Hna|exact Hng].
  - split_and!; apply length_replicate.
  - apply gej_set_ge_mag, g_mag.
  - apply gej_set_ge_rep, g_rep.
Defined.
