(* ===== verification/Der.v ===== *)
(** * Signatures in DER

    The parser and the serialiser of [secp256k1/src/ecdsa_impl.h].  A pointer
    into the input is an index, [sigend] is its length; reading a byte outside
    the input is the outcome [None], which the parser is shown never to have. *)

From S2P Require Import Prelude Bytes Limbs Primality Scalar4x64.

(** [*p] *)
Definition byte_at (sig : list Z) (p : Z) : option Z :=
  if 0 <=? p then sig !! Z.to_nat p else None.

(** int from size_t *)
Definition int_of_size (x : Z) : Z := (u32 x + 2 ^ 31) mod 2 ^ 32 - 2 ^ 31.

(** while (lenleft > 0): the length read, or [None] for a return of -1, and the
    position. *)
Fixpoint der_len_loop (lenleft : nat) (ret : Z) (sig : list Z) (p sigend : Z) : option (option Z * Z) :=
  match lenleft with
  | O => Some (Some ret, p)
  | S n =>
    b ← byte_at sig p;
    let ret := u64 (Z.lor (u64 (Z.shiftl ret 8)) b) in
    if u64 (sigend - p) <? u64 (ret + Z.of_nat lenleft) then Some (None, p)
    else der_len_loop n ret sig (p + 1) sigend
  end.

(** The returned int and the new [*sigp]. *)
Definition der_read_len (sig : list Z) (p sigend : Z) : option (Z * Z) :=
  if sigend <=? p then Some (-1, p)
  else
    b1 ← byte_at sig p;
    let p := p + 1 in
    if b1 =? 0xFF then Some (-1, p)
    else if Z.land b1 0x80 =? 0 then Some (b1, p)
    else if b1 =? 0x80 then Some (-1, p)
    else
      let lenleft := Z.land b1 0x7F in
      if sigend - p <? lenleft then Some (-1, p)
      else
        b ← byte_at sig p;
        if b =? 0 then Some (-1, p)
        else if 8 <? lenleft then Some (-1, p)
        else
          '(ret, p) ← der_len_loop (Z.to_nat lenleft) 0 sig p sigend;
          match ret with
          | None => Some (-1, p)
          | Some ret => if ret <? 128 then Some (-1, p) else Some (int_of_size ret, p)
          end.

(** while (rlen > 0 && **sig == 0) *)
Fixpoint skip_zeros (rlen : nat) (sig : list Z) (p : Z) : option (nat * Z) :=
  match rlen with
  | O => Some (O, p)
  | S r =>
    b ← byte_at sig p;
    if b =? 0 then skip_zeros r sig (p + 1) else Some (rlen, p)
  end.

(** memcpy(ra + 32 - rlen, *sig, rlen), from a zeroed [ra] *)
Definition der_bytes (sig : list Z) (p : Z) (rlen : nat) : option (list Z) :=
  if (0 <=? p) && (p + Z.of_nat rlen <=? Z.of_nat (length sig))
  then Some (replicate (32 - rlen) 0 ++ take rlen (drop (Z.to_nat p) sig)) else None.

(** The two tests for excessive padding; only they read a second byte. *)
Definition der_padding (sig : list Z) (p rlen b0 : Z) : option bool :=
  if ((b0 =? 0x00) || (b0 =? 0xFF)) && (1 <? rlen) then
    b1 ← byte_at sig (p + 1);
    Some (if b0 =? 0x00 then Z.land b1 0x80 =? 0x00 else Z.land b1 0x80 =? 0x80)
  else Some false.

(** The inner option is a return of 0; [Some] has the scalar and the new [*sig]. *)
Definition der_parse_integer (sig : list Z) (p sigend : Z) : option (option (scalar * Z)) :=
  if p =? sigend then Some None
  else
    b ← byte_at sig p;
    if negb (b =? 0x02) then Some None
    else
      '(rlen, p) ← der_read_len sig (p + 1) sigend;
      if (rlen <=? 0) || (sigend <? p + rlen) then Some None
      else
        b0 ← byte_at sig p;
        padding ← der_padding sig p rlen b0;
        if (padding : bool) then Some None
        else
          let overflow := if Z.land b0 0x80 =? 0x80 then 1 else 0 in
          '(rlen, p) ← skip_zeros (Z.to_nat rlen) sig p;
          let overflow := if 32 <? Z.of_nat rlen then 1 else overflow in
          '(r, overflow) ← (if overflow =? 0 then scalar_set_b32 <$> der_bytes sig p rlen else Some (scalar_clear, overflow));
          let r := if overflow =? 0 then r else scalar_set_int 0 in
          Some (Some (r, p + Z.of_nat rlen)).

Definition ecdsa_sig_parse (sig : list Z) : option (option (scalar * scalar)) :=
  let sigend := Z.of_nat (length sig) in
  if 0 =? sigend then Some None
  else
    b ← byte_at sig 0;
    if negb (b =? 0x30) then Some None
    else
      '(rlen, p) ← der_read_len sig 1 sigend;
      if (rlen <? 0) || (sigend <? p + rlen) then Some None
      else if negb (p + rlen =? sigend) then Some None
      else
        pr ← der_parse_integer sig p sigend;
        match pr with
        | None => Some None
        | Some (rr, p) =>
          ps ← der_parse_integer sig p sigend;
          match ps with
          | None => Some None
          | Some (rs, p) => if negb (p =? sigend) then Some None else Some (Some (rr, rs))
          end
        end.

(** while (lenR > 1 && rp[0] == 0 && rp[1] < 0x80): the bytes from [rp] on. *)
Fixpoint der_strip (l : list Z) : list Z :=
  match l with
  | b0 :: (b1 :: _) as t => if (b0 =? 0) && (b1 <? 0x80) then der_strip t else l
  | _ => l
  end.

(** The return value, [*size] and, when it is 1, the bytes written. *)
Definition ecdsa_sig_serialize (size : Z) (ar as_ : scalar) : Z * Z * list Z :=
  let r := der_strip (0 :: scalar_get_b32 ar) in
  let s := der_strip (0 :: scalar_get_b32 as_) in
  let lenR := Z.of_nat (length r) in
  let lenS := Z.of_nat (length s) in
  if size <? 6 + lenS + lenR then (0, 6 + lenS + lenR, [])
  else (1, 6 + lenS + lenR, [0x30; 4 + lenS + lenR; 0x02; lenR] ++ r ++ [0x02; lenS] ++ s).

(** ** Bits of a byte *)

Lemma high_bit b : byte_ok b -> Z.land b 0x80 = if b <? 128 then 0 else 128.
Proof.
  intros [H0 H1]. change (Z.land b 0x80) with (Z.land b (Z.shiftl (Z.ones 1) 7)). rewrite land_field by done. change (2 ^ 7) with 128. change (2 ^ 1) with 2.
  destruct (Z.ltb_spec b 128).
  - by rewrite Z.div_small by lia.
  - by replace (b / 128) with 1 by dlia.
Qed.
Lemma high_bit_clear b : byte_ok b -> (Z.land b 0x80 =? 0) = (b <? 128).
Proof. intros Hb. rewrite high_bit by done. by destruct (b <? 128). Qed.
Lemma high_bit_set b : byte_ok b -> (Z.land b 0x80 =? 0x80) = negb (b <? 128).
Proof. intros Hb. rewrite high_bit by done. by destruct (b <? 128). Qed.
Lemma low_bits b : Z.land b 0x7F = b mod 128.
Proof. by apply (land_mask b 7). Qed.

(** ** Positions *)

(** What is left of the input at a position. *)
Definition here (sig : list Z) (p : Z) (rest : list Z) : Prop :=
  0 <= p <= Z.of_nat (length sig) /\ drop (Z.to_nat p) sig = rest.

Lemma here_length sig p rest : here sig p rest -> Z.of_nat (length rest) = Z.of_nat (length sig) - p.
Proof. intros [? <-]. rewrite length_drop. lia. Qed.

Lemma here_byte sig p b rest : here sig p (b :: rest) -> byte_at sig p = Some b /\ here sig (p + 1) rest.
Proof.
  intros Hh. pose proof (here_length _ _ _ Hh) as Hl. destruct Hh as [Hp Hd]. cbn [length] in Hl. unfold byte_at.
  destruct (Z.leb_spec 0 p); [|lia]. split.
  - rewrite <- (Nat.add_0_r (Z.to_nat p)), <- lookup_drop, Hd. done.
  - split; [lia|]. replace (Z.to_nat (p + 1)) with (Z.to_nat p + 1)%nat by lia. by rewrite <- drop_drop, Hd.
Qed.

Lemma here_at sig p : 0 <= p <= Z.of_nat (length sig) -> here sig p (drop (Z.to_nat p) sig).
Proof. done. Qed.

Lemma here_skip sig p l rest : here sig p (l ++ rest) -> here sig (p + Z.of_nat (length l)) rest.
Proof.
  intros Hh. pose proof (here_length _ _ _ Hh) as Hl. destruct Hh as [Hp Hd]. rewrite length_app in Hl. split; [lia|].
  replace (Z.to_nat (p + Z.of_nat (length l))) with (Z.to_nat p + length l)%nat by lia. by rewrite <- drop_drop, Hd, drop_app_length.
Qed.

Lemma byte_at_some sig p : 0 <= p < Z.of_nat (length sig) -> exists b, byte_at sig p = Some b /\ b ∈ sig.
Proof.
  intros Hp. unfold byte_at. destruct (Z.leb_spec 0 p); [|lia]. destruct (lookup_lt_is_Some_2 sig (Z.to_nat p)) as [b Hb]; [lia|].
  exists b. split; [done|]. by eapply list_elem_of_lookup_2.
Qed.

(** ** No read outside the input *)

Section Bounds.
Context (sig : list Z).
Hypothesis Hsig : Forall byte_ok sig.
Let sigend := Z.of_nat (length sig).

Lemma der_len_loop_total n ret p : 0 <= p -> p + Z.of_nat n <= sigend ->
  exists v p', der_len_loop n ret sig p sigend = Some (v, p') /\ p <= p' <= sigend.
Proof.
  revert ret p. induction n as [|n IH]; intros ret p Hp Hn; cbn [der_len_loop]; [by exists (Some ret), p; split; [|lia]|].
  destruct (byte_at_some sig p) as (b & -> & _); [lia|]. cbn [mbind option_bind]. destruct (_ <? _).
  - exists None, p. split; [done|lia].
  - destruct (IH (u64 (Z.lor (u64 (Z.shiftl ret 8)) b)) (p + 1)) as (v & p' & -> & ?); [lia..|].
    exists v, p'. split; [done|lia].
Qed.

Ltac der_return v p := exists v, p; split; [reflexivity|lia].

Lemma byte_at_ok p : 0 <= p < sigend -> exists b, byte_at sig p = Some b /\ byte_ok b.
Proof.
  intros Hp. destruct (byte_at_some sig p Hp) as (b & Hb & Hin). exists b. split; [done|]. rewrite Forall_forall in Hsig. by apply Hsig.
Qed.

Lemma der_read_len_total p : 0 <= p <= sigend -> exists v p', der_read_len sig p sigend = Some (v, p') /\ p <= p' <= sigend.
Proof.
  intros Hp. unfold der_read_len. destruct (Z.leb_spec sigend p); [der_return (-1) p|].
  destruct (byte_at_ok p) as (b1 & -> & Hb1); [lia|]. cbn [mbind option_bind]. cbv zeta.
  destruct (b1 =? 0xFF); [der_return (-1) (p + 1)|]. rewrite high_bit_clear, low_bits by done.
  destruct (Z.ltb_spec b1 128); [der_return b1 (p + 1)|].
  destruct (Z.eqb_spec b1 0x80) as [|H80]; [der_return (-1) (p + 1)|].
  destruct (Z.ltb_spec (sigend - (p + 1)) (b1 mod 128)); [der_return (-1) (p + 1)|].
  assert (1 <= b1 mod 128) by (unfold byte_ok in Hb1; dlia).
  destruct (byte_at_ok (p + 1)) as (b & -> & _); [lia|]. cbn [mbind option_bind].
  destruct (b =? 0); [der_return (-1) (p + 1)|]. destruct (8 <? _); [der_return (-1) (p + 1)|].
  destruct (der_len_loop_total (Z.to_nat (b1 mod 128)) 0 (p + 1)) as ([ret|] & p' & -> & ?); [lia..| |]; cbn [mbind option_bind].
  - destruct (ret <? 128); [der_return (-1) p'|der_return (int_of_size ret) p'].
  - der_return (-1) p'.
Qed.

Lemma skip_zeros_total n p : 0 <= p -> p + Z.of_nat n <= sigend ->
  exists m p', skip_zeros n sig p = Some (m, p') /\ p <= p' /\ p' + Z.of_nat m = p + Z.of_nat n.
Proof.
  revert p. induction n as [|n IH]; intros p Hp Hn; cbn [skip_zeros]; [by exists O, p|].
  destruct (byte_at_ok p) as (b & -> & _); [lia|]. cbn [mbind option_bind]. destruct (b =? 0); [|by exists (S n), p].
  destruct (IH (p + 1)) as (m & p' & -> & ? & ?); [lia..|]. exists m, p'. split; [done|lia].
Qed.

Lemma der_padding_total p rlen b0 : 0 <= p -> p + rlen <= sigend -> exists x, der_padding sig p rlen b0 = Some x.
Proof.
  intros Hp Hr. unfold der_padding. destruct ((_ || _) && _) eqn:E; [|by eexists]. apply andb_true_iff in E as [_ ?%Z.ltb_lt].
  destruct (byte_at_ok (p + 1)) as (b1 & -> & _); [lia|]. by eexists.
Qed.

Lemma der_parse_integer_total p : 0 <= p <= sigend ->
  exists o, der_parse_integer sig p sigend = Some o /\ forall r p', o = Some (r, p') -> p <= p' <= sigend.
Proof.
  intros Hp. unfold der_parse_integer. destruct (Z.eqb_spec p sigend); [by exists None|].
  destruct (byte_at_ok p) as (b & -> & _); [lia|]. cbn [mbind option_bind]. destruct (negb _); [by exists None|].
  destruct (der_read_len_total (p + 1)) as (rlen & p1 & -> & ?); [lia|]. cbn [mbind option_bind].
  destruct (Z.leb_spec rlen 0); [by exists None|]. destruct (Z.ltb_spec sigend (p1 + rlen)); [by exists None|]. cbn [orb].
  destruct (byte_at_ok p1) as (b0 & -> & _); [lia|]. cbn [mbind option_bind].
  destruct (der_padding_total p1 rlen b0) as [x ->]; [lia..|]. cbn [mbind option_bind]. destruct x; [by exists None|]. cbv zeta.
  destruct (skip_zeros_total (Z.to_nat rlen) p1) as (m & p2 & -> & ? & ?); [lia..|]. cbn [mbind option_bind].
  set (ov := if 32 <? Z.of_nat m then 1 else _).
  assert (der_bytes sig p2 m = Some (replicate (32 - m) 0 ++ take m (drop (Z.to_nat p2) sig))) as ->.
  { unfold der_bytes. destruct (Z.leb_spec 0 p2), (Z.leb_spec (p2 + Z.of_nat m) (Z.of_nat (length sig))); done || lia. }
  destruct (ov =? 0); cbn [fmap option_fmap option_map]; [destruct (scalar_set_b32 _) as [r o]|];
    cbn [mbind option_bind]; eexists; (split; [reflexivity|]); intros r' p' [= _ <-]; lia.
Qed.

Lemma ecdsa_sig_parse_total : ecdsa_sig_parse sig <> None.
Proof.
  unfold ecdsa_sig_parse. fold sigend. destruct (Z.eqb_spec 0 sigend); [done|].
  destruct (byte_at_ok 0) as (b & -> & _); [lia|]. cbn [mbind option_bind]. destruct (negb _); [done|].
  destruct (der_read_len_total 1) as (rlen & p1 & -> & ?); [lia|]. cbn [mbind option_bind].
  destruct (_ || _); [done|]. destruct (negb _); [done|].
  destruct (der_parse_integer_total p1) as ([[r p2]|] & -> & Hr); [lia| |done]. cbn [mbind option_bind].
  specialize (Hr _ _ eq_refl).
  destruct (der_parse_integer_total p2) as ([[s p3]|] & -> & Hs); [lia| |done]. cbn [mbind option_bind]. by destruct (negb _).
Qed.
End Bounds.

(** ** Minimal encodings *)

(** The contents of a DER integer that is not negative. *)
Definition minimal (c : list Z) : Prop :=
  match c with
  | [] => False
  | b0 :: t => b0 < 128 /\ match t with [] => True | b1 :: _ => b0 = 0 -> 128 <= b1 end
  end.

Lemma be_val_zeros k l : be_val (replicate k 0 ++ l) = be_val l.
Proof. induction k as [|k IH]; [done|]. cbn [replicate app]. by rewrite be_val_cons, IH. Qed.

Lemma der_strip_cons b0 b1 t : der_strip (b0 :: b1 :: t) = if (b0 =? 0) && (b1 <? 0x80) then der_strip (b1 :: t) else b0 :: b1 :: t.
Proof. done. Qed.

Lemma der_strip_minimal k c : minimal c -> der_strip (replicate k 0 ++ c) = c.
Proof.
  intros Hm. destruct c as [|b0 t]; [done|]. destruct Hm as [Hb0 Ht]. assert (der_strip (b0 :: t) = b0 :: t) as H0.
  { destruct t as [|b1 t]; [done|]. cbn [der_strip]. destruct (Z.eqb_spec b0 0) as [->|]; [|done].
    destruct (Z.ltb_spec b1 0x80); [specialize (Ht eq_refl); lia|done]. }
  induction k as [|k IH]; [done|]. destruct k as [|k]; [|exact IH].
  cbn [replicate app]. rewrite der_strip_cons.
  by destruct (Z.ltb_spec b0 0x80); [|lia].
Qed.

Lemma der_strip_spec b l : b < 128 -> Forall byte_ok (b :: l) -> let c := der_strip (b :: l) in
  minimal c /\ be_val c = be_val (b :: l) /\ (length c <= S (length l))%nat /\ Forall byte_ok c.
Proof.
  revert b. induction l as [|b1 l IH]; intros b Hb Hok; cbv zeta; [by cbn|].
  rewrite der_strip_cons. destruct (Z.eqb_spec b 0) as [->|Hn]; [destruct (Z.ltb_spec b1 0x80) as [H1|H1]|]; cbn [andb].
  - apply Forall_cons in Hok as [_ Hok]. destruct (IH b1 H1 Hok) as (? & Hv & Hl & ?).
    split; [done|]. split; [by rewrite Hv, (be_val_cons 0)|]. split; [cbn [length] in *; lia|done].
  - split; [by split|]. done.
  - split; [by split|]. done.
Qed.

Lemma set_b32_range r l : length l = 32%nat -> Forall byte_ok l -> be_val l < order -> r = scalar_set_b32 l ->
  scalar_ok r.1 /\ sval r.1 = be_val l /\ r.2 = 0.
Proof.
  intros Hl Hok Hv ->. pose proof (set_b32_spec l Hl Hok) as H. destruct (scalar_set_b32 l) as [r o]. destruct H as (? & Hr & Ho).
  pose proof (be_val_range l Hok). cbn [fst snd]. split; [done|]. rewrite Hr, Ho, Z.mod_small by lia. by destruct (Z.leb_spec order (be_val l)); [lia|].
Qed.

(** A leading zero byte, if any, is skipped. *)
Lemma skip_zeros_minimal sig p c rest : minimal c -> here sig p (c ++ rest) ->
  exists z c', c = replicate z 0 ++ c' /\ skip_zeros (length c) sig p = Some (length c', p + Z.of_nat z) /\
    here sig (p + Z.of_nat z) (c' ++ rest) /\ match c' with [] => True | b :: _ => b <> 0 end.
Proof.
  intros Hm Hh. destruct c as [|b0 t]; [done|]. destruct Hm as [Hb0 Ht]. destruct (here_byte _ _ _ _ Hh) as [Hb Hh1].
  cbn [length skip_zeros]. rewrite Hb. cbn [mbind option_bind]. destruct (Z.eqb_spec b0 0) as [->|Hn].
  - exists 1%nat, t. split; [done|]. split; [|split; [exact Hh1|]].
    2:{ destruct t as [|b1 t]; [done|]. specialize (Ht eq_refl). lia. }
    destruct t as [|b1 t]; [done|].
    destruct (here_byte _ _ _ _ Hh1) as [Hb1 _]. cbn [length skip_zeros]. rewrite Hb1. cbn [mbind option_bind].
    destruct (Z.eqb_spec b1 0) as [->|]; [specialize (Ht eq_refl); lia|done].
  - exists 0%nat, (b0 :: t). rewrite Z.add_0_r. by split_and!.
Qed.

Lemma der_bytes_here sig p c rest : here sig p (c ++ rest) -> der_bytes sig p (length c) = Some (replicate (32 - length c) 0 ++ c).
Proof.
  intros Hh. pose proof (here_length _ _ _ Hh) as Hl. destruct Hh as [Hp Hd]. rewrite length_app in Hl. unfold der_bytes.
  destruct (Z.leb_spec 0 p), (Z.leb_spec (p + Z.of_nat (length c)) (Z.of_nat (length sig))); try lia. cbn [andb].
  by rewrite Hd, take_app_length.
Qed.

Lemma der_read_len_short sig p sigend b rest : here sig p (b :: rest) -> sigend = Z.of_nat (length sig) -> 0 <= b < 128 ->
  der_read_len sig p sigend = Some (b, p + 1).
Proof.
  intros Hh -> Hb. pose proof (here_length _ _ _ Hh) as Hl. cbn [length] in Hl. destruct (here_byte _ _ _ _ Hh) as [Hr _].
  unfold der_read_len. destruct (Z.leb_spec (Z.of_nat (length sig)) p); [lia|]. rewrite Hr. cbn [mbind option_bind]. cbv zeta.
  rewrite high_bit_clear by (unfold byte_ok; lia). destruct (Z.eqb_spec b 0xFF); [lia|]. by destruct (Z.ltb_spec b 128); [|lia].
Qed.

Lemma der_padding_minimal sig p c rest : minimal c -> Forall byte_ok c -> here sig p (c ++ rest) ->
  der_padding sig p (Z.of_nat (length c)) (c !!! 0%nat) = Some false.
Proof.
  intros Hm Hok Hh. destruct c as [|b0 [|b1 t]]; [done|by unfold der_padding; cbn; rewrite andb_false_r|].
  destruct (here_byte _ _ _ _ Hh) as [_ Hh1]. destruct (here_byte _ _ _ _ Hh1) as [Hb1 _]. destruct Hm as [Hb0 Ht].
  apply Forall_cons in Hok as [Ho0 Hok]. apply Forall_cons in Hok as [Ho1 _]. unfold der_padding. change ((b0 :: b1 :: t) !!! 0%nat) with b0.
  destruct (Z.eqb_spec b0 0) as [->|]; cbn [orb].
  - specialize (Ht eq_refl). destruct (1 <? _); [|done]. cbn [andb]. rewrite Hb1. cbn [mbind option_bind].
    rewrite high_bit_clear by done. by destruct (Z.ltb_spec b1 128); [lia|].
  - by destruct (Z.eqb_spec b0 0xFF); [lia|].
Qed.

Lemma significant_length c : Forall byte_ok c -> match c with [] => True | b :: _ => b <> 0 end -> be_val c < 2 ^ 256 ->
  (length c <= 32)%nat.
Proof.
  intros Hok Hn Hv. destruct c as [|b t]; [cbn; lia|]. apply Forall_cons in Hok as [[Hb _] Hok]. rewrite be_val_cons in Hv.
  pose proof (be_val_range t Hok). assert (2 ^ (8 * Z.of_nat (length t)) < 2 ^ 256) as Hlt by nia.
  apply Z.pow_lt_mono_r_iff in Hlt; [|lia..]. cbn [length]. lia.
Qed.

(** The 32 bytes of a number with at most 32 significant ones. *)
Lemma padded_bytes c : Forall byte_ok c -> (length c <= 32)%nat ->
  length (replicate (32 - length c) 0 ++ c) = 32%nat /\ Forall byte_ok (replicate (32 - length c) 0 ++ c) /\
  be_val (replicate (32 - length c) 0 ++ c) = be_val c.
Proof.
  intros Hok Hl. split; [rewrite length_app, length_replicate; lia|]. split; [|apply be_val_zeros].
  apply Forall_app. split; [by apply Forall_replicate|done].
Qed.

Lemma der_parse_minimal sig p c rest sigend : sigend = Z.of_nat (length sig) -> minimal c -> Forall byte_ok c -> be_val c < order ->
  (length c < 128)%nat -> here sig p (0x02 :: Z.of_nat (length c) :: c ++ rest) ->
  exists r, der_parse_integer sig p sigend = Some (Some (r, p + 2 + Z.of_nat (length c))) /\ scalar_ok r /\ sval r = be_val c.
Proof.
  intros -> Hm Hok Hv Hl Hh. pose proof (here_length _ _ _ Hh) as Hlen. cbn [length] in Hlen. rewrite length_app in Hlen.
  destruct (here_byte _ _ _ _ Hh) as [H2 Hh1]. destruct (here_byte _ _ _ _ Hh1) as [_ Hhc].
  assert (1 <= length c)%nat by (destruct c; [done|cbn; lia]). assert (byte_ok (c !!! 0%nat) /\ c !!! 0%nat < 128) as [Hb0 Hb0'].
  { destruct c as [|b0 t]; [done|]. apply Forall_cons in Hok as [? _]. by destruct Hm. }
  unfold der_parse_integer. destruct (Z.eqb_spec p (Z.of_nat (length sig))); [lia|]. rewrite H2. cbn [mbind option_bind Z.eqb Pos.eqb negb].
  rewrite (der_read_len_short _ _ _ _ _ Hh1 eq_refl) by lia. cbn [mbind option_bind].
  destruct (Z.leb_spec (Z.of_nat (length c)) 0), (Z.ltb_spec (Z.of_nat (length sig)) (p + 1 + 1 + Z.of_nat (length c))); try lia. cbn [orb].
  assert (byte_at sig (p + 1 + 1) = Some (c !!! 0%nat)) as ->.
  { destruct c as [|b0 t]; [done|]. by destruct (here_byte _ _ _ _ Hhc) as [-> _]. }
  cbn [mbind option_bind]. rewrite (der_padding_minimal _ _ c rest) by done. cbn [mbind option_bind].
  rewrite high_bit_set by done. destruct (Z.ltb_spec (c !!! 0%nat) 128); [|lia]. cbn [negb]. rewrite Nat2Z.id.
  destruct (skip_zeros_minimal sig (p + 1 + 1) c rest Hm Hhc) as (z & c' & Hc & -> & Hh' & Hn). cbn [mbind option_bind].
  assert (be_val c' = be_val c) as Hv' by (rewrite Hc; symmetry; apply be_val_zeros).
  assert (Forall byte_ok c') as Hok' by (rewrite Hc in Hok; by apply Forall_app in Hok as [_ ?]).
  assert (length c' <= 32)%nat as Hl' by (apply significant_length; [done..|rewrite Hv'; unfold order in Hv; lia]).
  destruct (Z.ltb_spec 32 (Z.of_nat (length c'))); [lia|]. cbn [Z.eqb]. rewrite (der_bytes_here _ _ c' rest) by done.
  destruct (padded_bytes c' Hok' Hl') as (P1 & P2 & P3).
  destruct (set_b32_range _ _ P1 P2 ltac:(by rewrite P3, Hv') eq_refl) as (Hr & Hrv & Hro).
  cbn [fmap option_fmap option_map]. destruct (scalar_set_b32 _) as [r o]. cbn [fst snd] in *. subst o. cbn [mbind option_bind Z.eqb].
  exists r. split; [|split; [done|by rewrite Hrv, P3, Hv']]. do 3 f_equal. rewrite Hc, length_app, length_replicate. lia.
Qed.

(** ** Round trip *)

(** The contents that the serialiser writes for a scalar. *)
Definition contents (a : scalar) : list Z := der_strip (0 :: scalar_get_b32 a).

Lemma contents_spec a : limbs_ok a ->
  minimal (contents a) /\ be_val (contents a) = sval a /\ (1 <= length (contents a) <= 33)%nat /\ Forall byte_ok (contents a).
Proof.
  intros Ha. unfold contents. rewrite get_b32_spec by done.
  assert (Forall byte_ok (0 :: be_bytes 32 (sval a))) as Hok by (constructor; [done|apply be_bytes_ok]).
  destruct (der_strip_spec 0 (be_bytes 32 (sval a)) ltac:(lia) Hok) as (Hm & Hv & Hl & Hb).
  rewrite be_bytes_length in Hl. split; [done|]. split.
  - rewrite Hv, be_val_cons, be_val_bytes. change (8 * Z.of_nat 32) with 256. rewrite Z.mod_small; [lia|]. destruct Ha. unfold sval. lia.
  - split; [|done]. destruct (der_strip _); [done|cbn [length] in *; lia].
Qed.

Lemma sval_inj a b : limbs_ok a -> limbs_ok b -> sval a = sval b -> a = b.
Proof. intros [] []. destruct a, b. unfold sval. cbn in *. intros E. f_equal; lia. Qed.

Definition der_encoding (r s : list Z) : list Z :=
  [0x30; 4 + Z.of_nat (length s) + Z.of_nat (length r); 0x02; Z.of_nat (length r)] ++ r ++ [0x02; Z.of_nat (length s)] ++ s.

Lemma serialize_spec size a b : limbs_ok a -> limbs_ok b ->
  let n := 6 + Z.of_nat (length (contents b)) + Z.of_nat (length (contents a)) in
  8 <= n <= 72 /\ Z.of_nat (length (der_encoding (contents a) (contents b))) = n /\
  ecdsa_sig_serialize size a b = if size <? n then (0, n, []) else (1, n, der_encoding (contents a) (contents b)).
Proof.
  intros Ha Hb. cbv zeta. destruct (contents_spec a Ha) as (_ & _ & ? & _). destruct (contents_spec b Hb) as (_ & _ & ? & _).
  split; [lia|]. split; [|done]. unfold der_encoding. rewrite !length_app. cbn [length]. lia.
Qed.

Lemma parse_encoding a b : scalar_ok a -> scalar_ok b -> ecdsa_sig_parse (der_encoding (contents a) (contents b)) = Some (Some (a, b)).
Proof.
  intros [Ha Hav] [Hb Hbv]. destruct (contents_spec a Ha) as (Hma & Hva & Hla & Hoa). destruct (contents_spec b Hb) as (Hmb & Hvb & Hlb & Hob).
  set (ca := contents a) in *. set (cb := contents b) in *. set (sig := der_encoding ca cb).
  assert (Z.of_nat (length sig) = 6 + Z.of_nat (length cb) + Z.of_nat (length ca)) as Hlen.
  { unfold sig, der_encoding. rewrite !length_app. cbn [length]. lia. }
  assert (here sig 0 sig) as H0 by (apply here_at; lia). unfold sig at 2, der_encoding in H0. cbn [app] in H0.
  destruct (here_byte _ _ _ _ H0) as [B0 H1]. change (0 + 1) with 1 in H1. destruct (here_byte _ _ _ _ H1) as [_ H2].
  unfold ecdsa_sig_parse. destruct (Z.eqb_spec 0 (Z.of_nat (length sig))); [lia|]. rewrite B0. cbn [mbind option_bind Z.eqb Pos.eqb negb].
  rewrite (der_read_len_short _ _ _ _ _ H1 eq_refl) by lia. cbn [mbind option_bind].
  destruct (Z.ltb_spec (4 + Z.of_nat (length cb) + Z.of_nat (length ca)) 0); [lia|]. cbn [orb]. change (1 + 1) with 2 in *.
  destruct (Z.ltb_spec (Z.of_nat (length sig)) (2 + (4 + Z.of_nat (length cb) + Z.of_nat (length ca)))); [lia|].
  destruct (Z.eqb_spec (2 + (4 + Z.of_nat (length cb) + Z.of_nat (length ca))) (Z.of_nat (length sig))); [|lia]. cbn [negb].
  destruct (der_parse_minimal sig 2 ca ([0x02; Z.of_nat (length cb)] ++ cb) _ eq_refl Hma Hoa ltac:(lia) ltac:(lia) H2) as (r & -> & Hr & Hrv).
  cbn [mbind option_bind]. apply (here_skip _ _ [0x02; Z.of_nat (length ca)]) in H2. apply here_skip in H2. cbn [length] in H2.
  change (Z.of_nat 2) with 2 in H2. rewrite <- (app_nil_r cb) in H2 at 2. cbn [app] in H2.
  destruct (der_parse_minimal sig _ cb [] _ eq_refl Hmb Hob ltac:(lia) ltac:(lia) H2) as (s & -> & Hs & Hsv). cbn [mbind option_bind].
  destruct (Z.eqb_spec (2 + 2 + Z.of_nat (length ca) + 2 + Z.of_nat (length cb)) (Z.of_nat (length sig))); [|lia]. cbn [negb].
  assert (r = a) as -> by (apply sval_inj; [apply Hr|exact Ha|congruence]).
  assert (s = b) as -> by (apply sval_inj; [apply Hs|exact Hb|congruence]). reflexivity.
Qed.

(** ** One encoding per signature *)

(** The last round of the loop bounds the length it returns. *)
Lemma der_len_loop_inv sig sigend n ret p v p' : sigend < 2 ^ 31 -> p + Z.of_nat (S n) <= sigend -> 0 <= p ->
  der_len_loop (S n) ret sig p sigend = Some (Some v, p') -> 0 <= v < 2 ^ 31 \/ v = 2 ^ 64 - 1.
Proof.
  revert ret p. induction n as [|n IH]; intros ret p Hs Hp H0.
  - cbn [der_len_loop]. destruct (byte_at sig p) as [b|]; [|done]. cbn [mbind option_bind].
    set (t := u64 (Z.lor _ _)). assert (0 <= t < 2 ^ 64) by apply u64_range. clearbody t. rewrite (u64_small (sigend - p)) by lia.
    destruct (Z.ltb_spec (sigend - p) (u64 (t + Z.of_nat 1))) as [|Hle]; [done|]. intros [= <- _].
    destruct (decide (t = 2 ^ 64 - 1)); [by right|left]. rewrite u64_small in Hle by lia. lia.
  - intros H. remember (S n) as m. cbn [der_len_loop] in H. subst m. destruct (byte_at sig p) as [b|]; [|done]. cbn [mbind option_bind] in H.
    destruct (_ <? _) in H; [done|]. apply IH in H; [done|lia..].
Qed.

Lemma der_read_len_inv sig p v p' : Forall byte_ok sig -> Z.of_nat (length sig) < 2 ^ 31 -> 0 <= p <= Z.of_nat (length sig) ->
  der_read_len sig p (Z.of_nat (length sig)) = Some (v, p') -> v <= 0 \/ 128 <= v \/
  (0 <= v < 128 /\ p' = p + 1 /\ exists rest, here sig p (v :: rest)).
Proof.
  intros Hok Hs Hp. unfold der_read_len. destruct (Z.leb_spec (Z.of_nat (length sig)) p); [intros [= <- _]; lia|].
  destruct (byte_at_ok sig Hok p) as (b1 & E1 & Hb1); [lia|]. rewrite E1. cbn [mbind option_bind]. cbv zeta.
  destruct (b1 =? 0xFF); [intros [= <- _]; lia|]. rewrite high_bit_clear, low_bits by done. destruct (Z.ltb_spec b1 128).
  { intros [= <- <-]. right. right. split; [unfold byte_ok in Hb1; lia|]. split; [done|]. exists (drop (Z.to_nat (p + 1)) sig).
    split; [done|]. unfold byte_at in E1. destruct (Z.leb_spec 0 p); [|lia]. rewrite (drop_S _ _ _ E1). do 2 f_equal. lia. }
  destruct (Z.eqb_spec b1 0x80); [intros [= <- _]; lia|]. destruct (Z.ltb_spec (Z.of_nat (length sig) - (p + 1)) (b1 mod 128)); [intros [= <- _]; lia|].
  destruct (byte_at sig (p + 1)) as [b|]; [|done]. cbn [mbind option_bind]. destruct (b =? 0); [intros [= <- _]; lia|].
  destruct (8 <? _); [intros [= <- _]; lia|]. assert (1 <= b1 mod 128) by (unfold byte_ok in Hb1; dlia).
  destruct (Z.to_nat (b1 mod 128)) as [|k] eqn:En; [lia|].
  destruct (der_len_loop (S k) 0 sig (p + 1) _) as [[[ret|] p1]|] eqn:El; [| |done]; cbn [mbind option_bind]; [|intros [= <- _]; lia].
  apply der_len_loop_inv in El; [|lia..]. destruct (Z.ltb_spec ret 128); intros [= <- _]; [lia|]. destruct El as [Hr| ->]; [|left; by vm_compute].
  right. left. unfold int_of_size, u32. rewrite (Z.mod_small ret) by lia. rewrite Z.mod_small by lia. lia.
Qed.

Lemma der_padding_inv sig p b0 t rest : Forall byte_ok (b0 :: t) -> here sig p ((b0 :: t) ++ rest) -> b0 < 128 ->
  der_padding sig p (Z.of_nat (length (b0 :: t))) b0 = Some false -> minimal (b0 :: t).
Proof.
  intros Hok Hh Hb. destruct t as [|b1 t]; [done|]. destruct (here_byte _ _ _ _ Hh) as [_ Hh1]. destruct (here_byte _ _ _ _ Hh1) as [Hb1 _].
  apply Forall_cons in Hok as [Ho0 Hok]. apply Forall_cons in Hok as [Ho1 _].
  unfold der_padding. destruct (Z.ltb_spec 1 (Z.of_nat (length (b0 :: b1 :: t)))); [|cbn [length] in *; lia]. rewrite Hb1.
  cbn [mbind option_bind andb]. rewrite andb_true_r. intros Hp. split; [done|]. intros ->. cbn [Z.eqb orb] in Hp.
  rewrite high_bit_clear in Hp by done. destruct (Z.ltb_spec b1 128); [done|lia].
Qed.

Lemma here_split sig p n : 0 <= p -> 0 <= n -> p + n <= Z.of_nat (length sig) ->
  exists c rest, here sig p (c ++ rest) /\ Z.of_nat (length c) = n /\ here sig (p + n) rest.
Proof.
  intros Hp Hn Hl. set (d := drop (Z.to_nat p) sig). assert (length d = length sig - Z.to_nat p)%nat as Hd by (unfold d; by rewrite length_drop).
  exists (take (Z.to_nat n) d), (drop (Z.to_nat n) d). rewrite take_drop. assert (Z.of_nat (length (take (Z.to_nat n) d)) = n) as Hc by (rewrite length_take; lia).
  split; [split; [lia|done]|]. split; [done|].
  pose proof (here_skip sig p (take (Z.to_nat n) d) (drop (Z.to_nat n) d)) as Hs. rewrite take_drop, Hc in Hs. apply Hs. split; [lia|done].
Qed.

Lemma here_bytes sig p rest : Forall byte_ok sig -> here sig p rest -> Forall byte_ok rest.
Proof. intros Hok [_ <-]. by apply Forall_drop. Qed.

Lemma der_parse_inv sig p r p' : Forall byte_ok sig -> Z.of_nat (length sig) < 2 ^ 31 -> 0 <= p <= Z.of_nat (length sig) ->
  der_parse_integer sig p (Z.of_nat (length sig)) = Some (Some (r, p')) -> sval r <> 0 ->
  exists c rest, minimal c /\ Forall byte_ok c /\ be_val c = sval r /\ scalar_ok r /\ p' = p + 2 + Z.of_nat (length c) /\ (length c <= 33)%nat /\
    here sig p (0x02 :: Z.of_nat (length c) :: c ++ rest).
Proof.
  intros Hok Hs Hp. unfold der_parse_integer. destruct (Z.eqb_spec p (Z.of_nat (length sig))) as [|Hpe]; [done|].
  destruct (byte_at_ok sig Hok p) as (b & E & _); [lia|]. rewrite E. cbn [mbind option_bind]. destruct (Z.eqb_spec b 0x02) as [->|]; [|done]. cbn [negb].
  destruct (der_read_len_total sig Hok (p + 1)) as (rlen & p1 & Erl & Hp1); [lia|]. rewrite Erl. cbn [mbind option_bind].
  destruct (Z.leb_spec rlen 0); [done|]. destruct (Z.ltb_spec (Z.of_nat (length sig)) (p1 + rlen)); [done|]. cbn [orb].
  destruct (here_split sig p1 rlen) as (c & rest & Hc & Hcl & Hrest); [lia..|]. destruct c as [|b0 t]; [cbn in Hcl; lia|].
  destruct (here_byte _ _ _ _ Hc) as [-> _]. cbn [mbind option_bind]. rewrite <- Hcl. destruct (der_padding sig p1 _ b0) as [[]|] eqn:Epad; [done| |done].
  cbn [mbind option_bind]. pose proof (here_bytes _ _ _ Hok Hc) as Hcok. apply Forall_app in Hcok as [Hcok _].
  assert (byte_ok b0) as Hb0 by (by apply Forall_cons in Hcok as [? _]). rewrite high_bit_set, Nat2Z.id by done.
  destruct (Z.ltb_spec b0 128) as [Hlt|Hge]; cbn [negb].
  2:{ destruct (skip_zeros _ _ _) as [[m p2]|]; [|done]. cbn [mbind option_bind]. replace ((if 32 <? Z.of_nat m then 1 else 1) =? 0) with false by (by destruct (32 <? _)).
      cbn [mbind option_bind]. destruct (32 <? _); cbn [Z.eqb]; intros [= <- _]; done. }
  pose proof (der_padding_inv _ _ _ _ _ Hcok Hc Hlt Epad) as Hm. set (cc := b0 :: t) in *.
  destruct (skip_zeros_minimal sig p1 cc rest Hm Hc) as (z & c' & Hcc & -> & Hh' & Hn). cbn [mbind option_bind].
  destruct (Z.ltb_spec 32 (Z.of_nat (length c'))) as [Hbig|Hsmall].
  { cbn [Z.eqb]. cbn [mbind option_bind]. cbn [Z.eqb]. intros [= <- _]. done. }
  cbn [Z.eqb]. rewrite (der_bytes_here _ _ c' rest) by done. cbn [fmap option_fmap option_map].
  assert (Forall byte_ok c') as Hok' by (rewrite Hcc in Hcok; by apply Forall_app in Hcok as [_ ?]).
  destruct (padded_bytes c' Hok' ltac:(lia)) as (P1 & P2 & P3). pose proof (set_b32_spec _ P1 P2) as HB.
  destruct (scalar_set_b32 _) as [r' o]. destruct HB as (Hr' & Hrv & Ho). cbn [mbind option_bind]. rewrite P3 in Hrv, Ho.
  destruct (Z.leb_spec order (be_val c')) as [|Hvlt]; rewrite Ho; cbn [Z.b2z Z.eqb]; intros [= <- <-] Hnz; [done|].
  assert (length cc <= 33)%nat as Hcl33.
  { rewrite Hcc, length_app, length_replicate. destruct z as [|[|z]]; [lia|lia|]. rewrite Hcc in Hm. cbn in Hm. destruct Hm as [_ Hm]. specialize (Hm eq_refl). lia. }
  apply der_read_len_inv in Erl; [|done|done|lia]. destruct Erl as [|[|(_ & -> & rest' & Hh1)]]; [lia|lia|].
  exists cc, rest. split; [done|]. split; [done|]. split; [|split; [done|split; [|split; [done|]]]].
  - rewrite Hrv, Z.mod_small by (pose proof (be_val_range _ Hok'); lia). rewrite Hcc. apply be_val_zeros.
  - rewrite Hcc, length_app, length_replicate. lia.
  - unfold byte_at in E. destruct (Z.leb_spec 0 p); [|lia]. split; [lia|]. rewrite (drop_S _ _ _ E). f_equal.
    replace (S (Z.to_nat p)) with (Z.to_nat (p + 1)) by lia. destruct (here_byte _ _ _ _ Hh1) as [_ Hh2].
    rewrite (proj2 Hh1), Hcl. f_equal. rewrite <- (proj2 Hc), <- (proj2 Hh2). done.
Qed.

Lemma minimal_contents c r : minimal c -> Forall byte_ok c -> (length c <= 33)%nat -> limbs_ok r -> be_val c = sval r -> contents r = c.
Proof.
  intros Hm Hok Hl Hr Hv. unfold contents. rewrite get_b32_spec by done.
  replace (0 :: be_bytes 32 (sval r)) with (replicate (33 - length c) 0 ++ c); [by apply der_strip_minimal|].
  assert (Forall byte_ok (replicate (33 - length c) 0 ++ c)) as H1 by (apply Forall_app; split; [by apply Forall_replicate|done]).
  assert (Forall byte_ok (0 :: be_bytes 32 (sval r))) as H2 by (constructor; [done|apply be_bytes_ok]).
  assert (length (replicate (33 - length c) 0 ++ c) = length (0 :: be_bytes 32 (sval r))) as Hlen.
  { cbn [length]. rewrite length_app, length_replicate, be_bytes_length. lia. }
  rewrite <- (be_bytes_val _ H1), <- (be_bytes_val _ H2), Hlen. f_equal. rewrite be_val_zeros, be_val_cons, be_val_bytes, Hv.
  change (8 * Z.of_nat 32) with 256. rewrite Z.mod_small; [lia|]. destruct Hr. unfold sval. lia.
Qed.

Lemma parse_canonical sig r s : Forall byte_ok sig -> Z.of_nat (length sig) < 2 ^ 31 -> ecdsa_sig_parse sig = Some (Some (r, s)) ->
  sval r <> 0 -> sval s <> 0 -> scalar_ok r /\ scalar_ok s /\ sig = der_encoding (contents r) (contents s).
Proof.
  intros Hok Hs Hp Hr0 Hs0. unfold ecdsa_sig_parse in Hp. destruct (Z.eqb_spec 0 (Z.of_nat (length sig))); [done|].
  destruct (byte_at_ok sig Hok 0) as (b & E & _); [lia|]. rewrite E in Hp. cbn [mbind option_bind] in Hp.
  destruct (Z.eqb_spec b 0x30) as [Hb30|]; [|done]. cbn [negb] in Hp. rewrite Hb30 in E. clear b Hb30.
  destruct (der_read_len sig 1 _) as [[rlen p1]|] eqn:Erl; [|done]. cbn [mbind option_bind] in Hp.
  destruct (der_read_len_total sig Hok 1) as (? & ? & Erl' & Hp1); [lia|]. rewrite Erl in Erl'. injection Erl' as <- <-.
  destruct (_ || _) eqn:Eb in Hp; [done|]. apply orb_false_iff in Eb as [Hb1%Z.ltb_ge Hb2%Z.ltb_ge].
  destruct (Z.eqb_spec (p1 + rlen) (Z.of_nat (length sig))) as [Hend|]; [|done]. cbn [negb] in Hp.
  destruct (der_parse_integer sig p1 _) as [[[r' p2]|]|] eqn:Er; [|done..]. cbn [mbind option_bind] in Hp.
  destruct (der_parse_integer_total sig Hok p1) as (o & Eo & Ho); [lia|]. rewrite Er in Eo. injection Eo as <-. specialize (Ho _ _ eq_refl).
  destruct (der_parse_integer sig p2 _) as [[[s' p3]|]|] eqn:Es; [|done..]. cbn [mbind option_bind] in Hp.
  destruct (Z.eqb_spec p3 (Z.of_nat (length sig))) as [Hp3|]; [|done]. cbn [negb] in Hp. injection Hp as -> ->.
  apply der_parse_inv in Er as (c & rest & Hm & Hcok & Hv & Hr & Hp2 & Hl & Hh); [|done|done|lia|done].
  apply der_parse_inv in Es as (c' & rest' & Hm' & Hcok' & Hv' & Hs' & Hp3' & Hl' & Hh'); [|done|done|lia|done].
  split; [done|]. split; [done|]. rewrite (minimal_contents c r), (minimal_contents c' s) by (done || apply Hr || apply Hs').
  apply der_read_len_inv in Erl; [|done|done|lia]. destruct Erl as [|[|(_ & -> & rest1 & Hh1)]]; [lia|lia|].
  assert (rest' = []) as ->.
  { pose proof (here_length _ _ _ Hh') as H. cbn [length] in H. rewrite length_app in H. destruct rest'; [done|cbn [length] in H; lia]. }
  assert (0 <= 0 <= Z.of_nat (length sig)) as Hz by lia. unfold byte_at in E. cbn [Z.leb Z.compare] in E.
  assert (sig = 0x30 :: rlen :: 0x02 :: Z.of_nat (length c) :: c ++ rest) as Hsig.
  { transitivity (drop (Z.to_nat 0) sig); [done|]. rewrite (drop_S _ _ _ E). f_equal. change (S (Z.to_nat 0)) with (Z.to_nat 1).
    destruct (here_byte _ _ _ _ Hh1) as [_ Hh2]. rewrite (proj2 Hh1). f_equal. rewrite <- (proj2 Hh2). apply Hh. }
  assert (here sig p2 rest) as Hrest.
  { apply (here_skip _ _ [0x02; Z.of_nat (length c)]), here_skip in Hh. cbn [length] in Hh. subst p2. exact Hh. }
  pose proof (proj2 Hrest) as Ed. rewrite (proj2 Hh'), app_nil_r in Ed. subst rest. unfold der_encoding. cbn [app].
  rewrite Hsig at 1. do 2 f_equal. lia.
Qed.

(** ** Properties *)

(** Serialising needs between 8 and 72 bytes, tells how many when the buffer is
    too small, and otherwise writes an encoding that parses to the same pair. *)
Theorem der_roundtrip size r s : scalar_ok r -> scalar_ok s ->
  let '(ret, n, out) := ecdsa_sig_serialize size r s in
  8 <= n <= 72 /\
  if size <? n then ret = 0 /\ out = []
  else ret = 1 /\ Z.of_nat (length out) = n /\ ecdsa_sig_parse out = Some (Some (r, s)).
Proof.
  intros Hr Hs. destruct (serialize_spec size r s (proj1 Hr) (proj1 Hs)) as (Hn & Hl & ->).
  destruct (size <? _) eqn:E; rewrite E; split; [done|done|done|]. split; [done|]. split; [done|]. by apply parse_encoding.
Qed.

(** C36. On any bytes the parser reads nothing outside the input; and a pair of
    nonzero scalars is read from one encoding of less than 2^31 bytes only, the
    serialiser's. *)
Theorem der_strict sig : Forall byte_ok sig ->
  ecdsa_sig_parse sig <> None /\
  forall r s, Z.of_nat (length sig) < 2 ^ 31 -> ecdsa_sig_parse sig = Some (Some (r, s)) -> sval r <> 0 -> sval s <> 0 ->
    ecdsa_sig_serialize 72 r s = (1, Z.of_nat (length sig), sig).
Proof.
  intros Hok. split; [by apply ecdsa_sig_parse_total|]. intros r s Hl Hp Hr0 Hs0.
  destruct (parse_canonical sig r s Hok Hl Hp Hr0 Hs0) as (Hr & Hs & Hsig).
  destruct (serialize_spec 72 r s (proj1 Hr) (proj1 Hs)) as (Hn & Hlen & ->). rewrite <- Hsig in *. rewrite Hlen.
  by destruct (Z.ltb_spec 72 (6 + Z.of_nat (length (contents s)) + Z.of_nat (length (contents r)))); [lia|].
Qed.

Lemma der_roundtrip_witness :
  let r := mkScalar 5 0 0 (2 ^ 63) in let s := mkScalar 1 0 0 0 in
  let '(ret, n, out) := ecdsa_sig_serialize 72 r s in
  8 <= n <= 72 /\
  if 72 <? n then ret = 0 /\ out = []
  else ret = 1 /\ Z.of_nat (length out) = n /\ ecdsa_sig_parse out = Some (Some (r, s)).
Proof. intros r s. apply (der_roundtrip 72 r s); (split; [split; cbn; lia|by vm_compute]). Defined.

Lemma der_strict_witness :
  let sig := [0x30; 6; 2; 1; 1; 2; 1; 1] in
  ecdsa_sig_parse sig <> None /\
  forall r s, Z.of_nat (length sig) < 2 ^ 31 -> ecdsa_sig_parse sig = Some (Some (r, s)) -> sval r <> 0 -> sval s <> 0 ->
    ecdsa_sig_serialize 72 r s = (1, Z.of_nat (length sig), sig).
Proof. intros sig. apply (der_strict sig). repeat (apply Forall_cons; split; [by split|]). apply Forall_nil_2. Defined.
