(* ===== verification/ScalarImpl.v ===== *)
(** * Inverse and endomorphism of scalars

    [secp256k1/src/scalar_impl.h]: the inverse by an addition chain, over any
    representation of scalars that multiplies and squares, and
    scalar_split_lambda over the four-limb representation. *)

From S2P Require Import Prelude Bytes Limbs Primality Scalar4x64 ModExp.

Section Inverse.
Context {A : Type} `{MulMod A}.

(** The chain up to x126; u2 .. u13 and x2 .. x126 are powers of [x]. *)
Record chain := mkChain { ch_x2 : A; ch_x3 : A; ch_x6 : A; ch_x8 : A; ch_x126 : A;
  ch_u5 : A; ch_u9 : A; ch_u11 : A; ch_u13 : A }.

Definition inverse_prefix (x : A) : chain :=
  let u2 := mm_sqr x in
  let x2 := mm_mul u2 x in
  let u5 := mm_mul u2 x2 in
  let x3 := mm_mul u5 u2 in
  let u9 := mm_mul x3 u2 in
  let u11 := mm_mul u9 u2 in
  let u13 := mm_mul u11 u2 in
  let x6 := mm_mul (mm_sqr (mm_sqr u13)) u11 in
  let x8 := mm_mul (mm_sqr (mm_sqr x6)) x2 in
  let x14 := mm_mul (sqr_n 5 (mm_sqr x8)) x6 in
  let x28 := mm_mul (sqr_n 13 (mm_sqr x14)) x14 in
  let x56 := mm_mul (sqr_n 27 (mm_sqr x28)) x28 in
  let x112 := mm_mul (sqr_n 55 (mm_sqr x56)) x56 in
  let x126 := mm_mul (sqr_n 13 (mm_sqr x112)) x14 in
  mkChain x2 x3 x6 x8 x126 u5 u9 u11 u13.

(** The accumulation: [n] squarings, then a factor. *)
Definition accumulate (n : nat) (u t : A) : A := mm_mul (sqr_n n t) u.

Definition scalar_inverse (x : A) : A :=
  let c := inverse_prefix x in
  let t := ch_x126 c in
  let t := accumulate 3 (ch_u5 c) t in
  let t := accumulate 4 (ch_x3 c) t in
  let t := accumulate 4 (ch_u5 c) t in
  let t := accumulate 5 (ch_u11 c) t in
  let t := accumulate 4 (ch_u11 c) t in
  let t := accumulate 4 (ch_x3 c) t in
  let t := accumulate 5 (ch_x3 c) t in
  let t := accumulate 6 (ch_u13 c) t in
  let t := accumulate 4 (ch_u5 c) t in
  let t := accumulate 3 (ch_x3 c) t in
  let t := accumulate 5 (ch_u9 c) t in
  let t := accumulate 6 (ch_u5 c) t in
  let t := accumulate 10 (ch_x3 c) t in
  let t := accumulate 4 (ch_x3 c) t in
  let t := accumulate 9 (ch_x8 c) t in
  let t := accumulate 5 (ch_u9 c) t in
  let t := accumulate 6 (ch_u11 c) t in
  let t := accumulate 4 (ch_u13 c) t in
  let t := accumulate 5 (ch_x2 c) t in
  let t := accumulate 6 (ch_u13 c) t in
  let t := accumulate 10 (ch_u13 c) t in
  let t := accumulate 4 (ch_u9 c) t in
  let t := accumulate 6 x t in
  accumulate 8 (ch_x6 c) t.

(** USE_SCALAR_INV_BUILTIN *)
Definition scalar_inverse_var (x : A) : A := scalar_inverse x.
End Inverse.

Definition scalar_is_even (a : scalar) : bool := Z.land (d0 a) 1 =? 0.

(** SECP256K1_SCALAR_CONST *)
Definition scalar_const (c7 c6 c5 c4 c3 c2 c1 c0 : Z) : scalar :=
  mkScalar (Z.lor (Z.shiftl c1 32) c0) (Z.lor (Z.shiftl c3 32) c2)
           (Z.lor (Z.shiftl c5 32) c4) (Z.lor (Z.shiftl c7 32) c6).

Definition minus_lambda : scalar := scalar_const
  0xAC9C52B3 0x3FA3CF1F 0x5AD9E3FD 0x77ED9BA4 0xA880B9FC 0x8EC739C2 0xE0CFC810 0xB51283CF.
Definition minus_b1 : scalar := scalar_const 0 0 0 0 0xE4437ED6 0x010E8828 0x6F547FA9 0x0ABFE4C3.
Definition minus_b2 : scalar := scalar_const
  0xFFFFFFFF 0xFFFFFFFF 0xFFFFFFFF 0xFFFFFFFE 0x8A280AC5 0x0774346D 0xD765CDA8 0x3DB1562C.
Definition g1 : scalar := scalar_const 0 0 0 0x00003086 0xD221A7D4 0x6BCDE86C 0x90E49284 0xEB153DAB.
Definition g2 : scalar := scalar_const 0 0 0 0x0000E443 0x7ED6010E 0x88286F54 0x7FA90ABF 0xE4C42212.

(** Returns r1 and r2. *)
Definition scalar_split_lambda (a : scalar) : scalar * scalar :=
  let c1 := scalar_mul_shift_var a g1 272 in
  let c2 := scalar_mul_shift_var a g2 272 in
  let c1 := scalar_mul c1 minus_b1 in
  let c2 := scalar_mul c2 minus_b2 in
  let r2 := (scalar_add c1 c2).1 in
  let r1 := scalar_mul r2 minus_lambda in
  ((scalar_add r1 a).1, r2).

(** ** The four-limb representation multiplies modulo the order *)

#[export] Instance scalar_mulmod : MulMod scalar := {| mm_mul := scalar_mul; mm_sqr := scalar_sqr |}.

#[export, refine] Instance scalar_laws : MulModLaws scalar order := {| mm_ok := scalar_ok; mm_val := sval |}.
Proof.
  - done.
  - intros a b [Ha _] [Hb _]. simpl. destruct (scalar_mul_spec a b Ha Hb) as [Hok ->]. by rewrite Z.mod_mod.
  - intros a [Ha _]. simpl. destruct (scalar_sqr_spec a Ha) as [Hok ->]. by rewrite Z.mod_mod.
Defined.

Section InverseSpec.
Context {A : Type} `{HL : MulModLaws A m}.

Lemma inverse_prefix_spec x : mm_ok x -> let c := inverse_prefix x in
  is_pow x 3 (ch_x2 c) /\ is_pow x 7 (ch_x3 c) /\ is_pow x 63 (ch_x6 c) /\ is_pow x 255 (ch_x8 c) /\
  is_pow x (2 ^ 126 - 1) (ch_x126 c) /\ is_pow x 5 (ch_u5 c) /\ is_pow x 9 (ch_u9 c) /\
  is_pow x 11 (ch_u11 c) /\ is_pow x 13 (ch_u13 c).
Proof.
  intros Hx%is_pow_1. unfold inverse_prefix. cbv zeta. cbn [ch_x2 ch_x3 ch_x6 ch_x8 ch_x126 ch_u5 ch_u9 ch_u11 ch_u13].
  set (u2 := mm_sqr x). assert (is_pow x 2 u2) as H2 by (by apply (is_pow_sqr x 1)). clearbody u2.
  chain_name (mm_mul u2 x) 3. chain_name (mm_mul u2 y) 5. chain_name (mm_mul y0 u2) 7.
  chain_name (mm_mul y1 u2) 9. chain_name (mm_mul y2 u2) 11. chain_name (mm_mul y3 u2) 13.
  chain_name (mm_mul (mm_sqr (mm_sqr y4)) y3) 63. chain_name (mm_mul (mm_sqr (mm_sqr y5)) y) 255.
  chain_name (mm_mul (sqr_n 5 (mm_sqr y6)) y5) (2 ^ 14 - 1).
  chain_name (mm_mul (sqr_n 13 (mm_sqr y7)) y7) (2 ^ 28 - 1).
  chain_name (mm_mul (sqr_n 27 (mm_sqr y8)) y8) (2 ^ 56 - 1).
  chain_name (mm_mul (sqr_n 55 (mm_sqr y9)) y9) (2 ^ 112 - 1).
  chain_name (mm_mul (sqr_n 13 (mm_sqr y10)) y7) (2 ^ 126 - 1).
  auto 10.
Qed.

Lemma accumulate_pow x n u t e f : is_pow x e t -> is_pow x f u -> is_pow x (2 ^ Z.of_nat n * e + f) (accumulate n u t).
Proof. intros Ht Hu. apply is_pow_mul; [by apply is_pow_sqr_n|done]. Qed.

(** The chain computes the power [order - 2]. *)
Lemma inverse_pow x : mm_ok x -> is_pow x (order - 2) (scalar_inverse x).
Proof.
  intros Hx. destruct (inverse_prefix_spec x Hx) as (H2 & H3 & H6 & H8 & H126 & H5 & H9 & H11 & H13).
  apply is_pow_1 in Hx. unfold scalar_inverse. cbv zeta.
  eapply is_pow_eq; [repeat (apply accumulate_pow; [|eassumption]); exact H126|]. by vm_compute.
Qed.
End InverseSpec.

(** ** scalar_split_lambda *)

(** The cube root of unity, and the short vectors, of the comment in the
    code. *)
Definition lambda : Z := 0x5363ad4cc05c30e0a5261c028812645a122e22ea20816678df02967c1b23bd72.
Definition va1 : Z := 0x3086d221a7d46bcde86c90e49284eb15.
Definition vb1 : Z := - 0xe4437ed6010e88286f547fa90abfe4c3.
Definition va2 : Z := 0x0114ca50f7a8e2f3f657c1108d9d44cfd8.
Definition vb2 : Z := 0x3086d221a7d46bcde86c90e49284eb15.

Lemma split_consts : sval minus_lambda = order - lambda /\ sval minus_b1 = - vb1 /\
  sval minus_b2 = order - vb2 /\ sval g1 = 0x3086d221a7d46bcde86c90e49284eb153dab /\
  sval g2 = 0xe4437ed6010e88286f547fa90abfe4c42212 /\
  scalar_ok minus_lambda /\ scalar_ok minus_b1 /\ scalar_ok minus_b2 /\ limbs_ok g1 /\ limbs_ok g2.
Proof. repeat split; by vm_compute. Qed.

(** The vectors are in the lattice of (lambda, 1). *)
Lemma lattice : (va1 + vb1 * lambda) mod order = 0 /\ (va2 + vb2 * lambda) mod order = 0.
Proof. split; by vm_compute. Qed.

(** The rounded coefficients leave a short remainder. *)
Lemma short_remainder a : 0 <= a < order ->
  let c1 := (a * sval g1 + 2 ^ 271) / 2 ^ 272 in let c2 := (a * sval g2 + 2 ^ 271) / 2 ^ 272 in
  Z.abs (a - c1 * va1 - c2 * va2) < 2 ^ 128 /\ Z.abs (- c1 * vb1 - c2 * vb2) < 2 ^ 128.
Proof.
  intros Ha c1 c2. destruct split_consts as (_ & _ & _ & Hg1 & Hg2 & _).
  assert (forall x, x = 2 ^ 272 * (x / 2 ^ 272) + x mod 2 ^ 272 /\ 0 <= x mod 2 ^ 272 < 2 ^ 272) as Hd.
  { intros x. split; [by apply Z.div_mod|by apply Z.mod_pos_bound]. }
  destruct (Hd (a * sval g1 + 2 ^ 271)) as [E1 R1]. destruct (Hd (a * sval g2 + 2 ^ 271)) as [E2 R2].
  fold c1 in E1. fold c2 in E2. rewrite Hg1, Hg2 in *. clearbody c1 c2.
  set (r1 := (_ + _) mod _) in E1, R1. set (r2 := (_ + _) mod _) in E2, R2. clearbody r1 r2. clear Hd Hg1 Hg2.
  unfold va1, va2, vb1, vb2, order in *. lia.
Qed.

#[local] Opaque scalar_mul scalar_add scalar_mul_shift_var.

Lemma split_lambda_k a : scalar_ok a ->
  let '(r1, r2) := scalar_split_lambda a in
  scalar_ok r1 /\ scalar_ok r2 /\ exists k1 k2, Z.abs k1 < 2 ^ 128 /\ Z.abs k2 < 2 ^ 128 /\
    sval r1 = k1 mod order /\ sval r2 = k2 mod order /\ (k1 + lambda * k2) mod order = sval a.
Proof.
  intros Ha. destruct split_consts as (Hml & Hmb1 & Hmb2 & _ & _ & Hol & Hob1 & Hob2 & Hog1 & Hog2).
  assert (0 <= sval a < order) as Har by exact (scalar_ok_range _ Ha).
  unfold scalar_split_lambda. cbv zeta.
  destruct (mul_shift_272_spec a g1 (proj1 Ha) Hog1) as [Hc1 Hv1].
  destruct (mul_shift_272_spec a g2 (proj1 Ha) Hog2) as [Hc2 Hv2].
  destruct (short_remainder (sval a) Har) as [Hk1 Hk2]. rewrite <- Hv1, <- Hv2 in Hk1, Hk2.
  set (s1 := scalar_mul_shift_var a g1 272) in *. set (s2 := scalar_mul_shift_var a g2 272) in *.
  clearbody s1 s2. clear Hv1 Hv2.
  destruct (scalar_mul_spec s1 minus_b1 Hc1 (proj1 Hob1)) as [Ho1 Hm1].
  destruct (scalar_mul_spec s2 minus_b2 Hc2 (proj1 Hob2)) as [Ho2 Hm2].
  pose proof (scalar_add_spec _ _ Ho1 Ho2) as Hadd. destruct (scalar_add (scalar_mul s1 minus_b1) _) as [r2 o2].
  destruct Hadd as (Hor2 & Hr2 & _). cbn [fst].
  destruct (scalar_mul_spec r2 minus_lambda (proj1 Hor2) (proj1 Hol)) as [Ho3 Hm3].
  pose proof (scalar_add_spec _ _ Ho3 Ha) as Hadd. destruct (scalar_add (scalar_mul r2 minus_lambda) a) as [r1 o1].
  destruct Hadd as (Hor1 & Hr1 & _). cbn [fst]. split; [done|]. split; [done|].
  set (k1 := sval a - sval s1 * va1 - sval s2 * va2) in *. set (k2 := - sval s1 * vb1 - sval s2 * vb2) in *.
  destruct lattice as [Hl1 Hl2]. apply Z.mod_divide in Hl1 as [z1 Hz1]; [|done].
  apply Z.mod_divide in Hl2 as [z2 Hz2]; [|done].
  assert (sval r2 = k2 mod order) as Hr2k.
  { rewrite Hr2, Hm1, Hm2, Hmb1, Hmb2, <- Z.add_mod by done.
    apply (mod_order_eq _ _ (sval s2)). subst k2. lia. }
  assert (sval a - lambda * k2 = k1 + (sval s1 * z1 + sval s2 * z2) * order) as Hak.
  { replace ((sval s1 * z1 + sval s2 * z2) * order) with (sval s1 * (z1 * order) + sval s2 * (z2 * order)) by ring.
    rewrite <- Hz1, <- Hz2. subst k1 k2. ring. }
  exists k1, k2. split; [done|]. split; [done|]. split; [|split; [done|]].
  - rewrite Hr1, Hm3, Hml, Zplus_mod_idemp_l. pose proof (Z.div_mod k2 order ltac:(done)) as Hq.
    rewrite <- Hr2k in Hq. set (q := k2 / order) in *. clearbody q. clearbody k1 k2.
    apply (mod_order_eq _ _ (sval r2 + lambda * q + sval s1 * z1 + sval s2 * z2)). nia.
  - rewrite <- (Z.mod_small (sval a) order) by lia.
    apply (mod_order_eq _ _ (- (sval s1 * z1 + sval s2 * z2))). lia.
Qed.

(** ** Properties *)

(** The addition chain of scalar_inverse computes the inverse modulo the
    order, which is prime, on the four-limb scalars; the inverse of zero is
    zero. *)
Theorem scalar_inverse_correct x : scalar_ok x ->
  scalar_ok (scalar_inverse x) /\
  (sval x * sval (scalar_inverse x)) mod order = (if sval x =? 0 then 0 else 1) /\
  (sval x = 0 -> sval (scalar_inverse x) = 0).
Proof.
  intros Hx. destruct (inverse_pow (HL := scalar_laws) x Hx) as (_ & Hok & Hv). split; [done|].
  change (mm_val (MulModLaws := scalar_laws)) with sval in Hv. split.
  - rewrite (pow_inverse order (sval x)) by (done || apply prime_order).
    rewrite (Z.mod_small (sval x)); [done|]. by apply scalar_ok_range.
  - intros H0. rewrite H0 in Hv. rewrite <- (Z.mod_small (sval (scalar_inverse x)) order); [exact Hv|].
    by apply scalar_ok_range.
Qed.

(** scalar_split_lambda splits [a] into two scalars of at most 128 bits (up to
    sign) with r1 + lambda * r2 = a modulo the order. *)
Theorem split_lambda_correct a : scalar_ok a ->
  let '(r1, r2) := scalar_split_lambda a in
  scalar_ok r1 /\ scalar_ok r2 /\ (sval r1 + lambda * sval r2) mod order = sval a /\
  exists k1 k2, Z.abs k1 < 2 ^ 128 /\ Z.abs k2 < 2 ^ 128 /\
    sval r1 = k1 mod order /\ sval r2 = k2 mod order.
Proof.
  intros Ha. pose proof (split_lambda_k a Ha) as H. destruct (scalar_split_lambda a) as [r1 r2].
  destruct H as (H1 & H2 & k1 & k2 & Hk1 & Hk2 & Hr1 & Hr2 & Hs).
  split; [done|]. split; [done|]. split; [|by exists k1, k2].
  rewrite Hr1, Hr2, Z.add_mod_idemp_l by done. rewrite <- Z.add_mod_idemp_r by done.
  by rewrite Z.mul_mod_idemp_r, Z.add_mod_idemp_r by done.
Qed.

(** Two thirds of the way through the group: 2^255. *)
Definition sample : scalar := mkScalar 0 0 0 (2 ^ 63).
Lemma sample_ok : scalar_ok sample.
Proof. repeat split; by vm_compute. Qed.

Lemma scalar_inverse_correct_witness :
  scalar_ok (scalar_inverse sample) /\
  (sval sample * sval (scalar_inverse sample)) mod order = (if sval sample =? 0 then 0 else 1) /\
  (sval sample = 0 -> sval (scalar_inverse sample) = 0).
Proof. apply scalar_inverse_correct. exact sample_ok. Defined.

Lemma split_lambda_correct_witness :
  let '(r1, r2) := scalar_split_lambda sample in
  scalar_ok r1 /\ scalar_ok r2 /\ (sval r1 + lambda * sval r2) mod order = sval sample /\
  exists k1 k2, Z.abs k1 < 2 ^ 128 /\ Z.abs k2 < 2 ^ 128 /\
    sval r1 = k1 mod order /\ sval r2 = k2 mod order.
Proof. exact (split_lambda_correct sample sample_ok). Defined.
