(* ===== verification/Sha256.v ===== *)
(** * SHA-256, HMAC-SHA256 and RFC 6979 of secp256k1

    [secp256k1/src/hash_impl.h].  The first half translates the code: the
    transformation with its circular buffer of sixteen words, the buffered
    writes, the padding, HMAC and the nonce generator.  The second half gives
    the functions of FIPS 180-4, RFC 2104 and RFC 6979 on whole messages and
    proves that the code computes them. *)

From S2P Require Import Prelude Bytes.

(** ** The code *)

Section Code.
Context `{Host}.

(** [x >> n | x << (32 - n)] on uint32_t. *)
Definition rot (n : Z) (x : Z) : Z := Z.lor (Z.shiftr x n) (u32 (Z.shiftl x (32 - n))).

Definition Ch (x y z : Z) : Z := Z.lxor z (Z.land x (Z.lxor y z)).
Definition Maj (x y z : Z) : Z := Z.lor (Z.land x y) (Z.land z (Z.lor x y)).
Definition Sigma0 (x : Z) : Z := Z.lxor (Z.lxor (rot 2 x) (rot 13 x)) (rot 22 x).
Definition Sigma1 (x : Z) : Z := Z.lxor (Z.lxor (rot 6 x) (rot 11 x)) (rot 25 x).
Definition sigma0 (x : Z) : Z := Z.lxor (Z.lxor (rot 7 x) (rot 18 x)) (Z.shiftr x 3).
Definition sigma1 (x : Z) : Z := Z.lxor (Z.lxor (rot 17 x) (rot 19 x)) (Z.shiftr x 10).

(** The variables a .. h. *)
Record Vars := mkVars { va : Z; vb : Z; vc : Z; vd : Z; ve : Z; vf : Z; vg : Z; vh : Z }.

(** Round(a, ..., h, k, w), followed by the renaming of the variables that
    the next line of the code makes: it calls Round(h, a, ..., g). *)
Definition Round (v : Vars) (k w : Z) : Vars :=
  let t1 := u32 (vh v + Sigma1 (ve v) + Ch (ve v) (vf v) (vg v) + k + w) in
  let t2 := u32 (Sigma0 (va v) + Maj (va v) (vb v) (vc v)) in
  mkVars (u32 (t1 + t2)) (va v) (vb v) (vc v) (u32 (vd v + t1)) (ve v) (vf v) (vg v).

(** The constant of each of the 64 lines. *)
Definition round_const (line : nat) : Z :=
  match line with
  | 0 => 0x428a2f98%Z | 1 => 0x71374491%Z | 2 => 0xb5c0fbcf%Z | 3 => 0xe9b5dba5%Z
  | 4 => 0x3956c25b%Z | 5 => 0x59f111f1%Z | 6 => 0x923f82a4%Z | 7 => 0xab1c5ed5%Z
  | 8 => 0xd807aa98%Z | 9 => 0x12835b01%Z | 10 => 0x243185be%Z | 11 => 0x550c7dc3%Z
  | 12 => 0x72be5d74%Z | 13 => 0x80deb1fe%Z | 14 => 0x9bdc06a7%Z | 15 => 0xc19bf174%Z
  | 16 => 0xe49b69c1%Z | 17 => 0xefbe4786%Z | 18 => 0x0fc19dc6%Z | 19 => 0x240ca1cc%Z
  | 20 => 0x2de92c6f%Z | 21 => 0x4a7484aa%Z | 22 => 0x5cb0a9dc%Z | 23 => 0x76f988da%Z
  | 24 => 0x983e5152%Z | 25 => 0xa831c66d%Z | 26 => 0xb00327c8%Z | 27 => 0xbf597fc7%Z
  | 28 => 0xc6e00bf3%Z | 29 => 0xd5a79147%Z | 30 => 0x06ca6351%Z | 31 => 0x14292967%Z
  | 32 => 0x27b70a85%Z | 33 => 0x2e1b2138%Z | 34 => 0x4d2c6dfc%Z | 35 => 0x53380d13%Z
  | 36 => 0x650a7354%Z | 37 => 0x766a0abb%Z | 38 => 0x81c2c92e%Z | 39 => 0x92722c85%Z
  | 40 => 0xa2bfe8a1%Z | 41 => 0xa81a664b%Z | 42 => 0xc24b8b70%Z | 43 => 0xc76c51a3%Z
  | 44 => 0xd192e819%Z | 45 => 0xd6990624%Z | 46 => 0xf40e3585%Z | 47 => 0x106aa070%Z
  | 48 => 0x19a4c116%Z | 49 => 0x1e376c08%Z | 50 => 0x2748774c%Z | 51 => 0x34b0bcb5%Z
  | 52 => 0x391c0cb3%Z | 53 => 0x4ed8aa4a%Z | 54 => 0x5b9cca4f%Z | 55 => 0x682e6ff3%Z
  | 56 => 0x748f82ee%Z | 57 => 0x78a5636f%Z | 58 => 0x84c87814%Z | 59 => 0x8cc70208%Z
  | 60 => 0x90befffa%Z | 61 => 0xa4506ceb%Z | 62 => 0xbef9a3f7%Z | _ => 0xc67178f2%Z
  end%nat.
Definition round_consts : list Z := round_const <$> seq 0 64.

(** w(i mod 16) *)
Definition warr (w : list Z) (i : nat) : Z := w !!! (i `mod` 16)%nat.

(** w(i) += sigma1(w(i+14)) + w(i+9) + sigma0(w(i+1)), the indices modulo
    16; the first sixteen lines only load. *)
Definition update_w (i : nat) (w : list Z) : list Z :=
  if (i <? 16)%nat then w
  else <[(i `mod` 16)%nat := u32 (warr w i + (sigma1 (warr w (i + 14)) + warr w (i + 9) + sigma0 (warr w (i + 1))))]> w.

(** The line of round [i]. *)
Definition round_line (vw : Vars * list Z) (i : nat) : Vars * list Z :=
  let w := update_w i vw.2 in (Round vw.1 (round_consts !!! i) (warr w i), w).

Definition vars_of (s : list Z) : Vars :=
  mkVars (s !!! 0%nat) (s !!! 1%nat) (s !!! 2%nat) (s !!! 3%nat)
         (s !!! 4%nat) (s !!! 5%nat) (s !!! 6%nat) (s !!! 7%nat).
Definition vars_list (v : Vars) : list Z := [va v; vb v; vc v; vd v; ve v; vf v; vg v; vh v].

(** The macro BE32; the bytes are swapped on a little-endian host. *)
Definition BE32 (p : Z) : Z :=
  if big_endian then p
  else Z.lor (Z.lor (Z.lor (Z.shiftl (Z.land p 0xFF) 24) (Z.shiftl (Z.land p 0xFF00) 8))
                (Z.shiftr (Z.land p 0xFF0000) 8)) (Z.shiftr (Z.land p 0xFF000000) 24).

(** chunk[i], from the bytes of buf. *)
Definition chunk_word (chunk : list Z) (i : nat) : Z := host_val (take 4 (drop (4 * i) chunk)).

Definition sha256_transform (s chunk : list Z) : list Z :=
  let w := (fun i => BE32 (chunk_word chunk i)) <$> seq 0 16 in
  let v := (fold_left round_line (seq 0 64) (vars_of s, w)).1 in
  zip_with (fun x y => u32 (x + y)) s (vars_list v).

(** struct secp256k1_sha256: [buf] as bytes, [bytes] a size_t. *)
Record sha256 := mkSha256 { sh_s : list Z; sh_buf : list Z; sh_bytes : Z }.

(** initialize leaves [buf] as it was. *)
Definition sha256_initialize (junk : list Z) : sha256 :=
  mkSha256 [0x6a09e667; 0xbb67ae85; 0x3c6ef372; 0xa54ff53a; 0x510e527f; 0x9b05688c; 0x1f83d9ab; 0x5be0cd19]
    junk 0.

(** memcpy(dst + off, data, length data) *)
Definition memcpy (dst : list Z) (off : nat) (data : list Z) : list Z :=
  take off dst ++ data ++ drop (off + length data) dst.

(** The loop of write and the copy after it; every iteration consumes data
    when the buffer holds less than 64 bytes. *)
Fixpoint write_loop (fuel : nat) (s buf : list Z) (bufsize : nat) (data : list Z)
    : option (list Z * list Z) :=
  if (64 <=? bufsize + length data)%nat then
    match fuel with
    | O => None
    | S fuel =>
      let chunk_len := (64 - bufsize)%nat in
      let buf := memcpy buf bufsize (take chunk_len data) in
      write_loop fuel (sha256_transform s buf) buf 0 (drop chunk_len data)
    end
  else Some (s, if (0 <? length data)%nat then memcpy buf bufsize data else buf).

Definition sha256_write (h : sha256) (data : list Z) : option sha256 :=
  let bufsize := Z.to_nat (Z.land (sh_bytes h) 0x3F) in
  '(s, buf) ← write_loop (length data) (sh_s h) (sh_buf h) bufsize data;
  Some (mkSha256 s buf (u64 (sh_bytes h + Z.of_nat (length data)))).

Definition pad : list Z := 0x80 :: replicate 63 0.

(** finalize returns the digest and the cleared state. *)
Definition sha256_finalize (h : sha256) : option (list Z * sha256) :=
  let sizedesc := host_bytes 4 (u32 (BE32 (Z.shiftr (sh_bytes h) 29))) ++
                  host_bytes 4 (u32 (BE32 (u64 (Z.shiftl (sh_bytes h) 3)))) in
  h ← sha256_write h (take (1 + Z.to_nat ((119 - sh_bytes h mod 64) mod 64)) pad);
  h ← sha256_write h sizedesc;
  Some (sh_s h ≫= (fun x => host_bytes 4 (u32 (BE32 x))),
        mkSha256 (replicate 8 0) (sh_buf h) (sh_bytes h)).

(** struct secp256k1_hmac_sha256 *)
Record hmac_sha256 := mkHmac { hm_inner : sha256; hm_outer : sha256 }.

(** The key padded to 64 bytes, or its digest if it is longer. *)
Definition hmac_rkey (junk key : list Z) : option (list Z) :=
  if (length key <=? 64)%nat then Some (key ++ replicate (64 - length key) 0)
  else
    h ← sha256_write (sha256_initialize junk) key;
    '(d, _) ← sha256_finalize h;
    Some (d ++ replicate 32 0).

Definition hmac_initialize (junk key : list Z) : option hmac_sha256 :=
  rkey ← hmac_rkey junk key;
  let rkey := Z.lxor 0x5c <$> rkey in
  outer ← sha256_write (sha256_initialize junk) rkey;
  let rkey := Z.lxor (Z.lxor 0x5c 0x36) <$> rkey in
  inner ← sha256_write (sha256_initialize junk) rkey;
  Some (mkHmac inner outer).

Definition hmac_write (h : hmac_sha256) (data : list Z) : option hmac_sha256 :=
  i ← sha256_write (hm_inner h) data; Some (mkHmac i (hm_outer h)).

Definition hmac_finalize (h : hmac_sha256) : option (list Z) :=
  '(temp, _) ← sha256_finalize (hm_inner h);
  o ← sha256_write (hm_outer h) temp;
  '(out, _) ← sha256_finalize o;
  Some out.

(** The sequences initialize, write ..., finalize of the code below. *)
Definition hmac_of (junk key : list Z) (parts : list (list Z)) : option (list Z) :=
  h ← hmac_initialize junk key;
  h ← foldl (fun h d => h ← h; hmac_write h d) (Some h) parts;
  hmac_finalize h.

(** struct secp256k1_rfc6979_hmac_sha256 *)
Record rfc6979 := mkRfc6979 { rng_v : list Z; rng_k : list Z; rng_retry : bool }.

Definition rfc6979_initialize (junk key : list Z) : option rfc6979 :=
  let v := replicate 32 1 in let k := replicate 32 0 in
  k ← hmac_of junk k [v; [0]; key];
  v ← hmac_of junk k [v];
  k ← hmac_of junk k [v; [1]; key];
  v ← hmac_of junk k [v];
  Some (mkRfc6979 v k false).

(** The loop of generate: [outlen] bytes, 32 at a time. *)
Fixpoint generate_loop (fuel : nat) (junk k v : list Z) (outlen : nat) : option (list Z * list Z) :=
  match outlen with
  | O => Some ([], v)
  | _ =>
    match fuel with
    | O => None
    | S fuel =>
      v ← hmac_of junk k [v];
      let now := Nat.min outlen 32 in
      '(out, v') ← generate_loop fuel junk k v (outlen - now);
      Some (take now v ++ out, v')
    end
  end.

Definition rfc6979_generate (junk : list Z) (rng : rfc6979) (outlen : nat) : option (list Z * rfc6979) :=
  '(k, v) ← (if rng_retry rng then
               k ← hmac_of junk (rng_k rng) [rng_v rng; [0]];
               v ← hmac_of junk k [rng_v rng];
               Some (k, v)
             else Some (rng_k rng, rng_v rng));
  '(out, v) ← generate_loop outlen junk k v outlen;
  Some (out, mkRfc6979 v k true).

Definition rfc6979_finalize (rng : rfc6979) : rfc6979 := mkRfc6979 (replicate 32 0) (replicate 32 0) false.
End Code.

(** ** FIPS 180-4, RFC 2104 and RFC 6979 *)

Definition ch (x y z : Z) : Z := Z.lxor (Z.land x y) (Z.land (Z.lnot x) z).
Definition maj (x y z : Z) : Z := Z.lxor (Z.lxor (Z.land x y) (Z.land x z)) (Z.land y z).

(** The message schedule: W(0) .. W(15+n) from the block's sixteen words. *)
Definition next_w (w : list Z) : Z :=
  let t := length w in
  u32 (sigma1 (w !!! (t - 2)%nat) + w !!! (t - 7)%nat + sigma0 (w !!! (t - 15)%nat) + w !!! (t - 16)%nat).
Fixpoint schedule (n : nat) (w : list Z) : list Z :=
  match n with O => w | S n => schedule n (w ++ [next_w w]) end.

(** Step 3 of 6.2.2 *)
Definition fips_round (v : Vars) (kw : Z * Z) : Vars :=
  let T1 := u32 (vh v + Sigma1 (ve v) + ch (ve v) (vf v) (vg v) + kw.1 + kw.2) in
  let T2 := u32 (Sigma0 (va v) + maj (va v) (vb v) (vc v)) in
  mkVars (u32 (T1 + T2)) (va v) (vb v) (vc v) (u32 (vd v + T1)) (ve v) (vf v) (vg v).

Definition be_words (block : list Z) : list Z :=
  (fun i => be_val (take 4 (drop (4 * i) block))) <$> seq 0 16.

(** 4.2.2 and 5.3.3: the constants are the first 32 bits of the fractional
    parts of the cube roots of the first 64 primes, the initial hash value
    those of the square roots of the first eight. *)
Definition small_primes : list Z :=
  filter (fun p => forallb (fun d => negb (p mod d =? 0)) (seqZ 2 (Z.sqrt p - 1)) = true) (seqZ 2 310).
Definition cube_root (n : Z) : Z :=
  fold_left (fun r b => if (r + 2 ^ b) ^ 3 <=? n then r + 2 ^ b else r) (reverse (seqZ 0 36)) 0.
Definition fips_K : list Z := (fun p => cube_root (p * 2 ^ 96) mod 2 ^ 32) <$> small_primes.

Definition compress (s block : list Z) : list Z :=
  let W := schedule 48 (be_words block) in
  zip_with (fun x y => u32 (x + y)) s
    (vars_list (fold_left fips_round (zip fips_K W) (vars_of s))).

Definition iv : list Z := (fun p => Z.sqrt (p * 2 ^ 64) mod 2 ^ 32) <$> take 8 small_primes.

(** The first [n] blocks of a message. *)
Fixpoint compress_blocks (n : nat) (s m : list Z) : list Z :=
  match n with O => s | S n => compress_blocks n (compress s (take 64 m)) (drop 64 m) end.

(** 5.1.1: a 1 bit, zeros, and the length in bits. *)
Definition padded (m : list Z) : list Z :=
  m ++ [0x80] ++ replicate (Z.to_nat ((55 - Z.of_nat (length m)) mod 64)) 0 ++
  be_bytes 8 (8 * Z.of_nat (length m)).

Definition SHA256 (m : list Z) : list Z :=
  compress_blocks (length (padded m) / 64) iv (padded m) ≫= be_bytes 4.

(** RFC 2104 with a block of 64 bytes *)
Definition hmac_key (key : list Z) : list Z :=
  let k := if (length key <=? 64)%nat then key else SHA256 key in
  k ++ replicate (64 - length k) 0.
Definition HMAC (key m : list Z) : list Z :=
  let k := hmac_key key in
  SHA256 ((Z.lxor 0x5c <$> k) ++ SHA256 ((Z.lxor 0x36 <$> k) ++ m)).

(** RFC 6979, 3.2.b to 3.2.g: the pair (K, V) after seeding, ... *)
Definition rfc_seed (key : list Z) : list Z * list Z :=
  let V := replicate 32 1 in let K := replicate 32 0 in
  let K := HMAC K (V ++ [0] ++ key) in let V := HMAC K V in
  let K := HMAC K (V ++ [1] ++ key) in let V := HMAC K V in
  (K, V).
(** ... 3.2.h: the update between two candidates, ... *)
Definition rfc_update (K V : list Z) : list Z * list Z :=
  let K := HMAC K (V ++ [0]) in (K, HMAC K V).
(** ... and [n] blocks of output with the last V. *)
Fixpoint rfc_blocks (n : nat) (K V : list Z) : list Z * list Z :=
  match n with
  | O => ([], V)
  | S n => let V := HMAC K V in let '(o, V') := rfc_blocks n K V in (V ++ o, V')
  end.

(** ** The transformation *)

Section Transform.
Context `{Host}.

Lemma Ch_ch x y z : Ch x y z = ch x y z.
Proof.
  apply Z.bits_inj'. intros i Hi. unfold Ch, ch.
  rewrite ?Z.lxor_spec, ?Z.land_spec, ?Z.lxor_spec, ?Z.lnot_spec by done.
  by destruct (Z.testbit x i), (Z.testbit y i), (Z.testbit z i).
Qed.

Lemma Maj_maj x y z : Maj x y z = maj x y z.
Proof.
  apply Z.bits_inj'. intros i Hi. unfold Maj, maj.
  rewrite ?Z.lxor_spec, ?Z.lor_spec, ?Z.land_spec, ?Z.lor_spec.
  by destruct (Z.testbit x i), (Z.testbit y i), (Z.testbit z i).
Qed.

Lemma Round_fips v k w : Round v k w = fips_round v (k, w).
Proof. unfold Round, fips_round. simpl. by rewrite Ch_ch, Maj_maj. Qed.

(** On either host, the macro and the memory layout give big-endian words. *)
Lemma BE32_bswap p : BE32 p = if big_endian then p else bswap 4 p.
Proof.
  unfold BE32. destruct big_endian; [done|].
  change 0xFF with (Z.shiftl (Z.ones 8) 0). change 0xFF00 with (Z.shiftl (Z.ones 8) 8).
  change 0xFF0000 with (Z.shiftl (Z.ones 8) 16). change 0xFF000000 with (Z.shiftl (Z.ones 8) 24).
  rewrite !land_field, !shiftl_mul, !shiftr_div by lia.
  unfold bswap, be_bytes, le_bytes. cbn -[Z.div Z.modulo Z.mul Z.add Z.pow Z.lor].
  rewrite !Z.div_div by lia. rewrite Z.div_1_r. change (256 * (256 * 256)) with (256 * 256 * 256).
  pose proof (Z.mod_pos_bound p 256 ltac:(lia)). pose proof (Z.mod_pos_bound (p / 256) 256 ltac:(lia)).
  pose proof (Z.mod_pos_bound (p / (256 * 256)) 256 ltac:(lia)).
  pose proof (Z.mod_pos_bound (p / (256 * 256 * 256)) 256 ltac:(lia)).
  change (2 ^ 8) with 256. change (2 ^ 16) with (256 * 256). change (2 ^ 24) with (256 * 256 * 256).
  change (2 ^ 0) with 1. rewrite Z.mul_1_r.
  set (c0 := p mod 256) in *. set (c1 := (p / 256) mod 256) in *.
  set (c2 := (p / (256 * 256)) mod 256) in *. set (c3 := (p / (256 * 256 * 256)) mod 256) in *.
  replace (c2 * (256 * 256) / 256) with (c2 * 256) by (rewrite Z.mul_assoc, Z.div_mul; lia).
  rewrite Z.div_mul by lia. change (256 * 256 * 256) with (2 ^ 24).
  rewrite (lor_add 24) by lia.
  replace (c0 * 2 ^ 24 + c1 * 256 * 256) with ((c0 * 256 + c1) * 2 ^ 16) by lia. rewrite (lor_add 16) by lia.
  replace ((c0 * 256 + c1) * 2 ^ 16 + c2 * 256) with (((c0 * 256 + c1) * 256 + c2) * 2 ^ 8) by lia.
  rewrite (lor_add 8) by lia. lia.
Qed.

(** Loading a word of the block. *)
Lemma BE32_word l : length l = 4%nat -> Forall byte_ok l -> BE32 (host_val l) = be_val l.
Proof.
  intros Hl Hok. rewrite BE32_bswap. unfold host_val. destruct big_endian; [done|].
  unfold bswap, be_bytes. rewrite <- Hl, le_bytes_val by done. done.
Qed.

Lemma le_bytes_low n x : le_bytes n (x mod 2 ^ (8 * Z.of_nat n)) = le_bytes n x.
Proof.
  revert x. induction n as [|n IH]; intros x; [done|]. cbn [le_bytes]. rewrite pow256_S.
  rewrite Z.rem_mul_r by lia. f_equal.
  - rewrite Z.mul_comm, Z.mod_add, Z.mod_mod by lia. done.
  - rewrite Z.mul_comm, Z.div_add, (Z.div_small (x mod 256)) by (lia || apply Z.mod_pos_bound; lia).
    by rewrite Z.add_0_l, IH.
Qed.

(** Storing a word big-endian. *)
Lemma BE32_bytes x : host_bytes 4 (u32 (BE32 x)) = be_bytes 4 x.
Proof.
  rewrite BE32_bswap. unfold host_bytes. destruct big_endian.
  - unfold be_bytes, u32. by rewrite (le_bytes_low 4).
  - rewrite u32_small by apply (bswap_range 4). apply bswap_bytes.
Qed.

Lemma be_bytes_8 x : be_bytes 8 x = be_bytes 4 (x / 2 ^ 32) ++ be_bytes 4 x.
Proof.
  unfold be_bytes. rewrite <- reverse_app. f_equal. change (2 ^ 32) with (256 * 256 * 256 * 256).
  rewrite <- !Z.div_div by lia. done.
Qed.

Lemma schedule_length n w : length (schedule n w) = (length w + n)%nat.
Proof. revert w. induction n as [|n IH]; intros w; simpl; [lia|]. rewrite IH, length_app. simpl. lia. Qed.

Lemma schedule_prefix n w i : (i < length w)%nat -> schedule n w !!! i = w !!! i.
Proof.
  revert w. induction n as [|n IH]; intros w Hi; simpl; [done|].
  rewrite IH by (rewrite length_app; simpl; lia). by rewrite lookup_total_app_l.
Qed.

(** The recurrence of the schedule. *)
Lemma schedule_step n w t : length w = 16%nat -> (16 <= t < 16 + n)%nat ->
  let W := schedule n w in
  W !!! t = u32 (sigma1 (W !!! (t - 2)%nat) + W !!! (t - 7)%nat + sigma0 (W !!! (t - 15)%nat) + W !!! (t - 16)%nat).
Proof.
  intros Hw Ht W. assert (forall w', (16 <= length w')%nat -> (length w' <= t < length w' + n)%nat ->
    forall n', n' = n -> schedule n w' !!! t = let W := schedule n w' in
      u32 (sigma1 (W !!! (t - 2)%nat) + W !!! (t - 7)%nat + sigma0 (W !!! (t - 15)%nat) + W !!! (t - 16)%nat)) as Hgen;
    [|apply (Hgen w) with n; lia].
  clear. induction n as [|n IH]; intros w' Hw Ht n' _; [lia|]. simpl.
  destruct (decide (t = length w')) as [->|].
  - rewrite !schedule_prefix by (rewrite length_app; simpl; lia).
    rewrite lookup_total_app_r by lia. rewrite Nat.sub_diag. simpl.
    rewrite !lookup_total_app_l by lia. done.
  - apply IH with n; rewrite ?length_app; simpl; lia.
Qed.

(** The circular buffer after the line [i]: the last sixteen words. *)
Definition window (W w : list Z) (i : nat) : Prop :=
  length w = 16%nat /\ forall j, (j <= i)%nat -> (i < j + 16)%nat -> warr w j = W !!! j.

Lemma warr_16 w i : warr w (i + 16) = warr w i.
Proof. unfold warr. f_equal. replace (i + 16)%nat with (i + 1 * 16)%nat by lia. apply Nat.Div0.mod_add. Qed.

Lemma mod16_ne i j : (j < i)%nat -> (i < j + 16)%nat -> (i `mod` 16)%nat <> (j `mod` 16)%nat.
Proof.
  intros ?? Heq. pose proof (Nat.div_mod_eq i 16). pose proof (Nat.div_mod_eq j 16). lia.
Qed.

Lemma update_w_window m n w i : length m = 16%nat -> (15 <= i)%nat -> (S i < 16 + n)%nat ->
  window (schedule n m) w i -> window (schedule n m) (update_w (S i) w) (S i).
Proof.
  intros Hm Hi Hn [Hl Hw]. unfold update_w. rewrite (proj2 (Nat.ltb_ge (S i) 16)) by lia.
  pose proof (Nat.mod_upper_bound (S i) 16 ltac:(lia)) as Hb.
  split; [by rewrite length_insert|]. intros j Hj Hj'. unfold warr at 1.
  destruct (decide (j = S i)) as [->|].
  - rewrite list_lookup_total_insert_eq by lia. rewrite (schedule_step n m (S i)) by lia. cbv zeta.
    replace (warr w (S i)) with (schedule n m !!! (S i - 16)%nat)
      by (rewrite <- (Hw (S i - 16)%nat), <- warr_16 by lia; f_equal; lia).
    replace (warr w (S i + 14)) with (schedule n m !!! (S i - 2)%nat)
      by (rewrite <- (Hw (S i - 2)%nat), <- warr_16 by lia; f_equal; lia).
    replace (warr w (S i + 9)) with (schedule n m !!! (S i - 7)%nat)
      by (rewrite <- (Hw (S i - 7)%nat), <- warr_16 by lia; f_equal; lia).
    replace (warr w (S i + 1)) with (schedule n m !!! (S i - 15)%nat)
      by (rewrite <- (Hw (S i - 15)%nat), <- warr_16 by lia; f_equal; lia).
    f_equal. lia.
  - rewrite list_lookup_total_insert_ne by (apply mod16_ne; lia). apply Hw; lia.
Qed.

Lemma fold_take {A B} (f : A -> B -> A) (l : list B) (a : A) n x : l !! n = Some x ->
  fold_left f (take (S n) l) a = f (fold_left f (take n l) a) x.
Proof. intros Hx. by rewrite (take_S_r _ _ _ Hx), fold_left_app. Qed.

Lemma round_consts_fips : round_consts = fips_K.
Proof. by vm_compute. Qed.

Lemma iv_fips : iv = sh_s (sha256_initialize []).
Proof. by vm_compute. Qed.

(** The 64 lines compute the rounds of the standard. *)
Lemma round_lines m v n : length m = 16%nat -> (n <= 64)%nat ->
  let W := schedule 48 m in
  exists w, fold_left round_line (seq 0 n) (v, m) = (fold_left fips_round (take n (zip fips_K W)) v, w) /\
    ((n <= 16)%nat -> w = m) /\ ((16 <= n)%nat -> window W w (n - 1)).
Proof.
  rewrite <- round_consts_fips. intros Hm Hn W. assert (length W = 64%nat) as HW by (unfold W; rewrite schedule_length; lia).
  assert (forall j, (j < 16)%nat -> warr m j = W !!! j) as Hj.
  { intros j ?. unfold warr, W. rewrite Nat.mod_small, schedule_prefix by lia. done. }
  assert (forall w i, (15 <= i < 63)%nat -> window W w i -> window W (update_w (S i) w) (S i)) as Hstep.
  { intros w i ?. apply update_w_window; lia. }
  clearbody W. induction n as [|n IH].
  { exists m. split; [done|]. split; [done|lia]. }
  destruct IH as (w & Heq & Hlo & Hhi); [lia|]. rewrite seq_S, fold_left_app, Heq. cbn [fold_left Nat.add].
  assert (zip round_consts W !! n = Some (round_consts !!! n, W !!! n)) as Hz.
  { rewrite lookup_zip_with. rewrite (list_lookup_lookup_total_lt round_consts) by (simpl; lia).
    by rewrite (list_lookup_lookup_total_lt W) by lia. }
  rewrite (fold_take _ _ _ _ _ Hz). unfold round_line. cbn [fst snd].
  destruct (decide (n < 16)%nat) as [Hlt|Hge].
  - rewrite Hlo by lia. unfold update_w. rewrite (proj2 (Nat.ltb_lt n 16)) by lia.
    exists m. rewrite Round_fips, Hj by lia. split; [reflexivity|]. split; [reflexivity|].
    intros ?. split; [done|]. intros j ??. apply Hj. lia.
  - destruct n as [|n]; [lia|]. specialize (Hhi ltac:(lia)). rewrite Nat.sub_succ, Nat.sub_0_r in Hhi.
    pose proof (Hstep w n ltac:(lia) Hhi) as [Hl Hw].
    exists (update_w (S n) w). rewrite Round_fips, (Hw (S n)) by lia.
    split; [reflexivity|]. split; [lia|]. by intros _.
Qed.

Lemma transform_compress s chunk : length chunk = 64%nat -> Forall byte_ok chunk ->
  sha256_transform s chunk = compress s chunk.
Proof.
  intros Hl Hok. unfold sha256_transform, compress.
  assert (((fun i => BE32 (chunk_word chunk i)) <$> seq 0 16) = be_words chunk) as ->.
  { apply list_fmap_ext. intros i x Hi. apply lookup_seq in Hi as [-> Hi]. apply BE32_word.
    - rewrite length_take, length_drop. lia.
    - by apply Forall_take, Forall_drop. }
  destruct (round_lines (be_words chunk) (vars_of s) 64) as (w & -> & _); [done|lia|].
  cbn [fst]. rewrite take_ge; [reflexivity|]. rewrite length_zip_with, schedule_length. simpl. lia.
Qed.
End Transform.

(** ** Streaming *)

#[local] Arguments compress : simpl never.
#[local] Arguments sha256_transform : simpl never.
#[local] Opaque compress.

Lemma compress_blocks_S n s m :
  compress_blocks (S n) s m = compress (compress_blocks n s m) (take 64 (drop (64 * n) m)).
Proof.
  revert s m. induction n as [|n IH]; intros s m; [done|].
  change (compress_blocks (S (S n)) s m) with (compress_blocks (S n) (compress s (take 64 m)) (drop 64 m)).
  rewrite IH, drop_drop. replace (64 * S n)%nat with (64 + 64 * n)%nat by lia. reflexivity.
Qed.

Lemma compress_blocks_app n s m m' : (64 * n <= length m)%nat ->
  compress_blocks n s (m ++ m') = compress_blocks n s m.
Proof.
  revert s m. induction n as [|n IH]; intros s m Hl; [done|]. simpl.
  rewrite take_app_le, drop_app_le by lia. apply IH. rewrite length_drop. lia.
Qed.

(** [s] and [buf] hold the bytes [m]: the whole blocks are compressed, the
    rest is at the start of the buffer. *)
Record absorbed (s buf m : list Z) : Prop := {
  ab_s : s = compress_blocks (length m / 64) iv m;
  ab_buf : length buf = 64%nat;
  ab_ok : Forall byte_ok buf;
  ab_rest : take (length m `mod` 64) buf = drop (64 * (length m / 64)) m;
}.

Lemma memcpy_ok dst off d : length dst = 64%nat -> (off + length d <= 64)%nat ->
  Forall byte_ok dst -> Forall byte_ok d ->
  length (memcpy dst off d) = 64%nat /\ Forall byte_ok (memcpy dst off d) /\
  take (off + length d) (memcpy dst off d) = take off dst ++ d.
Proof.
  intros Hl Hb Hd Hdd. unfold memcpy. split; [|split].
  - rewrite !length_app, length_take, length_drop. lia.
  - repeat apply Forall_app_2; [by apply Forall_take|done|by apply Forall_drop].
  - rewrite (assoc_L (++)), take_app_le by (rewrite length_app, length_take; lia).
    apply take_ge. rewrite length_app, length_take. lia.
Qed.

Lemma div_mod_64 n q k : n = (64 * q + k)%nat -> (k < 64)%nat -> (n / 64)%nat = q /\ (n `mod` 64)%nat = k.
Proof. intros -> Hk. pose proof (Nat.div_mod_eq (64 * q + k) 64). pose proof (Nat.mod_upper_bound (64 * q + k) 64). lia. Qed.

Section Stream.
Context `{Host}.

(** Completing a block. *)
Lemma absorb_block s buf m d : absorbed s buf m -> Forall byte_ok d ->
  (length m `mod` 64 + length d = 64)%nat ->
  absorbed (sha256_transform s (memcpy buf (length m `mod` 64) d)) (memcpy buf (length m `mod` 64) d) (m ++ d).
Proof.
  intros [Hs Hl Hok Hr] Hd Hfull. set (q := (length m / 64)%nat) in *. set (k := (length m `mod` 64)%nat) in *.
  assert (length m = (64 * q + k)%nat) as Hm by apply Nat.div_mod_eq.
  destruct (memcpy_ok buf k d Hl ltac:(lia) Hok Hd) as (Hl' & Hok' & Hrest).
  destruct (div_mod_64 (length (m ++ d)) (S q) 0) as [Hq Hk]; [rewrite length_app; lia|lia|].
  assert (drop (64 * q) (m ++ d) = memcpy buf k d) as Hblk.
  { rewrite drop_app_le by lia. rewrite <- Hr, <- Hrest, Hfull. apply take_ge. lia. }
  split; [|done|done|].
  - rewrite Hq, compress_blocks_S, compress_blocks_app, Hblk, <- Hs by lia.
    rewrite (take_ge (memcpy buf k d)) by lia. by apply transform_compress.
  - rewrite Hk, Hq, drop_ge; [done|]. rewrite length_app. lia.
Qed.

Lemma absorb_rest s buf m d : absorbed s buf m -> Forall byte_ok d ->
  (length m `mod` 64 + length d < 64)%nat ->
  absorbed s (memcpy buf (length m `mod` 64) d) (m ++ d).
Proof.
  intros [Hs Hl Hok Hr] Hd Hfull. set (q := (length m / 64)%nat) in *. set (k := (length m `mod` 64)%nat) in *.
  assert (length m = (64 * q + k)%nat) as Hm by apply Nat.div_mod_eq.
  destruct (memcpy_ok buf k d Hl ltac:(lia) Hok Hd) as (Hl' & Hok' & Hrest).
  destruct (div_mod_64 (length (m ++ d)) q (k + length d)) as [Hq Hk]; [rewrite length_app; lia|lia|].
  split; [|done|done|].
  - rewrite Hq, compress_blocks_app by lia. done.
  - rewrite Hk, Hq, Hrest, Hr, drop_app_le by lia. done.
Qed.

Lemma write_loop_spec fuel s buf m d : absorbed s buf m -> Forall byte_ok d -> (length d <= fuel)%nat ->
  exists s' buf', write_loop fuel s buf (length m `mod` 64) d = Some (s', buf') /\ absorbed s' buf' (m ++ d).
Proof.
  revert s buf m d. induction fuel as [|fuel IH]; intros s buf m d Hab Hd Hf;
    pose proof (Nat.mod_upper_bound (length m) 64 ltac:(lia)) as Hk; cbn [write_loop];
    destruct (Nat.leb_spec 64 (length m `mod` 64 + length d)); [lia|..].
  2: { set (c := (64 - length m `mod` 64)%nat).
       assert (length (take c d) = c) as Hc by (rewrite length_take; unfold c; lia).
       destruct (IH (sha256_transform s (memcpy buf (length m `mod` 64) (take c d)))
                  (memcpy buf (length m `mod` 64) (take c d)) (m ++ take c d) (drop c d)) as (s' & buf' & Hw & Hab').
       - apply absorb_block; [done|by apply Forall_take|rewrite Hc; unfold c; lia].
       - by apply Forall_drop.
       - rewrite length_drop. unfold c. lia.
       - replace (length (m ++ take c d) `mod` 64)%nat with 0%nat in Hw.
         + exists s', buf'. split; [exact Hw|]. by rewrite <- (assoc_L (++)), take_drop in Hab'.
         + rewrite length_app, Hc. pose proof (Nat.div_mod_eq (length m) 64).
           symmetry. apply (div_mod_64 _ (S (length m / 64))); unfold c; lia. }
  all: (eexists _, _; split; [reflexivity|]; destruct d as [|x d];
        [by rewrite app_nil_r|by apply absorb_rest]).
Qed.

(** A hash object that has been given the bytes [m]. *)
Definition hashing (h : sha256) (m : list Z) : Prop :=
  absorbed (sh_s h) (sh_buf h) m /\ sh_bytes h = u64 (Z.of_nat (length m)).

Lemma initialize_hashing junk : length junk = 64%nat -> Forall byte_ok junk ->
  hashing (sha256_initialize junk) [].
Proof. intros Hl Hok. by repeat split. Qed.

Lemma bytes_mod n : Z.to_nat (Z.land (u64 (Z.of_nat n)) 0x3F) = (n `mod` 64)%nat.
Proof.
  change 0x3F with (2 ^ 6 - 1). rewrite land_mask by lia. unfold u64.
  rewrite <- Znumtheory.Zmod_div_mod by (lia || (exists (2 ^ 58); done)).
  change (2 ^ 6) with (Z.of_nat 64). by rewrite <- Nat2Z.inj_mod, Nat2Z.id.
Qed.

Lemma write_hashing h m d : hashing h m -> Forall byte_ok d ->
  exists h', sha256_write h d = Some h' /\ hashing h' (m ++ d).
Proof.
  intros [Hab Hb] Hd. unfold sha256_write. rewrite Hb, bytes_mod.
  destruct (write_loop_spec (length d) _ _ _ d Hab Hd) as (s' & buf' & -> & Hab'); [done|].
  simpl. eexists. split; [done|]. split; [done|]. simpl. rewrite length_app, Nat2Z.inj_add.
  unfold u64. by rewrite Zplus_mod_idemp_l.
Qed.

Lemma padded_length m : (length (padded m) `mod` 64 = 0)%nat.
Proof.
  unfold padded. rewrite !length_app, length_replicate, be_bytes_length. simpl length.
  pose proof (Z.mod_pos_bound (55 - Z.of_nat (length m)) 64 ltac:(lia)).
  pose proof (Z.div_mod (55 - Z.of_nat (length m)) 64 ltac:(lia)).
  apply Nat2Z.inj. rewrite Nat2Z.inj_mod. apply Z.mod_divide; [lia|].
  exists (1 - (55 - Z.of_nat (length m)) / 64). lia.
Qed.

Lemma pad_take z : (z < 64)%nat -> take (1 + z) pad = 0x80 :: replicate z 0.
Proof. intros Hz. unfold pad. cbn [take Nat.add]. by rewrite take_replicate, Nat.min_l by lia. Qed.

(** finalize computes the digest of the bytes written. *)
Lemma finalize_hashing h m : hashing h m -> Z.of_nat (length m) < 2 ^ 61 ->
  exists h', sha256_finalize h = Some (SHA256 m, h').
Proof.
  intros Hh Hlen. unfold sha256_finalize.
  assert (sh_bytes h = Z.of_nat (length m)) as Hb by (destruct Hh as [_ ->]; apply u64_small; lia).
  rewrite !BE32_bytes, Hb. rewrite shiftr_div, shiftl_mul, u64_small by lia.
  assert ((119 - Z.of_nat (length m) mod 64) mod 64 = (55 - Z.of_nat (length m)) mod 64) as ->.
  { rewrite Zminus_mod_idemp_r. rewrite <- (Z.mod_add (55 - _) 1) by lia. f_equal. lia. }
  pose proof (Z.mod_pos_bound (55 - Z.of_nat (length m)) 64 ltac:(lia)).
  rewrite pad_take by lia. set (z := Z.to_nat _).
  destruct (write_hashing h m (0x80 :: replicate z 0) Hh) as (h1 & -> & H1).
  { constructor; [done|]. by apply Forall_replicate. }
  cbn [mbind option_bind]. destruct (write_hashing h1 _ (be_bytes 4 (Z.of_nat (length m) / 2 ^ 29) ++
    be_bytes 4 (Z.of_nat (length m) * 2 ^ 3)) H1) as (h2 & -> & H2).
  { apply Forall_app; split; apply be_bytes_ok. }
  cbn [mbind option_bind]. replace (Z.of_nat (length m) / 2 ^ 29) with (8 * Z.of_nat (length m) / 2 ^ 32) in H2
    by (change (2 ^ 32) with (8 * 2 ^ 29); rewrite Z.div_mul_cancel_l; lia).
  replace (Z.of_nat (length m) * 2 ^ 3) with (8 * Z.of_nat (length m)) in H2 by lia.
  rewrite <- be_bytes_8, <- (assoc_L (++)) in H2. change ((m ++ (0x80 :: replicate z 0) ++ _))
    with (padded m) in H2. destruct H2 as [[Hs _ _ _] _].
  eexists. f_equal. f_equal. unfold SHA256. rewrite <- Hs.
  apply list_bind_ext; [|done]. intros x. apply BE32_bytes.
Qed.
End Stream.

(** ** HMAC and RFC 6979 *)

Lemma Forall_bind_bytes (l : list Z) n : Forall byte_ok (l ≫= be_bytes n).
Proof. induction l as [|x l IH]; [constructor|]. apply Forall_app. split; [apply be_bytes_ok|done]. Qed.

#[local] Transparent compress.
Lemma compress_length s b : length s = 8%nat -> length (compress s b) = 8%nat.
Proof. intros Hs. unfold compress. by rewrite length_zip_with, Hs. Qed.
#[local] Opaque compress.

Lemma compress_blocks_length n s m : length s = 8%nat -> length (compress_blocks n s m) = 8%nat.
Proof. revert s m. induction n as [|n IH]; intros s m Hs; [done|]. apply IH. by apply compress_length. Qed.

Lemma SHA256_length m : length (SHA256 m) = 32%nat.
Proof.
  unfold SHA256. pose proof (compress_blocks_length (length (padded m) / 64) iv (padded m) eq_refl) as Hl.
  set (l := compress_blocks _ _ _) in *. clearbody l.
  do 8 (destruct l as [|? l]; [done|]). by destruct l.
Qed.

Lemma SHA256_ok m : Forall byte_ok (SHA256 m).
Proof. apply Forall_bind_bytes. Qed.

Lemma byte_lxor a b : byte_ok a -> byte_ok b -> byte_ok (Z.lxor a b).
Proof. by apply (lxor_bound 8). Qed.

Lemma HMAC_ok key m : Forall byte_ok (HMAC key m).
Proof. apply SHA256_ok. Qed.
Lemma HMAC_length key m : length (HMAC key m) = 32%nat.
Proof. apply SHA256_length. Qed.

Lemma rfc_blocks_V n K V o V' : rfc_blocks n K V = (o, V') -> Forall byte_ok V -> length V = 32%nat ->
  Forall byte_ok V' /\ length V' = 32%nat.
Proof.
  revert V o. induction n as [|n IH]; intros V o Hb HV HlV; [by injection Hb as _ <-|].
  cbn [rfc_blocks] in Hb. destruct (rfc_blocks n K (HMAC K V)) as [o' V''] eqn:Hb'.
  injection Hb as _ <-. eapply IH; [exact Hb'|apply SHA256_ok|apply SHA256_length].
Qed.

Section Mac.
Context `{Host}.
Variable junk : list Z.
Hypothesis junk_ok : length junk = 64%nat /\ Forall byte_ok junk.

Lemma hmac_rkey_spec key : Forall byte_ok key -> Z.of_nat (length key) < 2 ^ 61 ->
  hmac_rkey junk key = Some (hmac_key key).
Proof.
  intros Hk Hl. unfold hmac_rkey, hmac_key. destruct (Nat.leb_spec (length key) 64); [done|].
  destruct (write_hashing _ _ key (initialize_hashing junk (proj1 junk_ok) (proj2 junk_ok)) Hk) as (h & -> & Hh).
  cbn [mbind option_bind]. destruct (finalize_hashing h key Hh Hl) as (h' & ->). cbn [mbind option_bind].
  by rewrite SHA256_length.
Qed.

Lemma hmac_key_spec key : Forall byte_ok key ->
  length (hmac_key key) = 64%nat /\ Forall byte_ok (hmac_key key).
Proof.
  intros Hk. unfold hmac_key. destruct (Nat.leb_spec (length key) 64);
    rewrite length_app, length_replicate, ?SHA256_length; (split; [lia|]);
    apply Forall_app; (split; [first [done|apply SHA256_ok]|by apply Forall_replicate]).
Qed.

Lemma hmac_writes parts h m : hashing (hm_inner h) m -> Forall (Forall byte_ok) parts ->
  exists h', foldl (fun h d => h ← h; hmac_write h d) (Some h) parts = Some h' /\
    hashing (hm_inner h') (m ++ concat parts) /\ hm_outer h' = hm_outer h.
Proof.
  revert h m. induction parts as [|d parts IH]; intros h m Hh Hd.
  { exists h. by rewrite app_nil_r. }
  inversion Hd as [|? ? Hd1 Hd2]; subst. cbn [foldl]. cbn [mbind option_bind]. unfold hmac_write at 2.
  destruct (write_hashing _ _ d Hh Hd1) as (i & -> & Hi). cbn [mbind option_bind].
  destruct (IH (mkHmac i (hm_outer h)) (m ++ d) Hi Hd2) as (h' & Hf & Hh' & Ho).
  exists h'. split; [done|]. split; [|done]. by rewrite <- (assoc_L (++)) in Hh'.
Qed.

(** initialize, write ..., finalize compute HMAC. *)
Lemma hmac_of_spec key parts : Forall byte_ok key -> Forall (Forall byte_ok) parts ->
  Z.of_nat (length key) < 2 ^ 61 -> Z.of_nat (length (concat parts)) < 2 ^ 61 - 64 ->
  hmac_of junk key parts = Some (HMAC key (concat parts)).
Proof.
  intros Hk Hp Hl Hlp. unfold hmac_of, hmac_initialize. rewrite hmac_rkey_spec by done.
  cbn [mbind option_bind]. destruct (hmac_key_spec key Hk) as [Hkl Hko].
  assert (forall c, byte_ok c -> Forall byte_ok (Z.lxor c <$> hmac_key key)) as Hx.
  { intros c Hc. apply Forall_fmap. eapply Forall_impl; [exact Hko|]. intros x Hx. by apply byte_lxor. }
  pose proof (initialize_hashing junk (proj1 junk_ok) (proj2 junk_ok)) as Hinit.
  destruct (write_hashing _ _ _ Hinit (Hx 0x5c ltac:(done))) as (ho & -> & Ho). cbn [mbind option_bind].
  assert ((Z.lxor (Z.lxor 0x5c 0x36) <$> (Z.lxor 0x5c <$> hmac_key key)) = (Z.lxor 0x36 <$> hmac_key key)) as ->.
  { rewrite <- list_fmap_compose. apply list_fmap_ext. intros i x _. unfold compose.
    rewrite <- Z.lxor_assoc. done. }
  destruct (write_hashing _ _ _ Hinit (Hx 0x36 ltac:(done))) as (hi & -> & Hi). cbn [mbind option_bind].
  destruct (hmac_writes parts (mkHmac hi ho) _ Hi Hp) as (h' & -> & Hh' & Ho').
  cbn [mbind option_bind]. unfold hmac_finalize. simpl in Ho'. rewrite Ho'.
  destruct (finalize_hashing _ _ Hh') as (h1 & ->).
  { rewrite app_nil_l, length_app, length_fmap. lia. }
  cbn [mbind option_bind]. destruct (write_hashing _ _ _ Ho (SHA256_ok (([] ++ (Z.lxor 0x36 <$> hmac_key key)) ++ concat parts)))
    as (h2 & -> & H2). cbn [mbind option_bind].
  destruct (finalize_hashing _ _ H2) as (h3 & ->).
  { rewrite app_nil_l, length_app, length_fmap, SHA256_length. lia. }
  done.
Qed.

Lemma hmac_small key parts : Forall byte_ok key -> Forall (Forall byte_ok) parts ->
  (length key <= 32)%nat -> Z.of_nat (length (concat parts)) < 2 ^ 61 - 64 ->
  hmac_of junk key parts = Some (HMAC key (concat parts)).
Proof. intros. apply hmac_of_spec; [done..|lia|done]. Qed.

Lemma rfc6979_initialize_spec key : Forall byte_ok key -> Z.of_nat (length key) < 2 ^ 60 ->
  rfc6979_initialize junk key = Some (mkRfc6979 (rfc_seed key).2 (rfc_seed key).1 false).
Proof.
  intros Hk Hl. unfold rfc6979_initialize, rfc_seed.
  assert (Forall byte_ok (replicate 32 0) /\ Forall byte_ok (replicate 32 1)) as [H0 H1]
    by (split; by apply Forall_replicate).
  assert (forall V K c, Forall byte_ok V -> length V = 32%nat -> Forall byte_ok K -> length K = 32%nat ->
    byte_ok c -> hmac_of junk K [V; [c]; key] = Some (HMAC K (V ++ [c] ++ key))) as Hs.
  { intros V K c HV HlV HK HlK Hc. rewrite hmac_small; [by rewrite <- (app_nil_r key) at 2|done| |lia|].
    - constructor; [done|]. constructor; [by constructor|]. by constructor.
    - simpl. rewrite !length_app. simpl. rewrite length_app. simpl. lia. }
  assert (forall V K, Forall byte_ok V -> length V = 32%nat -> Forall byte_ok K -> length K = 32%nat ->
    hmac_of junk K [V] = Some (HMAC K V)) as Hv.
  { intros V K HV HlV HK HlK. rewrite hmac_small; [simpl; by rewrite app_nil_r|done| |lia|].
    - by repeat constructor.
    - simpl. rewrite length_app. simpl. lia. }
  rewrite Hs by done. cbn [mbind option_bind].
  rewrite Hv by (done || apply HMAC_ok || apply HMAC_length). cbn [mbind option_bind].
  rewrite Hs by (done || apply HMAC_ok || apply HMAC_length). cbn [mbind option_bind].
  rewrite Hv by (done || apply HMAC_ok || apply HMAC_length). done.
Qed.

Lemma hmac_pair K V : Forall byte_ok V -> length V = 32%nat -> Forall byte_ok K -> length K = 32%nat ->
  hmac_of junk K [V] = Some (HMAC K V) /\ hmac_of junk K [V; [0]] = Some (HMAC K (V ++ [0])).
Proof.
  intros HV HlV HK HlK. split; rewrite hmac_small; try done; try lia;
    try (repeat constructor; done); simpl; rewrite ?app_nil_r; try done; rewrite ?length_app; simpl; lia.
Qed.

Lemma generate_loop_spec K fuel V outlen : Forall byte_ok V -> length V = 32%nat ->
  Forall byte_ok K -> length K = 32%nat -> (outlen <= fuel)%nat ->
  generate_loop fuel junk K V outlen =
  let '(o, V') := rfc_blocks ((outlen + 31) / 32) K V in Some (take outlen o, V').
Proof.
  intros HV HlV HK HlK. revert V outlen HV HlV. induction fuel as [|fuel IH]; intros V outlen HV HlV Hf.
  { by replace outlen with 0%nat by lia. }
  destruct outlen as [|n]; [done|]. cbn [generate_loop].
  destruct (hmac_pair K V HV HlV HK HlK) as [-> _]. cbn [mbind option_bind].
  rewrite IH by (apply HMAC_ok || apply HMAC_length || lia).
  assert ((S n + 31) / 32 = S ((S n - Nat.min (S n) 32 + 31) / 32))%nat as ->.
  { destruct (decide (S n <= 32)%nat).
    - rewrite Nat.min_l, Nat.sub_diag by lia. change ((0 + 31) / 32)%nat with 0%nat.
      symmetry. apply Nat.div_unique with n; lia.
    - rewrite Nat.min_r by lia. replace (S n + 31)%nat with ((S n - 32 + 31) + 1 * 32)%nat by lia.
      rewrite Nat.div_add by lia. lia. }
  cbn [rfc_blocks]. destruct (rfc_blocks _ K (HMAC K V)) as [o V'] eqn:Hb. cbn [mbind option_bind].
  do 2 f_equal. rewrite take_app, HMAC_length. f_equal.
  - destruct (decide (S n <= 32)%nat); [by rewrite Nat.min_l by lia|].
    rewrite Nat.min_r by lia. rewrite !take_ge; [done|rewrite HMAC_length; lia|rewrite HMAC_length; lia].
  - f_equal. lia.
Qed.
End Mac.

(** ** Properties *)

(** C40. Hashing a message in any number of pieces gives the SHA-256 digest of
    FIPS 180-4 of the whole message, whatever the buffer held before and on
    hosts of either byte order. *)
Theorem sha256_correct `{Host} junk parts :
  length junk = 64%nat -> Forall byte_ok junk -> Forall (Forall byte_ok) parts ->
  Z.of_nat (length (concat parts)) < 2 ^ 61 ->
  exists h h', foldl (fun h d => h ← h; sha256_write h d) (Some (sha256_initialize junk)) parts = Some h /\
    sha256_finalize h = Some (SHA256 (concat parts), h').
Proof.
  intros Hl Hok Hp Hlen.
  assert (forall h m, hashing h m -> Forall (Forall byte_ok) parts ->
    exists h', foldl (fun h d => h ← h; sha256_write h d) (Some h) parts = Some h' /\
      hashing h' (m ++ concat parts)) as Hw.
  { clear. induction parts as [|d parts IH]; intros h m Hh Hp; [exists h; by rewrite app_nil_r|].
    inversion Hp as [|? ? Hd Hp']; subst. destruct (write_hashing h m d Hh Hd) as (h1 & Hw & Hh1).
    destruct (IH h1 (m ++ d) Hh1 Hp') as (h' & Hf & Hh'). exists h'. cbn [foldl mbind option_bind].
    rewrite Hw. split; [done|]. by rewrite <- (assoc_L (++)) in Hh'. }
  destruct (Hw _ [] (initialize_hashing junk Hl Hok) Hp) as (h & Hf & Hh).
  destruct (finalize_hashing h _ Hh Hlen) as (h' & Hfin). by exists h, h'.
Qed.

(** The nonce generator follows RFC 6979: the seed is (K, V) of 3.2.b-g, the
    first request returns the blocks of 3.2.h, and a later request returns
    the blocks after the update of K and V between candidates. *)
Theorem rfc6979_correct `{Host} junk key outlen outlen' : length junk = 64%nat -> Forall byte_ok junk ->
  Forall byte_ok key -> Z.of_nat (length key) < 2 ^ 60 ->
  let '(K, V) := rfc_seed key in
  let '(o, V1) := rfc_blocks ((outlen + 31) / 32) K V in
  let '(K2, V2) := rfc_update K V1 in
  let '(o2, V3) := rfc_blocks ((outlen' + 31) / 32) K2 V2 in
  exists rng rng', rfc6979_initialize junk key = Some rng /\
    rfc6979_generate junk rng outlen = Some (take outlen o, rng') /\
    rfc6979_generate junk rng' outlen' = Some (take outlen' o2, mkRfc6979 V3 K2 true).
Proof.
  intros Hl Hok Hk Hlk. pose proof (rfc6979_initialize_spec junk (conj Hl Hok) key Hk Hlk) as Hi.
  assert (Forall byte_ok (rfc_seed key).1 /\ length (rfc_seed key).1 = 32%nat /\
          Forall byte_ok (rfc_seed key).2 /\ length (rfc_seed key).2 = 32%nat) as (HK & HlK & HV & HlV)
    by (unfold rfc_seed; cbn [fst snd]; auto using HMAC_ok, HMAC_length).
  destruct (rfc_seed key) as [K V]. cbn [fst snd] in HK, HlK, HV, HlV, Hi.
  destruct (rfc_blocks ((outlen + 31) / 32) K V) as [o V1] eqn:Hb1.
  assert (Forall byte_ok V1 /\ length V1 = 32%nat) as [HV1 HlV1] by (eapply rfc_blocks_V; [exact Hb1|done|done]).
  unfold rfc_update. set (K2 := HMAC K (V1 ++ [0])).
  destruct (rfc_blocks ((outlen' + 31) / 32) K2 (HMAC K2 V1)) as [o2 V3] eqn:Hb2.
  eexists _, (mkRfc6979 V1 K true). split; [exact Hi|]. unfold rfc6979_generate. cbn [rng_retry rng_k rng_v mbind option_bind].
  rewrite (generate_loop_spec junk (conj Hl Hok)), Hb1 by done. cbn [mbind option_bind]. split; [done|].
  destruct (hmac_pair junk (conj Hl Hok) K V1) as [_ ->]; [done..|]. cbn [mbind option_bind]. fold K2.
  destruct (hmac_pair junk (conj Hl Hok) K2 V1) as [-> _]; [done|done|apply HMAC_ok|apply HMAC_length|].
  cbn [mbind option_bind]. rewrite (generate_loop_spec junk (conj Hl Hok)), Hb2 by
    (apply HMAC_ok || apply HMAC_length || done). done.
Qed.

(** ** Witnesses *)

#[local] Instance little : Host := false.

Lemma sha256_correct_witness : exists h h',
  foldl (fun h d => h ← h; sha256_write h d) (Some (sha256_initialize (replicate 64 7))) [[97]; [98; 99]] = Some h /\
  sha256_finalize h = Some (SHA256 [97; 98; 99], h').
Proof.
  apply (sha256_correct (replicate 64 7) [[97]; [98; 99]]); [done|by apply Forall_replicate| |done].
  by repeat constructor.
Defined.

(** The test vector of FIPS 180-4 for "abc". *)
Example sha256_abc : be_val (SHA256 [97; 98; 99]) =
  0xba7816bf8f01cfea414140de5dae2223b00361a396177a9cb410ff61f20015ad.
Proof. by vm_compute. Qed.

Lemma rfc6979_correct_witness :
  let '(K, V) := rfc_seed [1; 2] in
  let '(o, V1) := rfc_blocks ((32 + 31) / 32) K V in
  let '(K2, V2) := rfc_update K V1 in
  let '(o2, V3) := rfc_blocks ((40 + 31) / 32) K2 V2 in
  exists rng rng', rfc6979_initialize (replicate 64 7) [1; 2] = Some rng /\
    rfc6979_generate (replicate 64 7) rng 32 = Some (take 32 o, rng') /\
    rfc6979_generate (replicate 64 7) rng' 40 = Some (take 40 o2, mkRfc6979 V3 K2 true).
Proof.
  assert (Forall byte_ok (replicate 64 7)) as Hj by (by apply Forall_replicate).
  assert (Forall byte_ok [1; 2]) as Hk by (by repeat constructor).
  exact (rfc6979_correct (replicate 64 7) [1; 2] 32 40 eq_refl Hj Hk eq_refl).
Defined.
