(* ===== verification/Nonces.v ===== *)
(** * Streams of nonces

    The generator of RFC 6979 as the callers of secp256k1 use it: 32 bytes at a
    time, until a candidate is accepted.  Here the candidates, the state that
    every request keeps, and loops that draw until a test holds. *)

From S2P Require Import Prelude Bytes Limbs Sha256.

(** What holds between two requests. *)
Record rng_ok (g : rfc6979) : Prop := {
  rg_v : Forall byte_ok (rng_v g) /\ length (rng_v g) = 32%nat;
  rg_k : Forall byte_ok (rng_k g) /\ length (rng_k g) = 32%nat;
}.

(** The next 32 bytes by RFC 6979, and the state after them. *)
Definition rfc_next (g : rfc6979) : list Z * rfc6979 :=
  let '(K, V) := if rng_retry g then rfc_update (rng_k g) (rng_v g) else (rng_k g, rng_v g) in
  let V := HMAC K V in (V, mkRfc6979 V K true).

(** The [n]-th candidate. *)
Fixpoint candidate (n : nat) (g : rfc6979) : list Z :=
  match n with O => (rfc_next g).1 | S n => candidate n (rfc_next g).2 end.

(** The state after [n] candidates. *)
Fixpoint advance (n : nat) (g : rfc6979) : rfc6979 :=
  match n with O => g | S n => advance n (rfc_next g).2 end.

Definition rfc_start (key : list Z) : rfc6979 := let '(K, V) := rfc_seed key in mkRfc6979 V K false.

Lemma rfc_next_ok g : rng_ok g -> rng_ok (rfc_next g).2 /\ length (rfc_next g).1 = 32%nat /\ Forall byte_ok (rfc_next g).1.
Proof.
  intros [HV HK]. unfold rfc_next, rfc_update. destruct (rng_retry g); cbn [fst snd].
  all: split_and!; [split; cbn [rng_v rng_k]; split|..]; try apply HMAC_length; try apply HMAC_ok; by try apply HK.
Qed.

Lemma candidate_ok n g : rng_ok g -> length (candidate n g) = 32%nat /\ Forall byte_ok (candidate n g).
Proof. revert g. induction n as [|n IH]; intros g Hg; cbn [candidate]; [apply rfc_next_ok, Hg|apply IH, rfc_next_ok, Hg]. Qed.

Lemma rfc_start_ok key : rng_ok (rfc_start key).
Proof. unfold rfc_start, rfc_seed. split; cbn [rng_v rng_k]; auto using HMAC_ok, HMAC_length. Qed.

Lemma candidate_advance n m g : candidate n (advance m g) = candidate (m + n) g.
Proof. revert g. induction m as [|m IH]; intros g; cbn [advance plus]; [done|]. by rewrite IH. Qed.

Section Host.
Context `{Host}.
Variable junk : list Z.
Hypothesis junk_ok : length junk = 64%nat /\ Forall byte_ok junk.

Lemma initialize_start key : Forall byte_ok key -> Z.of_nat (length key) < 2 ^ 60 ->
  rfc6979_initialize junk key = Some (rfc_start key).
Proof.
  intros Hk Hl. rewrite (rfc6979_initialize_spec junk junk_ok key Hk Hl). unfold rfc_start. by destruct (rfc_seed key).
Qed.

Lemma one_block K V : (let '(o, V') := rfc_blocks ((32 + 31) / 32) K V in Some (take 32 o, V')) = Some (HMAC K V, HMAC K V).
Proof.
  pose proof (HMAC_length K V) as Hl. replace ((32 + 31) / 32)%nat with 1%nat by reflexivity. cbn [rfc_blocks].
  set (h := HMAC K V) in *. clearbody h. by rewrite app_nil_r, take_ge by lia.
Qed.

Lemma one_generate K V : Forall byte_ok V -> length V = 32%nat -> Forall byte_ok K -> length K = 32%nat ->
  generate_loop 32 junk K V 32 = Some (HMAC K V, HMAC K V).
Proof. intros. rewrite (generate_loop_spec junk junk_ok) by done. apply one_block. Qed.

Lemma generate_with n k v (retry : bool) K V o :
  (if retry then k' ← hmac_of junk k [v; [0]]; v' ← hmac_of junk k' [v]; Some (k', v') else Some (k, v)) = Some (K, V) ->
  generate_loop n junk K V n = Some (o, o) ->
  rfc6979_generate junk (mkRfc6979 v k retry) n = Some (o, mkRfc6979 o K true).
Proof. intros E Ho. unfold rfc6979_generate. cbn [rng_v rng_k rng_retry]. rewrite E. cbn [mbind option_bind]. by rewrite Ho. Qed.

Lemma generate_next g : rng_ok g -> rfc6979_generate junk g 32 = Some (rfc_next g).
Proof.
  destruct g as [v k retry]. intros [[HV HlV] [HK HlK]]. cbn [rng_v rng_k] in *. unfold rfc_next, rfc_update. cbn [rng_v rng_k rng_retry].
  destruct retry.
  - destruct (hmac_pair junk junk_ok k v HV HlV HK HlK) as [_ H2].
    pose proof (HMAC_ok k (v ++ [0])) as Hok. pose proof (HMAC_length k (v ++ [0])) as Hl.
    set (K2 := HMAC k (v ++ [0])) in *. clearbody K2.
    destruct (hmac_pair junk junk_ok K2 v HV HlV Hok Hl) as [H1 _].
    pose proof (HMAC_ok K2 v) as HokV. pose proof (HMAC_length K2 v) as HlV2. set (V2 := HMAC K2 v) in *. clearbody V2.
    apply (generate_with 32 k v true K2 V2); [|by apply one_generate]. by rewrite H2; cbn [mbind option_bind]; rewrite H1.
  - apply (generate_with 32 k v false k v); [done|by apply one_generate].
Qed.
End Host.
