(* ===== verification/StaticTable.v ===== *)
(** * The static table of the generator

    [secp256k1/src/ecmult_static_context.h]: the 64 rows of 16 points that
    secp256k1_ecmult_gen reads when USE_ECMULT_STATIC_PRECOMPUTATION is
    defined, as the file lists them. *)

From S2P Require Import Prelude Field5x52 Group.

(** SECP256K1_GE_STORAGE_CONST *)
Definition ge_storage_const (a b c d e f g h i j k l m n o p : Z) : ge_storage :=
  mkGeS (fe_storage_const a b c d e f g h) (fe_storage_const i j k l m n o p).

#[local] Notation SC := ge_storage_const (only parsing).

Definition static_row_0 : list ge_storage := [
  SC 983487347 1861041900 2599115456 565528146 1451326239 148794576 4224640328 3120843701 2076989736 3184115747 3754320824 2656004457 2876577688 2388659905 3527541004 1170708298;
  SC 3830281845 3284871255 1309883393 2806991612 1558611192 1249416977 1614773327 1353445208 633124399 4264439010 426432620 167800352 2355417627 2991792291 3042397084 505150283;
  SC 1792710820 2165839471 3876070801 3603801374 2437636273 1231643248 860890267 4002236272 3258245037 4085545079 2695347418 288209541 484302592 139267079 14621978 2750167787;
  SC 11094760 1663454715 3104893589 1290390142 1334245677 2671416785 3982578986 2050971459 2136209393 1792200847 367473428 114820199 1096121039 425028623 3983611854 923011107;
  SC 3063072592 3527226996 3276923831 3785926779 346414977 2234429237 547163845 1847763663 2978762519 623753375 2207114031 3006533282 3147176505 1421052999 4188545436 1210097867;
  SC 1763690305 2162645845 1202943473 469109438 1159538654 390308918 1603161004 2906790921 2394291613 4089459264 1827402608 2166723935 3207526147 1197293526 436375990 1773481373;
  SC 1882939156 2815960179 295089455 2929502411 2990911492 2056857815 3502518067 957616604 1591168682 1240626880 1298264859 1839469436 3185927997 2386526557 4025121105 260593756;
  SC 699984967 3527536033 3843799838 958940236 927446270 2095887205 733758855 793790581 2288595512 2237855935 4158071588 103726164 1804839263 2006149890 3944535719 3558448075;
  SC 1145702317 3893958345 851308226 566580932 1803510929 244954233 754894895 1321302288 772295727 4004336128 2009158070 4026087258 1899732245 1392930957 3019192545 149625039;
  SC 3772604811 577564124 4116730494 548732504 241159976 965811878 3286803623 3781136673 2690883927 863484863 463101630 2948469162 1712070245 3742601912 2535479384 1015456764;
  SC 2610513434 780361970 4072278968 3165566617 362677842 1775830058 4195110448 2813784845 1072168452 1018450691 1028609376 2101464438 2419500187 2190549840 1837865365 625038589;
  SC 1347265449 3654928411 3255194520 1322421425 3049188507 1827004342 3467202132 4261348427 3419671838 2239837129 3441474020 268041876 4157379961 971431753 2053887746 2038404815;
  SC 3723233964 515696298 2908946645 1626400003 2191461318 1201029625 186243574 1212380923 858781105 4236445790 1936144063 1009147468 2407567966 1865959325 1701035060 241151649;
  SC 3696430315 3089900654 1103438577 3528924465 1259662835 2438429227 1692672370 2989843137 1446894995 2239587625 2340544036 434491102 128239031 2734594294 2667284742 1865591178;
  SC 1980028431 1099813170 2013628738 4214038867 3231891435 3896266769 2756820145 1490749299 951981230 3655451652 1676645053 3593230746 3010864552 405419875 1336073872 1398624425;
  SC 3414779716 2008156201 4125277506 2287126283 2446053551 212726297 2794923956 3421277562 1460719994 552209919 2551004934 953727248 3096710400 3712627263 3614955842 557715603].

Definition static_row_1 : list ge_storage := [
  SC 461660907 483260338 3090624303 3468817529 2869411999 3408320195 157674611 1298485121 103769941 3030878493 1440637991 4223892787 3840844824 2730509202 2748389383 214732837;
  SC 4143598594 459898515 2922648667 1209678535 1176716252 1612841999 2202917330 13015901 1575346251 891263272 3091905261 3543244385 3935435865 2372913859 1075649255 201888830;
  SC 3481295448 3640243220 2859715852 3846556079 1065182531 2330293896 2178091110 3893510868 4099261975 2577582684 4207143791 589834100 2090766670 4242818989 2413240316 1338191979;
  SC 1222367653 2295459885 1856816550 918616911 3733449540 288527426 308654335 175301747 2585816357 1572985110 3820086017 3400646033 3928615806 2543586180 1619974000 1257448912;
  SC 3467862907 681146163 2909728989 83906098 2626131995 3872919971 2290108548 1697087700 1793941143 3236443826 1940064764 1563989881 527371209 610869743 1604941439 3670721525;
  SC 2302729378 1391194029 1641771531 3876177737 1929557473 2752989331 2519109900 1131448856 3786463166 506905989 2345013855 2144715811 1583628159 291930150 3243470493 4130365181;
  SC 2855519179 3147287790 1536116015 1784764672 959281397 3099717666 86403980 3409201632 3921301684 2101228153 575924517 1382150904 641478876 3860064926 1937521554 2358132463;
  SC 972265053 3025511526 2467192450 4011934802 4015820825 3179306985 1744647725 423238442 2406064939 901607195 3316491016 4128592049 1397491632 439641584 90500461 2834580417;
  SC 1730532518 2821193463 2700804628 2416923244 3795632308 2799866320 3434703577 3883111373 1777933228 2963254493 3042948878 1746288680 2832145340 544625602 3633879343 2300858165;
  SC 62331695 2228442612 3527845246 2989876118 3995298903 3601545798 4170931516 445717530 1981201926 94264130 2668647577 953251412 3322279962 3837653687 3116466555 3369796531;
  SC 2739333573 3637259489 443756582 825678124 2455706402 2994548791 3653546249 2584145078 1245698352 89066746 1738138166 2916153640 1850062717 3472193431 2110631011 1214009088;
  SC 2386327178 3993497770 1051345891 4137183237 3078790224 3598213568 3344610192 1517270932 869515922 2057215060 2792454282 4228826509 3425305972 2708629086 880185559 1356729037;
  SC 2989561710 3550122639 1990591383 2036612756 3588709655 595888062 4189293408 1955008963 987876526 542093629 1953520395 2315684331 2929815182 3270759899 393611756 1677885197;
  SC 2331762734 371120497 1141333410 3466824114 4113916626 3698793791 2483365276 4265751258 3804325409 4085909553 3531838853 2629626707 625187055 3045263564 198131065 3993694760;
  SC 27419592 3267954699 2966738458 3143461717 3869766944 2163162934 1886283869 2052225367 958768216 2006727717 2069130137 1939449196 3015752138 258766841 3290132621 4163970366;
  SC 903383785 2983456345 4269392462 3731664159 1837248343 1888413004 652691803 897487558 3732206419 3625013640 1917594162 967935585 1804564817 883883125 2389854768 2347234078].

Definition static_row_2 : list ge_storage := [
  SC 1793692126 406948681 23075151 2805328754 3264854407 427926777 2859563730 198037267 2129133850 1089701106 3842694445 2533380467 663211132 2312829798 807127373 38506815;
  SC 571890638 3882751380 1536180709 3437159763 3953528399 516828575 3769463872 1449076325 4270798907 3135758980 3520630973 1452980147 3957715387 3054428574 2391664223 2297670550;
  SC 2724204046 2456139736 265045669 1367810338 1722635060 1306450931 2894913322 3094293390 3490680992 2550020195 3028635086 4200216295 1066664286 4170330175 777827015 183484181;
  SC 947228665 1559209921 3080864826 3123295835 2934045313 1590990229 2766960143 3113606941 1136432319 3758046297 2054046144 1377389889 3244301201 127071274 1752358610 2783507663;
  SC 1460807831 3649051054 2799484569 1231562901 3377754600 3577118892 1234337315 380370215 3272388869 3656237932 2653126291 786263023 1028996455 4274234235 4225822550 10734444;
  SC 2071087047 1934036755 611830132 2015415885 1373497691 3709112893 3810392851 1519037663 779113716 2738053543 2754096050 2121500804 982626833 1064427872 1627071029 1799421889;
  SC 490669665 331510235 927653097 4010558541 1341899186 2739641489 1436050289 1379364712 441190387 3816107121 4151493979 3530159022 2848669857 2894763699 1938279708 3206735972;
  SC 1164630680 735028522 1426163473 1764145219 2188722839 2599797011 2331123230 996298865 2803113036 1732133918 4135374745 1403496102 61305906 1982207767 35608603 680731708;
  SC 3097030574 2239944926 3004506636 3698971324 438440050 806226289 3299217652 2137747676 2376642592 2372355096 1444993877 4198291752 3194432604 579432496 3143260503 58153128;
  SC 3073570790 2457870973 3254087300 132589961 3090464363 4031655485 3397735349 3738272915 2438408586 1610016484 3607490511 1979839295 1993157220 1628966973 2566520843 2415504793;
  SC 2516700697 2521039798 2777488721 3196543385 3593950703 2445108602 4227515375 3361503440 3741757104 1367007706 4282009789 2127358709 2970274265 108953332 1376097231 3612352600;
  SC 2841122028 289695603 908429972 1449591303 3496532142 430811028 1377898285 198605765 702014643 1582973696 1654127041 4145703462 294032334 4235431914 3438393459 865474483;
  SC 3545445168 3333415739 2928811023 1435493501 3112072977 3466119300 61597844 839813414 3787328278 1928915478 3046796186 549615137 3862451403 1325262296 3520760105 1333228419;
  SC 1325790793 3907821545 4134901119 1951705246 3223387882 561480379 1136389443 2963679361 3722857515 626885912 3665060294 2975869036 1378007717 1212143055 3672021732 2520983812;
  SC 436660944 1593040065 2835874356 3054866405 1746716106 2901130226 3275156703 889550475 1667636846 2171317649 477876339 169193861 3301423024 2923695575 1084572294 981889567;
  SC 3803276281 4055280968 3904809427 186227966 932166956 2399165660 3851784532 3001852135 813014380 4116676373 2706810629 527442580 120296772 3128162880 662936789 1729392771].

Definition static_row_3 : list ge_storage := [
  SC 1686440452 1988561476 754604000 1313277943 3972816537 316394247 994407191 1904170630 2086644946 2443632379 2709748921 1003213045 3157743406 1758245536 3227689301 1181052876;
  SC 1258105424 4154135555 2219123623 3901620566 4152326230 2255006844 2043811343 3401743053 1077175625 4217078864 23446180 3296093630 2983403379 483875022 1821322007 933769937;
  SC 4094896192 2631249021 2047644402 1580854103 3103587285 3577080832 2726417365 309664155 1801899606 2578001137 150353312 1950478529 895600852 3405805048 2316670682 3067768105;
  SC 443311827 441757202 1505167796 3339695156 4080303377 2032258566 4249816510 3524388084 3057881006 1951550910 755229308 2331249069 1739558582 2222328965 511821487 2764767310;
  SC 989753134 2338266356 549068233 4113024610 2746193091 2634969710 3079940655 3384912157 143838693 4047635856 4286586687 149695182 1777393012 52209639 2932952119 3267437714;
  SC 682610480 2717190045 3874701500 2657184992 2055845501 1316949440 1867841182 3514766617 3083609836 2586162565 866399081 1085717952 3259379257 575055971 3866877694 451222497;
  SC 328731030 2942825188 1841689481 3492191519 967390237 99172838 3036642267 3931425637 933459735 3523655044 2662830483 2533317360 1151283556 1285468956 15891850 3194406721;
  SC 3082245252 2305218459 2853219703 1279555698 3695999195 2225441691 2702374346 2002979755 3394310641 1438568303 441738339 2319547123 745721770 3663132780 3613740038 3163545587;
  SC 3109530474 209548946 1705898345 1227555051 1300903197 521706788 1046889791 392785355 1195852439 1128202903 589172095 3844020294 989062243 3765536158 3601935109 563198009;
  SC 1408383323 2941773350 4185382573 3662857379 4172908289 4118722458 1935569844 1296819381 439467796 917888253 1573015538 2875181025 22626495 313409715 121133518 1579603291;
  SC 838355261 2323744266 929233883 1533162328 2939669145 1021427197 2448693967 1568998094 455286333 2516902543 1708158744 278073872 978123683 2512836694 3972232382 1433020779;
  SC 2010810703 4018381427 571706262 1692351234 4256546562 1231266051 268479287 2820752911 2261632188 845795375 3555293251 4247559674 3383569817 4149228066 180667610 1402241180;
  SC 3525485702 3451430050 2349871300 60510511 4165534527 3431222792 4244473672 526926602 763199050 672899723 1978849638 489006191 1575850086 1948428588 201110001 2038136322;
  SC 3829603224 567257667 2324557421 3080821304 1922441927 1741539649 2023385976 3349327437 1997432110 3734074051 1330703636 3180299184 1913578229 141656008 2692604045 1602929664;
  SC 29051889 27392875 2013870801 1608859787 4192290684 944038467 2706126772 4086572363 3654238115 631287070 4277765317 2361271762 4170133585 2022489410 2834765713 1378478404;
  SC 2835113470 3839837803 3596950757 2129670392 1881028173 4057879348 2459142230 3736551989 3032996358 1333513239 3006303259 3885122327 4228039994 134788219 3631677646 450886807].

Definition static_row_4 : list ge_storage := [
  SC 2450731413 2768047193 2114778718 2363611449 3811833768 1142236074 836975073 719658637 89564040 2055034782 2279505737 2354364196 748992674 2341838369 3471590741 3103440079;
  SC 464369172 1784969737 2303680721 1699015058 1839678160 53342253 3929309179 3713202491 1764215120 2190365769 3137266333 3919018972 3446276485 1027535494 3649392538 1979045036;
  SC 3689697965 1535268856 4095087266 1879342666 1901613989 4062220771 1231692686 3479254943 517178359 3704348661 3200159500 592930780 3995209641 2367381241 1790597847 2276745810;
  SC 1563410665 2779883331 320555798 143478861 1984047202 2486036480 1819096593 876845470 4160262809 1685665332 1096211683 3396846267 1079209808 1622135728 2746449213 2258485533;
  SC 1981422448 2212169687 873443773 3576733408 3923794933 1875069523 3053667173 4292418240 2192702144 1027092432 278807989 2315740043 485097259 4099751129 1350843241 1137138810;
  SC 3929635582 2647315129 1255145681 2059161179 1939751218 2574940312 1013734441 3958841903 615021475 1092396560 1516857705 4167743313 744612233 1609870616 1905505775 2106400820;
  SC 1036005687 2272703162 2208830030 2182996589 441615709 3591433922 3586649797 164179585 3077875769 1792522157 2657252843 657567108 656390324 1816007391 3075467586 3873231707;
  SC 1236896749 2895887291 1978987518 822801819 516389325 1102535042 1787993035 3557481093 3231661433 991180576 3686912074 1297456949 3327185778 308709174 495078044 2969592590;
  SC 2019907021 744703189 2139199843 518542186 3124680574 142934434 551498542 3021773546 4091561632 1051317147 825719313 3707224763 335483791 4028731434 1335000639 4102709448;
  SC 1093818871 985937516 327542691 2046117782 1264752065 697293694 1615263505 1156460629 2812684388 1192736815 3019618111 4209127823 2556369187 2112950523 637809851 2176824541;
  SC 1687299893 3728297084 490922479 3634470646 250826345 3692215527 3273717576 965983458 2226919381 1460789800 2122435754 2519058236 1620196106 4066817802 1130044433 3889340415;
  SC 852530522 3312783835 1596416107 1741549460 2684468674 3424816114 2501858342 1775689041 2140910620 3593295971 3269455071 2386348485 3506744308 1454965514 1429132807 1936823584;
  SC 606602909 3019871883 3512048756 3287518999 3877975051 3914786486 3870177904 1340649290 520571284 3028797996 2616337132 1103844529 3133726039 1357152000 1508799653 31330228;
  SC 2817743510 2877820134 3034826170 1694674814 3472934533 2992700940 940570741 734740020 2101869811 3976806699 3986671415 556491401 2336314226 3375597171 2706276162 2068498899;
  SC 2875346415 3996130283 2530370154 2292821435 1717542531 4166402291 2045046397 210928306 1305773764 891667924 1720475570 2097400197 3748242244 1645769622 3986372109 4259524466;
  SC 258680563 3407077353 3701760456 1531445568 3746171918 2983392727 1490964851 3947644742 2779475335 3867487462 2573576052 3434694262 2755711440 3366989652 566303708 3091229946].

Definition static_row_5 : list ge_storage := [
  SC 2925506593 3911544000 1647760999 3077282783 810174083 3532746750 1218244633 1800164995 3882366571 1552758454 417617232 3581187042 1107218813 308444727 2996521844 3546298006;
  SC 2766498247 1567718891 906631353 1539374134 2937267715 3075423755 466239025 348294756 2802746156 3822638356 2215866298 2676073175 2327206803 3701444736 533673746 1949565232;
  SC 779912645 2120746348 3775586707 1719694388 3225985094 1124933767 2466028289 3688916232 2352972448 3100332066 3699049642 105143046 3528587757 3202351686 3275195870 2542878955;
  SC 4208701680 3032319563 1934783333 1683344422 1898255641 1818484420 1090856325 4203146066 3166734039 1425051511 411614967 1272168350 905464202 2860309946 2899721999 4016531256;
  SC 1252276677 705548877 3321309972 2587486609 1841091772 1176108340 2483104333 1124739854 1417860124 2145011089 1095816787 561231448 3047186502 2188442748 782343512 2073487869;
  SC 773625401 1399854511 2112273744 3798562401 2328245221 4053035765 884849756 2543299151 3064173848 3322400978 2493736578 4109781307 3356431908 2033183790 3916558464 937192909;
  SC 1676839026 1837563838 681907940 1979087218 3861274680 1004821519 3526269549 3587326189 4130121750 5876755 277168273 3347389376 1295078502 3055055655 988901279 1750695367;
  SC 1466696987 793586382 3395028606 688541023 227515247 433349930 1151320534 2638968365 2730052118 2419949779 4184196159 3075595332 1762597117 3208522231 3793454426 2205574333;
  SC 2271935805 2221340650 4006866556 3892925071 3300102857 4023132062 1966820825 193229358 3829742367 3288127030 2999566231 1746318860 611198282 1740582489 586692015 272371975;
  SC 1512874083 1683202061 3100471136 875884760 2252521753 3056609126 2397470151 3238829627 398340158 1086173909 2650682699 3851040891 267796754 1063916466 134772391 616879617;
  SC 1190901836 3498895828 121518848 4122627266 4044339275 3929319666 3725675569 2249645810 1648430039 805152867 604009597 428134903 3660078748 1495738811 2912743026 3529964664;
  SC 1098872981 3803982233 1184687675 1724685244 1166128174 3324080552 2889006549 591614595 442372335 2188313994 392144341 559497602 2786744839 1080958720 963196350 4153188088;
  SC 2439538370 4080798018 3371249236 2272355420 3780648680 116755088 1743646150 3071185844 3348389643 3506488228 3592742183 3935997343 3470563636 4177761627 2879753187 203653531;
  SC 3278048310 2898758456 2355004932 2165371155 909690763 4208028121 3529336571 120122699 1468577489 2088039937 3804192119 4005659309 496708233 114985314 4186471387 1516837088;
  SC 1694326758 3482448156 2533790413 3535432659 1293417127 2007819995 3512854075 2476797465 936262398 4149678787 807292055 1683402105 3767740082 682769936 2956180563 2800734304;
  SC 804843744 1565609957 1986774659 4163563545 1192892219 2967653559 1407927717 134508609 2584983666 3798685912 1759632157 1938927553 3974685712 2763800386 3702401831 3969543832].

Definition static_row_6 : list ge_storage := [
  SC 2016238746 3648008750 3741265531 1468285316 3314132186 3225615603 2260838904 650230459 666608997 1079817106 1685466519 3417306450 465799968 1454367507 1432699603 4060146438;
  SC 1761873323 2175765323 123320402 1086415744 3425420197 3163463272 2096010147 892174421 3834451486 191088153 650609666 1384830375 430440180 1275312435 936713210 3964237847;
  SC 3490530311 4154571850 1473147571 1874492814 3394183939 690761407 1765847887 4254640890 3957252213 852293459 403059579 1419995731 373422976 1691953324 1513498303 3782064719;
  SC 2587537765 1727580331 2067598687 2050934719 1018600463 825517190 281367288 396667874 2125440864 2142555808 3739024155 471264185 2298783646 926505635 485317745 4237064052;
  SC 4177694527 1331122857 2632274962 2272030823 2711200568 493910969 64158788 2976239616 2805230971 1856476899 706343172 883417303 3085501222 2167885061 2608970459 1305891290;
  SC 3887930902 1612140391 329833229 737708613 660227298 2588285981 3429746116 4247477263 2536670475 1091054728 1521783433 4262529359 3261855757 453613765 484850910 3619344637;
  SC 3635973664 4002263582 683484955 1188525929 3024525647 1588813480 3496033065 109022234 2342061519 1416918501 2207158673 948640868 637445219 508491813 3897434662 680054967;
  SC 1039851594 403130855 3868498597 1611578944 2942424644 2874427101 1261647069 261871566 2520758170 2840740989 3799279215 381717039 3582347301 2025353438 2948438214 2918501540;
  SC 81851588 3029358979 3777821133 2109529880 3684139703 3572137489 2624799 2076188243 53500651 2606703535 3206313372 346558880 465806762 434266486 1902707603 4080110534;
  SC 3612241613 1917140707 4136616607 4041104182 2193790431 801466537 3599423303 3561003895 1189069231 8494816 4244955339 451969883 3908494655 517115239 1812731691 777430858;
  SC 3522137911 2027939004 2210696271 3920541975 875695915 2825269477 687289812 4252564584 1824925315 507608234 2614820601 2462525050 3886866857 668083682 2768243607 3293579201;
  SC 1682273922 1330912967 3636074852 840196898 1025234484 1557176067 2837118766 3109038869 594323342 3200796742 1959017554 1440926582 3021668826 3738492638 446292405 2414347832;
  SC 4116164451 4091036540 474505628 1269644927 3643568118 1673027873 1438360759 4022285580 4024623082 1654730750 1581385912 3853471495 335076979 2185560806 2494598452 3520671279;
  SC 4099595861 2215053464 488918654 2772869965 2247823716 1588093320 1138185172 732569291 247618738 1702163570 1772683376 1056938600 1997535786 2064838561 3705150691 1453615480;
  SC 3809909081 1962152573 3909100601 1479514000 1615313752 3569344372 997113509 3043376485 3480943705 4021042580 2284195092 2749518560 3037939132 3554704413 185068622 683070990;
  SC 3163624176 326387389 438403431 1924575191 1706136937 2432230714 4175139676 713582699 175432919 505729353 375905517 3179239595 2233296987 472507277 1822318909 3059447908].

Definition static_row_7 : list ge_storage := [
  SC 3955300819 2390314746 8780989 1526705205 4147934248 1494146575 1667625450 2277923659 406493586 957460913 3449491434 912766689 1387230361 2368913075 3538729245 2943257094;
  SC 2095358020 3831852940 1752942227 477088929 2503091779 898077 2215106688 1298885808 352224250 3952364758 3669616566 664714721 1826685582 1576488055 2121138397 1442223205;
  SC 1378268686 187975558 3210161726 870689300 1860632239 902013623 571573600 25414363 3412397724 3841538145 215707661 324367139 2323478150 3794355190 1128115053 2519022352;
  SC 566244395 2591175241 2926679038 2852174582 200192886 521908517 2098042185 3563798587 1529741033 1248315044 233787221 2706044694 2870731528 3970719810 4167465378 525407392;
  SC 2196340159 4056996284 1702457669 2086317410 3933566271 3751624213 4023204768 677196918 2137509058 4037704026 2299370032 1748548051 3326874481 1974512389 1751264060 266112293;
  SC 1812114662 524787647 285577300 3638318945 3389691808 585441476 145370930 1149989778 1314386440 3471672106 908522311 4171434326 329350743 2954206373 856961382 2008618089;
  SC 2318825510 3826102862 687747522 4263777564 2387018418 1135189382 1414060091 217356911 2998889592 698204196 801530770 3479982231 1117806357 154519605 960816747 3149429798;
  SC 3250819610 351683992 296382659 4149667465 2183346760 1485561783 2218034265 420633334 1869679065 1205517989 3666184780 1975151679 371905540 367504198 1917294142 2403996454;
  SC 3958230362 3773825115 783748416 1243337893 4032003144 3908441244 201600922 2000451013 728826842 3533421010 3229478766 278198864 3933272000 1331731276 3202405750 1474627286;
  SC 3181836998 2581633616 3993055681 4020956268 2094932060 3551878275 393027783 2154269634 2283536956 2260289773 832949759 2403309662 3488387345 1652392255 393935478 2309058441;
  SC 4141036972 1727820200 832481848 1055621047 1091666560 1393833209 3406509646 2428157250 2974564551 2286298667 3776410458 815994971 1241023789 775596275 1035618310 3934253771;
  SC 206932164 4239023187 2046365950 2616857124 4246776524 4059028269 129664965 907402684 3859465657 4204192080 91453633 301171900 385561248 2689085222 1614465584 3977451005;
  SC 3683171878 3148577689 4042394721 1085044656 682611813 2857177748 2417075323 2983755657 3777418770 2448398967 3909780770 4000218621 4227580585 2425908645 1704039191 3712924954;
  SC 290465694 3921687099 2971845338 1854613741 1583022754 371222458 1744154613 3918664956 1960343256 1291903121 4010470137 1525668440 4091170130 1370665614 3468958243 1262617601;
  SC 469638518 1129475898 3766065538 1777952666 2589258222 3182239596 2626554219 1853296675 2912212627 2518041806 2743002885 3765128027 851537937 2059010589 1827964742 3630398912;
  SC 2458599023 2699477701 2305781427 2536499567 2118412162 1356010449 1426052710 725853717 1358092245 4196538471 66159936 4076320019 3065284443 2664736186 1943959552 939016920].

Definition static_row_8 : list ge_storage := [
  SC 3159079334 690659487 1550245019 1719420482 1795694879 2846363486 15987067 569538014 1561199762 967336684 3110376818 1863433225 3468533545 3644881587 369296717 3652676359;
  SC 3207794512 2847938045 2415472979 1444858769 666387488 1660608279 1038886882 10876848 2468284561 2494495733 2622688628 2362399325 2213804831 3448783854 3958704532 3639349832;
  SC 54374990 186360229 3420619566 1356363720 2768151763 3862789233 4270651882 2681019589 2332931746 928338209 3968478928 3908570621 923281930 2285715383 3620920276 130031468;
  SC 4009596626 493238747 1786722937 653638870 1636723425 1884625267 2113708566 1448416211 3613674959 239497564 404863679 1521570751 2819432609 623319225 3073321373 565867032;
  SC 1220575379 4235426741 1889734996 43054857 879216917 3299856237 2922851906 1054251029 693641076 1704223409 961665328 2828086835 2727513652 1580557310 4169876178 682569510;
  SC 1757813477 22814395 3549822650 2254547303 372100012 1555116803 2587184145 3995169383 2645743307 188252331 3723854483 2138484090 1895504984 3538655836 1183003060 1439034601;
  SC 2578441833 3136721732 380864696 817462912 2257087586 2256998015 93155068 930999672 2793712092 2223512111 3157527446 1098951014 3490358734 1362531303 2421324125 1961922428;
  SC 1049179776 2969815936 3869567708 2883407597 1876243265 3498929528 2248008570 1231166427 3544374122 2839689583 1991744998 2798946627 736844268 1293771673 153373649 1931110485;
  SC 3785289356 1913060964 169967200 3348219956 3732729076 987877186 3063387163 3310757163 3480818987 1991307039 2882756981 1215305494 855630497 1471153868 1338946323 398364632;
  SC 1356154057 3013675057 3810909135 1796458190 2691409967 3963509663 2487357466 2764459334 2828737787 378542508 427318427 2412936991 393927878 3384382899 1135834101 3447900619;
  SC 3813669196 1922867812 483725924 518662823 3954558327 1908218112 2258643690 2093138355 1162728847 205977116 821018600 1237824238 2980682686 1821003630 3221633606 2717269894;
  SC 1353035942 2442753208 348196860 2355246066 2218279077 2203055542 1964199656 1329637142 1824193111 3965017045 795175573 1029253807 3915633667 1084707851 1682462202 2090124205;
  SC 190807548 1133131805 249542006 2858611426 304500253 2183315108 4145782890 2998333644 962888949 974441750 1484862994 801464190 2311388331 114769498 4260362972 1017092877;
  SC 1311406963 465174990 1760870095 883652788 1015674641 840236175 3124632038 2756294642 178804852 3164952754 241649187 1040890173 82588907 1771630815 1058353446 2473824375;
  SC 943051847 4107933890 535438460 2683519853 3177219980 3711205196 3390138615 2920849102 3747455519 4138118615 400899690 4278329560 2602463649 808685972 136036034 1078020636;
  SC 2185570356 3896907774 3620938057 1790823508 720763411 2404776615 3257162972 1221107462 3223154083 2528715719 688766234 1813423773 2324112952 83241050 4119437520 552112812].

Definition static_row_9 : list ge_storage := [
  SC 3370489298 1718569235 523721575 2176389434 218587365 2490878487 2288222859 812943600 2821517993 3626217235 1545838667 3155352961 741681736 669093936 2382929309 2620482966;
  SC 40739723 469402467 1810137291 109375068 1888845715 2140810583 1053250454 3220064762 2539857789 4089587896 1364971662 2996699084 3939034030 2020251221 1606532641 3453095239;
  SC 1376139558 886121026 3003069127 3500718919 4223467610 3212808910 126355621 2065481301 218954382 1236555811 2283280895 4256918831 1550185311 896721211 4286247506 2515527710;
  SC 2942433244 2364220023 3675668782 3695614763 4041312428 2311531471 543507321 1902188023 1380686629 2455468346 2346421766 2211296276 3675221499 3890242164 3592353914 323566438;
  SC 971323999 4115912859 3703400072 2662062035 2355087034 610373016 2293984834 2456129286 2927901115 1832014620 1168920846 552716242 3101454502 1707155244 3450287619 2546358284;
  SC 3062358608 1394539264 4158727824 1704721957 1117692646 4057908715 1958466020 2309578289 271836599 2617957229 202314495 2948978715 1423414031 4128837100 1937488702 3301405882;
  SC 1276638700 885904232 3686149920 3283641475 619290126 2510808612 1691008630 573145513 506979295 3062936948 2703005699 4056634904 3460956977 3783023797 1215556973 3726733337;
  SC 3145485089 2008513183 2407056102 633050174 2634406893 2883313710 1233018283 3273507959 174012667 2126243450 2258342097 2857351925 3446764464 1187986524 3004835628 3228122242;
  SC 991481464 1720231754 1918287975 2752686681 1174123782 4227334584 1634945718 1074218184 3572504705 1199611126 1378243227 2901862427 2145083550 1055786253 3960418624 587771424;
  SC 3060872990 789280525 184089463 1784976524 344050594 2949751745 3173202246 3813443247 1247337895 4000924548 76989753 2093985529 265772293 3310477933 717631968 1024610284;
  SC 3399834097 2964304651 3593395714 2850196125 2344305533 3920139836 937580696 1116439644 4147778799 544787491 2461636418 2647550544 1451408824 3266700679 829974548 2625074193;
  SC 645329496 2808202504 1366740717 2841442794 1298546911 2730798019 3834987045 3258634143 4257492959 2976079952 1735944512 988426767 2395072762 3103996991 730963792 4206896923;
  SC 3457675112 4140282966 1286302693 575230857 2270112110 3056424235 1835144711 421529065 2499621064 1907217915 1365357672 2875249236 1193490885 644367230 2115448516 2507997379;
  SC 70240820 3745431832 1098747160 82118642 2446590634 851446619 2715739022 2142293045 2689000746 4219383621 3140617705 1457579904 2541485894 3932513084 3406615220 2746135210;
  SC 2576508439 3244150028 2516535555 3986514000 2903382402 2225326585 1780804949 1164188435 1682143109 2949153515 1249412173 349674695 3467452794 1021028584 1194554595 1296132950;
  SC 1028084134 2577983628 184499631 1037888434 1676727662 1831883333 1276555462 4161670547 372201005 844715673 24290758 1268964661 297554992 4061435345 719976096 1670144314].

Definition static_row_10 : list ge_storage := [
  SC 1239892635 3772349433 1058531752 1409211242 2847698653 2391143499 2637108329 3000217976 4288568828 658925470 2552628125 1468771377 3230644908 2692030796 7587087 1951830015;
  SC 488413080 1055864530 1967623060 3973308786 2745059783 477755698 544732176 3786002606 1569550024 2935491988 1047898991 1749060996 1828274710 2943223535 3716062834 1253889972;
  SC 1626917485 492893476 2371366539 3928996000 3710769983 1237244931 1562679102 2930576193 2085522193 2968039733 3202113740 4250144171 3666251088 2016963274 293320478 3775462481;
  SC 3337977767 1831658883 1096680294 2436280860 119870062 1444445305 1467566544 2038307180 661842797 2493843529 3851219498 3941720925 1848373617 4051739727 1120765529 1101800264;
  SC 929493756 2211014659 3851484027 3468182176 147674626 3850162187 1517171722 907705770 3997080856 3666272567 659948161 2282159142 429200635 2563204390 1422415938 1688129608;
  SC 551422730 1797390513 2828310972 97463725 131839682 3917501017 566617767 700714239 3061891811 856175415 1072683059 1754819408 3533865753 2568134802 4226648923 32646755;
  SC 3538971706 2916601269 2891999350 3825811373 2355258376 2876141009 3940019347 1309282440 2567828520 1367177503 2910098023 1986452448 1802584940 1360144734 2877029236 3033303547;
  SC 3313753312 261894832 3637017242 3699232915 3508549542 3960876382 582644479 3199091169 3644395252 2675904765 2072396219 4071523208 3976776729 1025403411 2178466200 1107450603;
  SC 2163612584 2845646977 4033161886 2723908899 1902990762 3375716497 2588626243 513179480 3101622846 1458272618 3875706546 3028150894 3612001457 2583302957 3385091312 3719047138;
  SC 1256280924 3685139058 1853414115 3160743702 3455476559 2505590918 2308735646 3742507036 4016470170 330769483 3470077232 3383715347 1440115354 2667395648 1883060415 3332144245;
  SC 558087170 3027059128 1986900497 1642930671 5966195 3083778816 3199769457 1248728791 2110460619 327014118 2524517189 1776442925 1472982408 3459887088 1029172283 2232815594;
  SC 1544258748 3397993939 2721410152 2948125157 3562231734 3011402493 3266317933 527195819 369665170 3216603774 1952585925 258420856 3339671680 3733846143 2326118329 2310291176;
  SC 4140585488 4198875250 3415599245 3398679011 4155727512 331520374 785987151 146809315 2929041163 1558279570 1346822944 4167931729 2800498595 2809390575 3295157947 4121566122;
  SC 3571413466 1596401972 140853088 3137527478 204556611 4111255020 3835120334 3048525996 399176328 3005771198 780994070 3747160103 3136546207 508755537 2521091931 1715747893;
  SC 1156063870 393984449 1521183961 3649564442 183535572 3139859119 445469714 2815871833 1268459010 355340626 2465929503 750513297 1590602217 3983872541 97286792 110438349;
  SC 2549125874 1976691716 2532749644 279085303 633988261 3513450026 1057503157 1110164955 317735960 3241215082 3855084900 4137511567 3550729054 819799870 1929320159 2825290282].

Definition static_row_11 : list ge_storage := [
  SC 2585638847 1394876113 3750575776 4144761638 1991524028 3165938218 158354186 812072970 3814951634 2507408645 1163603486 3566585210 1424854671 3326584505 3332079056 1901915986;
  SC 1520752595 1952396314 3263601295 3458083478 3797830135 509407552 3232598095 1205382790 2667815610 2560349365 2472625295 2883979179 554514567 2376619906 638138357 2568018129;
  SC 2442202610 2091297602 25025777 3622813695 3869161931 614884494 984078136 3345125623 3918959025 227030161 3885929851 1281751413 1612359075 2958486463 2884267132 3619290927;
  SC 3048700207 2570072469 1076153001 3767270422 1408579070 2076435276 2224129615 1962182553 1823335118 1499162388 1563913085 2068011578 1991334162 1665201834 1756239294 648108494;
  SC 2337582449 1819429591 3833487099 3870804287 2300831739 2232929806 1869816966 4084965807 4220168543 1248736546 924637940 73528534 2319796252 3657850751 2794932350 4220430348;
  SC 3028904021 2992718647 2354594543 3084902105 3127673085 783373559 3896264500 3984439851 820119108 4253719169 2623678017 3039126654 2922756242 2436956481 442364253 918876081;
  SC 1539558451 2306960255 1095386938 770368485 2906552323 3075682102 3534951832 2083903147 1308495764 2261904633 2112467113 1044610889 3222649255 1736090274 1954974285 1361850096;
  SC 587984395 1588261189 4052666242 512106258 651085942 2768947530 1250487652 1245674804 857176247 3594046498 647658046 2882585491 259918032 3698728358 632752990 351374374;
  SC 2404749839 3296323382 805352255 3954906457 3558496371 2470613864 2024150378 3564550335 2499521206 2051669779 607498894 3748811695 1128400961 3072401950 3042994760 811721793;
  SC 3595493043 1889077187 1981480426 4189336058 2081249554 2321560592 971543366 358725627 3595364674 3986924883 2193763710 4189195361 3121216309 1140981210 3226790033 353586077;
  SC 2871195936 2843651834 635723881 287569049 2067429609 2943584978 644639896 1264563774 670309272 2690274713 246950668 933865226 4053660195 1381269871 462688690 5420925;
  SC 977313734 4104230969 3334283655 1580178205 1578158646 1460773045 1728595474 3957344726 553676110 966612385 1786516334 2979157051 921122693 911238485 3922067113 1046213221;
  SC 91424183 123813459 1667146297 3387121372 438965888 4260725592 154972710 3237027664 3006360433 2505005588 2902337724 2660287100 1901200613 2646189902 2780155597 49560303;
  SC 3586622617 925349590 415005474 1260234539 30249250 2179523979 3475887768 3019952034 3517624902 4230850494 3734868171 742624613 822822789 3974379285 3711572581 3366701706;
  SC 329275906 1905371123 4004795330 2339811253 353091905 548998992 3687895576 356859438 2494263562 926298666 3983230019 2882391620 2824170047 2247742371 1881005652 1386887463;
  SC 1046492158 2680429213 1614272999 4010933686 2479992689 595409283 765550354 2852655093 1983575334 3910696497 2308266592 3012641543 2582478313 14949228 60656360 1955264759].

Definition static_row_12 : list ge_storage := [
  SC 1355623958 2575138117 2562403739 1638722303 1523970956 2189861089 3498071469 1919711232 231840827 3230371223 143629793 1497495034 1677900731 1608282251 3485501508 3944969019;
  SC 1317209868 3823870608 3335344652 3702793515 2425890570 1442662397 4007605978 2976935239 1444558882 3449074340 523287240 1767769527 1776192231 1111610095 4035220013 3434023407;
  SC 1286632782 1751340143 184421370 3989392405 1838859918 3681550977 707040060 2695037953 1828105102 812532736 1115387936 1381188966 1389542552 621856846 1135930465 831833090;
  SC 2741542793 3565635943 455105161 2389444906 2966273581 4048751601 2569017914 1796095397 1515760827 3870103158 2737365395 818096507 2179280538 1254083919 2114706477 1413209953;
  SC 2036431795 3313380793 2996275588 625273343 1627738147 2163909313 2645773664 3066825866 3862562238 3189614065 3074707667 1611214266 689055345 1845962762 3616153367 98214289;
  SC 1783057147 1095836105 952581152 665189523 4159236737 3621720388 2768968806 1541462219 1550070665 2946487171 3084327270 3528580128 3683323170 2326350340 681502936 611874814;
  SC 2075965546 3954443814 3457426695 3100575745 795895906 2051458923 4220432661 3191956430 2978441632 1935083482 1260223004 1989210512 708452144 1742032782 412060225 942058976;
  SC 1554952802 1148928548 435577880 1218016814 774531999 4171943086 2728379380 1755428421 3096769247 551470356 663936617 2259245103 3605128160 4254582248 2543346251 2641240630;
  SC 2834055303 3779347324 986655417 1060344853 1961336735 3444096071 3402507696 1296975131 4013745799 318316127 3012349080 1543913977 3581569730 3073345556 1048961320 3338742347;
  SC 1917475623 1573453706 3775608035 1560651154 3305702627 840251936 2021694407 1567223161 1217097878 4101089784 1480235880 823763473 1860062290 3212933927 305432786 2664137512;
  SC 488290329 2159084342 1977681447 3072933047 2133970307 2904163387 2929381044 2852811875 3486789427 3312981159 2897952520 3716688458 3312599340 2231560239 2736260178 2100166993;
  SC 2561748569 2171003952 3930314290 4171544961 4084487200 1829909478 4190664042 1205662930 1332053018 3102835265 2758716514 3094681405 890009818 1835725787 3657145276 2012429206;
  SC 1490727773 2663703693 1786667419 3911642156 1173781475 1032437218 949369190 3379245680 3855657643 102309733 3862169655 1953708469 2899532678 2185103023 2246792392 2140300644;
  SC 1105179994 3403119551 2151897995 2133026531 4095632628 1958582421 3756551819 1353448323 343568827 940163873 3647008605 2675342302 2020863909 3314608025 3678853306 2350764749;
  SC 3610890660 7527132 3948519712 999155044 1566318108 1592356541 1395933920 3725362820 1628394109 2361449910 3407340106 1370203307 1521539242 166450716 1562824595 815891091;
  SC 4169640806 3985781662 2412370154 452406588 105016225 176939651 3796204183 875428687 2497589429 82221910 4277856341 1375558239 286683641 3316069361 519521869 2295715438].

Definition static_row_13 : list ge_storage := [
  SC 1272080061 1249052793 3406223580 3180222548 3305857569 3627944464 989639337 2790050407 2758101533 2203734512 1518825984 392742217 2425492197 2028188113 3750975833 2472872035;
  SC 23055961 3145183377 2430976923 2926141735 1297155725 3931229778 1820665319 2985180446 3042883880 2460902302 3663963302 4048537328 3995357361 2497655514 2584741032 1771542440;
  SC 3555045486 1984442910 1340694232 3778110580 1134128670 754930307 645413801 419876731 718672506 2655370853 650960778 1175245889 3468383881 2671574337 44753822 3359158981;
  SC 289419990 2387037467 2851881154 4063189789 1829943773 2629576813 942097665 562844855 2647906183 117874787 202211775 3519990636 3082138694 1836881245 583992800 2183831281;
  SC 2721107251 1807232970 3202569269 3708638735 3532027994 4114767065 2764680156 135914892 1473879964 2935607101 4201045944 3202280567 3793176244 41830505 969791663 1519485648;
  SC 1497249350 1416277963 4236912956 1827689230 1595876921 792380080 2973128767 43523726 365213078 1703541227 1608568996 2447861933 4236202627 2270952660 996772411 1327926083;
  SC 930257564 986864131 3788206015 4282936823 3575152799 1711906087 3523467955 1026809541 3754676659 126901401 34761162 674497989 546239979 3916171265 4169565745 1773808675;
  SC 1188611875 4038625723 846346399 3124471166 3540873247 133640400 3354116939 2182269853 3158440321 538434017 508437111 2461460484 1662547818 3578959375 209001526 3335522863;
  SC 4264155336 4248354463 3273048757 2876562537 4290560912 509206354 1722430555 1796475043 864985283 4161684480 1401260098 2472895218 2342429930 827590760 300446032 2313806596;
  SC 2581459341 3429172659 2024065972 4099664542 1148350145 3444652410 3577141975 2981349935 4203645620 3053918552 3258443245 1577847138 1635931506 873577721 2391948063 3880308298;
  SC 348781524 168814463 525438717 333282992 3413546488 563982782 3571937262 2168075485 2567967190 4135534212 2773230423 2560090101 4070935767 1086323696 2826348049 1398744384;
  SC 1019826995 663251023 3152709102 4103744231 1372971676 1214523997 1159949230 2703418845 786011241 2156179212 1156040729 3454726929 1928366760 4000343119 4288863167 3214674902;
  SC 2681260382 4128008241 2510236484 1511367526 1684226652 979685907 2954161581 3173181201 2348267479 1347783270 1149362033 739573388 2484197607 335176176 4239049161 739872951;
  SC 2990421330 2634202447 3179573376 2783566953 2521510477 3781882024 2239710944 2912891640 4089020966 4152247187 3694477470 1764138981 2507816564 3857045441 3960587447 1062920229;
  SC 2607237939 3082469982 2290705462 3066564076 3196897175 4248068159 2751492888 1096521131 1350638971 3209282660 3725272910 717966828 1468400702 1807609199 332456241 3283231722;
  SC 752680913 2889161941 555836002 2587892579 793746532 2681266768 719050347 3803221 1422540107 1615046554 1724888503 923959013 3231965435 2753642578 1839210672 3344430910].

Definition static_row_14 : list ge_storage := [
  SC 35118683 172484830 3416100291 3700412376 540823883 3117923166 4211300427 2853939967 3346783680 988896867 2435731911 431849862 1744411117 2614624696 297543835 4045956333;
  SC 2040009399 3617093372 1922089948 419196583 488784755 779735420 2537006207 704283906 1092151363 2578829348 2820670194 2121866485 3135057501 2561548080 1838738028 3520705790;
  SC 2347233873 2021920507 3747005552 3302704092 1421533666 2091592699 3349570591 3813605549 115030445 3350012162 2428670067 3833734570 1834087037 3648785167 3795974654 230561124;
  SC 3166315679 1499753232 1332394568 512254231 3188709397 2787249743 4120940214 2887173650 3906489413 2295240998 2578634494 1588397589 1261609842 547227344 3285763119 2699176838;
  SC 2920964533 3740093834 2438698186 1924062654 745692322 2251363856 1198363872 1945834517 3791006786 4021475876 1202959856 137650558 3764418806 2028729507 3549185474 4085572018;
  SC 2715838951 1959655040 1103474341 961883214 3220165814 946461598 3310562057 3895921046 3423737504 3466676673 4053794032 4003999722 704282430 186242539 1929875533 2743489242;
  SC 3863164996 1689760206 3183192577 2929742795 2741898431 3788088914 2356234821 7039846 36640443 397902308 1207730645 450227359 3243815017 2084858847 1390053102 1800322698;
  SC 2899288970 284742850 4164169257 657423444 1943078242 2187671316 2338824812 1463135135 2886625321 272841068 3193451269 275059886 893727404 1588413844 3713690958 858582046;
  SC 220208151 2716463025 2076296789 1220608226 1158026410 3025895717 2670689841 80726308 1182245224 514737744 1549626516 2794996864 1140029757 2873715616 2877687374 2336796195;
  SC 1712499527 3009254442 159655935 3126441867 4265886590 3094626983 2035167860 2311303989 3444838362 2596170866 3801673179 1837914686 3231006463 1247923284 584065013 4147287941;
  SC 900839097 216650153 2150488455 1952211291 2276027011 3518121564 3433005808 477320989 4007917006 2860081630 3686269191 921073036 3922496269 1487331039 3974930220 2054391386;
  SC 3348685354 1508268709 1715972206 4188610176 2563479521 2178972493 3288192040 3754144178 1173914019 454089507 3398639886 574196980 135948897 105476021 2877469782 2140775314;
  SC 60661201 2505799644 1330476086 2641855913 3370908611 3545887069 2369313011 278373074 1677987717 2174519857 2497481396 1568231376 3671812134 1893623337 1526376990 3328774765;
  SC 2836826686 3566150450 1220364883 3711427451 3528155780 2723292785 3326692341 2222164977 1858144237 1869912598 665154087 1299959695 2415334423 2100885199 1677986979 848478053;
  SC 2293836559 1740853836 1031472293 3209927466 2722427870 1686533972 3134525842 43165427 4133377528 4179858803 3614537390 3380004165 2699323023 2351902646 3408173486 2494501357;
  SC 1820258417 3371479244 1743152481 953496909 4267482844 97428203 2755286865 830318058 1082737155 2096588114 869939293 1138867599 3414628151 3300388932 2755674787 886356844].

Definition static_row_15 : list ge_storage := [
  SC 1981590337 957784565 3778147127 3909235993 1637480329 2280601867 1059949562 2968107974 4043469535 4159249472 895867525 402468881 3186079639 86430659 4027560590 4067278225;
  SC 174847206 2629171882 2333280466 3666750170 1365991192 1932613341 769674425 2870677148 3091982589 717533940 691292429 746447527 2346750954 2424023836 2489851473 1000862947;
  SC 1294470925 420276534 18534679 2910625938 3592407247 3676292946 91786365 2630448437 4060747756 3372072880 766751258 2899531047 631745164 3523898915 3168717447 2801541394;
  SC 4228902076 3340600279 3364406353 4167190351 39030410 2148305555 4106423272 4019775241 1048613489 896239533 2278643848 649090509 1858593869 1017004108 2725922618 2362479567;
  SC 3279186701 4095625861 3191586341 3252046177 4161721618 2329134038 751155705 2989611709 942304573 3648059604 2883823407 1492175829 54393633 3106238944 429976962 1435978615;
  SC 3849622377 2984399872 690474125 61954906 3671421106 3429544548 2830056933 4242121816 952897126 3854066003 462125754 3261473627 4248077119 2601130223 2596495819 1081964366;
  SC 3544595842 126020837 2577264196 3433073867 496013073 2132398305 2482253446 1347711182 3954364337 261394336 1107608476 3443266300 104305688 870955527 3446753045 646876293;
  SC 164137956 1354687087 347069906 2162313159 2097666782 2177194309 1083298213 1791764705 445921337 2034078155 2254058003 1297019339 2457505957 3923390662 3364713163 2092921;
  SC 2010686846 2180989257 2265174665 208481647 547071646 2570387552 227431381 3946252713 1802054573 2876468168 3435214380 619729504 96719536 601795828 1679578869 3266813859;
  SC 1689091897 2850488954 85895902 2363909390 557966933 189022184 4135255025 2090271113 2804992462 2897353835 3129164865 2671868525 1204434986 2421048110 1069687644 573230363;
  SC 1864118934 1742326766 130305247 3848358018 448383585 389136808 676464280 133776905 3973153497 15653017 4189644276 1910866015 4017185152 3100723612 137322886 3499754296;
  SC 2165760230 1978556390 4038887110 3280144759 2755863878 1292009146 4196675347 2883653205 2360229279 2940095236 4183119698 122598923 483221264 2336117478 1200036442 1470973;
  SC 22625049 2110942382 3865539390 3568657648 4280364838 467068956 1638706151 934686603 1016938107 1378881668 2052861738 969631954 3114829317 2704079673 4202235721 1896331078;
  SC 1272877817 322275610 2048255 3828419764 283292018 656555904 1730883898 407673382 3259565233 3319282763 829721223 1466466546 121051626 1142159685 3894622225 1384264827;
  SC 3763136398 3055118026 3433748869 930030556 2135841826 2075894041 2845381068 3086878324 257833966 160279206 524657374 1855318297 1760771791 1248968332 2414205221 2464430473;
  SC 3809273981 900900763 2895572448 3283497701 1349213062 580961411 3299214221 3628519825 3643683404 3319374656 3868217535 427844533 3841842588 2749654710 2681210929 1051800659].

Definition static_row_16 : list ge_storage := [
  SC 1622151271 634353693 3884689189 1079019159 1060108012 22091029 115446660 534633082 1649201031 4042006969 137296836 1833810040 1562442638 3756418044 1181092791 160208619;
  SC 1041667920 3037209402 1477404634 1440610569 2797465015 2054982250 3391499235 3605494419 3639198696 1933432209 1915711520 2741088986 3869566747 1879175626 717801628 458685614;
  SC 2768417957 2138940313 1896672548 1414723957 827016389 745281061 1045174332 3577682097 2169383377 1730416479 712654956 3155052928 1776219501 3353461099 711436547 1497369655;
  SC 1896697766 3621973902 926548253 4069206549 2297004301 3251063401 993943014 1270589313 3281589988 588955836 2429665887 1734915238 3409902793 2578722241 654727507 3216225031;
  SC 2536890957 2554531636 2109372546 2649000077 358086224 3391808161 1211714614 2605265326 2606629887 206756474 1092207840 3362434504 3945886373 4232252600 2886868947 3532954370;
  SC 65718672 4071991225 2060698395 2198173427 3957878549 4022831630 3461473682 419893418 779469249 2019627177 2019172804 3609556656 2681069216 2978123659 1249817695 2366599297;
  SC 2811735153 3049657771 1390752797 1411409994 2127695318 3083850245 787626821 1929564189 855492837 4008216334 1809444437 2182869717 813270534 2247412174 1161082081 1381922858;
  SC 3920648469 503487540 2083562080 327383264 2785608988 867359286 1036950980 431152821 1419040671 2665230771 2455357484 351717207 3187759581 3348793239 2511298896 1213040259;
  SC 2396309679 670711827 2849604206 3201137057 818618388 2531623890 3805810347 1463443182 79508933 3480790940 3579218280 263259195 3368747551 3044188079 1352272344 3090026690;
  SC 337838342 789695791 185502398 1517725636 783544345 2877621235 2946546356 1215973672 1208860651 725001171 1289736233 3756237869 1654092362 364807179 4279861158 4016003402;
  SC 1113567525 3780565260 836674522 1827009520 756906197 2663480421 3902552087 3507352398 774509259 224530498 2361577079 3744385228 3961162378 2586454589 3040342450 332039963;
  SC 3041171145 1474749273 2282851768 649990155 2952549483 1360702019 1809905451 544396952 68636355 2878101257 1478326650 2199663643 320705780 628185476 2087425498 3828181698;
  SC 3988280964 459019854 4007245269 1946776277 125932076 3922945473 608655237 759981570 1458494773 3686363491 3746534866 3692063331 290340676 486223220 3313127929 2280570810;
  SC 233319658 3886064320 853251650 1236563554 538386922 1967845333 3003439052 2872751142 150287328 2176354561 3956114759 3858039 2003618785 4212993191 2956509701 3196752221;
  SC 2121593903 3906201458 1137774967 3978600103 780659717 3484790562 769856015 36405780 695767695 3397748350 3377872749 1577340836 783581424 3804923626 2896998870 1723843622;
  SC 2572703671 2154230449 1195305676 4208655231 922600921 448134411 986012643 2442352758 1662902878 1367546113 2863017129 59878996 2111442975 648834983 865532037 1000323350].

Definition static_row_17 : list ge_storage := [
  SC 2802315204 2299944053 2128407100 3463617348 2448441666 1070000794 1884246751 210372176 4075251068 1818330260 3223083664 3496698459 3376508259 4156094473 3718580079 1962552466;
  SC 3866141502 1978128229 2646349807 2688968712 1012393569 2539553175 2230158790 2206981245 3747509223 1243575365 3510697084 4007723917 859148499 1713821117 199178654 2644187203;
  SC 1964672019 297703434 1518880848 3373273121 959853764 2251122694 723413077 800337307 648287930 2947400245 1113383775 3610122168 1829970570 2892296971 1554744636 494969279;
  SC 4031050415 1835549397 2490029791 1131956513 1204048760 1914510905 3436953651 3943499769 1759802551 3820069122 4025269834 2717988015 2671631612 1159803272 1951365142 4085381442;
  SC 606110736 4064038873 70240913 2494945854 3729188113 2063877878 3912150605 3215847250 2977890044 3389766053 356841724 356991784 2228722660 3145515298 2594559598 1158432841;
  SC 1794017518 25183950 1671020817 785574353 95301808 1715172822 2718673424 1470113919 1142251437 2499778479 4281783303 1325560741 2913926884 3804531669 3139007483 1406557472;
  SC 2970751291 2450850294 545967636 1959629374 3303894193 455065073 41447235 1831795469 3594460859 4077235761 722461030 598330044 192707446 509790368 1051867275 1446366645;
  SC 1959543921 1887295052 3154544834 487969766 2252004301 996805128 2018864848 597352487 1136669046 533675042 981364938 2653382923 1408807893 2742559841 1833041360 1912794731;
  SC 2721713526 3549551325 601974093 2790584575 3951999363 4215366345 2845142034 4218934731 1726020765 823952138 3809833 4233069287 1129914456 1399496316 1915356031 4169077603;
  SC 3926695685 1849292395 1522137139 1552827989 4109112844 2060253220 2853920191 801241282 3422535773 1693187125 2113050221 2708536698 2777027446 4174902187 1811957361 3772547370;
  SC 3930825929 747327770 2505687587 2880650279 583976081 3834434841 1957901663 82062519 1246607062 4096185443 1298601955 3551964017 2293924654 2316870880 1326950040 3135743003;
  SC 2476396705 2790106263 443544224 2802435205 819417773 177556618 4130535785 2505448107 2591437865 1610510350 3815578981 4114533339 2461835810 3856846001 1439644255 3343979676;
  SC 4065627430 2927818196 950831561 4171626868 1177734694 150634338 2487656862 796691698 2119716392 2975402883 833495592 2179672277 346833760 3054174076 3573945862 3318693908;
  SC 2752867821 4203551149 1685153083 1110714758 1962211454 2837810663 1792364454 4089022191 3967274249 192406218 3350506767 1577386058 1497165592 1817646171 1066733732 617241273;
  SC 307712584 3903562077 681601120 3047177738 2486055863 3842609448 3660507009 2553494609 3174736607 3482954246 1496988826 1025695462 3184242644 1095387068 949053977 2083266597;
  SC 3022399010 1538609936 2420072227 990220729 2914167049 3768364162 1346299210 1681335666 2574961060 4053930867 303191498 2606902764 726562386 2306023171 939416980 608183941].

Definition static_row_18 : list ge_storage := [
  SC 1862109024 2933191225 198801920 104305860 4011109577 4122560610 1283427153 1072910968 1957473321 1766609671 2854361911 4075423370 2724854995 3336067759 2831739585 400030103;
  SC 3665137971 362515859 3613170351 1634568159 2407386812 2769867978 3661728638 966943982 2329232814 928287686 386060431 2380767940 993235698 994357638 4262826729 789587319;
  SC 700222805 4205189715 1681820282 2408317852 3145763515 149703318 2996102375 2778856747 1243021847 118692771 660320701 2037909966 3471407521 3539034550 2338530850 798101514;
  SC 202761792 3072251152 936980226 2112028598 55725596 545941282 2866544613 2541609642 2986914411 250525398 494419489 904338436 448237071 2519815520 3547503723 3479815920;
  SC 2591263445 2313710919 2225850186 2907469855 1923973028 2439332754 1359667863 1147453888 591668157 1802961428 2115337573 3814501239 1652114003 3286770823 2320492326 1627762005;
  SC 915583786 1541647557 857793588 1120457139 593298997 1235522530 3835902793 4029633796 2892088014 950803214 2067553664 3466102617 417988445 1721721291 2995105031 1833135847;
  SC 3713015457 984220366 1636921821 69668826 2853588756 3372417728 1514016965 3165630303 549067200 2237752955 3528219045 2819816242 2536477233 430232621 1219272797 2682238494;
  SC 4158909478 628504302 1961569314 3701318609 1298978065 2797817112 2778611026 2986972418 2728592083 1350107926 261737783 1726357156 2342206098 3937750792 3688276065 1598643893;
  SC 673033353 989709407 1304069795 4233856570 603282839 3834722266 3349356388 2690783748 318351191 3370905692 2347975280 2009518842 2234183321 2940030960 2623873751 1542240694;
  SC 2380479990 2443937714 165899369 1753008008 3688956092 2346743686 143829732 3830274100 446444093 1705814492 2316415254 1337109896 3093454689 1928322219 2296006624 2093435857;
  SC 4072133379 1665275533 1975626640 3338948757 3639875020 2527617364 2537708733 3825629008 3956434656 2047924528 2149850378 563001677 1364815414 2503665164 637530147 630327427;
  SC 2169035971 3667715128 133026623 1213164483 1858042667 1566345391 3257221880 1553218197 1494901497 2543246705 3407410762 149097838 2595763051 3921913476 3975713216 1013875562;
  SC 4285039888 3972750160 2508056116 3828502305 1554885499 2478771653 3465835374 2839338634 936668484 3860842840 1796057260 539213045 1979230663 2637220243 3822691920 124051918;
  SC 4008482152 442930842 3844390262 1477377511 2570068482 380269897 3550124210 1507268577 1690622835 1216029693 2876552462 1409060125 862828291 1145788484 2966975851 3091998876;
  SC 992351977 3038251247 1125019979 3468273479 2933515034 2848650947 3581678949 3449520008 3870604714 2854135121 1257402460 1206940695 2996845551 725641056 3899090423 600507448;
  SC 1594814264 3363681343 1687711901 1220822433 2890970125 4169329849 1095390946 3969022672 2174219653 1940964660 1237339498 2965031440 1016584643 2590104317 4235803743 3748725935].

Definition static_row_19 : list ge_storage := [
  SC 770670183 2030489407 913827766 28354808 2556411291 589717159 413516142 20574376 1695189435 3750527782 3546610407 1435363367 2770958348 2608593137 3331479090 2086258508;
  SC 386282669 3729286075 814752142 1413230862 2616133966 2483044279 1602859126 1971292416 3070813417 3451205972 735409142 4007950155 2905395594 2869625175 3709680291 2952203732;
  SC 3404816958 563114856 2100979818 2101934521 2503989815 1063833326 1723163772 3130704072 2515274210 1396315966 393457735 2691705207 828877164 3349330754 122605524 2602269000;
  SC 3709941627 592327138 2051205206 810649302 871212350 1541388603 4163983787 2631105522 665062813 2612020092 3229205070 3819479307 3310127863 1843015221 2875318880 3723951791;
  SC 1567440489 946197176 1275093448 4236630568 3990268727 196525149 15396621 1859637416 3138749279 3859238173 3227404352 2720346799 3006927153 2147957966 397899810 870180302;
  SC 1039540230 838590221 2330450212 923346890 4067788704 3619481496 3864357516 1659963629 3299501842 1079788777 949881347 2502746723 3228809289 247884983 3118597092 302086001;
  SC 3566621623 1671359399 3923258138 1638982085 325268348 4006635798 1207442469 3002539627 4047574291 2011583803 1713508996 1060703309 4012225302 3776068377 2784459927 3025510009;
  SC 4215947449 1997878089 1026649407 646510252 850804277 1871694871 3390738440 3114862405 3567086852 195428920 1556755650 1851670178 2207687769 3388294264 4058594964 4248126948;
  SC 45480372 1361999478 2195192123 956464540 1294436548 3045580134 2390633033 757048237 1350268583 862465366 1780970485 3285033794 559081924 163710122 3170983363 2626972150;
  SC 90053239 741607095 3003181022 3546281037 1996206866 2019149839 2216417072 1170259974 4159879668 130215053 2605146665 3967236653 1930867601 2409157952 3775975830 1489883331;
  SC 40478381 3873592210 35609037 272986081 3051595606 504620408 1019656134 250693036 942133950 156032543 3738710122 1712961843 2888111563 1171258741 645705716 511104714;
  SC 239657447 2278853730 2391081998 746810345 3484552464 1369592268 2655434121 1213868536 2934523673 3058111393 4281279490 3966376385 1307651904 1645528218 3652190772 1126527756;
  SC 123809694 110218531 117547539 2035819815 3596140063 1382818318 3664758070 3019339789 2719299822 3892472009 2876096109 412140786 2578091481 2196346764 3068803053 1395690512;
  SC 880155357 791542602 112062960 2175792069 531560395 3155859615 1042526138 680268271 1355330482 2485441305 148200464 964096786 3215229166 2660485876 3076499838 353883041;
  SC 2388114644 1552848777 1649071283 2325568488 3165393822 2695611152 2713875122 898903657 2377088931 1138573339 3366910425 3238180215 676550680 1043832292 1583145576 3925456200;
  SC 3116588854 731097341 35427079 152855963 655343116 2522648040 3048497137 3838372571 777022751 2851975543 235569549 3020787559 727642795 120522014 2406411931 4235508200].

Definition static_row_20 : list ge_storage := [
  SC 2533741935 4150033708 3133949860 2798619408 806119564 266064305 1385120185 1697466874 3309272849 2305765083 4237655511 751372374 3319766406 1139025033 1880631363 2216696728;
  SC 531691765 3457214584 2884896024 292273176 250051106 4144042126 176967583 4132839552 2406879878 872979134 3029052987 2283805120 2613859206 553294045 1245122721 3840523078;
  SC 1249934121 993078438 2897493833 1681305911 57100476 365202891 2111004277 4247410280 1628827737 3793711703 3364391257 3510640052 3346661510 885793286 3903378618 356572920;
  SC 680178688 1413780236 356581993 2539116542 3091268161 952393142 3601213640 3759147734 3201912600 2029303323 3233109971 3469579370 4191225303 2727922547 4241219026 1108397896;
  SC 581424072 2231376178 2556335427 507971440 4133814232 3831053002 2090051536 2682264467 1696017056 2590078109 3496563305 1242917226 2491190071 2058502209 3614091208 50680464;
  SC 1148224059 3153210519 1979896166 3699990000 2774705970 4177914488 1097495713 3943642621 28438271 1936652546 2951976972 917798112 3345031007 3414386063 2086388059 3336786964;
  SC 3207879285 3245056275 2753912038 3444068917 3619101580 301796681 469710494 37792426 2324375961 3765435021 2308122387 186365381 1748483921 2929955002 2507797221 1450081310;
  SC 2628113752 657975440 4188527535 3642824575 1167948061 570005820 1209373950 3114955026 2156903999 3426648275 258877187 4116394669 3424577769 1876755024 3610721045 137959590;
  SC 1295746957 2893879416 2731249393 43796623 1509060380 3580712054 2063633991 246915731 245935590 2758600953 1174591025 3759438209 874703696 3900497366 2032803558 741576512;
  SC 737124188 2899307081 1769647158 617077642 1659909664 278863054 4232490889 625515113 3013249184 3621100329 3078044036 1407642415 2069197169 551433765 2836890938 3978268035;
  SC 1956698332 1096426127 1006277939 3889489220 4030026180 3579514159 4250029335 2203857202 3553085216 3293255490 1237506477 1050435484 3944172449 3169627003 1477888937 2421667267;
  SC 867315816 669003983 4033294932 3994270030 1836283861 4220295811 3981502955 1254544883 2953929766 3399467612 2767815501 1837724890 359769422 525366934 2275330754 1596174485;
  SC 2757381304 618201396 1587888624 1754675322 309402992 1862772816 1766295424 776578164 3139660404 2518031939 4144540600 2162413735 2788510259 3413511116 1497090248 130610227;
  SC 4221771265 792248867 928054053 140258355 1340321712 917602285 1586319677 1429062327 3604542914 1952132240 3586261493 1380920077 1224870626 1321897505 3109874655 2938496454;
  SC 2321281375 3760646295 420407446 4154009512 2825227525 4188075686 2041350513 1285713851 1670924786 1104780793 3524777730 1315724274 2655303597 1675669649 3173211461 1286635196;
  SC 1138423224 1326909178 3451890502 3840823688 3093921534 4140902218 2007985143 2980979703 3539657192 1914000311 3861983402 1995841174 2739822780 4269529997 1752802206 3674790048].

Definition static_row_21 : list ge_storage := [
  SC 1529327297 3326406825 3128910982 2593525414 42156971 3661621938 1244490461 1967679138 1025455708 720268318 2871990393 1117479541 1562094725 697888549 2324777980 3391621955;
  SC 1194208642 570517940 3796480395 3996975496 1891180536 2012913508 2586036803 2779419249 2424448764 654631266 3378681847 1794600320 850887774 2610529382 3440406071 442629809;
  SC 3922776395 1021134129 4161953411 3695042522 416696694 3141869998 2208946602 2248782897 3791212714 2183092330 2442693998 3821686193 359924765 1313892 732537261 3441185514;
  SC 3832647873 4126820624 1633739521 1776853127 1990846870 2931750872 723350088 2100866125 1353427778 3735236517 2936890827 1037652209 3538242522 1205440750 2681851721 3428134171;
  SC 3715940368 3100195993 139205042 933899119 508675941 2073279390 3838896736 762162827 2670162920 363468845 4142816880 2331633868 1859516459 2571514805 1415575689 3310370398;
  SC 1850103477 2861511197 2158258814 1914352173 4112609179 1613408074 2229142795 2743410061 386541358 4131835227 238820765 350328321 796595210 325800094 1477199872 130087432;
  SC 3503083399 2168288449 3773780757 707691176 2640783803 600372304 3521490788 1266639681 3049849833 3696342843 1559948576 3113774976 2979720549 3508429388 1393959701 716360542;
  SC 2281167118 2404489970 874916137 3296730075 4266077966 1052198560 3487426822 379036992 918125804 3064034925 3007906638 2843799763 13395259 1525101299 3917909303 323214095;
  SC 4272733253 1134926458 1071872991 1594198106 2743911342 1759781849 3909986783 357998405 4054491364 588230484 3248723140 4206364217 407716541 1660843258 3535395038 735131513;
  SC 3679104282 2103136756 3192389130 3635496721 3762160259 813057806 1922167568 196643685 1370854030 2657803320 3197001343 2838705898 1256322653 3731470140 1658864516 4241135314;
  SC 4138122573 1064712956 1914688217 3980579663 234064841 1340868250 2408246134 2334390091 3574856083 4185747404 2592066932 72932352 1132443153 3084950430 2850577555 531426487;
  SC 2552518597 1814188589 3771797408 1688271073 1392417060 1864411028 2178912172 2411760311 772279774 2791980611 2940533230 3149501999 370215731 2968115262 942881455 2310941126;
  SC 751991992 3546574605 2773077774 2498170045 3288367839 3030402134 1196921751 3823185297 3245569995 3802879953 493640893 3321821285 1141758187 3411864659 306737884 2761165281;
  SC 1865741334 706283811 2318095713 1419794148 2504644337 1922210484 263491957 3084520625 705689999 2554474009 3818190952 2133768662 3690402460 3381523320 831084441 1146769937;
  SC 831531101 3633896804 1996958159 636851001 4007892767 380666960 2826737942 4021398986 1411635481 515161969 4199924051 371116192 1868116156 397223417 972171737 2331326509;
  SC 974457928 3569708670 2643527780 699675161 2627045402 3565281489 1504374419 2979851122 688725044 4064400308 4156347928 4119156622 2098702491 2615488234 1090654007 3790938610].

Definition static_row_22 : list ge_storage := [
  SC 1397828129 1248172308 2194412927 3657598991 2085616102 1202270518 3253032741 2632389423 1019922267 332153082 1521672215 2163564334 3102124007 582149809 329417494 188520915;
  SC 2484409087 165527253 332794704 523511269 3524328119 4077596669 3681267981 2969751460 3456338723 628364217 4089156990 1135761223 1241363911 2843043452 1927162020 1187988850;
  SC 3424784620 4001207648 1967060425 33527184 588161341 2216089406 1194534688 3972415390 3430941953 3671974564 355464831 2638417624 987848314 3854256447 2513703271 847178398;
  SC 944122325 1095537200 1611102749 3845108718 3985128242 1188491807 3783427529 722821803 2594736624 4038805042 2146959275 3199724336 3631416672 3989329185 1113423723 925573746;
  SC 536468163 2790961065 141113925 985919057 2438788330 374449238 2980068000 621714839 2454037345 2810385667 3189321079 794373297 4178743943 2630861151 1229894711 2665151675;
  SC 71889345 3684655732 3834974630 40555081 3804280840 423207811 1620826812 3717508581 1813258849 713714932 491517868 2389605511 767769458 2826892693 3923819122 3331321015;
  SC 3333750894 150650636 3555142699 1161199649 3068475424 1509735584 1033908609 3073273527 3313105177 3410735718 2770838598 2161939200 1654309303 1247727621 4123284974 3218452135;
  SC 4107359918 3667881557 4099213325 905728122 3167924799 3731720507 1537227227 659110227 2101733778 2731849932 1103266972 887588276 2413509058 3876926094 2675347623 834362982;
  SC 3178393694 2636806389 1832500758 186297941 3662837586 3282938029 1064394039 2117567716 95811670 1968831533 3070787872 2658254448 3676980228 3909574788 2135784404 3803100103;
  SC 2624310917 420491519 3322620679 3357048697 614451586 1196461215 41516451 3256616699 3715883496 2257787428 2455669147 880443853 2246776764 3074399406 278369115 1177356599;
  SC 439711555 2231299488 1079942678 677737570 563039018 2032266501 3704274118 1877323449 2386821791 2066266240 2520835526 1611863315 3800297318 2553770190 1751820038 2175904420;
  SC 3515911639 4055231138 2717511782 6831543 3016647759 2007513585 1217171617 3815960975 2720128636 364849140 4285658094 4211508323 127732138 997100418 3152669382 146802488;
  SC 3082714386 513166810 2182067081 798923178 921230382 1956178560 883901335 4290259857 2290170782 3274942148 2025203706 2950735447 3706997198 979032741 1714061744 1756952042;
  SC 1785121933 665679939 3927612276 926826810 456860581 4247102861 1802871345 3111467239 2947918463 4090223916 2765919892 3848356305 2236940933 2379663516 2033761836 170415812;
  SC 723418419 3083992977 2885930256 4084559514 3550295439 795067132 3902666387 98659646 3559229619 3518103022 3093345450 3504265473 3135355783 1746911831 3896748938 1982334610;
  SC 4151598450 129451956 3923175367 306344029 336516292 3560777935 2695409605 934056748 4131395595 112767211 3377236273 797539933 516899453 2089210576 1999558205 4107023428].

Definition static_row_23 : list ge_storage := [
  SC 87353816 3198238907 1232123158 3291424375 3695263554 2608617182 3798070797 3966302680 3847946128 278442153 3929504461 3056452729 3658519828 643043450 684101279 121314490;
  SC 4041434108 1283940781 3208791522 2974918612 861706326 3183082284 508820598 682206875 1177134745 1065833400 1830916342 1348337823 1877305145 2647094535 2714586296 2450197741;
  SC 2726369020 1580548584 150986819 369792970 2983651480 3064179956 3511715342 1538695618 3829066845 578378703 2038030944 3732775932 1174552062 2377418012 375009203 1203897576;
  SC 3480144388 847968760 3831609064 2454845771 827762235 3561019074 3068061128 2125290281 500142325 2613926927 908976630 461018064 1790330457 2138554260 3099515250 2668195629;
  SC 1153226571 752634643 4102962367 2953166708 3172028384 1546019245 73810680 2123706323 2289283451 1736737040 4246735980 196740994 886758605 1893565373 3405498929 3744937024;
  SC 768993978 3888906052 3538251248 352204151 4022234611 1471705290 4243963811 2027117811 1763868778 1322271979 3608278288 3888498758 3465093513 3125049811 2129222282 295188310;
  SC 2552844131 1588346847 4175462227 3528353039 48525488 1810438463 342094266 3279671133 111165134 1329165912 4063411685 1911765579 2818934337 3808545183 3789526924 1948478023;
  SC 3331030119 905985030 3533623355 799989600 1593247216 4044824934 3057376453 1132187407 2788031862 3252641138 1745792893 1362467427 2194538589 4207162080 1731158987 3426969514;
  SC 282742454 1925220542 3537150606 1044967349 4104410814 3036747834 2170951116 4063975818 2876870249 40785387 3225638952 2818597718 1556539976 2301588618 2800555653 916700871;
  SC 607531008 2820787318 1270007122 63140951 2489460286 3749254552 3480926448 2300022433 3335552281 3577740253 4083676266 1879037356 3793973091 653990091 981292091 2669230849;
  SC 1168110979 889306226 331429321 3194220363 4271486769 2440942709 3008822642 561011853 2621371879 1149493671 1110535664 2670803472 394628735 4014155619 3742604108 1418371877;
  SC 1139004104 1152838795 3053437035 3533998804 965296070 2842987726 3847937142 3591812355 1659887171 3058851485 1843832825 2284970388 153709291 2147381595 1241923942 3246474482;
  SC 2372841964 95150550 785345036 3777509922 3777338585 1256811659 530593057 2218391448 163045439 4110451435 940149273 3289892018 1950559815 2046468986 785769535 229305669;
  SC 4222560409 1251917359 3419952330 3518946758 2125025139 840904710 2104865575 3206919775 407519472 2004634252 1712650404 3590313236 840286442 2628712493 3254945248 1148702071;
  SC 3313735124 1648160975 2356873919 1752134136 1812666743 1155388994 2048656880 513774477 495906662 2103152333 2943961999 735251223 2523783965 2210023145 1945848363 2437613245;
  SC 1086803487 4028294733 2247710942 1830793111 1634316303 2935377055 600165818 1578619540 2988076738 457218665 4176910460 454493682 1199052867 1940805269 347367761 1212452462].

Definition static_row_24 : list ge_storage := [
  SC 3715433378 171840999 971741983 2238541363 3192426674 4094492328 467620204 194258737 3399274574 3279461044 1351137305 2503870624 193649547 2998335432 1712991547 2208648311;
  SC 2715750837 1950207216 2432412079 3161034889 3163700758 2527560734 1574123740 2830017576 1235654592 1173758764 3503805913 3353556737 1972267538 2593804497 4050894516 1536909338;
  SC 4252707359 3437282014 3776749445 203710275 463138159 2772620289 1182212975 1132575015 2008846240 1446588540 1178588185 2810502365 3189501211 3192046357 3703545124 2781338651;
  SC 127281203 3251296097 4229877600 1655402395 2971465573 744237737 3839563968 1414447733 2055975912 547297398 3544526703 1086573241 4145442250 370020177 2948813570 1970539713;
  SC 3163465607 792227545 605650287 3454430637 4436412 957261079 2917570432 3199157324 317922439 2607400867 3201779931 1812841573 973872378 3838606231 3221928943 461831659;
  SC 246719913 1498935408 1945961723 1327338499 2917210822 1660082997 597934446 1244971072 662537876 3851981101 2064803568 1228771649 4273868614 3144280868 3367923741 2660003700;
  SC 958115915 3015255252 3159655209 1681296573 2092702329 3275820278 1666603934 3861667140 2501203189 4234907638 1084271161 60369385 1104875606 3495688315 3738262066 4032927728;
  SC 1265262733 3131514218 237040963 4104455196 2691347880 3487609649 1785135800 1176579745 4089650722 3141152552 3206481300 1333364227 276607745 113027050 176916027 1602590030;
  SC 2774594376 3129694750 2287032514 2766750820 29083039 1069500497 840365222 3485333678 2555809577 3972967703 629036427 3011729266 1526288233 1119437732 917067812 194168105;
  SC 592881983 3318575349 4127058062 1732571107 3503756272 837953701 482225210 1269788935 1504556881 1896976655 165783184 328929494 4077662490 1253488686 3518656631 977900779;
  SC 4160682596 2908983358 1718640008 3588190607 1505225185 4179103009 1685793395 115536342 817223934 1402206707 3062750872 450873212 3409531894 2142975045 1392180850 3108320562;
  SC 1943394512 2513880371 1620134863 1529322591 4060169700 3770293993 1183592156 3047089385 1457468150 3671110754 1216162597 2044466392 888112901 3589252991 523705271 1679814981;
  SC 2715251449 70744868 3381212136 1205646623 2056792384 3523601635 3273403565 2609964048 1635414738 3927671477 2002719738 17329846 673666863 4128776449 1023303890 2113317599;
  SC 678583802 2909193903 1603800869 1698604501 292539447 3194048567 1222053939 4292027072 1744031112 463670025 1002183205 880963334 2427537891 2521706813 3815796576 836594698;
  SC 945238598 3719965767 2849528520 3282124488 1093917226 3479450861 2561471910 139299258 3917471374 1798050709 2851226278 2410252745 1571541746 2877491529 1276119582 4206041035;
  SC 3869162698 1114491339 1196187395 1533960773 3407411925 765004505 1831463563 3761422880 841664315 226257499 2314441323 2186776430 2801566686 2703073796 3780881787 1370189991].

Definition static_row_25 : list ge_storage := [
  SC 3356584800 529363654 613773845 1186481398 3211505163 123165303 4059481794 1428486699 3074915494 3726640351 881339493 977699355 1396125459 3984731327 1086458841 3721516733;
  SC 3675076449 3333909775 1262445603 3668028655 433069981 3324184640 206500128 2656010471 782457265 4053687660 3895856132 315252919 2755213770 922519354 2055252100 2429801305;
  SC 2756940336 2847978751 1709353190 1195969566 1965491900 3974470294 4065860779 457378802 2625680435 4168918960 912437805 1940496017 2831564708 2681452721 2977785501 178951684;
  SC 2809970073 2149172818 128792792 4173216994 3752778392 3547909179 2139546257 363162335 1029632619 226065897 1871318430 3511308809 4293432909 733440206 3154916386 2246758263;
  SC 731502074 2752951666 3348551978 3130709972 1526861742 2511266125 4044638365 215744304 1267320586 1960868675 3421832152 2257930073 2620941002 851383950 547951559 1340068454;
  SC 2684856551 174120198 1829892583 1225976594 2442169561 2751359631 1396256832 4190566994 616089248 1633732935 1633964885 3929429044 842800539 676918864 1428572539 219449459;
  SC 133428457 620472331 1882141266 1679319159 679060192 3481716513 213482586 3423863792 4201383258 1319777873 927348830 208213775 4087467606 3653264448 3835415188 3916570843;
  SC 1895413499 3284443662 1774671761 36215094 1302729892 3712548907 689399756 809699792 1542256887 1010909539 1793915800 371041697 3719334021 1415418990 3304256413 1722896741;
  SC 4292037144 3413799593 431584770 554753321 1212891070 139387849 4633456 4145076332 2956733683 2226540590 257006677 3020881975 3400787219 587473979 260993303 3410840543;
  SC 4018910540 3254488333 2078930374 2245837925 2632570996 3139405325 1623001428 3612462970 2032232089 519993838 198517548 1752888302 2236384752 3428944014 3264747145 2955960571;
  SC 3519760330 3333709979 1048481536 1985059447 2643412116 3131942587 1137942580 1547604917 2831143240 2752062158 438973315 216212421 839130203 4170782680 1103599719 3606044489;
  SC 3979124118 943995448 2583700510 3458129573 1268799005 2693058918 2421470342 2310844252 4161944025 2910466020 1520150746 2594375360 1025693596 3356457299 1405172368 3357345029;
  SC 3608628529 1093067289 2172624909 336171229 1137437622 2177129887 3319848621 3625148145 940129946 3128586787 111536296 1792339610 2781599252 3659875306 872551800 2302213340;
  SC 1104919194 189973497 2565652941 2930155667 3463454839 2388313768 2445171637 16202936 1593006897 2191020511 2084184836 1467463398 2313657914 2691464051 4089268188 4294499481;
  SC 4188734592 3528391612 40836399 4036867171 4090825107 2939803682 140442162 2546416492 1084596508 3326586985 72576332 3780421002 3675044591 2008171921 3141075467 4288443118;
  SC 3852374110 4271371075 2076634991 3101716180 518739558 3284103928 1607286758 3505817896 42970787 1339303318 3280473330 1956150319 790791234 1449585627 3814185461 3901254732].

Definition static_row_26 : list ge_storage := [
  SC 3892284764 2210224198 97085365 934022966 3120556498 264721182 4011343025 1936310374 2593930315 3833725723 4141640186 2218699022 3726005369 649732123 1594208266 3687592104;
  SC 2459115622 155132544 2344650987 2337329027 2478875455 1363777389 666384305 779524970 131624810 1099629813 755087667 1116544707 3462583113 1765615231 1221263451 345614861;
  SC 283432140 3102718597 937211953 3334135604 2242058317 3044145753 1441000856 2163904099 654999768 3976748269 4108102772 1209693616 3022484925 2592361118 3806239715 2457345174;
  SC 1983572202 34789206 3963513429 2661898079 3999779459 2657216026 2570146353 810465768 1310539449 3517224567 1830164911 2328664885 3323158486 200812613 1588943475 1631047872;
  SC 1996456687 665652044 360516388 3634015955 3932508085 3762889476 2869080596 2179691892 1880327422 3850327759 1653803674 236673399 2154944705 3229042401 2981554507 485288416;
  SC 264936494 3091907543 2050111855 2694936127 1954787063 722933256 3813405263 739130277 2256053561 3585156690 2029190911 3133350308 3458910883 3499638057 41852560 491183838;
  SC 2808085465 1288453772 2477084166 3837131567 1141955368 3112183866 1372456734 2203526963 2954171016 3969349716 2868857569 414601865 4013256181 468368341 1996835394 3658768313;
  SC 394302887 1097097404 3291468368 1194224926 1035172467 1541144594 3844885672 3479557309 3116596876 2815221788 2598284757 360029902 1618439794 2569763994 3258655905 2917038348;
  SC 2305403224 515881048 3401955316 2294640138 2523482065 2913659188 1840514079 1334322081 1545396585 4197671987 447162882 3846426473 2663235502 750784192 4164775689 2390294077;
  SC 2816642384 3952759529 3784236377 1797857230 1881467157 3886776601 754213935 2085935272 3814437883 3598631313 3014087408 1480756254 2838244491 132661795 909841870 675503551;
  SC 2053456581 627096201 3974668317 245144267 3845450294 1209560693 1003623636 3431474873 3952764341 3855863791 1357940588 3374805012 2942824193 2988435703 329942625 4139666589;
  SC 73006928 4068145413 2752900485 643186737 2386201439 296363448 2965535934 2202307569 1300692310 3766694667 2421404412 2295288621 1987219755 3682346025 885571108 1086202535;
  SC 3800801259 1729576293 2024334221 266315944 3877353536 2983817286 1164606138 2981999790 2626097845 3537364374 3559786635 2149380619 2137897542 2218263339 206251476 3754285811;
  SC 1009857555 1650586423 3853695002 1715580147 1146669099 1380681899 2219018152 1791877891 3247738482 1042579957 4035547117 2619207487 2408116465 3045899420 1771645449 1340019342;
  SC 2004305920 978372350 1705342765 503429310 3635208103 3659317811 3957481997 297103567 2521968324 599616959 1167498361 357125999 3158983160 3114128384 3086595483 2336612985;
  SC 4103187540 1182325894 97419735 1615223731 2031918136 2818146326 1038685355 1330155299 2657284062 4126074186 2871281156 2738191090 1922990674 2689532011 4040564095 99693623].

Definition static_row_27 : list ge_storage := [
  SC 3639643416 3974502485 1527161781 180938703 2788643910 3418867931 2912046968 1776807950 1185488163 2433308651 3682797092 1938004308 753534320 795320477 3620835863 105275502;
  SC 2971894151 635573958 1662864280 3637757763 1966418418 2382544768 3521712538 4180511568 1216311665 1622710591 2836323703 1065095206 3046512769 2304432132 1370910091 3540050165;
  SC 3003078502 1266710982 63268125 3769826631 2161222028 1624738852 2999285769 2485757266 3350017650 1836975640 3947916645 3226839039 3416803572 2607406281 3224012241 1574498192;
  SC 2417128114 3148595382 316383238 491687931 3782721648 71265990 725842943 2574280796 2910592942 1266732336 3293910730 3812834954 758280869 2044998492 585388705 2220041893;
  SC 492257517 927280821 3326474467 3418658462 175063450 4228793954 2332128647 2793872080 3349562222 3060602442 1750735766 864506271 3021446456 1089650280 684313887 2273360774;
  SC 569437869 3392548160 448456633 786222873 1891470348 56622530 1988234620 1200550357 3540465428 1566012807 3682627310 3118219502 421481320 474517348 4276632114 3506654966;
  SC 200012878 1289466640 383837247 2978212823 641013196 1218428129 2429292619 1428313217 4155302101 1036892035 3775206351 778853475 3322870631 4195074838 3725481759 3550082329;
  SC 126839072 3914304851 1035784989 2867617428 1989254908 3724484330 1316610484 1040102649 1452719164 210631948 1224888518 1113840153 910511278 2297844676 797967535 283877762;
  SC 1244500121 2493482314 3779000024 2685901143 2759844693 2465008309 2989069530 1046572576 3374497605 2414541412 1726159904 3650454710 2872643374 1536622747 1381290537 3538573283;
  SC 1982773073 895953548 653968243 2944168854 1891156211 862699673 178384938 2122337777 3992617936 1827424625 1827918311 4247768891 2116109311 2389157370 3259962586 3018719650;
  SC 16401953 2306633926 2338480543 3225473112 3429377887 2444554167 3036218027 811186210 2350667613 3590742085 2594672781 575072326 272468093 997542396 3031146350 3776453205;
  SC 1784787552 1031272746 3302965053 805306745 3874552409 2790720051 483200429 1779723984 1097599486 1897611475 2456960784 1754250527 3808506348 3902842183 2596972722 2928554842;
  SC 2323692909 829274841 1103316386 1866432209 1938371795 4027514213 3989131198 2637747342 2193562562 1183535102 290853894 707762868 1909722738 2733745164 2354524179 94921256;
  SC 390966983 2005348047 1183001210 3460046175 1194344520 3385791048 306982602 876126480 3192052847 3055117485 1493712024 239443620 3677526258 3935077241 3195438491 2508943164;
  SC 3776157658 1760005001 3371368706 4151959572 4117952947 2782084300 3075220020 3130861900 3220322643 4251107806 2765944679 2454606920 3864173523 2241965276 1056706189 2253371852;
  SC 10455103 669421195 538798805 681593482 4243109638 2765550308 1560790187 2332940655 157674749 358872640 2549359913 811329072 318369228 2192271276 2616093049 3105543667].

Definition static_row_28 : list ge_storage := [
  SC 3392929934 3483303263 1976307765 4193102460 1186037029 2559946979 3008510830 4008303279 2792795817 3991995 311426100 3736693519 1914150184 2000710916 1829538652 896726226;
  SC 1506989834 781231698 1423994091 932436763 2811140941 235158077 3312925598 1277169313 2161654787 95045550 2507009285 3400899479 1327874861 2641030305 845165129 3067306163;
  SC 81377829 4112377516 996390415 1466127523 1087938057 1370439327 2374941315 3221315808 35184362 4155013651 4157224703 3036174627 820839223 644204168 3814924360 2548030643;
  SC 1091124676 3446444543 108918031 285417020 1457053816 2518578419 3204558864 1447981867 3090612039 774503865 3344583272 2737274269 3562442510 1127429989 2804182977 1775681652;
  SC 2318905039 2047942274 566069924 123115342 2915025724 2614503051 611479778 1680640702 111791999 3565934367 3623017458 358904698 718271833 2594429479 2455462208 1049889789;
  SC 2072590390 2994175732 776612573 3305897523 938985307 4037860099 405398386 312125617 834030222 4269222652 3952042783 188369721 969558599 2241466312 1494637662 3640394545;
  SC 793329188 1680204464 4194525713 1397937237 2203558613 193170132 590149348 3837254789 2629901211 1547324833 4256276761 178627910 1204782838 3049171442 2847310157 1633221731;
  SC 1445130399 3305816299 706740166 1986021205 2637844550 1419078314 1678054887 2432697110 870544859 890225672 4294515721 4251895411 1276311012 1177847908 2958585231 4245816799;
  SC 4225912221 703507803 1922376483 3748563847 841832204 937238929 1762562329 2321245641 3396851205 4196168123 2898493537 4105193320 3913075709 3714213782 3736794417 1813506206;
  SC 473058800 1281200026 2096535567 1916392924 2499055699 1592813861 1665248526 1352252079 2539722497 3800235497 2456011531 2486813252 2969323588 2786889819 264256920 4162650714;
  SC 4093970658 1112717313 4105391438 692152127 3191447576 765356874 3774754898 3659714922 1417146611 4116649329 2382824064 4091923584 2943998996 2572469258 2350556732 4055180934;
  SC 4241530692 3958450744 2400383404 466315350 35062538 2419973666 1574066566 718969713 2103427683 1844215170 377438369 3472936858 4219642124 2727593550 2415179286 530554266;
  SC 1717990860 490767589 4104938990 1912533482 1727757083 4081637760 2971627803 4227474711 2482396781 1077462396 1040490667 188422725 1078987146 1905877850 3465315863 3779881072;
  SC 2343360099 2602377036 540592495 3215700530 2276091252 330543342 1521140429 3101043196 1353643940 4257187260 3766970644 3977679607 2139641066 2691703488 1191064988 3899819176;
  SC 4020334744 3662481612 4168714619 3391835711 3785299560 71469795 2493742903 3412561168 3292204549 1481564183 2157273751 477496008 931448839 2827709521 2133135454 3513095854;
  SC 1821292885 77067071 2713776553 2767520127 1059460035 985220275 2884538737 221640066 2657382407 232264137 3155923068 3788271780 2919723565 1308585734 3615447351 9588952].

Definition static_row_29 : list ge_storage := [
  SC 2320406161 892569437 3092616448 1707673477 2810327980 4012118332 4142748730 3869507620 92116036 2366184953 1613655167 3287845172 3562699894 416962379 1296831910 1764080884;
  SC 220529260 249394787 707093586 3327680194 3905189366 612327964 3292761054 3030686883 1334491337 3207860077 3280619568 1041320647 2483468975 1479881667 3211575507 3039423798;
  SC 2075210586 859890386 3979249840 1571749934 1787834945 3779262932 3834468444 2848979155 3949299214 3265482052 521566179 4090178483 2634506734 537774764 1760986104 1885781444;
  SC 2157623553 1245488719 2108443037 4226304849 1701247415 4110744868 1746909616 3191493799 846028927 3826268145 3155840342 1303740777 3325552898 2580884535 3592783405 4209959030;
  SC 535271984 3867256577 2621667187 479852461 3031868718 681291605 3866870888 975222367 189285295 2489945122 4002580885 1631683077 2806354223 990581176 3013857114 805874285;
  SC 4221232460 3061114345 3434676469 1406782470 155821803 124504941 3888697140 2788501814 1026476732 2216503728 3089015914 2063998098 272392246 1587339314 677528523 2432699241;
  SC 3643892943 4282202220 2100563362 826776443 1365722925 2702305724 679208928 3149950187 1446692720 2990196076 3121167752 25041546 1204401671 3950457476 478874733 4191001246;
  SC 1002796340 395169719 3087599283 10336612 2123927609 504611529 4163730275 706425703 1588733263 4149509341 1952228143 3819719132 766367752 1435203845 1906598194 3492363785;
  SC 1774340829 3089482890 2870005976 919794943 2035504962 4034646005 3486869666 3458779364 2688966610 4246698276 241215855 1193302498 1307583268 129792487 301354381 2759318534;
  SC 1993945167 2379081822 2587040362 3154537819 1926143939 2749781524 935556830 4138641196 1781637476 2939621229 45782825 4247420511 1775642409 3169645376 1224651656 1411268824;
  SC 4099217380 332485632 702660355 2932600301 2644542769 1705216342 2043283695 2373746705 2092217219 1660104946 3159676245 3674605841 226100099 3987250021 2436672589 1083744721;
  SC 775618835 2173251804 4192653515 3582997173 3769245096 484007740 503088416 1360222738 586791868 3760447547 3490651251 3534666198 2531156474 1207301882 832959081 3020069982;
  SC 298341207 1349761730 1369831393 1101983922 2409775356 3892600618 3875266737 3482966490 4002034047 2018792567 1932407387 1184232926 3015567427 301694942 437132459 3636206614;
  SC 4090425889 2348669465 2575850637 3995997864 3040420324 1615191584 2490849366 2670494936 2841563080 3763919842 3580970157 3864708123 187158351 2199194387 4160227448 2176418944;
  SC 3040328915 1001466289 3676795030 2946692141 3593888463 2224708622 4148397123 4253879884 1993280384 1176406404 3148404923 4180061590 1786680964 4036906941 1164279397 3562714780;
  SC 1286200509 4232891464 1656861418 3412215448 1086562483 2512121988 2650588176 3097245464 3192968944 2220731064 3414522916 4204353060 3690514744 3688465060 2246470987 498255717].

Definition static_row_30 : list ge_storage := [
  SC 1167035839 2632944828 1562396359 1120559767 244303722 181546963 2941229710 561240151 1460096143 346254175 110249239 1849542582 1293066381 147850597 3876457633 1458739232;
  SC 3571928080 2436259038 1291130511 4109706148 535321895 223400632 1981907545 281269666 3986674262 1137333737 1403128295 1607985509 1996916063 3564990547 3398899933 2822030993;
  SC 4187142002 2183119934 1635192887 2899344980 2532710469 3583070294 1537984623 296183513 2324170481 3475303187 3887648540 634736823 1254765115 3808584578 3772430219 561684376;
  SC 513372587 1759503751 4262413842 2894839952 1546497784 1634597484 3075497476 1112503488 1318854936 1645523550 1808408161 1471049890 1607196116 1989192912 3845591311 3230210229;
  SC 4281800629 256065360 161761292 2162610453 3289868207 803664088 1737988317 3468667062 1313091619 3871261661 4163576187 3519070773 663580583 2181685257 1282501745 373224564;
  SC 1305532007 4040631353 3016994284 364840424 312087064 2832713285 813363164 1634515727 2857968226 2482770921 2702964276 1457003903 4233117491 978467573 454990490 2451215822;
  SC 3309788844 1373644165 2568421202 4021050421 3214613315 3179866441 2282215282 4192353052 766132975 1427735093 3905164154 3510365574 3650419996 1208798186 2311177541 3425106727;
  SC 1485656607 1872571460 3807266779 3227427836 1367154025 2087101352 2787930808 1683647111 611621831 1033465938 1055561737 1718623444 3674681330 3643294293 3841507882 2950124804;
  SC 3583452191 43558840 2702416786 2831018419 4179535508 3293628424 3781032090 4272940814 1561835153 3434531879 2033417772 143682419 2206689113 2885101743 3330838914 3213033967;
  SC 1563269339 3268845808 481878529 1366255066 188999428 2024859095 3740130866 1902201859 3294724532 3498902869 2063801661 3851840419 1697955856 1216829830 2472036433 2158918739;
  SC 3706632627 1854832685 4075722340 3009760070 1947919686 1613829674 3359356634 160149010 3211678034 1403957074 2395316449 232911190 3595342115 593590477 4003146812 1042747586;
  SC 3566751331 1293366329 237055278 781035984 3490518265 471671502 3279573882 4088428685 3341570902 1660948465 2602036180 3189056267 1448251311 3378653995 367559448 1247557023;
  SC 332188181 124235367 2908363616 57405667 3860321591 2915594808 3193053797 3103490367 2893876952 791722516 2759950240 2647310599 1060814304 1104815755 3283917665 954167246;
  SC 3633439037 1737408037 3240746577 2032524778 210349431 1157873376 3552462955 3068823 2593869163 1645741574 2624282012 1595174943 3150496822 2635369792 3670346328 1317499755;
  SC 3066163224 734815666 3189326611 2603442644 551273493 3201260612 896218759 1203901890 3082479753 4206490018 1615910957 3112412856 3354260034 1776181406 227950091 2452682654;
  SC 2235295503 3336503999 656069002 1855251063 1400966644 100804460 3316705750 794158471 3220130150 1524496317 4024763824 915138624 1872936127 829155670 1406327784 3285915916].

Definition static_row_31 : list ge_storage := [
  SC 3539989726 2664422354 3717852078 3493347675 431408204 2534904428 166307432 1071633271 2817060747 2307358268 3433391820 2071844151 219511979 303896099 3062367591 2892429963;
  SC 4169968731 2129799654 437437237 369342547 1225909990 105177072 378686654 1403688950 3897807924 3252342965 1215424641 560413328 1897408132 317929004 3828647679 1630564758;
  SC 2120346993 1574861569 4055542703 3156063114 2155135979 3395705935 3607950162 1649229112 1891339524 2871189526 475543260 4035849276 919486311 4103998043 2581732188 3337457769;
  SC 2650342494 2112594502 300482146 4214370423 3712572735 2394678491 944484075 2859174140 1298074617 4123981874 2931863188 4060402101 408241016 1141274074 2343754010 2412599648;
  SC 1561545950 3513590208 46110254 2131948246 1318148204 2154872738 1632214749 3758828119 3082206346 1424038120 2361241545 845137641 307971779 1724404993 861282060 1237934782;
  SC 2774909901 771645224 1285073837 2193431137 1992145786 1323638656 695741715 2225025760 1506694954 4281622541 648809495 1264275594 2179049970 2134563430 1143161913 1676304803;
  SC 146493114 1026262009 3602767471 2183478058 1903997235 4037497130 232766761 3333583275 4037065903 338762279 3658077565 3465013868 2987748329 1503145496 1553131083 2250198737;
  SC 2341715858 2700579248 3859696179 2395756825 1875611477 3083700335 3413235310 1368601544 2011324934 2489277894 3393073269 1479863073 1546719681 1270920228 832404816 4096637834;
  SC 3098090164 3937526885 3922595589 3117243593 3619511456 687964457 2049777986 2737216841 904576627 2497431372 3782524472 2176150332 3538905622 1249874595 386091287 597337724;
  SC 653517061 2613638042 3043803086 3430911227 3939946327 3394071887 1634025406 422896314 2056719107 2825344479 4064697313 3122017483 3752686726 3984230999 2989927946 36279219;
  SC 2977387875 1756856293 2305658602 3898809838 2022534013 3053356239 1719149320 1006974664 3980567886 911250528 3970581037 4208855094 2375475175 3461024498 4207299460 172606632;
  SC 2123341088 2610619360 3636249805 2405928311 194895330 4166746397 1666551241 3089845290 830253287 1769367456 492844122 2898915009 1465071417 1748645392 3136192983 3149049830;
  SC 182090295 2773063932 2875617227 2014878906 4034576690 3504190878 648632813 578906269 3395653562 3622802446 1642118462 1105217635 3484288771 4187487776 3066363798 3248936252;
  SC 154149828 3967951687 1435057545 77065166 3232269485 3912916706 592527655 4277917673 3417904405 3905839920 1437307359 2532079592 1386597940 4043192840 828125384 1712244674;
  SC 4144828863 1262971610 2738002832 3848745747 554156666 3660926287 1405749523 293551868 956195932 2061195588 3476646641 1003448777 4182963546 1462193925 2827901865 1370898532;
  SC 287054389 4206061741 3909899140 2957058664 2712205523 1231432323 1252507865 2198483068 3163354130 595880373 2050058791 535083586 4093274722 251534866 1425149793 2349787856].

Definition static_row_32 : list ge_storage := [
  SC 3015000623 325176924 3212623969 1014540936 2686878702 3453922035 257234635 689320672 395365200 3425465866 3351439740 3293249321 2261203941 1504215424 2365812346 2486464854;
  SC 2802351214 1019547153 1581443183 2237644987 2316167912 1277137594 922833639 1775757119 2259030628 3320484395 3474839377 3039388985 3157017009 701728799 45087422 1375130067;
  SC 1408178651 332882372 2572930650 1429622838 3740348959 3769865143 1102404486 2395773863 2055053046 1642858333 434575788 1458579645 1077283311 3435370625 412513198 1108997;
  SC 166351317 1290556120 1492697218 3828755332 1787027698 2627329842 818520792 3844511768 1093689215 2840813230 4268955351 1793367442 1197897289 1467402002 558600125 4039642298;
  SC 2618143148 4195387407 3571081448 176847982 3021045559 2151239299 4216918791 349987936 1438071630 2148079477 510134808 1844452199 3473619148 3775643892 3701006526 2069649956;
  SC 2536827719 256373429 82685205 2031847695 1685669223 3749398630 3100433967 2559626296 2614261735 2095898325 2650411530 4139725354 2433652522 1465137472 3074463995 2942034210;
  SC 950856594 2511634642 447889167 3271534101 3998181635 850059409 1500318444 2845728509 2319192144 1285732158 3307511706 1860111207 106597122 1317987028 3909997475 2833499319;
  SC 197466102 106471666 3969627291 425148315 2088018812 3287551129 2083642145 386904296 2967132086 417456225 2418726206 2685222098 3920069151 388803267 1008714223 4223482981;
  SC 1730602173 1587573223 1136504786 801576255 1239639300 3897044404 2640640405 3098571739 2095045418 1782771792 2216047065 2006450887 1019963460 450135304 1704523436 4178916267;
  SC 3045516080 2837283309 3652809443 3617799274 2953845221 1870697859 1987277049 671334013 2347392220 1637733040 408564290 531095235 1714215546 2668823252 4291679007 1499030154;
  SC 1785804164 3771923969 1688952513 4078905240 4219818381 2140263698 3560443409 1027592498 981877075 1273450409 1808708945 366130160 1509712333 1419790056 3592515372 1023304152;
  SC 689558936 2052202277 1573780309 1046114431 1768897198 1193436549 613072153 961650488 3203433527 2587127126 2088764244 3898254742 1779313411 2448405043 2102013432 2635393468;
  SC 2025692259 905848568 1759010770 1792571870 4118995060 266283808 4139640706 3438115348 2780184652 3445643695 656585512 181166262 2272629776 370943424 1751557846 2309122167;
  SC 267180733 424783777 1080203254 2661909603 1424050736 3737445342 2397112235 1140319020 3540605726 1560404816 714090654 3305695922 4001926073 4235374954 2250613806 603974704;
  SC 244840167 1554020100 3702066775 2862773506 3785435454 3651035430 218349583 1404753202 3766478445 2586133471 1533117238 4149938439 2210912076 3594357012 575816505 525962129;
  SC 4146528898 2136081288 1410528199 2682243562 3659634297 3884779676 1276188622 3650143718 2534539131 69352587 4188728680 4144009400 528573366 1948891771 2778384350 3961787045].

Definition static_row_33 : list ge_storage := [
  SC 771871546 3238832643 2874232693 1176661863 1772130049 1442937700 2722327092 1148976574 4122834849 744616687 1621674295 3475628518 2284524224 1048213347 4058663310 153122870;
  SC 2125145888 3034373129 148397811 141146887 2520820550 761993323 2298029094 2891332110 2829144983 2531560926 2167918181 3311166313 1986747894 2110826144 1833688282 2697250572;
  SC 3869871954 4004844136 2445592287 191554676 1824322074 1934754654 1806989779 631655906 1640478312 3779394326 3878618879 1897296401 116845712 1282189569 1638341398 253193742;
  SC 869049848 3185853214 1086566153 574813225 768296876 2336838903 1037196762 3581040974 1545806877 1185761684 533220394 2594450382 518321105 3416686830 2271268151 3918676320;
  SC 3856331543 2684505765 649861433 2052378851 4281491040 1056350427 1268888422 3791019043 2372988231 1754646015 3964172838 3080977165 1940074122 2762476976 3389041795 1131517310;
  SC 1630655860 1949945516 3883647184 3029959080 1311781856 408642488 2800393690 3410356207 115351401 3420630797 2709679468 2872316445 1790203899 1997501520 3278242062 551284298;
  SC 2323279372 1575922229 4047150033 1372010426 3148623809 2453870821 2339486538 2280451262 2466099576 2994948921 132102763 1776872552 3906687848 1416385780 2716658831 3839935313;
  SC 1482060017 4064599659 4201421603 1862488009 1206323034 1506270647 4148487892 2940354206 221477839 2184047858 1052602625 1800724448 2376949890 1248004043 4042069004 1001474649;
  SC 1973975072 2109156381 895285550 2806725496 4257596779 2294716595 2126073388 4029509053 2287557214 3863235224 910675328 3403565516 2460443864 4145068647 1675629270 2972605807;
  SC 3067953236 2487048107 1053067642 2406833819 1120120518 2019615106 2151977185 2444444329 3698388134 2675794597 2346696087 3691916163 416413840 2548582733 2519917531 3323365251;
  SC 4258867839 1450083676 3423817219 2338254228 956448310 2038800503 2270893323 23474499 4001071451 434241187 4225947271 3009484949 1212186223 3021170789 3408787844 4241328442;
  SC 544425045 2335106449 1970249987 676962447 2451092807 3397085111 644609608 622894566 3012162452 742316904 1183695331 1942632009 3993963459 2025380463 2934502595 2424729664;
  SC 489227787 2064607364 749046162 1223089239 4103152782 944881113 2156101348 2809656549 2750173639 2290439348 455194332 3662094961 2388553957 2373693996 3087294434 714908241;
  SC 844100070 1293873339 240400805 2741251793 4185619158 3756747900 2600026127 4095003808 2551250677 1982555415 1538344606 2598805396 1759235723 1251966 1750681115 626531732;
  SC 3996016258 3876613311 1191787057 3901742282 1577096572 270596184 3165567618 4061944625 3613068329 3912630805 2056061785 2568706449 2343664228 1807908509 1314728487 1028342757;
  SC 2729604648 2866824008 1921075953 959207538 460881358 1786258799 989199155 1140694999 3534517067 1671080238 1077292982 69981150 2456995550 2177711190 3355630373 505438766].

Definition static_row_34 : list ge_storage := [
  SC 2470971363 1622646280 3521284388 611900249 53592433 1667691553 3986964859 3228144262 4160240678 1357358974 796266088 2135382104 2999113584 425466269 866665252 3795780335;
  SC 1943673032 163567132 2998325065 4151760187 4286963295 2037110896 4023804057 2843670454 4267379728 470850548 1360194572 542908383 117354082 3909600634 3301531838 585104523;
  SC 421763950 3621776882 1804759030 1922063749 28357531 2718763721 3528327041 2594458380 1745913977 1705774731 3785007083 1889010688 4275556992 2808027536 1706627542 967259307;
  SC 3761989171 2069950976 953323220 30139149 3360357391 466334029 1085748790 717259079 3822910993 1348849055 4159668773 3924702853 4257335520 1714446370 3394938265 2541598048;
  SC 2132231371 3951042779 332537683 2179456991 3112576172 2873883577 502046554 4014018248 4272356370 2124475345 3140973257 1234959848 3468807232 3812306463 2768101189 3493652974;
  SC 2983624056 158967077 546553405 3473936990 3742593866 3986716933 2905591308 285301696 2640868047 3062221467 70156428 150492378 3977001273 1087159682 1233481348 3391921638;
  SC 3432795737 4256529583 3151717298 4190687875 1563633254 158068428 685294219 733826550 2829744078 4225504275 2375584227 1429440840 2192098666 1015042413 840775854 41702830;
  SC 3231767315 1865273494 1093659663 1873962287 1664376931 1435837948 31100007 316783664 996300708 334486049 1648124912 3615910102 2480590997 2253624363 548978494 3975730498;
  SC 1923874249 3947343158 2264687656 1121555015 3593673308 289357572 3048054908 3707221766 2043411687 1708537123 3350208529 2939237811 2793137666 3370678100 1405378414 2235087472;
  SC 139882711 1304366355 1276034712 2139658031 2197726287 3663457902 2357615523 1611719773 2323318078 260257531 2850134214 3099029628 553263652 173876122 2118167747 1771928540;
  SC 566458485 3545725305 2257836680 2245189792 1605297549 245844769 2016071772 1896412522 821618527 1870442187 3958912319 4032980189 2069248247 4226059888 3345680132 1791157180;
  SC 4148097755 2486537082 4003164230 2318687306 2491702264 229564758 4126839602 211561653 3452304873 2572510204 1630441069 3167885411 4175966562 1295680948 161732432 107333173;
  SC 1923252062 311708286 1678166990 3717252154 3161198614 1069601573 4091259962 359278439 3768419820 2520693990 650972975 383288062 1217231824 2559091429 4278580592 2250271391;
  SC 510621576 1629846927 3397488683 961386517 653633283 1754007094 2769834941 2247122605 2701964981 3912616774 3406969249 63999109 3141040146 2619453260 1468121925 4171492447;
  SC 3961993547 1155134029 1496861029 1279080034 2846121209 3483514199 2468398271 505281559 3532558643 2311328115 2310583909 3085705085 2999958380 2683778623 32663880 1366954658;
  SC 3799286526 1580228485 2766986278 586308614 2894037718 587959438 1301020570 2323176208 3827747523 2955860540 455053544 124753776 703403555 1658788582 3867772588 3276199889].

Definition static_row_35 : list ge_storage := [
  SC 2899222640 2858879423 4023946212 3203519621 2698675175 2895781552 3987224702 3120457323 2482773149 4275634169 1626305806 2497520450 1604357181 2396667630 133501825 425754851;
  SC 373198437 4218322088 1482670194 928038760 4272261342 1584479871 2503531505 354736840 303523947 2146627908 2295709985 233918502 3061152653 3878359811 3090216214 1263334344;
  SC 2076294749 898460940 2754527139 2099281956 3551675677 4195211229 3603181913 1984445192 1121699734 573102875 2187911072 656800898 1477748883 3685470532 3965328576 4253954499;
  SC 1876288412 2267864341 434083874 1779401913 2781669786 3073195348 669142308 3636028767 127310509 372075961 2537369503 2705808591 971889633 2718294671 1415139024 276903675;
  SC 3596445084 2918342013 1827011883 3900260359 1783558754 1921301616 3293933601 1111091218 3238604202 967515902 1208493040 1614341552 903992012 480937886 28823639 2379076161;
  SC 1968094521 1600813704 2958098796 909224758 1752381729 3115930502 3643078327 2863416031 2510423171 2162796973 1796627662 3678673773 239312629 2457874359 3809753210 2494718541;
  SC 1731463174 4265769542 194787641 1036371942 1745836602 660344840 1082796561 3963871960 4001246025 3118794916 3886266100 1928084049 3032262555 2306541818 3921311698 2426451176;
  SC 4018285402 658949239 1329629679 2738829796 776877685 1774949833 2797031752 3236392582 2542061420 1832249084 183211998 1840198657 1314474881 3361925365 3440999944 974653576;
  SC 1671164742 4271520021 1517391404 3289979834 1233503784 3050636514 3728319521 2919957525 3518724155 1272537958 3303667759 3864284110 234069183 1495943844 1989482539 3056780355;
  SC 1575547612 2187321001 2701011625 2761636008 1864623673 3995428494 1950725639 3749309698 2711714857 3743669273 3222519898 621366782 2554696188 176315043 1467854493 1806812435;
  SC 1182422499 3354985654 814715964 4226927046 3360200226 2503195953 1526762508 3747376732 1505823655 3718914053 2708056196 1868291203 1664951819 1982491563 751360443 1075645602;
  SC 101076600 386741863 2955045918 1653351871 1070602553 321875967 3200546966 2632915072 225765461 1759013254 4169466720 3880757831 1769634729 2642211393 4245887731 3909815727;
  SC 2379322656 1554830911 1971754317 1058862290 623917994 2775317172 3261049248 1667374591 3883068608 3752131736 2607464936 1251402973 4056909038 937468613 309280197 1804321090;
  SC 395093976 2154850233 624748058 3473623511 530005996 1656467301 451942772 3238178099 691726480 2563588439 3675387583 3294893253 1205949092 3844564019 114533547 4193437592;
  SC 1241354591 1121646490 1686974686 3373490541 1189649937 2948191343 2978671156 3827318062 3377194192 3805066092 3271994064 2484020181 549626522 1166583694 3299399570 764854172;
  SC 2808929206 427994673 2338143204 3942895356 2304289727 1468778908 1350679341 3972686632 2399853022 2097821409 3799931826 2500883276 1352425312 3372587055 596007302 2017539287].

Definition static_row_36 : list ge_storage := [
  SC 172527491 737404283 1378219848 1967891125 3449182151 391223470 304889116 3996348146 1311927616 1686958697 766780722 1429807050 1546340567 1151984543 3172111324 2189332513;
  SC 3269764283 1288133244 1314904801 996741356 1884733412 1544206289 558284137 1518251699 1924323147 1635892959 1275016917 3776324356 1705865502 202621081 499067715 3311904259;
  SC 2660619816 3307703068 1451637465 3851776926 2364760323 1977782632 1515607226 1445106389 2327693248 2319920969 1115274896 1834441597 402374626 1205432354 1396686295 491780324;
  SC 1996097434 731516361 974312078 3421366629 3812294134 3978884039 3352635742 1797690428 13489496 1642706934 3128398168 106641350 4016459895 2470770670 115922099 2925890710;
  SC 2686884812 2748914055 1937433663 756783569 413219250 1566264233 3400883298 1726270584 1877719428 1988282262 4210071735 1623567192 186026227 1235988261 878101455 3591361377;
  SC 4053231115 4124107153 3534184341 1110486344 81952807 4125498697 1693462482 2990125452 3439709895 1055710168 4246237022 1943085528 719511299 700284484 1082914808 1529874921;
  SC 1481485493 1935423659 913226612 2395711383 1541429099 2771316424 3338417471 399999946 26796724 1562275554 2290450886 1574607684 2722372873 1229315759 1998792801 1299123352;
  SC 3949810665 1328858449 2680298883 4060684833 1165923991 2656262528 835037267 1633040358 3109606689 3612027263 1850965274 2501035455 1956880692 2989837601 2991272131 514909703;
  SC 3542886422 2995653583 3564619313 2091503271 1371789218 2765269616 3068810600 1666719265 2118314133 3335278251 3361418207 807286765 899334530 3994904643 2747385847 3528707340;
  SC 3132681349 3533155425 2330764867 3555018576 1500828005 1243623897 1071818853 2130356426 4099162373 1333917673 445413180 915835391 3998951530 3932499234 2014496944 1476384528;
  SC 2104877156 1430391164 3607724722 2456386351 3275987562 653382938 360082336 281545563 2556998173 802173963 1898654040 2873697709 3526274706 30023701 1532464389 335648001;
  SC 1216717657 3420164715 1026103527 2814363815 3399248527 2265457834 4230549954 3191596424 2096767009 197782440 661821193 3129199915 3603027595 571989255 3350141303 902722054;
  SC 86788496 2319129483 1051755765 871757145 3910221139 2373267495 991927221 3506242540 2918237538 555183593 3050652275 2550066259 1935622924 1141386013 1915989302 1193809339;
  SC 2961067645 912271025 3829956364 976054309 2426360429 3756714048 860863671 2976390123 651422564 3348472580 4062622529 3566918328 1262646615 526922344 336090107 3690353753;
  SC 1104160934 638409761 4090697585 3951520784 412890746 3037968225 623962484 1861465265 4172453316 2731726287 468253494 2636411583 2233875405 976659501 1885152597 441456529;
  SC 228814647 3127034711 536841111 970423620 335496573 1496573821 3839638808 2076574157 3960354230 1830746438 2136594363 1397484405 335074021 421124372 4043995000 1296743377].

Definition static_row_37 : list ge_storage := [
  SC 2759056966 2773771898 915395955 378399267 1065424189 3786627878 2430240867 1910948145 1268823138 2460932406 2049702377 3729301642 2270156417 2935515669 1488232015 333167852;
  SC 3963231590 2717344665 3330507643 2069094492 1576271806 844971343 3725773593 3293220801 1933125411 1106657228 3650404527 3511000962 3309805512 23235466 884265026 3867812812;
  SC 2380535986 2007649740 291610222 4151143005 2330231880 3336494284 4079710776 3045731925 300175272 1753290057 2323446107 2448133203 1897525100 62520621 938748110 2483424933;
  SC 3941565796 4020457560 536627435 849338423 1622694903 2253013822 1890968103 2458058141 2431563444 3273994144 2920282564 2871620844 315460419 2331615405 105614140 3825521500;
  SC 1770365960 436268948 2889892729 3688514673 3952720709 1774783907 605504449 2947048934 38294098 846447109 2199988078 482652009 58745901 1043251865 1692020085 2977904741;
  SC 3749156389 3930496686 342096417 2961755248 1791611872 2622150301 1430397623 2049694734 1457522946 1307567328 1594457791 2920040322 2838823131 3221083429 2327375059 307491364;
  SC 439175999 704562179 1530705937 343762620 1895613568 82869187 23704978 3831637605 1611450850 923617677 3571146990 2520538539 2376639038 2377370369 3624250410 3615349574;
  SC 764309941 395778606 890380761 1156064327 244397938 560614464 4033284221 1090955901 3643294611 2912576497 772374999 2861631454 564730390 3124994653 646536012 3616789797;
  SC 3040822479 2767342245 2776280569 3485527708 3592541314 980436690 2153312390 215781809 2169043418 2501125521 3698439429 3999324854 2793459908 501030861 3583683133 3712651293;
  SC 4078810936 708788696 3557269243 3488736225 3893932756 4164798985 1241795187 3595203666 2393791384 3416169943 714289829 1522223608 2613922570 3640037692 3871460094 693107847;
  SC 2095442944 4280954881 166522183 982064125 4072843681 2413289870 966372633 3054322365 3306439070 657208192 175957468 411297739 771116169 1596617487 3454202820 2489020407;
  SC 1474971529 4158663721 2047384831 2598838221 256974012 2456523417 631366020 3323296862 3331748634 1360209248 3346726166 365777010 1290850614 2085594058 2979720197 2832663037;
  SC 1555709774 2326491405 2273744879 2585453209 2182701308 3405285511 2624534747 1273093088 862771016 2571185727 2627816705 753650915 1122934423 1670176575 3747348599 2369664950;
  SC 90900628 2102730721 781890942 2802660398 1018645876 4115262915 4149550831 3399458752 3886843346 2763694604 1310436099 1905281291 3814148817 4190880658 4069475791 3679310561;
  SC 2090876031 2877257381 2723690078 1430728835 1519931567 1820574481 3028789440 1269332520 487867652 423473929 386546855 57358783 1188070806 1428826466 1782333616 177182180;
  SC 1560550296 3093603077 293048812 568213435 3420818052 2217333393 3134601365 71485947 1184987600 3737951852 162939585 1604396734 102336303 398862141 820178097 490472018].

Definition static_row_38 : list ge_storage := [
  SC 1198357412 890731121 697460724 351217501 1219769569 940317437 2678867462 4175440864 2131908090 1470497863 3243074932 494367929 1767796005 457609517 3543955443 4149669314;
  SC 3330984275 2556191310 3686726368 344917147 3386773283 2065247867 3908122913 3695674005 2012204991 2693522884 103992040 209624682 1376640025 3686868767 2902487256 913177313;
  SC 51667624 2920015049 3017253519 1071812123 2571723173 2160964558 1290623835 537361271 825729747 1392761590 1142623949 609149740 478665972 658807909 3553467330 1636424506;
  SC 3616504574 1808500084 668829693 946464586 1979729368 406956181 4175922839 412791377 2386664246 1192624407 2943858119 2548487829 1705793661 3457595727 202485393 1924721832;
  SC 2189382710 4186169698 1109472631 1983920883 3607145598 92147950 1402492489 429006982 2674194346 4283195956 1593180543 3760708566 643378372 4031840072 3394015175 1558737750;
  SC 1805700700 1754525187 1654624487 2216136944 68436239 2233918826 2968997668 4123197178 634669625 2517670383 3007433093 3522650191 696793327 1110232330 152147442 726198231;
  SC 742639492 3149716575 880320409 4630949 1505653181 1071542118 3069898832 2578767084 1314905164 2213468220 3680194608 2445142726 2802637025 3977804516 1184600151 419058566;
  SC 1336605659 403108152 2724587657 3679190711 2874389193 1647236788 3333657299 528273159 3515102004 947876802 3658623910 174276546 653934448 3828171172 1444811038 2933240663;
  SC 339431464 3233735983 2646677300 43177515 392637796 1436471495 1239428896 2348305406 2289915967 3084305790 3250948245 178888356 2146779246 4234024427 1032696742 3905672369;
  SC 961540617 2841143833 962675692 4171962245 2791421965 2368576296 3328980779 2916707843 1558316022 134331787 2460382133 1215270659 146717643 3198704598 2091590890 2460305557;
  SC 1042706599 2034894580 690504458 2345543782 4005260856 2432547988 112379796 3543073874 835904670 2590827554 918469413 3408148837 1789043194 1729294718 1834822488 2928788408;
  SC 3301658713 837504950 1727706187 1845900341 896114239 2352826711 3111232113 2017659422 2679415011 2370224692 3953323203 2250773775 1103871456 1933857783 3328123972 3307902309;
  SC 1767706194 3006067357 35851140 3240494485 2221989856 1899667734 6385932 2363969169 4105037265 1831329288 2027489194 884350865 1094001278 159320441 4110377537 68569781;
  SC 1525490260 665735034 2452169880 171203360 1236274187 676156893 1374080130 357190845 1839504596 1514713169 4060710869 1096636593 2588809028 3627704311 1809407212 476953361;
  SC 957000182 26105440 3440739633 2098069989 1584380370 2860012851 1732766592 212521659 3179187407 887560394 2490695882 2732057577 1018218231 3635922188 2062474881 2513446682;
  SC 1107263183 578424674 37103195 466969755 2523291988 291121216 3279675483 2003600853 4199013737 2715326244 4169142308 3686083459 3512922856 3093381668 1195683747 1393205701].

Definition static_row_39 : list ge_storage := [
  SC 1331866444 3086683411 308412705 2554456370 2967351597 1733087234 827692265 2178921377 289799640 3318834771 2836568844 972864473 1500041772 4280362943 2447939655 904037199;
  SC 2575383612 3753748540 2811819999 1587868018 1038431720 790984055 3731301644 1846621966 951964491 415041564 2200992348 4272384400 296027191 4287888493 2854418940 3573682726;
  SC 1970740379 2607713160 3470587124 930264002 1173824281 122965335 3335069900 326806848 3632692886 129472919 3226625539 2728837633 416887061 1130551300 356705234 1369994655;
  SC 4223755401 2079062379 3389104769 4073338565 3689225172 440818499 856809827 381405275 127244068 376610605 2598268701 2534766433 2820385475 4294123141 330930335 318185845;
  SC 761419527 3536226585 2328998689 3591334816 1578134205 1103093801 3418753973 3588283844 1530820786 2684864777 924992522 3557568163 1869705595 3313643247 841618349 1632346896;
  SC 3475240082 1688964704 2950217939 2829510968 4218043142 1723444205 599182149 3585292920 1201476124 1461631424 3796636907 3015591958 325310290 4221903599 2685464188 843835594;
  SC 3270571096 3849271420 2838244847 4029431364 3703574760 3266810236 1964057057 1045028730 3535646880 4117469088 268273252 28527135 616206627 3498685014 1783632491 2430589238;
  SC 1270864764 2335784868 3187652054 3487500065 3514696661 4279511860 2691960889 1283768022 3239440117 3088430000 3270700109 2562105500 920167200 797042551 4008345612 1713652205;
  SC 1233553764 2449552413 3139739949 2886523083 3648218127 435238208 231513377 3598351734 1003225207 1550611030 4262337852 2819804714 3244463273 2073740987 855086785 975917304;
  SC 2715954175 3495328708 4029028922 3684471179 2815956881 3599669751 4163140273 33191313 2635890672 3683103094 1579697202 287936530 2496546027 832886459 1241267398 3564329642;
  SC 718666875 1628061148 3834972005 11037458 3790987439 2312775807 3375415349 3089087440 2679862136 918687461 3176925215 1435039099 1342114588 1906963252 3488735014 1611160706;
  SC 4216184459 1084561028 249927207 3584932419 1355984265 990857900 1870305536 582023708 1966962179 1733088207 1190083164 3785297292 1004947745 1784159416 1841702516 180335137;
  SC 4084089742 2441136551 426220168 1375299216 1841338030 1250354698 2728864721 2959990011 1071025467 1691914484 2858760972 1516700275 2771651049 607063247 4219381388 3373946171;
  SC 2146554811 2380633398 431356428 2501496525 4195490782 4281443977 1707183170 3515016439 43334925 2064458077 4149827026 2544422546 1259302114 1919625668 729425798 2757346641;
  SC 2475010648 501654469 1262984133 2284058265 3864896735 3216144340 3043718887 3290359029 2513504704 1583873907 787550022 889877880 4155285556 2519357244 1887123831 2544852082;
  SC 1329107374 3899397847 1931705980 3537599611 2074239136 1267070685 2447524924 3173107761 2842541385 924561908 2664553616 395476463 813764142 3107511895 179660379 2380654703].

Definition static_row_40 : list ge_storage := [
  SC 286197159 1217476806 1373931377 3573925838 1757245025 108852419 959661087 2721509987 123823405 395119964 4128806145 3492638840 789641269 663309689 1335091190 3909761814;
  SC 2458775681 3448095605 3846079069 1243939168 2712179703 2514528696 1400411181 3792085496 528921884 1230512228 4062090867 931590129 3669288723 1764179131 2650488188 764612514;
  SC 3981461254 1881876860 3861653384 1419940889 3890280301 225359362 3772709602 2406778923 1744011295 836946168 1547583643 2969842237 3997288340 2150480638 3129156617 1325216902;
  SC 3592470591 3671101194 2792523734 2070472959 1473838345 785123121 2721504084 2212009910 4070989896 1696639999 2859248441 3104578877 2309769016 4267049236 2484173427 1626540609;
  SC 4267160019 2981312649 344263087 698599319 1002907346 93565259 286808078 1804582990 3599771325 2181306538 1961279765 187428107 223299791 4043449191 587626985 2106033479;
  SC 501761768 2386293097 1180388710 1812775472 918601490 3009070794 1574279477 1505824867 3643095372 3370828988 832869144 404837899 3152252263 3925885097 69867335 3741018586;
  SC 2051920526 1020215512 2058830843 1611771091 2552120098 75944844 1802229404 915313553 2313215016 1745739579 443475191 2998247588 3289885130 1289464560 2961919458 3798282256;
  SC 1496487624 2215532014 4148657376 3923080315 216179279 3856996518 2014567019 880786726 2125033974 58008256 4039109547 402585883 2182540617 437175766 1441865826 1665450276;
  SC 3078919323 1109978808 3102316446 4252174800 1046362670 3864571927 2260100326 3682270765 2139319322 1066628173 240059747 1164853046 1454716611 512654137 1544275853 2556727566;
  SC 580428655 115762757 1593355348 2740341778 1504897999 975028678 2401832824 4197869940 3667767462 644880229 691878327 369150353 4026243769 737605979 2791271214 2620684209;
  SC 624678531 4114750403 1274989179 1531504358 3520816024 2554021149 1865577096 1362433716 1638936249 3016959317 2526207810 3033412199 695904139 2060012285 3230414132 860289224;
  SC 3442642063 1520946900 218826564 968761561 4098434233 3360677602 2204368028 486310067 2601372374 1399175099 2183933043 806379489 2424203087 2668736829 1664637882 3005713727;
  SC 700899790 1066183324 3546718434 998702102 2557230354 2084117292 2934243163 1545771642 3688392810 3908656537 3447657276 840000010 2955752477 44371204 3799655472 3734995825;
  SC 3265506533 942399325 173917125 161041810 2297418901 849604788 2703870825 2810175425 3617296913 1432689375 3133875354 1118654553 2616257301 495686053 4127407123 1943733376;
  SC 2005668850 485568946 2260461782 2622034876 2693998905 2811925574 2831747304 3217266392 2520502878 1176196783 2567958416 1525744035 2841811417 1157609637 3871707993 2765099676;
  SC 207989197 368293876 3237374184 1394768686 1254103141 935691540 375090092 2481205522 2920254212 492683984 2055637221 4291235240 3889542314 2465899605 1694380507 757371549].

Definition static_row_41 : list ge_storage := [
  SC 136266275 1782161742 3530966629 586004249 4076565170 3312577895 876489815 1337331291 888213221 1813863938 1374206604 2668794769 1377764865 784024905 1937217146 3627318859;
  SC 3161427495 2344678392 1808682441 2396619894 3034006140 1044331129 4102609084 1058091322 1515502621 1258860285 1406233340 127619173 3057107171 225762630 1651671815 4285298193;
  SC 630785468 1344100570 1929331818 828088181 2313124884 1302120759 3180735860 313275450 1008942268 2707820177 4248947940 1732478629 3645496831 611830707 1937638387 61731419;
  SC 1347537282 2857000226 227299159 1108544547 1181072563 1291715943 3752803919 2688390945 2484326219 1350060758 452823659 2363636452 2152205190 1812507720 607624535 2319475408;
  SC 3222638329 3875752446 758301165 51152840 2430504171 1189996379 44948392 232960619 3026371583 2974537914 3244781723 3702394182 2835938901 663347918 3320069474 3071978352;
  SC 1947047272 3022037725 949698504 1728470528 283847009 1458268020 360012619 1579646653 4005878207 1765381301 20903539 2558445559 757888638 2604781527 2240457927 3990518442;
  SC 4281545336 1208697934 2578865021 2456188396 1796646478 3757714293 2622755030 1606025966 30472258 3850691354 1208779266 405050222 3807844323 3748806955 358470323 4212845387;
  SC 2041619043 3711576883 835794591 2392116351 2862318436 689502669 2866163103 2052898811 576580608 1144506306 542475550 474572979 4137279429 2221684538 331268239 1556318477;
  SC 705880713 2092991958 815360595 3449491044 1305192012 2057063005 3299868133 1114733861 730760330 1129737257 4233249504 1217580888 452658791 2612091783 1764043106 1669202162;
  SC 3689992902 700129090 282055655 756126609 382876308 4262209576 2436932760 484247369 1415138625 2340918814 3058199817 4145497883 334812059 461523021 2221122791 2995497332;
  SC 706669295 3007808000 3728730665 3241577762 3126001367 292940936 1126531898 3913205978 304146054 2548053118 3490807704 3465095661 3938930443 804039554 297557674 1669808877;
  SC 2395818908 3199065200 4060875213 1731284266 1022607637 1154299144 3879751917 384430926 86892497 2036004815 2668116514 901861508 2277490553 1312485879 562264334 170374972;
  SC 2192479620 3046309306 143307916 3468295982 3110013374 699221760 273412494 3153322038 2886126025 1296005576 2326933823 3713038344 919578907 258326637 1991591857 604405680;
  SC 3283196708 902217854 1295144146 503984315 566424671 1755595238 2455519229 120267530 1004363245 1611271287 1013059281 3646183010 183890924 188417891 1612883046 2255154239;
  SC 1231171449 2524105034 653815517 585754026 3098352226 866901449 4223318963 1071806142 3239364285 4077877700 423690458 2222266564 4117269051 1893556406 3304547745 215164118;
  SC 3229321461 3443938850 803179772 3340311630 2749197592 565049216 1674980657 45735981 3858875409 2208179057 2167864606 3853383863 3320158569 901453102 2505912317 1486241881].

Definition static_row_42 : list ge_storage := [
  SC 768143995 3015559849 803917440 4076216623 2181646206 1394504907 4103550766 2586780259 2146132903 2528467950 4288774330 4277434230 4233079764 751685015 1689565875 271910800;
  SC 2894970956 471567486 2880252031 2717262342 4077383193 1268797362 4257261832 2560701319 2691453933 1607372210 2771176414 58794458 4272438220 2521311077 642919262 3613569198;
  SC 549667688 1635817891 3597742712 2133548191 983618585 1077056145 1016537981 3024916594 3788763915 2354027825 234019788 1129974745 3836449602 132091652 2429034711 3714188356;
  SC 3752023309 1237246457 810507218 1575719630 2984629402 1312110059 1532351529 3778270553 500991970 3016414634 2451804626 3116044735 2749076428 609078974 343845623 1628221103;
  SC 1079050562 537097107 2113045556 1216978919 795109794 494396817 3615304214 3016596136 1485503229 2246940765 2872639209 812577075 3970992077 816616346 4279493103 2696304890;
  SC 302016674 1709668681 88411267 3337357281 3061995584 3396993199 1858891069 2509301562 3807375387 3567949934 3737724046 4137514111 1709156749 1400722499 3253197246 830289695;
  SC 86642997 2517748533 1802616926 3224858276 667521935 294768443 3699185630 2619978653 1654256627 789295435 4056501046 2298266369 3425028365 3740463800 2064449616 423401599;
  SC 587205175 208206623 1253389730 3674422134 284316357 2112208954 1196434050 302049830 985808817 4037289748 2191325460 4289570719 592322138 3671063901 886295122 2540475213;
  SC 2164961127 4048157441 2790139366 1435011700 4142835891 3320410016 2681849481 1047872443 2885564134 874029678 2048520878 2934385850 1097367713 1997417466 2045706034 898129538;
  SC 3451958921 95403444 4056502814 671939501 2069116441 3101129770 553516228 1712496197 2639919391 3157824758 2182076931 2920510603 91421090 3496854290 1333938225 2005754623;
  SC 469295760 426796598 3855795018 970866434 856973549 2439780350 2385957015 2589908140 3781058972 4109407963 32316753 3931244779 68560366 1699148814 843806029 3772908229;
  SC 3846833357 4119412096 438094070 2645426661 884548695 2876447138 80918210 2029354870 135282137 3030947473 2960763605 1898348122 4127316996 2240743006 2934791826 887094286;
  SC 1897883656 1406242187 2434671426 2734794757 2714201131 3046668149 257451999 3794951424 152449195 3454838096 2737741298 821046884 2554260361 962889686 1262263641 2203109889;
  SC 1985684731 222483668 2849949193 1221492625 2084499056 1235444595 2655267198 1020186662 1447071023 3629752849 651251319 2167418603 2268535831 2985934672 2652239173 3259021212;
  SC 3062826974 1796450254 1939504794 476729966 3521076442 3086668105 234121934 986487065 1570879569 2820662853 1206879400 4271520206 4242315964 2749978648 3007865079 4114755771;
  SC 3649818358 3409857055 1537210569 2398557069 3130583052 536941530 3880813719 1419070102 1164730147 2533104753 2046210979 2821557175 2327264610 1639358616 2001893732 1524105344].

Definition static_row_43 : list ge_storage := [
  SC 294473811 4198428764 2165111046 977342291 950658751 1362860671 1381568815 4165654500 2742156443 3373802792 668387394 853861450 2637359866 2230427693 2824878545 103849618;
  SC 3462974251 3960356708 3970663027 1911703734 2602955995 2496279357 210580885 3874806640 2822070051 4063068709 2061277285 1429537360 2349584518 2910686068 3963567776 3972103816;
  SC 2016723458 2541590237 3532225472 3001659539 112442257 922189826 2246032020 3487464820 1658786807 2276379919 1596562072 457926499 2193005220 2575074329 529788645 1519231207;
  SC 1572936313 886315817 1530415140 2311860166 3941188424 45807153 2483174955 1469805839 3162970586 2454510043 2417743140 2783896043 4229304966 1351489836 284407686 4050060666;
  SC 1089549454 2684562245 1059803961 224950790 58262787 3033299806 927475933 1400133226 3082832878 1490904482 3040968407 593844137 1569781919 798746464 1083127814 1590280691;
  SC 1538536818 1828650047 3754703497 985555578 1002045074 767791702 915104522 465342914 1114045622 3426575950 1922317875 1070157234 3077282627 509171365 1607316331 668038565;
  SC 3323765415 1224391265 2469548057 3722781348 3031269370 4289586349 2226931390 957179955 2298143215 388542993 1780793152 2112973240 1502081645 1973971844 934878133 1618693887;
  SC 3954817210 3380652139 2572526672 1228436929 465848053 3939966705 2398020514 2900599831 2007674400 2727714272 2337519533 1681172994 4089802218 142069883 4261364192 2856729470;
  SC 4248537414 694781904 571619480 3221145068 2970038253 3370542615 2832314379 1807587465 1411648700 1964173012 121911610 1134463822 2574507072 885427058 3741638072 3097389771;
  SC 2158675312 116080836 3333803512 3797833536 984464391 4149942538 1145746749 1195624987 426540232 1021913877 3121679962 3390873776 3273678689 3851165262 4274383191 1915176720;
  SC 1158541955 1843489443 998849897 969171492 1791167915 2484857096 1119081920 1901041264 2534183757 1529097558 2956376281 1260291681 1159207651 3441978306 2518693280 4253362775;
  SC 1690661001 2213259738 3615956917 105152953 308358176 1328282355 1666389191 1019854259 2059193948 4244545599 1952864052 329670934 3592985517 571024701 1172799188 3135874872;
  SC 1184018396 889004172 1920099477 1964506637 189152569 1805931691 3250067608 3446883320 1471577127 2315956523 1588897116 2470229082 3602241877 554726955 1644067322 87402371;
  SC 1360270758 326216664 3362619326 1255989535 4140691901 856602972 2084629207 3858539838 78510889 2277092409 3136284616 1772786459 3229606238 94732571 2598206327 492226777;
  SC 1257123658 2873597433 3001150814 421725801 236310867 582305583 3367057659 2102668336 153914902 4226436363 290094468 690656835 1748591179 3668885459 165028339 2139821087;
  SC 2349582063 631395785 941018791 1503410647 181331585 2473834542 2528647747 3710284323 2364124560 3901998444 3224972026 605068436 546878913 356944705 3829683853 160452346].

Definition static_row_44 : list ge_storage := [
  SC 1451965994 766802222 1324674662 350355960 2823290314 951779387 2914020724 508533147 1932833685 1640746212 1238908653 542788672 3642566481 2475403216 1859773861 3791645308;
  SC 216282074 1906267522 1852437064 1010678235 3729121535 4197231849 4150055440 1128246703 3264673345 1375783733 3415088931 34309836 2603881793 3106237815 2950890176 505684202;
  SC 3927516830 2488673756 327917152 614182630 2355346359 730432873 88446505 4240960753 4121410433 1398090547 2262743232 651724036 4138228417 3106475766 4179362424 750466827;
  SC 434692713 3111300976 3323560909 3413395188 601658363 2967722170 1070605430 74966422 813799229 4061279746 1996953298 1765274397 4035137864 2359104373 3535793255 618634298;
  SC 1231617791 3545122377 2628213180 2391855988 3734909337 2705206020 681643510 368801430 691450613 2224147576 951972679 2767063862 3676868191 158497152 2165075628 2832330233;
  SC 3529008459 1174295398 55914117 2816083797 205887723 1756010196 1648915894 1477354329 86311333 3889682737 1098085375 3464880379 1139759451 542536350 186494667 2442759451;
  SC 3094023174 1995851063 4191388160 1722723757 1329293492 727282912 2669776257 2772951118 1386276034 3089621174 2303649396 2292749559 1467806712 266878652 2651863592 1006978704;
  SC 2450691869 3012269556 3887712993 4048656504 2160727935 1940770088 174916584 3472792113 2648524840 990354037 1957678544 3888925732 1168435347 3720532709 3528212798 2624020545;
  SC 69863181 2459013627 4217968964 2735851825 1081344097 737361378 2157825722 2900791120 1412000158 1206005337 3067055303 230632577 601427243 2760861753 3679310020 2091861010;
  SC 2304197829 1531316041 2716383108 434697890 508817514 2929310544 3751532879 3785491984 2716598214 3666495867 3150261948 1306653078 2283636929 2492138954 1527136744 3312103429;
  SC 3387483809 1095455990 3248396980 3181117152 2258888938 2053848664 2160875912 553275695 1752757914 1504034431 1046528434 1855690339 2425857774 2142030048 237252438 3919745098;
  SC 3690358562 221287988 2268047572 3655202989 756646724 68846869 1965143185 513684595 404949341 3706987369 15990563 3409604325 658214808 2112012281 1742449680 1802932879;
  SC 2972942716 4184192946 4124576773 3089123761 1179063207 2093485395 512951348 59239037 3674464770 787225894 1288484371 1987692265 3767465580 4044585132 2916653148 2297816723;
  SC 3784876742 1057734114 4078669159 2003536621 3146165592 3800656487 297129408 4248472894 3906942491 4017607636 1285879766 3310681130 2653159866 2524355569 84128323 2374174391;
  SC 1598027967 344901367 413901309 2414916476 417612014 1371467558 1499802638 967537237 1571117481 1088564682 3141693657 833402800 723113978 882224086 3586817872 3592950853;
  SC 513582137 3376206006 3649593908 274710963 395026609 3340190413 1543782101 90195397 4157807658 412153222 558068169 2001737608 3474337160 1679447360 12885220 843004632].

Definition static_row_45 : list ge_storage := [
  SC 2083716311 321936583 1157386229 758210093 3570268096 833886820 3681471481 4249803963 2130717687 3101800692 172642091 421697598 4220526099 1506535732 2318522651 2076732404;
  SC 3635330426 3675180635 4282523718 1750526474 1682343466 1292539119 2893227939 2897346987 1855384826 3916002889 4211021149 3439442996 241993264 1634586947 29890244 2635163863;
  SC 2111268073 1081371355 3873218083 4044562588 2141674529 2107952064 3689043955 3423481956 2548188353 2697516682 4235866514 2985306600 3687062917 2383095614 206503719 2548448480;
  SC 961167287 839569057 3482959339 4268254472 364097642 1343091094 3226753483 2159507482 3968394805 2518014496 3451298154 38127252 267735247 3484363065 957363479 1698662790;
  SC 2744437828 3863759709 3010153901 3500431594 2624982656 875272695 1378345519 1791692262 3726226549 2682325366 3925052276 389591343 3869112658 650251545 6263093 860194434;
  SC 309822299 841707800 2661553828 3383039256 238699224 1100968507 3534897900 4177846894 3463859410 1435499569 2006933774 3007046995 2819231184 288756524 1854189890 3858081977;
  SC 2088052675 3396090720 416722812 2597822221 1176386826 3290882216 1002529034 2156491632 4202546863 1988253003 164033721 941800849 1186836065 2298291750 1863561032 1437279190;
  SC 2858016010 775169843 2706497878 2821546952 2660836656 2077717717 3498848893 658545289 4048269927 418273988 1144587321 3094511386 4122354470 4225741678 603926280 979427875;
  SC 1933550557 635706492 1314164193 391588743 834468642 1475393570 467867971 1271027212 2540684860 3801872764 1235100171 2159823063 532708943 665828867 4215955726 3885758496;
  SC 3602864699 4002116109 644187852 1895585048 2776091504 72205071 554242761 4049640413 3149249833 688714164 687706448 3680924185 2274039047 303853541 2977107717 1196398757;
  SC 3014099531 1302405838 17960870 4110705157 3801652109 2085339416 223612049 2870889264 3353629397 3527061798 674241336 3525864585 2278818471 2069831593 2885891701 1329881521;
  SC 943450806 3704544104 3603194299 3757910007 502151885 765197432 4190577627 771063523 2436865367 678307964 1498061278 4120830837 3369466394 3399332765 1670894068 2891073104;
  SC 501595739 1876059299 4182005344 160804770 962098784 2636270989 1828906496 1316975808 4088133273 2943366134 216957582 1003216568 4242258589 3505873185 2810125978 3429220861;
  SC 2021386647 4046435053 1951135097 3941871277 2261999657 3808836272 2028063026 3659044589 3595750274 34514326 1889867282 1898224864 1659225476 3153868894 1647148554 1185039302;
  SC 4119269244 1304843028 2354051818 2031439365 533555049 1418960734 214120313 4187370667 4256529561 2635160409 1836564249 3828261559 3235640513 181194540 4018312346 680914749;
  SC 1914329770 3317667974 1413160514 2952053282 3332782151 3751637695 2146129829 167804454 2499496888 4213150810 223599992 2197202825 2869811316 2635473358 952082661 1532017334].

Definition static_row_46 : list ge_storage := [
  SC 701959589 2450082966 3801334037 1119476651 3004037339 2895659371 1706080091 3016377454 2829429308 3274085782 3716849048 2275653490 4020356712 1066046591 4286629474 835127193;
  SC 897324213 739161909 1962309113 3449528554 2634765108 226285020 2832650161 324642926 2242711487 162722959 2264531309 2307017293 4006636248 1035416591 2557266093 3957962218;
  SC 1912896448 699621778 2975109255 1580597872 2818493758 515803157 1642586345 785148275 2098287545 1424779842 1039209855 4238164284 4173562747 3569896384 1089361492 1858690350;
  SC 2757340308 2538321018 2388474793 379482919 882562385 3129659692 4216198588 3565768337 1772023241 2931080253 3451485646 748689895 562737327 663797632 3315310934 2629536884;
  SC 242169331 1243063456 175561111 2950276224 3213816292 692329775 3181354285 3015261169 1744760252 3733849950 4219512025 693702734 2844842003 722286940 2391355922 3564773447;
  SC 2291286292 966238959 506903622 2122264528 1392182009 3447321781 3873294792 1373792940 991667700 2332723711 2764968211 2471301595 649629323 783169152 1459916213 3846736182;
  SC 2664330880 1149932862 1416201114 318583284 4140857901 1128356267 1095497693 1624736741 761312690 241788645 2036924781 1946525101 3225208750 4156033061 2590150721 3771407135;
  SC 2862143077 233168744 2659004990 155440145 3918377979 1360152661 627903232 1469886352 2876841580 3955906097 580277652 3039511497 1597126708 1404269416 42059925 2098341602;
  SC 812381463 3272442363 496180006 1236237424 2267310113 2237850197 1113026387 716498059 3503382440 328287114 1410789607 477863076 1362085890 3569642059 2006757845 675415451;
  SC 747557402 4212477852 3286869720 3708058361 3240421074 1188732842 916816078 2444327052 2111479336 1745064524 3637408011 3599633029 4230973048 1160089497 1136388910 4138160782;
  SC 1255139572 1856599651 1458352865 3271906169 3410637086 2119040671 1680850868 413922813 2782309328 3561735700 3723648708 609378416 268989415 3293584485 3271843364 1954072630;
  SC 4155626312 931793228 1049414704 1037617746 265265177 616902615 844384832 3477591939 3106685802 2357099686 1845236259 3355104451 3327830357 3100545339 1162051156 2646331847;
  SC 514329180 948073745 1774920952 105860125 2811186644 1695131452 940976033 2019732362 309099076 1607914408 4118428245 1337868060 3952860679 2578427283 265792106 295755030;
  SC 3882528435 2629929072 1617404150 1421619579 2309432083 724299897 2666040048 1096383838 1836447402 426930713 3934220119 3232225281 1000075862 3631628825 3529619355 1219322120;
  SC 3335633324 4194223138 3901817518 1335914529 3871871049 3709757137 3499113177 235348888 781652835 1102256292 3754223033 833068853 4178470716 1807198743 2733399861 3740356601;
  SC 228568838 3126580587 4000897922 1303869372 3850020302 1548458239 2356371812 3570971356 2544858219 4220062752 2062616152 953792592 764216612 2052428514 2314665964 2792116584].

Definition static_row_47 : list ge_storage := [
  SC 2022030201 622422758 4099630680 255591669 2746707126 492890866 1170945474 626140794 2553916130 3034177025 437361978 3530139681 3716731527 788732176 2733886498 780490151;
  SC 4207089618 3411945447 1960753704 3552759657 1130668432 848791484 3810908171 353148861 3312275539 2963747704 2966813687 2483733320 2880725255 463405312 3340834122 1292390014;
  SC 2664721153 4108676217 2604619822 775242570 636236518 2873717047 1857718302 2091477716 1586310695 2528697445 2256487867 2787362203 2741360704 496928924 601271512 3586110309;
  SC 1791685197 4242641311 3369628733 2052809939 806398185 3412279529 1946210627 1398934260 3077042954 2276630414 814388665 1749609309 3367688729 1959714965 2411157301 2263996211;
  SC 439326213 4256425445 876987216 1314194194 3010100734 1576065730 598365157 3705087566 3427486218 1877721147 358249820 410263983 1386735339 573015435 3312164843 1274000474;
  SC 1340417963 1112802360 10328826 706586684 2526013892 4135069035 3566832565 2945858092 107866747 2114273476 1970904771 965191541 1793617219 1453495760 4269949644 41605060;
  SC 123137558 4245690796 820317976 1443287541 4203849632 2954045926 714382464 3076066234 1293485113 2554869888 1663243834 1823619723 3832632037 2772671780 1362964704 558960720;
  SC 104412626 1897841881 4081037590 3456756312 3025873323 2036419348 663042483 1254379139 1882881825 3296543036 153313200 916960321 2276001640 759388499 1134495268 1699779658;
  SC 4218137867 889442133 2322944798 2659784159 2592614267 3345396604 3647495000 2837331949 75759322 2350992064 2461684340 2333444962 60872001 106935728 2095087192 2026584532;
  SC 818402121 2851948581 2197490142 4158011576 1665124994 3116095068 4019154383 478938546 1455910301 1844755722 2818772446 2743310120 1907022363 1639658700 517605614 2705809838;
  SC 335193145 4147885949 3527556636 2575925391 2530836608 2938195122 3771589905 2663025172 4017017665 2146447634 3974365403 2994000421 3198356067 3382731724 2593683495 3554902256;
  SC 1108422413 1982378939 2047758090 246779179 2568353687 279750626 1730233650 784289836 2712478714 3614283837 1824826964 2514128237 3308726345 3623735281 887459898 3896777957;
  SC 3527405352 290146745 125808293 735109902 1788801307 3306408847 822599754 3798637803 1514985656 2967186195 716984495 3386310843 3156794500 1007814159 1629566196 4265651874;
  SC 1178327293 565847309 518944000 3901419432 941693255 4276272755 3595637504 1831384538 553054976 3799273120 516961220 3048859574 1887176404 3648800625 2905989893 2971331974;
  SC 561598562 3812086269 2571795641 1946669885 4094345694 1247304730 725275648 2382611624 3912910386 3657806663 2347179560 3311073478 3031523768 2672297551 829774364 4138790294;
  SC 3908534093 41076189 4026661177 1264946070 3582612650 3167460834 3305185564 1828271691 1883569901 567401887 2154847219 3599749472 834678216 1517326104 465030801 2253777505].

Definition static_row_48 : list ge_storage := [
  SC 69398569 525452511 2938319650 1880483009 3967907249 2829806383 1621746321 1916983616 1370370736 248894365 3788903479 221658457 404383926 1308961733 2635279776 2619294254;
  SC 4116760418 3197079795 2972456007 1278881079 1399016013 267334468 3129907813 468505870 1237093446 3810554944 1980244001 1830827024 4255330344 3556724451 2936427778 3969278111;
  SC 3989128687 604159041 3302470711 1703086807 4153485525 2444501021 449535888 2817157702 3967126593 3774839729 4230523164 1130105305 2419296875 560268503 173246097 1794638932;
  SC 1735434103 3810847770 4216841726 1126260487 1019034952 4140633019 3223272164 440162565 3864068825 3275406276 2196958479 4212485308 539037402 431338309 4061221107 4289896057;
  SC 1802752446 2780168117 1133399256 2599868866 3158418134 2848371717 2893014484 1878597835 139427334 1841937895 2016179766 2330806831 3849381146 2224326221 2296824272 3983748073;
  SC 1520559143 1690628296 1614953069 1422707415 257987514 3063997315 2652769123 3445956897 843436720 4264023440 365609354 2250088148 2769492081 59746990 1275187671 1973406172;
  SC 2823162534 2631304853 2485683334 33106529 243176015 492943806 489814307 4023911334 4139752347 4133120235 2455727203 1293330101 1838339727 4219498628 2131345625 3646653738;
  SC 4198202713 3167956639 2765023077 3652537372 1708707687 2324231909 1009881825 1679047879 2515346176 794145218 554048969 3173445869 2193645289 1271864237 1006139617 1072905092;
  SC 4273823033 1749314885 4263358248 538495360 4104454924 1997598205 3080563305 3238994582 3099819109 3162260128 1706963773 405274298 1894479347 1596497438 1094591269 1522128209;
  SC 2640931764 1304425992 2939922746 3918107623 1248692482 1121191585 2062140937 1807331998 3643560968 3236720945 2667270358 411521120 3664086365 2334989504 2668098536 3236026237;
  SC 2404161740 567514400 3895963765 1201374790 674719322 2894222365 467511362 3395036514 1038550674 2948454520 1518702565 1362236790 157238862 3475771959 1415257606 2714484334;
  SC 1831986705 588754101 4075551797 2767613701 2944855428 1912813036 1398542170 3440695634 2367865816 842155635 2602621363 2143763320 4256143529 1826541687 1851134007 2997377819;
  SC 3699972731 227995919 3067674252 477404832 847958753 893077929 2153170373 3057114881 1197132301 3330088847 2465660906 549749504 722435391 4124201578 3419977887 636305133;
  SC 3346980455 338882355 1940861469 2106574528 4065634984 939438415 880899904 173329243 3962520186 3417951565 2532850810 1158609417 1846710650 305050726 600225342 3684765712;
  SC 1932816778 3409537322 2445361402 1740774412 3661005378 2854030637 1914937560 1558250179 3808763123 1298026979 2417248681 899022004 847010236 506303181 1296472514 648957572;
  SC 600303058 722185115 3110060002 3818809602 1551617161 4208042174 526230670 1957951010 3160030963 3295123990 3121214191 1337066151 2200271451 1066776105 1163805043 2606444927].

Definition static_row_49 : list ge_storage := [
  SC 1137648243 3815904636 35128896 1498158156 2482392993 1978830034 1585381051 335710867 529205549 1286325760 863511412 283835652 936788847 101075250 116973165 2483395918;
  SC 2210369250 711585268 1961210974 1353321439 1215935705 1641330999 11213011 2020212318 695107713 3413272123 1378074688 2790029989 658491086 1881545465 3409839898 2042086316;
  SC 1723393102 3373492622 3599711002 3748987970 1143620470 2663282777 2229588531 2674289435 2963045423 2234232397 4178299567 2791622546 4001934471 757990509 2858420658 605204372;
  SC 4272330873 3840847353 659917277 1664684318 1563018625 821178295 3329580379 794312951 2169136998 1706378889 3017987093 1159314572 2524368718 2444830959 898030098 68613446;
  SC 3172236096 1547478676 3467968131 1603626860 1411948645 2916654969 2891471305 2110051838 1733578576 2788816800 1613389791 759324595 3991538909 4073480091 3323038139 2043658072;
  SC 3011536148 2207224783 101813390 4149858178 961260436 3760245299 2099300570 3143747485 3209436103 902146054 3598885374 597299239 1369786353 2099087354 1506359374 1017249349;
  SC 3137350455 1622014086 2828880803 599881832 2213606365 4248974065 675350384 1446749674 1254778294 1745968946 409433048 1103126998 2370471436 1143685003 3341252280 1003299547;
  SC 2019014241 1108099665 1035538349 2878848993 2585673617 1565675366 2261830657 117854892 1965053814 2351841804 4065720752 3747135308 959541091 1629950401 4236240320 189693687;
  SC 3443026785 3216851941 278623472 1568038608 1548544711 2243949731 3359141033 1425753427 2934907774 2301245979 2216178210 153063705 1690071616 791861830 1201756636 1249732113;
  SC 2497506925 3815453805 1308318422 1061717857 710358190 3797004413 1870767051 2099598345 845543228 2941187056 1083282999 1311194087 3227025541 423673289 2634724972 3297305091;
  SC 1394185841 1653557808 2313575976 1732811292 2133445032 171245194 3242484287 2667183179 1165233778 997752293 501180123 2529762237 429212016 1660866777 1766992150 2066419882;
  SC 945381459 1085161105 3490034658 983140246 425352282 2175943302 1166850024 3968884285 1417959566 3386676357 3168826489 2984241621 3305143707 246924146 4113453679 123892017;
  SC 1498291154 979168666 2565114847 3722708999 3116533535 2044826765 118913881 2684275795 30932180 3147559151 3769605849 2376328043 753602217 3789763983 1247346722 4123341034;
  SC 3203969599 2514533821 1007395325 2063305304 520326691 3823758018 3095693832 1864628246 2586004821 4190638257 2952735262 2977139992 1124651421 295756268 3428261546 3110485030;
  SC 1663042556 4114384947 1430450710 3825340149 1051862436 3194752601 3106848742 1383208530 3142397378 4065704146 1545077688 2297695627 3152458457 4134880529 2187655177 3419805764;
  SC 3081663242 3880428040 2670880433 1398290076 1232125961 3862005121 1297357575 3334998678 1135063881 1723120988 2716095891 1113861429 3955845594 88397004 1699846421 887623013].

Definition static_row_50 : list ge_storage := [
  SC 2668669863 1518051232 591131964 3625564717 2443152079 2589878039 747840157 1417298109 2236109461 625624150 2276484522 3671203634 3004642785 2519941048 286358016 3502187361;
  SC 1979235571 2198968296 3104128030 1368659294 3672213117 1391937809 2759329883 1389958836 2420411428 890766213 2707043165 2738550562 3382941095 378763942 3093409509 2964936317;
  SC 738589056 2116353374 2279888429 1705963022 828292114 896734726 2179570630 199574728 977051187 779668316 2330529056 3992755888 1000402439 2191612089 357145081 1441305104;
  SC 3372185571 1990378702 1181109789 3007260699 2430812419 1342872134 2198044770 1122343273 492870646 795688582 3226537448 1245881435 1071312339 1997541910 3829149062 1964864598;
  SC 3005241683 2859584860 2297396821 999606499 3964655188 3075624064 1368424820 847579236 744318941 1201524211 1104903258 3771742070 4093550286 53333408 659192149 3026115299;
  SC 3415227510 2060701016 1724277801 2661091313 215175235 1719160017 2940192603 1942243742 2398510742 4053370504 720436957 3760614784 2014232625 4199009336 2658914393 246186938;
  SC 446126854 165933106 2141828870 892600041 4146883601 2127439849 3431174989 2697318886 754216027 2671089369 1463409379 2826265846 334206028 1562078629 62819702 350080249;
  SC 3607678201 1305808009 3724583207 482185919 703873206 1075587326 1772056430 1356871295 4212601732 3762698616 2707284202 752961239 3089561250 1634547883 2919906767 31529502;
  SC 299389109 1252069111 2304374236 1252642323 2415535563 271885157 592252779 1178960198 53568246 3149254195 2937703855 1474069228 1764301842 954790502 4245417136 3132108431;
  SC 2094400513 3190829985 2239253067 2918833540 4106202305 2502268912 1731261142 2453877410 1861934729 934615026 3785479199 3605446967 3582056355 3042887218 1961855879 496882544;
  SC 3179454680 881405516 158640787 2790186672 162147899 376983910 3379568747 1408037207 1411174731 535638557 1510230718 2856041085 1958999115 3678347246 2958940834 520309445;
  SC 1870118851 1980314816 3987573623 4117586697 396136405 3149345244 70002589 2314836548 1713919226 3789182954 2123295507 3015665476 4069315088 3980795614 2021907367 4155874670;
  SC 4078777812 3708497519 1529048728 3747007128 2780224299 2728976580 3953400499 550363476 3812495996 3116459113 2211909765 3967732138 315888386 4202077281 1437542127 2815522910;
  SC 3236576167 3189780679 2030714184 2121402515 772212369 2193424420 1417920098 2031545011 4110769775 697022136 1206489717 1691036150 88940849 535864250 547921653 2569798466;
  SC 598120112 3876471191 3533286352 3003233155 1039593763 2148663879 2659932582 279051507 988977723 3458445518 2950275676 4048574808 3093122873 831143981 214208408 3935649503;
  SC 2893621405 3242329790 1948255717 4083664057 3803596193 740414223 4293576836 3875047642 667197150 2081112783 2447275650 242164299 706345359 1928593492 1774391838 3660333945].

Definition static_row_51 : list ge_storage := [
  SC 3009793609 3525092161 3245586135 574145899 4034974232 2828949446 3457574134 1546193476 3883480541 1976722737 3557056370 994794948 106991499 1626704265 3534503938 3271872260;
  SC 2939511082 3508735083 975571643 1775005849 4144127005 706007446 420750190 1296964164 3061654480 2268588398 258119220 1152421762 2183948554 3016917902 1186604447 3147111215;
  SC 405897674 923178082 1575208079 3088321769 2214762612 3893926734 3167279390 3951912989 2709000001 2390687969 3858727239 866338457 2045181240 3217044625 2328560686 1861539550;
  SC 1277015638 1098202702 1559301990 2587773702 236499920 458659357 2353007333 2611100088 3428309717 2008274629 3647015407 268886847 2626192792 3341061984 1515395072 3708589435;
  SC 4042661445 3420460388 402520550 3677541300 2230979515 1273170666 2514471146 827498216 1259202696 3072082970 475301020 2118811945 3612811582 1387362670 2779447975 2265478999;
  SC 2229583001 1885758268 2744744533 2751282929 3032060674 1949605811 1570835257 793354274 1683039266 449593771 109462780 1941150268 1808732776 139050949 2225765509 1246293964;
  SC 2802845617 3765730171 462111640 590276976 2549490668 1227143343 384473299 1872236586 2432932105 2621627369 29218585 3541815309 3762320683 3470760231 2011203130 2527437401;
  SC 796052351 4037990088 4017471553 1320960316 561010825 3728618461 3540350568 1334322515 2252671868 3217596003 3122272084 3124892250 146022162 3584383023 2911266650 2958817688;
  SC 161418820 3776882969 4050624816 1522984750 3239766493 3767349571 782872272 4177710199 1140123311 211837022 1955996644 402816745 3326870942 1443720320 1645866695 3832886909;
  SC 452931871 3201459109 3989748495 3779670060 3234605835 2462489907 3541849378 3952908948 2234764749 2534999097 1221823414 2220662906 2593424893 3688122472 2131104831 243658822;
  SC 1244527825 1331697159 1126644730 922926684 1475975786 704282514 1718439968 1878820141 2509443841 2182928123 1663057853 2828328506 1475048880 791101245 3209045799 807262644;
  SC 1506123994 75559732 2487617790 2776679170 2522687136 3704896305 945074946 2943008309 1088584510 2469322363 1078526500 2073262975 691596720 2702927487 380178128 704842212;
  SC 1460389583 4274587105 1447626425 3957246995 1621878179 1643627976 4030517934 1056559397 1438644008 32976965 2197709285 3567855255 2001746745 2603748421 3462117821 903804357;
  SC 3179129705 2297226467 1646197352 950157362 2929140164 4242027992 1652798968 4193267428 3343133888 2499845914 423061238 3494957413 3637365392 784231823 595573026 2713123590;
  SC 2810225213 3951319549 1905650326 3909017486 2335763951 3772810842 2983632261 489145948 4173940274 2703192453 2654763363 4064871590 1399005653 257836626 831912020 895345820;
  SC 4037755568 3145789767 2141184942 4120133888 346636610 3895536529 2259736314 1057113066 595225270 3051392771 2813693848 3877775276 1832280309 1138362004 3061980317 858203300].

Definition static_row_52 : list ge_storage := [
  SC 941124125 1620226392 1431256941 3336438938 540497787 766040889 373284400 2979905322 177008709 2625544842 1096614388 1196846420 4186360501 3945210662 1143943919 3412870088;
  SC 2868459499 3255324438 807131982 2853200483 3487859623 3501857558 3107820062 2163227213 2115527726 2346720657 2251713340 3377131273 3223650794 3766790266 177525458 4167009497;
  SC 311132793 3961991670 3475828441 4275227465 4114440759 287999228 3329759386 2384037498 4228771259 844254234 256179964 1796107218 3127243322 1425447302 1385509204 1101567113;
  SC 2084416542 1837746358 3915669193 60671540 2731498203 842785439 103116859 3404407266 2713222963 3049100113 368142082 2923502225 3018451818 2169399182 3017634865 1845463402;
  SC 1620925474 3368534446 555437218 4144603563 1969376145 213474605 1856420595 3939242692 1705488978 252956811 1258322279 1776729832 3988114536 3572272198 1383845751 1398527932;
  SC 1762997475 799707654 1609033889 2324053368 2951656833 2545022095 1325992886 2638191889 737853621 891297811 1613139572 594983169 2686965496 4040759974 1496585540 294269531;
  SC 3866323582 3807637640 654389167 993860478 3985490230 874636344 2342980699 1928023737 1520117329 644165140 150615609 199275733 463804864 310744654 2057873049 1169977839;
  SC 239011286 715635161 1855226016 2750348850 4059485278 800137564 3998891997 4048007508 1194893107 3761772527 273800027 653240081 1187997500 310579555 786511222 3092283411;
  SC 3036944959 3482022954 3739636749 3919006909 4266819119 1212326408 103856594 597427799 1319114089 4260737761 1982976744 741084092 689793522 4260038527 1319231386 1661185367;
  SC 3846585080 1572901113 2683774833 3251385733 3753876990 849242549 4245340911 1064393430 3309340124 2842098330 2556268102 2033409485 757257328 2031055308 487255243 3197919149;
  SC 273355511 2413549351 710350577 1361281890 2485522754 1210096318 3839671116 3619357718 3954210633 312725146 3792397974 3833954588 1779821907 2701218449 2422680647 3829673069;
  SC 379167192 3494512635 855436470 2928216366 4239059924 4254878455 3617218283 739826290 3488721213 1288540569 2623691196 4237777587 1234356449 2367467024 185343202 2198868227;
  SC 333398980 1306721698 1267933489 3888643170 2305763143 1886386521 2247721544 1287414137 497238456 1934421131 1960709128 2688614248 3637710577 3756130276 1929365309 2796038772;
  SC 772805737 461244658 3551164236 4177074918 3920537361 4259237061 3625379235 3715444221 3444473673 2576271136 2750230085 2167864295 2571239709 3663560660 743894391 703945624;
  SC 2955504442 4192737708 2813336533 2037901957 1563142269 620241136 3249364868 1805455553 422364625 3061329310 3824436397 1640020182 2540832302 2063844885 2982901072 2809011473;
  SC 4188085081 1849071252 4251112483 1368274267 2811635355 3535120523 478922770 1090405967 2358353504 2249592823 2367480425 1158857070 1979230110 3661225756 2903524693 1830110173].

Definition static_row_53 : list ge_storage := [
  SC 3638948794 3243385178 2365114888 1084927340 2097158816 336310452 231393062 580838002 3851653288 568877195 3846156888 2754011062 3396743120 2639744892 1431686029 1903473537;
  SC 3268926613 1818698216 1862252109 1578913474 4289804840 1885759995 2888888373 2636129891 2360477693 1672434489 4188472821 2046052045 437371108 3454488779 2151384078 1514762405;
  SC 3140765176 3623124217 3204258419 1994235030 4141313973 3067394014 3891883464 3387486245 3254639322 1970078634 2106725210 2833086525 1670513208 472865524 2121280699 2548725819;
  SC 309446023 3610145983 678094472 3223511337 4188624231 2675209562 619208065 1214683627 307823706 3407147709 2103429213 3636822787 2441204583 1675916090 1444359140 2979809856;
  SC 1982287011 2286805587 3436767742 3002584758 477850697 439716674 3863581947 2155905635 220608999 1402913678 2974580099 1207717136 3265452095 2174870701 464004734 3218951674;
  SC 2374025586 3926883961 3555874460 1238670328 856489843 4258163476 977941661 3889087192 2262660846 1677408901 2922467369 1043137100 4279650771 3357788771 1512036754 2539641395;
  SC 1142842756 272648505 914080820 4056304706 1529598235 1542384711 898735874 77881967 1035144846 702992091 2075420139 2454875215 1266516833 2974932401 3666315911 2262316403;
  SC 282628724 2966722803 3533567779 2474391608 1236598744 3094620093 2714845907 369896328 366951725 2971547133 2753808137 618960857 2006195012 551749950 1402811398 3808228405;
  SC 962649761 2486282608 1808066694 2361174774 234593415 400975056 83848885 1091105486 1020816894 1838575736 2668167699 73800319 2028242253 2121917721 1921251529 2828854963;
  SC 2717497535 366873177 336873963 978494261 2877822089 2054875183 2521644031 4057807064 3713415744 3955164880 2229410320 3755022307 3363858805 1398106956 800395520 1799982442;
  SC 399227430 164572050 2101616757 962629850 1654784623 3459989194 2240801569 1986371042 1911756881 2723553175 2964071573 3609789600 3185432638 2208423303 2967147750 4279453877;
  SC 282950688 2418348758 1686423600 1392917024 3343336708 976718153 671781049 4166009090 371505957 2474457927 1126253569 3355537407 4151375790 2105071839 941370857 331122028;
  SC 2127306191 1587304141 1137651997 1529991785 1356564935 726775332 1952136309 4003891353 61741949 780292838 1136081573 1836882786 528077243 30578492 465809744 2709331701;
  SC 4118645416 3394012023 348789448 3808052591 1284813572 265335400 545565522 929596026 744207086 3837069751 130735480 1107476780 910486599 2623115273 1478462314 2130033795;
  SC 1955617954 1897311939 3110934223 4221780767 1556888759 3849614629 306928433 3178221670 2099698284 308858727 2221495536 1221057715 974275765 2399830054 3285960273 1758193777;
  SC 1309372774 3725783295 3135972452 3122681380 3898315320 1245625291 3684458552 2498694383 145248803 3480764710 874108791 2482726617 434324108 1522025692 3554266182 2125028368].

Definition static_row_54 : list ge_storage := [
  SC 4095464112 3774124339 1954448156 2941024780 584234335 483707475 286644251 3027719344 2257880535 651454587 3313147574 3910046631 3169039651 2576160449 696031594 3062648739;
  SC 3459141530 1009969738 35229281 2373814441 355537356 4228991558 213496956 1669603654 1552983955 3304370832 604896268 499179421 2737968344 807678026 3567168353 2353882345;
  SC 2454671851 2184874449 831795291 1169825676 1084590471 1942690394 2762211706 3042637679 2365319338 3552008694 348752618 993280940 1178602031 1559708076 3354759347 972286478;
  SC 2677560697 4247966509 151962163 3310844434 2986095882 3914030856 3436387520 860446559 4289606749 2343453766 3218454181 293342071 1238022655 3938175190 1394478132 4256084776;
  SC 3033685698 1795086146 719843849 255984080 2447365525 874035973 313642533 1163634918 2316564524 1195940716 1914843207 3907025376 23457264 1278433300 3111232984 668125878;
  SC 2135745017 2899432034 1819124473 2109840859 3124696519 2070710502 990727745 2752134271 1963223245 866344359 606159585 3867224292 3038840373 3295910586 2433460716 3384811471;
  SC 1744070416 383286836 3000319326 3310329765 4062980155 2749127191 1895582230 439084228 1884304792 326674045 377650590 3363592478 2947641322 1784390018 1332541121 4203919218;
  SC 472957101 1135650637 4212757570 185931877 2096733734 4238795506 481917546 1405180051 925427330 1923351053 2204480714 3944038373 372144582 3395978522 3795034464 1074487901;
  SC 227727393 2219043153 2909459085 3082645761 1970114976 3426610084 35253812 3123666967 4231900027 2888054525 2744804820 1500359618 191232240 3239664209 1569663960 1330983134;
  SC 996304063 2759713926 1022152104 4268512678 2870837640 3507597858 1252922637 3276898019 3824649934 1524401760 2559990337 1660220688 2350855385 609332995 2406016501 2406242521;
  SC 3333888266 3838886221 3016467419 3341790649 3667104212 783789160 1310400762 3633793516 4105695306 2973076533 455893547 2864660063 3696934279 2872882056 2264350097 539812697;
  SC 3263458726 2820785414 3760367911 628854049 1473785327 426717862 2025377226 3498407835 3577945153 1319190911 1062047947 3346460201 2590672215 2723591074 1487439866 4217021014;
  SC 2076058913 33130418 1949000294 3536165044 31327487 1891010986 2347335564 1669503944 3753248202 881959988 3846164684 3636142472 208517894 3407391141 3485893709 1074365179;
  SC 2175348532 3463201667 168136052 2889266255 4105885613 3068947090 2279310533 2649966235 828612565 2017635648 1260407590 1970316631 2447304459 2893112079 2425504835 1197046834;
  SC 2653983058 1419924288 2320709126 3640188854 2683911962 2643927342 3261193464 3929873787 2878724355 3436083049 3424148509 1311037973 3116391362 2037892948 454042580 970415398;
  SC 16199673 2464180001 89776423 672570852 2291071982 3899998968 4262439281 412856039 3677249728 1182323568 3472045521 3554674668 819725249 4078699211 2037243914 4166444096].

Definition static_row_55 : list ge_storage := [
  SC 1740919499 3877396933 2326751436 2985697421 1447445291 2255966095 1611141497 1834170313 3589822942 2703601378 299681739 3037417379 4014970727 2126073701 3064037855 2610138122;
  SC 2959647136 3814991611 764778261 1677371416 497556143 1000564042 4065791500 1027030318 2636763418 2469599275 839050056 4115114412 3982189672 2204140838 1747652790 3786215179;
  SC 3812425833 3703652912 1980699604 1506061914 2330998846 3874717363 20614012 1484655664 2896690261 1196646483 159078055 1300317512 2570981831 1267318554 3037645632 3117135345;
  SC 2012483448 279997059 1908492604 1638405820 284407565 1607271004 1423855670 3949669604 1635878907 4045715556 3600475894 3387647818 3950223476 3109131487 2524676171 3329048150;
  SC 3505120665 1999377488 158974979 636438923 1767149410 2424026197 532320013 3350230775 3506414357 999737675 3415715721 797201045 3439137094 3636888232 1001867404 1070514934;
  SC 803341976 972240723 2174569332 4037031657 720363583 1532359940 222173943 3948724459 669414977 446802288 4195328223 2316597014 3039478974 1217500351 1058613984 3974805650;
  SC 2497689022 832535973 4012390289 3862385792 473134599 855172718 3160709443 2946049581 1340978834 1282260619 3672935594 1114896253 1194768191 2151967837 3557909289 83919397;
  SC 2685697085 4183307820 393931333 2425217781 2950365274 2300063381 3990090983 1961757942 3357278228 2993935030 779960569 3652282828 1743505267 3193034940 2134245237 4042181132;
  SC 2449311128 4037657778 318968012 1098807866 3241626396 745989749 4126255071 850508142 4075976689 357235455 2000916706 3900438139 2804084317 3036848582 604252796 2006800965;
  SC 101955641 2732365617 2730133770 3908553062 2872853047 264325893 2086018926 546076667 582367640 2242336949 2223649162 1521240572 178342991 3408523296 2216853754 1636770650;
  SC 1697876449 998213608 2367869150 3635535434 3029347602 2697162358 300760335 3790588806 3127970813 157171921 2766714052 3441353031 3760111386 1962222723 1338315915 1705537099;
  SC 2069540711 3174156395 3834082852 2243125169 1332693007 1773075089 820191370 262117783 184405617 469065021 1286610377 946922506 2233109630 2803987975 489850357 3341265389;
  SC 3152895344 3190413328 1371373852 2133030998 2097773989 3484604561 3233580762 2103971308 580626917 3723142348 1233964596 2884246809 1451113068 2274332609 834566918 4166322862;
  SC 474309298 31198476 474732582 1614612386 2339718649 702598622 2007092771 1563921691 3096928870 2036801390 3171632090 2666464957 2581592302 84487705 4066440296 250703600;
  SC 2850943751 3355276358 3608928556 645558581 1754003398 2401097307 4007141515 2306720640 2585847442 2486681168 916961025 2906286711 2183350629 3403456959 1234360906 608407455;
  SC 3919397 2910764499 1130649170 2504839137 475960727 4198145923 3575554927 727034596 3487299979 2134210036 1295494166 1094003986 3153584442 1125501956 1050325095 3018071122].

Definition static_row_56 : list ge_storage := [
  SC 1456510740 215912204 253318863 2775298218 3073705928 3154352632 3237812190 434409115 3593346865 3020727994 1910411353 2325723409 1818165255 3742118891 4111316616 4010457359;
  SC 2413332453 1353953544 4051432026 303594340 1259813651 366336945 3380747343 2634392445 2066562619 120707135 1398541407 502464084 2984999938 3829298149 1120989122 3373752257;
  SC 1681071159 120984332 2029459879 1382039080 3634662556 54408822 48099449 1179080842 2669759950 3169946602 1520730683 3878549631 1666070500 1804495215 1101808889 1988315741;
  SC 1810699040 1982264875 1311915666 268159494 1265118580 1494821999 2740360551 3403457379 2370002476 3663200326 1969174367 2988878975 2261867571 1896957751 4228495601 268030737;
  SC 3788031612 1459331879 4195039120 148760443 2710036304 3803193725 2316636996 1290739855 2078515077 1158390637 187516666 1165781180 3871854912 2887741280 3432370474 3017515415;
  SC 2660400581 1115514969 819611304 2438542525 1149450061 641570348 4195260176 114239580 3415942550 2418164759 3596450733 4170880111 3742333800 707266970 294392938 1502400257;
  SC 4244209414 4144723933 1206802017 3395049043 1534528858 212213384 273948964 2465871688 98513287 526054552 101003852 2178852720 1739213138 2000068838 3443316390 2907641948;
  SC 4170329393 2397160575 698736458 1726629095 2059726015 608224441 940962377 3160021800 2474105021 1418624931 3220142189 3165061177 609263259 3526248509 2451110984 882122082;
  SC 1803413035 2626850042 3923382679 2501640460 887077755 2970691407 3982443858 546345352 545064661 1905866916 4137411501 4293519422 399697152 2101209662 4081268472 3745325674;
  SC 3913855272 3324082002 2401043817 1769760109 2460560183 875956117 1942607787 1641754800 1964565342 442388011 1687580604 293988342 3046598358 2835075967 920490836 349604594;
  SC 2643665013 1607952309 2279132309 992705865 1231530495 2682680275 2340070945 1036310446 2160469638 3849593659 569936175 133751759 1309000826 3681058360 1289881501 385711414;
  SC 1190130845 2798968177 277741425 3875973536 2502592372 251555512 1825737360 462006518 2334535950 3997809264 2012251623 3408888487 2549759312 3379458376 2301581275 4171117892;
  SC 1923456093 1653002750 3279649712 4281661052 1248011568 933375742 2109342469 751470571 2742486580 2572871261 3296809419 4075155428 3182626853 3435860599 3916597057 245531435;
  SC 514908612 2222061780 506774061 381342968 789366883 3683832850 9270407 528428861 590313143 483933274 1128871308 2791400346 3033966006 2397900561 174539653 2363998101;
  SC 3558289816 1015432688 3960686128 2087286003 446928557 4028273076 3055038539 885707705 942001648 3175434773 3929872598 2961036794 1122092143 2142675404 4054255588 1958229328;
  SC 2852327378 1383667573 3763466478 3195889922 2107642962 1739908882 157313327 492435243 4236498733 1510923342 3227437908 1896980749 154410481 2958311799 3270353062 1889012642].

Definition static_row_57 : list ge_storage := [
  SC 822693957 1703644293 3960229340 2092754577 3495958557 4288710741 4092815138 1275224613 2592916775 472063207 2931222331 2597044591 1261640449 1272207288 2040245568 1417421068;
  SC 57865933 2591783175 1332940705 2361514832 2842982424 2581566511 1328343723 3898369656 2090549923 2179715082 2370481583 775215786 3850307123 2489521783 3999750482 1014134079;
  SC 2011629934 1914036612 3406392133 1425412057 1338374071 683386303 3190457777 428137206 1251032257 3672462899 2593185313 1953316437 2123216916 3258622817 3197533388 3442579011;
  SC 265734183 884987600 2786263189 3536027957 3885575220 1854265340 3853595664 1987453181 2744740518 512197390 114481815 96285071 3293497789 4015333892 4092376929 3025411574;
  SC 612519829 3198151239 3191059512 226844204 3503855660 764021515 3628841562 3951882416 3622158804 3603368155 2780109382 822859403 25907739 3882220368 3789068172 1684074913;
  SC 3520260226 1656105499 1676578448 838040958 3130046810 995588852 3233766730 2629592527 3096399775 1659682138 1365617549 2450677843 1725372848 2623357383 1402837393 1993344168;
  SC 2434333993 2901722469 518468307 3322336116 3303354477 2422295273 3584734361 1255342255 2224600785 3752112711 3720624102 3425652159 3563799906 957522630 501907560 3362627156;
  SC 3271809032 2402529419 3935184016 3639910664 659985988 2584831332 1091987512 224789177 2944016703 3591574599 1273021052 967556634 1019501719 1864898605 3453844870 4011599553;
  SC 1326048883 3477092042 1799777609 296885426 1109310872 255028335 163456938 2108662143 3501831646 225777648 4099069764 3428610561 4069711767 3876386370 1215899260 369937558;
  SC 3466874302 1921411468 3753149186 3739960133 1909238781 2219053499 4040572016 1651280893 754573870 383500798 2400558032 922698902 2125517085 2541623325 2827334144 2773618829;
  SC 2040368526 2190975469 1347589661 1684817146 2021572959 1656810013 330975936 994237514 2596719101 3800849855 600269956 1857741551 3033366103 1496147464 2628189942 4210116847;
  SC 3076719908 2490548320 377911263 2002478742 2549252529 839159951 230337140 3095221595 1528132928 2083899038 2503451113 272698731 2624407067 161482016 4135914440 2519252428;
  SC 2556876861 2107629748 2377697213 1433609947 3343742332 3505415093 2690575000 2017949066 4133794057 4184820210 2960078982 1333558937 3733636790 3960011078 945143131 3343864106;
  SC 1801254589 1449097227 181948563 1034221031 1779862110 3141289560 3383585093 2578193674 554670851 2530857925 4076682145 2827602863 4244507626 2938597885 3223414171 2204001183;
  SC 291814305 2937237569 1434020428 3585179044 3677832974 2016114805 3981784693 538800869 2673738915 999373833 1457987857 3180983013 501300267 4103517997 997980659 1113009463;
  SC 3993610129 1037741502 330412440 2749687355 1555232145 1196959672 530284980 340384986 2298150586 3185141181 26985524 2219307959 2447245692 1065988754 1248620406 2208024308].

Definition static_row_58 : list ge_storage := [
  SC 3660855132 3816892380 3431508003 1440179111 768988979 3652895254 2084463131 3991218655 323118457 3675476946 2157306354 2684850253 1543808805 744627428 1091926767 3538062578;
  SC 2810298495 3411171710 4062828084 3003344135 3264709694 1048068132 3549102117 1927032841 3841604555 1360558064 2204714588 1197341693 3768005385 2899352192 2849083812 3793398404;
  SC 3631867959 3146872034 420513606 2446059169 2652499910 429155541 748397809 3543114527 235482177 894763888 1086818023 3285579564 1810274445 1142434275 140188668 4059040723;
  SC 2682453748 1595694625 17869409 4001607469 759206176 3336900820 3693692341 2473365492 2714988574 637563477 4105755464 3161387095 2814461644 4283494186 3858290792 1516784203;
  SC 4062605051 1956634460 3701616314 2342355265 1267526896 464674235 2247549950 3633206724 296547100 2905295542 4077085273 2746567644 1803616500 918536622 2709233803 2413530101;
  SC 1383097263 1316928613 759541292 3793001510 257497874 3658838865 3213596633 3650670599 63812226 1947202098 3651967368 2399936732 2521262969 322630211 4004516883 1422335688;
  SC 2852550033 3224936812 733055828 3325391168 1930707186 731324754 3498518219 4117056191 2179511600 2761523161 4282458808 3042559735 2438675720 2532100345 3706723018 4059342362;
  SC 2048163474 1848349034 3258863528 3644103333 1151231486 3308192205 2814277731 4197063636 3510455851 1315219655 2185965649 3799505477 4254363720 3128925961 1852465545 4138612075;
  SC 960983998 3301464188 2737893955 1522861436 4164105020 1184099683 64022400 2368856028 326418376 2065332946 2081529277 3466798514 208026276 417986090 3587033208 2294843214;
  SC 2712989146 349068332 3978782854 1513755929 4281030368 4041238337 1631550267 936378809 3831648862 1780262732 3189639539 328937247 722753719 3671027558 215485348 294998383;
  SC 170533035 3100330628 2519007245 2729143680 1780483799 1771308699 777046078 1252661309 944830935 3219243484 2959537667 145170296 892161275 1151850054 2176346749 598783080;
  SC 3596882604 51304713 1277701547 3288737023 2143659411 1229626338 2504854740 2518260221 2909459409 3820898741 1076396276 3330086214 2070741501 1675949151 4169029889 2072266145;
  SC 3395707749 1912264784 839246291 1812660322 2590197689 3115125394 280633483 1476186344 2182942190 4022517575 1314348304 2211853573 1730367526 3842875309 1411362967 749836026;
  SC 822183119 2084092802 2957672615 1548122281 2555590320 4127903458 704941703 3216796016 1310798669 1681974379 2704001393 836064664 2498528840 2878347924 3344415063 1714110968;
  SC 3763417450 1647484613 2916400914 1340277384 3671023234 2962715012 2086976330 2356641838 861453503 2497852292 3384683911 2044029625 3423593678 602612346 1947876325 1071593133;
  SC 502143537 3800930061 289630048 2019675509 690814111 1395759030 2095320716 1658529388 2140950369 4113871752 2130755443 1184235968 2624156111 1053548247 1666584094 3436241707].

Definition static_row_59 : list ge_storage := [
  SC 2819478132 2629026829 2945562911 1854605392 41922071 2531530491 2316774439 3550381961 1180787169 3914439365 3786421842 3441223373 494782102 2858003292 1448968751 2940369046;
  SC 1228705098 2320747717 1742025124 3358828738 1857762103 2669617968 2684123743 2427291148 3948024171 3841263454 3817968782 3617000488 3457510946 3443415072 3976288418 291039859;
  SC 1118114309 1364783097 3986370035 1058514953 3723130907 2966082807 1592373613 4029958112 1261460522 159904028 385928252 2962822321 213058425 39305506 3400567258 2953928339;
  SC 4004285350 3275325131 2912133301 482119944 699333459 1353300830 498723416 2738735797 3773472794 1167510524 1995708610 1872986795 1771998886 460328822 2566240531 3665251184;
  SC 870908870 249845288 3674648542 3670939624 3213883826 2765218754 3292181727 1765634472 2846619223 156162860 2158300764 3792761756 4248292998 1588571137 1696144875 2915693433;
  SC 1257645965 743351844 3299328612 1606739395 2242479072 526126122 3132670209 2327012389 1257540758 1688790030 864103666 1782879705 2344074317 878043196 569218289 3875319913;
  SC 676712446 2310487862 3297058723 154140360 1534807165 2207878247 4002312458 1195155314 3973562995 203866583 1307033594 1808951889 3485439766 2123920858 3400721970 628518531;
  SC 453432196 3506137302 962794710 2800823697 944975983 445662356 620440622 225699982 1038708892 3484553780 4174808994 3862318255 1961625058 2183421173 2682639230 3890472885;
  SC 3472048934 1436162338 4281682055 1419885595 1926695253 861477946 2586543901 2286266784 2854911092 1779735787 2994125983 2248840912 677288518 3593153557 3383199489 2094768467;
  SC 971218259 3653638590 3374334294 479058129 1331477004 2497262229 892109896 3651901580 1455849852 2738531309 14202660 1968080740 1927308794 897128363 3654300057 1275380700;
  SC 684658124 660984744 2929312783 1473333980 1562502960 656352357 338449257 2159155320 2425193686 930413364 2001285554 307432757 2238003500 1858295105 481986971 1067622012;
  SC 943383548 127299943 2909652237 1257655712 4123282405 78394323 1736026340 2126927829 296638455 1861436609 641299684 636649068 3331138991 1014270261 257248847 1556179874;
  SC 2668740334 4261010365 3376970497 2258271000 3369826513 906131732 12531263 2501581679 861444520 2059219969 3536488433 3392343056 3231250347 3425501702 4204845226 3883035310;
  SC 875006280 3061145215 799684212 4150716124 1344915012 1442298502 887378800 2722425542 4141895498 4068116328 601774281 3538746538 1671758462 3066546971 1116345758 554718074;
  SC 1149406575 702696847 505403366 331269161 664926760 2151357672 2890104906 3156886545 1199701084 1614409973 4222014462 1336462493 3214687968 1279434993 2285235388 2975474024;
  SC 2419658919 481424988 2207220911 2736159805 4086711147 477511738 1428567116 3971000648 429362137 3495313342 3653961670 4170077754 2057308114 1445981917 97057494 3847612010].

Definition static_row_60 : list ge_storage := [
  SC 3017729014 3423125690 1534829496 1346803271 888659105 1661894766 4165031912 697485157 3575889724 1795181757 1507549874 1480154979 3565672142 830054113 1507719534 3652903656;
  SC 4123340423 2168639254 3491407759 395600125 2056091205 1233197217 2716612715 3263564356 2257286689 2753339767 2228663460 3584404544 3972978154 3637886739 3854541466 1603898424;
  SC 641806023 3776877383 3574980110 2564901152 1378226343 738790225 4030459977 2255719927 295765315 60094770 422069111 439158593 3956842123 1242303994 150522972 3682386439;
  SC 2385589330 2076597417 605447848 3200763641 3106877254 3374069827 3828392492 1315607291 3211667999 305089333 179172787 3225149656 1080822644 3286534940 2231515542 2699760148;
  SC 3983719183 1208009460 767048521 326825213 1087716958 3599826498 3107818740 2785268698 1304576537 1847155836 3250405674 2694326935 2163030471 3253944705 1698753082 3845065767;
  SC 2823293375 2790862099 1207038844 3886043838 3567640686 3799791258 1638354726 1428653770 2075289233 1582582790 213364421 2858522524 2809903954 1742449197 324107072 1051562955;
  SC 2291926834 1805734123 3420689573 1003089617 476535216 1334543097 2045923069 2990972415 1822043289 2128934150 3541372378 1912558832 2295908612 1500502429 3539272060 2641558214;
  SC 3069594753 3051481608 2339450545 2054924228 4282917353 65440790 2134400604 3588265957 2569563771 741034486 740973978 93172292 1583303041 2980574219 2969067524 1088571815;
  SC 78721532 1566330912 1219109269 3229207312 2345730495 3209647323 2033975193 1009666575 2794060854 4218956981 3379703631 2400336569 100401885 3519721431 4007729122 3851183625;
  SC 2344993313 2454241381 3071516966 4207668067 250885582 1733938903 1658948056 2192440210 1717829063 849763004 2334162093 3715296533 1757279167 3270001477 2677428083 4197601814;
  SC 2911676146 4069956071 3299890629 3133371278 3551760603 558967408 205243474 237180706 4227661901 390685951 658498389 225847327 3028263358 3941067795 1850521034 1584413524;
  SC 304549398 3089811378 549382137 2353383127 2278640956 781853185 1734676013 3311472816 957105351 1291924767 2025324585 3897237789 80455313 302089802 3496158310 4000611245;
  SC 1221283087 3865703766 1551786763 3208862988 2964616465 1429406173 2847895093 3047143885 3187847794 3875229246 2044093786 2855772466 2252977997 1253496627 1824313803 3492626272;
  SC 1435191953 2954553263 3689501374 3761866706 3160683386 2172174457 4033800334 2293562561 500568896 2877151546 112648553 2760351679 1976713840 2960166087 1364536484 4127293522;
  SC 2942286091 3570696800 2680748212 879905933 371824626 2796545677 2544287558 1654320774 3724452395 1875952433 1755420330 700510406 2122483560 357724466 2579725929 4152935597;
  SC 732269412 3045632405 947036931 2403831527 2919479301 2947112020 1653738112 2316444303 3103978479 2856978461 308282125 1154683958 2086296447 1288456128 528614237 2945631134].

Definition static_row_61 : list ge_storage := [
  SC 3751554592 1759634227 4138518211 3130599659 3881948336 669688286 3672211577 695226401 1226786139 1855160209 905875552 2831529665 1625185017 3130043300 3227522138 3659203373;
  SC 399372699 529779700 1206056828 1867177702 196488961 2148657353 2522788662 2308787051 1566407979 857878238 2852634973 2131204123 2812808340 3651465982 1947448513 3757182587;
  SC 3732610632 1025396308 60450219 3075208965 2460440177 301478800 2020185415 2910424285 1627945543 473410099 4114096970 2440686062 3031404169 2099206907 1232790956 2248800462;
  SC 2343232878 1198836246 1270188071 2305538045 1841160260 1049160535 2935147928 3818293360 2128394208 692132409 3183837651 981952986 3501941431 1239605342 1265208179 225920797;
  SC 1958540456 418545838 1645667403 4203505141 81660142 351421726 2877676470 871152679 2804776066 431108218 927442607 3782508732 318483929 4079394971 1143889788 4195920424;
  SC 2351179626 1598459225 3579449038 4292231882 2911534527 3174868713 2883217980 1046921244 3074833211 117299980 3425406982 2813303717 879305153 3439142119 1270010014 2633468950;
  SC 3394012837 1133386629 2931266329 2512080059 3268046571 585832644 1151303760 4164956195 1787214290 3523549326 4139598868 530139359 2107355242 1401770006 4264627539 3014221080;
  SC 1988836761 3474599222 2535855552 3118306895 1953046625 30632894 8987922 1482010220 1585584845 441041520 3045700482 362734762 3723600227 1056985402 2472480517 3558297033;
  SC 4137318322 915055827 1432589840 3550795442 1919127293 1256417138 946345068 1353195020 2948635882 3916808200 3223857138 2259986522 636089773 2116476405 266813303 3992924481;
  SC 1294364269 2282087282 719947200 1065389577 67185303 600695627 3423704882 507439949 1464333499 954935833 1949391476 2146234814 640934838 2477152026 3767255766 2397668523;
  SC 1825548026 2780595753 282065873 3347141416 3152283414 1656153711 1047376382 3616949007 464657631 3299783240 1162505878 3862534742 3899846651 3980167606 2513773976 1803555687;
  SC 734708953 181663675 2018505992 1055015000 2266993350 3679506170 1032089726 2239152753 3271229362 257492591 519168390 890304984 594386284 933877218 2646719799 439652468;
  SC 1253204385 2215899770 848155650 1305331452 1831981169 4101626048 253253616 718148001 3846087699 2362703617 564971301 878503956 2792594154 3831500219 630060686 2654848235;
  SC 2082956373 965635733 1172460454 3057130868 485386699 558270142 2819896785 247008390 1884023798 3291747866 1725636793 1552257124 171155452 894504521 3157754944 4135144713;
  SC 3013624247 3479051648 3976465681 139584997 690715168 2972053528 2543659091 81834710 261064551 1476481099 2550215537 1381589752 3557508349 3578290922 1272133161 3008228265;
  SC 3507369103 1077600519 1522596015 3088783267 2852999673 751358577 733140212 3467225217 100497019 50410977 68742811 3090618848 1603912616 2272476179 1767751118 3249696448].

Definition static_row_62 : list ge_storage := [
  SC 2950670644 1870384244 3964091927 4110714448 298132763 3177974896 3260855649 1258311080 2976836646 3581267654 3094482836 80535005 2024129606 168620678 4254285674 2577025593;
  SC 1515179601 3578614970 3088354879 797813018 1355130048 1083957563 119796717 2021253602 1525138732 4127381203 3062851977 4142386071 1213064952 3609844670 1484215992 3431673114;
  SC 1401099367 3953214819 830584870 2207781603 918659453 4293181358 4072336467 4282551694 262435288 1941569548 147995405 1811389750 4118444114 1252574507 578798636 1074483177;
  SC 2872591360 1058667772 16799222 688522560 3475129040 3433794124 1076991040 1425059515 2939587530 236447274 3960100164 1298525395 2761371754 4025787449 2464666072 3981743594;
  SC 3976786453 1358319886 3905641993 1405765539 2585003073 3447572652 741448872 3444688769 971292808 1486657617 3079335839 862424956 248802634 1703726921 2982469234 2682500687;
  SC 4273605693 2467118193 3538801384 3862847335 1065478730 1602785515 1071410798 2624755760 2768741032 2700950902 558848464 3400938789 1410632048 2094050860 1686695852 2101955993;
  SC 4124709913 3191744141 3038636619 2944952304 2687117769 1502766822 14738299 223780235 32298390 1195949618 1154476371 1873391152 273358443 2362272244 509120994 606974408;
  SC 3937286725 1520668653 941545039 3056942351 574018151 2549472282 82289937 374652507 619831005 2134744303 1462663193 2963006112 3726585674 1797461239 1470634776 3441417480;
  SC 2845288945 3925574221 1989126288 3105801567 210047271 1545005898 2572648420 2278643173 2633053858 3288168184 3566345146 165026071 191806458 4116335861 1768316231 3169297484;
  SC 253765755 2509241970 1926513613 3735004917 4188741775 2806800711 281300019 3635185 3462483807 2277745510 1708651892 1413928970 56262931 531946794 2864634184 3118504241;
  SC 4194010611 4232988065 1802432341 3448133339 3732370320 253801846 2726367450 3905836819 1373544282 2066678017 3439519431 3381452691 2754663978 535580478 2512241599 2720083475;
  SC 3589933363 4047249230 2311777188 270484672 1108190662 2080251561 1724842405 4014518744 1593608472 2342434397 4205240553 2166622191 3528923 1996089122 4284726332 989608730;
  SC 2475269743 4230552139 3917936952 3098769598 3209444661 4188126675 3974782724 3639917274 2711234947 1439392508 1127433801 478802541 4223040451 2268034322 2452212595 3508939070;
  SC 2413851784 190519100 3576747926 2710481928 2148944938 3984096005 2427227598 1001464024 2191178977 1139441673 3841324161 308061908 3976150834 1467800561 3226772030 1743883019;
  SC 281260179 1415659644 915707047 1662956706 911938094 3456789397 2082200558 947098788 4036848108 2455542339 1466205449 4158358953 586549709 850657486 61343079 2292663847;
  SC 3487862268 4116082621 1969417576 1466595601 3136251120 3697533272 438943523 1041892750 1141661777 435333448 3031876514 2121342186 209290199 256519609 1400190683 4260080502].

Definition static_row_63 : list ge_storage := [
  SC 1406628534 2978091511 343468499 973866526 757277528 1142388839 2945536141 3759469101 3001571847 2170606364 1017327004 3120716036 468321128 3656061918 2331571461 1930702552;
  SC 3117811324 4230396490 526101390 3589443580 12282838 3055128772 453582536 750425919 87216299 1999749165 2446098001 1907762611 183870981 3643605669 4232900175 2946539195;
  SC 3903405291 1034986659 2587588236 1880077572 1696686560 1243434386 3746745675 2212912696 2031851135 575946730 2663616094 2706019532 2635197066 1942621203 3760379195 4173271368;
  SC 2892050679 1105289247 1519565685 2426902952 65580444 3373395323 2112756687 3658806066 2548718870 3586646888 3350821933 1921239811 4061525916 3520594550 1872307168 3464547908;
  SC 2889143489 489507550 788811400 1800916293 3249681744 1400920516 3917828215 1093821500 1905385813 2931012984 1800788801 1697549042 3133274419 3606456099 2156683634 3205410986;
  SC 2814687995 4053305746 484530004 410862009 246830045 3164065541 3723774424 3388961612 3438413619 3662326637 2178649434 3555798301 164350275 2341607004 3896269562 1591806179;
  SC 3226183767 3881369008 700458770 376569395 2607908019 1353553198 2636334721 1140283021 2632309194 1710844790 3031461719 4081969123 3326745889 4034909949 3950856167 3153389256;
  SC 2184243175 2166726232 3921103433 872887260 623636347 95935618 2766774027 697875047 164043041 993154257 4114304816 3500729957 409872172 3504722710 2806324915 717798207;
  SC 1913401183 1684394893 957780895 2366199383 3846687839 2225031745 50628017 764720583 2251658783 1601491318 3836612294 3836982164 1834686310 4239983357 2677791106 718595268;
  SC 641418698 3008658673 1590313857 1025261614 1545641278 883067087 405447843 251932751 890679795 1380695500 4259157180 4219905082 665298826 4240175069 1720908833 2268480568;
  SC 1323007329 2757671761 531677728 1863777888 1512057206 2416428007 297355401 2843988168 3028483811 4269951770 844221740 1060678479 2913804270 3550002834 1490208797 2041637686;
  SC 4098631786 3088674341 2277647863 546429701 239595915 96051385 2043858235 356783975 3081379864 1495630942 1713035648 2797737429 4252005067 1174473008 182861961 1284115192;
  SC 1497340893 2990980382 435071738 25048206 1369038540 2388914024 3985375113 3187649864 1375850783 2762762203 3714513839 1546363407 2343675571 416152492 1797618344 3540898582;
  SC 2184924310 2347360549 640504537 1253044800 1440674061 1666425671 3827600864 2022304946 2918906490 263308814 3892002350 1942380643 1520343008 1245225248 3081248535 2098883649;
  SC 2377054091 3295547231 2240796492 1757295037 62158041 1809272299 4005194159 1592984938 366675588 3144502911 2973082795 4105706826 2851896979 3262002710 3082369242 634669574;
  SC 729159370 3948971047 1511320403 3061460707 3090283349 1868816562 3759558902 3868199437 2438888892 1660478281 2415784493 3546303863 3144683831 3066258755 2228021651 3294706852].

(** static const secp256k1_ge_storage secp256k1_ecmult_static_context[64][16] *)
Definition static_rows : list (list ge_storage) := [
  static_row_0; static_row_1; static_row_2; static_row_3; static_row_4; static_row_5;
  static_row_6; static_row_7; static_row_8; static_row_9; static_row_10; static_row_11;
  static_row_12; static_row_13; static_row_14; static_row_15; static_row_16; static_row_17;
  static_row_18; static_row_19; static_row_20; static_row_21; static_row_22; static_row_23;
  static_row_24; static_row_25; static_row_26; static_row_27; static_row_28; static_row_29;
  static_row_30; static_row_31; static_row_32; static_row_33; static_row_34; static_row_35;
  static_row_36; static_row_37; static_row_38; static_row_39; static_row_40; static_row_41;
  static_row_42; static_row_43; static_row_44; static_row_45; static_row_46; static_row_47;
  static_row_48; static_row_49; static_row_50; static_row_51; static_row_52; static_row_53;
  static_row_54; static_row_55; static_row_56; static_row_57; static_row_58; static_row_59;
  static_row_60; static_row_61; static_row_62; static_row_63].

Definition ecmult_static_context : list ge_storage := concat static_rows.
