(* ===== verification/GenPoints.v ===== *)
(** * The points of the generator's table

    What the rows of secp256k1_ecmult_gen's table should hold: multiples of the
    generator, offset by multiples of a second point so that no entry is the
    point at infinity; and the comparison of the static table with them. *)

From Stdlib Require Import Zmod Ring Field.
From Bignums Require Import BigZ.
From S2P Require Import Prelude Limbs Primality Curve CurveGroup CurveOrder ModExp Field5x52 FieldImpl Group GroupLaw Ecmult StaticTable.

#[local] Hint Resolve gen_on_curve zmul_on_curve pneg_on_curve padd_on_curve : core.

(** The curve point whose abscissa is a string, plus the generator. *)
Definition unknown_x : Z := 38178729326982444122383317831845066866193291788188718717568782830222514812782.
Definition unknown_y : Z := 18508992193799601798064500447284758892395853603883572048814294621896803086862.
Definition unknown : point := Some (Zmod.of_Z fp unknown_x, Zmod.of_Z fp unknown_y).
Definition nums : point := padd unknown gen.

Lemma unknown_on_curve : on_curve unknown.
Proof. apply Zmod.to_Z_inj. vm_compute. reflexivity. Qed.

Lemma nums_on_curve : on_curve nums.
Proof. apply padd_on_curve; [apply unknown_on_curve|apply gen_on_curve]. Qed.
Lemma zmul_pos p P : zmul (Zpos p) P = pmul p P.
Proof. reflexivity. Qed.
#[local] Opaque zmul nums.
#[local] Hint Resolve nums_on_curve : core.

(** By the head of the point, so that two points are never compared. *)
Ltac oncurve := repeat match goal with
  | |- on_curve (padd _ _) => apply padd_on_curve
  | |- on_curve (zmul _ _) => apply zmul_on_curve
  | |- on_curve (pneg _) => apply pneg_on_curve
  | |- on_curve gen => exact gen_on_curve
  | |- on_curve nums => exact nums_on_curve
  | H : on_curve ?P |- on_curve ?P => exact H
  end.

(** The offset of row [j], as the code computes it. *)
Definition next_offset (j : nat) (n : point) : point :=
  let n := padd n n in if Nat.eqb j 62 then padd (pneg n) nums else n.

Fixpoint offset (j : nat) : point := match j with O => nums | S j => next_offset j (offset j) end.

Definition base (j : nat) : point := zmul (16 ^ Z.of_nat j) gen.

(** Entry [i] of row [j]. *)
Definition entry (j i : nat) : point := padd (offset j) (zmul (Z.of_nat i) (base j)).

Lemma offset_on_curve j : on_curve (offset j).
Proof. induction j as [|j IH]; cbn [offset]; [apply nums_on_curve|]. unfold next_offset. destruct (Nat.eqb j 62); auto. Qed.
Lemma base_on_curve j : on_curve (base j).
Proof. unfold base. auto. Qed.
#[export] Hint Resolve offset_on_curve base_on_curve : core.

Definition factor (j : nat) : Z := if (j <? 63)%nat then 2 ^ Z.of_nat j else 2 ^ (Z.of_nat j - 63) * (1 - 2 ^ 63).

Lemma factor_S j : factor (S j) = if Nat.eqb j 62 then 1 - (factor j + factor j) else factor j + factor j.
Proof.
  unfold factor. destruct (Nat.eqb_spec j 62) as [->|Hj]; [reflexivity|].
  destruct (Nat.ltb_spec j 63), (Nat.ltb_spec (S j) 63); try lia.
  - rewrite Nat2Z.inj_succ, Z.pow_succ_r by lia. lia.
  - replace (Z.of_nat (S j) - 63) with (Z.succ (Z.of_nat j - 63)) by lia. rewrite Z.pow_succ_r by lia. lia.
Qed.

Lemma offset_value j : offset j = zmul (factor j) nums.
Proof.
  induction j as [|j IH]; [by rewrite zmul_1|]. cbn [offset]. unfold next_offset. rewrite IH, factor_S.
  destruct (Nat.eqb j 62); rewrite <- zmul_add by apply nums_on_curve; [|reflexivity].
  rewrite <- zmul_opp by apply nums_on_curve. rewrite <- (zmul_1 nums) at 2. rewrite <- zmul_add by apply nums_on_curve.
  apply (f_equal (fun k => zmul k nums)). lia.
Qed.

Lemma base_S j : base (S j) = zmul 16 (base j).
Proof. unfold base. rewrite <- zmul_mul by apply gen_on_curve. apply (f_equal (fun k => zmul k gen)). rewrite Nat2Z.inj_succ, Z.pow_succ_r by lia. lia. Qed.

Lemma entry_S j i : entry j (S i) = padd (entry j i) (base j).
Proof.
  unfold entry. rewrite Nat2Z.inj_succ, zmul_succ, (padd_comm (base j)), padd_assoc by auto. reflexivity.
Qed.

(** ** No entry is the point at infinity *)

Definition jneg (J : jac) : jac := match J with Some (X, Y, Z) => Some (X, BigZ.sub BigZ.zero Y, Z) | None => None end.

Lemma jneg_spec J P : jrep J P -> jrep (jneg J) (pneg P).
Proof.
  destruct J as [[[X Y] Z]|], P as [[x y]|]; [|done..]. intros (Hz & HX & HY). cbn [jneg pneg jrep]. rewrite B_sub, HY.
  replace (B BigZ.zero) with 0%F by (unfold B; by rewrite BigZ.spec_0). split; [done|]. split; [done|]. ring.
Qed.

(** ** The entries of a table *)

(** A packed entry stands for a finite point. *)
Record entry_ok (s : ge_storage) (P : point) : Prop := {
  en_x : sto_ok (ges_x s); en_y : sto_ok (ges_y s);
  en_mag : ge_mag (ge_from_storage s); en_rep : ge_rep (ge_from_storage s) P; en_finite : P <> None;
}.

Definition word_ok (w : Z) : bool := (0 <=? w) && (w <? 2 ^ 64).
Definition sto_okb (s : fe_storage) : bool := word_ok (s0 s) && word_ok (s1 s) && word_ok (s2 s) && word_ok (s3 s).

Definition entry_match (J : jac) (s : ge_storage) : bool :=
  match J with
  | None => false
  | Some (X, Y, Z) =>
    let x := BigZ.of_Z (sto_val (ges_x s)) in let y := BigZ.of_Z (sto_val (ges_y s)) in
    sto_okb (ges_x s) && sto_okb (ges_y s) &&
    let ZZ := bmul Z Z in bzero (BigZ.sub X (bmul x ZZ)) && bzero (BigZ.sub Y (bmul y (bmul Z ZZ)))
  end.

Lemma sto_okb_spec s : sto_okb s = true -> sto_ok s.
Proof.
  unfold sto_okb, word_ok. rewrite !andb_true_iff, !Z.leb_le, !Z.ltb_lt. intros [[[[] []] []] []]. by split.
Qed.

Lemma F_from_storage s : sto_ok s -> fe_mag 8 (fe_from_storage s) /\ F (fe_from_storage s) = Zmod.of_Z fp (sto_val s).
Proof.
  intros (Hm & Hv & _)%from_storage_spec. split; [by eapply fe_mag_weaken|]. unfold F. by rewrite Hv.
Qed.

Lemma bzero_sub a b : bzero (BigZ.sub a b) = true -> B a = B b.
Proof.
  rewrite B_zero, fld_eqb, B_sub. intros H. transitivity (B a - B b + B b)%F; [ring|rewrite H; ring].
Qed.

Lemma B_of_Z z : B (BigZ.of_Z z) = Zmod.of_Z fp z.
Proof. unfold B. by rewrite BigZ.spec_of_Z. Qed.

Lemma entry_match_spec J s P : jrep J P -> entry_match J s = true -> entry_ok s P.
Proof.
  destruct J as [[[X Y] Z]|], P as [[x y]|]; [|done..]. intros (Hz & HX & HY). cbn [entry_match].
  rewrite !andb_true_iff. intros [[Hx%sto_okb_spec Hy%sto_okb_spec] [EX%bzero_sub EY%bzero_sub]].
  destruct (F_from_storage _ Hx) as [Hmx Hvx]. destruct (F_from_storage _ Hy) as [Hmy Hvy].
  rewrite !B_mul, B_of_Z, HX in EX. rewrite !B_mul, B_of_Z, HY in EY.
  split; [done|done|done| |done]. cbn [ge_rep ge_from_storage ge_x ge_y ge_inf]. rewrite Hvx, Hvy. split; [done|].
  split; symmetry.
  - apply (fld_cancel (B Z * B Z)%F); [by apply fld_mul_nz|]. by rewrite !(Zmod.mul_comm (B Z * B Z)%F).
  - apply (fld_cancel (B Z * B Z * B Z)%F); [by repeat apply fld_mul_nz|].
    rewrite !(Zmod.mul_comm (B Z * B Z * B Z)%F), EY. ring.
Qed.

Fixpoint row_match (l : list ge_storage) (J g : jac) : bool :=
  match l with [] => true | s :: l => entry_match J s && row_match l (jadd J g) g end.

Definition jnext (j : nat) (n u : jac) : jac :=
  let n := jdouble n in if Nat.eqb j 62 then jadd (jneg n) u else n.

Fixpoint rows_match (l : list (list ge_storage)) (j : nat) (g n u : jac) : bool :=
  match l with
  | [] => true
  | r :: l => Nat.eqb (length r) 16 && row_match r n g && rows_match l (S j) (jmul 16 g) (jnext j n u) u
  end.

Definition junknown : jac := jac_of unknown_x unknown_y.
Definition jgen : jac := jac_of gen_x gen_y.

Lemma junknown_spec : jrep junknown unknown.
Proof. apply jac_of_spec. Qed.
Lemma jgen_spec : jrep jgen gen.
Proof. apply jac_of_spec. Qed.
#[local] Opaque jrep.

Lemma static_rows_match : rows_match static_rows 0 jgen (jadd junknown jgen) (jadd junknown jgen) = true.
Proof. vm_compute. reflexivity. Qed.

Lemma row_match_spec l J g j i : jrep J (entry j i) -> jrep g (base j) -> row_match l J g = true ->
  forall k, (k < length l)%nat -> entry_ok (l !!! k) (entry j (i + k)).
Proof.
  revert J i. induction l as [|s l IH]; intros J i HJ Hg; cbn [row_match length]; [lia|].
  intros [Hf Hk]%andb_true_iff [|k] Hi.
  - rewrite Nat.add_0_r. by apply (entry_match_spec J).
  - rewrite Nat.add_succ_r. apply (IH (jadd J g) (S i)); [|done|done|lia].
    rewrite entry_S. apply jadd_spec; [unfold entry; auto..|done|done].
Qed.

Lemma rows_match_spec l j g n u : jrep u nums -> jrep g (base j) -> jrep n (offset j) -> rows_match l j g n u = true ->
  length (concat l) = (16 * length l)%nat /\
  forall k i, (k < length l)%nat -> (i < 16)%nat -> entry_ok (concat l !!! (16 * k + i)%nat) (entry (j + k) i).
Proof.
  intros Hu. revert j g n. induction l as [|r l IH]; intros j g n Hg Hn; cbn [rows_match length concat]; [split; [done|lia]|].
  intros [[Hl%Nat.eqb_eq Hr]%andb_true_iff Hk]%andb_true_iff.
  destruct (IH (S j) (jmul 16 g) (jnext j n u)) as [IH1 IH2]; [| |done|].
  { rewrite base_S, zmul_pos. apply jmul_spec; [apply base_on_curve|exact Hg]. }
  { cbn [offset]. unfold next_offset, jnext. pose proof (jdouble_spec _ _ (offset_on_curve j) Hn) as Hd.
    destruct (Nat.eqb j 62); [|exact Hd]. apply jadd_spec; [auto..| |exact Hu]. by apply jneg_spec. }
  split; [rewrite length_app; lia|]. intros [|k] i Hk' Hi.
  - rewrite lookup_total_app_l by lia. rewrite Nat.add_0_r. apply (row_match_spec r n g j 0); [|done|done|lia].
    unfold entry. by rewrite zmul_0, padd_0_r.
  - rewrite lookup_total_app_r by lia. replace (16 * S k + i - length r)%nat with (16 * k + i)%nat by lia.
    replace (j + S k)%nat with (S j + k)%nat by lia. apply IH2; lia.
Qed.

(** ** The static table holds the points *)

Lemma jnums_spec : jrep (jadd junknown jgen) nums.
Proof. exact (jadd_spec _ _ _ _ unknown_on_curve gen_on_curve junknown_spec jgen_spec). Qed.

Lemma base_0 : base 0 = gen.
Proof. apply zmul_1. Qed.

(** A table of secp256k1_ecmult_gen. *)
Record gen_table_ok (t : list ge_storage) : Prop := {
  gt_len : (length t = 1024)%nat;
  gt_entry j i : (j < 64)%nat -> (i < 16)%nat -> entry_ok (t !!! (16 * j + i)%nat) (entry j i);
}.

Lemma static_table_ok : gen_table_ok ecmult_static_context.
Proof.
  destruct (rows_match_spec static_rows 0 jgen (jadd junknown jgen) (jadd junknown jgen)) as [H1 H2];
    [apply jnums_spec|rewrite base_0; apply jgen_spec|apply jnums_spec|apply static_rows_match|].
  split; [exact H1|]. intros j i Hj Hi. apply (H2 j i Hj Hi).
Qed.

Lemma entry_finite j i : (j < 64)%nat -> (i < 16)%nat -> entry j i <> None.
Proof. intros Hj Hi. exact (en_finite _ _ (gt_entry _ static_table_ok j i Hj Hi)). Qed.

(** ** Property *)

(** The static table is right: its entry [i] of row [j] holds the reduced
    coordinates of [U_j + i * 16^j * G], a finite point of the curve, where the
    [U_j] are multiples of one point whose factors add up to zero. *)
Theorem static_table_correct :
  (length ecmult_static_context = 1024)%nat /\
  (forall j i, (j < 64)%nat -> (i < 16)%nat ->
    let s := ecmult_static_context !!! (16 * j + i)%nat in
    sto_ok (ges_x s) /\ sto_ok (ges_y s) /\ entry j i <> None /\ on_curve (entry j i) /\
    ge_rep (ge_from_storage s) (entry j i) /\
    entry j i = padd (zmul (factor j) nums) (zmul (Z.of_nat i * 16 ^ Z.of_nat j) gen)) /\
  foldr Z.add 0 (factor <$> seq 0 64) = 0.
Proof.
  destruct static_table_ok as [Hl He]. split; [exact Hl|]. split; [|vm_compute; reflexivity].
  intros j i Hj Hi. destruct (He j i Hj Hi) as [Hx Hy _ Hr Hf]. cbv zeta. split; [exact Hx|]. split; [exact Hy|]. split; [exact Hf|].
  assert (entry j i = padd (zmul (factor j) nums) (zmul (Z.of_nat i * 16 ^ Z.of_nat j) gen)) as E.
  { unfold entry, base. rewrite offset_value, <- zmul_mul by apply gen_on_curve. reflexivity. }
  split; [rewrite E; oncurve|]. split; [exact Hr|exact E].
Qed.

Lemma static_table_correct_witness :
  let s := ecmult_static_context !!! (16 * 63 + 15)%nat in
  sto_ok (ges_x s) /\ sto_ok (ges_y s) /\ entry 63 15 <> None /\ on_curve (entry 63 15) /\
  ge_rep (ge_from_storage s) (entry 63 15) /\
  entry 63 15 = padd (zmul (factor 63) nums) (zmul (Z.of_nat 15 * 16 ^ Z.of_nat 63) gen).
Proof. apply (proj1 (proj2 static_table_correct) 63%nat 15%nat); lia. Defined.
