(* ===== verification/EcmultGen.v ===== *)
(** * Multiplication of the generator

    [secp256k1/src/ecmult_gen_impl.h]: the context's table, static
    (USE_ECMULT_STATIC_PRECOMPUTATION) or computed, the blinding, and the
    multiplication in which every table entry of a row is read.  The retry
    loops of the blinding carry a fuel. *)

From S2P Require Import Prelude Bytes Limbs Primality ModExp Scalar4x64 Field5x52 FieldImpl Group Sha256 Ecmult StaticTable.

(** secp256k1_ecmult_gen_context: prec is NULL or [64][16] entries, row by row. *)
Record ecmult_gen_context := mkGen { prec : option (list ge_storage); blind : scalar; initial : gej }.

Definition ecmult_gen_context_init (ctx : ecmult_gen_context) : ecmult_gen_context :=
  mkGen None (blind ctx) (initial ctx).

(** ** The table *)

(** "The scalar for this x is unknown" *)
Definition nums_b32 : list Z :=
  [84; 104; 101; 32; 115; 99; 97; 108; 97; 114; 32; 102; 111; 114; 32; 116;
   104; 105; 115; 32; 120; 32; 105; 115; 32; 117; 110; 107; 110; 111; 119; 110].

Definition nums_gej : gej :=
  let nums_x := (fe_set_b32 nums_b32).1 in
  let nums_ge := (ge_set_xo_var nums_x false).1 in
  let nums_gej := gej_set_ge nums_ge in
  (gej_add_ge_var nums_gej nums_gej ge_const_g).1.

(** for (i = 1; i < 16; i++), [k] rounds from [i]; [o] is 16 j *)
Fixpoint prec_row (k i o : nat) (gbase : gej) (precj : list gej) : list gej :=
  match k with
  | O => precj
  | S k =>
    let r := (gej_add_var (precj !!! (o + i)%nat) (precj !!! (o + i - 1)%nat) gbase).1 in
    prec_row k (S i) o gbase (<[(o + i)%nat := r]> precj)
  end.

Definition double4 (g : gej) : gej := Nat.iter 4 (fun g => (gej_double_var g g).1) g.

(** for (j = 0; j < 64; j++), [k] rounds from [j] *)
Fixpoint prec_rows (k j : nat) (gbase numsbase : gej) (precj : list gej) : list gej :=
  match k with
  | O => precj
  | S k =>
    let precj := prec_row 15 1 (16 * j) gbase (<[(16 * j)%nat := numsbase]> precj) in
    let gbase := double4 gbase in
    let numsbase := (gej_double_var numsbase numsbase).1 in
    let numsbase := if Nat.eqb j 62 then
        let numsbase := gej_neg numsbase in (gej_add_var numsbase numsbase nums_gej).1
      else numsbase in
    prec_rows k (S j) gbase numsbase precj
  end.

(** The arrays of 1024 elements are locals. *)
Definition gen_table (precj : list gej) (pr : list ge) : list ge_storage :=
  ge_to_storage <$> ge_set_all_gej_var pr (prec_rows 64 0 (gej_set_ge ge_const_g) nums_gej precj).

(** ** Multiplication *)

(** for (i = 0; i < 16; i++) secp256k1_ge_storage_cmov(&adds, prec[j][i], i == bits) *)
Fixpoint cmov_row (k i o : nat) (table : list ge_storage) (bits : Z) (adds : ge_storage) : ge_storage :=
  match k with
  | O => adds
  | S k => cmov_row k (S i) o table bits (ge_storage_cmov adds (table !!! (o + i)%nat) (Z.b2z (Z.of_nat i =? bits)))
  end.

(** for (j = 0; j < 64; j++), [k] rounds from [j] *)
Fixpoint ecmult_gen_loop (k j : nat) (table : list ge_storage) (gnb : scalar) (adds : ge_storage) (r : gej) : gej :=
  match k with
  | O => r
  | S k =>
    let bits := scalar_get_bits gnb (Z.of_nat j * 4) 4 in
    let adds := cmov_row 16 0 (16 * j) table bits adds in
    ecmult_gen_loop k (S j) table gnb adds (gej_add_ge r (ge_from_storage adds))
  end.

Definition ecmult_gen (ctx : ecmult_gen_context) (gn : scalar) : gej :=
  let gnb := (scalar_add gn (blind ctx)).1 in
  ecmult_gen_loop 64 0 (default [] (prec ctx)) gnb (mkGeS (mkFeS 0 0 0 0) (mkFeS 0 0 0 0)) (initial ctx).

Definition ecmult_gen_context_is_built (ctx : ecmult_gen_context) : bool := if prec ctx then true else false.

(** The destination keeps its blinding when the source is not built. *)
Definition ecmult_gen_context_clone (dst src : ecmult_gen_context) : ecmult_gen_context :=
  match prec src with
  | None => mkGen None (blind dst) (initial dst)
  | Some p => mkGen (Some p) (blind src) (initial src)
  end.

Definition ecmult_gen_context_clear (ctx : ecmult_gen_context) : ecmult_gen_context := mkGen None scalar_clear gej_clear.

(** ** Blinding *)

Section Blind.
Context `{Host}.

(** do ... while (retry): a field element that is neither zero nor too large. *)
Fixpoint blind_field (fuel : nat) (junk : list Z) (rng : rfc6979) : option (fe * rfc6979) :=
  match fuel with
  | O => None
  | S fuel =>
    '(nonce32, rng) ← rfc6979_generate junk rng 32;
    let '(s, ok) := fe_set_b32 nonce32 in
    if negb ok || fe_is_zero s then blind_field fuel junk rng else Some (s, rng)
  end.

Fixpoint blind_scalar (fuel : nat) (junk : list Z) (rng : rfc6979) : option (scalar * rfc6979) :=
  match fuel with
  | O => None
  | S fuel =>
    '(nonce32, rng) ← rfc6979_generate junk rng 32;
    let '(b, retry) := scalar_set_b32 nonce32 in
    if negb (retry =? 0) || scalar_is_zero b then blind_scalar fuel junk rng else Some (b, rng)
  end.

(** [seed32] may be NULL; [junk] is what the hash buffers hold. *)
Definition ecmult_gen_blind (fuel : nat) (junk : list Z) (ctx : ecmult_gen_context) (seed32 : option (list Z))
    : option ecmult_gen_context :=
  let ctx := match seed32 with
    | None => mkGen (prec ctx) (scalar_set_int 1) (gej_neg (gej_set_ge ge_const_g))
    | Some _ => ctx
    end in
  let keydata := scalar_get_b32 (blind ctx) ++ default [] seed32 in
  rng ← rfc6979_initialize junk keydata;
  '(s, rng) ← blind_field fuel junk rng;
  let ctx := mkGen (prec ctx) (blind ctx) (gej_rescale (initial ctx) s) in
  '(b, rng) ← blind_scalar fuel junk rng;
  let gb := ecmult_gen ctx b in
  Some (mkGen (prec ctx) (scalar_negate b) gb).

(** With a static table, as libsecp256k1-config.h has it. *)
Definition ecmult_gen_context_build (fuel : nat) (junk : list Z) (ctx : ecmult_gen_context) : option ecmult_gen_context :=
  match prec ctx with
  | Some _ => Some ctx
  | None => ecmult_gen_blind fuel junk (mkGen (Some ecmult_static_context) (blind ctx) (initial ctx)) None
  end.

(** With a computed one. *)
Definition ecmult_gen_context_compute (fuel : nat) (junk : list Z) (precj : list gej) (pr : list ge) (ctx : ecmult_gen_context)
    : option ecmult_gen_context :=
  match prec ctx with
  | Some _ => Some ctx
  | None => ecmult_gen_blind fuel junk (mkGen (Some (gen_table precj pr)) (blind ctx) (initial ctx)) None
  end.
End Blind.
