(* ===== verification/EcmultGenLaw.v ===== *)
(** * Multiplication of the generator multiplies

    The offsets of the table's rows cancel and so does the blinding: a context
    whose table is right gives [gn * G] for every scalar, whatever its blinding
    value, and blinding anew keeps it so. *)

From Stdlib Require Import Zmod Ring Field.
From S2P Require Import Prelude Bytes Limbs Primality Curve CurveGroup CurveOrder ModExp Scalar4x64 Field5x52 FieldImpl Group GroupLaw Wnaf Ecmult EcmultTable EcmultLaw ScalarImpl Sha256 Nonces StaticTable GenPoints EcmultGen.

#[local] Opaque zmul nums gen.

(** ** Reading a row *)

Lemma sto_cmov_spec r a flag : 0 <= flag <= 1 -> sto_ok r -> sto_ok a -> fe_storage_cmov r a flag = if flag =? 0 then r else a.
Proof.
  intros Hf [] []. unfold fe_storage_cmov. rewrite !cmov_limb_spec by lia. destruct r, a. by destruct (flag =? 0).
Qed.

Definition ges_ok (s : ge_storage) : Prop := sto_ok (ges_x s) /\ sto_ok (ges_y s).

Lemma ge_storage_cmov_spec r a b : ges_ok r -> ges_ok a -> ge_storage_cmov r a (Z.b2z b) = if b then a else r.
Proof.
  intros [] []. unfold ge_storage_cmov. rewrite !sto_cmov_spec by (done || (destruct b; cbn; lia)). by destruct b, r, a.
Qed.

Lemma entry_ges_ok s P : entry_ok s P -> ges_ok s.
Proof. by intros []. Qed.

Lemma cmov_row_spec k i o t n adds : (forall i', (i <= i' < i + k)%nat -> ges_ok (t !!! (o + i')%nat)) -> ges_ok adds ->
  (i <= n)%nat -> cmov_row k i o t (Z.of_nat n) adds = if decide (n < i + k)%nat then t !!! (o + n)%nat else adds.
Proof.
  assert (forall k i adds, (n < i)%nat -> (forall i', (i <= i' < i + k)%nat -> ges_ok (t !!! (o + i')%nat)) -> ges_ok adds ->
    cmov_row k i o t (Z.of_nat n) adds = adds) as Hpast.
  { clear. intros k. induction k as [|k IH]; intros i adds Hn Ht Ha; cbn [cmov_row]; [done|].
    rewrite ge_storage_cmov_spec by (done || apply Ht; lia). destruct (Z.eqb_spec (Z.of_nat i) (Z.of_nat n)); [lia|].
    apply IH; [lia| |done]. intros i' Hi. apply Ht. lia. }
  revert i adds. induction k as [|k IH]; intros i adds Ht Ha Hn; cbn [cmov_row].
  { destruct (decide _); [lia|done]. }
  rewrite ge_storage_cmov_spec by (done || apply Ht; lia). destruct (Z.eqb_spec (Z.of_nat i) (Z.of_nat n)) as [E|E].
  - apply Nat2Z.inj in E. subst i. rewrite Hpast; [|lia|intros i' Hi; apply Ht; lia|apply Ht; lia].
    destruct (decide _); [done|lia].
  - rewrite IH; [|intros i' Hi; apply Ht; lia|done|lia]. replace (S i + k)%nat with (i + S k)%nat by lia. done.
Qed.

(** ** The sum of the offsets *)

(** The offsets of the rows before [j] add up to this multiple of [nums]. *)
Definition offsets (j : nat) : Z := if (j <=? 63)%nat then 2 ^ Z.of_nat j - 1 else 0.

Lemma offsets_S j : (j < 64)%nat -> offsets (S j) = offsets j + factor j.
Proof.
  intros Hj. unfold offsets, factor. destruct (Nat.leb_spec (S j) 63), (Nat.leb_spec j 63), (Nat.ltb_spec j 63); try lia.
  - rewrite Nat2Z.inj_succ, Z.pow_succ_r by lia. lia.
  - assert (j = 63)%nat as -> by lia. reflexivity.
Qed.

Lemma field_next x n j : 0 <= j -> 0 <= n -> x mod 2 ^ (j + n) = x mod 2 ^ j + field x j n * 2 ^ j.
Proof.
  intros Hj Hn. unfold field. rewrite Z.pow_add_r by lia.
  rewrite Z.rem_mul_r by lia. lia.
Qed.

Section Gen.
Context (t : list ge_storage) (Ht : gen_table_ok t).

Lemma gen_loop_spec k j gnb adds r a : (j + k <= 64)%nat -> limbs_ok gnb -> ges_ok adds ->
  gej_mag r -> gej_rep r (padd (zmul (a + sval gnb mod 2 ^ (4 * Z.of_nat j)) gen) (zmul (offsets j) nums)) ->
  let r' := ecmult_gen_loop k j t gnb adds r in
  gej_mag r' /\ gej_rep r' (padd (zmul (a + sval gnb mod 2 ^ (4 * Z.of_nat (j + k))) gen) (zmul (offsets (j + k)) nums)).
Proof.
  revert j adds r. induction k as [|k IH]; intros j adds r Hj Hg Ha Hm Hr; cbn [ecmult_gen_loop].
  { by rewrite Nat.add_0_r. }
  cbv zeta. rewrite get_bits_spec by (done || dlia).
  assert (0 <= field (sval gnb) (Z.of_nat j * 4) 4 < 16) as Hf by (unfold field; apply Z.mod_pos_bound; lia).
  set (n := field _ _ _) in *. replace n with (Z.of_nat (Z.to_nat n)) by lia. set (i := Z.to_nat n).
  assert (forall i, (i < 16)%nat -> entry_ok (t !!! (16 * j + i)%nat) (entry j i)) as He by (intros; apply Ht; lia).
  rewrite cmov_row_spec by (lia || done || (intros; eapply entry_ges_ok, He; lia)).
  destruct (decide _) as [Hi|]; [|lia]. replace (j + S k)%nat with (S j + k)%nat by lia.
  destruct (He i) as [Hx Hy Hem Her Hfin]; [lia|].
  assert (on_curve (entry j i)) as Hec by (unfold entry; oncurve; [apply offset_on_curve|apply base_on_curve]).
  destruct (gej_add_ge_spec r (ge_from_storage (t !!! (16 * j + i)%nat)) _ _ Hm Hem Hr Her ltac:(oncurve) Hec Hfin) as [Hm' Hr'].
  apply IH; [lia|done|by split|exact Hm'|].
  assert (entry j i = padd (zmul (n * 2 ^ (4 * Z.of_nat j)) gen) (zmul (factor j) nums)) as E.
  { unfold entry, base. rewrite offset_value, <- zmul_mul, padd_comm by oncurve. subst i. rewrite Z2Nat.id by lia.
    replace (2 ^ (4 * Z.of_nat j)) with (16 ^ Z.of_nat j); [done|]. by rewrite Z.pow_mul_r by lia. }
  rewrite E, padd_swap, <- !zmul_add, <- offsets_S in Hr' by (oncurve || lia).
  replace (4 * Z.of_nat (S j)) with (4 * Z.of_nat j + 4) by lia. rewrite field_next by lia.
  subst n. rewrite (Z.mul_comm (Z.of_nat j)) in Hr'. by rewrite Z.add_assoc.
Qed.
End Gen.

(** ** The context *)

Record gen_ok (ctx : ecmult_gen_context) : Prop := {
  gn_prec : exists t, prec ctx = Some t /\ gen_table_ok t;
  gn_blind : scalar_ok (blind ctx);
  gn_mag : gej_mag (initial ctx);
  gn_rep : gej_rep (initial ctx) (zmul (- sval (blind ctx)) gen);
}.

Lemma zmul_gen_congr a b : a mod order = b mod order -> zmul a gen = zmul b gen.
Proof. apply zmul_congr; [oncurve|done|apply gen_order]. Qed.

Lemma ecmult_gen_spec ctx gn : gen_ok ctx -> scalar_ok gn ->
  gej_mag (ecmult_gen ctx gn) /\ gej_rep (ecmult_gen ctx gn) (zmul (sval gn) gen).
Proof.
  intros [(t & Hp & Ht) Hb Hm Hr] Hg. unfold ecmult_gen. rewrite Hp. cbn [default].
  pose proof (scalar_add_spec gn (blind ctx) Hg Hb) as Hs. destruct (scalar_add gn (blind ctx)) as [gnb o].
  destruct Hs as (Hok & Hv & _). cbn [fst]. pose proof (scalar_ok_range _ Hok) as Hran.
  destruct (gen_loop_spec t Ht 64 0 gnb (mkGeS (mkFeS 0 0 0 0) (mkFeS 0 0 0 0)) (initial ctx) (- sval (blind ctx))) as [Hm' Hr'];
    [lia|apply Hok|by repeat split|done| |].
  { rewrite Z.mod_1_r, Z.add_0_r. change (offsets 0) with 0. by rewrite zmul_0, padd_0_r. }
  split; [exact Hm'|]. change (offsets (0 + 64)) with 0 in Hr'. rewrite zmul_0, padd_0_r in Hr'.
  change (4 * Z.of_nat (0 + 64)) with 256 in Hr'. rewrite Z.mod_small in Hr' by (unfold order in *; lia).
  rewrite (zmul_gen_congr _ (sval gn)) in Hr'; [exact Hr'|].
  rewrite Hv, Zplus_mod_idemp_r. f_equal. lia.
Qed.

(** ** Blinding *)

(** Candidates that the two loops accept. *)
Definition field_nonce (l : list Z) : bool := (be_val l <? fp) && negb (be_val l =? 0).
Definition scalar_nonce (l : list Z) : bool := (be_val l <? order) && negb (be_val l =? 0).

Lemma field_nonce_spec l : length l = 32%nat -> Forall byte_ok l ->
  let '(s, ok) := fe_set_b32 l in
  negb ok || fe_is_zero s = negb (field_nonce l) /\ (field_nonce l = true -> fe_mag 8 s /\ F s <> 0%F).
Proof.
  intros Hl Hok. pose proof (fe_set_b32_spec l Hl Hok) as H. destruct (fe_set_b32 l) as [s ok].
  destruct H as (Hm & Hv & -> & Hn). unfold field_nonce. destruct (Z.ltb_spec (be_val l) fp) as [Hlt|]; [|done].
  specialize (Hn eq_refl). assert (fe_is_zero s = (be_val l =? 0)) as ->.
  { rewrite <- Hv. by apply fe_is_zero_spec. }
  cbn [negb orb andb]. rewrite negb_involutive. split; [done|]. intros Hz. split; [by eapply fe_mag_weaken|].
  intros H0%F_zero. pose proof (be_val_range l Hok). rewrite Hv, Z.mod_small in H0 by lia. by rewrite H0 in Hz.
Qed.

Lemma scalar_nonce_spec l : length l = 32%nat -> Forall byte_ok l ->
  let '(s, over) := scalar_set_b32 l in
  negb (over =? 0) || scalar_is_zero s = negb (scalar_nonce l) /\ scalar_ok s /\
  (scalar_nonce l = true -> sval s = be_val l /\ sval s <> 0).
Proof.
  intros Hl Hok. pose proof (set_b32_spec l Hl Hok) as H. destruct (scalar_set_b32 l) as [s over]. destruct H as (Hs & Hv & ->).
  unfold scalar_nonce. rewrite is_zero_spec by apply Hs. pose proof (be_val_range l Hok) as Hr.
  destruct (Z.leb_spec order (be_val l)), (Z.ltb_spec (be_val l) order); try lia; [by split_and!|].
  rewrite Hv, Z.mod_small by lia. cbn [Z.b2z Z.eqb negb orb andb]. rewrite negb_involutive. split; [done|]. split; [done|].
  intros Hz%negb_true_iff%Z.eqb_neq. done.
Qed.

Section Blind.
Context `{Host}.
Variable junk : list Z.
Hypothesis junk_ok : length junk = 64%nat /\ Forall byte_ok junk.

Lemma advance_ok n g : rng_ok g -> rng_ok (advance n g).
Proof. revert g. induction n as [|n IH]; intros g Hg; cbn [advance]; [done|]. by apply IH, rfc_next_ok. Qed.

(** The loops stop at the first candidate they accept. *)
Lemma blind_field_spec n fuel g : rng_ok g -> field_nonce (candidate n g) = true -> (n < fuel)%nat ->
  exists m s, (m <= n)%nat /\ blind_field fuel junk g = Some (s, advance (S m) g) /\ fe_mag 8 s /\ F s <> 0%F.
Proof.
  revert n g. induction fuel as [|fuel IH]; intros n g Hg Hn Hf; [lia|]. cbn [blind_field].
  rewrite (generate_next junk junk_ok g Hg). destruct (rfc_next_ok g Hg) as (Hg' & Hl & Hok).
  pose proof (field_nonce_spec _ Hl Hok) as Hs. destruct (rfc_next g) as [l g'] eqn:E. cbn [fst snd mbind option_bind] in *.
  destruct (fe_set_b32 l) as [s ok]. destruct Hs as [-> Hs]. destruct (field_nonce l) eqn:Hl'; cbn [negb].
  - destruct (Hs eq_refl) as [Hm Hz]. exists 0%nat, s. cbn [advance]. rewrite E. split_and!; [lia|done..].
  - destruct n as [|n]; cbn [candidate] in Hn; rewrite E in Hn; cbn [fst snd] in Hn; [congruence|].
    destruct (IH n g' Hg' Hn) as (m & s' & Hm & Hr & Hs'); [lia|]. exists (S m), s'. split; [lia|]. cbn [advance]. rewrite E. done.
Qed.

Lemma blind_scalar_spec n fuel g : rng_ok g -> scalar_nonce (candidate n g) = true -> (n < fuel)%nat ->
  exists m b, (m <= n)%nat /\ blind_scalar fuel junk g = Some (b, advance (S m) g) /\ scalar_ok b /\ sval b <> 0.
Proof.
  revert n g. induction fuel as [|fuel IH]; intros n g Hg Hn Hf; [lia|]. cbn [blind_scalar].
  rewrite (generate_next junk junk_ok g Hg). destruct (rfc_next_ok g Hg) as (Hg' & Hl & Hok).
  pose proof (scalar_nonce_spec _ Hl Hok) as Hs. destruct (rfc_next g) as [l g'] eqn:E. cbn [fst snd mbind option_bind] in *.
  destruct (scalar_set_b32 l) as [s ok]. destruct Hs as (-> & Hsok & Hs). destruct (scalar_nonce l) eqn:Hl'; cbn [negb].
  - destruct (Hs eq_refl) as [Hm Hz]. exists 0%nat, s. cbn [advance]. rewrite E. split_and!; [lia|done..].
  - destruct n as [|n]; cbn [candidate] in Hn; rewrite E in Hn; cbn [fst snd] in Hn; [congruence|].
    destruct (IH n g' Hg' Hn) as (m & s' & Hm & Hr & Hs'); [lia|]. exists (S m), s'. split; [lia|]. cbn [advance]. rewrite E. done.
Qed.

(** The context that the blinding starts from: with a NULL seed it is reset. *)
Definition blind_base (ctx : ecmult_gen_context) (seed32 : option (list Z)) : ecmult_gen_context :=
  match seed32 with
  | None => mkGen (prec ctx) (scalar_set_int 1) (gej_neg (gej_set_ge ge_const_g))
  | Some _ => ctx
  end.

(** The key of the generator of nonces. *)
Definition blind_key (ctx : ecmult_gen_context) (seed32 : option (list Z)) : list Z :=
  be_bytes 32 (sval (blind (blind_base ctx seed32))) ++ default [] seed32.

Lemma blind_base_ok ctx seed32 : (exists t, prec ctx = Some t /\ gen_table_ok t) -> (seed32 <> None -> gen_ok ctx) ->
  gen_ok (blind_base ctx seed32).
Proof.
  intros Ht Hs. destruct seed32 as [seed|]; [by apply Hs|]. destruct (gej_neg_spec _ _ (gej_set_ge_mag _ g_mag) (gej_set_ge_rep _ _ g_rep)).
  split; cbn [blind_base prec blind initial]; [done|by repeat split|done|].
  change (sval (scalar_set_int 1)) with 1. by rewrite zmul_opp, zmul_1.
Qed.

(** The order of the two acceptances gives enough fuel. *)
Lemma ecmult_gen_blind_spec fuel ctx seed32 i j :
  (exists t, prec ctx = Some t /\ gen_table_ok t) -> (seed32 <> None -> gen_ok ctx) ->
  (forall l, seed32 = Some l -> length l = 32%nat /\ Forall byte_ok l) ->
  let g := rfc_start (blind_key ctx seed32) in
  field_nonce (candidate i g) = true -> scalar_nonce (candidate j g) = true -> (i < j < fuel)%nat ->
  exists ctx', ecmult_gen_blind fuel junk ctx seed32 = Some ctx' /\ gen_ok ctx'.
Proof.
  intros Ht Hs Hseed g Hi Hj Hf. pose proof (blind_base_ok ctx seed32 Ht Hs) as Hb.
  unfold ecmult_gen_blind. fold (blind_base ctx seed32). cbv zeta.
  rewrite get_b32_spec by apply Hb. fold (blind_key ctx seed32).
  assert (Forall byte_ok (blind_key ctx seed32) /\ (length (blind_key ctx seed32) <= 64)%nat) as [Hko Hkl].
  { unfold blind_key. rewrite Forall_app, length_app, be_bytes_length. destruct seed32 as [l|]; cbn [default from_option id].
    - destruct (Hseed l eq_refl) as [-> ?]. split; [split; [apply be_bytes_ok|done]|lia].
    - split; [split; [apply be_bytes_ok|done]|cbn; lia]. }
  rewrite (initialize_start junk junk_ok) by (done || lia). cbn [mbind option_bind]. fold g.
  pose proof (rfc_start_ok (blind_key ctx seed32)) as Hg. fold g in Hg.
  destruct (blind_field_spec i fuel g Hg Hi ltac:(lia)) as (m & s & Hm & -> & Hsm & Hsz). cbn [mbind option_bind].
  destruct (blind_scalar_spec (j - S m) fuel (advance (S m) g)) as (m' & b & _ & -> & Hbok & Hbz);
    [by apply advance_ok|rewrite candidate_advance; by replace (S m + (j - S m))%nat with j by lia|lia|]. cbn [mbind option_bind].
  eexists. split; [done|]. destruct Hb as [Hp Hbl Hbm Hbr].
  destruct (gej_rescale_spec _ _ _ Hbm Hsm Hsz Hbr) as [Hrm Hrr].
  destruct (ecmult_gen_spec (mkGen (prec (blind_base ctx seed32)) (blind (blind_base ctx seed32)) (gej_rescale (initial (blind_base ctx seed32)) s)) b)
    as [Hgm Hgr]; [by split|done|].
  destruct (negate_spec b Hbok) as [Hno Hnv]. split; cbn [prec blind initial]; [exact Hp|done|exact Hgm|].
  rewrite (zmul_gen_congr _ (sval b)); [exact Hgr|]. rewrite Hnv.
  rewrite Z.mod_opp_mod_opp. done.
Qed.
End Blind.

(** The nonces for a NULL seed: the first is accepted as a field element, the
    second as a scalar. *)
Lemma default_nonces : let g := rfc_start (be_bytes 32 1) in
  field_nonce (candidate 0 g) && scalar_nonce (candidate 1 g) = true.
Proof. vm_compute. reflexivity. Qed.

Lemma default_key ctx : blind_key ctx None = be_bytes 32 1.
Proof. unfold blind_key. cbn [blind_base blind default from_option id]. by rewrite app_nil_r. Qed.

Lemma context_build_ok `{Host} fuel junk c : length junk = 64%nat /\ Forall byte_ok junk -> (2 <= fuel)%nat ->
  exists ctx, ecmult_gen_context_build fuel junk (ecmult_gen_context_init c) = Some ctx /\ gen_ok ctx.
Proof.
  intros Hj Hf. pose proof default_nonces as [H0 H1]%andb_true_iff.
  pose proof (ecmult_gen_blind_spec junk Hj fuel (mkGen (Some ecmult_static_context) (blind c) (initial c)) None 0 1) as HB.
  cbv zeta in HB. rewrite default_key in HB.
  destruct (HB ltac:(exists ecmult_static_context; split; [reflexivity|exact static_table_ok]) ltac:(congruence) ltac:(discriminate) H0 H1 ltac:(lia))
    as (ctx & Hc & Hok). exists ctx. split; [exact Hc|exact Hok].
Qed.

(** ** Property *)

(** C38. secp256k1_ecmult_gen computes [gn * G] for every scalar, with the context as
    it is built from the static table and after any number of blindings with
    seeds, each of which returns as soon as its stream of nonces has an element
    of the field followed by a scalar. *)
Theorem ecmult_gen_correct `{Host} fuel junk c : length junk = 64%nat -> Forall byte_ok junk -> (2 <= fuel)%nat ->
  exists ctx, ecmult_gen_context_build fuel junk (ecmult_gen_context_init c) = Some ctx /\ gen_ok ctx /\
    forall ctx', gen_ok ctx' ->
      (forall gn, scalar_ok gn -> gej_rep (ecmult_gen ctx' gn) (zmul (sval gn) gen)) /\
      (forall seed i j, length seed = 32%nat -> Forall byte_ok seed ->
        let g := rfc_start (blind_key ctx' (Some seed)) in
        field_nonce (candidate i g) = true -> scalar_nonce (candidate j g) = true -> (i < j < fuel)%nat ->
        exists ctx2, ecmult_gen_blind fuel junk ctx' (Some seed) = Some ctx2 /\ gen_ok ctx2).
Proof.
  intros Hl Hok Hf. destruct (context_build_ok fuel junk c (conj Hl Hok) Hf) as (ctx & Hc & Hg).
  exists ctx. split; [exact Hc|]. split; [exact Hg|]. intros ctx' Hctx'. split.
  - intros gn Hgn. apply (ecmult_gen_spec ctx' gn Hctx' Hgn).
  - intros seed i j Hsl Hso g Hi Hj Hij.
    apply (ecmult_gen_blind_spec junk (conj Hl Hok) fuel ctx' (Some seed) i j); [apply Hctx'|intros _; exact Hctx'| |exact Hi|exact Hj|exact Hij].
    intros l [= <-]. split; [exact Hsl|exact Hso].
Qed.

Lemma ecmult_gen_correct_witness : let little : Host := false in let junk := replicate 64 7 in
  let c := mkGen None scalar_clear gej_clear in
  exists ctx, ecmult_gen_context_build 2 junk (ecmult_gen_context_init c) = Some ctx /\ gen_ok ctx /\
    forall ctx', gen_ok ctx' ->
      (forall gn, scalar_ok gn -> gej_rep (ecmult_gen ctx' gn) (zmul (sval gn) gen)) /\
      (forall seed i j, length seed = 32%nat -> Forall byte_ok seed ->
        let g := rfc_start (blind_key ctx' (Some seed)) in
        field_nonce (candidate i g) = true -> scalar_nonce (candidate j g) = true -> (i < j < 2)%nat ->
        exists ctx2, ecmult_gen_blind 2 junk ctx' (Some seed) = Some ctx2 /\ gen_ok ctx2).
Proof.
  intros little junk c. apply (ecmult_gen_correct 2 junk c); [apply length_replicate|by apply Forall_replicate|reflexivity].
Defined.
