(* ===== verification/Ecdsa.v ===== *)
(** * Signing and verifying

    [secp256k1/src/ecdsa_impl.h] (non-exhaustive build), secp256k1_ecdsa_sig_verify
    and secp256k1_ecdsa_sig_sign, and their meaning: verification is ECDSA's
    equation on the curve, signing solves it. *)

From Stdlib Require Import Zmod Ring Field.
From S2P Require Import Prelude Bytes Limbs Primality Curve CurveGroup CurveOrder ModExp Scalar4x64 Field5x52 FieldImpl Group GroupLaw Wnaf Ecmult EcmultTable EcmultLaw ScalarImpl GenPoints EcmultGen EcmultGenLaw.

#[local] Opaque zmul nums gen.

Definition ecdsa_const_order_as_fe : fe :=
  fe_const 0xFFFFFFFF 0xFFFFFFFF 0xFFFFFFFF 0xFFFFFFFE 0xBAAEDCE6 0xAF48A03B 0xBFD25E8C 0xD0364141.
Definition ecdsa_const_p_minus_order : fe := fe_const 0 0 0 1 0x45512319 0x50B75FC4 0x402DA172 0x2FC9BAEE.

(** [st] is the local arrays of secp256k1_ecmult. *)
Definition ecdsa_sig_verify (ctx : ecmult_context) (st : strauss_state) (sigr sigs : scalar) (pubkey : ge)
    (message : scalar) : bool :=
  if scalar_is_zero sigr || scalar_is_zero sigs then false
  else
    let sn := scalar_inverse_var sigs in
    let u1 := scalar_mul sn message in
    let u2 := scalar_mul sn sigr in
    let pubkeyj := gej_set_ge pubkey in
    let pr := ecmult ctx st pubkeyj u2 u1 in
    if gej_is_infinity pr then false
    else
      let c := scalar_get_b32 sigr in
      let xr := (fe_set_b32 c).1 in
      if gej_eq_x_var xr pr then true
      else if 0 <=? fe_cmp_var xr ecdsa_const_p_minus_order then false
      else
        let xr := fe_add xr ecdsa_const_order_as_fe in
        gej_eq_x_var xr pr.

(** Results: [*sigr], [*sigs], [*recid] (which the caller may decline) and the
    return value.  The two VERIFY_CHECKs are no code in this build. *)
Record signing := mkSigning { sg_r : scalar; sg_s : scalar; sg_recid : Z; sg_ret : bool }.

Definition ecdsa_sig_sign (ctx : ecmult_gen_context) (seckey message nonce : scalar) : signing :=
  let rp := ecmult_gen ctx nonce in
  let r := (ge_set_gej rp).1 in
  let rx := fe_normalize (ge_x r) in
  let ry := fe_normalize (ge_y r) in
  let b := fe_get_b32 rx in
  let '(sigr, overflow) := scalar_set_b32 b in
  let recid := Z.lor (if negb (overflow =? 0) then 2 else 0) (if fe_is_odd ry then 1 else 0) in
  let n := scalar_mul sigr seckey in
  let n := (scalar_add n message).1 in
  let sigs := scalar_inverse nonce in
  let sigs := scalar_mul sigs n in
  if scalar_is_zero sigs then mkSigning sigr sigs recid false
  else if negb (scalar_is_high sigs =? 0) then mkSigning sigr (scalar_negate sigs) (Z.lxor recid 1) true
  else mkSigning sigr sigs recid true.

(** ** ECDSA on the curve *)

(** The abscissa of a finite point, as an integer. *)
Definition abscissa (P : point) : option Z := match P with None => None | Some (x, _) => Some (Zmod.to_Z x) end.

(** The equation of ECDSA for the signature [(r, s)], the hash [m] and the key [Q]. *)
Definition ecdsa_valid (r s m : Z) (Q : point) : Prop :=
  0 < r < order /\ 0 < s < order /\
  exists w x, (w * s) mod order = 1 /\
    abscissa (padd (zmul (w * m) gen) (zmul (w * r) Q)) = Some x /\ x mod order = r.

Lemma zmul_congr_order a b P : on_curve P -> a mod order = b mod order -> zmul a P = zmul b P.
Proof. intros HP. apply zmul_congr; [done|done|by apply curve_order]. Qed.

(** ** The comparison of abscissas *)

Lemma gej_eq_x_spec xr a x y : fe_mag 8 xr -> gej_mag a -> gej_rep a (Some (x, y)) -> gej_eq_x_var xr a = true <-> F xr = x.
Proof.
  intros Hx%rep_F (Rx & _ & Rz) (_ & Hz & HX & _). apply rep_F in Rx, Rz. unfold gej_eq_x_var.
  pose proof (rep_mul 1 8 _ _ _ _ (rep_sqr _ _ _ Rz ltac:(lia)) Hx ltac:(lia) ltac:(lia)) as R.
  pose proof (rep_weak _ _ _ Rx ltac:(lia)) as Rn.
  rewrite (rep_equal_var 1 _ _ _ _ R Rn ltac:(lia)), fld_eqb, HX. split.
  - intros E. apply (fld_cancel (F (gej_z a) * F (gej_z a))%F); [by apply fld_mul_nz|]. rewrite E. ring.
  - intros ->. ring.
Qed.

Lemma order_as_fe_spec : fe_mag 1 ecdsa_const_order_as_fe /\ fval ecdsa_const_order_as_fe = order.
Proof. split; [split; by vm_compute|by vm_compute]. Qed.
Lemma p_minus_order_spec : fe_normal ecdsa_const_p_minus_order /\ fval ecdsa_const_p_minus_order = fp - order.
Proof. split; [split; by vm_compute|by vm_compute]. Qed.
#[local] Opaque ecdsa_const_order_as_fe ecdsa_const_p_minus_order.

Lemma order_lt_p : 0 < order < fp /\ fp < 2 * order.
Proof. by vm_compute. Qed.

Lemma of_Z_eq (z : Z) (x : fld) : 0 <= z < fp -> Zmod.of_Z fp z = x <-> Zmod.to_Z x = z.
Proof.
  intros Hz. split.
  - intros <-. rewrite Zmod.to_Z_of_Z. by apply Z.mod_small.
  - intros <-. apply Zmod.of_Z_to_Z.
Qed.

(** The two comparisons of [sig_verify] decide the congruence modulo the order. *)
Lemma abscissa_check sigr pr x y : scalar_ok sigr -> gej_mag pr -> gej_rep pr (Some (x, y)) ->
  let xr := (fe_set_b32 (scalar_get_b32 sigr)).1 in
  (if gej_eq_x_var xr pr then true
   else if 0 <=? fe_cmp_var xr ecdsa_const_p_minus_order then false
   else gej_eq_x_var (fe_add xr ecdsa_const_order_as_fe) pr) = true <-> Zmod.to_Z x mod order = sval sigr.
Proof.
  intros Hr Hm HP. pose proof (scalar_ok_range _ Hr) as Hran. pose proof order_lt_p as [Hn Hp].
  pose proof (to_Z_range x) as Hx.
  rewrite get_b32_spec by apply Hr.
  pose proof (fe_set_b32_spec (be_bytes 32 (sval sigr)) (be_bytes_length _ _) (be_bytes_ok _ _)) as Hs.
  destruct (fe_set_b32 (be_bytes 32 (sval sigr))) as [xr ok]. destruct Hs as (Hxm & Hxv & Hok & Hxn). cbn [fst].
  rewrite be_val_bytes, Z.mod_small in Hxv, Hok by (unfold order, fp in *; lia).
  assert (fe_normal xr) as Hnorm by (apply Hxn; rewrite Hok; apply Z.ltb_lt; lia).
  destruct order_as_fe_spec as [Hom Hov]. destruct p_minus_order_spec as [Hpn Hpv].
  pose proof (gej_eq_x_spec xr pr x y (fe_mag_weaken _ 8 _ Hxm ltac:(lia)) Hm HP) as E1.
  destruct (fe_add_spec 1 1 _ _ Hxm Hom ltac:(lia)) as [Ham Hav].
  pose proof (gej_eq_x_spec (fe_add xr ecdsa_const_order_as_fe) pr x y (fe_mag_weaken _ 8 _ Ham ltac:(lia)) Hm HP) as E2.
  unfold F in E1, E2. rewrite Hxv, of_Z_eq in E1 by lia. rewrite Hav, Hxv, Hov in E2.
  rewrite cmp_var_spec, Hxv, Hpv by done.
  destruct (gej_eq_x_var xr pr).
  { split; [|done]. intros _. rewrite (proj1 E1 eq_refl). apply Z.mod_small. lia. }
  assert (Zmod.to_Z x <> sval sigr) as Hne by (intros E; by apply E1 in E).
  assert (Zmod.to_Z x mod order = sval sigr <-> Zmod.to_Z x = sval sigr + order) as ->.
  { pose proof (Z.div_mod (Zmod.to_Z x) order ltac:(lia)). pose proof (Z.mod_pos_bound (Zmod.to_Z x) order ltac:(lia)).
    assert (Zmod.to_Z x / order = 0 \/ Zmod.to_Z x / order = 1) as Hq.
    { assert (0 <= Zmod.to_Z x / order < 2) by (split; [apply Z.div_pos|apply Z.div_lt_upper_bound]; lia). lia. }
    split; intros E; [destruct Hq as [Hq|Hq]; rewrite Hq in *; lia|]. rewrite E. replace (sval sigr + order) with (sval sigr + 1 * order) by lia.
    rewrite Z.mod_add by lia. apply Z.mod_small. lia. }
  destruct (Z.compare_spec (sval sigr) (fp - order)); cbn [Z.leb Z.compare].
  1, 3: split; [done|intros; exfalso; lia].
  rewrite of_Z_eq in E2 by lia. exact E2.
Qed.

Lemma inverse_witness s w : scalar_ok s -> sval s <> 0 -> (w * sval s) mod order = 1 ->
  w mod order = sval (scalar_inverse_var s) mod order.
Proof.
  intros Hs Hz Hw. destruct (scalar_inverse_correct s Hs) as (_ & Hi & _). unfold scalar_inverse_var.
  set (i := sval (scalar_inverse s)) in *. destruct (Z.eqb_spec (sval s) 0); [done|].
  transitivity ((w * (sval s * i)) mod order).
  - rewrite <- Z.mul_mod_idemp_r, Hi by done. by rewrite Z.mul_1_r.
  - replace (w * (sval s * i)) with (w * sval s * i) by lia. rewrite <- Z.mul_mod_idemp_l, Hw by done. by rewrite Z.mul_1_l.
Qed.

Section Verify.
Context (ctx : ecmult_context) (t : list ge_storage) (Hctx : pre_g ctx = Some t) (Ht : table_ok t).
Context (st : strauss_state) (Hst : strauss_arrays st).

Lemma sig_verify_spec sigr sigs pubkey Q message : scalar_ok sigr -> scalar_ok sigs -> scalar_ok message ->
  ge_mag pubkey -> ge_rep pubkey Q -> on_curve Q ->
  ecdsa_sig_verify ctx st sigr sigs pubkey message = true <-> ecdsa_valid (sval sigr) (sval sigs) (sval message) Q.
Proof.
  intros Hr Hs Hm Hpm Hpr HQ. unfold ecdsa_sig_verify, ecdsa_valid. rewrite !is_zero_spec by (apply Hr || apply Hs).
  pose proof (scalar_ok_range _ Hr) as Hrr. pose proof (scalar_ok_range _ Hs) as Hsr.
  destruct (Z.eqb_spec (sval sigr) 0), (Z.eqb_spec (sval sigs) 0); [split; [done|lia]..|]. cbn [orb].
  destruct (scalar_inverse_correct sigs Hs) as (Hsn & Hinv & _). set (sn := scalar_inverse_var sigs).
  change (scalar_inverse sigs) with sn in Hsn, Hinv. destruct (Z.eqb_spec (sval sigs) 0); [done|].
  destruct (scalar_mul_spec sn message (proj1 Hsn) (proj1 Hm)) as [Hu1 Hv1].
  destruct (scalar_mul_spec sn sigr (proj1 Hsn) (proj1 Hr)) as [Hu2 Hv2].
  destruct (ecmult_spec ctx t st (gej_set_ge pubkey) Q (scalar_mul sn sigr) (scalar_mul sn message) Hctx Ht Hst
    (gej_set_ge_mag _ Hpm) (gej_set_ge_rep _ _ Hpr) HQ Hu2 Hu1) as [Hem Her].
  set (pr := ecmult _ _ _ _ _) in *. clearbody pr.
  assert (forall w, (w * sval sigs) mod order = 1 ->
    padd (zmul (w * sval message) gen) (zmul (w * sval sigr) Q) =
    padd (zmul (sval (scalar_mul sn sigr)) Q) (zmul (sval (scalar_mul sn message)) gen)) as HR.
  { intros w Hw. apply (inverse_witness sigs w Hs) in Hw; [|lia]. fold sn in Hw.
    assert (forall z, (w * z) mod order = ((sval sn * z) mod order) mod order) as Hc.
    { intros z. rewrite Z.mod_mod by done. rewrite <- Z.mul_mod_idemp_l, Hw, Z.mul_mod_idemp_l by done. reflexivity. }
    rewrite (zmul_congr_order (w * sval message) _ gen gen_on_curve (Hc (sval message))), <- Hv1.
    rewrite (zmul_congr_order (w * sval sigr) _ Q HQ (Hc (sval sigr))), <- Hv2.
    apply padd_comm; apply zmul_on_curve; [apply gen_on_curve|exact HQ]. }
  assert ((sval sn * sval sigs) mod order = 1) as Hsn1 by (rewrite Z.mul_comm; exact Hinv).
  unfold gej_is_infinity. destruct (padd (zmul (sval (scalar_mul sn sigr)) Q) _) as [[x y]|].
  - destruct Her as [Hi Hrest]. rewrite Hi. rewrite (abscissa_check sigr pr x y Hr Hem (conj Hi Hrest)). split.
    + intros E. split; [lia|]. split; [lia|]. exists (sval sn), (Zmod.to_Z x).
      split; [exact Hsn1|]. split; [by rewrite (HR _ Hsn1)|exact E].
    + intros (_ & _ & w & x' & Hw & Ha & E). rewrite (HR w Hw) in Ha. by injection Ha as <-.
  - cbn [gej_rep] in Her. rewrite Her. split; [done|]. intros (_ & _ & w & x' & Hw & Ha & E). by rewrite (HR w Hw) in Ha.
Qed.
End Verify.

(** ** What the signer computes *)

Lemma abscissa_neg P : abscissa (pneg P) = abscissa P.
Proof. by destruct P as [[x y]|]. Qed.

(** A finite point in affine coordinates, reduced. *)
Lemma normal_value a : fe_normal a -> fval a = Zmod.to_Z (F a).
Proof.
  intros [H0 H1 H2 H3 H4 Hlt]. unfold F. rewrite Zmod.to_Z_of_Z. symmetry. apply Z.mod_small.
  split; [unfold fval; lia|exact Hlt].
Qed.

Lemma normalized_value a : fe_mag 8 a -> fe_normal (fe_normalize a) /\ fval (fe_normalize a) = Zmod.to_Z (F a).
Proof.
  intros Ha%rep_F. destruct (rep_normalize _ _ _ Ha ltac:(lia)) as ([_ HF] & Hn & _). split; [exact Hn|].
  rewrite (normal_value _ Hn). exact (f_equal Zmod.to_Z HF).
Qed.

Lemma affine_of_gej a x y : gej_mag a -> gej_rep a (Some (x, y)) ->
  let r := (ge_set_gej a).1 in
  fe_normal (fe_normalize (ge_x r)) /\ fval (fe_normalize (ge_x r)) = Zmod.to_Z x /\
  fe_normal (fe_normalize (ge_y r)) /\ fval (fe_normalize (ge_y r)) = Zmod.to_Z y.
Proof.
  intros Hm Hr. pose proof (ge_set_gej_spec a _ Hm Hr) as H. destruct (ge_set_gej a) as [r a'].
  destruct H as ([Hx Hy] & (_ & Ex & Ey) & _). cbv zeta. cbn [fst].
  destruct (normalized_value _ Hx) as [H1 H2], (normalized_value _ Hy) as [H3 H4].
  rewrite Ex in H2. rewrite Ey in H4. split_and!; assumption.
Qed.

(** Before the sign of [s] is chosen: [s0 = (m + r * d) / k]. *)
Lemma sig_s0_spec sigr seckey message nonce : scalar_ok sigr -> scalar_ok seckey -> scalar_ok message -> scalar_ok nonce ->
  sval nonce <> 0 ->
  let s0 := scalar_mul (scalar_inverse nonce) (scalar_add (scalar_mul sigr seckey) message).1 in
  scalar_ok s0 /\ (sval s0 * sval nonce) mod order = (sval message + sval sigr * sval seckey) mod order.
Proof.
  intros Hr Hd Hm Hk Hz. destruct (scalar_mul_spec sigr seckey (proj1 Hr) (proj1 Hd)) as [Hn Hnv].
  pose proof (scalar_add_spec (scalar_mul sigr seckey) message Hn Hm) as Ha. destruct (scalar_add _ message) as [n o].
  destruct Ha as (Hno & Hav & _). cbn [fst]. destruct (scalar_inverse_correct nonce Hk) as (Hi & Hiv & _).
  destruct (Z.eqb_spec (sval nonce) 0); [done|]. destruct (scalar_mul_spec (scalar_inverse nonce) n (proj1 Hi) (proj1 Hno)) as [Hs Hsv].
  cbv zeta. split; [exact Hs|]. rewrite Hsv, Z.mul_mod_idemp_l by done.
  replace (sval (scalar_inverse nonce) * sval n * sval nonce) with (sval nonce * sval (scalar_inverse nonce) * sval n) by lia.
  rewrite <- Z.mul_mod_idemp_l, Hiv, Z.mul_1_l, Hav, Hnv, Z.mod_mod, Zplus_mod_idemp_l by done. f_equal. lia.
Qed.

Lemma sig_sign_spec ctx seckey message nonce x y : gen_ok ctx -> scalar_ok seckey -> scalar_ok message -> scalar_ok nonce ->
  sval nonce <> 0 -> zmul (sval nonce) gen = Some (x, y) ->
  let g := ecdsa_sig_sign ctx seckey message nonce in
  scalar_ok (sg_r g) /\ sval (sg_r g) = Zmod.to_Z x mod order /\ scalar_ok (sg_s g) /\
  exists s0, 0 <= s0 < order /\
    (s0 * sval nonce) mod order = (sval message + sval (sg_r g) * sval seckey) mod order /\
    sg_ret g = negb (s0 =? 0) /\ sval (sg_s g) = (if order / 2 <? s0 then order - s0 else s0) /\
    sg_recid g = (if order <=? Zmod.to_Z x then 2 else 0) + Z.b2z (xorb (Z.odd (Zmod.to_Z y)) (order / 2 <? s0)).
Proof.
  intros Hctx Hd Hm Hk Hz HR. destruct (ecmult_gen_spec ctx nonce Hctx Hk) as [Hgm Hgr]. rewrite HR in Hgr.
  unfold ecdsa_sig_sign. cbv zeta. destruct (affine_of_gej _ x y Hgm Hgr) as (Hnx & Hvx & Hny & Hvy).
  rewrite fe_get_b32_spec by done. rewrite fe_is_odd_spec, Hvx, Hvy by done.
  pose proof (to_Z_range x) as Hxr. pose proof (set_b32_spec (be_bytes 32 (Zmod.to_Z x)) (be_bytes_length _ _) (be_bytes_ok _ _)) as Hs.
  destruct (scalar_set_b32 _) as [sigr over]. destruct Hs as (Hr & Hrv & ->). 
  rewrite be_val_bytes, (Z.mod_small (Zmod.to_Z x) (2 ^ _)) in Hrv |- * by (unfold fp in *; lia).
  destruct (sig_s0_spec sigr seckey message nonce Hr Hd Hm Hk Hz) as [Hs0 Hs0v]. cbv zeta in Hs0, Hs0v.
  set (s0 := scalar_mul (scalar_inverse nonce) _) in *. clearbody s0. pose proof (scalar_ok_range _ Hs0) as Hs0r.
  rewrite is_zero_spec, is_high_spec by apply Hs0. destruct (negate_spec s0 Hs0) as [Hneg Hnv].
  destruct (Z.eqb_spec (sval s0) 0) as [E|E].
  - cbn [sg_r sg_s sg_ret sg_recid]. split; [done|]. split; [done|]. split; [done|]. exists (sval s0). rewrite E.
    split_and!; [lia|lia|by rewrite <- E|done|done|].
    change (order / 2 <? 0) with false. rewrite xorb_false_r. by destruct (order <=? _), (Z.odd _).
  - destruct (Z.ltb_spec (order / 2) (sval s0)) as [Hh|Hh]; cbn [Z.b2z Z.eqb negb sg_r sg_s sg_ret sg_recid];
      (split; [done|]; split; [done|]; split; [done|]; exists (sval s0)).
    all: rewrite (proj2 (Z.eqb_neq (sval s0) 0) E); destruct (Z.ltb_spec (order / 2) (sval s0)); try lia.
    + split_and!; [lia|lia|done|done| |by destruct (order <=? _), (Z.odd _)].
      rewrite Hnv, Z.mod_opp_l_nz, Z.mod_small by (rewrite ?Z.mod_small; lia). lia.
    + split_and!; [lia|lia|done|done|done|]. rewrite xorb_false_r. by destruct (order <=? _), (Z.odd _).
Qed.

(** ** Signatures are valid *)

(** A solution of the signing equation, or its negation, is a signature. *)
Lemma solution_valid d m k r s0 s x y : sval k <> 0 -> scalar_ok k -> zmul (sval k) gen = Some (x, y) ->
  r = Zmod.to_Z x mod order -> r <> 0 -> 0 < s0 < order -> (s0 * sval k) mod order = (m + r * d) mod order ->
  s = s0 \/ s = order - s0 -> ecdsa_valid r s m (zmul d gen).
Proof.
  intros Hkz Hk HR Hr Hrz Hs0 Hs Hsign. pose proof order_lt_p as [Hn _]. pose proof (Z.mod_pos_bound (Zmod.to_Z x) order ltac:(lia)).
  split; [lia|]. split; [lia|].
  assert (exists w0, (w0 * s0) mod order = 1) as [w0 Hw0].
  { exists (s0 ^ (order - 2)). pose proof (pow_inverse order s0 (s0 ^ (order - 2)) prime_order eq_refl) as Hi.
    rewrite (Z.mod_small s0) in Hi by lia. rewrite Z.mul_comm, Hi. by destruct (Z.eqb_spec s0 0); [lia|]. }
  assert (forall e, (w0 * (m + r * d)) * e mod order = sval k * e mod order) as Hwe.
  { intros e. rewrite <- Z.mul_mod_idemp_l by lia. rewrite <- (Z.mul_mod_idemp_r w0) by lia. rewrite <- Hs.
    rewrite Z.mul_mod_idemp_r, Z.mul_mod_idemp_l by lia. replace (w0 * (s0 * sval k) * e) with (w0 * s0 * (sval k * e)) by lia.
    rewrite <- Z.mul_mod_idemp_l, Hw0 by lia. by rewrite Z.mul_1_l. }
  assert (forall w, padd (zmul (w * m) gen) (zmul (w * r) (zmul d gen)) = zmul (w * (m + r * d)) gen) as Hsum.
  { intros w. rewrite <- zmul_mul, <- zmul_add by apply gen_on_curve. apply (f_equal (fun z => zmul z gen)). lia. }
  destruct Hsign as [-> | ->].
  - exists w0, (Zmod.to_Z x). split; [exact Hw0|]. split; [|by symmetry].
    rewrite Hsum, (zmul_gen_congr _ (sval k)), HR; [reflexivity|]. by rewrite <- (Z.mul_1_r (_ * _)), Hwe, Z.mul_1_r.
  - exists (- w0), (Zmod.to_Z x). split; [|split; [|by symmetry]].
    + replace (- w0 * (order - s0)) with (w0 * s0 + (- w0) * order) by lia. by rewrite Z.mod_add by lia.
    + rewrite Hsum, (zmul_gen_congr _ (- sval k)); [|].
      * by rewrite zmul_opp, abscissa_neg, HR.
      * replace (- w0 * (m + r * d)) with (w0 * (m + r * d) * -1) by lia. rewrite Hwe. f_equal. lia.
Qed.

Lemma sign_valid ctx seckey message nonce : gen_ok ctx -> scalar_ok seckey -> scalar_ok message -> scalar_ok nonce ->
  sval nonce <> 0 ->
  let g := ecdsa_sig_sign ctx seckey message nonce in
  scalar_ok (sg_r g) /\ scalar_ok (sg_s g) /\ sval (sg_s g) <= order / 2 /\
  (sg_ret g = true -> sval (sg_r g) <> 0 -> ecdsa_valid (sval (sg_r g)) (sval (sg_s g)) (sval message) (zmul (sval seckey) gen)).
Proof.
  intros Hctx Hd Hm Hk Hz. pose proof (scalar_ok_range _ Hk) as Hkr.
  pose proof (zmul_finite (sval nonce) gen gen_on_curve gen_finite ltac:(lia)) as Hfin.
  destruct (zmul (sval nonce) gen) as [[x y]|] eqn:HR; [|congruence].
  destruct (sig_sign_spec ctx seckey message nonce x y Hctx Hd Hm Hk Hz HR) as (Hr & Hrv & Hs & s0 & Hs0 & Heq & Hret & Hsv & _).
  cbv zeta. set (g := ecdsa_sig_sign ctx seckey message nonce) in *. clearbody g.
  split; [done|]. split; [done|]. rewrite Hsv. split; [destruct (Z.ltb_spec (order / 2) s0); unfold order in *; dlia|].
  rewrite Hret. intros Hnz%negb_true_iff%Z.eqb_neq Hrz.
  apply (solution_valid _ _ nonce _ s0 _ x y); [done|done|done|done|done|lia|done|]. destruct (order / 2 <? s0); auto.
Qed.
