(* ===== verification/Keys.v ===== *)
(** * Keys

    [secp256k1/src/eckey_impl.h]: the two encodings of public keys, the hybrid
    one that is only read, and the tweaks of key pairs.  A function that
    returns 0 gives [None] where its callers do not look at the outputs. *)

From Stdlib Require Import Zmod Ring Field.
From S2P Require Import Prelude Bytes Limbs Primality Curve CurveGroup CurveOrder ModExp Scalar4x64 Field5x52 FieldImpl Group GroupLaw Wnaf Ecmult EcmultTable EcmultLaw Ecdsa.

#[local] Opaque zmul gen.

Definition TAG_PUBKEY_EVEN : Z := 0x02.
Definition TAG_PUBKEY_ODD : Z := 0x03.
Definition TAG_PUBKEY_UNCOMPRESSED : Z := 0x04.
Definition TAG_PUBKEY_HYBRID_EVEN : Z := 0x06.
Definition TAG_PUBKEY_HYBRID_ODD : Z := 0x07.

Definition eckey_pubkey_parse (pub : list Z) : option ge :=
  let size := length pub in
  let tag := pub !!! 0%nat in
  if Nat.eqb size 33 && ((tag =? TAG_PUBKEY_EVEN) || (tag =? TAG_PUBKEY_ODD)) then
    let '(x, ok) := fe_set_b32 (take 32 (drop 1 pub)) in
    if negb ok then None
    else let '(elem, ok) := ge_set_xo_var x (tag =? TAG_PUBKEY_ODD) in if ok : bool then Some elem else None
  else if Nat.eqb size 65 && ((tag =? 0x04) || (tag =? 0x06) || (tag =? 0x07)) then
    let '(x, okx) := fe_set_b32 (take 32 (drop 1 pub)) in
    let '(y, oky) := fe_set_b32 (take 32 (drop 33 pub)) in
    if negb okx || negb oky then None
    else
      let elem := ge_set_xy x y in
      if ((tag =? TAG_PUBKEY_HYBRID_EVEN) || (tag =? TAG_PUBKEY_HYBRID_ODD)) &&
         negb (Bool.eqb (fe_is_odd y) (tag =? TAG_PUBKEY_HYBRID_ODD)) then None
      else if ge_is_valid_var elem then Some elem else None
  else None.

(** The bytes written; [*elem] is normalised in place, but it is the caller's copy. *)
Definition eckey_pubkey_serialize (elem : ge) (compressed : bool) : option (list Z) :=
  if ge_is_infinity elem then None
  else
    let x := fe_normalize_var (ge_x elem) in
    let y := fe_normalize_var (ge_y elem) in
    Some (if compressed then (if fe_is_odd y then TAG_PUBKEY_ODD else TAG_PUBKEY_EVEN) :: fe_get_b32 x
          else TAG_PUBKEY_UNCOMPRESSED :: fe_get_b32 x ++ fe_get_b32 y).

Definition eckey_privkey_tweak_add (key tweak : scalar) : scalar * bool :=
  let key := (scalar_add key tweak).1 in (key, negb (scalar_is_zero key)).

Definition eckey_pubkey_tweak_add (ctx : ecmult_context) (st : strauss_state) (key : ge) (tweak : scalar) : option ge :=
  let pt := gej_set_ge key in
  let one := scalar_set_int 1 in
  let pt := ecmult ctx st pt one tweak in
  if gej_is_infinity pt then None else Some (ge_set_gej pt).1.

Definition eckey_privkey_tweak_mul (key tweak : scalar) : scalar * bool :=
  if scalar_is_zero tweak then (key, false) else (scalar_mul key tweak, true).

Definition eckey_pubkey_tweak_mul (ctx : ecmult_context) (st : strauss_state) (key : ge) (tweak : scalar) : option ge :=
  if scalar_is_zero tweak then None
  else
    let zero := scalar_set_int 0 in
    let pt := gej_set_ge key in
    let pt := ecmult ctx st pt tweak zero in
    Some (ge_set_gej pt).1.

(** ** The encodings of a point *)

(** SEC 1, 2.3.3: the two encodings of a finite point. *)
Definition point_bytes (compressed : bool) (P : point) : option (list Z) :=
  match P with
  | None => None
  | Some (x, y) => Some (if compressed then (if Z.odd (Zmod.to_Z y) then 3 else 2) :: be_bytes 32 (Zmod.to_Z x)
                         else 4 :: be_bytes 32 (Zmod.to_Z x) ++ be_bytes 32 (Zmod.to_Z y))
  end.

Lemma normalized_var_value a : fe_mag 8 a ->
  fe_normal (fe_normalize_var a) /\ fval (fe_normalize_var a) = Zmod.to_Z (F a).
Proof.
  intros Ha. destruct (rep_normalize _ _ _ (rep_F _ _ Ha) ltac:(lia)) as (_ & _ & ->). by apply normalized_value.
Qed.

Lemma pubkey_serialize_spec elem P c : ge_mag elem -> ge_rep elem P -> eckey_pubkey_serialize elem c = point_bytes c P.
Proof.
  intros [Hx Hy] HP. unfold eckey_pubkey_serialize, ge_is_infinity. destruct P as [[x y]|]; [|by cbn in HP; rewrite HP].
  destruct HP as (-> & <- & <-). cbv zeta.
  destruct (normalized_var_value _ Hx) as [Hnx Hvx], (normalized_var_value _ Hy) as [Hny Hvy].
  rewrite fe_is_odd_spec, !fe_get_b32_spec, Hvx, Hvy by done. by destruct c.
Qed.

(** ** Reading a key *)

Lemma fe_set_value l : length l = 32%nat -> Forall byte_ok l ->
  let '(r, ok) := fe_set_b32 l in
  fe_mag 8 r /\ ok = (be_val l <? fp) /\ F r = Zmod.of_Z fp (be_val l) /\ (ok = true -> fe_normal r /\ fval r = be_val l).
Proof.
  intros Hl Hok. pose proof (fe_set_b32_spec l Hl Hok) as H. destruct (fe_set_b32 l) as [r ok]. destruct H as (Hm & Hv & Hk & Hn).
  split; [by eapply fe_mag_weaken|]. split; [done|]. split; [unfold F; by rewrite Hv|auto].
Qed.

(** What the parser accepts: an encoding with reduced coordinates of a point of
    the curve; the compressed tag and the hybrid tag give the parity of y. *)
Definition encodes (pub : list Z) (P : point) : Prop :=
  on_curve P /\
  (Some pub = point_bytes true P \/ Some pub = point_bytes false P \/
   exists x y, P = Some (x, y) /\
     pub = (if Z.odd (Zmod.to_Z y) then 7 else 6) :: be_bytes 32 (Zmod.to_Z x) ++ be_bytes 32 (Zmod.to_Z y)).

Lemma be_bytes_back l : length l = 32%nat -> Forall byte_ok l -> be_bytes 32 (be_val l) = l.
Proof. intros Hl Hok. rewrite <- Hl at 1. by apply be_bytes_val. Qed.

Lemma to_of_small z : 0 <= z < fp -> Zmod.to_Z (Zmod.of_Z fp z) = z.
Proof. intros Hz. rewrite Zmod.to_Z_of_Z. by apply Z.mod_small. Qed.

Lemma parse_sound_compressed tag l e : length l = 32%nat -> Forall byte_ok l -> tag = 2 \/ tag = 3 ->
  eckey_pubkey_parse (tag :: l) = Some e ->
  ge_mag e /\ exists P, ge_rep e P /\ on_curve P /\ Some (tag :: l) = point_bytes true P.
Proof.
  intros Hl Hok Htag. unfold eckey_pubkey_parse. cbn [length]. rewrite Hl. change (Nat.eqb 33 33) with true.
  change ((tag :: l) !!! 0%nat) with tag. change (drop 1 (tag :: l)) with l.
  rewrite (take_ge l 32) by lia.
  assert ((tag =? TAG_PUBKEY_EVEN) || (tag =? TAG_PUBKEY_ODD) = true) as -> by (destruct Htag as [-> | ->]; done). cbn [andb].
  pose proof (fe_set_value l Hl Hok) as H. destruct (fe_set_b32 l) as [x ok]. destruct H as (Hm & -> & Hv & Hn).
  pose proof (be_val_range l Hok). destruct (Z.ltb_spec (be_val l) fp); cbn [negb]; [|done].
  destruct (Hn eq_refl) as [Hnx Hfx]. pose proof (ge_set_xo_spec x (tag =? TAG_PUBKEY_ODD) Hm) as Hs.
  destruct (ge_set_xo_var x _) as [r ok]. destruct ok; [|done]. intros [= <-]. destruct Hs as [_ Hs].
  destruct (Hs eq_refl) as (Hrm & Hi & Ex & Hc & Hodd). split; [exact Hrm|].
  exists (Some (F x, F (ge_y r))). split; [by cbn [ge_rep]; rewrite Hi, Ex|]. split; [exact Hc|].
  cbn [point_bytes]. rewrite Hodd, Hv, to_of_small, be_bytes_back by (done || lia).
  by destruct Htag as [-> | ->].
Qed.

(** The uncompressed form and the two hybrid ones. *)
Definition full_tag (tag : Z) (odd : bool) : bool :=
  (tag =? 4) || ((tag =? 6) && negb odd) || ((tag =? 7) && odd).

Lemma parse_full tag lx ly : length lx = 32%nat -> length ly = 32%nat -> Forall byte_ok lx -> Forall byte_ok ly ->
  tag = 4 \/ tag = 6 \/ tag = 7 ->
  let x := Zmod.of_Z fp (be_val lx) in let y := Zmod.of_Z fp (be_val ly) in
  match eckey_pubkey_parse (tag :: lx ++ ly) with
  | Some e => ge_mag e /\ ge_rep e (Some (x, y)) /\ be_val lx < fp /\ be_val ly < fp /\ on_curve (Some (x, y)) /\
      full_tag tag (Z.odd (be_val ly)) = true
  | None => ~ (be_val lx < fp /\ be_val ly < fp /\ on_curve (Some (x, y)) /\ full_tag tag (Z.odd (be_val ly)) = true)
  end.
Proof.
  intros Hlx Hly Hx Hy Htag. unfold eckey_pubkey_parse. cbn [length]. rewrite length_app, Hlx, Hly.
  change (Nat.eqb (S (32 + 32)) 33) with false. change (Nat.eqb (S (32 + 32)) 65) with true. cbn [andb].
  change ((tag :: lx ++ ly) !!! 0%nat) with tag. change (drop 1 (tag :: lx ++ ly)) with (lx ++ ly).
  change (drop 33 (tag :: lx ++ ly)) with (drop 32 (lx ++ ly)).
  rewrite (take_app_length' lx ly 32), (drop_app_length' lx ly 32), (take_ge ly) by (done || lia).
  assert ((tag =? 4) || (tag =? 6) || (tag =? 7) = true) as -> by (destruct Htag as [-> | [-> | ->]]; done).
  pose proof (fe_set_value lx Hlx Hx) as H. destruct (fe_set_b32 lx) as [x okx]. destruct H as (Hmx & -> & Hvx & _).
  pose proof (fe_set_value ly Hly Hy) as H. destruct (fe_set_b32 ly) as [y oky]. destruct H as (Hmy & -> & Hvy & Hny).
  destruct (Z.ltb_spec (be_val lx) fp); cbn [negb orb]; [|intros (? & _); lia].
  destruct (Z.ltb_spec (be_val ly) fp); cbn [negb]; [|intros (_ & ? & _); lia].
  destruct (Hny eq_refl) as [Hyn Hyv]. rewrite fe_is_odd_spec, Hyv by done.
  pose proof (ge_is_valid_spec (ge_set_xy x y) (conj Hmx Hmy)) as Hvalid. cbn [ge_set_xy ge_inf ge_x ge_y] in Hvalid. rewrite Hvx, Hvy in Hvalid.
  assert (((tag =? TAG_PUBKEY_HYBRID_EVEN) || (tag =? TAG_PUBKEY_HYBRID_ODD)) && negb (Bool.eqb (Z.odd (be_val ly)) (tag =? TAG_PUBKEY_HYBRID_ODD))
          = negb (full_tag tag (Z.odd (be_val ly)))) as ->.
  { unfold full_tag. destruct Htag as [-> | [-> | ->]]; by destruct (Z.odd (be_val ly)). }
  destruct (full_tag _ _); cbn [negb]; [|by intros (_ & _ & _ & ?)].
  destruct (ge_is_valid_var (ge_set_xy x y)).
  - destruct (proj1 Hvalid eq_refl) as [_ Hc]. split_and!; [done|done|by cbn [ge_rep ge_set_xy ge_inf ge_x ge_y]|done..].
  - intros (_ & _ & Hc & _). by assert (false = true) by (apply Hvalid; split; [done|exact Hc]).
Qed.

Lemma parse_complete_compressed x y : on_curve (Some (x, y)) ->
  exists e, eckey_pubkey_parse ((if Z.odd (Zmod.to_Z y) then 3 else 2) :: be_bytes 32 (Zmod.to_Z x)) = Some e /\
    ge_mag e /\ ge_rep e (Some (x, y)).
Proof.
  intros Hc. set (tag := if Z.odd (Zmod.to_Z y) then 3 else 2). set (l := be_bytes 32 (Zmod.to_Z x)).
  pose proof (to_Z_range x) as Hxr. assert (be_val l = Zmod.to_Z x) as Hlv.
  { unfold l. rewrite be_val_bytes. apply Z.mod_small. unfold fp in *. lia. }
  assert (length l = 32%nat) as Hl by apply be_bytes_length. unfold eckey_pubkey_parse. cbn [length]. rewrite Hl.
  change (Nat.eqb 33 33) with true. change ((tag :: l) !!! 0%nat) with tag. change (drop 1 (tag :: l)) with l. rewrite (take_ge l 32) by lia.
  assert ((tag =? TAG_PUBKEY_EVEN) || (tag =? TAG_PUBKEY_ODD) = true /\ (tag =? TAG_PUBKEY_ODD) = Z.odd (Zmod.to_Z y)) as [-> ->]
    by (subst tag; by destruct (Z.odd _)). cbn [andb].
  pose proof (fe_set_value l Hl (be_bytes_ok _ _)) as H. destruct (fe_set_b32 l) as [xx ok]. destruct H as (Hm & -> & Hv & _).
  rewrite Hlv, Zmod.of_Z_to_Z in Hv. rewrite Hlv. rewrite (proj2 (Z.ltb_lt _ _)) by lia. cbn [negb].
  pose proof (ge_set_xo_spec xx (Z.odd (Zmod.to_Z y)) Hm) as Hs. destruct (ge_set_xo_var xx _) as [r ok].
  rewrite Hv in Hs. destruct Hs as [Hiff Hs]. rewrite (proj2 Hiff) by (by exists y).
  destruct (Hs (proj2 Hiff (ex_intro _ y Hc))) as (Hrm & Hi & Ex & Hc' & Hodd). exists r. split; [done|]. split; [done|].
  cbn [ge_rep]. rewrite Hi, Ex. split; [done|]. split; [exact Hv|].
  destruct (same_abscissa _ _ _ Hc' Hc) as [->|Ey]; [done|]. rewrite Ey in Hodd.
  rewrite odd_negate in Hodd by (by eapply curve_y_nz). by destruct (Z.odd (Zmod.to_Z y)).
Qed.

Lemma full_tag_odd t o : full_tag t o = true -> t = 4 \/ (t = 6 /\ o = false) \/ (t = 7 /\ o = true).
Proof.
  unfold full_tag. rewrite !orb_true_iff, !andb_true_iff, !Z.eqb_eq, negb_true_iff. tauto.
Qed.

Lemma parse_complete_full tag x y : on_curve (Some (x, y)) -> full_tag tag (Z.odd (Zmod.to_Z y)) = true ->
  exists e, eckey_pubkey_parse (tag :: be_bytes 32 (Zmod.to_Z x) ++ be_bytes 32 (Zmod.to_Z y)) = Some e /\
    ge_mag e /\ ge_rep e (Some (x, y)).
Proof.
  intros Hc Ht. pose proof (to_Z_range x) as Hx. pose proof (to_Z_range y) as Hy.
  assert (forall z : fld, be_val (be_bytes 32 (Zmod.to_Z z)) = Zmod.to_Z z) as Hv.
  { intros z. pose proof (to_Z_range z). rewrite be_val_bytes. apply Z.mod_small. unfold fp in *. lia. }
  pose proof (parse_full tag _ _ (be_bytes_length 32 (Zmod.to_Z x)) (be_bytes_length 32 (Zmod.to_Z y)) (be_bytes_ok _ _) (be_bytes_ok _ _)) as H.
  rewrite !Hv, !Zmod.of_Z_to_Z in H. specialize (H ltac:(apply full_tag_odd in Ht; tauto)).
  destruct (eckey_pubkey_parse _) as [e|].
  - destruct H as (Hm & Hr & _). exists e. split; [reflexivity|]. split; [exact Hm|exact Hr].
  - destruct H. split_and!; [lia|lia|exact Hc|exact Ht].
Qed.

(** The parser accepts the encodings of the points of the curve, and no other
    string, and gives the point. *)
Lemma pubkey_parse_spec pub : Forall byte_ok pub ->
  match eckey_pubkey_parse pub with
  | Some e => ge_mag e /\ exists P, ge_rep e P /\ encodes pub P
  | None => forall P, ~ encodes pub P
  end.
Proof.
  intros Hok. destruct (eckey_pubkey_parse pub) as [e|] eqn:E.
  - destruct pub as [|tag l]; [done|]. apply Forall_cons in Hok as [_ Hok].
    pose proof E as E'. unfold eckey_pubkey_parse in E'. cbn [length] in E'. change ((tag :: l) !!! 0%nat) with tag in E'.
    destruct (Nat.eqb_spec (S (length l)) 33) as [Hl|Hl]; cbn [andb] in E'.
    + destruct (Z.eqb_spec tag TAG_PUBKEY_EVEN), (Z.eqb_spec tag TAG_PUBKEY_ODD); cbn [orb] in E'.
      4: (change 65%nat with (33 + 32)%nat in E'; rewrite Hl in E'; done).
      all: destruct (parse_sound_compressed tag l e ltac:(lia) Hok ltac:(unfold TAG_PUBKEY_EVEN, TAG_PUBKEY_ODD in *; lia) E) as (Hm & P & Hr & Hc & Hb);
        split; [done|]; exists P; split; [done|]; split; [done|by left].
    + destruct (Nat.eqb_spec (S (length l)) 65) as [Hl'|]; [|done]. cbn [andb] in E'.
      assert (tag = 4 \/ tag = 6 \/ tag = 7) as Htag.
      { destruct (Z.eqb_spec tag 4), (Z.eqb_spec tag 6), (Z.eqb_spec tag 7); auto; done. }
      rewrite <- (take_drop 32 l) in Hok, E |- *. apply Forall_app in Hok as [Hx Hy].
      set (lx := take 32 l) in *. set (ly := drop 32 l) in *.
      assert (length lx = 32 /\ length ly = 32)%nat as [Hlx Hly] by (subst lx ly; rewrite length_take, length_drop; lia).
      pose proof (parse_full tag lx ly Hlx Hly Hx Hy Htag) as H. rewrite E in H. destruct H as (Hm & Hr & Hbx & Hby & Hc & Hf).
      pose proof (be_val_range lx Hx). pose proof (be_val_range ly Hy).
      split; [done|]. eexists. split; [exact Hr|]. split; [exact Hc|].
      unfold point_bytes. rewrite !to_of_small, !be_bytes_back by (done || lia).
      apply full_tag_odd in Hf as [-> |[[-> Ho]|[-> Ho]]]; [by right; left|right; right..].
      all: do 2 eexists; split; [done|]; rewrite !to_of_small, !be_bytes_back, Ho by (done || lia); done.
  - intros P [Hc Henc]. destruct P as [[x y]|]; [|by destruct Henc as [?|[?|(? & ? & ? & _)]]].
    destruct Henc as [[= ->]|[[= ->]|(x' & y' & [= <- <-] & ->)]].
    + destruct (parse_complete_compressed x y Hc) as (e & He & _). discriminate (eq_trans (eq_sym E) He).
    + destruct (parse_complete_full 4 x y Hc eq_refl) as (e & He & _). discriminate (eq_trans (eq_sym E) He).
    + destruct (parse_complete_full (if Z.odd (Zmod.to_Z y) then 7 else 6) x y Hc) as (e & He & _).
      { by destruct (Z.odd (Zmod.to_Z y)). }
      discriminate (eq_trans (eq_sym E) He).
Qed.

(** ** Tweaks *)

Lemma pubkey_tweak_add_spec ctx t st key Q tweak : pre_g ctx = Some t -> table_ok t -> strauss_arrays st ->
  ge_mag key -> ge_rep key Q -> on_curve Q -> scalar_ok tweak ->
  let R := padd Q (zmul (sval tweak) gen) in
  match eckey_pubkey_tweak_add ctx st key tweak with
  | Some e => R <> None /\ ge_mag e /\ ge_rep e R
  | None => R = None
  end.
Proof.
  intros Hctx Ht Hst Hm Hr HQ Htw. unfold eckey_pubkey_tweak_add. cbv zeta.
  assert (scalar_ok (scalar_set_int 1)) as H1 by (by repeat split).
  destruct (ecmult_spec ctx t st _ Q (scalar_set_int 1) tweak Hctx Ht Hst (gej_set_ge_mag _ Hm) (gej_set_ge_rep _ _ Hr) HQ H1 Htw) as [Hem Her].
  change (sval (scalar_set_int 1)) with 1 in Her. rewrite zmul_1 in Her. set (pt := ecmult _ _ _ _ _) in *. clearbody pt.
  unfold gej_is_infinity. pose proof (gej_inf_finite _ _ Her) as Hi. pose proof (ge_set_gej_spec pt _ Hem Her) as Hs.
  destruct (ge_set_gej pt) as [e pt']. destruct Hs as (Hgm & Hgr & _). destruct (gej_inf pt) eqn:E; cbn [fst].
  - destruct (padd Q _) as [[x y]|]; [|reflexivity]. destruct Her as [Hf _]. congruence.
  - split; [by apply Hi|]. split; [exact Hgm|exact Hgr].
Qed.

Lemma pubkey_tweak_mul_spec ctx t st key Q tweak : pre_g ctx = Some t -> table_ok t -> strauss_arrays st ->
  ge_mag key -> ge_rep key Q -> on_curve Q -> scalar_ok tweak ->
  match eckey_pubkey_tweak_mul ctx st key tweak with
  | Some e => sval tweak <> 0 /\ ge_mag e /\ ge_rep e (zmul (sval tweak) Q)
  | None => sval tweak = 0
  end.
Proof.
  intros Hctx Ht Hst Hm Hr HQ Htw. unfold eckey_pubkey_tweak_mul. rewrite is_zero_spec by apply Htw.
  destruct (Z.eqb_spec (sval tweak) 0) as [E|E]; [exact E|]. split; [exact E|].
  assert (scalar_ok (scalar_set_int 0)) as H0 by (by repeat split).
  destruct (ecmult_spec ctx t st _ Q tweak (scalar_set_int 0) Hctx Ht Hst (gej_set_ge_mag _ Hm) (gej_set_ge_rep _ _ Hr) HQ Htw H0) as [Hem Her].
  change (sval (scalar_set_int 0)) with 0 in Her. rewrite zmul_0, padd_0_r in Her. set (pt := ecmult _ _ _ _ _) in *. clearbody pt.
  pose proof (ge_set_gej_spec pt _ Hem Her) as Hs. destruct (ge_set_gej pt) as [e pt']. destruct Hs as (Hgm & Hgr & _).
  split; [exact Hgm|exact Hgr].
Qed.

Lemma privkey_tweak_add_spec key tweak : scalar_ok key -> scalar_ok tweak ->
  let '(k, ok) := eckey_privkey_tweak_add key tweak in
  scalar_ok k /\ sval k = (sval key + sval tweak) mod order /\ ok = negb (sval k =? 0).
Proof.
  intros Hk Ht. unfold eckey_privkey_tweak_add. pose proof (scalar_add_spec key tweak Hk Ht) as H.
  destruct (scalar_add key tweak) as [k o]. destruct H as (Hok & Hv & _). cbn [fst]. rewrite is_zero_spec by apply Hok. done.
Qed.

Lemma privkey_tweak_mul_spec key tweak : scalar_ok key -> scalar_ok tweak ->
  let '(k, ok) := eckey_privkey_tweak_mul key tweak in
  scalar_ok k /\ (ok = true -> sval k = (sval key * sval tweak) mod order) /\ ok = negb (sval tweak =? 0).
Proof.
  intros Hk Ht. unfold eckey_privkey_tweak_mul. rewrite is_zero_spec by apply Ht. destruct (sval tweak =? 0); [done|].
  by destruct (scalar_mul_spec key tweak (proj1 Hk) (proj1 Ht)).
Qed.
