(* ===== verification/Secp.v ===== *)
(** * The library's interface

    [secp256k1/src/secp256k1.c] without its optional modules: contexts, the
    opaque key and signature objects as 64 bytes, and the operations on them.
    Pointers are not NULL; the callbacks are the default ones, which abort:
    a failing ARG_CHECK is [Illegal].  The loops that redraw nonces carry a fuel. *)

From S2P Require Import Prelude Bytes Limbs Primality ModExp Scalar4x64 Field5x52 FieldImpl Group Sha256 Ecmult EcmultGen ScalarImpl Der Ecdsa Keys.

(** What a call does: it returns, it calls the illegal-argument callback, or it
    draws more nonces than the fuel allows. *)
Inductive outcome (A : Type) : Type := Ret (a : A) | Illegal | NoFuel.
Arguments Ret {A} a.
Arguments Illegal {A}.
Arguments NoFuel {A}.

#[export] Instance outcome_ret : MRet outcome := @Ret.
#[export] Instance outcome_bind : MBind outcome := fun A B f m =>
  match m with Ret a => f a | Illegal => Illegal | NoFuel => NoFuel end.

Definition ARG_CHECK (cond : bool) : outcome unit := if cond then Ret tt else Illegal.
Definition drawn {A} (o : option A) : outcome A := match o with Some a => Ret a | None => NoFuel end.

(** ** Contexts *)

(** struct secp256k1_context_struct; the callbacks are the default ones. *)
Record secp_context := mkContext { ecmult_ctx : ecmult_context; ecmult_gen_ctx : ecmult_gen_context }.

Definition FLAGS_TYPE_MASK : Z := 255.
Definition FLAGS_TYPE_CONTEXT : Z := 1.
Definition FLAGS_TYPE_COMPRESSION : Z := 2.
Definition FLAGS_BIT_CONTEXT_VERIFY : Z := 256.
Definition FLAGS_BIT_CONTEXT_SIGN : Z := 512.
Definition FLAGS_BIT_COMPRESSION : Z := 256.
Definition CONTEXT_VERIFY : Z := Z.lor FLAGS_TYPE_CONTEXT FLAGS_BIT_CONTEXT_VERIFY.
Definition CONTEXT_SIGN : Z := Z.lor FLAGS_TYPE_CONTEXT FLAGS_BIT_CONTEXT_SIGN.
Definition EC_COMPRESSED : Z := Z.lor FLAGS_TYPE_COMPRESSION FLAGS_BIT_COMPRESSION.
Definition EC_UNCOMPRESSED : Z := FLAGS_TYPE_COMPRESSION.

Definition bit_set (flags bit : Z) : bool := negb (Z.land flags bit =? 0).

(** What malloc and the stack hold where nothing was written. *)
Record memory := mkMemory {
  mem_hash : list Z; mem_prej : list gej; mem_prea : list ge; mem_zr : list fe; mem_gen : ecmult_gen_context;
  mem_strauss : strauss_state;
}.

Section Secp.
Context `{Host}.

Definition context_create (fuel : nat) (mem : memory) (flags : Z) : outcome secp_context :=
  ARG_CHECK (Z.land flags FLAGS_TYPE_MASK =? FLAGS_TYPE_CONTEXT);;
  let ec := ecmult_context_init in
  let eg := ecmult_gen_context_init (mem_gen mem) in
  eg ← drawn (if bit_set flags FLAGS_BIT_CONTEXT_SIGN then ecmult_gen_context_build fuel (mem_hash mem) eg else Some eg);
  let ec := if bit_set flags FLAGS_BIT_CONTEXT_VERIFY
    then ecmult_context_build (mem_prej mem) (mem_prea mem) (mem_zr mem) ec else ec in
  Ret (mkContext ec eg).

(** The copy is made in fresh memory. *)
Definition context_clone (mem : memory) (ctx : secp_context) : secp_context :=
  mkContext (ecmult_context_clone (ecmult_ctx ctx)) (ecmult_gen_context_clone (mem_gen mem) (ecmult_gen_ctx ctx)).

Definition context_randomize (fuel : nat) (mem : memory) (ctx : secp_context) (seed32 : option (list Z))
    : outcome (bool * secp_context) :=
  ARG_CHECK (ecmult_gen_context_is_built (ecmult_gen_ctx ctx));;
  eg ← drawn (ecmult_gen_blind fuel (mem_hash mem) (ecmult_gen_ctx ctx) seed32);
  Ret (true, mkContext (ecmult_ctx ctx) eg).

(** ** Public keys *)

(** memcpy of a secp256k1_ge_storage, which has 64 bytes. *)
Definition fes_bytes (s : fe_storage) : list Z :=
  host_bytes 8 (s0 s) ++ host_bytes 8 (s1 s) ++ host_bytes 8 (s2 s) ++ host_bytes 8 (s3 s).
Definition bytes_fes (l : list Z) : fe_storage :=
  mkFeS (host_val (take 8 l)) (host_val (take 8 (drop 8 l))) (host_val (take 8 (drop 16 l))) (host_val (take 8 (drop 24 l))).

Definition pubkey_load (pubkey : list Z) : outcome ge :=
  let s := mkGeS (bytes_fes (take 32 pubkey)) (bytes_fes (drop 32 pubkey)) in
  let ge := ge_from_storage s in
  ARG_CHECK (negb (fe_is_zero (ge_x ge)));;
  Ret ge.

Definition pubkey_save (ge : ge) : list Z :=
  let s := ge_to_storage ge in fes_bytes (ges_x s) ++ fes_bytes (ges_y s).

Definition zeros (n : nat) : list Z := replicate n 0.

(** The return value and [*pubkey]. *)
Definition ec_pubkey_parse (input : list Z) : bool * list Z :=
  match eckey_pubkey_parse input with
  | None => (false, zeros 64)
  | Some Q => (true, pubkey_save Q)
  end.

(** The return value, the output buffer and [*outputlen]. *)
Definition ec_pubkey_serialize (outputlen : Z) (pubkey : list Z) (flags : Z) : outcome (bool * list Z * Z) :=
  ARG_CHECK ((if bit_set flags FLAGS_BIT_COMPRESSION then 33 else 65) <=? outputlen);;
  let output := zeros (Z.to_nat outputlen) in
  ARG_CHECK (Z.land flags FLAGS_TYPE_MASK =? FLAGS_TYPE_COMPRESSION);;
  Q ← pubkey_load pubkey;
  match eckey_pubkey_serialize Q (bit_set flags FLAGS_BIT_COMPRESSION) with
  | None => Ret (false, output, 0)
  | Some l => Ret (true, l ++ drop (length l) output, Z.of_nat (length l))
  end.

(** ** Signatures *)

(** memcpy of two secp256k1_scalar, which have 32 bytes each. *)
Definition scalar_bytes (a : scalar) : list Z :=
  host_bytes 8 (d0 a) ++ host_bytes 8 (d1 a) ++ host_bytes 8 (d2 a) ++ host_bytes 8 (d3 a).
Definition bytes_scalar (l : list Z) : scalar :=
  mkScalar (host_val (take 8 l)) (host_val (take 8 (drop 8 l))) (host_val (take 8 (drop 16 l))) (host_val (take 8 (drop 24 l))).

Definition signature_load (sig : list Z) : scalar * scalar := (bytes_scalar (take 32 sig), bytes_scalar (drop 32 sig)).
Definition signature_save (r s : scalar) : list Z := scalar_bytes r ++ scalar_bytes s.

(** [None] is a read past the end of the input. *)
Definition signature_parse_der (input : list Z) : option (bool * list Z) :=
  p ← ecdsa_sig_parse input;
  match p with
  | Some (r, s) => Some (true, signature_save r s)
  | None => Some (false, zeros 64)
  end.

Definition signature_parse_compact (input64 : list Z) : bool * list Z :=
  let '(r, overflow) := scalar_set_b32 (take 32 input64) in
  let ret := overflow =? 0 in
  let '(s, overflow) := scalar_set_b32 (drop 32 input64) in
  let ret := ret && (overflow =? 0) in
  if ret then (ret, signature_save r s) else (ret, zeros 64).

Definition signature_serialize_der (outputlen : Z) (sig : list Z) : Z * Z * list Z :=
  let '(r, s) := signature_load sig in ecdsa_sig_serialize outputlen r s.

Definition signature_serialize_compact (sig : list Z) : list Z :=
  let '(r, s) := signature_load sig in scalar_get_b32 r ++ scalar_get_b32 s.

(** The return value and [*sigout]. *)
Definition signature_normalize (sigin : list Z) : bool * list Z :=
  let '(r, s) := signature_load sigin in
  let ret := negb (scalar_is_high s =? 0) in
  let s := if ret then scalar_negate s else s in
  (ret, signature_save r s).

Definition secp_verify (mem : memory) (ctx : secp_context) (sig msg32 pubkey : list Z) : outcome bool :=
  ARG_CHECK (ecmult_context_is_built (ecmult_ctx ctx));;
  let m := (scalar_set_b32 msg32).1 in
  let '(r, s) := signature_load sig in
  if negb (scalar_is_high s =? 0) then Ret false
  else
    q ← pubkey_load pubkey;
    Ret (ecdsa_sig_verify (ecmult_ctx ctx) (mem_strauss mem) r s q m).

(** ** Signing *)

(** for (i = 0; i <= counter; i++): the last output; [k] rounds. *)
Fixpoint nonce_rounds (k : nat) (junk : list Z) (rng : rfc6979) (nonce32 : list Z) : option (list Z) :=
  match k with
  | O => Some nonce32
  | S k => '(nonce32, rng) ← rfc6979_generate junk rng 32; nonce_rounds k junk rng nonce32
  end.

(** [data] and [algo16] may be NULL; it always returns 1. *)
Definition nonce_function_rfc6979 (junk : list Z) (msg32 key32 : list Z) (algo16 data : option (list Z)) (counter : nat)
    : option (list Z) :=
  let keydata := key32 ++ msg32 ++ default [] data ++ default [] algo16 in
  rng ← rfc6979_initialize junk keydata;
  nonce_rounds (S counter) junk rng [].

(** A nonce function: NULL in the place of [algo16], [None] for a return of 0. *)
Definition nonce_function : Type := list Z -> list Z -> option (list Z) -> option (list Z) -> nat -> option (list Z).

(** while (1): [r] and [s], or a return of 0 by the nonce function. *)
Fixpoint sign_loop (fuel : nat) (ctx : ecmult_gen_context) (noncefp : nonce_function) (msg32 seckey : list Z)
    (noncedata : option (list Z)) (sec msg : scalar) (count : nat) : outcome (option (scalar * scalar)) :=
  match fuel with
  | O => NoFuel
  | S fuel =>
    match noncefp msg32 seckey None noncedata count with
    | None => Ret None
    | Some nonce32 =>
      let '(non, overflow) := scalar_set_b32 nonce32 in
      if (overflow =? 0) && negb (scalar_is_zero non) then
        let g := ecdsa_sig_sign ctx sec msg non in
        if sg_ret g then Ret (Some (sg_r g, sg_s g))
        else sign_loop fuel ctx noncefp msg32 seckey noncedata sec msg (S count)
      else sign_loop fuel ctx noncefp msg32 seckey noncedata sec msg (S count)
    end
  end.

(** The return value and [*signature]; [noncefp] may be NULL. *)
Definition secp_sign (fuel : nat) (mem : memory) (ctx : secp_context) (msg32 seckey : list Z)
    (noncefp : option nonce_function) (noncedata : option (list Z)) : outcome (bool * list Z) :=
  ARG_CHECK (ecmult_gen_context_is_built (ecmult_gen_ctx ctx));;
  let noncefp := default (nonce_function_rfc6979 (mem_hash mem)) noncefp in
  let '(sec, overflow) := scalar_set_b32 seckey in
  if (overflow =? 0) && negb (scalar_is_zero sec) then
    let msg := (scalar_set_b32 msg32).1 in
    rs ← sign_loop fuel (ecmult_gen_ctx ctx) noncefp msg32 seckey noncedata sec msg 0;
    match rs with
    | Some (r, s) => Ret (true, signature_save r s)
    | None => Ret (false, zeros 64)
    end
  else Ret (false, zeros 64).

(** ** Key pairs *)

Definition ec_seckey_verify (seckey : list Z) : bool :=
  let '(sec, overflow) := scalar_set_b32 seckey in (overflow =? 0) && negb (scalar_is_zero sec).

Definition ec_pubkey_create (ctx : secp_context) (seckey : list Z) : outcome (bool * list Z) :=
  ARG_CHECK (ecmult_gen_context_is_built (ecmult_gen_ctx ctx));;
  let '(sec, overflow) := scalar_set_b32 seckey in
  if (overflow =? 0) && negb (scalar_is_zero sec) then
    let pj := ecmult_gen (ecmult_gen_ctx ctx) sec in
    let p := (ge_set_gej pj).1 in
    Ret (true, pubkey_save p)
  else Ret (false, zeros 64).

(** The new [seckey]. *)
Definition ec_privkey_negate (seckey : list Z) : list Z :=
  let sec := (scalar_set_b32 seckey).1 in scalar_get_b32 (scalar_negate sec).

Definition ec_pubkey_negate (pubkey : list Z) : outcome (bool * list Z) :=
  p ← pubkey_load pubkey;
  Ret (true, pubkey_save (ge_neg p)).

Definition ec_privkey_tweak_add (seckey tweak : list Z) : bool * list Z :=
  let '(term, overflow) := scalar_set_b32 tweak in
  let sec := (scalar_set_b32 seckey).1 in
  let '(sec, ret) := if overflow =? 0 then eckey_privkey_tweak_add sec term else (sec, false) in
  (ret, if ret then scalar_get_b32 sec else zeros 32).

Definition ec_pubkey_tweak_add (mem : memory) (ctx : secp_context) (pubkey tweak : list Z) : outcome (bool * list Z) :=
  ARG_CHECK (ecmult_context_is_built (ecmult_ctx ctx));;
  let '(term, overflow) := scalar_set_b32 tweak in
  if negb (overflow =? 0) then Ret (false, zeros 64)
  else
    p ← pubkey_load pubkey;
    match eckey_pubkey_tweak_add (ecmult_ctx ctx) (mem_strauss mem) p term with
    | Some p => Ret (true, pubkey_save p)
    | None => Ret (false, zeros 64)
    end.

Definition ec_privkey_tweak_mul (seckey tweak : list Z) : bool * list Z :=
  let '(factor, overflow) := scalar_set_b32 tweak in
  let sec := (scalar_set_b32 seckey).1 in
  let '(sec, ret) := if overflow =? 0 then eckey_privkey_tweak_mul sec factor else (sec, false) in
  (ret, if ret then scalar_get_b32 sec else zeros 32).

Definition ec_pubkey_tweak_mul (mem : memory) (ctx : secp_context) (pubkey tweak : list Z) : outcome (bool * list Z) :=
  ARG_CHECK (ecmult_context_is_built (ecmult_ctx ctx));;
  let '(factor, overflow) := scalar_set_b32 tweak in
  if negb (overflow =? 0) then Ret (false, zeros 64)
  else
    p ← pubkey_load pubkey;
    match eckey_pubkey_tweak_mul (ecmult_ctx ctx) (mem_strauss mem) p factor with
    | Some p => Ret (true, pubkey_save p)
    | None => Ret (false, zeros 64)
    end.

(** for (i = 0; i < n; i++) *)
Fixpoint combine_loop (pubnonces : list (list Z)) (Qj : gej) : outcome gej :=
  match pubnonces with
  | [] => Ret Qj
  | k :: ks => Q ← pubkey_load k; combine_loop ks (gej_add_ge Qj Q)
  end.

Definition ec_pubkey_combine (pubnonces : list (list Z)) : outcome (bool * list Z) :=
  ARG_CHECK (1 <=? Z.of_nat (length pubnonces));;
  Qj ← combine_loop pubnonces gej_set_infinity;
  if gej_is_infinity Qj then Ret (false, zeros 64)
  else Ret (true, pubkey_save (ge_set_gej Qj).1).
End Secp.
