(* ===== verification/SecpLaw.v ===== *)
(** * What the library's operations mean

    The opaque objects represent points and pairs of scalars; contexts that the
    library creates are sound; a key pair's signature is one of ECDSA for its
    public key and verification accepts exactly those with a low [s]. *)

From Stdlib Require Import Zmod Ring Field.
From S2P Require Import Prelude Bytes Limbs Primality Curve CurveGroup CurveOrder ModExp Scalar4x64 Field5x52 FieldImpl Group GroupLaw Ecmult EcmultTable EcmultLaw ScalarImpl Sha256 Nonces StaticTable GenPoints EcmultGen EcmultGenLaw Der Ecdsa Keys Secp.

#[local] Opaque zmul gen.

(** ** No point of the curve has abscissa zero *)

Definition half : Z := (fp - 1) / 2.
Lemma half_eq : 2 * half = fp - 1.
Proof. vm_compute. reflexivity. Qed.
Lemma seven_power : pow_mod 7 half fp =? 1 = false.
Proof. vm_compute. reflexivity. Qed.
#[local] Opaque half.

Lemma seven_no_square z : (z * z) mod fp <> 7.
Proof.
  intros Hz. assert (z mod fp <> 0) as Hnz.
  { intros H0. rewrite <- Z.mul_mod_idemp_r, H0, Z.mul_0_r in Hz by done. by vm_compute in Hz. }
  assert (0 < half) as H0 by (pose proof half_eq; unfold fp in *; lia).
  assert (7 ^ half mod fp = 1) as Hp.
  { change 7 with (7 mod fp) at 1. rewrite Z.mod_pow_l. rewrite <- Z.mod_pow_l. change (7 mod fp) with 7. rewrite <- Hz, Z.mod_pow_l.
    replace (z * z) with (z ^ 2) by ring. rewrite <- Z.pow_mul_r, half_eq by lia. by apply Z.fermat_nz; [apply prime_fp|]. }
  rewrite <- pow_mod_correct in Hp by (done || lia). apply Z.eqb_eq in Hp. by rewrite seven_power in Hp.
Qed.

Lemma curve_x_nz x y : on_curve (Some (x, y)) -> x <> 0%F.
Proof.
  intros H ->. apply (seven_no_square (Zmod.to_Z y)). cbn [on_curve] in H.
  assert (y * y = curve_b)%F as E by (rewrite H; ring). apply (f_equal Zmod.to_Z) in E. rewrite Zmod.to_Z_mul in E.
  rewrite E. reflexivity.
Qed.

(** ** Objects of 64 bytes *)

Section Objects.
Context `{Host}.

Lemma four_words (w0 w1 w2 w3 : Z) : 0 <= w0 < 2 ^ 64 -> 0 <= w1 < 2 ^ 64 -> 0 <= w2 < 2 ^ 64 -> 0 <= w3 < 2 ^ 64 ->
  let l := host_bytes 8 w0 ++ host_bytes 8 w1 ++ host_bytes 8 w2 ++ host_bytes 8 w3 in
  length l = 32%nat /\ host_val (take 8 l) = w0 /\ host_val (take 8 (drop 8 l)) = w1 /\
  host_val (take 8 (drop 16 l)) = w2 /\ host_val (take 8 (drop 24 l)) = w3.
Proof.
  intros H0 H1 H2 H3. cbv zeta. pose proof (host_bytes_length 8 w0) as L0. pose proof (host_bytes_length 8 w1) as L1.
  pose proof (host_bytes_length 8 w2) as L2. pose proof (host_bytes_length 8 w3) as L3.
  pose proof (host_val_bytes 8 w0 H0) as E0. pose proof (host_val_bytes 8 w1 H1) as E1.
  pose proof (host_val_bytes 8 w2 H2) as E2. pose proof (host_val_bytes 8 w3 H3) as E3.
  set (a := host_bytes 8 w0) in *. set (b := host_bytes 8 w1) in *. set (c := host_bytes 8 w2) in *. set (d := host_bytes 8 w3) in *.
  clearbody a b c d. split; [rewrite !length_app; lia|]. rewrite (take_app_length' a) by done. split; [done|].
  rewrite (drop_app_length' a) by done. rewrite (take_app_length' b) by done. split; [done|].
  rewrite (assoc_L (++) a b). rewrite (drop_app_length' (a ++ b)) by (rewrite length_app; lia). rewrite (take_app_length' c) by done. split; [done|].
  rewrite (assoc_L (++) (a ++ b) c). rewrite (drop_app_length' ((a ++ b) ++ c)) by (rewrite !length_app; lia). rewrite (take_ge d) by lia. done.
Qed.

Lemma fes_bytes_back s : sto_ok s -> length (fes_bytes s) = 32%nat /\ bytes_fes (fes_bytes s) = s.
Proof.
  intros [H0 H1 H2 H3]. destruct (four_words _ _ _ _ H0 H1 H2 H3) as (Hl & E0 & E1 & E2 & E3). unfold bytes_fes, fes_bytes.
  rewrite E0, E1, E2, E3. split; [exact Hl|]. by destruct s.
Qed.

Lemma scalar_bytes_back a : limbs_ok a -> length (scalar_bytes a) = 32%nat /\ bytes_scalar (scalar_bytes a) = a.
Proof.
  intros [H0 H1 H2 H3]. destruct (four_words _ _ _ _ H0 H1 H2 H3) as (Hl & E0 & E1 & E2 & E3). unfold bytes_scalar, scalar_bytes.
  rewrite E0, E1, E2, E3. split; [exact Hl|]. by destruct a.
Qed.

Lemma signature_load_save r s : limbs_ok r -> limbs_ok s -> signature_load (signature_save r s) = (r, s).
Proof.
  intros Hr Hs. destruct (scalar_bytes_back r Hr) as [Hl E]. destruct (scalar_bytes_back s Hs) as [_ E'].
  unfold signature_load, signature_save. by rewrite take_app_length', drop_app_length', E, E' by done.
Qed.

(** A public key object represents a finite point of the curve. *)
Definition pk_rep (pubkey : list Z) (P : point) : Prop :=
  on_curve P /\ P <> None /\ exists e, pubkey_load pubkey = Ret e /\ ge_mag e /\ ge_rep e P.

Lemma pubkey_load_save e P : ge_mag e -> ge_rep e P -> on_curve P -> P <> None -> pk_rep (pubkey_save e) P.
Proof.
  intros [Hx Hy] HP Hc Hn. split; [done|]. split; [done|]. destruct P as [[x y]|]; [|done]. destruct HP as (Hi & Ex & Ey).
  unfold pubkey_load, pubkey_save, ge_to_storage. cbn [ges_x ges_y].
  destruct (normalized_value _ Hx) as [Hnx Hvx], (normalized_value _ Hy) as [Hny Hvy].
  destruct (to_storage_spec _ Hnx) as [Hsx Evx], (to_storage_spec _ Hny) as [Hsy Evy].
  destruct (fes_bytes_back _ Hsx) as [Hlx Hbx], (fes_bytes_back _ Hsy) as [_ Hby].
  rewrite take_app_length', drop_app_length', Hbx, Hby by done.
  assert (forall s a v, sto_ok s -> sto_val s = fval a -> fval a = Zmod.to_Z v ->
    fe_mag 8 (fe_from_storage s) /\ fe_normal (fe_from_storage s) /\ fval (fe_from_storage s) = Zmod.to_Z v /\ F (fe_from_storage s) = v) as Hf.
  { clear. intros s a v Hs Ev Ea. destruct (F_from_storage s Hs) as [Hm HF]. destruct (from_storage_spec s Hs) as (_ & Hv & Hn).
    rewrite Ev, Ea in *. pose proof (to_Z_range v). rewrite Zmod.of_Z_to_Z in HF. split_and!; [exact Hm|apply Hn; lia|exact Hv|exact HF]. }
  destruct (Hf _ _ _ Hsx Evx Hvx) as (Hmx & Hnx' & Hfx & HFx), (Hf _ _ _ Hsy Evy Hvy) as (Hmy & _ & _ & HFy).
  unfold ge_from_storage. cbn [ge_x ges_x ges_y]. rewrite fe_is_zero_spec, Hfx, Ex by done.
  assert (Zmod.to_Z x <> 0) as Hz.
  { intros E0. apply (curve_x_nz x y Hc), Zmod.to_Z_inj. exact E0. }
  rewrite (proj2 (Z.eqb_neq _ _) Hz). cbn. eexists. split; [reflexivity|]. split; [split; [exact Hmx|exact Hmy]|].
  cbn [ge_rep ge_inf ge_x ge_y]. rewrite HFx, HFy, Ex, Ey. done.
Qed.
End Objects.

(** ** Contexts *)

(** Memory whose arrays have the declared sizes, with bytes in the hash buffer. *)
Record mem_ok (mem : memory) : Prop := {
  mo_hash : length (mem_hash mem) = 64%nat /\ Forall byte_ok (mem_hash mem);
  mo_prej : length (mem_prej mem) = table_g; mo_prea : length (mem_prea mem) = table_g; mo_zr : length (mem_zr mem) = table_g;
  mo_strauss : strauss_arrays (mem_strauss mem);
}.

Definition signs (ctx : secp_context) : Prop := gen_ok (ecmult_gen_ctx ctx).
Definition verifies (ctx : secp_context) : Prop := exists t, pre_g (ecmult_ctx ctx) = Some t /\ table_ok t.

Section Laws.
Context `{Host}.

Lemma signs_built ctx : signs ctx -> ecmult_gen_context_is_built (ecmult_gen_ctx ctx) = true.
Proof. intros [(t & Hp & _) _ _ _]. unfold ecmult_gen_context_is_built. by rewrite Hp. Qed.

Lemma verifies_built ctx : verifies ctx -> ecmult_context_is_built (ecmult_ctx ctx) = true.
Proof. intros (t & Hp & _). unfold ecmult_context_is_built. by rewrite Hp. Qed.

Lemma context_create_spec fuel mem flags : mem_ok mem -> (2 <= fuel)%nat ->
  Z.land flags FLAGS_TYPE_MASK = FLAGS_TYPE_CONTEXT ->
  exists ctx, context_create fuel mem flags = Ret ctx /\
    (bit_set flags FLAGS_BIT_CONTEXT_SIGN = true -> signs ctx) /\ (bit_set flags FLAGS_BIT_CONTEXT_VERIFY = true -> verifies ctx).
Proof.
  intros [Hh Hp1 Hp2 Hp3 _] Hf Hfl. unfold context_create. rewrite Hfl. cbn [ARG_CHECK mbind outcome_bind].
  change (ARG_CHECK (FLAGS_TYPE_CONTEXT =? FLAGS_TYPE_CONTEXT)) with (Ret tt).
  destruct (context_build_ok fuel (mem_hash mem) (mem_gen mem) Hh Hf) as (eg & Heg & Hok).
  destruct (context_build_spec (mem_prej mem) (mem_prea mem) (mem_zr mem) Hp1 Hp2 Hp3) as (t & Ht & Htok).
  destruct (bit_set flags FLAGS_BIT_CONTEXT_SIGN) eqn:Es; cbn [drawn mbind outcome_bind].
  - rewrite Heg. cbn [drawn mbind outcome_bind]. eexists. split; [reflexivity|]. split; [intros _; exact Hok|].
    intros ->. exists t. split; [exact Ht|exact Htok].
  - eexists. split; [reflexivity|]. split; [discriminate|]. intros ->. exists t. split; [exact Ht|exact Htok].
Qed.

(** ** Secret keys and public keys *)

Definition bytes32 (l : list Z) : Prop := length l = 32%nat /\ Forall byte_ok l.

(** The secret key is a nonzero scalar. *)
Definition seckey_ok (l : list Z) : Prop := bytes32 l /\ scalar_nonce l = true.

Lemma seckey_scalar l : bytes32 l ->
  let '(sec, overflow) := scalar_set_b32 l in
  scalar_ok sec /\ ((overflow =? 0) && negb (scalar_is_zero sec) = scalar_nonce l) /\
  (scalar_nonce l = true -> sval sec = be_val l /\ sval sec <> 0).
Proof.
  intros [Hl Hok]. pose proof (scalar_nonce_spec l Hl Hok) as Hs. destruct (scalar_set_b32 l) as [sec o]. destruct Hs as (Hn & Hsok & Hv).
  split; [exact Hsok|]. split; [|exact Hv]. by destruct (o =? 0), (scalar_is_zero sec), (scalar_nonce l).
Qed.

Lemma seckey_verify_spec l : bytes32 l -> ec_seckey_verify l = true <-> 0 < be_val l < order.
Proof.
  intros Hl. unfold ec_seckey_verify. pose proof (seckey_scalar l Hl) as Hs. destruct (scalar_set_b32 l) as [sec o].
  destruct Hs as (_ & -> & _). unfold scalar_nonce. pose proof (be_val_range l (proj2 Hl)).
  rewrite andb_true_iff, negb_true_iff, Z.ltb_lt, Z.eqb_neq. lia.
Qed.

Lemma pubkey_create_spec ctx seckey : signs ctx -> bytes32 seckey ->
  exists ret pk, ec_pubkey_create ctx seckey = Ret (ret, pk) /\ ret = scalar_nonce seckey /\
    (ret = true -> (exists e, pk = pubkey_save e) /\ pk_rep pk (zmul (be_val seckey) gen)).
Proof.
  intros Hctx Hk. unfold ec_pubkey_create. rewrite (signs_built ctx Hctx). cbn [ARG_CHECK mbind outcome_bind].
  pose proof (seckey_scalar seckey Hk) as Hs. destruct (scalar_set_b32 seckey) as [sec o]. destruct Hs as (Hsok & -> & Hv).
  destruct (scalar_nonce seckey); [|by do 2 eexists]. destruct (Hv eq_refl) as [Ev Hz]. do 2 eexists. split; [reflexivity|].
  split; [done|]. intros _. destruct (ecmult_gen_spec _ sec Hctx Hsok) as [Hgm Hgr].
  pose proof (ge_set_gej_spec _ _ Hgm Hgr) as Hg. destruct (ge_set_gej _) as [p p']. destruct Hg as (Hm & Hr & _). cbn [fst].
  split; [by exists p|]. rewrite <- Ev. apply pubkey_load_save; [exact Hm|exact Hr|apply zmul_on_curve, gen_on_curve|].
  apply zmul_finite; [apply gen_on_curve|apply gen_finite|]. pose proof (scalar_ok_range _ Hsok). lia.
Qed.

Lemma pubkey_parse_object input : Forall byte_ok input ->
  let '(ret, pk) := ec_pubkey_parse input in
  if ret then exists P, pk_rep pk P /\ encodes input P else forall P, ~ encodes input P.
Proof.
  intros Hok. unfold ec_pubkey_parse. pose proof (pubkey_parse_spec input Hok) as Hs. destruct (eckey_pubkey_parse input) as [Q|]; [|exact Hs].
  destruct Hs as (Hm & P & Hr & Henc). exists P. split; [|exact Henc]. apply pubkey_load_save; [exact Hm|exact Hr|apply Henc|].
  destruct Henc as [_ Henc]. destruct P; [done|]. by destruct Henc as [?|[?|(? & ? & ? & _)]].
Qed.

Lemma point_bytes_length c P l : point_bytes c P = Some l -> length l = if c then 33%nat else 65%nat.
Proof.
  destruct P as [[x y]|]; [|done]. intros [= <-]. destruct c; cbn [length]; rewrite ?length_app, !be_bytes_length; done.
Qed.

Lemma pubkey_serialize_object len pk P (c : bool) : pk_rep pk P -> (if c then 33 else 65) <= len ->
  exists l, point_bytes c P = Some l /\
    ec_pubkey_serialize len pk (if c then EC_COMPRESSED else EC_UNCOMPRESSED) =
      Ret (true, l ++ zeros (Z.to_nat len - length l), Z.of_nat (length l)).
Proof.
  intros (_ & Hn & e & Hl & Hm & Hr) Hlen. unfold ec_pubkey_serialize.
  assert (bit_set (if c then EC_COMPRESSED else EC_UNCOMPRESSED) FLAGS_BIT_COMPRESSION = c /\
    Z.land (if c then EC_COMPRESSED else EC_UNCOMPRESSED) FLAGS_TYPE_MASK = FLAGS_TYPE_COMPRESSION) as [-> ->] by (by destruct c).
  rewrite (proj2 (Z.leb_le _ _) Hlen). cbn [ARG_CHECK mbind outcome_bind].
  change (ARG_CHECK (FLAGS_TYPE_COMPRESSION =? FLAGS_TYPE_COMPRESSION)) with (Ret tt). cbn [mbind outcome_bind].
  rewrite Hl. cbn [mbind outcome_bind]. rewrite (pubkey_serialize_spec e P c Hm Hr).
  destruct (point_bytes c P) as [l|] eqn:E; [|destruct P as [[x y]|]; done]. exists l. split; [done|].
  unfold zeros. by rewrite drop_replicate.
Qed.

(** An encoding is read back as its point. *)
Lemma parse_point_bytes (c : bool) P l : on_curve P -> point_bytes c P = Some l ->
  exists pk', ec_pubkey_parse l = (true, pk') /\ pk_rep pk' P.
Proof.
  intros Hc Hl. destruct P as [[x y]|]; [|done].
  assert (exists e, eckey_pubkey_parse l = Some e /\ ge_mag e /\ ge_rep e (Some (x, y))) as (e & He & Hm & Hr).
  { injection Hl as <-. destruct c; [exact (parse_complete_compressed x y Hc)|exact (parse_complete_full 4 x y Hc eq_refl)]. }
  exists (pubkey_save e). unfold ec_pubkey_parse. rewrite He. split; [reflexivity|]. by apply pubkey_load_save.
Qed.

(** ** Nonces *)

Lemma nonce_rounds_spec junk k g l : length junk = 64%nat /\ Forall byte_ok junk -> rng_ok g ->
  nonce_rounds (S k) junk g l = Some (candidate k g).
Proof.
  intros Hj. revert g l. induction k as [|k IH]; intros g l Hg; cbn [nonce_rounds]; rewrite (generate_next junk Hj g Hg);
    destruct (rfc_next g) as [l' g'] eqn:E; cbn [mbind option_bind].
  - cbn [candidate]. by rewrite E.
  - cbn [candidate]. rewrite E. cbn [snd]. apply (IH g' l'). pose proof (rfc_next_ok g Hg) as (Hg' & _). by rewrite E in Hg'.
Qed.

(** The generator's key for a message and a secret key. *)
Definition nonce_stream (msg32 key32 : list Z) (data : option (list Z)) : rfc6979 :=
  rfc_start (key32 ++ msg32 ++ default [] data).

Lemma nonce_function_spec junk msg32 key32 data n : length junk = 64%nat /\ Forall byte_ok junk ->
  bytes32 msg32 -> bytes32 key32 -> (forall l, data = Some l -> bytes32 l) ->
  nonce_function_rfc6979 junk msg32 key32 None data n = Some (candidate n (nonce_stream msg32 key32 data)).
Proof.
  intros Hj [Hlm Hm] [Hlk Hk] Hd. unfold nonce_function_rfc6979. change (default [] None) with (@nil Z). rewrite app_nil_r.
  assert (Forall byte_ok (default [] data) /\ (length (default [] data) <= 32)%nat) as [Hdo Hdl].
  { destruct data as [l|]; cbn [default from_option id]; [destruct (Hd l eq_refl) as [-> ?]; by split|split; [constructor|cbn; lia]]. }
  rewrite (initialize_start junk Hj); [|by repeat apply Forall_app_2|rewrite !length_app; lia]. cbn [mbind option_bind].
  apply nonce_rounds_spec; [exact Hj|apply rfc_start_ok].
Qed.

(** ** Signing *)

(** A nonce with which an attempt to sign succeeds, and what it gives. *)
Definition attempt (ctx : ecmult_gen_context) (sec msg : scalar) (l : list Z) : option (scalar * scalar) :=
  if scalar_nonce l then
    let g := ecdsa_sig_sign ctx sec msg (scalar_set_b32 l).1 in
    if sg_ret g then Some (sg_r g, sg_s g) else None
  else None.

(** The loop returns the first successful attempt. *)
Lemma sign_loop_spec fuel ctx (noncefp : nonce_function) msg32 seckey data sec msg (nonce : nat -> list Z) count :
  (forall n, noncefp msg32 seckey None data n = Some (nonce n)) -> (forall n, bytes32 (nonce n)) ->
  match sign_loop fuel ctx noncefp msg32 seckey data sec msg count with
  | Ret (Some rs) => exists n, (count <= n < count + fuel)%nat /\ attempt ctx sec msg (nonce n) = Some rs /\
      forall m, (count <= m < n)%nat -> attempt ctx sec msg (nonce m) = None
  | NoFuel => forall n, (count <= n < count + fuel)%nat -> attempt ctx sec msg (nonce n) = None
  | _ => False
  end.
Proof.
  intros Hn Hb. revert count. induction fuel as [|fuel IH]; intros count; cbn [sign_loop]; [intros n ?; lia|].
  rewrite Hn. pose proof (seckey_scalar _ (Hb count)) as Hs. destruct (scalar_set_b32 (nonce count)) as [non o] eqn:E.
  destruct Hs as (_ & -> & _). assert (attempt ctx sec msg (nonce count) =
    if scalar_nonce (nonce count) then let g := ecdsa_sig_sign ctx sec msg non in if sg_ret g then Some (sg_r g, sg_s g) else None else None) as Ea
    by (unfold attempt; by rewrite E).
  assert (attempt ctx sec msg (nonce count) = None ->
    match sign_loop fuel ctx noncefp msg32 seckey data sec msg (S count) with
    | Ret (Some rs) => exists n, (count <= n < count + S fuel)%nat /\ attempt ctx sec msg (nonce n) = Some rs /\
        forall m, (count <= m < n)%nat -> attempt ctx sec msg (nonce m) = None
    | NoFuel => forall n, (count <= n < count + S fuel)%nat -> attempt ctx sec msg (nonce n) = None
    | _ => False
    end) as Hnext.
  { intros H0. specialize (IH (S count)). destruct (sign_loop fuel _ _ _ _ _ _ _ (S count)) as [[rs|]| |]; try contradiction.
    - destruct IH as (n & Hlt & Hat & Hfirst). exists n. split; [lia|]. split; [exact Hat|]. intros m Hm.
      destruct (decide (m = count)) as [->|]; [exact H0|]. apply Hfirst. lia.
    - intros n Hlt. destruct (decide (n = count)) as [->|]; [exact H0|]. apply IH. lia. }
  cbv zeta in *. destruct (scalar_nonce (nonce count)); [|by apply Hnext]. destruct (sg_ret (ecdsa_sig_sign ctx sec msg non)); [|by apply Hnext].
  exists count. split; [lia|]. split; [exact Ea|]. intros m Hm. lia.
Qed.

(** What signing the digest [m] with the secret key [d] and the nonce [k] gives:
    [r] is the abscissa of [k G] modulo the order, and [s] the smaller of
    [(m + r d) / k] and its negation. *)
Definition signature_for (d m k r s : Z) : Prop :=
  0 < k < order /\ exists x s0, abscissa (zmul k gen) = Some x /\ r = x mod order /\
    0 < s0 < order /\ (s0 * k) mod order = (m + r * d) mod order /\
    s = (if order / 2 <? s0 then order - s0 else s0).

Lemma attempt_signature ctx sec msg l r s : gen_ok ctx -> scalar_ok sec -> scalar_ok msg -> bytes32 l ->
  attempt ctx sec msg l = Some (r, s) -> signature_for (sval sec) (sval msg) (be_val l) (sval r) (sval s).
Proof.
  intros Hctx Hd Hm Hl. unfold attempt. pose proof (seckey_scalar l Hl) as Hs. destruct (scalar_set_b32 l) as [non o].
  destruct Hs as (Hk & _ & Hv). cbn [fst]. destruct (scalar_nonce l); [|done]. destruct (Hv eq_refl) as [Ev Hz].
  rewrite <- Ev. pose proof (scalar_ok_range non Hk) as Hr. assert (0 < sval non < order) as Hr' by lia.
  pose proof (zmul_finite (sval non) gen gen_on_curve gen_finite Hr') as Hfin.
  destruct (zmul (sval non) gen) as [[x y]|] eqn:HR; [|congruence].
  destruct (sig_sign_spec ctx sec msg non x y Hctx Hd Hm Hk Hz HR) as (_ & Hrv & _ & s0 & Hs0 & Heq & Hret & Hsv & _).
  set (g := ecdsa_sig_sign ctx sec msg non) in *. clearbody g. rewrite Hret.
  destruct (Z.eqb_spec s0 0); cbn [negb]; [done|]. intros [= <- <-]. split; [exact Hr'|]. rewrite HR.
  exists (Zmod.to_Z x), s0. split_and!; [reflexivity|exact Hrv|lia|lia|exact Heq|exact Hsv].
Qed.

Lemma attempt_valid ctx sec msg l r s : gen_ok ctx -> scalar_ok sec -> scalar_ok msg -> bytes32 l ->
  attempt ctx sec msg l = Some (r, s) ->
  scalar_ok r /\ scalar_ok s /\ sval s <= order / 2 /\
  (sval r <> 0 -> ecdsa_valid (sval r) (sval s) (sval msg) (zmul (sval sec) gen)).
Proof.
  intros Hctx Hd Hm Hl. unfold attempt. pose proof (seckey_scalar l Hl) as Hs. destruct (scalar_set_b32 l) as [non o].
  destruct Hs as (Hk & _ & Hv). cbn [fst]. destruct (scalar_nonce l); [|done]. destruct (Hv eq_refl) as [_ Hz].
  destruct (sign_valid ctx sec msg non Hctx Hd Hm Hk Hz) as (Hr & Hs & Hlow & Hval).
  set (g := ecdsa_sig_sign ctx sec msg non) in *. clearbody g.
  destruct (sg_ret g); [|done]. intros [= <- <-]. split; [exact Hr|]. split; [exact Hs|]. split; [exact Hlow|]. by apply Hval.
Qed.

(** The digest that is signed, reduced. *)
Definition digest_scalar (msg32 : list Z) : Z := be_val msg32 mod order.

Lemma set_b32_fst l : bytes32 l -> scalar_ok (scalar_set_b32 l).1 /\ sval (scalar_set_b32 l).1 = be_val l mod order.
Proof. intros [Hl Hok]. pose proof (set_b32_spec l Hl Hok) as Hs. destruct (scalar_set_b32 l). by destruct Hs as (? & ? & _). Qed.

(** Signing with the default nonce function. *)
Lemma secp_sign_spec fuel mem ctx msg32 seckey data : mem_ok mem -> signs ctx -> bytes32 msg32 -> bytes32 seckey ->
  (forall l, data = Some l -> bytes32 l) ->
  let nonce n := candidate n (nonce_stream msg32 seckey data) in
  let try n := attempt (ecmult_gen_ctx ctx) (scalar_set_b32 seckey).1 (scalar_set_b32 msg32).1 (nonce n) in
  match secp_sign fuel mem ctx msg32 seckey None data with
  | Ret (true, sig) => scalar_nonce seckey = true /\ exists n r s, (n < fuel)%nat /\ try n = Some (r, s) /\
      sig = signature_save r s /\ forall m, (m < n)%nat -> try m = None
  | Ret (false, sig) => scalar_nonce seckey = false /\ sig = zeros 64
  | NoFuel => scalar_nonce seckey = true /\ forall n, (n < fuel)%nat -> try n = None
  | Illegal => False
  end.
Proof.
  intros Hmem Hctx Hm Hk Hd. cbv zeta. unfold secp_sign. rewrite (signs_built ctx Hctx). cbn [ARG_CHECK mbind outcome_bind].
  pose proof (seckey_scalar seckey Hk) as Hs. destruct (scalar_set_b32 seckey) as [sec o]. destruct Hs as (_ & -> & _). cbn [fst].
  destruct (scalar_nonce seckey); [|done]. change (default ?f None) with f. set (msg := (scalar_set_b32 msg32).1).
  pose proof (sign_loop_spec fuel (ecmult_gen_ctx ctx) (nonce_function_rfc6979 (mem_hash mem)) msg32 seckey data sec msg
    (fun n => candidate n (nonce_stream msg32 seckey data)) 0) as HL.
  specialize (HL (fun n => nonce_function_spec _ _ _ _ n (mo_hash _ Hmem) Hm Hk Hd) (fun n => candidate_ok n _ (rfc_start_ok _))).
  destruct (sign_loop _ _ _ _ _ _ _ _ _) as [[[r s]|]| |]; try contradiction; cbn [mbind outcome_bind].
  - destruct HL as (n & Hn & Hat & Hfirst). split; [reflexivity|]. exists n, r, s. split; [lia|]. split; [exact Hat|].
    split; [reflexivity|]. intros m Hlt. apply Hfirst. lia.
  - split; [reflexivity|]. intros n Hn. apply HL. lia.
Qed.

(** A signature object holds two reduced scalars. *)
Definition sig_rep (sig : list Z) (r s : Z) : Prop :=
  exists ar as_, sig = signature_save ar as_ /\ scalar_ok ar /\ scalar_ok as_ /\ sval ar = r /\ sval as_ = s.

Lemma secp_verify_spec mem ctx sig r s msg32 pk Q : mem_ok mem -> verifies ctx -> sig_rep sig r s -> bytes32 msg32 -> pk_rep pk Q ->
  exists b, secp_verify mem ctx sig msg32 pk = Ret b /\
    (b = true <-> s <= order / 2 /\ ecdsa_valid r s (digest_scalar msg32) Q).
Proof.
  intros Hmem Hctx (ar & as_ & -> & Hr & Hs & <- & <-) Hm (Hc & Hn & e & Hl & Hem & Her). unfold secp_verify.
  rewrite (verifies_built ctx Hctx). cbn [ARG_CHECK mbind outcome_bind]. rewrite signature_load_save by (apply Hr || apply Hs).
  rewrite is_high_spec by apply Hs. destruct (Z.ltb_spec (order / 2) (sval as_)) as [Hh|Hh]; cbn [Z.b2z Z.eqb negb].
  - exists false. split; [reflexivity|]. split; [discriminate|lia].
  - rewrite Hl. cbn [mbind outcome_bind]. eexists. split; [reflexivity|]. destruct Hctx as (t & Ht & Htok).
    destruct (set_b32_fst msg32 Hm) as [Hmok Hmv].
    rewrite (sig_verify_spec _ t Ht Htok _ (mo_strauss _ Hmem) ar as_ e Q _ Hr Hs Hmok Hem Her Hc), Hmv. tauto.
Qed.

(** A nonce that gives a signature: in range and with a nonzero [s]. *)
Definition suitable (d m k : Z) : Prop :=
  0 < k < order /\ exists x, abscissa (zmul k gen) = Some x /\ (m + x mod order * d) mod order <> 0.

Lemma product_zero s k : 0 <= s < order -> 0 < k < order -> (s * k) mod order = 0 -> s = 0.
Proof.
  intros Hs Hk E. pose proof (pow_inverse order k (k ^ (order - 2)) prime_order eq_refl) as Hi.
  rewrite (Z.mod_small k) in Hi by lia. destruct (Z.eqb_spec k 0); [lia|]. set (i := k ^ (order - 2)) in *. clearbody i.
  rewrite <- (Z.mod_small s order) by lia. rewrite <- (Z.mul_1_r s), <- Hi, Z.mul_mod_idemp_r by done.
  replace (s * (k * i)) with (s * k * i) by lia. by rewrite <- Z.mul_mod_idemp_l, E by done.
Qed.

Lemma attempt_suitable ctx sec msg l : gen_ok ctx -> scalar_ok sec -> scalar_ok msg -> bytes32 l ->
  attempt ctx sec msg l <> None <-> suitable (sval sec) (sval msg) (be_val l).
Proof.
  intros Hctx Hd Hm Hl. unfold attempt, suitable. pose proof (seckey_scalar l Hl) as Hs. pose proof (be_val_range l (proj2 Hl)) as Hbr.
  destruct (scalar_set_b32 l) as [non o]. destruct Hs as (Hk & _ & Hv). cbn [fst].
  assert (scalar_nonce l = true <-> 0 < be_val l < order) as Hiff.
  { unfold scalar_nonce. rewrite andb_true_iff, negb_true_iff, Z.ltb_lt, Z.eqb_neq. lia. }
  destruct (scalar_nonce l); [|split; [done|]; intros [Hr _]; apply Hiff in Hr; done].
  destruct (Hv eq_refl) as [Ev Hz]. rewrite <- Ev in *. pose proof (proj1 Hiff eq_refl) as Hr.
  pose proof (zmul_finite (sval non) gen gen_on_curve gen_finite Hr) as Hfin.
  destruct (zmul (sval non) gen) as [[x y]|] eqn:HR; [|congruence].
  destruct (sig_sign_spec ctx sec msg non x y Hctx Hd Hm Hk Hz HR) as (_ & Hrv & _ & s0 & Hs0 & Heq & Hret & _).
  set (g := ecdsa_sig_sign ctx sec msg non) in *. clearbody g. rewrite Hrv in Heq. rewrite Hret.
  destruct (Z.eqb_spec s0 0) as [E|E]; cbn [negb].
  - split; [done|]. intros [_ (x' & [= <-] & Hne)]. exfalso. apply Hne. rewrite <- Heq, E. done.
  - split; [|done]. intros _. split; [exact Hr|]. exists (Zmod.to_Z x). split; [reflexivity|]. rewrite <- Heq.
    intros E0. apply E. exact (product_zero s0 (sval non) Hs0 Hr E0).
Qed.

(** The first number with a property. *)
Definition first (good : nat -> Prop) (n : nat) : Prop := good n /\ forall m, (m < n)%nat -> ~ good m.

(** Signing with the default nonce function, in terms of the nonces. *)
Lemma default_sign_spec fuel mem ctx msg32 seckey data : mem_ok mem -> signs ctx -> bytes32 msg32 -> bytes32 seckey ->
  (forall l, data = Some l -> bytes32 l) ->
  let nonce n := be_val (candidate n (nonce_stream msg32 seckey data)) in
  let good n := suitable (be_val seckey) (digest_scalar msg32) (nonce n) in
  match secp_sign fuel mem ctx msg32 seckey None data with
  | Ret (ret, sig) =>
      if ret then 0 < be_val seckey < order /\ exists n r s, (n < fuel)%nat /\ first good n /\
        sig_rep sig r s /\ signature_for (be_val seckey) (digest_scalar msg32) (nonce n) r s /\ s <= order / 2 /\
          (r <> 0 -> ecdsa_valid r s (digest_scalar msg32) (zmul (be_val seckey) gen))
      else ~ 0 < be_val seckey < order /\ sig = zeros 64
  | NoFuel => 0 < be_val seckey < order /\ forall n, (n < fuel)%nat -> ~ good n
  | Illegal => False
  end.
Proof.
  intros Hmem Hs Hm Hk Hd. cbv zeta.
  pose proof (secp_sign_spec fuel mem ctx msg32 seckey data Hmem Hs Hm Hk Hd) as HS. cbv zeta in HS.
  destruct (set_b32_fst seckey Hk) as [Hdok Hdv], (set_b32_fst msg32 Hm) as [Hmok Hmv].
  assert (scalar_nonce seckey = true <-> 0 < be_val seckey < order) as Hiff.
  { pose proof (be_val_range _ (proj2 Hk)). unfold scalar_nonce. rewrite andb_true_iff, negb_true_iff, Z.ltb_lt, Z.eqb_neq. lia. }
  pose proof (rfc_start_ok (seckey ++ msg32 ++ default [] data)) as Hg. fold (nonce_stream msg32 seckey data) in Hg.
  set (g := nonce_stream msg32 seckey data) in *. clearbody g.
  assert (scalar_nonce seckey = true -> forall n,
    attempt (ecmult_gen_ctx ctx) (scalar_set_b32 seckey).1 (scalar_set_b32 msg32).1 (candidate n g) <> None <->
    suitable (be_val seckey) (digest_scalar msg32) (be_val (candidate n g))) as Hgood.
  { intros Hn n. apply Hiff in Hn. rewrite (attempt_suitable _ _ _ _ Hs Hdok Hmok (candidate_ok n _ Hg)), Hdv, Hmv.
    rewrite (Z.mod_small (be_val seckey)) by lia. reflexivity. }
  destruct (secp_sign fuel mem ctx msg32 seckey None data) as [[[|] sig]| |]; [| |exact HS|].
  - destruct HS as (Hn & n & r & s & Hlt & Hat & -> & Hfirst). split; [by apply Hiff|].
    pose proof (candidate_ok n _ Hg) as Hb. pose proof (attempt_signature _ _ _ _ r s Hs Hdok Hmok Hb Hat) as Hsig.
    destruct (attempt_valid _ _ _ _ r s Hs Hdok Hmok Hb Hat) as (Hr & Hs' & Hlow & Hval).
    rewrite Hdv, Hmv, (Z.mod_small (be_val seckey)) in Hsig, Hval by (apply Hiff in Hn; lia).
    exists n, (sval r), (sval s). split; [exact Hlt|]. split.
    { split; [apply (Hgood Hn); rewrite Hat; discriminate|]. intros m Hm' Hgm. apply (Hgood Hn) in Hgm. by rewrite (Hfirst m Hm') in Hgm. }
    split; [exists r, s; split; [reflexivity|]; split; [exact Hr|]; split; [exact Hs'|split; reflexivity]|].
    split; [exact Hsig|]. split; [exact Hlow|exact Hval].
  - destruct HS as [Hn ->]. split; [|reflexivity]. intros Hr. apply Hiff in Hr. congruence.
  - destruct HS as [Hn HS]. split; [by apply Hiff|]. intros n Hlt Hs0. apply (Hgood Hn) in Hs0. by rewrite (HS n Hlt) in Hs0.
Qed.

Lemma first_unique good n m : first good n -> first good m -> n = m.
Proof.
  intros [Hn Hfn] [Hm Hfm]. destruct (Nat.lt_trichotomy n m) as [L|[L|L]]; [|exact L|]; exfalso.
  - exact (Hfm n L Hn).
  - exact (Hfn m L Hm).
Qed.

Lemma default_sign_first fuel mem ctx msg32 seckey data : mem_ok mem -> signs ctx -> bytes32 msg32 -> bytes32 seckey ->
  (forall l, data = Some l -> bytes32 l) ->
  let nonce n := be_val (candidate n (nonce_stream msg32 seckey data)) in
  forall n, 0 < be_val seckey < order -> first (fun n => suitable (be_val seckey) (digest_scalar msg32) (nonce n)) n -> (n < fuel)%nat ->
  exists sig r s, secp_sign fuel mem ctx msg32 seckey None data = Ret (true, sig) /\
    sig_rep sig r s /\ signature_for (be_val seckey) (digest_scalar msg32) (nonce n) r s /\ s <= order / 2 /\
    (r <> 0 -> ecdsa_valid r s (digest_scalar msg32) (zmul (be_val seckey) gen)).
Proof.
  intros Hmem Hs Hm Hk Hd. cbv zeta. intros n Hkey Hn Hlt.
  pose proof (default_sign_spec fuel mem ctx msg32 seckey data Hmem Hs Hm Hk Hd) as HS. cbv zeta in HS.
  destruct (secp_sign fuel mem ctx msg32 seckey None data) as [[[|] sig]| |]; [|by destruct HS|done|].
  - destruct HS as (_ & n' & r & s & _ & Hn' & Hrest). rewrite (first_unique _ _ _ Hn Hn'). exists sig, r, s. split; [done|exact Hrest].
  - destruct HS as [_ HS]. exfalso. exact (HS n Hlt (proj1 Hn)).
Qed.

(** ** Operations on key pairs *)

(** What a call left in the key object: a key that represents [P], or zeros
    with a return value of 0 when [P] is the point at infinity. *)
Definition key_result (o : outcome (bool * list Z)) (P : point) : Prop :=
  match o with
  | Ret (true, pk) => pk_rep pk P
  | Ret (false, pk) => P = None /\ pk = zeros 64
  | _ => False
  end.

Lemma pubkey_negate_spec pk P : pk_rep pk P -> key_result (ec_pubkey_negate pk) (pneg P).
Proof.
  intros (Hc & Hn & e & Hl & Hm & Hr). unfold ec_pubkey_negate. rewrite Hl. cbn [mbind outcome_bind key_result].
  destruct (ge_neg_spec e P Hm Hr) as [Hnm Hnr]. apply pubkey_load_save; [exact Hnm|exact Hnr|by apply pneg_on_curve|].
  by destruct P as [[x y]|].
Qed.

Lemma key_result_save e P : on_curve P -> P <> None -> ge_mag e -> ge_rep e P -> key_result (Ret (true, pubkey_save e)) P.
Proof. intros Hc Hn Hm Hr. by apply pubkey_load_save. Qed.

Lemma pubkey_tweak_add_object mem ctx pk P tweak : mem_ok mem -> verifies ctx -> pk_rep pk P -> bytes32 tweak -> be_val tweak < order ->
  key_result (ec_pubkey_tweak_add mem ctx pk tweak) (padd P (zmul (be_val tweak) gen)).
Proof.
  intros Hmem Hctx (Hc & Hn & e & Hl & Hm & Hr) Htw Hlt. unfold ec_pubkey_tweak_add. rewrite (verifies_built ctx Hctx).
  cbn [ARG_CHECK mbind outcome_bind]. destruct (set_b32_range _ _ (proj1 Htw) (proj2 Htw) Hlt eq_refl) as (Hok & Hv & Ho).
  destruct (scalar_set_b32 tweak) as [term o]. cbn [fst snd] in *. rewrite Ho. cbn [Z.eqb negb]. rewrite Hl. cbn [mbind outcome_bind].
  destruct Hctx as (t & Ht & Htok). pose proof (pubkey_tweak_add_spec _ t _ e P term Ht Htok (mo_strauss _ Hmem) Hm Hr Hc Hok) as Hs. cbv zeta in Hs.
  rewrite Hv in Hs. destruct (eckey_pubkey_tweak_add _ _ e term) as [e'|]; [|by split].
  destruct Hs as (Hf & Hem & Her). apply key_result_save; [|exact Hf|exact Hem|exact Her].
  apply padd_on_curve; [exact Hc|apply zmul_on_curve, gen_on_curve].
Qed.

Lemma pubkey_tweak_mul_object mem ctx pk P tweak : mem_ok mem -> verifies ctx -> pk_rep pk P -> bytes32 tweak -> be_val tweak < order ->
  key_result (ec_pubkey_tweak_mul mem ctx pk tweak) (zmul (be_val tweak) P).
Proof.
  intros Hmem Hctx (Hc & Hn & e & Hl & Hm & Hr) Htw Hlt. unfold ec_pubkey_tweak_mul. rewrite (verifies_built ctx Hctx).
  cbn [ARG_CHECK mbind outcome_bind]. destruct (set_b32_range _ _ (proj1 Htw) (proj2 Htw) Hlt eq_refl) as (Hok & Hv & Ho).
  pose proof (be_val_range _ (proj2 Htw)) as Hran.
  destruct (scalar_set_b32 tweak) as [term o]. cbn [fst snd] in *. rewrite Ho. cbn [Z.eqb negb]. rewrite Hl. cbn [mbind outcome_bind].
  destruct Hctx as (t & Ht & Htok). pose proof (pubkey_tweak_mul_spec _ t _ e P term Ht Htok (mo_strauss _ Hmem) Hm Hr Hc Hok) as Hs.
  rewrite Hv in Hs. destruct (eckey_pubkey_tweak_mul _ _ e term) as [e'|].
  - destruct Hs as (Hz & Hem & Her). apply key_result_save; [by apply zmul_on_curve| |exact Hem|exact Her]. apply zmul_finite; [exact Hc|exact Hn|lia].
  - rewrite Hs. by split.
Qed.

Definition sum_points (Ps : list point) : point := foldl padd None Ps.

Lemma combine_loop_spec pks Ps Qj P : Forall2 pk_rep pks Ps -> gej_mag Qj -> gej_rep Qj P -> on_curve P ->
  exists Qj', combine_loop pks Qj = Ret Qj' /\ gej_mag Qj' /\ gej_rep Qj' (foldl padd P Ps) /\ on_curve (foldl padd P Ps).
Proof.
  intros HF. revert Qj P. induction HF as [|pk Q pks Ps (Hc & Hn & e & Hl & Hm & Hr) HF IH]; intros Qj P Hjm Hjr HP; cbn [combine_loop foldl].
  - exists Qj. split; [reflexivity|]. split; [exact Hjm|]. split; [exact Hjr|exact HP].
  - rewrite Hl. cbn [mbind outcome_bind]. destruct (gej_add_ge_spec Qj e P Q Hjm Hm Hjr Hr HP Hc Hn) as [Hm' Hr'].
    apply IH; [exact Hm'|exact Hr'|by apply padd_on_curve].
Qed.

Lemma pubkey_combine_spec pks Ps : pks <> [] -> Forall2 pk_rep pks Ps -> key_result (ec_pubkey_combine pks) (sum_points Ps).
Proof.
  intros Hne HF. unfold ec_pubkey_combine. assert (1 <=? Z.of_nat (length pks) = true) as ->
    by (apply Z.leb_le; destruct pks; [done|cbn [length]; lia]). cbn [ARG_CHECK mbind outcome_bind].
  destruct (combine_loop_spec pks Ps gej_set_infinity None HF) as (Qj & -> & Hm & Hr & Hc); [by repeat split|done|done|].
  cbn [mbind outcome_bind]. fold (sum_points Ps) in Hr, Hc. unfold gej_is_infinity. pose proof (gej_inf_finite _ _ Hr) as Hi.
  pose proof (ge_set_gej_spec Qj _ Hm Hr) as Hs. destruct (ge_set_gej Qj) as [e a']. destruct Hs as (Hem & Her & _). cbn [fst].
  destruct (gej_inf Qj) eqn:E.
  - cbn [key_result]. split; [|reflexivity]. destruct (sum_points Ps) as [[x y]|]; [|done]. destruct Hr as [Hf _]. congruence.
  - apply key_result_save; [exact Hc|by apply Hi|exact Hem|exact Her].
Qed.

(** The secret key's side. *)
Lemma privkey_tweak_add_object seckey tweak : bytes32 seckey -> be_val seckey < order -> bytes32 tweak -> be_val tweak < order ->
  let d := (be_val seckey + be_val tweak) mod order in
  ec_privkey_tweak_add seckey tweak = if d =? 0 then (false, zeros 32) else (true, be_bytes 32 d).
Proof.
  intros Hk Hkl Ht Htl. unfold ec_privkey_tweak_add. cbv zeta.
  destruct (set_b32_range _ _ (proj1 Ht) (proj2 Ht) Htl eq_refl) as (Htok & Htv & Hto).
  destruct (set_b32_range _ _ (proj1 Hk) (proj2 Hk) Hkl eq_refl) as (Hkok & Hkv & _).
  destruct (scalar_set_b32 tweak) as [term o]. destruct (scalar_set_b32 seckey) as [sec o']. cbn [fst snd] in *. rewrite Hto. cbn [Z.eqb].
  pose proof (privkey_tweak_add_spec sec term Hkok Htok) as Hs. destruct (eckey_privkey_tweak_add sec term) as [k ok].
  destruct Hs as (Hok & Hv & ->). rewrite get_b32_spec by apply Hok. rewrite Hv, Hkv, Htv. by destruct (_ =? 0).
Qed.

Lemma privkey_tweak_mul_object seckey tweak : bytes32 seckey -> be_val seckey < order -> bytes32 tweak -> be_val tweak < order ->
  ec_privkey_tweak_mul seckey tweak =
    if be_val tweak =? 0 then (false, zeros 32) else (true, be_bytes 32 ((be_val seckey * be_val tweak) mod order)).
Proof.
  intros Hk Hkl Ht Htl. unfold ec_privkey_tweak_mul.
  destruct (set_b32_range _ _ (proj1 Ht) (proj2 Ht) Htl eq_refl) as (Htok & Htv & Hto).
  destruct (set_b32_range _ _ (proj1 Hk) (proj2 Hk) Hkl eq_refl) as (Hkok & Hkv & _).
  destruct (scalar_set_b32 tweak) as [term o]. destruct (scalar_set_b32 seckey) as [sec o']. cbn [fst snd] in *. rewrite Hto. cbn [Z.eqb].
  pose proof (privkey_tweak_mul_spec sec term Hkok Htok) as Hs. destruct (eckey_privkey_tweak_mul sec term) as [k ok].
  destruct Hs as (Hok & Hv & ->). rewrite get_b32_spec by apply Hok. rewrite Htv in *. destruct (be_val tweak =? 0); cbn [negb] in *; [reflexivity|].
  by rewrite Hv, Hkv by reflexivity.
Qed.

Lemma privkey_negate_spec seckey : bytes32 seckey ->
  ec_privkey_negate seckey = be_bytes 32 ((- be_val seckey) mod order).
Proof.
  intros Hk. unfold ec_privkey_negate. destruct (set_b32_fst seckey Hk) as [Hok Hv]. destruct (negate_spec _ Hok) as [Hno Hnv].
  rewrite get_b32_spec, Hnv, Hv by apply Hno. f_equal. rewrite <- !Z.sub_0_l. by rewrite Zminus_mod_idemp_r.
Qed.
End Laws.

(** ** Properties *)

(** C13. secp256k1_ecdsa_verify, with a context made for verification, accepts a
    signature exactly when ECDSA's equation holds for it, the digest and the
    key, and [s] is not in the upper half; it calls no callback. *)
Theorem secp_verify_correct `{Host} fuel mem : mem_ok mem -> (2 <= fuel)%nat ->
  exists ctx, context_create fuel mem CONTEXT_VERIFY = Ret ctx /\
    forall sig r s msg32 pk Q, sig_rep sig r s -> bytes32 msg32 -> pk_rep pk Q ->
    exists b, secp_verify mem ctx sig msg32 pk = Ret b /\
      (b = true <-> s <= order / 2 /\ ecdsa_valid r s (digest_scalar msg32) Q).
Proof.
  intros Hmem Hf. destruct (context_create_spec fuel mem CONTEXT_VERIFY Hmem Hf eq_refl) as (ctx & Hc & _ & Hv).
  exists ctx. split; [exact Hc|]. intros sig r s msg32 pk Q. by apply secp_verify_spec, Hv.
Qed.

(** C14. secp256k1_ecdsa_sign with the default nonce function refuses exactly the
    keys that are zero or too large; it returns as soon as one of the nonces of
    RFC 6979 is in range and gives a nonzero [s]; what it returns is the
    signature with a low [s] that the first such nonce gives, and it is valid
    for the key's public point, unless the nonce's abscissa is a multiple of
    the order. *)
Theorem secp_sign_correct `{Host} fuel mem msg32 seckey data : mem_ok mem -> (2 <= fuel)%nat -> bytes32 msg32 -> bytes32 seckey ->
  (forall l, data = Some l -> bytes32 l) ->
  exists ctx, context_create fuel mem CONTEXT_SIGN = Ret ctx /\
  let nonce n := be_val (candidate n (nonce_stream msg32 seckey data)) in
  let good n := suitable (be_val seckey) (digest_scalar msg32) (nonce n) in
  (~ 0 < be_val seckey < order -> secp_sign fuel mem ctx msg32 seckey None data = Ret (false, zeros 64)) /\
  (0 < be_val seckey < order -> forall n, first good n -> (n < fuel)%nat ->
    exists sig r s, secp_sign fuel mem ctx msg32 seckey None data = Ret (true, sig) /\
      sig_rep sig r s /\ signature_for (be_val seckey) (digest_scalar msg32) (nonce n) r s /\ s <= order / 2 /\
      (r <> 0 -> ecdsa_valid r s (digest_scalar msg32) (zmul (be_val seckey) gen))).
Proof.
  intros Hmem Hf Hm Hk Hd. destruct (context_create_spec fuel mem CONTEXT_SIGN Hmem Hf eq_refl) as (ctx & Hc & Hs & _).
  exists ctx. split; [exact Hc|]. cbv zeta. specialize (Hs eq_refl). split.
  - intros Hbad. pose proof (default_sign_spec fuel mem ctx msg32 seckey data Hmem Hs Hm Hk Hd) as HS. cbv zeta in HS.
    destruct (secp_sign fuel mem ctx msg32 seckey None data) as [[[|] sig]| |]; [by destruct HS|by destruct HS as [_ ->]|done|by destruct HS].
  - intros Hkey n Hn Hlt. exact (default_sign_first fuel mem ctx msg32 seckey data Hmem Hs Hm Hk Hd n Hkey Hn Hlt).
Qed.

(** C34. Public keys are read from exactly the compressed, uncompressed and hybrid
    encodings of the points of the curve, and written in the first two; what
    was written is read back as the same point. *)
Theorem pubkey_encodings `{Host} input : Forall byte_ok input ->
  let '(ret, pk) := ec_pubkey_parse input in
  if ret then exists P, pk_rep pk P /\ encodes input P /\
    forall c : bool, exists l, point_bytes c P = Some l /\
      ec_pubkey_serialize (if c then 33 else 65) pk (if c then EC_COMPRESSED else EC_UNCOMPRESSED) = Ret (true, l, Z.of_nat (length l)) /\
      exists pk', ec_pubkey_parse l = (true, pk') /\ pk_rep pk' P
  else (forall P, ~ encodes input P) /\ pk = zeros 64.
Proof.
  intros Hok. pose proof (pubkey_parse_object input Hok) as Hp. destruct (ec_pubkey_parse input) as [[|] pk] eqn:E.
  - destruct Hp as (P & Hrep & Henc). exists P. split; [exact Hrep|]. split; [exact Henc|]. intros c.
    destruct (pubkey_serialize_object (if c then 33 else 65) pk P c Hrep ltac:(lia)) as (l & Hl & Hs). exists l. split; [exact Hl|].
    pose proof (point_bytes_length c P l Hl) as Hlen. split.
    { rewrite Hs. replace (Z.to_nat (if c then 33 else 65) - length l)%nat with 0%nat by (rewrite Hlen; by destruct c). unfold zeros. cbn [replicate].
      by rewrite app_nil_r. }
    apply (parse_point_bytes c); [apply Hrep|exact Hl].
  - split; [exact Hp|]. unfold ec_pubkey_parse in E. destruct (eckey_pubkey_parse input); [done|]. by injection E.
Qed.

(** C35. Public key objects stay well formed: every operation leaves an object of a
    finite point of the curve, or zeros and a return of 0 when the result is the
    point at infinity; and it leaves the point that belongs to the secret key
    on which the matching operation was done. *)
Theorem key_operations `{Host} fuel mem : mem_ok mem -> (2 <= fuel)%nat ->
  exists ctx, context_create fuel mem CONTEXT_VERIFY = Ret ctx /\
    forall pk P, pk_rep pk P ->
      key_result (ec_pubkey_negate pk) (pneg P) /\
      (forall tweak, bytes32 tweak -> be_val tweak < order ->
        key_result (ec_pubkey_tweak_add mem ctx pk tweak) (padd P (zmul (be_val tweak) gen)) /\
        key_result (ec_pubkey_tweak_mul mem ctx pk tweak) (zmul (be_val tweak) P) /\
        forall seckey, bytes32 seckey -> be_val seckey < order -> P = zmul (be_val seckey) gen ->
          (ec_privkey_tweak_add seckey tweak).1 = negb ((be_val seckey + be_val tweak) mod order =? 0) /\
          ((ec_privkey_tweak_add seckey tweak).1 = true ->
             key_result (ec_pubkey_tweak_add mem ctx pk tweak) (zmul (be_val (ec_privkey_tweak_add seckey tweak).2) gen)) /\
          ((ec_privkey_tweak_mul seckey tweak).1 = true ->
             key_result (ec_pubkey_tweak_mul mem ctx pk tweak) (zmul (be_val (ec_privkey_tweak_mul seckey tweak).2) gen)) /\
          key_result (ec_pubkey_negate pk) (zmul (be_val (ec_privkey_negate seckey)) gen)) /\
      (forall pks Ps, Forall2 pk_rep pks Ps -> key_result (ec_pubkey_combine (pk :: pks)) (sum_points (P :: Ps))).
Proof.
  intros Hmem Hf. destruct (context_create_spec fuel mem CONTEXT_VERIFY Hmem Hf eq_refl) as (ctx & Hcr & _ & Hv).
  specialize (Hv eq_refl). exists ctx. split; [exact Hcr|]. intros pk P Hpk. pose proof (pubkey_negate_spec pk P Hpk) as Hneg.
  split; [exact Hneg|]. split; [|intros pks Ps HF; apply pubkey_combine_spec; [discriminate|by constructor]].
  intros tweak Ht Htl. pose proof (pubkey_tweak_add_object mem ctx pk P tweak Hmem Hv Hpk Ht Htl) as Hadd.
  pose proof (pubkey_tweak_mul_object mem ctx pk P tweak Hmem Hv Hpk Ht Htl) as Hmul.
  split; [exact Hadd|]. split; [exact Hmul|]. intros seckey Hk Hkl ->.
  rewrite (privkey_tweak_add_object seckey tweak Hk Hkl Ht Htl), (privkey_tweak_mul_object seckey tweak Hk Hkl Ht Htl), (privkey_negate_spec seckey Hk).
  rewrite <- zmul_add in Hadd by apply gen_on_curve. rewrite <- zmul_mul in Hmul by apply gen_on_curve. rewrite <- zmul_opp in Hneg.
  assert (forall z, zmul (be_val (be_bytes 32 (z mod order))) gen = zmul z gen) as Hred.
  { intros z. pose proof (Z.mod_pos_bound z order ltac:(done)). rewrite be_val_bytes, (Z.mod_small (z mod order)) by (unfold order in *; lia).
    apply zmul_gen_congr. by apply Z.mod_mod. }
  split_and!.
  - by destruct (_ =? 0).
  - destruct (_ =? 0); [done|]. intros _. cbn [snd]. rewrite Hred. exact Hadd.
  - destruct (_ =? 0); [done|]. intros _. cbn [snd]. rewrite Hred, Z.mul_comm. exact Hmul.
  - rewrite Hred. exact Hneg.
Qed.
