(* ===== verification/Stream.v ===== *)
(** * DataStream, Blob and Bits

    [salticidae/include/salticidae/stream.h]: the byte buffer every message
    is written to and read from, the 256-bit digest type and the bit vector
    of the quorum certificates.  Reading is a computation in the
    state-and-exception monad over the stream. *)

From Stdlib Require Import ZArith Lia.
From S2P Require Import Prelude Bytes.

(** Exceptions, and undefined behaviour. *)
Inductive StreamError :=
  | EInsufficient          (* std::ios_base::failure("insufficient buffer") *)
  | EHex                   (* std::invalid_argument("not a valid hex string") *)
  | EParse                 (* an exception of a parser above the stream *)
  | EUndefined.            (* undefined behaviour *)

(** class DataStream; [buffer] holds bytes, [offset] is a [size_t]. *)
Record DataStream := mkStream { buffer : list Z; offset : Z }.

Definition DataStream_new : DataStream := mkStream [] 0.
Definition DataStream_of (l : list Z) : DataStream := mkStream l 0.

Abbreviation SM := (M DataStream StreamError).

Section Stream.
Context `{Host}.

Definition buffer_size (s : DataStream) : Z := Z.of_nat (length (buffer s)).

(** size(): [size_t] subtraction wraps. *)
Definition stream_size (s : DataStream) : Z := u64 (buffer_size s - offset s).

Definition clear (s : DataStream) : DataStream := mkStream [] 0.

(** put_data *)
Definition put_data (d : list Z) (s : DataStream) : DataStream :=
  mkStream (buffer s ++ d) (offset s).

(** operator<<(T) for an integral type of [n] bytes. *)
Definition put_int (n : nat) (x : Z) (s : DataStream) : DataStream :=
  put_data (host_bytes n x) s.

(** The bytes at [off], as a C pointer into the buffer sees them. *)
Definition slice (l : list Z) (off : Z) (len : nat) : list Z :=
  take len (drop (Z.to_nat off) l).

(** get_data_inplace: the offset moves before the check. *)
Definition get_data_inplace (len : Z) : SM (list Z) := fun s =>
  let s' := mkStream (buffer s) (u64 (offset s + len)) in
  if buffer_size s <? offset s' then (inr EInsufficient, s')
  else (inl (slice (buffer s) (offset s) (Z.to_nat len)), s').

(** operator>>(T &) for an integral type of [n] bytes. *)
Definition get_int (n : nat) : SM Z := fun s =>
  if buffer_size s <? u64 (offset s + Z.of_nat n) then (inr EInsufficient, s)
  else (inl (host_val (slice (buffer s) (offset s) n)),
        mkStream (buffer s) (u64 (offset s + Z.of_nat n))).

(** operator bytearray_t () const & : what is left to read. *)
Definition to_bytearray (s : DataStream) : list Z := drop (Z.to_nat (offset s)) (buffer s).

(** operator bytearray_t () && : the whole buffer. *)
Definition into_bytearray (s : DataStream) : list Z := buffer s.

(** ** Hexadecimal *)

Definition hex_digit (x : Z) : Z := if x <? 10 then 48 + x else 87 + x.

(** get_hex: sprintf "%02x" of every byte left. *)
Definition get_hex (s : DataStream) : list Z :=
  to_bytearray s ≫= fun b => [hex_digit (b / 16); hex_digit (b mod 16)].

Definition hex_value (c : Z) : option Z :=
  if (48 <=? c) && (c <=? 57) then Some (c - 48)
  else if (97 <=? c) && (c <=? 102) then Some (c - 87)
  else if (65 <=? c) && (c <=? 70) then Some (c - 55)
  else None.

Definition is_space (c : Z) : bool := (c =? 32) || ((9 <=? c) && (c <=? 13)).

Fixpoint skip_space (l : list Z) : list Z :=
  match l with
  | c :: l' => if is_space c then skip_space l' else l
  | [] => []
  end.

(** sscanf "%02x" of the C standard: white space is skipped, then at most
    two characters form the item, the longest that is a prefix of an
    optionally signed hexadecimal number; an item that is only a prefix
    fails.  The value is converted to [unsigned int]. *)
Definition sscanf_02x (l : list Z) : option Z :=
  match skip_space l with
  | [] => None
  | c :: l' =>
    match hex_value c with
    | Some d =>
      match l' with
      | c2 :: _ =>
        match hex_value c2 with
        | Some d2 => Some (16 * d + d2)
        | None => if (c =? 48) && ((c2 =? 120) || (c2 =? 88)) then None else Some d
        end
      | [] => Some d
      end
    | None =>
      if (c =? 43) || (c =? 45) then
        match l' with
        | c2 :: _ =>
          match hex_value c2 with
          | Some d2 => Some (if c =? 45 then u32 (- d2) else d2)
          | None => None
          end
        | [] => None
        end
      else None
    end
  end.

(** The loop of load_hex: [n] pairs from the C string [l]. *)
Fixpoint load_pairs (n : nat) (l : list Z) : option (list Z) :=
  match n with
  | O => Some []
  | S n => v ← sscanf_02x l; r ← load_pairs n (drop 2 l); Some (v mod 256 :: r)
  end.

(** load_hex *)
Definition load_hex (str : list Z) : StreamError + DataStream :=
  if Nat.odd (length str) then inl EHex
  else match load_pairs (length str / 2) str with
       | None => inl EHex
       | Some b => inr (mkStream b 0)
       end.

(** ** Reading lemmas *)

(** The stream positioned before [l]. *)
Definition ready_to_read (s : DataStream) (l : list Z) : Prop :=
  0 <= offset s <= buffer_size s /\ buffer_size s < 2 ^ 63 /\ to_bytearray s = l.

Lemma ready_of l : Z.of_nat (length l) < 2 ^ 63 -> ready_to_read (DataStream_of l) l.
Proof. intros Hl. unfold ready_to_read, buffer_size. simpl. split; [lia|done]. Qed.

Lemma ready_size s l : ready_to_read s l -> buffer_size s = offset s + Z.of_nat (length l).
Proof.
  intros (Ho & _ & <-). unfold to_bytearray. rewrite length_drop. unfold buffer_size in *. lia.
Qed.

Lemma ready_slice s l1 l2 : ready_to_read s (l1 ++ l2) ->
  slice (buffer s) (offset s) (length l1) = l1.
Proof. intros (_ & _ & Hl). unfold slice. unfold to_bytearray in Hl. rewrite Hl. apply take_app_length. Qed.

Lemma ready_advance s l1 l2 : ready_to_read s (l1 ++ l2) ->
  ready_to_read (mkStream (buffer s) (offset s + Z.of_nat (length l1))) l2.
Proof.
  intros Hr. pose proof (ready_size _ _ Hr) as Hs. rewrite length_app in Hs.
  destruct Hr as (Ho & Hb & Hl). unfold ready_to_read, buffer_size in *. simpl.
  split; [lia|]. split; [done|]. unfold to_bytearray in *. simpl.
  rewrite Z2Nat.inj_add by lia. rewrite Nat2Z.id, <- drop_drop, Hl.
  by rewrite drop_app_length.
Qed.

(** A parser [m] reads [l] and returns [a]. *)
Definition parses {A} (m : SM A) (l : list Z) (a : A) : Prop :=
  forall s rest, ready_to_read s (l ++ rest) ->
    exists s', m s = (inl a, s') /\ ready_to_read s' rest.

Lemma parses_ret {A} (a : A) : parses (mret a) [] a.
Proof. intros s rest Hr. by exists s. Qed.

Lemma parses_bind {A B} (m : SM A) (f : A -> SM B) l1 l2 a b :
  parses m l1 a -> parses (f a) l2 b -> parses (m ≫= f) (l1 ++ l2) b.
Proof.
  intros Hm Hf s rest Hr. rewrite <- (assoc_L (++)) in Hr.
  destruct (Hm s _ Hr) as (s1 & He & Hr1). destruct (Hf s1 _ Hr1) as (s2 & He2 & Hr2).
  exists s2. split; [|done]. unfold mbind, M_bind. by rewrite He.
Qed.

Lemma parses_get_int n l : Forall byte_ok l -> length l = n -> parses (get_int n) l (host_val l).
Proof.
  intros Hl <- s rest Hr. pose proof (ready_size _ _ Hr) as Hs. rewrite length_app in Hs.
  pose proof Hr as (Ho & Hb & _). unfold get_int.
  rewrite u64_small by lia. rewrite (proj2 (Z.ltb_ge _ _)) by lia.
  eexists. split; [by rewrite (ready_slice _ _ rest)|]. by apply ready_advance.
Qed.

Lemma parses_get_data l : parses (get_data_inplace (Z.of_nat (length l))) l l.
Proof.
  intros s rest Hr. pose proof (ready_size _ _ Hr) as Hs. rewrite length_app in Hs.
  pose proof Hr as (Ho & Hb & _). unfold get_data_inplace.
  rewrite u64_small by lia. cbn [offset]. rewrite (proj2 (Z.ltb_ge _ _)) by lia.
  eexists. rewrite Nat2Z.id, (ready_slice _ _ rest) by done. split; [done|]. by apply ready_advance.
Qed.

(** An integer written with operator<< is read back by operator>>. *)
Lemma parses_host_int n x : 0 <= x < 2 ^ (8 * Z.of_nat n) -> parses (get_int n) (host_bytes n x) x.
Proof.
  intros Hx. rewrite <- (host_val_bytes n x Hx) at 2.
  apply parses_get_int; [apply host_bytes_ok|apply host_bytes_length].
Qed.

(** The pattern [s >> x; x = letoh(x)]. *)
Definition get_le (n : nat) : SM Z := x ← get_int n; mret (letoh n x).

Lemma parses_le n x : 0 <= x < 2 ^ (8 * Z.of_nat n) -> parses (get_le n) (le_bytes n x) x.
Proof.
  intros Hx. rewrite <- (app_nil_r (le_bytes n x)). eapply parses_bind.
  - apply parses_get_int; [apply le_bytes_ok|apply le_bytes_length].
  - pose proof (letoh_host_val _ (le_bytes_ok n x)) as Hl.
    rewrite le_bytes_length, le_val_small in Hl by done. rewrite Hl. apply parses_ret.
Qed.

Lemma parses_fmap {A B} (m : SM A) (f : A -> B) l a : parses m l a -> parses (x ← m; mret (f x)) l (f a).
Proof.
  intros Hm. rewrite <- (app_nil_r l). eapply parses_bind; [done|apply parses_ret].
Qed.
(** Parsing a counted sequence. *)
Fixpoint get_many {A} (m : SM A) (n : nat) : SM (list A) :=
  match n with
  | O => mret []
  | S n => x ← m; xs ← get_many m n; mret (x :: xs)
  end.

Lemma parses_many {A} (m : SM A) (enc : A -> list Z) xs :
  Forall (fun x => parses m (enc x) x) xs -> parses (get_many m (length xs)) (xs ≫= enc) xs.
Proof.
  induction 1 as [|x xs Hx _ IH]; [apply parses_ret|]. simpl.
  eapply parses_bind; [done|]. by apply (parses_fmap _ (cons x)).
Qed.

End Stream.
