(* ===== verification/SegBuffer.v ===== *)
(** * SegBuffer

    [salticidae/include/salticidae/buffer.h]: the buffer of received bytes of a
    connection, a list of segments of which the first may be partly consumed.
    It implements a queue of bytes: [content] is the queue, [seg_ok] the
    invariant, and every operation is specified by what it does to the queue. *)

From Stdlib Require Import ZArith Lia.
From S2P Require Import Prelude.

(** struct buffer_entry_t; the iterator [offset] is an index. *)
Record buffer_entry := mkEntry { ent_data : list Z; ent_offset : nat }.
Definition buffer_entry_of (d : list Z) : buffer_entry := mkEntry d 0.
Definition entry_length (e : buffer_entry) : nat := (length (ent_data e) - ent_offset e)%nat.

(** class SegBuffer; [seg_size] is [_size], a [size_t]. *)
Record SegBuffer := mkSeg { segs : list buffer_entry; seg_size : Z }.

Definition SegBuffer_new : SegBuffer := mkSeg [] 0.

Definition rewind (d : list Z) (b : SegBuffer) : SegBuffer :=
  mkSeg (buffer_entry_of d :: segs b) (u64 (seg_size b + Z.of_nat (length d))).
Definition push (d : list Z) (b : SegBuffer) : SegBuffer :=
  mkSeg (segs b ++ [buffer_entry_of d]) (u64 (seg_size b + Z.of_nat (length d))).

(** move_pop: the front of an empty list is undefined behaviour. *)
Definition move_pop (b : SegBuffer) : option (list Z * SegBuffer) :=
  match segs b with
  | [] => None
  | e :: l => Some (ent_data e, mkSeg l (u64 (seg_size b - Z.of_nat (length (ent_data e)))))
  end.

(** The loop of pop.  When the entry is not used up, [copy_len] was [len], which
    is then zero, and the loop ends at this entry. *)
Fixpoint pop_loop (l : list buffer_entry) (len : nat) : list Z * list buffer_entry :=
  match l with
  | [] => ([], [])
  | e :: l' =>
    if Nat.eqb len 0 then ([], l)
    else
      let copy_len := Nat.min (entry_length e) len in
      let d := take copy_len (drop (ent_offset e) (ent_data e)) in
      let e := mkEntry (ent_data e) (ent_offset e + copy_len) in
      if Nat.eqb (ent_offset e) (length (ent_data e)) then
        let '(res, l'') := pop_loop l' (len - copy_len) in (d ++ res, l'')
      else (d, e :: l')
  end.

Definition pop (len : nat) (b : SegBuffer) : list Z * SegBuffer :=
  let '(res, l) := pop_loop (segs b) len in (res, mkSeg l (u64 (seg_size b - Z.of_nat (length res)))).

Definition seg_len (b : SegBuffer) : nat := length (segs b).
Definition seg_empty (b : SegBuffer) : bool := match segs b with [] => true | _ => false end.
Definition seg_clear (b : SegBuffer) : SegBuffer := mkSeg [] 0.

(** ** The queue of bytes *)

Definition rest (e : buffer_entry) : list Z := drop (ent_offset e) (ent_data e).
Definition contents (l : list buffer_entry) : list Z := l ≫= rest.
Definition content (b : SegBuffer) : list Z := contents (segs b).

Record seg_ok (b : SegBuffer) : Prop := {
  so_offsets : Forall (fun e => (ent_offset e <= length (ent_data e))%nat) (segs b);
  so_size : seg_size b = Z.of_nat (length (content b));
  so_range : Z.of_nat (length (content b)) < 2 ^ 64;
}.

Lemma rest_length e : length (rest e) = entry_length e.
Proof. unfold rest, entry_length. apply length_drop. Qed.

Lemma new_ok : seg_ok SegBuffer_new.
Proof. by split. Qed.

Lemma clear_ok b : seg_ok (seg_clear b) /\ content (seg_clear b) = [].
Proof. split; [apply new_ok|done]. Qed.

Lemma push_spec d b : seg_ok b -> Z.of_nat (length (content b) + length d) < 2 ^ 64 ->
  seg_ok (push d b) /\ content (push d b) = content b ++ d.
Proof.
  intros [Ho Hs Hr] Hd.
  assert (content (push d b) = content b ++ d) as Hc.
  { unfold content, contents, push. cbn [segs]. rewrite bind_app. cbn [mbind list_bind]. by rewrite app_nil_r. }
  split; [|exact Hc]. split; rewrite ?Hc, ?length_app; cbn [segs seg_size push].
  - apply Forall_app_2; [exact Ho|]. repeat constructor. cbn. lia.
  - rewrite Hs, u64_small by lia. lia.
  - lia.
Qed.

Lemma rewind_spec d b : seg_ok b -> Z.of_nat (length (content b) + length d) < 2 ^ 64 ->
  seg_ok (rewind d b) /\ content (rewind d b) = d ++ content b.
Proof.
  intros [Ho Hs Hr] Hd. assert (content (rewind d b) = d ++ content b) as Hc by reflexivity.
  split; [|exact Hc]. split; rewrite ?Hc, ?length_app; cbn [segs seg_size rewind].
  - constructor; [cbn; lia|exact Ho].
  - rewrite Hs, u64_small by lia. lia.
  - lia.
Qed.

Lemma pop_loop_spec l len : Forall (fun e => (ent_offset e <= length (ent_data e))%nat) l ->
  let '(res, l') := pop_loop l len in
  res = take len (contents l) /\ contents l' = drop len (contents l) /\
  Forall (fun e => (ent_offset e <= length (ent_data e))%nat) l' /\ (length l' <= length l)%nat.
Proof.
  intros Hl. revert len. induction Hl as [|e l He Hl IH]; intros len; cbn [pop_loop].
  { by destruct len. }
  destruct (Nat.eqb_spec len 0) as [->|Hn]; [split_and!; [done|done|by constructor|done]|].
  cbn [ent_offset ent_data]. cbv zeta. change (contents (e :: l)) with (rest e ++ contents l).
  change (drop (ent_offset e) (ent_data e)) with (rest e). pose proof (rest_length e) as Hre.
  destruct (Nat.eqb_spec (ent_offset e + Nat.min (entry_length e) len) (length (ent_data e))) as [Heq|Hne].
  - assert (Nat.min (entry_length e) len = entry_length e) as Hmin by (unfold entry_length in *; lia). rewrite Hmin.
    specialize (IH (len - entry_length e)%nat). destruct (pop_loop l (len - entry_length e)) as [res l']. destruct IH as (-> & Hd & Ho & Hlen).
    rewrite take_app, drop_app, Hre, (take_ge (rest e)), (take_ge (rest e) len), (drop_ge (rest e) len) by lia.
    split; [done|]. split; [exact Hd|]. split; [exact Ho|]. cbn [length]. lia.
  - assert (Nat.min (entry_length e) len = len) as Hmin by (unfold entry_length in *; lia). rewrite Hmin in *.
    rewrite take_app_le, drop_app_le by lia. split; [done|]. split; [|split; [|done]].
    + cbn [contents mbind list_bind]. unfold rest at 1. cbn [ent_offset ent_data]. unfold rest. by rewrite drop_drop.
    + constructor; [|exact Hl]. cbn [ent_offset ent_data]. unfold entry_length in *. lia.
Qed.

(** pop takes the bytes at the front of the queue. *)
Lemma pop_spec len b : seg_ok b ->
  let '(res, b') := pop len b in
  res = take len (content b) /\ content b' = drop len (content b) /\ seg_ok b' /\ (seg_len b' <= seg_len b)%nat.
Proof.
  intros [Ho Hs Hr]. unfold pop. pose proof (pop_loop_spec (segs b) len Ho) as H. destruct (pop_loop (segs b) len) as [res l].
  destruct H as (-> & Hc & Ho' & Hlen). fold (content b) in *. split; [done|]. split; [exact Hc|]. split; [|exact Hlen].
  assert (length (content (mkSeg l (u64 (seg_size b - Z.of_nat (length (take len (content b))))))) = length (content b) - len)%nat as Hl'
    by (unfold content at 1; cbn [segs]; rewrite Hc; apply length_drop).
  split; cbn [segs seg_size]; [exact Ho'| |].
  - rewrite Hl', Hs, length_take, u64_small; lia.
  - rewrite Hl'. lia.
Qed.

(** move_pop takes a whole segment, if none of it was consumed. *)
Lemma move_pop_spec b e l : seg_ok b -> segs b = e :: l -> ent_offset e = 0%nat ->
  exists b', move_pop b = Some (ent_data e, b') /\ content b = ent_data e ++ content b' /\ seg_ok b'.
Proof.
  intros [Ho Hs Hr] Hb He. unfold move_pop. rewrite Hb. eexists. split; [reflexivity|].
  assert (content b = ent_data e ++ contents l) as Hc.
  { unfold content. rewrite Hb. change (contents (e :: l)) with (rest e ++ contents l). unfold rest. by rewrite He. }
  split; [exact Hc|]. rewrite Hc, length_app in *. rewrite Hb in Ho. apply Forall_cons in Ho as [_ Ho].
  split; [exact Ho| |]; unfold content; cbn [segs seg_size].
  - rewrite Hs, u64_small; lia.
  - lia.
Qed.

(** After a partial pop it takes the consumed bytes again, and the size wraps. *)
Lemma move_pop_after_pop : let b := (pop 1 (push [1; 2] SegBuffer_new)).2 in
  content b = [2] /\ exists b', move_pop b = Some ([1; 2], b') /\ content b' = [] /\ seg_size b' = 2 ^ 64 - 1.
Proof. split; [reflexivity|]. eexists. split; [reflexivity|]. split; reflexivity. Qed.
