(* ===== verification/Framing.v ===== *)
(** * Messages on the wire

    [salticidae/include/salticidae/msg.h]: class MsgBase, the header of 13 bytes
    in front of every payload, with SALTICIDAE_NOCHECK and
    SALTICIDAE_NOCHECKSUM undefined and opcodes of one byte. *)

From Stdlib Require Import ZArith Lia.
From S2P Require Import Prelude Bytes Stream.

(** class MsgBase *)
Record Msg := mkMsg {
  magic : Z; opcode : Z; msg_length : Z; checksum : Z;
  payload : list Z; no_payload : bool;
}.

Definition header_size : nat := 13.

Section Msg.
Context `{Host}.
(** The digest of the SHA1 class, a wrapper of OpenSSL. *)
Context (sha1 : list Z -> list Z).

Definition set_magic (m : Msg) (x : Z) : Msg := mkMsg x (opcode m) (msg_length m) (checksum m) (payload m) (no_payload m).
Definition set_opcode (m : Msg) (x : Z) : Msg := mkMsg (magic m) x (msg_length m) (checksum m) (payload m) (no_payload m).

(** set_payload(bytearray_t &&) *)
Definition set_payload (m : Msg) (p : list Z) : Msg :=
  mkMsg (magic m) (opcode m) (u32 (Z.of_nat (length p))) (checksum m) p false.

(** get_payload: [None] is the exception; the payload is moved out. *)
Definition get_payload (m : Msg) : option (DataStream * Msg) :=
  if no_payload m then None
  else Some (DataStream_of (payload m), mkMsg (magic m) (opcode m) (msg_length m) (checksum m) [] true).

(** get_checksum: the first four bytes of the digest, as an integer of the host. *)
Definition get_checksum (m : Msg) : option Z :=
  if no_payload m then None else Some (host_val (take 4 (sha1 (payload m)))).

Definition set_checksum (m : Msg) : option Msg :=
  c ← get_checksum m; Some (mkMsg (magic m) (opcode m) (msg_length m) c (payload m) (no_payload m)).

Definition verify_checksum (m : Msg) : option bool := c ← get_checksum m; Some (checksum m =? c).

(** MsgBase(msg, magic) for a message of a given opcode; [junk] is what the
    members hold that the constructor does not initialise. *)
Definition Msg_new (junk : Msg) (op : Z) (serialized : list Z) (mag : Z) : option Msg :=
  set_checksum (set_payload (set_opcode (set_magic junk mag) op) serialized).

(** serialize *)
Definition msg_serialize (m : Msg) : list Z :=
  into_bytearray (put_data (payload m) (put_int 4 (htole 4 (checksum m)) (put_int 4 (htole 4 (msg_length m))
    (put_int 1 (opcode m) (put_int 4 (htole 4 (magic m)) DataStream_new))))).

(** MsgBase(DataStream &&): the header, without a payload. *)
Definition msg_header : SM Msg :=
  mag ← get_int 4;
  op ← get_int 1;
  len ← get_int 4;
  chk ← get_int 4;
  mret (mkMsg (letoh 4 mag) op (letoh 4 len) (letoh 4 chk) [] true).

(** ** What is on the wire *)

Record msg_ok (m : Msg) : Prop := {
  mk_magic : 0 <= magic m < 2 ^ 32;
  mk_opcode : 0 <= opcode m < 256;
  mk_checksum : 0 <= checksum m < 2 ^ 32;
  mk_length : msg_length m = Z.of_nat (length (payload m));
  mk_short : Z.of_nat (length (payload m)) < 2 ^ 32;
}.

Definition header_bytes (m : Msg) : list Z :=
  le_bytes 4 (magic m) ++ host_bytes 1 (opcode m) ++ le_bytes 4 (msg_length m) ++ le_bytes 4 (checksum m).

Lemma header_bytes_length m : length (header_bytes m) = header_size.
Proof. unfold header_bytes. rewrite !length_app, !le_bytes_length, host_bytes_length. reflexivity. Qed.

Lemma serialize_frame m : msg_serialize m = header_bytes m ++ payload m.
Proof.
  unfold msg_serialize, into_bytearray, put_int, put_data, header_bytes. cbn [buffer DataStream_new].
  rewrite !host_bytes_htole, app_nil_l, <- !(assoc_L (++)). reflexivity.
Qed.

Lemma parses_header m : msg_ok m ->
  parses (msg_header) (header_bytes m) (mkMsg (magic m) (opcode m) (msg_length m) (checksum m) [] true).
Proof.
  intros [Hm Ho Hc Hl Hs].
  assert (forall x, letoh 4 (host_val (le_bytes 4 x)) = x mod 2 ^ 32) as Hle.
  { intros x. pose proof (letoh_host_val (le_bytes 4 x) (le_bytes_ok 4 x)) as E. rewrite le_bytes_length in E. rewrite E, le_val_bytes. reflexivity. }
  assert (forall x, parses (get_int 4) (le_bytes 4 x) (host_val (le_bytes 4 x))) as Hget
    by (intros x; apply parses_get_int; [apply le_bytes_ok|apply le_bytes_length]).
  unfold msg_header, header_bytes. eapply parses_bind; [apply Hget|]. eapply parses_bind; [apply parses_host_int; simpl; lia|].
  eapply parses_bind; [apply Hget|]. rewrite <- (app_nil_r (le_bytes 4 (checksum m))).
  eapply parses_bind; [apply Hget|]. rewrite !Hle, !Z.mod_small by lia. apply parses_ret.
Qed.

(** Reading a header from exactly its bytes. *)
Lemma header_of_bytes m : msg_ok m ->
  exists s, msg_header (DataStream_of (header_bytes m)) =
    (inl (mkMsg (magic m) (opcode m) (msg_length m) (checksum m) [] true), s).
Proof.
  intros Hm. destruct (parses_header m Hm (DataStream_of (header_bytes m)) []) as (s & Hs & _); [|by exists s].
  rewrite app_nil_r. apply ready_of. rewrite header_bytes_length. done.
Qed.

(** Any 13 bytes are a header, of the length that bytes 5 to 8 announce. *)
Lemma header_total l : length l = header_size -> Forall byte_ok l -> exists m s,
  msg_header (DataStream_of l) = (inl m, s) /\ no_payload m = true /\ msg_length m = le_val (take 4 (drop 5 l)).
Proof.
  intros Hl Hok.
  assert (l = take 4 l ++ take 1 (drop 4 l) ++ take 4 (drop 5 l) ++ drop 9 l) as Hsplit.
  { replace (drop 9 l) with (drop 4 (drop 5 l)) by (by rewrite drop_drop).
    rewrite take_drop. replace (drop 5 l) with (drop 1 (drop 4 l)) by (by rewrite drop_drop). by rewrite !take_drop. }
  assert (forall n k, (n + k <= 13)%nat -> Forall byte_ok (take n (drop k l)) /\ length (take n (drop k l)) = n) as Hf.
  { intros n k Hk. split; [by apply Forall_take, Forall_drop|]. rewrite length_take, length_drop, Hl. unfold header_size. lia. }
  assert (parses (msg_header) l (mkMsg (letoh 4 (host_val (take 4 l))) (host_val (take 1 (drop 4 l)))
    (letoh 4 (host_val (take 4 (drop 5 l)))) (letoh 4 (host_val (drop 9 l))) [] true)) as Hp.
  { rewrite Hsplit at 1. unfold msg_header. eapply parses_bind; [apply (parses_get_int 4); apply (Hf 4 0)%nat; lia|].
    eapply parses_bind; [apply (parses_get_int 1); apply (Hf 1 4)%nat; lia|].
    eapply parses_bind; [apply (parses_get_int 4); apply (Hf 4 5)%nat; lia|].
    rewrite <- (app_nil_r (drop 9 l)). eapply parses_bind.
    { apply (parses_get_int 4); [by apply Forall_drop|]. rewrite length_drop, Hl. reflexivity. }
    rewrite app_nil_r. apply parses_ret. }
  destruct (Hp (DataStream_of l) []) as (s & Hs & _).
  { rewrite app_nil_r. apply ready_of. rewrite Hl. done. }
  do 2 eexists. split; [exact Hs|]. cbn [no_payload msg_length]. split; [done|].
  pose proof (letoh_host_val (take 4 (drop 5 l))) as E. destruct (Hf 4 5)%nat as [H1 H2]; [lia|]. specialize (E H1). by rewrite H2 in E.
Qed.

(** ** Messages as they are made *)

Definition digest_like : Prop := forall l, (4 <= length (sha1 l))%nat /\ Forall byte_ok (sha1 l).

Lemma checksum_range l : digest_like -> 0 <= host_val (take 4 (sha1 l)) < 2 ^ 32.
Proof.
  intros Hd. destruct (Hd l) as [Hl Hok]. pose proof (host_val_range (take 4 (sha1 l)) ltac:(by apply Forall_take)) as Hr.
  rewrite length_take, Nat.min_l in Hr by lia. exact Hr.
Qed.

Lemma Msg_new_spec junk op l mag : digest_like -> 0 <= op < 256 -> 0 <= mag < 2 ^ 32 -> Z.of_nat (length l) < 2 ^ 32 ->
  exists m, Msg_new junk op l mag = Some m /\ msg_ok m /\ payload m = l /\ opcode m = op /\ magic m = mag /\
    no_payload m = false /\ verify_checksum m = Some true.
Proof.
  intros Hd Hop Hmag Hl. eexists. split; [reflexivity|]. split.
  { split; cbn [magic opcode checksum msg_length payload]; [exact Hmag|exact Hop|by apply checksum_range| |exact Hl].
    apply u32_small. split; [lia|exact Hl]. }
  split_and!; try done. exact (f_equal Some (Z.eqb_refl _)).
Qed.

(** The message a receiver rebuilds from a header and a payload. *)
Lemma set_payload_frame m : msg_ok m -> no_payload m = false ->
  set_payload (mkMsg (magic m) (opcode m) (msg_length m) (checksum m) [] true) (payload m) = m.
Proof.
  intros [Hm Ho Hc Hl Hs] Hn. unfold set_payload. cbn [magic opcode checksum]. rewrite u32_small by (split; [lia|exact Hs]).
  rewrite <- Hl. destruct m. cbn in *. by subst.
Qed.
End Msg.
