(* ===== verification/Conn.v ===== *)
(** * Connections

    The worker's side of a connection: [salticidae/src/conn.cpp] (_recv_data,
    _send_data, worker_terminate, and the TLS variants, which differ in the
    calls of the library only), [salticidae/include/salticidae/conn.h] (write
    and the callbacks of Worker::feed and enable_send_buffer) and MsgNetwork in
    [network.h] (on_read, the timer of a full queue, the dispatching handler).

    A worker runs one callback at a time, so the callbacks are functions of the
    state [World].  What the kernel and the queue between the threads answer is
    part of the state, as the list of the answers still to come. *)

From Stdlib Require Import ZArith Lia.
From S2P Require Import Prelude Bytes Stream SegBuffer Framing.

Inductive MsgState := HEADER | PAYLOAD.

(** MsgNetwork::Conn with what it inherits from ConnPool::Conn; [ev_read] and
    [ev_write] are the events that ev_socket waits for, [ev_poll] says whether
    the timer ev_enqueue_poll runs. *)
Record Conn := mkConn {
  msg : Msg; msg_state : MsgState; msg_sleep : bool;
  recv_buffer : SegBuffer; send_buffer : list (list Z);
  ready_recv : bool; ready_send : bool;
  ev_read : bool; ev_write : bool; ev_poll : bool;
  terminated : bool;
}.

(** What recv gives: bytes (none when the remote closed the connection), or -1
    with EWOULDBLOCK or another error; and send. *)
Inductive recv_result := Data (l : list Z) | Again | Failed.
Inductive send_result := Sent (n : nat) | SendAgain | SendFailed.

(** Exceptions; [EFuel] is not one of the code's. *)
Inductive NetError := EOversized | EPayload | EHeader | EFuel.

(** [socket] and [kernel] are what the next calls of recv and send give (and
    EWOULDBLOCK when the list is empty), [room] whether the bounded queue has a
    place (and it has when the list is empty); [incoming] is that queue,
    [sent] what send took, [notified] a wake-up of the send buffer's handler,
    [closing] a call of worker_terminate that was posted. *)
Record World := mkWorld {
  conn : Conn; socket : list recv_result; kernel : list send_result; room : list bool;
  incoming : list Msg; sent : list Z; notified : bool; closing : bool;
}.

Definition set_conn (c : Conn) (w : World) : World :=
  mkWorld c (socket w) (kernel w) (room w) (incoming w) (sent w) (notified w) (closing w).
Definition set_closing (b : bool) (w : World) : World :=
  mkWorld (conn w) (socket w) (kernel w) (room w) (incoming w) (sent w) (notified w) b.
Definition set_notified (b : bool) (w : World) : World :=
  mkWorld (conn w) (socket w) (kernel w) (room w) (incoming w) (sent w) b (closing w).
Definition set_msg (m : Msg) (c : Conn) : Conn :=
  mkConn m (msg_state c) (msg_sleep c) (recv_buffer c) (send_buffer c) (ready_recv c) (ready_send c) (ev_read c) (ev_write c) (ev_poll c) (terminated c).
Definition set_msg_state (s : MsgState) (c : Conn) : Conn :=
  mkConn (msg c) s (msg_sleep c) (recv_buffer c) (send_buffer c) (ready_recv c) (ready_send c) (ev_read c) (ev_write c) (ev_poll c) (terminated c).
Definition set_msg_sleep (b : bool) (c : Conn) : Conn :=
  mkConn (msg c) (msg_state c) b (recv_buffer c) (send_buffer c) (ready_recv c) (ready_send c) (ev_read c) (ev_write c) (ev_poll c) (terminated c).
Definition set_recv_buffer (b : SegBuffer) (c : Conn) : Conn :=
  mkConn (msg c) (msg_state c) (msg_sleep c) b (send_buffer c) (ready_recv c) (ready_send c) (ev_read c) (ev_write c) (ev_poll c) (terminated c).
Definition set_send_buffer (l : list (list Z)) (c : Conn) : Conn :=
  mkConn (msg c) (msg_state c) (msg_sleep c) (recv_buffer c) l (ready_recv c) (ready_send c) (ev_read c) (ev_write c) (ev_poll c) (terminated c).
Definition set_ready_recv (b : bool) (c : Conn) : Conn :=
  mkConn (msg c) (msg_state c) (msg_sleep c) (recv_buffer c) (send_buffer c) b (ready_send c) (ev_read c) (ev_write c) (ev_poll c) (terminated c).
Definition set_ready_send (b : bool) (c : Conn) : Conn :=
  mkConn (msg c) (msg_state c) (msg_sleep c) (recv_buffer c) (send_buffer c) (ready_recv c) b (ev_read c) (ev_write c) (ev_poll c) (terminated c).
Definition set_ev_poll (b : bool) (c : Conn) : Conn :=
  mkConn (msg c) (msg_state c) (msg_sleep c) (recv_buffer c) (send_buffer c) (ready_recv c) (ready_send c) (ev_read c) (ev_write c) b (terminated c).
Definition set_terminated (c : Conn) : Conn :=
  mkConn (msg c) (msg_state c) (msg_sleep c) (recv_buffer c) (send_buffer c) (ready_recv c) (ready_send c) (ev_read c) (ev_write c) (ev_poll c) true.

(** ev_socket.del(); ev_socket.add(events) *)
Definition set_events (rd wr : bool) (c : Conn) : Conn :=
  mkConn (msg c) (msg_state c) (msg_sleep c) (recv_buffer c) (send_buffer c) (ready_recv c) (ready_send c) rd wr (ev_poll c) (terminated c).

Abbreviation NM := (M World NetError).
Definition on_conn (f : Conn -> Conn) : NM unit := modify (fun w => set_conn (f (conn w)) w).

(** The defaults of ConnPool::Config and MsgNetwork::Config; archipelago_app.cpp and
    archipelago_client.cpp leave them as they are. *)
Definition config_recv_chunk_size : nat := 4096.
Definition config_max_recv_buff_size : nat := 4096.
Definition config_max_msg_size : Z := 1024.

Section Conn.
Context `{Host}.
(** The digest of the library, and the configuration of the connection. *)
Context (sha1 : list Z -> list Z) (recv_chunk_size max_recv_buff_size : nat) (max_msg_size : Z).

(** ** System calls and queues *)

Definition recv : NM recv_result := fun w =>
  match socket w with
  | [] => (inl Again, w)
  | r :: l => (inl r, mkWorld (conn w) l (kernel w) (room w) (incoming w) (sent w) (notified w) (closing w))
  end.

(** send takes at most the bytes it is given. *)
Definition send (seg : list Z) : NM send_result := fun w =>
  match kernel w with
  | [] => (inl SendAgain, w)
  | r :: l =>
    let n := match r with Sent n => n | _ => 0%nat end in
    (inl r, mkWorld (conn w) (socket w) l (room w) (incoming w) (sent w ++ take n seg) (notified w) (closing w))
  end.

(** incoming_msgs.enqueue(m, false) *)
Definition enqueue (m : Msg) : NM bool := fun w =>
  let l := match room w with [] => [] | _ :: l => l end in
  if default true (head (room w)) then
    (inl true, mkWorld (conn w) (socket w) (kernel w) l (incoming w ++ [m]) (sent w) (notified w) (closing w))
  else (inl false, mkWorld (conn w) (socket w) (kernel w) l (incoming w) (sent w) (notified w) (closing w)).

(** ConnPool::worker_terminate posts the call that [teardown] runs. *)
Definition worker_terminate : NM unit := modify (set_closing true).
Definition teardown : NM unit :=
  w ← get;
  if closing w then
    _ ← modify (set_closing false);
    if terminated (conn w) then mret tt
    else on_conn (fun c => set_ev_poll false (set_events false false (set_terminated c)))
  else mret tt.

(** ** Reading messages *)

Inductive loop_exit := LoopBreak | LoopReturn.

(** The loop of MsgNetwork::on_read; a break leaves it, a return leaves on_read. *)
Fixpoint read_loop (fuel : nat) : NM loop_exit :=
  match fuel with
  | O => throw EFuel
  | S fuel =>
    c ← gets conn;
    go ← match msg_state c with
      | PAYLOAD => mret true
      | HEADER =>
        if seg_size (recv_buffer c) <? Z.of_nat header_size then mret false
        else
          let '(l, b) := pop header_size (recv_buffer c) in
          _ ← on_conn (set_recv_buffer b);
          m ← match (msg_header (DataStream_of l)).1 with inl m => mret m | inr _ => throw EHeader end;
          _ ← on_conn (set_msg m);
          if max_msg_size <? msg_length m then throw EOversized
          else _ ← on_conn (set_msg_state PAYLOAD); mret true
      end;
    if negb go then mret LoopBreak
    else
      c ← gets conn;
      if seg_size (recv_buffer c) <? msg_length (msg c) then mret LoopBreak
      else
        let '(l, b) := pop (Z.to_nat (msg_length (msg c))) (recv_buffer c) in
        let m := set_payload (msg c) l in
        _ ← on_conn (fun c => set_msg_state HEADER (set_msg m (set_recv_buffer b c)));
        ok ← from_option EPayload (verify_checksum sha1 m);
        if negb ok then mret LoopBreak
        else
          ok ← enqueue m;
          if ok : bool then read_loop fuel
          else _ ← on_conn (fun c => set_ev_poll true (set_msg_sleep true c)); mret LoopReturn
  end.

(** The loop of ConnPool::Conn::_recv_data. *)
Fixpoint recv_loop (fuel : nat) : NM loop_exit :=
  match fuel with
  | O => throw EFuel
  | S fuel =>
    c ← gets conn;
    if Nat.leb max_recv_buff_size (seg_len (recv_buffer c)) then
      _ ← on_conn (fun c => set_ready_recv true (set_events false (negb (ready_send c)) c));
      mret LoopReturn
    else
      r ← recv;
      match r with
      | Again => mret LoopBreak
      | Failed | Data [] => _ ← worker_terminate; mret LoopReturn
      | Data l =>
        _ ← on_conn (fun c => set_recv_buffer (push l (recv_buffer c)) c);
        if Nat.eqb (length l) recv_chunk_size then recv_loop fuel else mret LoopBreak
      end
  end.

(** ConnPool::Conn::_recv_data, given the function on_read. *)
Definition recv_data_with (on_read : NM unit) : NM unit :=
  w ← get;
  e ← recv_loop (S (length (socket w)));
  match e with
  | LoopReturn => mret tt
  | LoopBreak => _ ← on_conn (set_ready_recv false); on_read
  end.

(** MsgNetwork::on_read and _recv_data call each other. *)
Fixpoint on_read (fuel : nat) : NM unit :=
  match fuel with
  | O => throw EFuel
  | S fuel =>
    c ← gets conn;
    if msg_sleep c then mret tt
    else
      e ← read_loop (S (S (Z.to_nat (seg_size (recv_buffer c)))));
      match e with
      | LoopReturn => mret tt
      | LoopBreak =>
        c ← gets conn;
        if ready_recv c && Nat.ltb (seg_len (recv_buffer c)) max_recv_buff_size then
          _ ← on_conn (fun c => set_events true (negb (ready_send c)) c);
          recv_data_with (on_read fuel)
        else mret tt
      end
  end.

(** Two levels are enough: _recv_data clears ready_recv before it calls on_read. *)
Definition recv_data : NM unit := recv_data_with (on_read 2).

(** The timer ev_enqueue_poll. *)
Definition enqueue_poll : NM unit :=
  _ ← on_conn (set_ev_poll false);
  c ← gets conn;
  ok ← enqueue (msg c);
  if ok : bool then _ ← on_conn (set_msg_sleep false); on_read 2
  else on_conn (fun c => set_ev_poll true (set_msg_sleep true c)).

(** ** Writing *)

(** The loop of ConnPool::Conn::_send_data. *)
Fixpoint send_loop (fuel : nat) : NM loop_exit :=
  match fuel with
  | O => throw EFuel
  | S fuel =>
    c ← gets conn;
    let '(seg, l) := match send_buffer c with [] => ([], []) | seg :: l => (seg, l) end in
    _ ← on_conn (set_send_buffer l);
    if Nat.eqb (length seg) 0 then mret LoopBreak
    else
      r ← send seg;
      match r with
      | Sent n =>
        if Nat.ltb n (length seg) then
          _ ← on_conn (fun c => set_send_buffer ((if Nat.ltb n 1 then seg else drop n seg) :: send_buffer c) c);
          _ ← on_conn (set_ready_send false); mret LoopReturn
        else send_loop fuel
      | SendAgain =>
        _ ← on_conn (fun c => set_send_buffer (seg :: send_buffer c) c);
        _ ← on_conn (set_ready_send false); mret LoopReturn
      | SendFailed =>
        _ ← on_conn (fun c => set_send_buffer (seg :: send_buffer c) c);
        _ ← worker_terminate; mret LoopReturn
      end
  end.

Definition send_data : NM unit :=
  c ← gets conn;
  e ← send_loop (S (length (send_buffer c)));
  match e with
  | LoopReturn => mret tt
  | LoopBreak => on_conn (fun c => set_ready_send true (set_events (negb (ready_recv c)) false c))
  end.

(** ConnPool::Conn::write on an unbounded send buffer, which wakes its handler. *)
Definition write (data : list Z) : NM unit :=
  _ ← on_conn (fun c => set_send_buffer (send_buffer c ++ [data]) c);
  modify (set_notified true).

(** The handler of enable_send_buffer. *)
Definition send_notify : NM unit :=
  _ ← modify (set_notified false);
  c ← gets conn;
  if ready_send c then
    _ ← on_conn (fun c => set_events (negb (ready_recv c)) true c);
    send_data
  else mret tt.

(** MsgNetwork::_send_msg *)
Definition send_msg (m : Msg) : NM unit := write (msg_serialize m).

(** ** Callbacks *)

(** The callback of ev_socket (Worker::feed) catches exceptions and terminates
    the connection. *)
Definition guarded (m : NM unit) : NM unit := fun w =>
  match m w with
  | (inl a, w) => (inl a, w)
  | (inr EFuel, w) => (inr EFuel, w)
  | (inr _, w) => worker_terminate w
  end.

Inductive event := EvRead | EvWrite | EvError | EvPoll | EvNotify | EvTeardown | EvSend (m : Msg).

(** What the event loop runs: a callback only when its event is waited for.  With
    the flag of an error both functions of ev_socket terminate the connection. *)
Definition callback (e : event) : NM unit :=
  w ← get;
  match e with
  | EvRead => if ev_read (conn w) then guarded recv_data else mret tt
  | EvWrite => if ev_write (conn w) then guarded send_data else mret tt
  | EvError => if ev_read (conn w) || ev_write (conn w) then worker_terminate else mret tt
  | EvPoll => if ev_poll (conn w) then enqueue_poll else mret tt
  | EvNotify => if notified w && negb (terminated (conn w)) then send_notify else mret tt
  | EvTeardown => teardown
  | EvSend m => send_msg m
  end.

Fixpoint run_events (es : list event) : NM unit :=
  match es with [] => mret tt | e :: es => _ ← callback e; run_events es end.

(** A connection as Worker::feed and update_conn leave it, with what the kernel
    and the queue will answer. *)
Definition Conn_new (m : Msg) : Conn :=
  mkConn m HEADER false SegBuffer_new [] false false true true false false.
Definition World_new (m : Msg) (sk : list recv_result) (kn : list send_result) (rm : list bool) : World :=
  mkWorld (Conn_new m) sk kn rm [] [] false false.
End Conn.
