(* ===== verification/ConnLaw.v ===== *)
(** * What a connection delivers

    Whatever pieces the stream arrives in and however often the queue between
    the threads is full, the messages come out whole, once and in order; what is
    written goes out in order; and where the code loses, withholds or gives up. *)

From Stdlib Require Import ZArith Lia.
From S2P Require Import Prelude Bytes Stream SegBuffer Framing Conn.

(** The part of the state that reading messages leaves alone. *)
Definition io (w : World) :=
  (socket w, kernel w, sent w, notified w, closing w, send_buffer (conn w), ready_recv (conn w), ready_send (conn w),
   ev_read (conn w), ev_write (conn w), terminated (conn w)).

(** The bytes that recv will give. *)
Definition socket_data (sk : list recv_result) : list Z := sk ≫= (fun r => match r with Data l => l | _ => [] end).

(** The bytes not yet parsed. *)
Definition unread (w : World) : list Z := content (recv_buffer (conn w)) ++ socket_data (socket w).

(** A stream of messages. *)
Definition wire `{Host} (ms : list Msg) : list Z := ms ≫= msg_serialize.

(** A header without its payload. *)
Definition header_only (m : Msg) : Msg := mkMsg (magic m) (opcode m) (msg_length m) (checksum m) [] true.

Ltac run := unfold on_conn, mbind, M_bind, mret, M_ret, gets, get, modify, throw, from_option; cbn [fst snd negb conn set_conn].

Section Law.
Context `{Host} (sha1 : list Z -> list Z) (recv_chunk_size max_recv_buff_size : nat) (max_msg_size : Z).

(** A message the receiver takes. *)
Record good_msg (m : Msg) : Prop := {
  gm_ok : msg_ok m; gm_payload : no_payload m = false;
  gm_checksum : verify_checksum sha1 m = Some true; gm_size : msg_length m <= max_msg_size;
}.

Section Stream.
(** The bytes of the stream that are never received. *)
Context (missing : list Z).

(** Where the reader is in a stream of messages [todo]. *)
Inductive position (w : World) : list Msg -> Prop :=
  | at_header todo : msg_sleep (conn w) = false -> ev_poll (conn w) = false -> msg_state (conn w) = HEADER ->
      unread w ++ missing = wire todo -> position w todo
  | at_payload m todo : msg_sleep (conn w) = false -> ev_poll (conn w) = false -> msg_state (conn w) = PAYLOAD -> msg (conn w) = header_only m ->
      unread w ++ missing = payload m ++ wire todo -> position w (m :: todo)
  | asleep m todo : msg_sleep (conn w) = true -> msg_state (conn w) = HEADER -> msg (conn w) = m ->
      ev_poll (conn w) = true -> unread w ++ missing = wire todo -> position w (m :: todo).

(** No whole message is left in the buffer. *)
Definition drained (w : World) : Prop :=
  match msg_state (conn w) with
  | HEADER => (length (content (recv_buffer (conn w))) < header_size)%nat
  | PAYLOAD => Z.of_nat (length (content (recv_buffer (conn w)))) < msg_length (msg (conn w))
  end.

Lemma wire_cons m todo : wire (m :: todo) = header_bytes m ++ payload m ++ wire todo.
Proof. unfold wire. cbn [mbind list_bind]. by rewrite serialize_frame, <- (assoc_L (++)). Qed.

(** The front of what is unread, when it is in the buffer. *)
Lemma front_in_buffer (c d l r : list Z) : c ++ d = l ++ r -> (length l <= length c)%nat ->
  take (length l) c = l /\ drop (length l) c ++ d = r.
Proof.
  intros E Hl. assert (take (length l) (c ++ d) = take (length l) (l ++ r)) as Ht by (by rewrite E).
  assert (drop (length l) (c ++ d) = drop (length l) (l ++ r)) as Hd by (by rewrite E).
  rewrite take_app_le, take_app_length in Ht by lia. rewrite drop_app_le, drop_app_length in Hd by lia. by split.
Qed.

Lemma wire_front w todo n : unread w ++ missing = wire todo -> (0 < n <= length (content (recv_buffer (conn w))))%nat ->
  exists m todo', todo = m :: todo'.
Proof.
  intros E Hn. destruct todo as [|m todo]; [|by exists m, todo]. exfalso. unfold unread, wire in E. cbn [mbind list_bind] in E.
  apply (f_equal length) in E. rewrite !length_app in E. cbn in E. lia.
Qed.

(** What the loop of on_read does with good messages. *)
Record progress (w : World) (todo : list Msg) (e : loop_exit) (w' : World) : Prop := {
  pg_io : io w' = io w;
  pg_buf : seg_ok (recv_buffer (conn w'));
  pg_len : (seg_len (recv_buffer (conn w')) <= seg_len (recv_buffer (conn w)))%nat;
  pg_size : (length (content (recv_buffer (conn w'))) <= length (content (recv_buffer (conn w))))%nat;
  pg_pos : exists dn todo', todo = dn ++ todo' /\ incoming w' = incoming w ++ dn /\ position w' todo';
  pg_exit : match e with LoopBreak => msg_sleep (conn w') = false /\ drained w' | LoopReturn => msg_sleep (conn w') = true end;
}.

Lemma progress_step w w1 dn todo e w' : io w1 = io w -> incoming w1 = incoming w ++ dn ->
  (seg_len (recv_buffer (conn w1)) <= seg_len (recv_buffer (conn w)))%nat ->
  (length (content (recv_buffer (conn w1))) <= length (content (recv_buffer (conn w))))%nat ->
  progress w1 todo e w' -> progress w (dn ++ todo) e w'.
Proof.
  intros Hio Hin Hl Hs [P1 P2 P3 P4 (d & t & -> & P5 & P6) P7]. split; [by rewrite P1|exact P2|lia|lia| |exact P7].
  exists (dn ++ d), t. rewrite P5, Hin, !(assoc_L (++)). by repeat split.
Qed.

(** A header that is whole in the buffer is parsed, and the loop goes on. *)
Definition parsed (hdr : Msg) (b : SegBuffer) (w : World) : World :=
  set_conn (set_msg_state PAYLOAD (set_msg hdr (set_recv_buffer b (conn w)))) w.

Lemma read_loop_header f w hdr l b s : msg_state (conn w) = HEADER -> Z.of_nat header_size <= seg_size (recv_buffer (conn w)) ->
  pop header_size (recv_buffer (conn w)) = (l, b) -> msg_header (DataStream_of l) = (inl hdr, s) -> msg_length hdr <= max_msg_size ->
  read_loop sha1 max_msg_size (S f) w = read_loop sha1 max_msg_size (S f) (parsed hdr b w).
Proof.
  intros Hst Hsz Hpop Hhdr Hlen. cbn [read_loop]. run. unfold parsed. cbn [conn set_conn msg_state set_msg_state set_msg set_recv_buffer].
  rewrite Hst. rewrite (proj2 (Z.ltb_ge _ _)) by lia. rewrite Hpop. run. rewrite Hhdr. run.
  rewrite (proj2 (Z.ltb_ge _ _)) by lia. run. reflexivity.
Qed.

(** A payload that is whole in the buffer is taken, checked and queued. *)
Definition taken (b : SegBuffer) (m : Msg) (w : World) : World :=
  set_conn (set_msg_state HEADER (set_msg m (set_recv_buffer b (conn w)))) w.

Lemma read_loop_payload f w l b m : msg_state (conn w) = PAYLOAD -> msg_length (msg (conn w)) <= seg_size (recv_buffer (conn w)) ->
  pop (Z.to_nat (msg_length (msg (conn w)))) (recv_buffer (conn w)) = (l, b) -> m = set_payload (msg (conn w)) l ->
  verify_checksum sha1 m = Some true ->
  read_loop sha1 max_msg_size (S f) w =
    match enqueue m (taken b m w) with
    | (inl true, w') => read_loop sha1 max_msg_size f w'
    | (_, w') => (inl LoopReturn, set_conn (set_ev_poll true (set_msg_sleep true (conn w'))) w')
    end.
Proof.
  intros Hst Hsz Hpop -> Hchk. cbn [read_loop]. run. rewrite Hst. run. rewrite (proj2 (Z.ltb_ge _ _)) by lia. rewrite Hpop. run.
  rewrite Hchk. run. unfold taken. destruct (enqueue _ _) as [[[|]|e] w'] eqn:E; run; [reflexivity|reflexivity|].
  unfold enqueue in E. by destruct (default true _).
Qed.

Lemma read_loop_short f w : match msg_state (conn w) with
    | HEADER => seg_size (recv_buffer (conn w)) < Z.of_nat header_size
    | PAYLOAD => seg_size (recv_buffer (conn w)) < msg_length (msg (conn w))
    end -> read_loop sha1 max_msg_size (S f) w = (inl LoopBreak, w).
Proof.
  intros Hs. cbn [read_loop]. run. destruct (msg_state (conn w)); run; rewrite (proj2 (Z.ltb_lt _ _) Hs); reflexivity.
Qed.

(** The queue takes the message or has no room. *)
Lemma enqueue_spec m w : exists ok w', enqueue m w = (inl ok, w') /\ conn w' = conn w /\ io w' = io w /\
  incoming w' = incoming w ++ (if ok : bool then [m] else []).
Proof.
  unfold enqueue. destruct (default true (head (room w))); [exists true|exists false]; (eexists; split; [reflexivity|]);
    cbn [conn incoming]; rewrite ?app_nil_r; by repeat split.
Qed.

Lemma read_payload_spec f w m todo : good_msg m -> seg_ok (recv_buffer (conn w)) ->
  msg_sleep (conn w) = false -> ev_poll (conn w) = false -> msg_state (conn w) = PAYLOAD -> msg (conn w) = header_only m ->
  unread w ++ missing = payload m ++ wire todo -> (length (payload m) <= length (content (recv_buffer (conn w))))%nat ->
  (forall w1, seg_ok (recv_buffer (conn w1)) -> position w1 todo -> msg_sleep (conn w1) = false -> msg_state (conn w1) = HEADER ->
     (length (content (recv_buffer (conn w1))) <= length (content (recv_buffer (conn w))))%nat ->
     exists e w', read_loop sha1 max_msg_size f w1 = (inl e, w') /\ progress w1 todo e w') ->
  exists e w', read_loop sha1 max_msg_size (S f) w = (inl e, w') /\ progress w (m :: todo) e w'.
Proof.
  intros [Hm Hnp Hchk Hsz] Hb Hsl Hpl Hst Hmsg Hun Hlen Hnext. pose proof (mk_length _ Hm) as Hml.
  pose proof (pop_spec (length (payload m)) (recv_buffer (conn w)) Hb) as Hpop.
  destruct (pop (length (payload m)) (recv_buffer (conn w))) as [l b] eqn:Epop. destruct Hpop as (-> & Hcb & Hbok & Hbl).
  unfold unread in Hun. rewrite <- (assoc_L (++)) in Hun. destruct (front_in_buffer _ _ _ _ Hun Hlen) as [Ht Hd]. rewrite Ht in Epop.
  assert (set_payload (header_only m) (payload m) = m) as Hset by (by apply set_payload_frame).
  rewrite (read_loop_payload f w (payload m) b m); cbn [set_payload]; rewrite ?Hmsg; cbn [header_only msg_length]; try done.
  2: rewrite Hml, (so_size _ Hb); lia. 2: by rewrite Hml, Nat2Z.id.
  set (w1 := taken b m w). assert (unread w1 ++ missing = wire todo) as Hun1.
  { unfold unread, w1, taken. cbn [conn set_conn recv_buffer set_msg_state set_msg set_recv_buffer socket]. by rewrite Hcb, <- (assoc_L (++)). }
  assert (length (content b) <= length (content (recv_buffer (conn w))))%nat as Hcl by (rewrite Hcb, length_drop; lia).
  destruct (enqueue_spec m w1) as (ok & w2 & -> & Hc & Hio & Hin). destruct ok.
  - destruct (Hnext w2) as (e & w' & Hr & Hp); rewrite ?Hc; try done.
    { apply at_header; rewrite ?Hc; try done. assert (socket w2 = socket w1) as Hsk by (by injection Hio). unfold unread. rewrite Hc, Hsk. exact Hun1. }
    exists e, w'. split; [exact Hr|]. apply (progress_step w w2 [m] todo); [by rewrite Hio|exact Hin|by rewrite Hc..|exact Hp].
  - eexists _, _. split; [reflexivity|]. assert (socket w2 = socket w) as Hsk by (by injection Hio). rewrite app_nil_r in Hin.
    split; cbn [conn set_conn recv_buffer set_ev_poll set_msg_sleep]; rewrite ?Hc; try done.
    + unfold io. cbn [conn set_conn socket kernel sent notified closing send_buffer ready_recv ready_send ev_read ev_write terminated set_ev_poll set_msg_sleep].
      unfold io in Hio. rewrite Hc in Hio. rewrite ?Hc. unfold w1, taken in *. cbn in Hio |- *. congruence.
    + exists [], (m :: todo). split; [done|]. split; [cbn [incoming set_conn]; by rewrite Hin, app_nil_r|].
      apply asleep; cbn [conn set_conn set_ev_poll set_msg_sleep msg_sleep msg_state msg ev_poll]; rewrite ?Hc; try done.
      unfold unread. cbn [conn set_conn recv_buffer set_ev_poll set_msg_sleep socket]. rewrite ?Hc, Hsk. exact Hun1.
Qed.

Lemma read_loop_spec f w todo : Forall good_msg todo -> seg_ok (recv_buffer (conn w)) -> position w todo -> msg_sleep (conn w) = false ->
  (length (content (recv_buffer (conn w))) + (if msg_state (conn w) then 0 else 1) < f)%nat ->
  exists e w', read_loop sha1 max_msg_size f w = (inl e, w') /\ progress w todo e w'.
Proof.
  revert w todo. induction f as [|f IH]; intros w todo Hg Hb Hpos Hsl Hf; [lia|]. pose proof (so_size _ Hb) as Hsz.
  assert (forall todo, drained w -> position w todo -> exists e w', read_loop sha1 max_msg_size (S f) w = (inl e, w') /\ progress w todo e w') as Hend.
  { intros t Hd Hp. exists LoopBreak, w. split.
    - apply read_loop_short. unfold drained in Hd. rewrite Hsz. destruct (msg_state (conn w)); lia.
    - split; try done. exists [], t. by rewrite app_nil_r. }
  assert (forall w m t, good_msg m -> Forall good_msg t -> seg_ok (recv_buffer (conn w)) -> msg_sleep (conn w) = false -> ev_poll (conn w) = false -> msg_state (conn w) = PAYLOAD ->
    msg (conn w) = header_only m -> unread w ++ missing = payload m ++ wire t -> (length (payload m) <= length (content (recv_buffer (conn w))))%nat ->
    (length (content (recv_buffer (conn w))) < f)%nat ->
    exists e w', read_loop sha1 max_msg_size (S f) w = (inl e, w') /\ progress w (m :: t) e w') as Htake.
  { intros v m t Hm Ht Hvb Hvs Hvp Hvst Hvm Hvu Hvl Hvf. apply read_payload_spec; try done.
    intros w1 Hb1 Hp1 Hs1 Hst1 Hl1. apply IH; try done. rewrite Hst1. lia. }
  destruct Hpos as [todo _ Hpl Hst Hun|m todo _ Hpl Hst Hmsg Hun|]; [| |congruence].
  - destruct (decide (length (content (recv_buffer (conn w))) < header_size)%nat) as [Hlt|Hge].
    { apply Hend; [by unfold drained; rewrite Hst|by apply at_header]. }
    destruct (wire_front w todo header_size Hun) as (m & t & ->); [unfold header_size in *; lia|].
    apply Forall_cons in Hg as [Hm Ht]. rewrite wire_cons in Hun. pose proof (header_bytes_length m) as Hhl.
    pose proof (pop_spec header_size _ Hb) as Hpop. destruct (pop header_size (recv_buffer (conn w))) as [l b] eqn:Epop.
    destruct Hpop as (-> & Hcb & Hbok & Hbl). unfold unread in Hun. rewrite <- (assoc_L (++)) in Hun.
    destruct (front_in_buffer _ _ _ _ Hun) as [Htk Hd]; [lia|]. rewrite Hhl in Htk, Hd. rewrite Htk in Epop.
    destruct (header_of_bytes m (gm_ok _ Hm)) as (s & Hs).
    rewrite (read_loop_header f w (header_only m) (header_bytes m) b s Hst ltac:(lia) Epop Hs (gm_size _ Hm)).
    set (w1 := parsed (header_only m) b w).
    assert (unread w1 ++ missing = payload m ++ wire t) as Hun1.
    { unfold unread, w1, parsed. cbn [conn set_conn recv_buffer set_msg_state set_msg set_recv_buffer socket]. by rewrite Hcb, <- (assoc_L (++)). }
    assert (length (content b) = length (content (recv_buffer (conn w))) - header_size)%nat as Hcl by (by rewrite Hcb, length_drop).
    assert (exists e w', read_loop sha1 max_msg_size (S f) w1 = (inl e, w') /\ progress w1 (m :: t) e w') as (e & w' & Hr & Hp).
    { destruct (decide (length (payload m) <= length (content b))%nat) as [Hle|Hgt].
      - apply (Htake w1 m t); try done. change (recv_buffer (conn w1)) with b. unfold header_size in *. lia.
      - exists LoopBreak, w1. split.
        + apply read_loop_short. change (seg_size b < msg_length m). rewrite (so_size _ Hbok), (mk_length _ (gm_ok _ Hm)). lia.
        + split; try done.
          * exists [], (m :: t). rewrite app_nil_r. split; [done|]. split; [done|]. by apply at_payload.
          * split; [done|]. unfold drained. cbn [w1 parsed conn set_conn msg_state set_msg_state recv_buffer set_msg set_recv_buffer msg header_only msg_length].
            rewrite (mk_length _ (gm_ok _ Hm)). lia. }
    exists e, w'. split; [exact Hr|]. apply (progress_step w w1 [] (m :: t)); [done|by rewrite app_nil_r|exact Hbl| |exact Hp].
    change (recv_buffer (conn w1)) with b. lia.
  - apply Forall_cons in Hg as [Hm Ht].
    destruct (decide (length (payload m) <= length (content (recv_buffer (conn w))))%nat) as [Hle|Hgt].
    + apply Htake; try done. rewrite Hst in Hf. lia.
    + apply Hend; [|by apply at_payload]. unfold drained. rewrite Hst, Hmsg. cbn [header_only msg_length]. rewrite (mk_length _ (gm_ok _ Hm)). lia.
Qed.

(** ** The callbacks that read *)

(** The part of the state that only writing changes. *)
Definition wr (w : World) :=
  (kernel w, sent w, notified w, send_buffer (conn w), ready_send (conn w), terminated (conn w)).

(** ev_socket waits for what is not known to be ready. *)
Definition flags (w : World) : Prop :=
  closing w = true \/ ev_read (conn w) = negb (ready_recv (conn w)) /\ ev_write (conn w) = negb (ready_send (conn w)).

(** The stream [ms] is queued up to some message, and the reader is there. *)
Record reader (ms : list Msg) (w : World) : Prop := {
  ri_buf : seg_ok (recv_buffer (conn w));
  ri_unread : Z.of_nat (length (unread w)) < 2 ^ 64;
  ri_pos : exists todo, ms = incoming w ++ todo /\ position w todo;
}.

(** Why no message can be taken out of the buffer now. *)
Definition quiet (w : World) : Prop :=
  msg_sleep (conn w) = true \/ ready_recv (conn w) = true \/ closing w = true \/ drained w.

Record reads (ms : list Msg) (w w' : World) : Prop := {
  rs_reader : reader ms w'; rs_quiet : quiet w'; rs_wr : wr w' = wr w; rs_flags : flags w';
  rs_closing : closing w = true -> closing w' = true;
}.

Lemma io_wr w w' : io w' = io w -> wr w' = wr w /\ socket w' = socket w /\ closing w' = closing w /\
  ready_recv (conn w') = ready_recv (conn w) /\ ev_read (conn w') = ev_read (conn w) /\ ev_write (conn w') = ev_write (conn w).
Proof. unfold io, wr. intros E. injection E. intros. split_and!; congruence. Qed.

Lemma wr_ready_send w w' : wr w' = wr w -> ready_send (conn w') = ready_send (conn w).
Proof. unfold wr. intros E. by injection E. Qed.

Lemma read_loop_reads f w ms : Forall good_msg ms -> reader ms w -> flags w -> msg_sleep (conn w) = false ->
  (S (Z.to_nat (seg_size (recv_buffer (conn w)))) < f)%nat ->
  exists e w', read_loop sha1 max_msg_size f w = (inl e, w') /\ reads ms w w' /\ ready_recv (conn w') = ready_recv (conn w).
Proof.
  intros Hg [Hb Hu (todo & Hms & Hpos)] Hfl Hs Hf. rewrite (so_size _ Hb), Nat2Z.id in Hf.
  rewrite Hms in Hg. apply Forall_app in Hg as [_ Hg].
  destruct (read_loop_spec f w todo Hg Hb Hpos Hs) as (e & w' & Hr & [P1 P2 P3 P4 (dn & t & -> & P5 & P6) P7]); [destruct (msg_state _); lia|].
  destruct (io_wr _ _ P1) as (Hwr & Hsk & Hcl & Hrr & Her & Hew). exists e, w'. split; [exact Hr|]. split; [|exact Hrr]. split.
  - split; [exact P2| |].
    + unfold unread in *. rewrite length_app in *. rewrite Hsk. lia.
    + exists t. by rewrite P5, <- (assoc_L (++)).
  - destruct e; [right; right; right; apply P7|by left].
  - exact Hwr.
  - unfold flags in *. rewrite Hcl, Her, Hew, Hrr, (wr_ready_send _ _ Hwr). exact Hfl.
  - by rewrite Hcl.
Qed.

Definition on_read_ok (g : World -> (unit + NetError) * World) : Prop := forall w ms, Forall good_msg ms -> reader ms w -> flags w ->
  ready_recv (conn w) = false -> exists w', g w = (inl tt, w') /\ reads ms w w'.

Notation on_read := (on_read sha1 recv_chunk_size max_recv_buff_size max_msg_size).
Notation recv_loop := (recv_loop recv_chunk_size max_recv_buff_size).
Notation recv_data_with := (recv_data_with recv_chunk_size max_recv_buff_size).

Lemma reads_refl ms w : reader ms w -> flags w -> quiet w -> reads ms w w.
Proof. intros. by split. Qed.

Lemma reads_trans ms w1 w2 w3 : wr w2 = wr w1 -> (closing w1 = true -> closing w2 = true) -> reads ms w2 w3 -> reads ms w1 w3.
Proof. intros Hw Hc [R1 R2 R3 R4 R5]. split; try done; [by rewrite R3|by intros ?%Hc%R5]. Qed.

Lemma on_read_not_ready f : on_read_ok (on_read (S f)).
Proof.
  intros w ms Hg Hr Hfl Hrr. cbn [Conn.on_read]. run. destruct (msg_sleep (conn w)) eqn:Hs.
  { exists w. split; [reflexivity|]. apply reads_refl; [done|done|by left]. }
  destruct (read_loop_reads (S (S (Z.to_nat (seg_size (recv_buffer (conn w)))))) w ms Hg Hr Hfl Hs ltac:(lia)) as (e & w' & -> & Hrd & Hrr').
  destruct e; [|by exists w']. rewrite Hrr', Hrr. cbn [andb]. by exists w'.
Qed.

(** ev_socket waits for reading. *)
Definition reading (w : World) : Prop :=
  closing w = true \/ ev_read (conn w) = true /\ ev_write (conn w) = negb (ready_send (conn w)).

(** The position depends on these parts of the state only. *)
Lemma reader_same ms w w' : reader ms w -> unread w' = unread w -> seg_ok (recv_buffer (conn w')) -> incoming w' = incoming w ->
  msg (conn w') = msg (conn w) -> msg_state (conn w') = msg_state (conn w) -> msg_sleep (conn w') = msg_sleep (conn w) ->
  ev_poll (conn w') = ev_poll (conn w) -> reader ms w'.
Proof.
  intros [Hb Hu (todo & Hms & Hpos)] Eu Hb' Ei Em Es El Ep. split; [exact Hb'|by rewrite Eu|].
  exists todo. split; [by rewrite Ei|]. destruct Hpos; [apply at_header|apply at_payload|apply asleep]; congruence.
Qed.

Lemma recv_loop_spec f w ms : reader ms w -> reading w -> (length (socket w) < f)%nat ->
  exists e w', recv_loop f w = (inl e, w') /\ reader ms w' /\ wr w' = wr w /\ (closing w = true -> closing w' = true) /\
    match e with LoopBreak => reading w' | LoopReturn => quiet w' /\ flags w' end.
Proof.
  revert w. induction f as [|f IH]; intros w Hr Hrd Hf; [lia|]. cbn [Conn.recv_loop]. run.
  destruct (Nat.leb_spec max_recv_buff_size (seg_len (recv_buffer (conn w)))) as [Hfull|Hroom]; run.
  { eexists _, _. split; [reflexivity|]. split; [apply (reader_same ms w); try done; apply Hr|]. split; [done|]. split; [done|].
    split; [by right; left|]. by right. }
  unfold recv. destruct (socket w) as [|r sk] eqn:Hsk; [exists LoopBreak, w; by split_and!|]. cbn [length] in Hf.
  destruct r as [[|x l]| |]; run.
  - unfold worker_terminate. run. eexists _, _. split; [reflexivity|].
    split; [apply (reader_same ms w); try done; [unfold unread; by rewrite Hsk|apply Hr]|]. split; [done|]. split; [done|].
    split; [by right; right; left|by left].
  - set (w1 := set_conn (set_recv_buffer (push (x :: l) (recv_buffer (conn w))) (conn w))
      (mkWorld (conn w) sk (kernel w) (room w) (incoming w) (sent w) (notified w) (closing w))).
    destruct Hr as [Hb Hu Hp]. assert (unread w = content (recv_buffer (conn w)) ++ (x :: l) ++ socket_data sk) as Eu by (unfold unread; by rewrite Hsk).
    destruct (push_spec (x :: l) (recv_buffer (conn w)) Hb) as [Hb1 Hc1].
    { rewrite Eu, !length_app in Hu. lia. }
    assert (reader ms w1) as Hr1.
    { apply (reader_same ms w); try done. rewrite Eu. unfold unread, w1. cbn [conn set_conn recv_buffer set_recv_buffer socket].
      by rewrite Hc1, <- (assoc_L (++)). }
    destruct (Nat.eqb _ _).
    + destruct (IH w1 Hr1 Hrd) as (e & w' & Hl & Hr' & Hwr & Hcl & Hx); [cbn; lia|]. exists e, w'. by split_and!.
    + exists LoopBreak, w1. by split_and!.
  - eexists _, _. split; [reflexivity|]. split; [apply (reader_same ms w); try done; [unfold unread; by rewrite Hsk|apply Hr]|]. by split_and!.
  - unfold worker_terminate. run. eexists _, _. split; [reflexivity|].
    split; [apply (reader_same ms w); try done; [unfold unread; by rewrite Hsk|apply Hr]|]. split; [done|]. split; [done|].
    split; [by right; right; left|by left].
Qed.

Lemma recv_data_with_spec g w ms : on_read_ok g -> Forall good_msg ms -> reader ms w -> reading w ->
  exists w', recv_data_with g w = (inl tt, w') /\ reads ms w w'.
Proof.
  intros Hg Hms Hr Hrd. unfold Conn.recv_data_with. run.
  destruct (recv_loop_spec (S (length (socket w))) w ms Hr Hrd ltac:(lia)) as (e & w1 & -> & Hr1 & Hwr & Hcl & Hx). destruct e.
  - set (w2 := set_conn (set_ready_recv false (conn w1)) w1).
    destruct (Hg w2 ms Hms) as (w' & Hrun & Hrds); [apply (reader_same ms w1); try done; apply Hr1|by unfold flags; destruct Hx as [|[? ?]]; [left|right]|done|].
    exists w'. split; [exact Hrun|]. by apply (reads_trans ms w w2).
  - exists w1. destruct Hx. by split.
Qed.

Lemma on_read_spec w ms : Forall good_msg ms -> reader ms w -> flags w -> exists w', on_read 2 w = (inl tt, w') /\ reads ms w w'.
Proof.
  intros Hg Hr Hfl. cbn [Conn.on_read]. run. destruct (msg_sleep (conn w)) eqn:Hs.
  { exists w. split; [reflexivity|]. apply reads_refl; [done|done|by left]. }
  destruct (read_loop_reads (S (S (Z.to_nat (seg_size (recv_buffer (conn w)))))) w ms Hg Hr Hfl Hs ltac:(lia)) as (e & w1 & -> & Hrd & Hrr').
  destruct e; [|by exists w1]. destruct (ready_recv (conn w1) && _) eqn:E; [|by exists w1].
  set (w2 := set_conn (set_events true (negb (ready_send (conn w1))) (conn w1)) w1). pose proof (rs_reader _ _ _ Hrd) as Hr1.
  destruct (recv_data_with_spec (on_read 1) w2 ms (on_read_not_ready 0) Hg) as (w' & Hrun & Hrds);
    [apply (reader_same ms w1); try done; apply Hr1|by right|].
  exists w'. split; [exact Hrun|]. apply (reads_trans ms w w2); [apply Hrd|apply Hrd|exact Hrds].
Qed.

(** ** The callbacks that write *)

Definition pending (w : World) : list Z := concat (send_buffer (conn w)).

(** The part of the state that only reading changes. *)
Definition rdp (w : World) :=
  (socket w, incoming w, msg (conn w), msg_state (conn w), msg_sleep (conn w), recv_buffer (conn w), ready_recv (conn w),
   ev_poll (conn w), terminated (conn w)).

Lemma rdp_reader ms w w' : rdp w' = rdp w -> reader ms w -> reader ms w'.
Proof.
  unfold rdp. intros E Hr. injection E as Esk Ein Emsg Est Esl Erb Err Epl Etm.
  apply (reader_same ms w); unfold unread; rewrite ?Erb; try congruence. apply Hr.
Qed.

Lemma rdp_quiet w w' : rdp w' = rdp w -> (closing w = true -> closing w' = true) -> quiet w -> quiet w'.
Proof. unfold rdp, quiet, drained. intros E Hc. injection E as Esk Ein Emsg Est Esl Erb Err Epl Etm. rewrite Esl, Err, Est, Erb, Emsg. tauto. Qed.

(** No segment is empty: every message has a header. *)
Definition segments_ok (w : World) : Prop := Forall (fun seg => seg <> []) (send_buffer (conn w)).

Record sends_of (w w' : World) : Prop := {
  sd_sent : sent w' ++ pending w' = sent w ++ pending w; sd_rdp : rdp w' = rdp w;
  sd_closing : closing w = true -> closing w' = true; sd_segments : segments_ok w';
}.

Lemma send_loop_spec f w : segments_ok w -> (length (send_buffer (conn w)) < f)%nat ->
  exists e w', send_loop f w = (inl e, w') /\ sends_of w w' /\ ev_read (conn w') = ev_read (conn w) /\ ev_write (conn w') = ev_write (conn w) /\
    match e with LoopBreak => send_buffer (conn w') = [] | LoopReturn => closing w' = true \/ ready_send (conn w') = false end.
Proof.
  revert w. induction f as [|f IH]; intros w Hok Hf; [lia|]. cbn [send_loop]. run. unfold segments_ok in Hok.
  destruct (send_buffer (conn w)) as [|seg l] eqn:Hb; run.
  { eexists _, _. split; [reflexivity|]. split; [|by split_and!]. split; [unfold pending; by rewrite Hb|done|done|constructor]. }
  apply Forall_cons in Hok as [Hne Hok]. cbn [length] in Hf. destruct (Nat.eqb_spec (length seg) 0) as [E|E]; [by destruct seg|].
  assert (forall n, (n < length seg)%nat -> (if Nat.ltb n 1 then seg else drop n seg) <> [] /\ take n seg ++ (if Nat.ltb n 1 then seg else drop n seg) = seg) as Hcut.
  { intros n Hn. destruct (Nat.ltb_spec n 1).
    - replace n with 0%nat by lia. by split.
    - split; [|apply take_drop]. intros E0. apply (f_equal length) in E0. rewrite length_drop in E0. cbn in E0. lia. }
  unfold send. cbn [kernel set_conn]. destruct (kernel w) as [|r k]; run.
  { eexists _, _. split; [reflexivity|]. split; [|split_and!; try done; by right].
    split; [unfold pending; cbn; by rewrite Hb|done|done|by constructor]. }
  destruct r as [n| |]; run.
  - destruct (Nat.ltb_spec n (length seg)) as [Hn|Hn].
    + destruct (Hcut n Hn) as [Hc1 Hc2]. eexists _, _. split; [reflexivity|]. split; [|split_and!; try done; by right].
      split; [|done|done|by constructor]. unfold pending. cbn [sent conn set_conn send_buffer set_send_buffer set_ready_send concat]. rewrite Hb. cbn [concat].
      rewrite <- (assoc_L (++)), (assoc_L (++) (take n seg)), Hc2. reflexivity.
    + set (w1 := mkWorld (set_send_buffer l (conn w)) (socket w) k (room w) (incoming w) (sent w ++ take n seg) (notified w) (closing w)).
      destruct (IH w1 Hok) as (e & w' & Hl & [S1 S2 S3 S4] & Hx); [cbn; lia|]. exists e, w'. split; [exact Hl|]. split; [|exact Hx].
      split; [|by rewrite S2|exact S3|exact S4]. rewrite S1. unfold pending, w1. cbn [sent conn send_buffer set_send_buffer]. rewrite Hb, take_ge by lia. cbn [concat].
      by rewrite (assoc_L (++)).
  - eexists _, _. split; [reflexivity|]. split; [|split_and!; try done; by right].
    split; [|done|done|by constructor]. unfold pending. cbn [sent conn set_conn send_buffer set_send_buffer set_ready_send concat take]. by rewrite Hb, app_nil_r.
  - unfold worker_terminate. run. eexists _, _. split; [reflexivity|]. split; [|split_and!; try done; by left].
    split; [|done|done|by constructor]. unfold pending. cbn [sent conn set_conn send_buffer set_send_buffer set_closing concat take]. by rewrite Hb, app_nil_r.
Qed.

(** A wake-up is under way, or all is sent. *)
Definition flushing (w : World) : Prop :=
  closing w = true \/ send_buffer (conn w) = [] \/ ready_send (conn w) = false \/ notified w = true.

Lemma send_data_spec w : segments_ok w -> closing w = true \/ ev_read (conn w) = negb (ready_recv (conn w)) /\ ev_write (conn w) = true ->
  exists w', send_data w = (inl tt, w') /\ sends_of w w' /\ flags w' /\ flushing w'.
Proof.
  intros Hok Hfl. unfold send_data. run. destruct (send_loop_spec (S (length (send_buffer (conn w)))) w Hok ltac:(lia)) as (e & w1 & -> & Hs & Er & Ew & Hx).
  pose proof (sd_rdp _ _ Hs) as Hrd. assert (ready_recv (conn w1) = ready_recv (conn w)) as Err by (unfold rdp in Hrd; by injection Hrd). destruct e; run.
  - eexists. split; [reflexivity|]. split; [|split; [by right|by right; left]]. destruct Hs as [S1 S2 S3 S4]. by split.
  - exists w1. split; [reflexivity|]. split; [exact Hs|]. split; [|destruct Hx as [|]; [by left|by right; right; left]].
    destruct Hfl as [Hc|[Hfr Hfw]]; [left; by apply Hs|]. destruct Hx as [|Hx]; [by left|]. right. by rewrite Er, Ew, Err, Hx.
Qed.

(** ** Every callback keeps the connection's invariant *)

Record alive (ms : list Msg) (written : list Z) (w : World) : Prop := {
  al_term : terminated (conn w) = false; al_reader : reader ms w; al_quiet : quiet w; al_flags : flags w;
  al_flushing : flushing w; al_segments : segments_ok w; al_sent : sent w ++ pending w = written;
}.

Record dead (ms : list Msg) (written : list Z) (w : World) : Prop := {
  dd_term : terminated (conn w) = true; dd_read : ev_read (conn w) = false; dd_write : ev_write (conn w) = false;
  dd_poll : ev_poll (conn w) = false; dd_prefix : exists later, ms = incoming w ++ later; dd_sent : sent w ++ pending w = written;
}.

Definition conn_inv (ms : list Msg) (written : list Z) (w : World) : Prop := alive ms written w \/ dead ms written w.

Definition sends (es : list event) : list Msg := es ≫= (fun e => match e with EvSend m => [m] | _ => [] end).

Notation callback := (callback sha1 recv_chunk_size max_recv_buff_size max_msg_size).
Notation run_events := (run_events sha1 recv_chunk_size max_recv_buff_size max_msg_size).
Notation recv_data := (recv_data sha1 recv_chunk_size max_recv_buff_size max_msg_size).
Notation enqueue_poll := (enqueue_poll sha1 recv_chunk_size max_recv_buff_size max_msg_size).

Lemma wr_flushing w w' : wr w' = wr w -> (closing w = true -> closing w' = true) -> flushing w -> flushing w'.
Proof. unfold wr, flushing. intros E Hc. injection E as E1 E2 E3 E4 E5 E6. rewrite E3, E4, E5. tauto. Qed.

Lemma reads_alive ms written w w' : alive ms written w -> reads ms w w' -> alive ms written w'.
Proof.
  intros [A1 A2 A3 A4 A5 A6 A7] [R1 R2 R3 R4 R5]. pose proof R3 as E. unfold wr in E. injection E as E1 E2 E3 E4 E5 E6.
  split; try done; [by rewrite E6|by apply (wr_flushing w)|unfold segments_ok; by rewrite E4|unfold pending; by rewrite E2, E4].
Qed.

Lemma sends_alive ms written w w' : alive ms written w -> sends_of w w' -> flags w' -> flushing w' -> alive ms written w'.
Proof.
  intros [A1 A2 A3 A4 A5 A6 A7] [S1 S2 S3 S4] Hf Hfl. pose proof S2 as E. unfold rdp in E. injection E as E1 E2 E3 E4 E5 E6 E7 E8 E9.
  split; try done; [by rewrite E9|by apply (rdp_reader ms w)|by apply (rdp_quiet w)|by rewrite S1].
Qed.

Lemma closing_alive ms written w : alive ms written w -> alive ms written (set_closing true w).
Proof.
  intros [A1 A2 A3 A4 A5 A6 A7]. split; try done; [apply (reader_same ms w); try done; apply A2|by right; right; left|by left|by left].
Qed.

(** The timer queues the message the connection sleeps on. *)
Lemma enqueue_poll_spec w ms : Forall good_msg ms -> reader ms w -> flags w -> ev_poll (conn w) = true ->
  exists w', enqueue_poll w = (inl tt, w') /\ reads ms w w'.
Proof.
  intros Hg Hr Hfl Hp. destruct Hr as [Hb Hu (todo & Hms & Hpos)].
  destruct Hpos as [|m todo|m todo Hs Hst Hm _ Hun]; [congruence..|]. unfold Conn.enqueue_poll. run.
  set (w1 := set_conn (set_ev_poll false (conn w)) w). destruct (enqueue_spec (msg (conn w1)) w1) as (ok & w2 & Eq & Hc & Hio & Hin).
  cbn [msg set_ev_poll]. change (msg (conn w)) with (msg (conn w1)). rewrite Eq. destruct (io_wr _ _ Hio) as (Hwr & Hsk & Hcl & Hrr & Her & Hew).
  assert (recv_buffer (conn w2) = recv_buffer (conn w)) as Erb by (by rewrite Hc).
  assert (unread w2 = unread w) as Eu by (unfold unread; by rewrite Erb, Hsk). destruct ok; run.
  - set (w3 := set_conn (set_msg_sleep false (conn w2)) w2). destruct (on_read_spec w3 ms Hg) as (w' & Hrun & Hrd).
    + split; [by cbn; rewrite Erb|by change (unread w3) with (unread w2); rewrite Eu|]. exists todo.
      split; [cbn [incoming w3 set_conn]; rewrite Hin, <- (assoc_L (++)), Hms; cbn; by rewrite Hm|].
      apply at_header; [done|cbn; by rewrite Hc|cbn; by rewrite Hc|].
      change (unread w3) with (unread w2). by rewrite Eu.
    + unfold flags in *. cbn [w3 conn set_conn closing set_msg_sleep ev_read ev_write ready_recv ready_send]. rewrite Hc, Hcl. exact Hfl.
    + exists w'. split; [exact Hrun|]. apply (reads_trans ms w w3); [|by cbn; rewrite Hcl|exact Hrd].
      unfold wr in *. cbn [w3 conn set_conn kernel sent notified set_msg_sleep send_buffer ready_send terminated] in *. rewrite Hwr. reflexivity.
  - eexists. split; [reflexivity|]. split.
    + split; [by cbn; rewrite Erb| |].
      * change (Z.of_nat (length (unread w2)) < 2 ^ 64). by rewrite Eu.
      * exists (m :: todo). split; [cbn [incoming set_conn]; by rewrite Hin, app_nil_r|].
        apply asleep; [done|cbn; by rewrite Hc|cbn; by rewrite Hc|done|].
        change (unread w2 ++ missing = wire todo). by rewrite Eu.
    + left. reflexivity.
    + unfold wr in *. cbn [conn set_conn kernel sent notified set_msg_sleep set_ev_poll send_buffer ready_send terminated] in *. rewrite Hwr. reflexivity.
    + unfold flags in *. cbn [conn set_conn closing set_msg_sleep set_ev_poll ev_read ev_write ready_recv ready_send]. rewrite Hc, Hcl. exact Hfl.
    + cbn [closing set_conn]. by rewrite Hcl.
Qed.

Lemma serialize_nonempty m : msg_serialize m <> [].
Proof. rewrite serialize_frame. intros E. apply (f_equal length) in E. rewrite length_app, header_bytes_length in E. cbn in E. lia. Qed.

Lemma callback_spec e w ms written : Forall good_msg ms -> conn_inv ms written w ->
  exists w', callback e w = (inl tt, w') /\ conn_inv ms (written ++ wire (sends [e])) w'.
Proof.
  intros Hg Hinv. assert (match e with EvSend _ => True | _ => wire (sends [e]) = [] end) as Hno by (by destruct e).
  unfold Conn.callback. unfold mbind at 1, M_bind at 1, get. destruct e; rewrite ?Hno, ?app_nil_r.
  - destruct (ev_read (conn w)) eqn:Er; [|by exists w]. destruct Hinv as [Ha|Hd]; [|by rewrite (dd_read _ _ _ Hd) in Er].
    destruct (recv_data_with_spec (on_read 2) w ms (on_read_not_ready 1) Hg (al_reader _ _ _ Ha)) as (w' & Hrun & Hrd).
    { destruct (al_flags _ _ _ Ha) as [|[? ?]]; [by left|by right]. }
    exists w'. unfold guarded, Conn.recv_data. rewrite Hrun. split; [done|]. left. by apply (reads_alive _ _ w).
  - destruct (ev_write (conn w)) eqn:Ew; [|by exists w]. destruct Hinv as [Ha|Hd]; [|by rewrite (dd_write _ _ _ Hd) in Ew].
    destruct (send_data_spec w (al_segments _ _ _ Ha)) as (w' & Hrun & Hs & Hf & Hfl).
    { destruct (al_flags _ _ _ Ha) as [|[? ?]]; [by left|by right]. }
    exists w'. unfold guarded. rewrite Hrun. split; [done|]. left. by apply (sends_alive _ _ w).
  - destruct (ev_read (conn w) || ev_write (conn w)) eqn:E; [|by exists w].
    destruct Hinv as [Ha|Hd]; [|by rewrite (dd_read _ _ _ Hd), (dd_write _ _ _ Hd) in E].
    eexists. split; [reflexivity|]. left. by apply closing_alive.
  - destruct (ev_poll (conn w)) eqn:Ep; [|by exists w]. destruct Hinv as [Ha|Hd]; [|by rewrite (dd_poll _ _ _ Hd) in Ep].
    destruct (enqueue_poll_spec w ms Hg (al_reader _ _ _ Ha) (al_flags _ _ _ Ha) Ep) as (w' & Hrun & Hrd).
    exists w'. split; [done|]. left. by apply (reads_alive _ _ w).
  - destruct (notified w && negb (terminated (conn w))) eqn:E; [|by exists w]. destruct Hinv as [Ha|Hd]; [|by rewrite (dd_term _ _ _ Hd), andb_false_r in E].
    unfold send_notify. run. change (conn (set_notified false w)) with (conn w). destruct (ready_send (conn w)) eqn:Es.
    + set (w1 := set_conn (set_events (negb (ready_recv (conn w))) true (conn w)) (set_notified false w)).
      destruct (send_data_spec w1 (al_segments _ _ _ Ha)) as (w' & Hrun & [S1 S2 S3 S4] & Hf & Hfl); [by right|].
      exists w'. split; [exact Hrun|]. left. apply (sends_alive _ _ w); try done.
    + eexists. split; [reflexivity|]. left. destruct Ha as [A1 A2 A3 A4 A5 A6 A7]. split; try done; [apply (reader_same ms w); try done; apply A2|].
      right; right; by left.
  - unfold teardown. unfold mbind, M_bind, get. destruct (closing w) eqn:Ec; [|by exists w]. run. change (conn (set_closing false w)) with (conn w).
    destruct (terminated (conn w)) eqn:Et.
    + destruct Hinv as [Ha|Hd]; [by rewrite (al_term _ _ _ Ha) in Et|]. eexists. split; [reflexivity|]. right. by destruct Hd.
    + destruct Hinv as [Ha|Hd]; [|by rewrite (dd_term _ _ _ Hd) in Et]. eexists. split; [reflexivity|]. right.
      destruct Ha as [A1 [_ _ (todo & Hms & _)] A3 A4 A5 A6 A7]. split; try done. by exists todo.
  - unfold send_msg, write. run. eexists. split; [reflexivity|].
    assert (wire (sends [EvSend m]) = msg_serialize m) as -> by (unfold wire, sends; cbn; by rewrite app_nil_r).
    assert (pending (set_notified true (set_conn (set_send_buffer (send_buffer (conn w) ++ [msg_serialize m]) (conn w)) w)) = pending w ++ msg_serialize m) as Hp
      by (unfold pending; cbn; by rewrite concat_app; cbn; rewrite app_nil_r).
    destruct Hinv as [[A1 A2 A3 A4 A5 A6 A7]|[D1 D2 D3 D4 D5 D6]]; [left|right].
    + split; try done; [apply (reader_same ms w); try done; apply A2|by right; right; right| |rewrite Hp, (assoc_L (++)); cbn [sent set_notified set_conn]; by rewrite A7].
      apply Forall_app_2; [exact A6|]. constructor; [apply serialize_nonempty|constructor].
    + split; try done. rewrite Hp, (assoc_L (++)). cbn [sent set_notified set_conn]. by rewrite D6.
Qed.

Lemma run_spec es w ms written : Forall good_msg ms -> conn_inv ms written w ->
  exists w', run_events es w = (inl tt, w') /\ conn_inv ms (written ++ wire (sends es)) w'.
Proof.
  intros Hg. revert w written. induction es as [|e es IH]; intros w written Hinv; cbn [Conn.run_events].
  - exists w. split; [done|]. unfold wire, sends. cbn. by rewrite app_nil_r.
  - destruct (callback_spec e w ms written Hg Hinv) as (w1 & He & Hi1). unfold mbind, M_bind. rewrite He.
    destruct (IH w1 _ Hi1) as (w' & Hr & Hi). exists w'. split; [exact Hr|]. rewrite <- (assoc_L (++)) in Hi.
    assert (wire (sends (e :: es)) = wire (sends [e]) ++ wire (sends es)) as -> by (unfold wire, sends; cbn [mbind list_bind]; by rewrite app_nil_r, bind_app).
    exact Hi.
Qed.

Lemma start_inv ms m0 sk kn rm : socket_data sk ++ missing = wire ms -> Z.of_nat (length (socket_data sk)) < 2 ^ 64 ->
  conn_inv ms [] (World_new m0 sk kn rm).
Proof.
  intros Hms Hl. left. split; [done| |right; right; right; unfold drained, header_size; cbn; lia|by right|by right; left|constructor|done].
  split; [apply new_ok|exact Hl|]. exists ms. split; [done|]. by apply at_header.
Qed.

(** With all bytes received and none waiting the reader is at the end of the stream. *)
Lemma drained_end w ms : Forall good_msg ms -> reader ms w -> drained w -> msg_sleep (conn w) = false -> missing = [] ->
  socket_data (socket w) = [] -> incoming w = ms.
Proof.
  intros Hg [Hb _ (todo & -> & Hpos)] Hd Hs Hm Hsk. apply Forall_app in Hg as [_ Hg]. unfold drained in Hd.
  destruct Hpos as [[|m t] _ _ Hst Hun|m t _ _ Hst Hmsg Hun|]; [by rewrite app_nil_r| | |congruence]; exfalso;
    rewrite Hst in Hd; unfold unread in Hun; rewrite Hm, Hsk, !app_nil_r in Hun.
  - rewrite Hun, wire_cons, length_app, header_bytes_length in Hd. lia.
  - apply Forall_cons in Hg as [Hgm _]. rewrite Hmsg in Hd. cbn [header_only msg_length] in Hd.
    rewrite Hun, length_app, (mk_length _ (gm_ok _ Hgm)) in Hd. lia.
Qed.
End Stream.

(** ** Where the reader gives up *)

(** A header that announces too much makes the loop throw. *)
Lemma read_loop_oversized f w hdr l b s : msg_state (conn w) = HEADER -> Z.of_nat header_size <= seg_size (recv_buffer (conn w)) ->
  pop header_size (recv_buffer (conn w)) = (l, b) -> msg_header (DataStream_of l) = (inl hdr, s) -> max_msg_size < msg_length hdr ->
  read_loop sha1 max_msg_size (S f) w = (inr EOversized, set_conn (set_msg hdr (set_recv_buffer b (conn w))) w).
Proof.
  intros Hst Hsz Hpop Hhdr Hlen. cbn [read_loop]. run. rewrite Hst. rewrite (proj2 (Z.ltb_ge _ _)) by lia. rewrite Hpop. run. rewrite Hhdr. run.
  rewrite (proj2 (Z.ltb_lt _ _)) by lia. reflexivity.
Qed.

Lemma on_read_oversized f w m l : seg_ok (recv_buffer (conn w)) -> msg_sleep (conn w) = false -> msg_state (conn w) = HEADER -> msg_ok m ->
  content (recv_buffer (conn w)) = header_bytes m ++ l -> max_msg_size < msg_length m ->
  exists w', on_read sha1 recv_chunk_size max_recv_buff_size max_msg_size (S f) w = (inr EOversized, w') /\ incoming w' = incoming w /\
    terminated (conn w') = terminated (conn w).
Proof.
  intros Hb Hs Hst Hm Hc Hl. cbn [Conn.on_read]. run. rewrite Hs.
  pose proof (pop_spec header_size _ Hb) as Hpop. destruct (pop header_size (recv_buffer (conn w))) as [p b] eqn:Epop. destruct Hpop as (-> & _).
  destruct (header_of_bytes m Hm) as (s & Hh). rewrite Hc, take_app_length' in Epop by (by rewrite header_bytes_length).
  rewrite (read_loop_oversized _ w (header_only m) (header_bytes m) b s Hst); [by eexists| |exact Epop|exact Hh|exact Hl].
  rewrite (so_size _ Hb), Hc, length_app, header_bytes_length. lia.
Qed.

(** ** Single steps of the loop of _recv_data *)

Notation recv_loop := (recv_loop recv_chunk_size max_recv_buff_size).

(** A piece is read into the buffer. *)
Definition received (l : list Z) (sk : list recv_result) (w : World) : World :=
  mkWorld (set_recv_buffer (push l (recv_buffer (conn w))) (conn w)) sk (kernel w) (room w) (incoming w) (sent w) (notified w) (closing w).

Lemma recv_loop_data f w l sk : socket w = Data l :: sk -> l <> [] -> (seg_len (recv_buffer (conn w)) < max_recv_buff_size)%nat ->
  recv_loop (S f) w = if Nat.eqb (length l) recv_chunk_size then recv_loop f (received l sk w) else (inl LoopBreak, received l sk w).
Proof.
  intros Hsk Hl Hm. cbn [Conn.recv_loop]. run. rewrite (proj2 (Nat.leb_gt _ _) Hm). unfold recv. rewrite Hsk. run.
  destruct l as [|x l]; [done|]. by destruct (Nat.eqb (length (x :: l)) recv_chunk_size).
Qed.

Lemma recv_loop_again f w : socket w = [] -> (seg_len (recv_buffer (conn w)) < max_recv_buff_size)%nat -> recv_loop (S f) w = (inl LoopBreak, w).
Proof.
  intros Hsk Hm. cbn [Conn.recv_loop]. run. rewrite (proj2 (Nat.leb_gt _ _) Hm). unfold recv. rewrite Hsk. reflexivity.
Qed.

Definition masked (w : World) : World := set_conn (set_ready_recv true (set_events false (negb (ready_send (conn w))) (conn w))) w.

Lemma recv_loop_full f w : (max_recv_buff_size <= seg_len (recv_buffer (conn w)))%nat -> recv_loop (S f) w = (inl LoopReturn, masked w).
Proof. intros Hm. cbn [Conn.recv_loop]. run. rewrite (proj2 (Nat.leb_le _ _) Hm). reflexivity. Qed.

(** The first piece of a stream is read into the buffer. *)
Definition fed (m0 : Msg) (l : list Z) (kn : list send_result) (rm : list bool) : World :=
  set_conn (set_recv_buffer (push l SegBuffer_new) (Conn_new m0)) (World_new m0 [] kn rm).

Lemma recv_first m0 l kn rm g : l <> [] -> (2 <= max_recv_buff_size)%nat ->
  recv_data_with recv_chunk_size max_recv_buff_size g (World_new m0 [Data l] kn rm) = g (fed m0 l kn rm).
Proof.
  intros Hl Hmax. unfold recv_data_with. run. rewrite (recv_loop_data _ _ l []); [|done|done|cbn; lia].
  cbn [length socket World_new]. destruct (Nat.eqb (length l) recv_chunk_size); [rewrite recv_loop_again; [reflexivity|done|cbn; lia]|reflexivity].
Qed.

Lemma fed_ok m0 l kn rm : Z.of_nat (length l) < 2 ^ 64 ->
  seg_ok (recv_buffer (conn (fed m0 l kn rm))) /\ content (recv_buffer (conn (fed m0 l kn rm))) = l.
Proof. intros Hl. exact (push_spec l SegBuffer_new new_ok Hl). Qed.

(** ** A stream that is not one of messages *)

(** Bytes that read as the header of a message that is too long. *)
Definition announces (rest : list Z) : Prop :=
  (header_size <= length rest)%nat /\ Forall byte_ok rest /\ max_msg_size < le_val (take 4 (drop 5 rest)).

(** The messages in front of such bytes are queued. *)
Lemma read_loop_garbage pre rest f w : Forall good_msg pre -> announces rest -> seg_ok (recv_buffer (conn w)) -> msg_state (conn w) = HEADER ->
  room w = [] -> content (recv_buffer (conn w)) = wire pre ++ rest -> (length pre < f)%nat ->
  exists w', read_loop sha1 max_msg_size f w = (inr EOversized, w') /\ incoming w' = incoming w ++ pre /\ terminated (conn w') = terminated (conn w).
Proof.
  intros Hg Hr. revert f w. induction Hg as [|m pre [Hm Hnp Hchk Hsz] Hg IH]; intros f w Hb Hst Hroom Hc Hf; (destruct f as [|f]; [lia|]);
    pose proof (pop_spec header_size _ Hb) as Hpop; destruct (pop header_size (recv_buffer (conn w))) as [p b] eqn:Epop; destruct Hpop as (-> & Hcb & Hbok & _).
  - destruct Hr as (Hlen & Hok & Hbig). cbn [wire mbind list_bind app] in Hc. rewrite Hc in Epop.
    destruct (header_total (take header_size rest)) as (hdr & d & Hh & _ & Hl); [rewrite length_take; lia|by apply Forall_take|].
    rewrite skipn_firstn_comm, take_take in Hl. cbn [Nat.min Nat.sub header_size] in Hl.
    rewrite (read_loop_oversized f w hdr (take header_size rest) b d Hst); [|rewrite (so_size _ Hb), Hc; lia|exact Epop|exact Hh|by rewrite Hl].
    eexists. split; [reflexivity|]. by rewrite app_nil_r.
  - rewrite wire_cons, <- !(assoc_L (++)) in Hc. pose proof (header_bytes_length m) as Hhl. destruct (header_of_bytes m Hm) as (d & Hh).
    assert (take header_size (content (recv_buffer (conn w))) = header_bytes m) as Et by (rewrite Hc; by apply take_app_length').
    rewrite Et in Epop. assert (content b = payload m ++ wire pre ++ rest) as Hcb' by (rewrite Hcb, Hc; by apply drop_app_length').
    rewrite (read_loop_header f w (header_only m) (header_bytes m) b d Hst); [|rewrite (so_size _ Hb), Hc, length_app, Hhl; lia|exact Epop|exact Hh|exact Hsz].
    set (w1 := parsed (header_only m) b w). pose proof (pop_spec (length (payload m)) b Hbok) as Hpop2.
    destruct (pop (length (payload m)) b) as [p2 b2] eqn:Epop2. destruct Hpop2 as (-> & Hcb2 & Hbok2 & _).
    rewrite Hcb', take_app_length in Epop2. rewrite Hcb', drop_app_length in Hcb2. pose proof (mk_length _ Hm) as Hml.
    rewrite (read_loop_payload f w1 (payload m) b2 m); [|done|cbn; rewrite (so_size _ Hbok), Hcb', length_app; lia|cbn; by rewrite Hml, Nat2Z.id| |exact Hchk].
    2: { cbn. symmetry. by apply set_payload_frame. }
    unfold enqueue. cbn [room taken parsed set_conn w1]. rewrite Hroom. cbn [head default from_option id].
    match goal with |- context [read_loop _ _ f ?w] => destruct (IH f w) as (w' & -> & Hin & Ht) end; try done; [cbn in Hf; lia|].
    exists w'. split; [reflexivity|]. rewrite Hin. cbn. by rewrite <- (assoc_L (++)).
Qed.

(** A receiver with room, given such a stream in one piece, queues the messages in
    front and drops the connection. *)
Lemma garbage_disconnects m0 pre rest kn : Forall good_msg pre -> announces rest -> (2 <= max_recv_buff_size)%nat ->
  Z.of_nat (length (wire pre ++ rest)) < 2 ^ 64 ->
  exists w, Conn.run_events sha1 recv_chunk_size max_recv_buff_size max_msg_size [EvRead; EvTeardown] (World_new m0 [Data (wire pre ++ rest)] kn []) = (inl tt, w) /\
    incoming w = pre /\ terminated (conn w) = true.
Proof.
  intros Hg Hr Hmax Hlen. destruct (fed_ok m0 (wire pre ++ rest) kn [] Hlen) as [Hb Hc]. pose proof (proj1 Hr) as Hrl.
  set (w0 := fed m0 (wire pre ++ rest) kn []) in *.
  assert (length pre <= length (wire pre))%nat as Hpre.
  { clear. induction pre as [|m pre IH]; [done|]. rewrite wire_cons, !length_app, header_bytes_length. unfold header_size. cbn [length]. lia. }
  destruct (read_loop_garbage pre rest (S (S (Z.to_nat (seg_size (recv_buffer (conn w0)))))) w0 Hg Hr Hb eq_refl eq_refl Hc) as (w1 & Hrun & Hin & Ht).
  { rewrite (so_size _ Hb), Hc, Nat2Z.id, length_app. lia. }
  cbn [Conn.run_events]. unfold Conn.callback. run. cbn [ev_read World_new Conn_new conn]. unfold guarded, Conn.recv_data.
  rewrite recv_first; [|intros E; apply (f_equal length) in E; rewrite length_app in E; unfold header_size in *; cbn in E; lia|done]. fold w0.
  assert (on_read sha1 recv_chunk_size max_recv_buff_size max_msg_size 2 w0 = (inr EOversized, w1)) as ->.
  { cbn [Conn.on_read]. run. change (msg_sleep (conn w0)) with false. run. by rewrite Hrun. }
  unfold worker_terminate, teardown. run. cbn [closing set_closing conn]. run. rewrite Ht. cbn. eexists. split; [reflexivity|]. by split.
Qed.

(** The buffer fills up: it is full, and the socket is not waited for. *)
Lemma recv_loop_fills cs sk w f : socket w = (Data <$> cs) ++ sk -> Forall (fun c => length c = recv_chunk_size) cs -> (0 < recv_chunk_size)%nat ->
  (seg_len (recv_buffer (conn w)) + length cs = max_recv_buff_size)%nat -> (length cs < f)%nat ->
  exists w', recv_loop f w = (inl LoopReturn, masked w') /\ incoming w' = incoming w /\ ev_poll (conn w') = ev_poll (conn w) /\
    send_buffer (conn w') = send_buffer (conn w) /\ terminated (conn w') = terminated (conn w).
Proof.
  revert w f. induction cs as [|c cs IH]; intros w f Hsk Hcs Hch Hm Hf; cbn [length] in *; (destruct f as [|f]; [lia|]).
  - exists w. by rewrite recv_loop_full by lia.
  - apply Forall_cons in Hcs as [Hc Hcs]. rewrite (recv_loop_data f w c ((Data <$> cs) ++ sk)); [|exact Hsk|by destruct c; [cbn in Hc; lia|]|lia].
    rewrite Hc, Nat.eqb_refl. destruct (IH (received c ((Data <$> cs) ++ sk) w) f) as (w' & Hl & E1 & E2 & E3 & E4); try done.
    + unfold received, seg_len, push. cbn [conn recv_buffer set_recv_buffer segs]. rewrite length_app. cbn. unfold seg_len in Hm. lia.
    + lia.
    + exists w'. by rewrite Hl.
Qed.

(** Nothing reads any more: the buffer is full, the socket masked, no timer runs. *)
Record stalled (q : list Msg) (w : World) : Prop := {
  st_queue : incoming w = q; st_recv : ready_recv (conn w) = true; st_read : ev_read (conn w) = false;
  st_poll : ev_poll (conn w) = false; st_segments : segments_ok w;
}.

Notation callback := (callback sha1 recv_chunk_size max_recv_buff_size max_msg_size).
Notation run_events := (run_events sha1 recv_chunk_size max_recv_buff_size max_msg_size).

Lemma stalled_sends q w w' : stalled q w -> sends_of w w' -> ev_read (conn w') = negb (ready_recv (conn w')) \/ ev_read (conn w') = false -> stalled q w'.
Proof.
  intros [Q1 Q2 Q3 Q4 Q5] [S1 S2 S3 S4] Hr. unfold rdp in S2. injection S2 as E1 E2 E3 E4 E5 E6 E7 E8 E9.
  split; [by rewrite E2|by rewrite E7| |by rewrite E8|exact S4]. destruct Hr as [Hr|Hr]; [|exact Hr]. by rewrite Hr, E7, Q2.
Qed.

Lemma stalled_send_data q w : stalled q w -> exists w', send_data w = (inl tt, w') /\ stalled q w'.
Proof.
  intros Hst. pose proof Hst as [Q1 Q2 Q3 Q4 Q5]. unfold send_data. run.
  destruct (send_loop_spec (S (length (send_buffer (conn w)))) w Q5 ltac:(lia)) as (e & w1 & -> & Hs & Er & _).
  assert (stalled q w1) as [P1 P2 P3 P4 P5] by (apply (stalled_sends q w); [exact Hst|exact Hs|right; by rewrite Er]).
  destruct e; run; [|by exists w1]. eexists. split; [reflexivity|]. split; try done. cbn. by rewrite P2.
Qed.

Lemma stalled_callback q e w : stalled q w -> exists w', callback e w = (inl tt, w') /\ stalled q w'.
Proof.
  intros Hst. pose proof Hst as [Q1 Q2 Q3 Q4 Q5]. unfold Conn.callback. unfold mbind at 1, M_bind at 1, get. destruct e.
  - rewrite Q3. by exists w.
  - destruct (ev_write (conn w)); [|by exists w]. destruct (stalled_send_data q w Hst) as (w' & Hs & Hw'). exists w'. unfold guarded. by rewrite Hs.
  - destruct (ev_read (conn w) || ev_write (conn w)); [|by exists w]. eexists. split; [reflexivity|]. by split.
  - rewrite Q4. by exists w.
  - destruct (notified w && negb (terminated (conn w))); [|by exists w]. unfold send_notify. run. change (conn (set_notified false w)) with (conn w).
    destruct (ready_send (conn w)); [|eexists; split; [reflexivity|by split]].
    apply stalled_send_data. split; try done. cbn. by rewrite Q2.
  - unfold teardown. unfold mbind, M_bind, get. destruct (closing w); [|by exists w]. run. change (conn (set_closing false w)) with (conn w).
    destruct (terminated (conn w)); (eexists; split; [reflexivity|by split]).
  - unfold send_msg, write. run. eexists. split; [reflexivity|]. split; try done. unfold segments_ok. cbn.
    apply Forall_app_2; [exact Q5|]. constructor; [apply serialize_nonempty|constructor].
Qed.

Lemma stalled_run q es w : stalled q w -> exists w', run_events es w = (inl tt, w') /\ stalled q w'.
Proof.
  revert w. induction es as [|e es IH]; intros w Hst; cbn [Conn.run_events]; [by exists w|].
  destruct (stalled_callback q e w Hst) as (w1 & He & H1). unfold mbind, M_bind. rewrite He. by apply IH.
Qed.
End Law.

(** ** Properties *)

Section Properties.
Context `{Host} (sha1 : list Z -> list Z) (recv_chunk_size max_recv_buff_size : nat) (max_msg_size : Z).
Notation good_msg := (good_msg sha1 max_msg_size).
Notation callback := (callback sha1 recv_chunk_size max_recv_buff_size max_msg_size).
Notation run_events := (run_events sha1 recv_chunk_size max_recv_buff_size max_msg_size).

(** C15. What one end sends the other end queues, in order, if both ends read and
    write good messages only (their checksum is right for this host and they are
    within the size limit): for any events at both ends, any pieces the kernel
    takes and gives, any room in the queues, the bytes sent are the front of what
    was written, and when the other end reads any front of these bytes, the
    messages it queues are the first of those written, whole and unchanged.  No
    callback throws or needs more fuel.  A message that is too long makes one
    throw: [oversized_message_throws]. *)
Theorem messages_in_order m1 sk1 kn1 rm1 es1 ms1 rest1 m2 sk2 kn2 rm2 es2 rest2 :
  Forall good_msg (sends es1) -> Forall good_msg ms1 -> socket_data sk1 ++ rest1 = wire ms1 -> Z.of_nat (length (wire ms1)) < 2 ^ 64 ->
  exists w1, run_events es1 (World_new m1 sk1 kn1 rm1) = (inl tt, w1) /\
    (exists waiting, wire (sends es1) = sent w1 ++ waiting) /\
    (socket_data sk2 ++ rest2 = sent w1 -> Z.of_nat (length (sent w1)) < 2 ^ 64 ->
     exists w2, run_events es2 (World_new m2 sk2 kn2 rm2) = (inl tt, w2) /\ exists later, sends es1 = incoming w2 ++ later).
Proof.
  intros Hg Hg1 Hs1 Hl1.
  assert (forall ms rest sk m kn rm es, Forall good_msg ms -> socket_data sk ++ rest = wire ms -> Z.of_nat (length (socket_data sk)) < 2 ^ 64 ->
    exists w, run_events es (World_new m sk kn rm) = (inl tt, w) /\ sent w ++ pending w = wire (sends es) /\ exists later, ms = incoming w ++ later) as Hrun.
  { intros ms rest sk m kn rm es Hms Hsk Hl.
    destruct (run_spec sha1 recv_chunk_size max_recv_buff_size max_msg_size rest es _ ms [] Hms (start_inv rest ms m sk kn rm Hsk Hl)) as (w & Hr & [Ha|Hd]);
      exists w; (split; [exact Hr|]).
    - split; [apply (al_sent _ _ _ _ Ha)|]. destruct (ri_pos _ _ _ (al_reader _ _ _ _ Ha)) as (todo & Htodo & _). by exists todo.
    - split; [apply (dd_sent _ _ _ Hd)|]. apply (dd_prefix _ _ _ Hd). }
  destruct (Hrun ms1 rest1 sk1 m1 kn1 rm1 es1 Hg1 Hs1) as (w1 & Hr1 & Hsent & _).
  { rewrite <- Hs1, length_app in Hl1. lia. }
  exists w1. split; [exact Hr1|]. split; [by exists (pending w1)|]. intros Hs2 Hl2.
  destruct (Hrun (sends es1) (rest2 ++ pending w1) sk2 m2 kn2 rm2 es2 Hg) as (w2 & Hr2 & _ & Hp).
  - by rewrite (assoc_L (++)), Hs2.
  - rewrite <- Hs2, length_app in Hl2. lia.
  - exists w2. by split.
Qed.

(** C16. A live connection whose peer sends good messages only (right checksum, size
    within the limit) is never left idle with work to do, but for a full buffer:
    once all bytes of the stream have arrived all its messages are queued, or
    the timer that retries the queue runs, or reading is suspended; and all
    that was written is sent, or the socket is waited for, or the handler of
    the send buffer is woken. *)
Theorem messages_delivered m sk kn rm es ms rest : Forall good_msg ms -> socket_data sk ++ rest = wire ms ->
  Z.of_nat (length (wire ms)) < 2 ^ 64 ->
  exists w, run_events es (World_new m sk kn rm) = (inl tt, w) /\
    (terminated (conn w) = false -> closing w = false ->
      (rest = [] -> socket_data (socket w) = [] ->
        incoming w = ms \/ msg_sleep (conn w) = true /\ ev_poll (conn w) = true \/ ready_recv (conn w) = true) /\
      ev_read (conn w) = negb (ready_recv (conn w)) /\
      (sent w = wire (sends es) \/ ev_write (conn w) = true \/ notified w = true)).
Proof.
  intros Hms Hsk Hl. assert (Z.of_nat (length (socket_data sk)) < 2 ^ 64) as Hl' by (rewrite <- Hsk, length_app in Hl; lia).
  destruct (run_spec sha1 recv_chunk_size max_recv_buff_size max_msg_size rest es _ ms [] Hms (start_inv rest ms m sk kn rm Hsk Hl')) as (w & Hr & Hinv).
  exists w. split; [exact Hr|]. intros Ht Hc. destruct Hinv as [[A1 A2 A3 [|[A4 A5]] A6 A7 A8]|Hd]; [congruence| |by rewrite (dd_term _ _ _ Hd) in Ht].
  split; [|split; [exact A4|]].
  - intros Hrest Hdata. destruct (msg_sleep (conn w)) eqn:Es.
    { right; left. split; [done|]. destruct A2 as [_ _ (todo & _ & Hpos)]. destruct Hpos; congruence. }
    destruct A3 as [|[|[|Hdr]]]; [congruence|by right; right|congruence|]. left.
    exact (drained_end sha1 max_msg_size rest w ms Hms A2 Hdr Es Hrest Hdata).
  - rewrite A5. destruct A6 as [|[Hb|[Hb|Hb]]]; [congruence| |right; left; by rewrite Hb|by right; right]. left.
    unfold pending in A8. rewrite Hb, app_nil_r in A8. exact A8.
Qed.

(** C21. A burst that fills the buffer stops the connection for good: _recv_data
    returns before on_read is called, with the socket masked, and nothing that
    happens later reads a message or waits for the socket again. *)
Theorem full_buffer_stalls m cs sk kn rm es : Forall (fun c => length c = recv_chunk_size) cs -> (0 < recv_chunk_size)%nat ->
  length cs = max_recv_buff_size ->
  exists w, run_events (EvRead :: es) (World_new m ((Data <$> cs) ++ sk) kn rm) = (inl tt, w) /\
    incoming w = [] /\ ev_read (conn w) = false /\ ev_poll (conn w) = false.
Proof.
  intros Hcs Hch Hm. set (w0 := World_new m ((Data <$> cs) ++ sk) kn rm). cbn [Conn.run_events].
  destruct (recv_loop_fills recv_chunk_size max_recv_buff_size cs sk w0 (S (length (socket w0)))) as (w1 & Hl & E1 & E2 & E3 & _); try done.
  { unfold w0. cbn [socket World_new]. rewrite length_app, length_fmap. lia. }
  assert (callback EvRead w0 = (inl tt, masked w1)) as Hcb.
  { unfold Conn.callback. unfold mbind at 1, M_bind at 1, get. unfold guarded, Conn.recv_data, recv_data_with. run.
    cbn [ev_read w0 World_new Conn_new conn]. by rewrite Hl. }
  destruct (stalled_run sha1 recv_chunk_size max_recv_buff_size max_msg_size [] es (masked w1)) as (w & Hr & Hst).
  { split; try done. unfold segments_ok. cbn. rewrite E3. constructor. }
  exists w. unfold mbind, M_bind. rewrite Hcb. split; [exact Hr|]. by destruct Hst.
Qed.

(** A message larger than the limit ends the connection. *)
Lemma oversized_disconnects m m2 l kn rm : msg_ok m2 -> max_msg_size < msg_length m2 -> (2 <= max_recv_buff_size)%nat ->
  Z.of_nat (length (header_bytes m2 ++ l)) < 2 ^ 64 ->
  exists w, run_events [EvRead; EvTeardown] (World_new m [Data (header_bytes m2 ++ l)] kn rm) = (inl tt, w) /\
    incoming w = [] /\ terminated (conn w) = true.
Proof.
  intros Hm2 Hbig Hmax Hlen.
  cbn [Conn.run_events]. unfold Conn.callback. run. cbn [ev_read World_new Conn_new conn]. unfold guarded, Conn.recv_data.
  rewrite recv_first; [|destruct (header_bytes m2) eqn:E; [by pose proof (header_bytes_length m2) as Hb; rewrite E in Hb|done]|done].
  destruct (fed_ok m (header_bytes m2 ++ l) kn rm) as [Hb Hc]; [exact Hlen|].
  destruct (on_read_oversized sha1 recv_chunk_size max_recv_buff_size max_msg_size 1 (fed m (header_bytes m2 ++ l) kn rm) m2 l)
    as (w & -> & Hin & Ht); try done.
  unfold worker_terminate, teardown. run. cbn [closing set_closing conn]. run. rewrite Ht. cbn. eexists. split; [reflexivity|]. by split.
Qed.

(** One message is read while the queue has no room. *)
Lemma read_then_sleep m m1 l kn : good_msg m1 -> Z.of_nat (length (msg_serialize m1 ++ l)) < 2 ^ 64 ->
  exists w, on_read sha1 recv_chunk_size max_recv_buff_size max_msg_size 2 (fed m (msg_serialize m1 ++ l) kn [false]) = (inl tt, w) /\
    ev_poll (conn w) = true /\ room w = [] /\ msg_state (conn w) = HEADER /\ seg_ok (recv_buffer (conn w)) /\
    content (recv_buffer (conn w)) = l /\ terminated (conn w) = false.
Proof.
  intros Hg Hl. set (w0 := fed m (msg_serialize m1 ++ l) kn [false]).
  destruct (fed_ok m (msg_serialize m1 ++ l) kn [false] Hl) as [Hb Hc]. fold w0 in Hb, Hc. rewrite serialize_frame, <- (assoc_L (++)) in Hc.
  pose proof (header_bytes_length m1) as Hhl. pose proof (mk_length _ (gm_ok _ _ _ Hg)) as Hml.
  destruct (header_of_bytes m1 (gm_ok _ _ _ Hg)) as (s & Hh).
  pose proof (pop_spec header_size _ Hb) as Hp1. destruct (pop header_size (recv_buffer (conn w0))) as [p1 b1] eqn:E1.
  destruct Hp1 as (-> & Hc1 & Hb1 & _). rewrite Hc, take_app_length' in E1 by done. rewrite Hc, drop_app_length' in Hc1 by done.
  pose proof (pop_spec (length (payload m1)) _ Hb1) as Hp2. destruct (pop (length (payload m1)) b1) as [p2 b2] eqn:E2.
  destruct Hp2 as (-> & Hc2 & Hb2 & _). rewrite Hc1, take_app_length in E2. rewrite Hc1, drop_app_length in Hc2.
  cbn [Conn.on_read]. run. change (msg_sleep (conn w0)) with false. run.
  rewrite (read_loop_header sha1 max_msg_size _ w0 (header_only m1) (header_bytes m1) b1 s); try done.
  2: { rewrite (so_size _ Hb), Hc, length_app. lia. } 2: apply Hg.
  rewrite (read_loop_payload sha1 max_msg_size _ _ (payload m1) b2 m1); try done.
  - unfold enqueue. cbn. eexists. split; [reflexivity|]. by split_and!.
  - cbn [parsed conn set_conn msg recv_buffer set_msg_state set_msg set_recv_buffer header_only msg_length]. rewrite (so_size _ Hb1), Hc1, length_app, Hml. lia.
  - cbn [parsed conn set_conn msg recv_buffer set_msg_state set_msg set_recv_buffer header_only msg_length]. by rewrite Hml, Nat2Z.id.
  - symmetry. apply set_payload_frame; apply Hg.
  - apply Hg.
Qed.

(** A message larger than the limit ends the connection, as it should; but when
    it follows one for which the queue had no room, the exception leaves the
    callback of the timer, which nothing catches. *)
Theorem oversized_message_throws m m1 m2 l kn rm : good_msg m1 -> msg_ok m2 -> max_msg_size < msg_length m2 -> (2 <= max_recv_buff_size)%nat ->
  Z.of_nat (length (msg_serialize m1 ++ header_bytes m2 ++ l)) < 2 ^ 64 ->
  (exists w, run_events [EvRead; EvTeardown] (World_new m [Data (header_bytes m2 ++ l)] kn rm) = (inl tt, w) /\
     incoming w = [] /\ terminated (conn w) = true) /\
  (exists w, run_events [EvRead; EvPoll] (World_new m [Data (msg_serialize m1 ++ header_bytes m2 ++ l)] kn [false]) = (inr EOversized, w)).
Proof.
  intros Hg1 Hm2 Hbig Hmax Hlen. split.
  - apply oversized_disconnects; try done. rewrite length_app in Hlen. lia.
  - set (w0 := fed m (msg_serialize m1 ++ header_bytes m2 ++ l) kn [false]).
    destruct (read_then_sleep m m1 (header_bytes m2 ++ l) kn Hg1 Hlen) as (w1 & Hrd & E1 & E2 & E3 & E4 & E5 & E6).
    cbn [Conn.run_events]. unfold Conn.callback. run. cbn [ev_read World_new Conn_new conn]. unfold guarded, Conn.recv_data.
    rewrite recv_first; [|rewrite serialize_frame; destruct (header_bytes m1) eqn:E; [by pose proof (header_bytes_length m1) as Hb; rewrite E in Hb|done]|done].
    rewrite Hrd. run. rewrite E1. unfold Conn.enqueue_poll. run. unfold enqueue. cbn [room set_conn]. rewrite E2. cbn [head default from_option id]. run.
    match goal with |- context [on_read _ _ _ _ 2 ?w] => destruct (on_read_oversized sha1 recv_chunk_size max_recv_buff_size max_msg_size 1 w m2 l) as (w3 & -> & _); try done end.
    by eexists.
Qed.
End Properties.
