(* ===== verification/ConnRuns.v ===== *)
(** * Connections at work

    Two messages through a connection in pieces, with a full queue on the way,
    and the witnesses of the theorems of ConnLaw. *)

From Stdlib Require Import ZArith Lia.
From S2P Require Import Prelude Bytes Stream SegBuffer Framing Conn ConnLaw.

#[local] Instance conn_host : Host := false.

(** A digest of 20 bytes. *)
Definition toy_sha1 (l : list Z) : list Z := le_bytes 20 (foldr (fun b a => b + 257 * a + 1) 7 l).

Definition junk_msg : Msg := mkMsg 9 9 9 9 [] true.
Definition made (o : option Msg) : Msg := default junk_msg o.
Definition hello : Msg := made (Msg_new toy_sha1 junk_msg 3 [104; 101; 108; 108; 111] 0).
Definition bye : Msg := made (Msg_new toy_sha1 junk_msg 4 [98; 121; 101] 0).
Definition chat : list Msg := [hello; bye].

Lemma chat_good n : 5 <= n -> Forall (good_msg toy_sha1 n) chat.
Proof. intros Hn. repeat constructor; try (vm_compute; done); (transitivity 5; [by vm_compute|exact Hn]). Qed.

(** The sender: the kernel takes 5 bytes, later the rest. *)
Definition sender_events : list event := [EvSend hello; EvSend bye; EvWrite; EvNotify; EvWrite].
Definition sender_kernel : list send_result := [Sent 5; Sent 13; Sent 99].

(** The receiver: two pieces, and no room for the first message at first. *)
Definition stream_bytes : list Z := wire chat.
Definition pieces : list recv_result := [Data (take 7 stream_bytes); Again; Data (drop 7 stream_bytes)].
Definition receiver_events : list event := [EvRead; EvRead; EvRead; EvPoll; EvPoll].

Lemma messages_in_order_witness : exists w1 w2,
  run_events toy_sha1 4096 4096 1024 sender_events (World_new junk_msg [] sender_kernel []) = (inl tt, w1) /\
  sent w1 = stream_bytes /\
  run_events toy_sha1 4096 4096 1024 receiver_events (World_new junk_msg pieces [] [false; false]) = (inl tt, w2) /\
  incoming w2 = chat /\ exists later, sends sender_events = incoming w2 ++ later.
Proof.
  destruct (messages_in_order toy_sha1 4096 4096 1024 junk_msg [] sender_kernel [] sender_events [] []
    junk_msg pieces [] [false; false] receiver_events [] (chat_good 1024 ltac:(lia)) (Forall_nil_2 _) eq_refl eq_refl)
    as (w1 & Hr1 & _ & Hw2).
  assert (sent w1 = stream_bytes) as Hs1 by (vm_compute in Hr1; injection Hr1 as <-; vm_compute; reflexivity).
  destruct Hw2 as (w2 & Hr2 & Hp); [rewrite Hs1; vm_compute; reflexivity|rewrite Hs1; vm_compute; reflexivity|].
  exists w1, w2. split; [exact Hr1|]. split; [exact Hs1|]. split; [exact Hr2|]. split; [|exact Hp].
  vm_compute in Hr2. injection Hr2 as <-. vm_compute. reflexivity.
Defined.

Lemma messages_delivered_witness : exists w,
  run_events toy_sha1 4096 4096 1024 receiver_events (World_new junk_msg pieces [] [false; false]) = (inl tt, w) /\
    (terminated (conn w) = false -> closing w = false ->
      (([] : list Z) = [] -> socket_data (socket w) = [] ->
        incoming w = chat \/ msg_sleep (conn w) = true /\ ev_poll (conn w) = true \/ ready_recv (conn w) = true) /\
      ev_read (conn w) = negb (ready_recv (conn w)) /\
      (sent w = wire (sends receiver_events) \/ ev_write (conn w) = true \/ notified w = true)).
Proof.
  apply (messages_delivered toy_sha1 4096 4096 1024 junk_msg pieces [] [false; false] receiver_events chat []);
    [apply chat_good; lia|vm_compute; reflexivity|vm_compute; reflexivity].
Defined.

(** A buffer of two segments of ten bytes, with the two messages in 34 bytes. *)
Lemma full_buffer_stalls_witness : exists w,
  run_events toy_sha1 10 2 1024 [EvRead; EvRead; EvWrite; EvPoll; EvRead]
    (World_new junk_msg ((Data <$> [take 10 stream_bytes; take 10 (drop 10 stream_bytes)]) ++ [Data (drop 20 stream_bytes)]) [] []) = (inl tt, w) /\
  incoming w = [] /\ ev_read (conn w) = false /\ ev_poll (conn w) = false.
Proof.
  apply (full_buffer_stalls toy_sha1 10 2 1024 junk_msg [take 10 stream_bytes; take 10 (drop 10 stream_bytes)]
    [Data (drop 20 stream_bytes)] [] [] [EvRead; EvWrite; EvPoll; EvRead]); [repeat constructor; vm_compute; reflexivity|lia|reflexivity].
Defined.

Definition big : Msg := mkMsg 0 3 2000 0 (replicate 2000 0) false.

Lemma oversized_message_throws_witness :
  (exists w, run_events toy_sha1 4096 4096 1024 [EvRead; EvTeardown] (World_new junk_msg [Data (header_bytes big ++ [])] [] []) = (inl tt, w) /\
     incoming w = [] /\ terminated (conn w) = true) /\
  (exists w, run_events toy_sha1 4096 4096 1024 [EvRead; EvPoll]
     (World_new junk_msg [Data (msg_serialize hello ++ header_bytes big ++ [])] [] [false]) = (inr EOversized, w)).
Proof.
  apply (oversized_message_throws toy_sha1 4096 4096 1024 junk_msg hello big [] [] []);
    [exact (Forall_inv (chat_good 1024 ltac:(lia)))|split; vm_compute; by repeat split|done|lia|vm_compute; reflexivity].
Defined.

(** A message with a wrong checksum is dropped, and the whole message behind it
    stays in the buffer until the socket is read again. *)
Definition garbled : Msg := mkMsg 0 3 1 5 [1] false.

Example checksum_withholds_next :
  let run es := (run_events toy_sha1 4096 4096 1024 es (World_new junk_msg [Data (msg_serialize garbled ++ msg_serialize bye)] [] [])).2 in
  incoming (run [EvRead]) = [] /\ content (recv_buffer (conn (run [EvRead]))) = msg_serialize bye /\ ev_poll (conn (run [EvRead])) = false /\
  incoming (run [EvRead; EvRead]) = [bye].
Proof. vm_compute. by repeat split. Qed.

(** The last full chunk before the remote end closes is never parsed. *)
Example close_drops_chunk :
  let run es := (run_events toy_sha1 (length stream_bytes) 4096 1024 es (World_new junk_msg [Data stream_bytes; Data []] [] [])).2 in
  incoming (run [EvRead; EvTeardown]) = [] /\ terminated (conn (run [EvRead; EvTeardown])) = true.
Proof. vm_compute. by split. Qed.

(** Hosts of different byte orders compute different checksums. *)
Example checksum_of_other_host :
  verify_checksum (H := true) toy_sha1 hello = Some false /\ verify_checksum toy_sha1 hello = Some true.
Proof. vm_compute. by split. Qed.
