(* ===== verification/Peers.v ===== *)
(** * Peer connections

    PeerNetwork of [salticidae/include/salticidae/network.h]: which connections
    a replica makes to the replicas it knows, which of two it keeps when both
    ends connect, and when it tries again; with the parts of conn.cpp that make
    and end connections.

    The functions below run in the dispatcher thread, one closure at a time, and
    are functions of the state [Net].  A connection carries the state of its
    worker, a [World] of Conn.  Peer objects are reached through pointers and
    freed by del_peer; connections are shared pointers and stay.  What the other
    threads do and when (the kernel, the workers, the timers, the user) is the
    sequence of events of [run]. *)

From Stdlib Require Import ZArith Lia.
From S2P Require Import Prelude Bytes Sha256 Stream SegBuffer Framing Conn.

(** ** netaddr.h *)

Record NetAddr := mkAddr { ip : Z; port : Z }.
#[export] Instance NetAddr_eq_dec : EqDecision NetAddr.
Proof. solve_decision. Defined.
#[export] Instance NetAddr_countable : Countable NetAddr.
Proof. apply (inj_countable' (fun a => (ip a, port a)) (fun x => mkAddr x.1 x.2)). by intros []. Defined.

Definition NetAddr_null : NetAddr := mkAddr 0 0.
Definition is_null (a : NetAddr) : bool := (ip a =? 0) && (port a =? 0).

Section Wire.
Context `{Host}.

Definition addr_serialize (a : NetAddr) (s : DataStream) : DataStream := put_int 2 (port a) (put_int 4 (ip a) s).
Definition addr_unserialize : SM NetAddr := i ← get_int 4; p ← get_int 2; mret (mkAddr i p).

(** MsgPing and MsgPong; the claimed address is null in a heartbeat, whose nonce
    is never set (zero here; it is not used). *)
Record MsgPing := mkPing { claimed_addr : NetAddr; ping_nonce : Z }.
Definition heartbeat_bytes : list Z := buffer (put_int 1 0 DataStream_new).
Definition MsgPing_bytes (a : NetAddr) (n : Z) : list Z :=
  buffer (put_int 4 (htole 4 n) (addr_serialize a (put_int 1 1 DataStream_new))).
Definition MsgPing_parse : SM MsgPing :=
  flag ← get_int 1;
  if flag =? 0 then mret (mkPing NetAddr_null 0)
  else a ← addr_unserialize; n ← get_int 4; mret (mkPing a (letoh 4 n)).
End Wire.

(** ** The state *)

Abbreviation PeerId := (list Z) (only parsing).
Inductive ConnMode := ACTIVE | PASSIVE.
Inductive IdentityMode := ADDR_BASED | CERT_BASED.
Inductive PeerState := DISCONNECTED | CONNECTED | RESET.
#[export] Instance PeerState_eq_dec : EqDecision PeerState.
Proof. solve_decision. Defined.

Definition passive_nonce : Z := 0xffff.

(** PeerNetwork::Conn: [peer] is a raw pointer, [worker] says whether a worker has
    the connection, [is_setup] whether on_dispatcher_setup was called; [world] is
    the state of the worker's side. *)
Record Link := mkLink {
  mode : ConnMode; link_addr : NetAddr; cert : option (list Z); peer : option nat; worker : bool; is_setup : bool; world : World;
}.

(** PeerNetwork::Peer; [retry_timer] is the timer of ev_retry_timer, if it was
    made, and whether it runs, [ping_running] whether ev_ping_timer does.  The
    delays are left out. *)
Record Peer := mkPeer {
  pid : PeerId; paddr : NetAddr; nonce : Z; pconn : nat;
  ntry : Z; cur_ntry : Z; retry_timer : option bool;
  chosen_conn : option nat; inbound_conn : option nat; outbound_conn : option nat;
  ping_running : bool; ping_timer_ok : bool; pong_msg_ok : bool;
  pstate : PeerState;
}.

Inductive PeerError := PEER_ALREADY_EXISTS | PEER_NOT_EXIST | PEER_NOT_READY | PEER_NOT_MATCH | RAND_SOURCE.

(** What the user's callbacks are called with. *)
Inductive call := PeerCb (c : nat) (connected : bool) | UnknownPeerCb (a : NetAddr) | Received (c : nat) (m : Msg) | Recoverable (e : PeerError).

(** [deleting] are the connections whose del_conn was posted by a worker; [rands]
    the next results of RAND_bytes. *)
Record Net := mkNet {
  links : gmap nat Link; peers : gmap nat Peer; known_peers : gmap PeerId nat; pending_peers : gmap NetAddr nat;
  deleting : list nat; next_peer : nat; rands : list Z; calls : list call;
}.

Definition Net_new (rs : list Z) : Net := mkNet ∅ ∅ ∅ ∅ [] 0 rs [].

Definition set_links (x : gmap nat Link) (s : Net) : Net := mkNet x (peers s) (known_peers s) (pending_peers s) (deleting s) (next_peer s) (rands s) (calls s).
Definition set_peers (x : gmap nat Peer) (s : Net) : Net := mkNet (links s) x (known_peers s) (pending_peers s) (deleting s) (next_peer s) (rands s) (calls s).
Definition set_known (x : gmap PeerId nat) (s : Net) : Net := mkNet (links s) (peers s) x (pending_peers s) (deleting s) (next_peer s) (rands s) (calls s).
Definition set_pending (x : gmap NetAddr nat) (s : Net) : Net := mkNet (links s) (peers s) (known_peers s) x (deleting s) (next_peer s) (rands s) (calls s).
Definition set_deleting (x : list nat) (s : Net) : Net := mkNet (links s) (peers s) (known_peers s) (pending_peers s) x (next_peer s) (rands s) (calls s).
Definition set_next_peer (x : nat) (s : Net) : Net := mkNet (links s) (peers s) (known_peers s) (pending_peers s) (deleting s) x (rands s) (calls s).
Definition set_rands (x : list Z) (s : Net) : Net := mkNet (links s) (peers s) (known_peers s) (pending_peers s) (deleting s) (next_peer s) x (calls s).
Definition set_calls (x : list call) (s : Net) : Net := mkNet (links s) (peers s) (known_peers s) (pending_peers s) (deleting s) (next_peer s) (rands s) x.

Definition link_set_up (x : option (list Z)) (l : Link) : Link := mkLink (mode l) (link_addr l) x (peer l) (worker l) true (world l).
Definition link_set_peer (x : option nat) (l : Link) : Link := mkLink (mode l) (link_addr l) (cert l) x (worker l) (is_setup l) (world l).
Definition link_set_worker (x : bool) (l : Link) : Link := mkLink (mode l) (link_addr l) (cert l) (peer l) x (is_setup l) (world l).
Definition link_set_world (x : World) (l : Link) : Link := mkLink (mode l) (link_addr l) (cert l) (peer l) (worker l) (is_setup l) x.

Definition peer_set_addr (x : NetAddr) (p : Peer) : Peer := mkPeer (pid p) x (nonce p) (pconn p) (ntry p) (cur_ntry p) (retry_timer p) (chosen_conn p) (inbound_conn p) (outbound_conn p) (ping_running p) (ping_timer_ok p) (pong_msg_ok p) (pstate p).
Definition peer_set_nonce (x : Z) (p : Peer) : Peer := mkPeer (pid p) (paddr p) x (pconn p) (ntry p) (cur_ntry p) (retry_timer p) (chosen_conn p) (inbound_conn p) (outbound_conn p) (ping_running p) (ping_timer_ok p) (pong_msg_ok p) (pstate p).
Definition peer_set_conn (x : nat) (p : Peer) : Peer := mkPeer (pid p) (paddr p) (nonce p) x (ntry p) (cur_ntry p) (retry_timer p) (chosen_conn p) (inbound_conn p) (outbound_conn p) (ping_running p) (ping_timer_ok p) (pong_msg_ok p) (pstate p).
Definition peer_set_ntry (x : Z) (p : Peer) : Peer := mkPeer (pid p) (paddr p) (nonce p) (pconn p) x (cur_ntry p) (retry_timer p) (chosen_conn p) (inbound_conn p) (outbound_conn p) (ping_running p) (ping_timer_ok p) (pong_msg_ok p) (pstate p).
Definition peer_set_cur_ntry (x : Z) (p : Peer) : Peer := mkPeer (pid p) (paddr p) (nonce p) (pconn p) (ntry p) x (retry_timer p) (chosen_conn p) (inbound_conn p) (outbound_conn p) (ping_running p) (ping_timer_ok p) (pong_msg_ok p) (pstate p).
Definition peer_set_retry (x : option bool) (p : Peer) : Peer := mkPeer (pid p) (paddr p) (nonce p) (pconn p) (ntry p) (cur_ntry p) x (chosen_conn p) (inbound_conn p) (outbound_conn p) (ping_running p) (ping_timer_ok p) (pong_msg_ok p) (pstate p).
Definition peer_set_chosen (x : option nat) (p : Peer) : Peer := mkPeer (pid p) (paddr p) (nonce p) (pconn p) (ntry p) (cur_ntry p) (retry_timer p) x (inbound_conn p) (outbound_conn p) (ping_running p) (ping_timer_ok p) (pong_msg_ok p) (pstate p).
Definition peer_set_inbound (x : option nat) (p : Peer) : Peer := mkPeer (pid p) (paddr p) (nonce p) (pconn p) (ntry p) (cur_ntry p) (retry_timer p) (chosen_conn p) x (outbound_conn p) (ping_running p) (ping_timer_ok p) (pong_msg_ok p) (pstate p).
Definition peer_set_outbound (x : option nat) (p : Peer) : Peer := mkPeer (pid p) (paddr p) (nonce p) (pconn p) (ntry p) (cur_ntry p) (retry_timer p) (chosen_conn p) (inbound_conn p) x (ping_running p) (ping_timer_ok p) (pong_msg_ok p) (pstate p).
Definition peer_set_ping_timer (x : bool) (p : Peer) : Peer := mkPeer (pid p) (paddr p) (nonce p) (pconn p) (ntry p) (cur_ntry p) (retry_timer p) (chosen_conn p) (inbound_conn p) (outbound_conn p) x (ping_timer_ok p) (pong_msg_ok p) (pstate p).
Definition peer_set_ok (t g : bool) (p : Peer) : Peer := mkPeer (pid p) (paddr p) (nonce p) (pconn p) (ntry p) (cur_ntry p) (retry_timer p) (chosen_conn p) (inbound_conn p) (outbound_conn p) (ping_running p) t g (pstate p).
Definition peer_set_state (x : PeerState) (p : Peer) : Peer := mkPeer (pid p) (paddr p) (nonce p) (pconn p) (ntry p) (cur_ntry p) (retry_timer p) (chosen_conn p) (inbound_conn p) (outbound_conn p) (ping_running p) (ping_timer_ok p) (pong_msg_ok p) x.

(** What ends the process: a failed assertion (the build keeps them), the use of
    a freed Peer or a null connection, an exception that nothing catches.
    [EPeer] is a PeerNetworkError, which the operations of the user catch. *)
Inductive PError := EAssert | EDangling | EMsg | EThrown (e : NetError) | EPeer (code : PeerError).

Abbreviation PM := (M Net PError).

Definition get_link (c : nat) : PM Link := s ← get; from_option EDangling (links s !! c).
Definition get_peer (p : nat) : PM Peer := s ← get; from_option EDangling (peers s !! p).
Definition upd_link (c : nat) (f : Link -> Link) : PM unit := modify (fun s => set_links (alter f c (links s)) s).
Definition upd_peer (p : nat) (f : Peer -> Peer) : PM unit := modify (fun s => set_peers (alter f p (peers s)) s).
Definition assert (b : bool) : PM unit := if b then mret tt else throw EAssert.
Definition notify (x : call) : PM unit := modify (fun s => set_calls (calls s ++ [x]) s).

(** Runs a callback of the worker that has the connection. *)
Definition on_world {A} (c : nat) (m : NM A) : PM A :=
  l ← get_link c;
  let '(r, w) := m (world l) in
  _ ← upd_link c (link_set_world w);
  match r with inl a => mret a | inr e => throw (EThrown e) end.

Definition is_terminated (l : Link) : bool := terminated (conn (world l)).

Section Peers.
Context `{Host}.
(** The digests of the library, uninitialised memory, and the configuration. *)
Context (sha1 sha256 : list Z -> list Z) (junk_msg : Msg).
Context (recv_chunk_size max_recv_buff_size : nat) (max_msg_size : Z) (msg_magic : Z).
Context (enable_tls : bool) (id_mode : IdentityMode) (listen_addr : NetAddr).

(** ** Helpers *)

Definition peer_id_of_addr (a : NetAddr) : PeerId := sha256 (buffer (addr_serialize a DataStream_new)).
Definition peer_id_of_cert (der : list Z) : PeerId := sha256 der.

Definition _get_peer_id (crt : option (list Z)) (a : NetAddr) : PM PeerId :=
  if negb enable_tls then mret (peer_id_of_addr a)
  else match id_mode with
       | ADDR_BASED => mret (peer_id_of_addr a)
       | CERT_BASED => der ← from_option EDangling crt; mret (peer_id_of_cert der)
       end.

Definition get_peer_id (c : nat) (a : NetAddr) : PM PeerId := l ← get_link c; _get_peer_id (cert l) a.

(** RAND_bytes gives a number of 16 bits, or fails. *)
Definition rand_u16 : PM Z :=
  s ← get;
  match rands s with
  | [] => throw (EPeer RAND_SOURCE)
  | n :: l => _ ← modify (set_rands l); mret (u16 n)
  end.

(** Peer::get_nonce *)
Definition get_nonce (p : nat) : PM Z :=
  x ← get_peer p;
  if nonce x =? 0 then
    n ← rand_u16;
    _ ← upd_peer p (peer_set_nonce (n + 1)); mret (n + 1)
  else mret (nonce x).

(** MsgNetwork::send_msg of a message with these contents. *)
Definition link_send (op : Z) (bytes : list Z) (c : nat) : PM unit :=
  m ← from_option EMsg (Msg_new sha1 junk_msg op bytes msg_magic);
  on_world c (send_msg m).
Definition OPCODE_PING : Z := 0xf0.
Definition OPCODE_PONG : Z := 0xf1.

(** ConnPool::disp_terminate posts to the worker of the connection or, when it
    has none, to the dispatcher. *)
Definition disp_terminate (c : nat) : PM unit := on_world c worker_terminate.

(** ConnPool::create_conn, with what the other threads will see. *)
Definition add_conn (m : ConnMode) (a : NetAddr) (wk : bool) (w : World) : PM nat :=
  s ← get;
  let c := size (links s) in
  _ ← modify (set_links (<[c := mkLink m a None None wk false w]> (links s))); mret c.

(** ** The dispatcher *)

Definition reset_ping_timer (p : nat) : PM unit := upd_peer p (peer_set_ping_timer true).

Definition send_ping (p : nat) : PM unit :=
  x ← get_peer p;
  c ← from_option EDangling (chosen_conn x);
  _ ← upd_peer p (peer_set_ok false false);
  link_send OPCODE_PING heartbeat_bytes c.

Definition ping_timer (p : nat) : PM unit :=
  _ ← upd_peer p (fun x => peer_set_ok true (pong_msg_ok x) x);
  x ← get_peer p;
  if pong_msg_ok x then _ ← reset_ping_timer p; send_ping p else mret tt.

(** MPSCWriteBuffer::move_pop gives no bytes when the queue is empty. *)
Definition pop_segment : NM (list Z) :=
  c ← gets conn;
  match send_buffer c with
  | [] => mret []
  | seg :: l => _ ← on_conn (set_send_buffer l); mret seg
  end.

Fixpoint move_segments (fuel : nat) (old new : nat) : PM unit :=
  match fuel with
  | O => throw (EThrown EFuel)
  | S fuel =>
    seg ← on_world old pop_segment;
    if Nat.eqb (length seg) 0 then mret tt
    else _ ← on_world new (write seg); move_segments fuel old new
  end.

Definition finish_handshake (p : nat) : PM unit :=
  x ← get_peer p;
  _ ← assert (bool_decide (pstate x = DISCONNECTED));
  _ ← upd_peer p (peer_set_ping_timer false);
  _ ← upd_peer p (peer_set_inbound None);
  _ ← match outbound_conn x with
      | Some o => _ ← upd_link o (link_set_peer None); upd_peer p (peer_set_outbound None)
      | None => mret tt
      end;
  _ ← upd_peer p (peer_set_state CONNECTED);
  _ ← reset_ping_timer p;
  _ ← send_ping p;
  _ ← upd_peer p (fun x => peer_set_cur_ntry (ntry x) (peer_set_retry ((fun _ => false) <$> retry_timer x) x));
  let old := pconn x in
  new ← from_option EDangling (chosen_conn x);
  lo ← get_link old;
  _ ← assert (is_terminated lo);
  _ ← move_segments (S (length (send_buffer (conn (world lo))))) old new;
  _ ← upd_link old (link_set_peer None);
  _ ← upd_peer p (peer_set_conn new);
  _ ← upd_link new (link_set_peer (Some p));
  _ ← notify (PeerCb new true);
  ln ← get_link new;
  modify (fun s => set_pending (delete (link_addr ln) (pending_peers s)) s).

Definition replace_pending_conn (c : nat) : PM unit :=
  l ← get_link c;
  s ← get;
  _ ← match pending_peers s !! link_addr l with
      | Some old => if Nat.eqb old c then mret tt else
          _ ← disp_terminate old; modify (fun s => set_pending (delete (link_addr l) (pending_peers s)) s)
      | None => mret tt
      end;
  (* insert does nothing when there is an entry, which is then [c] *)
  modify (fun s => set_pending (match pending_peers s !! link_addr l with Some _ => pending_peers s | None => <[link_addr l := c]> (pending_peers s) end) s).

Definition on_dispatcher_setup (c : nat) : PM unit :=
  l ← get_link c;
  match mode l with
  | ACTIVE =>
    i ← get_peer_id c (link_addr l);
    s ← get;
    match known_peers s !! i with
    | None => throw (EPeer PEER_NOT_MATCH)
    | Some p => n ← get_nonce p; link_send OPCODE_PING (MsgPing_bytes listen_addr n) c
    end
  | PASSIVE => replace_pending_conn c
  end.

Definition on_dispatcher_teardown (c : nat) : PM unit :=
  l ← get_link c;
  _ ← modify (fun s => set_pending (delete (link_addr l) (pending_peers s)) s);
  match peer l with
  | None => mret tt
  | Some p =>
    x ← get_peer p;
    _ ← (if bool_decide (pstate x = DISCONNECTED) then mret tt
         else
           _ ← assert (Nat.eqb (pconn x) c);
           _ ← upd_peer p (fun x => peer_set_ping_timer false (peer_set_outbound None (peer_set_inbound None (peer_set_state DISCONNECTED x))));
           notify (PeerCb c false));
    _ ← upd_peer p (fun x => if 0 <? cur_ntry x then peer_set_cur_ntry (cur_ntry x - 1) x else x);
    x ← get_peer p;
    if negb (cur_ntry x =? 0) then
      _ ← upd_peer p (peer_set_nonce 0);
      _ ← assert (match retry_timer x with Some _ => true | None => false end);
      upd_peer p (peer_set_retry (Some true))
    else upd_peer p (peer_set_nonce passive_nonce)
  end.

(** start_active_conn with ConnPool::_connect; the arguments are what the kernel
    and the queue will answer. *)
Definition start_active_conn (p : nat) (sk : list recv_result) (kn : list send_result) (rm : list bool) : PM unit :=
  x ← get_peer p;
  _ ← assert (negb (is_null (paddr x)));
  c ← add_conn ACTIVE (paddr x) false (World_new junk_msg sk kn rm);
  _ ← upd_link c (link_set_peer (Some p));
  _ ← upd_peer p (peer_set_outbound (Some c));
  s ← get;
  assert (match pending_peers s !! paddr x with Some _ => false | None => true end).

(** The callback of ev_retry_timer. *)
Definition retry (p : nat) (sk : list recv_result) (kn : list send_result) (rm : list bool) : PM unit :=
  _ ← start_active_conn p sk kn rm;
  upd_peer p (peer_set_retry (Some true)).

(** ** Messages of the handshake *)

(** An earlier connection of the handshake is stale. *)
Definition terminate_stale (old : option nat) (c : nat) : PM unit :=
  match old with
  | Some o =>
    if Nat.eqb o c then mret tt
    else lo ← get_link o; _ ← assert (match peer lo with None => true | Some _ => false end); disp_terminate o
  | None => mret tt
  end.

Definition ping_handler (m : MsgPing) (c : nat) : PM unit :=
  l ← get_link c;
  if is_terminated l then mret tt
  else if is_null (claimed_addr m) then link_send OPCODE_PONG heartbeat_bytes c
  else match mode l with
  | ACTIVE => mret tt
  | PASSIVE =>
    i ← get_peer_id c (claimed_addr m);
    s ← get;
    match known_peers s !! i with
    | None => _ ← notify (UnknownPeerCb (claimed_addr m)); disp_terminate c
    | Some p =>
      x ← get_peer p;
      if negb (bool_decide (pstate x = DISCONNECTED)) || negb (is_null (paddr x)) && negb (bool_decide (paddr x = claimed_addr m))
      then mret tt
      else
        n ← get_nonce p;
        _ ← link_send OPCODE_PONG (MsgPing_bytes listen_addr n) c;
        _ ← terminate_stale (inbound_conn x) c;
        _ ← upd_peer p (peer_set_inbound (Some c));
        n ← get_nonce p;
        if (ping_nonce m <? n) || is_null (paddr x) then
          _ ← upd_peer p (peer_set_chosen (Some c)); finish_handshake p
        else disp_terminate c
    end
  end.

Definition pong_handler (m : MsgPing) (c : nat) : PM unit :=
  l ← get_link c;
  if is_terminated l then mret tt
  else if is_null (claimed_addr m) then
    match peer l with
    | None => mret tt
    | Some p =>
      _ ← upd_peer p (fun x => peer_set_ok (ping_timer_ok x) true x);
      x ← get_peer p;
      if ping_timer_ok x then _ ← reset_ping_timer p; send_ping p else mret tt
    end
  else match mode l with
  | PASSIVE => mret tt
  | ACTIVE =>
    i ← get_peer_id c (link_addr l);
    s ← get;
    match known_peers s !! i with
    | None => disp_terminate c
    | Some p =>
      x ← get_peer p;
      _ ← assert (negb (is_null (paddr x)) && bool_decide (paddr x = link_addr l));
      if negb (bool_decide (pstate x = DISCONNECTED)) || negb (bool_decide (paddr x = claimed_addr m)) then mret tt
      else
        _ ← terminate_stale (outbound_conn x) c;
        _ ← upd_peer p (peer_set_outbound (Some c));
        n ← get_nonce p;
        if n <? ping_nonce m then
          _ ← upd_peer p (peer_set_chosen (Some c));
          _ ← reset_ping_timer p;
          finish_handshake p
        else disp_terminate c
    end
  end.

(** ** What the user calls *)

(** The closures posted to the dispatcher hand a PeerNetworkError to the user. *)
Definition recoverable (m : PM unit) : PM unit := fun s =>
  match m s with
  | (inr (EPeer e), s) => notify (Recoverable e) s
  | r => r
  end.

Definition find_peer (i : PeerId) : PM nat := s ← get; from_option (EPeer PEER_NOT_EXIST) (known_peers s !! i).

(** The connection of a peer that was never connected. *)
Definition dummy_world : World := World_new junk_msg [] [] [].
Definition add_peer (i : PeerId) : PM unit := recoverable (
  s ← get;
  match known_peers s !! i with
  | Some _ => throw (EPeer PEER_ALREADY_EXISTS)
  | None =>
    let p := next_peer s in
    let w := set_conn (set_terminated (set_events false false (Conn_new junk_msg))) dummy_world in
    c ← add_conn PASSIVE NetAddr_null false w;
    _ ← upd_link c (link_set_peer (Some p));
    _ ← modify (set_next_peer (S p));
    _ ← modify (fun s => set_peers (<[p := mkPeer i NetAddr_null passive_nonce c 0 0 None None None None false false false DISCONNECTED]> (peers s)) s);
    modify (fun s => set_known (<[i := p]> (known_peers s)) s)
  end).

Definition set_peer_addr (i : PeerId) (a : NetAddr) : PM unit := recoverable (
  p ← find_peer i;
  _ ← get_peer p;
  upd_peer p (peer_set_addr a)).

Definition conn_peer (i : PeerId) (n : Z) : PM unit := recoverable (
  p ← find_peer i;
  x ← get_peer p;
  if is_null (paddr x) then throw (EPeer PEER_NOT_READY)
  else
    _ ← upd_peer p (fun x => peer_set_retry (Some false) (peer_set_nonce 0 (peer_set_ping_timer false (peer_set_outbound None (peer_set_inbound None (peer_set_cur_ntry n (peer_set_ntry n x)))))));
    if bool_decide (pstate x = DISCONNECTED) && negb (n =? 0) then upd_peer p (peer_set_retry (Some true))
    else if bool_decide (pstate x = CONNECTED) then
      _ ← upd_peer p (peer_set_state RESET); disp_terminate (pconn x)
    else mret tt).

Definition terminate_opt (o : option nat) : PM unit := match o with Some c => disp_terminate c | None => mret tt end.

(** The destructor of Peer clears the pointers of its two handshakes. *)
Definition del_peer (i : PeerId) : PM unit := recoverable (
  p ← find_peer i;
  x ← get_peer p;
  _ ← upd_link (pconn x) (link_set_peer None);
  _ ← disp_terminate (pconn x);
  _ ← terminate_opt (inbound_conn x);
  _ ← terminate_opt (outbound_conn x);
  _ ← modify (fun s => set_known (delete i (known_peers s)) s);
  _ ← match inbound_conn x with Some c => upd_link c (link_set_peer None) | None => mret tt end;
  _ ← match outbound_conn x with Some c => upd_link c (link_set_peer None) | None => mret tt end;
  modify (fun s => set_peers (delete p (peers s)) s)).

(** _send_msg to a peer, connected or not: an error reaches the user. *)
Definition peer_send (m : Msg) (i : PeerId) : PM unit := recoverable (
  p ← find_peer i;
  x ← get_peer p;
  on_world (pconn x) (send_msg m)).
Fixpoint multicast (m : Msg) (ids : list PeerId) : PM unit :=
  match ids with
  | [] => mret tt
  | i :: ids => p ← find_peer i; x ← get_peer p; _ ← on_world (pconn x) (send_msg m); multicast m ids
  end.
Definition multicast_msg (m : Msg) (ids : list PeerId) : PM unit := recoverable (multicast m ids).

(** ** Connections come and go *)

Definition del_conn (c : nat) : PM unit := on_dispatcher_teardown c.

(** The closure disp_terminate posts for a connection without a worker. *)
Definition disp_close (c : nat) : PM unit :=
  l ← get_link c;
  if worker l then mret tt
  else
    _ ← on_world c teardown;
    l' ← get_link c;
    if negb (is_terminated l) && is_terminated l' then del_conn c else mret tt.

(** A callback of the worker; the one that terminates posts del_conn. *)
Definition worker_event (c : nat) (e : event) : PM unit :=
  l ← get_link c;
  match e with
  | EvSend _ => mret tt
  | _ =>
    if worker l then
      _ ← on_world c (callback sha1 recv_chunk_size max_recv_buff_size max_msg_size e);
      l' ← get_link c;
      if negb (is_terminated l) && is_terminated l' then modify (fun s => set_deleting (deleting s ++ [c]) s) else mret tt
    else mret tt
  end.

(** The end of the worker's set-up of a connection, with the certificate of the
    TLS handshake; an exception terminates the connection. *)
Definition setup (c : nat) (crt : option (list Z)) : PM unit := fun s =>
  match (_ ← upd_link c (link_set_up crt); on_dispatcher_setup c) s with
  | (inr (EPeer e), s) => (_ ← notify (Recoverable e); disp_terminate c) s
  | r => r
  end.

(** The queue of messages: those of the handshake and the heartbeats go to the
    dispatcher, the rest to the handlers of the user. *)
Definition dequeue : NM (option Msg) := fun w =>
  match incoming w with
  | [] => (inl None, w)
  | m :: l => (inl (Some m), mkWorld (conn w) (socket w) (kernel w) (room w) l (sent w) (notified w) (closing w))
  end.
Definition dispatch (c : nat) : PM unit :=
  m ← on_world c dequeue;
  match m with
  | None => mret tt
  | Some m =>
    if opcode m =? OPCODE_PING then
      match (MsgPing_parse (DataStream_of (payload m))).1 with inl g => ping_handler g c | inr _ => throw EMsg end
    else if opcode m =? OPCODE_PONG then
      match (MsgPing_parse (DataStream_of (payload m))).1 with inl g => pong_handler g c | inr _ => throw EMsg end
    else notify (Received c m)
  end.

(** ** Events *)

Inductive pevent :=
  | PAdd (i : PeerId) | PDel (i : PeerId) | PSetAddr (i : PeerId) (a : NetAddr) | PConn (i : PeerId) (n : Z)
  | PSend (m : Msg) (i : PeerId) | PMulticast (m : Msg) (ids : list PeerId)
  | PRetry (p : nat) (sk : list recv_result) (kn : list send_result) (rm : list bool)
  | PPing (p : nat)
  | PAccept (a : NetAddr) (sk : list recv_result) (kn : list send_result) (rm : list bool)
  | PConnected (c : nat) | PConnFail (c : nat) | PDispClose (c : nat)
  | PSetup (c : nat) (der : list Z)
  | PWorker (c : nat) (e : event) | PTimeout (c : nat)
  | PMsg (c : nat)
  | PDelConn (c : nat).

(** What the other threads do with a connection, when it exists. *)
Definition with_link (c : nat) (f : Link -> PM unit) : PM unit :=
  s ← get; match links s !! c with Some l => f l | None => mret tt end.

(** A timer fires only when it runs, and stops; a connection is set up once. *)
Definition pstep (e : pevent) : PM unit :=
  match e with
  | PAdd i => add_peer i
  | PDel i => del_peer i
  | PSetAddr i a => set_peer_addr i a
  | PConn i n => conn_peer i n
  | PSend m i => peer_send m i
  | PMulticast m ids => multicast_msg m ids
  | PRetry p sk kn rm =>
    s ← get;
    match peers s !! p ≫= retry_timer with
    | Some true => _ ← upd_peer p (peer_set_retry (Some false)); retry p sk kn rm
    | _ => mret tt
    end
  | PPing p =>
    s ← get;
    match ping_running <$> peers s !! p with
    | Some true => _ ← upd_peer p (peer_set_ping_timer false); ping_timer p
    | _ => mret tt
    end
  | PAccept a sk kn rm => _ ← add_conn PASSIVE a true (World_new junk_msg sk kn rm); mret tt
  | PConnected c => with_link c (fun l =>
    match mode l with
    | ACTIVE => if closing (world l) || is_terminated l then mret tt else upd_link c (link_set_worker true)
    | PASSIVE => mret tt
    end)
  | PConnFail c => with_link c (fun l => if worker l || is_terminated l then mret tt else disp_terminate c)
  | PDispClose c => with_link c (fun _ => disp_close c)
  | PSetup c der => with_link c (fun l =>
    if worker l && negb (is_setup l) then setup c (if enable_tls then Some der else None) else mret tt)
  | PWorker c e => with_link c (fun _ => worker_event c e)
  | PTimeout c => with_link c (fun l => if worker l then disp_terminate c else mret tt)
  | PMsg c => with_link c (fun _ => dispatch c)
  | PDelConn c =>
    s ← get;
    if bool_decide (c ∈ deleting s) then
      _ ← modify (set_deleting (list_difference (deleting s) [c])); del_conn c
    else mret tt
  end.

Fixpoint run (es : list pevent) : PM unit :=
  match es with [] => mret tt | e :: es => _ ← pstep e; run es end.
End Peers.
