(* ===== verification/PeersInv.v ===== *)
(** * What the dispatcher steady true

    The invariant of PeerNetwork, with TLS and identities that are certificates,
    and that every closure of the dispatcher preserves it. *)

From Stdlib Require Import ZArith Lia.
From S2P Require Import Prelude Bytes Stream SegBuffer Framing Conn Peers.

(** ** The worker never revives a connection *)

Definition steady {A} (m : NM A) : Prop := forall w, terminated (conn (m w).2) = terminated (conn w).

Lemma steady_bind {A B} (m : NM A) (f : A -> NM B) : steady m -> (forall a, steady (f a)) -> steady (m ≫= f).
Proof.
  intros Hm Hf w. unfold mbind, M_bind. specialize (Hm w). destruct (m w) as [[a|e] w']; [|exact Hm].
  by rewrite (Hf a w').
Qed.
Lemma steady_ret {A} (a : A) : steady (mret a).
Proof. done. Qed.
Lemma steady_throw {A} (e : NetError) : steady (A := A) (throw e).
Proof. done. Qed.
Lemma steady_get : steady get.
Proof. done. Qed.
Lemma steady_gets {A} (f : World -> A) : steady (gets f).
Proof. done. Qed.
Lemma steady_from_option {A} e (o : option A) : steady (from_option e o).
Proof. by destruct o. Qed.
Lemma steady_modify f : (forall w, terminated (conn (f w)) = terminated (conn w)) -> steady (modify f).
Proof. intros Hf w. apply Hf. Qed.
Lemma steady_on_conn f : (forall c, terminated (f c) = terminated c) -> steady (on_conn f).
Proof. intros Hf w. apply Hf. Qed.
Lemma steady_recv : steady recv.
Proof. intros w. unfold recv. by destruct (socket w). Qed.
Lemma steady_send l : steady (send l).
Proof. intros w. unfold send. by destruct (kernel w). Qed.
Lemma steady_enqueue m : steady (enqueue m).
Proof. intros w. unfold enqueue. by destruct (default true _). Qed.

Ltac steady_tac := repeat (first
  [ match goal with |- steady (_ ≫= _) => apply steady_bind; [|intros ?] end | apply steady_ret | apply steady_throw | apply steady_get | apply steady_gets | apply steady_from_option
  | match goal with |- steady recv => apply steady_recv | |- steady (send _) => apply steady_send | |- steady (enqueue _) => apply steady_enqueue end
  | apply steady_on_conn; done | apply steady_modify; done
  | match goal with |- steady (match ?x with _ => _ end) => destruct x end
  | match goal with |- steady (let '(_, _) := ?x in _) => destruct x end
  | done ]).

Lemma steady_worker_terminate : steady worker_terminate.
Proof. unfold worker_terminate. steady_tac. Qed.
Section Worker.
Context `{Host} (sha1 : list Z -> list Z) (recv_chunk_size max_recv_buff_size : nat) (max_msg_size : Z).

Lemma steady_read_loop f : steady (read_loop sha1 max_msg_size f).
Proof. induction f; cbn [read_loop]; steady_tac. Qed.
Lemma steady_recv_loop f : steady (recv_loop recv_chunk_size max_recv_buff_size f).
Proof. induction f; cbn [recv_loop]; steady_tac. Qed.
Lemma steady_recv_data_with g : steady g -> steady (recv_data_with recv_chunk_size max_recv_buff_size g).
Proof. intros Hg. unfold recv_data_with. steady_tac. apply steady_recv_loop. Qed.
Lemma steady_on_read f : steady (on_read sha1 recv_chunk_size max_recv_buff_size max_msg_size f).
Proof. induction f; cbn [on_read]; steady_tac; [apply steady_read_loop|by apply steady_recv_data_with]. Qed.
Lemma steady_send_loop f : steady (send_loop f).
Proof. induction f; cbn [send_loop]; steady_tac. Qed.
Lemma steady_send_data : steady send_data.
Proof. unfold send_data. steady_tac. apply steady_send_loop. Qed.
Lemma steady_guarded m : steady m -> steady (guarded m).
Proof. intros Hm w. unfold guarded. specialize (Hm w). destruct (m w) as [[a|[]] w']; exact Hm. Qed.

Lemma callback_terminated e w : terminated (conn w) = true ->
  terminated (conn (callback sha1 recv_chunk_size max_recv_buff_size max_msg_size e w).2) = true.
Proof.
  intros Ht. assert (forall m : NM unit, steady m -> terminated (conn (m w).2) = true) as Hk by (intros m Hm; by rewrite Hm).
  unfold callback, mbind, M_bind at 1, get. destruct e.
  - apply Hk. steady_tac. by apply steady_guarded, steady_recv_data_with, steady_on_read.
  - apply Hk. steady_tac. by apply steady_guarded, steady_send_data.
  - apply Hk. steady_tac.
  - apply Hk. unfold enqueue_poll. steady_tac. apply steady_on_read.
  - apply Hk. unfold send_notify. steady_tac. apply steady_send_data.
  - unfold teardown, mbind, M_bind, get, modify. destruct (closing w); [|done]. cbn. by rewrite Ht.
  - apply Hk. unfold send_msg, write. steady_tac.
Qed.
End Worker.

(** ** The invariant *)

Section Inv.
Context (sha256 : list Z -> list Z).
(** The peer each address is given to. *)
Context (owner : NetAddr -> PeerId).

(** Whom a connection can serve: the certificate decides at the passive end,
    and the address at the active end. *)
Definition belongs (l : Link) (i : PeerId) : Prop :=
  match mode l with
  | ACTIVE => is_null (link_addr l) = false /\ owner (link_addr l) = i
  | PASSIVE => exists der, cert l = Some der /\ sha256 der = i
  end.

Lemma belongs_inj l i j : belongs l i -> belongs l j -> i = j.
Proof.
  unfold belongs. destruct (mode l); [intros [_ <-] [_ <-]; done|].
  intros (d & Hd & <-) (d' & Hd' & <-). congruence.
Qed.

(** The connection of a peer that was never connected. *)
Definition dummy (l : Link) : Prop := mode l = PASSIVE /\ worker l = false /\ cert l = None /\ is_terminated l = true.

Lemma dummy_belongs l i : dummy l -> ~ belongs l i.
Proof. intros (Hm & _ & Hc & _). unfold belongs. rewrite Hm, Hc. by intros (d & ? & _). Qed.

Section At.
(** Peers for which the clauses on the state and on the retries do not hold at
    this point of the code, and a terminated connection whose teardown runs. *)
Context (hs hr dying : option nat) (s : Net).

(** A disconnected peer has a terminated connection; the teardown of the
    connection of any other peer is still to come, and will find the peer. *)
Definition state_ok (p : nat) (x : Peer) : Prop := exists l, links s !! pconn x = Some l /\
  (pstate x = DISCONNECTED -> is_terminated l = true) /\
  (pstate x <> DISCONNECTED -> peer l = Some p /\ belongs l (pid x) /\
    (is_terminated l = false \/ pconn x ∈ deleting s \/ dying = Some (pconn x))).

(** A disconnected peer with attempts left has its timer running. *)
Definition retry_ok (x : Peer) : Prop := pstate x = DISCONNECTED -> cur_ntry x <> 0 -> retry_timer x = Some true.

(** The timer was made before there were attempts to count. *)
Definition timer_ok (x : Peer) : Prop := retry_timer x = None -> cur_ntry x = 0 /\ ntry x = 0.

Definition serves (m : ConnMode) (i : PeerId) (o : option nat) : Prop :=
  forall c, o = Some c -> exists l, links s !! c = Some l /\ mode l = m /\ belongs l i.

Record peer_ok (p : nat) (x : Peer) : Prop := {
  po_known : known_peers s !! pid x = Some p;
  po_fresh : (p < next_peer s)%nat;
  po_addr : is_null (paddr x) = true \/ owner (paddr x) = pid x;
  po_conn : exists l, links s !! pconn x = Some l /\ (belongs l (pid x) \/ dummy l);
  po_in : serves PASSIVE (pid x) (inbound_conn x);
  po_out : serves ACTIVE (pid x) (outbound_conn x);
  po_state : hs = Some p \/ state_ok p x;
  po_retry : hr = Some p \/ retry_ok x;
  po_timer : timer_ok x;
}.

Record inv : Prop := {
  in_peers p x : peers s !! p = Some x -> peer_ok p x;
  in_links c l : links s !! c = Some l -> (c < size (links s))%nat /\ (cert l <> None -> is_setup l = true);
  in_known i p : known_peers s !! i = Some p -> (p < next_peer s)%nat /\ forall x, peers s !! p = Some x -> pid x = i;
  in_deleting c : c ∈ deleting s -> exists l, links s !! c = Some l /\ is_terminated l = true;
}.
End At.

(** What the invariant sees of a connection and of a peer. *)
Definition link_view (l : Link) := (mode l, link_addr l, cert l, peer l, worker l, is_setup l, is_terminated l).
Definition peer_view (x : Peer) := (pid x, paddr x, pconn x, (ntry x, cur_ntry x), retry_timer x, inbound_conn x, outbound_conn x, pstate x).

Record quiet (s s' : Net) : Prop := {
  qu_links c : link_view <$> links s' !! c = link_view <$> links s !! c;
  qu_size : size (links s') = size (links s);
  qu_peers p : peer_view <$> peers s' !! p = peer_view <$> peers s !! p;
  qu_known : known_peers s' = known_peers s;
  qu_next : next_peer s' = next_peer s;
  qu_deleting : deleting s' = deleting s;
}.

#[global] Instance quiet_refl : Reflexive quiet.
Proof. done. Qed.
#[global] Instance quiet_trans : Transitive quiet.
Proof. intros s1 s2 s3 [] []. split; intros; etransitivity; eauto. Qed.

Lemma quiet_link s s' c l : quiet s s' -> links s !! c = Some l -> exists l', links s' !! c = Some l' /\ link_view l' = link_view l.
Proof.
  intros Hq Hl. pose proof (qu_links _ _ Hq c) as Hc. rewrite Hl in Hc. apply fmap_Some in Hc as (l' & -> & Hv). by exists l'.
Qed.
Lemma quiet_link_inv s s' c l' : quiet s s' -> links s' !! c = Some l' -> exists l, links s !! c = Some l /\ link_view l' = link_view l.
Proof.
  intros Hq Hl. pose proof (qu_links _ _ Hq c) as Hc. rewrite Hl in Hc. symmetry in Hc. apply fmap_Some in Hc as (l & -> & Hv). by exists l.
Qed.
Lemma quiet_peer s s' p x : quiet s s' -> peers s !! p = Some x -> exists x', peers s' !! p = Some x' /\ peer_view x' = peer_view x.
Proof.
  intros Hq Hl. pose proof (qu_peers _ _ Hq p) as Hc. rewrite Hl in Hc. apply fmap_Some in Hc as (l' & -> & Hv). by exists l'.
Qed.
Lemma quiet_peer_inv s s' p x' : quiet s s' -> peers s' !! p = Some x' -> exists x, peers s !! p = Some x /\ peer_view x' = peer_view x.
Proof.
  intros Hq Hl. pose proof (qu_peers _ _ Hq p) as Hc. rewrite Hl in Hc. symmetry in Hc. apply fmap_Some in Hc as (l & -> & Hv). by exists l.
Qed.

Lemma view_belongs l l' i : link_view l' = link_view l -> belongs l i -> belongs l' i.
Proof. intros [= E1 E2 E3 E4 E5 E6 E7]. unfold belongs. by rewrite E1, E2, E3. Qed.
Lemma view_dummy l l' : link_view l' = link_view l -> dummy l -> dummy l'.
Proof. intros [= E1 E2 E3 E4 E5 E6 E7]. unfold dummy. by rewrite E1, E3, E5, E7. Qed.

Lemma inv_quiet hs hr d s s' : inv hs hr d s -> quiet s s' -> inv hs hr d s'.
Proof.
  intros [I1 I2 I3 I4] Hq. split.
  - intros p x' Hx'. destruct (quiet_peer_inv _ _ _ _ Hq Hx') as (x & Hx & [= E1 E2 E3 E4' E4 E5 E6 E7 E8]).
    destruct (I1 p x Hx) as [K1 K2 K3 K4 K5 K6 K7 K8 K9].
    assert (forall m o, serves s m (pid x) o -> serves s' m (pid x) o) as Hserves.
    { intros m o Hs c Hc. destruct (Hs c Hc) as (l & Hl & Hm & Hb). destruct (quiet_link _ _ _ _ Hq Hl) as (l' & Hl' & Hv).
      exists l'. split; [done|]. split; [by injection Hv as -> _ _ _ _ _ _|by apply (view_belongs l)]. }
    split; rewrite ?E1, ?E2, ?E3, ?E6, ?E7, ?(qu_known _ _ Hq), ?(qu_next _ _ Hq); try done; [| |..].
    + destruct K4 as (l & Hl & Hb). destruct (quiet_link _ _ _ _ Hq Hl) as (l' & Hl' & Hv). exists l'. split; [done|].
      destruct Hb; [left; by apply (view_belongs l)|right; by apply (view_dummy l)].
    + by apply Hserves.
    + by apply Hserves.
    + destruct K7 as [|(l & Hl & Hd & Hc)]; [by left|right]. destruct (quiet_link _ _ _ _ Hq Hl) as (l' & Hl' & Hv).
      unfold state_ok. rewrite E1, E3, E8, (qu_deleting _ _ Hq). exists l'. split; [done|].
      pose proof (fun H => view_belongs l l' (pid x) Hv H) as Hbel. injection Hv as _ _ _ -> _ _ ->.
      split; [done|]. intros Hn. destruct (Hc Hn) as (? & ? & ?). auto.
    + unfold retry_ok. by rewrite E4, E5, E8.
    + unfold timer_ok. by rewrite E4, E4', E5.
  - intros c l' Hl'. destruct (quiet_link_inv _ _ _ _ Hq Hl') as (l & Hl & [= _ _ -> _ _ -> _]). rewrite (qu_size _ _ Hq). by apply I2.
  - intros i p Hi. rewrite (qu_known _ _ Hq) in Hi. destruct (I3 i p Hi) as [Hp Hid]. rewrite (qu_next _ _ Hq). split; [done|].
    intros x' Hx'. destruct (quiet_peer_inv _ _ _ _ Hq Hx') as (x & Hx & [= -> _ _ _ _ _ _ _ _]). eauto.
  - intros c Hc. rewrite (qu_deleting _ _ Hq) in Hc. destruct (I4 c Hc) as (l & Hl & Ht). destruct (quiet_link _ _ _ _ Hq Hl) as (l' & Hl' & Hv).
    exists l'. split; [done|]. by injection Hv as _ _ _ _ _ _ ->.
Qed.

(** ** Single updates *)

Lemma same_pid hs hr d s p p' x x' : inv hs hr d s -> peers s !! p = Some x -> peers s !! p' = Some x' -> pid x = pid x' -> p = p'.
Proof. intros I Hx Hx' E. pose proof (po_known _ _ _ _ _ _ (in_peers _ _ _ _ I p x Hx)). pose proof (po_known _ _ _ _ _ _ (in_peers _ _ _ _ I p' x' Hx')). congruence. Qed.

(** No other connected peer uses a connection that can serve [pid x]. *)
Definition unshared (s : Net) (p c : nat) : Prop :=
  forall p' x', p' <> p -> peers s !! p' = Some x' -> pstate x' <> DISCONNECTED -> pconn x' <> c.

Lemma not_shared hs hr d s p x c l : (hs = None \/ hs = Some p) -> inv hs hr d s -> peers s !! p = Some x -> links s !! c = Some l ->
  belongs l (pid x) \/ dummy l -> unshared s p c.
Proof.
  intros Hh I Hx Hl Hb p' x' Hne Hx' Hc <-. destruct (po_state _ _ _ _ _ _ (in_peers _ _ _ _ I p' x' Hx')) as [He|(l' & Hl' & _ & Hst)]; [destruct Hh; congruence|].
  destruct (Hst Hc) as (_ & Hb' & _). rewrite Hl in Hl'. injection Hl' as <-. destruct Hb as [Hb|Hb]; [|by apply dummy_belongs in Hb'].
  apply Hne, (same_pid _ _ _ _ _ _ _ _ I Hx' Hx). by apply (belongs_inj l).
Qed.

Lemma inv_upd_peer hs hr hs' hr' d s p x f : (forall q, q <> p -> (hs = Some q -> hs' = Some q) /\ (hr = Some q -> hr' = Some q)) ->
  inv hs hr d s -> peers s !! p = Some x -> pid (f x) = pid x ->
  (peer_ok hs hr d s p x -> peer_ok hs' hr' d s p (f x)) -> inv hs' hr' d (set_peers (alter f p (peers s)) s).
Proof.
  intros Hh [I1 I2 I3 I4] Hx Hpid Hok. split; [|exact I2| |exact I4].
  - intros q y Hy. cbn [peers set_peers] in Hy. destruct (decide (q = p)) as [->|Hne].
    + rewrite lookup_alter_eq, Hx in Hy. injection Hy as <-. destruct (Hok (I1 p x Hx)). by split.
    + rewrite lookup_alter_ne in Hy by done. destruct (I1 q y Hy) as [K1 K2 K3 K4 K5 K6 K7 K8 K9]. destruct (Hh q Hne) as [H1 H2].
      split; try done; [destruct K7; [left|right]|destruct K8; [left|right]]; auto.
  - intros i q Hi. cbn [known_peers next_peer peers set_peers] in *. destruct (I3 i q Hi) as [Hq Hid]. split; [done|]. intros y Hy. destruct (decide (q = p)) as [->|Hne].
    + rewrite lookup_alter_eq, Hx in Hy. injection Hy as <-. rewrite Hpid. eauto.
    + rewrite lookup_alter_ne in Hy by done. eauto.
Qed.

(** The suspended clauses hold again. *)
Lemma close_state hr d p x s : inv (Some p) hr d s -> peers s !! p = Some x -> state_ok d s p x -> inv None hr d s.
Proof.
  intros [I1 I2 I3 I4] Hx Hs. split; try done. intros q y Hy. destruct (I1 q y Hy) as [K1 K2 K3 K4 K5 K6 K7 K8 K9]. split; try done.
  right. destruct (decide (q = p)) as [->|Hne]; [by rewrite Hx in Hy; injection Hy as <-|]. destruct K7 as [[= ->]|]; done.
Qed.
Lemma close_retry hs d p x s : inv hs (Some p) d s -> peers s !! p = Some x -> retry_ok x -> inv hs None d s.
Proof.
  intros [I1 I2 I3 I4] Hx Hs. split; try done. intros q y Hy. destruct (I1 q y Hy) as [K1 K2 K3 K4 K5 K6 K7 K8 K9]. split; try done.
  right. destruct (decide (q = p)) as [->|Hne]; [by rewrite Hx in Hy; injection Hy as <-|]. destruct K8 as [[= ->]|]; done.
Qed.

(** An update that the invariant does not see, but for the pointer to the peer. *)
Lemma inv_upd_link hs hr d s c l f : inv hs hr d s -> links s !! c = Some l ->
  mode (f l) = mode l -> link_addr (f l) = link_addr l -> (cert l <> None -> cert (f l) = cert l) -> (cert (f l) <> None -> is_setup (f l) = true) ->
  (dummy l -> dummy (f l)) -> is_terminated (f l) = is_terminated l ->
  (forall p x, hs <> Some p -> peers s !! p = Some x -> pstate x <> DISCONNECTED -> pconn x = c -> peer l = Some p -> peer (f l) = Some p) ->
  inv hs hr d (set_links (alter f c (links s)) s).
Proof.
  intros [I1 I2 I3 I4] Hl Hm Ha Hc Hs Hdm Ht Hp.
  assert (forall i, belongs l i -> belongs (f l) i) as Hb.
  { intros i. unfold belongs. rewrite Hm, Ha. destruct (mode l); [done|]. intros (der & Hd & Hi). exists der. by rewrite Hc, Hd by congruence. }
  assert (forall q l', links s !! q = Some l' -> exists l'', alter f c (links s) !! q = Some l'' /\ mode l'' = mode l' /\ is_terminated l'' = is_terminated l' /\
    (forall i, belongs l' i -> belongs l'' i) /\ (dummy l' -> dummy l'') /\ (q <> c -> l'' = l')) as Hlk.
  { intros q l' Hl'. destruct (decide (q = c)) as [->|Hne].
    - rewrite Hl in Hl'. injection Hl' as <-. exists (f l). rewrite lookup_alter_eq, Hl. split_and!; try done; auto.
    - exists l'. rewrite lookup_alter_ne by done. split_and!; auto. }
  split; cbn [peers links known_peers deleting set_links].
  - intros p x Hx. destruct (I1 p x Hx) as [K1 K2 K3 K4 K5 K6 K7 K8 K9].
    assert (forall m o, serves s m (pid x) o -> serves (set_links (alter f c (links s)) s) m (pid x) o) as Hserves.
    { intros m o Hv q Hq. destruct (Hv q Hq) as (l' & Hl' & Hm' & Hb'). destruct (Hlk q l' Hl') as (l'' & ? & ? & _ & Hbb & _).
      exists l''. cbn [links set_links]. split; [done|]. split; [congruence|by apply Hbb]. }
    split; try done; try (by apply Hserves); cbn [links set_links].
    + destruct K4 as (l' & Hl' & Hb'). destruct (Hlk _ l' Hl') as (l'' & ? & _ & _ & Hbb & Hdd & _). exists l''. split; [done|]. destruct Hb'; auto.
    + destruct (decide (hs = Some p)) as [|Hns]; [by left|]. destruct K7 as [|(l' & Hl' & Hd & Hst)]; [by left|right].
      destruct (Hlk _ l' Hl') as (l'' & Hl'' & _ & Htt & Hbb & _ & Hne). exists l''. split; [done|]. rewrite Htt. split; [done|].
      intros Hn. destruct (Hst Hn) as (E1 & E2 & E3). split; [|split; [by apply Hbb|exact E3]].
      destruct (decide (pconn x = c)) as [E|Hn']; [|by rewrite Hne].
      rewrite E in Hl', Hl''. rewrite Hl in Hl'. injection Hl' as <-. rewrite lookup_alter_eq, Hl in Hl''. injection Hl'' as <-. eauto.
  - intros q l' Hl'. assert (size (alter f c (links s)) = size (links s)) as -> by (by rewrite <- !size_dom, dom_alter_L). destruct (decide (q = c)) as [->|Hne].
    + rewrite lookup_alter_eq, Hl in Hl'. injection Hl' as <-. split; [by apply (I2 c l)|done].
    + rewrite lookup_alter_ne in Hl' by done. by apply I2.
  - exact I3.
  - intros q Hq. destruct (I4 q Hq) as (l' & Hl' & Htt). destruct (Hlk _ l' Hl') as (l'' & ? & _ & E & _). exists l''. by rewrite E.
Qed.

(** ** Operations the invariant does not see *)

(** The state is only changed where the invariant does not look, however the
    operation ends. *)
Definition silent {A} (m : PM A) : Prop := forall s, quiet s (m s).2.

Lemma silent_bind {A B} (m : PM A) (f : A -> PM B) : silent m -> (forall a, silent (f a)) -> silent (m ≫= f).
Proof.
  intros Hm Hf s. unfold mbind, M_bind. specialize (Hm s). destruct (m s) as [[a|e] s']; [|exact Hm].
  etransitivity; [exact Hm|apply Hf].
Qed.
Lemma silent_ret {A} (a : A) : silent (mret a).
Proof. intros s. reflexivity. Qed.
Lemma silent_throw {A} (e : PError) : silent (A := A) (throw e).
Proof. intros s. reflexivity. Qed.
Lemma silent_get : silent get.
Proof. intros s. reflexivity. Qed.
Lemma silent_from_option {A} e (o : option A) : silent (from_option e o).
Proof. destruct o; intros s; reflexivity. Qed.
Lemma silent_modify f : (forall s, quiet s (f s)) -> silent (modify f).
Proof. intros Hf s. apply Hf. Qed.
Lemma silent_assert b : silent (assert b).
Proof. destruct b; intros s; reflexivity. Qed.
Lemma silent_get_link c : silent (get_link c).
Proof. apply silent_bind; [apply silent_get|intros s; apply silent_from_option]. Qed.
Lemma silent_get_peer p : silent (get_peer p).
Proof. apply silent_bind; [apply silent_get|intros s; apply silent_from_option]. Qed.
Lemma silent_upd_link c f : (forall l, link_view (f l) = link_view l) -> silent (upd_link c f).
Proof.
  intros Hf s. split; try done.
  - intros q. cbn [snd upd_link modify links set_links]. destruct (decide (q = c)) as [->|Hne]; [|by rewrite lookup_alter_ne].
    rewrite lookup_alter_eq. destruct (links s !! c); [|done]. cbn. by rewrite Hf.
  - cbn. by rewrite <- !size_dom, dom_alter_L.
Qed.
Lemma silent_upd_peer p f : (forall x, peer_view (f x) = peer_view x) -> silent (upd_peer p f).
Proof.
  intros Hf s. split; try done. intros q. cbn [snd upd_peer modify peers set_peers]. destruct (decide (q = p)) as [->|Hne]; [|by rewrite lookup_alter_ne].
  rewrite lookup_alter_eq. destruct (peers s !! p); [|done]. cbn. by rewrite Hf.
Qed.
Lemma silent_notify x : silent (notify x).
Proof. intros s. by split. Qed.
Lemma silent_on_world {A} c (m : NM A) : steady m -> silent (on_world c m).
Proof.
  intros Hm s. unfold on_world. unfold mbind at 1, M_bind at 1. unfold get_link, mbind at 1, M_bind at 1, get. cbn.
  destruct (links s !! c) as [l|] eqn:Hl; [|reflexivity]. cbn. specialize (Hm (world l)). destruct (m (world l)) as [r w]. cbn in Hm.
  assert (quiet s (upd_link c (link_set_world w) s).2) as Hq.
  { split; try done; [|cbn; by rewrite <- !size_dom, dom_alter_L]. intros q. cbn. destruct (decide (q = c)) as [->|Hne]; [|by rewrite lookup_alter_ne].
    rewrite lookup_alter_eq, Hl. cbn. unfold link_view, is_terminated. cbn. by rewrite Hm. }
  destruct r; exact Hq.
Qed.
End Inv.

Ltac silent_tac := repeat (first
  [ match goal with |- silent (_ ≫= _) => apply silent_bind; [|intros ?] end
  | match goal with |- silent get => apply silent_get | |- silent (get_link _) => apply silent_get_link | |- silent (get_peer _) => apply silent_get_peer end
  | match goal with |- silent (assert _) => apply silent_assert | |- silent (notify _) => apply silent_notify end
  | match goal with |- silent (upd_peer _ _) => apply silent_upd_peer; done | |- silent (upd_link _ _) => apply silent_upd_link; done end
  | match goal with |- silent (from_option _ _) => apply silent_from_option end
  | match goal with |- silent (modify _) => apply silent_modify; intros ?; by split end
  | match goal with |- silent (mret _) => apply silent_ret | |- silent (throw _) => apply silent_throw end
  | match goal with |- silent (match ?x with _ => _ end) => destruct x end
  | match goal with |- silent (let '(_, _) := ?x in _) => destruct x end
  | done ]).

Section Ops.
Context `{Host} (sha1 sha256 : list Z -> list Z) (junk_msg : Msg) (recv_chunk_size max_recv_buff_size : nat) (max_msg_size msg_magic : Z).
Context (listen_addr : NetAddr).

Lemma silent_link_send op bytes c : silent (link_send sha1 junk_msg msg_magic op bytes c).
Proof. unfold link_send. silent_tac. apply silent_on_world. unfold send_msg, write. steady_tac. Qed.
Lemma silent_disp_terminate c : silent (disp_terminate c).
Proof. apply silent_on_world, steady_worker_terminate. Qed.
Lemma silent_terminate_stale o c : silent (terminate_stale o c).
Proof. unfold terminate_stale. silent_tac. apply silent_disp_terminate. Qed.
Lemma silent_terminate_opt o : silent (terminate_opt o).
Proof. unfold terminate_opt. silent_tac. apply silent_disp_terminate. Qed.
Lemma silent_get_nonce p : silent (get_nonce p).
Proof. unfold get_nonce, rand_u16. silent_tac. Qed.
Lemma silent_send_ping p : silent (send_ping sha1 junk_msg msg_magic p).
Proof. unfold send_ping. silent_tac. apply silent_link_send. Qed.
Lemma silent_reset_ping_timer p : silent (reset_ping_timer p).
Proof. unfold reset_ping_timer. silent_tac. Qed.
Lemma silent_ping_timer p : silent (ping_timer sha1 junk_msg msg_magic p).
Proof. unfold ping_timer. silent_tac; [apply silent_reset_ping_timer|apply silent_send_ping]. Qed.
Lemma silent_move_segments f old new : silent (move_segments f old new).
Proof.
  induction f; cbn [move_segments]; silent_tac; apply silent_on_world; unfold pop_segment, write; steady_tac.
Qed.
Lemma silent_get_peer_id tls m c a : silent (get_peer_id sha256 tls m c a).
Proof. unfold get_peer_id, _get_peer_id. silent_tac. Qed.
Lemma silent_replace_pending c : silent (replace_pending_conn c).
Proof. unfold replace_pending_conn. silent_tac. apply silent_disp_terminate. Qed.
Lemma silent_setup_body tls m c : silent (on_dispatcher_setup sha1 sha256 junk_msg msg_magic tls m listen_addr c).
Proof.
  unfold on_dispatcher_setup. silent_tac; [apply silent_get_peer_id|apply silent_get_nonce|apply silent_link_send|apply silent_replace_pending].
Qed.

Lemma wp_silent {A B} (m : PM A) (f : A -> PM B) Q X s : silent m -> (forall a s', quiet s s' -> wp (f a) Q X s') ->
  (forall e s', X e s') -> wp (m ≫= f) Q X s.
Proof.
  intros Hm Hf HX. apply wp_bind. unfold wp. specialize (Hm s). destruct (m s) as [[a|e] s'] eqn:E; [by apply Hf|apply HX].
Qed.
Lemma wp_silent_end {A} (m : PM A) Q X s : silent m -> (forall a s', quiet s s' -> Q a s') -> (forall e s', X e s') -> wp m Q X s.
Proof. intros Hm Hf HX. unfold wp. specialize (Hm s). destruct (m s) as [[a|e] s'] eqn:E; [by apply Hf|apply HX]. Qed.
End Ops.
