(* ===== verification/PeersSafe.v ===== *)
(** * No peer is stranded

    Every event keeps the invariant of PeersInv; hence a registered peer is
    connected, and will be told when its connection ends, or it is tried again
    as long as it has attempts left. *)

From Stdlib Require Import ZArith Lia.
From S2P Require Import Prelude Bytes Stream SegBuffer Framing Conn Peers PeersInv.

Section Safe.
Context `{Host} (sha1 sha256 : list Z -> list Z) (junk_msg : Msg) (recv_chunk_size max_recv_buff_size : nat) (max_msg_size msg_magic : Z).
Context (listen_addr : NetAddr) (owner : NetAddr -> PeerId).

Notation inv := (inv sha256 owner).
Notation peer_ok := (peer_ok sha256 owner).
Notation belongs := (belongs sha256 owner).
Notation anyway := (fun (_ : PError) (_ : Net) => True).
Notation finish_handshake := (finish_handshake sha1 junk_msg msg_magic).

(** A step that the invariant does not see, before the rest or at the end. *)
Lemma wp_skip {A B} (m : PM A) (f : A -> PM B) (Q : B -> Net -> Prop) s : silent m ->
  (forall a s', quiet s s' -> wp (f a) Q anyway s') -> wp (m ≫= f) Q anyway s.
Proof. intros Hm Hf. by apply wp_silent. Qed.
Lemma wp_last {A} (m : PM A) (Q : A -> Net -> Prop) s : silent m -> (forall a s', quiet s s' -> Q a s') -> wp m Q anyway s.
Proof. intros Hm Hf. by apply wp_silent_end. Qed.

Lemma wp_get_peer {B} p (f : Peer -> PM B) Q s : (forall x, peers s !! p = Some x -> wp (f x) Q anyway s) -> wp (get_peer p ≫= f) Q anyway s.
Proof. intros Hf. apply wp_bind. unfold get_peer. apply wp_bind, wp_get, wp_from_option; [intros x Hx; by apply Hf|done]. Qed.
Lemma wp_get_link {B} c (f : Link -> PM B) Q s : (forall l, links s !! c = Some l -> wp (f l) Q anyway s) -> wp (get_link c ≫= f) Q anyway s.
Proof. intros Hf. apply wp_bind. unfold get_link. apply wp_bind, wp_get, wp_from_option; [intros x Hx; by apply Hf|done]. Qed.
Lemma wp_assert {B} b (f : unit -> PM B) Q s : (b = true -> wp (f tt) Q anyway s) -> wp (assert b ≫= f) Q anyway s.
Proof. intros Hf. apply wp_bind. unfold assert. destruct b; [by apply wp_ret, Hf|done]. Qed.

(** In the middle of an operation on [p], whose identity, connection and state
    are known. *)
Record during (p : nat) (hs hr : option nat) (i : PeerId) (k : nat) (st : PeerState) (s : Net) : Prop := {
  du_inv : inv hs hr None s;
  du_peer : exists x, peers s !! p = Some x /\ pid x = i /\ pconn x = k /\ pstate x = st;
}.

Lemma quiet_during p hs hr i k st s s' : during p hs hr i k st s -> quiet s s' -> during p hs hr i k st s'.
Proof.
  intros [I (x & Hx & E1 & E2 & E3)] Hq. split; [by apply (inv_quiet _ _ _ _ _ s)|].
  destruct (quiet_peer _ _ _ _ Hq Hx) as (x' & Hx' & [= V1 V2 V3 V4' V4 V5 V6 V7 V8]). exists x'. split; [done|]. split_and!; congruence.
Qed.

Lemma during_upd p hs hr hs' hr' i k k' st st' s f : (forall q, q <> p -> (hs = Some q -> hs' = Some q) /\ (hr = Some q -> hr' = Some q)) ->
  during p hs hr i k st s ->
  (forall x, pid x = i -> pconn x = k -> pstate x = st -> pid (f x) = i /\ pconn (f x) = k' /\ pstate (f x) = st' /\
    (peer_ok hs hr None s p x -> peer_ok hs' hr' None s p (f x))) ->
  during p hs' hr' i k' st' (set_peers (alter f p (peers s)) s).
Proof.
  intros Hh [I (x & Hx & E1 & E2 & E3)] Hf. destruct (Hf x E1 E2 E3) as (F1 & F2 & F3 & Hok). split.
  - apply (inv_upd_peer _ _ hs hr hs' hr' None s p x); try done. congruence.
  - exists (f x). cbn. by rewrite lookup_alter_eq, Hx.
Qed.

(** A connection that can serve a peer. *)
Definition usable (c : nat) (i : PeerId) (s : Net) : Prop := exists l, links s !! c = Some l /\ is_terminated l = false /\ belongs l i.

Lemma quiet_usable c i s s' : usable c i s -> quiet s s' -> usable c i s'.
Proof.
  intros (l & Hl & Ht & Hb) Hq. destruct (quiet_link _ _ _ _ Hq Hl) as (l' & Hl' & Hv). exists l'. split; [done|].
  split; [injection Hv as _ _ _ _ _ _ ->; done|by apply (view_belongs _ _ l)].
Qed.

Lemma usable_peer c i s q o : usable c i s -> usable c i (set_links (alter (link_set_peer o) q (links s)) s).
Proof.
  intros (l & Hl & Ht & Hb). unfold usable. cbn [links set_links]. destruct (decide (q = c)) as [->|Hne].
  - exists (link_set_peer o l). by rewrite lookup_alter_eq, Hl.
  - exists l. by rewrite lookup_alter_ne.
Qed.

(** Clearing or setting the pointer of a connection that only [p] can use. *)
Lemma during_link p hs hr i k st s c l o : during p hs hr i k st s -> (hs = Some p \/ hs = None /\ st = DISCONNECTED) ->
  links s !! c = Some l -> belongs l i \/ dummy l ->
  during p hs hr i k st (set_links (alter (link_set_peer o) c (links s)) s).
Proof.
  intros [I (x & Hx & E1 & E2 & E3)] Hh Hl Hb. split; [|by exists x].
  apply (inv_upd_link _ _ _ _ _ s c l); try done; [intros Hce; by apply (in_links _ _ _ _ _ _ I c l)|].
  intros q y Hq Hy Hst Hc _. destruct (decide (q = p)) as [->|Hne].
  - exfalso. destruct Hh as [|[_ ->]]; [done|]. congruence.
  - exfalso. refine (not_shared _ _ hs hr None s p x c l _ I Hx Hl _ q y Hne Hy Hst Hc); [destruct Hh as [->|[-> _]]; auto|by rewrite E1].
Qed.

(** The three kinds of steps of finish_handshake. *)
Definition choosing (c p : nat) (hs hr : option nat) (i : PeerId) (k : nat) (st : PeerState) (s : Net) : Prop :=
  during p hs hr i k st s /\ usable c i s.

Lemma wp_choosing {A B} (m : PM A) (f : A -> PM B) (Q : B -> Net -> Prop) c p hs hr i k st s : silent m -> choosing c p hs hr i k st s ->
  (forall a s', choosing c p hs hr i k st s' -> wp (f a) Q anyway s') -> wp (m ≫= f) Q anyway s.
Proof. intros Hm [D U] Hf. apply wp_skip; [done|]. intros a s' Hq. apply Hf. split; [by apply (quiet_during _ _ _ _ _ _ s)|by apply (quiet_usable _ _ s)]. Qed.

Lemma wp_choosing_upd {B} g (f : unit -> PM B) (Q : B -> Net -> Prop) c p hs hr hs' hr' i k k' st st' s :
  (forall q, q <> p -> (hs = Some q -> hs' = Some q) /\ (hr = Some q -> hr' = Some q)) -> choosing c p hs hr i k st s ->
  (forall x, pid x = i -> pconn x = k -> pstate x = st -> pid (g x) = i /\ pconn (g x) = k' /\ pstate (g x) = st' /\
    (peer_ok hs hr None s p x -> peer_ok hs' hr' None s p (g x))) ->
  (forall s', choosing c p hs' hr' i k' st' s' -> wp (f tt) Q anyway s') -> wp (upd_peer p g ≫= f) Q anyway s.
Proof.
  intros Hh [D U] Hg Hf. apply wp_bind, wp_modify, Hf. split; [|exact U]. by apply (during_upd p hs hr hs' hr' i k k' st st').
Qed.

Lemma wp_choosing_link {B} q l o (f : unit -> PM B) (Q : B -> Net -> Prop) c p hs hr i k st s :
  choosing c p hs hr i k st s -> (hs = Some p \/ hs = None /\ st = DISCONNECTED) -> links s !! q = Some l -> belongs l i \/ dummy l ->
  (forall s', choosing c p hs hr i k st s' -> wp (f tt) Q anyway s') -> wp (upd_link q (link_set_peer o) ≫= f) Q anyway s.
Proof.
  intros [D U] Hh Hl Hb Hf. apply wp_bind, wp_modify, Hf. split; [by apply (during_link p hs hr i k st s q l o)|by apply usable_peer].
Qed.

Ltac same_fields := intros ? ? ? ?; split_and!; try done; intros []; split; try done; try (by left); try (by right).

(** The end: the connection is chosen and the suspended clauses hold. *)
Lemma chosen_inv p i c l s : during p (Some p) None i c CONNECTED s -> links s !! c = Some l -> is_terminated l = false -> belongs l i ->
  inv None None None (set_links (alter (link_set_peer (Some p)) c (links s)) s).
Proof.
  intros D Hl Ht Hb. apply (during_link p (Some p) None i c CONNECTED s c l (Some p)) in D; [|by left|done|by left].
  destruct D as [I (y & Hy & Y1 & Y2 & Y3)]. eapply close_state; [exact I|exact Hy|]. exists (link_set_peer (Some p) l).
  rewrite Y2, Y1, Y3. cbn [links set_links]. rewrite lookup_alter_eq, Hl. split_and!; try done. intros _. split_and!; auto.
Qed.

Lemma wp_outbound {B} x (f : unit -> PM B) (Q : B -> Net -> Prop) c p i k s : choosing c p None None i k DISCONNECTED s ->
  serves sha256 owner s ACTIVE i (outbound_conn x) ->
  (forall s', choosing c p None None i k DISCONNECTED s' -> wp (f tt) Q anyway s') ->
  wp (match outbound_conn x with Some o => _ ← upd_link o (link_set_peer None); upd_peer p (peer_set_outbound None) | None => mret tt end ≫= f) Q anyway s.
Proof.
  intros D Ho Hf. destruct (outbound_conn x) as [o|]; [|by apply wp_bind, wp_ret, Hf]. destruct (Ho o eq_refl) as (l & Hl & _ & Hb).
  apply wp_bind, (wp_choosing_link o l None _ _ c p None None i k DISCONNECTED s); auto. intros s' [D' U']. apply wp_modify, Hf. split; [|exact U'].
  apply (during_upd p None None None None i k k DISCONNECTED DISCONNECTED); try done. same_fields.
Qed.

Lemma quiet_serves m i o s s' : serves sha256 owner s m i o -> quiet s s' -> serves sha256 owner s' m i o.
Proof.
  intros Hs Hq c Hc. destruct (Hs c Hc) as (l & Hl & Hm & Hb). destruct (quiet_link _ _ _ _ Hq Hl) as (l' & Hl' & Hv).
  exists l'. split; [done|]. split; [by injection Hv as -> _ _ _ _ _ _|by apply (view_belongs _ _ l)].
Qed.

Lemma finish_spec p c x s : inv None None None s -> peers s !! p = Some x -> chosen_conn x = Some c -> usable c (pid x) s ->
  wp (finish_handshake p) (fun _ s' => inv None None None s') anyway s.
Proof.
  intros I Hx Hc Hu. set (i := pid x) in *. set (k := pconn x).
  unfold Peers.finish_handshake. apply wp_get_peer. intros x' Hx'. rewrite Hx in Hx'. injection Hx' as <-.
  apply wp_assert. intros Hst%bool_decide_eq_true.
  assert (choosing c p None None i k DISCONNECTED s) as D by (split; [split; [exact I|by exists x]|exact Hu]).
  pose proof (po_out _ _ _ _ _ _ _ _ (in_peers _ _ _ _ _ _ I p x Hx)) as Ho. clear I Hx Hu.
  apply wp_skip; [silent_tac|]. intros [] s1 Q1. apply (quiet_serves _ _ _ _ _ Ho) in Q1 as Ho1.
  assert (choosing c p None None i k DISCONNECTED s1) as D1 by (destruct D; split; [by apply (quiet_during _ _ _ _ _ _ s)|by apply (quiet_usable _ _ s)]).
  apply wp_bind, wp_modify. apply (wp_outbound x _ _ c p i k); [|exact Ho1|clear s s1 Q1 Ho Ho1 D D1].
  { destruct D1 as [D1 U1]. split; [|exact U1]. apply (during_upd p None None None None i k k DISCONNECTED DISCONNECTED s1); try done. same_fields. }
  intros s D. apply (wp_choosing_upd _ _ _ c p None None (Some p) None i k k DISCONNECTED CONNECTED s); [done|done|same_fields|clear D s].
  intros s D. apply (wp_choosing _ _ _ c p (Some p) None i k CONNECTED s); [apply silent_reset_ping_timer|done|clear D s].
  intros [] s D. apply (wp_choosing _ _ _ c p (Some p) None i k CONNECTED s); [apply silent_send_ping|done|clear D s].
  intros [] s D. apply (wp_choosing_upd _ _ _ c p (Some p) None (Some p) None i k k CONNECTED CONNECTED s); [done|done| |clear D s].
  { intros y F1 F2 F3. split_and!; try done. intros [K1 K2 K3 K4 K5 K6 K7 K8 K9]. split; try done; [right; intros Hf; cbn in Hf; congruence|].
    intros Hf. apply fmap_None in Hf. destruct (K9 Hf) as [_ Hn]. by split. }
  intros s D. rewrite Hc. cbn [from_option]. apply wp_bind, wp_ret. apply wp_get_link. intros lo Hlo. apply wp_assert. intros Hto.
  apply (wp_choosing _ _ _ c p (Some p) None i k CONNECTED s); [apply silent_move_segments|done|clear D Hlo Hto s].
  intros [] s D. destruct (du_peer _ _ _ _ _ _ _ (proj1 D)) as (y & Hy & Y1 & Y2 & Y3).
  destruct (po_conn _ _ _ _ _ _ _ _ (in_peers _ _ _ _ _ _ (du_inv _ _ _ _ _ _ _ (proj1 D)) p y Hy)) as (l & Hl & Hb). rewrite Y2 in Hl. rewrite Y1 in Hb.
  apply (wp_choosing_link k l None _ _ c p (Some p) None i k CONNECTED s); [done|by left|done|done|clear D y Hy Y1 Y2 Y3 l Hl Hb s].
  intros s D. apply (wp_choosing_upd _ _ _ c p (Some p) None (Some p) None i k c CONNECTED CONNECTED s); [done|done| |].
  { destruct D as [_ (l & Hl & _ & Hb)]. intros y F1 F2 F3. split_and!; try done. intros []. split; try done; [|by left]. exists l. split; [done|left]. cbn. by rewrite F1. }
  clear D s. intros s [D (l & Hl & Ht & Hb)]. apply wp_bind, wp_modify. apply (chosen_inv p i c l s D Hl Ht) in Hb. revert Hb. generalize (set_links (alter (link_set_peer (Some p)) c (links s)) s).
  clear. intros s I. apply wp_last; [silent_tac|]. intros _ s' Q. by apply (inv_quiet _ _ _ _ _ s).
Qed.

(** ** Teardown *)

Lemma undying hs hr c s : inv hs hr (Some c) s -> (forall p x, peers s !! p = Some x -> pstate x <> DISCONNECTED -> pconn x <> c) -> inv hs hr None s.
Proof.
  intros [I1 I2 I3 I4] Hn. split; try done. intros p x Hx. destruct (I1 p x Hx) as [K1 K2 K3 K4 K5 K6 K7 K8 K9]. split; try done.
  destruct K7 as [|(l & Hl & Hd & Hc)]; [by left|right]. exists l. split_and!; try done. intros Hst. destruct (Hc Hst) as (E1 & E2 & [E3|[E3|E3]]); auto.
  exfalso. by eapply Hn; [exact Hx|exact Hst|injection E3 as ->].
Qed.

Lemma suspend_retry hs d p s : inv hs None d s -> inv hs (Some p) d s.
Proof. intros [I1 I2 I3 I4]. split; try done. intros q x Hx. destruct (I1 q x Hx) as [K1 K2 K3 K4 K5 K6 K7 [|K8] K9]; split; try done. by right. Qed.

(** Everybody connected through [c] is the peer [c] points to. *)
Lemma through c l p x s : inv None None (Some c) s -> links s !! c = Some l -> peers s !! p = Some x -> pstate x <> DISCONNECTED -> pconn x = c -> peer l = Some p.
Proof.
  intros I Hl Hx Hst Hc. destruct (po_state _ _ _ _ _ _ _ _ (in_peers _ _ _ _ _ _ I p x Hx)) as [|(l' & Hl' & _ & Hs)]; [done|].
  rewrite Hc, Hl in Hl'. injection Hl' as <-. by apply Hs.
Qed.

(** The attempts that are left, at the end of a teardown. *)
Definition retry_later (p : nat) : PM unit :=
  _ ← upd_peer p (fun x => if 0 <? cur_ntry x then peer_set_cur_ntry (cur_ntry x - 1) x else x);
  x ← get_peer p;
  if negb (cur_ntry x =? 0) then
    _ ← upd_peer p (peer_set_nonce 0);
    _ ← assert (match retry_timer x with Some _ => true | None => false end);
    upd_peer p (peer_set_retry (Some true))
  else upd_peer p (peer_set_nonce passive_nonce).

Lemma retry_later_spec p i k s : during p None (Some p) i k DISCONNECTED s -> wp (retry_later p) (fun _ s' => inv None None None s') anyway s.
Proof.
  intros D. apply wp_bind, wp_modify. apply (during_upd p None (Some p) None (Some p) i k k DISCONNECTED DISCONNECTED s (fun x => if 0 <? cur_ntry x then peer_set_cur_ntry (cur_ntry x - 1) x else x)) in D; [|done|].
  2: { intros y F1 F2 F3. destruct (0 <? cur_ntry y) eqn:E; split_and!; try done. intros [K1 K2 K3 K4 K5 K6 K7 K8 K9]. split; try done; [by left|]. intros Hf. destruct (K9 Hf). lia. }
  revert D. match goal with |- during _ _ _ _ _ _ ?t -> _ => generalize t end. clear s. intros s D.
  apply wp_get_peer. intros x Hx. destruct (cur_ntry x =? 0) eqn:E; cbn [negb].
  - apply wp_last; [by apply silent_upd_peer|]. intros _ s' Q. apply (inv_quiet _ _ _ _ _ s); [|done].
    eapply close_retry; [apply D|exact Hx|]. intros _ Hn. lia.
  - apply wp_bind, wp_modify. apply (during_upd p None (Some p) None (Some p) i k k DISCONNECTED DISCONNECTED s (peer_set_nonce 0)) in D; [|done|same_fields].
    revert D. match goal with |- during _ _ _ _ _ _ ?t -> _ => generalize t end. clear s Hx. intros s D.
    apply wp_assert. intros _. apply wp_modify.
    apply (during_upd p None (Some p) None (Some p) i k k DISCONNECTED DISCONNECTED s (peer_set_retry (Some true))) in D; [|done|same_fields].
    destruct (du_peer _ _ _ _ _ _ _ D) as (y & Hy & Y). eapply close_retry; [apply D|exact Hy|].
    cbn [peers set_peers] in Hy. rewrite lookup_alter_eq in Hy. destruct (peers s !! p); [|done]. injection Hy as <-. done.
Qed.

Lemma teardown_spec c l s : inv None None (Some c) s -> links s !! c = Some l -> is_terminated l = true ->
  wp (on_dispatcher_teardown c) (fun _ s' => inv None None None s') anyway s.
Proof.
  intros I Hl Ht. unfold on_dispatcher_teardown. apply wp_get_link. intros l' Hl'. rewrite Hl in Hl'. injection Hl' as <-.
  apply wp_bind, wp_modify. set (s1 := set_pending _ s). assert (quiet s s1) as Q by (by split). apply (inv_quiet _ _ _ _ _ _ _ I) in Q. change (links s) with (links s1) in Hl.
  clearbody s1. clear I. rename Q into I.
  destruct (peer l) as [p|] eqn:Hp.
  2: { apply wp_ret, (undying _ _ c); [done|]. intros p x Hx Hst Hc. pose proof (through c l p x s1 I Hl Hx Hst Hc). congruence. }
  apply wp_get_peer. intros x Hx. fold (retry_later p).
  apply wp_bind. apply (wp_mono _ (fun _ s' => exists i k, during p None (Some p) i k DISCONNECTED s') _ anyway); [|intros _ s' (i & k & D); by apply (retry_later_spec p i k)|done].
  case_bool_decide as Hst.
  - apply wp_ret. exists (pid x), (pconn x). split; [|by exists x]. apply suspend_retry, (undying _ _ c); [done|]. intros q y Hy Hyst Hc.
    pose proof (through c l q y s1 I Hl Hy Hyst Hc) as E. rewrite Hp in E. injection E as <-. congruence.
  - apply wp_assert. intros Hc%Nat.eqb_eq. apply wp_bind, wp_modify. set (s2 := set_peers _ s1).
    assert (during p None (Some p) (pid x) (pconn x) DISCONNECTED s2) as D2.
    { split; [|unfold s2; cbn; rewrite lookup_alter_eq, Hx; by eexists].
      apply (undying _ _ c).
      - apply (inv_upd_peer _ _ None None None (Some p) (Some c) s1 p x); try done. intros []. split; try done; [|by left]. right. exists l. cbn. by rewrite Hc.
      - intros q y Hy Hyst E. unfold s2 in Hy. cbn in Hy. destruct (decide (q = p)) as [->|Hne].
        + rewrite lookup_alter_eq, Hx in Hy. by injection Hy as <-.
        + rewrite lookup_alter_ne in Hy by done. pose proof (through c l q y s1 I Hl Hy Hyst E) as E'. rewrite Hp in E'. congruence. }
    apply wp_last; [apply silent_notify|]. intros _ s3 Q. exists (pid x), (pconn x). by apply (quiet_during _ _ _ _ _ _ s2).
Qed.

(** ** Handshakes *)

Notation get_peer_id := (get_peer_id sha256 true CERT_BASED).
Notation ping_handler := (ping_handler sha1 sha256 junk_msg msg_magic true CERT_BASED listen_addr).
Notation pong_handler := (pong_handler sha1 sha256 junk_msg msg_magic true CERT_BASED).
Notation good := (inv None None None).

Lemma wp_get_peer_id {B} c a l (f : PeerId -> PM B) Q s : links s !! c = Some l ->
  (forall der, cert l = Some der -> wp (f (sha256 der)) Q anyway s) -> wp (get_peer_id c a ≫= f) Q anyway s.
Proof.
  intros Hl Hf. apply wp_bind. unfold Peers.get_peer_id. apply wp_get_link. intros l' Hl'. rewrite Hl in Hl'. injection Hl' as <-.
  unfold _get_peer_id. cbn [negb]. apply wp_bind, wp_from_option; [|done]. intros der Hd. by apply wp_ret, Hf.
Qed.

(** A connection with its mode. *)
Definition eligible (m : ConnMode) (c : nat) (i : PeerId) (s : Net) : Prop := usable c i s /\ serves sha256 owner s m i (Some c).

Lemma quiet_eligible m c i s s' : eligible m c i s -> quiet s s' -> eligible m c i s'.
Proof. intros [U S] Q. split; [by apply (quiet_usable _ _ s)|by apply (quiet_serves _ _ _ s)]. Qed.

Lemma eligible_intro m c i l s : links s !! c = Some l -> mode l = m -> is_terminated l = false -> belongs l i -> eligible m c i s.
Proof. intros Hl Hm Ht Hb. split; [by exists l|]. intros q [= <-]. by exists l. Qed.

Lemma wp_eligible {A B} (m : PM A) (f : A -> PM B) (Q : B -> Net -> Prop) md c p i k st s : silent m -> during p None None i k st s -> eligible md c i s ->
  (forall a s', during p None None i k st s' -> eligible md c i s' -> wp (f a) Q anyway s') -> wp (m ≫= f) Q anyway s.
Proof. intros Hm D E Hf. apply wp_skip; [done|]. intros a s' Hq. apply Hf; [by apply (quiet_during _ _ _ _ _ _ s)|by apply (quiet_eligible _ _ _ s)]. Qed.

(** Recording the connection of the handshake. *)
Lemma wp_record {B} (g : Peer -> Peer) (f : unit -> PM B) (Q : B -> Net -> Prop) md c p i k st s :
  match md with PASSIVE => g = peer_set_inbound (Some c) | ACTIVE => g = peer_set_outbound (Some c) end ->
  during p None None i k st s -> eligible md c i s ->
  (forall s', during p None None i k st s' -> eligible md c i s' -> wp (f tt) Q anyway s') -> wp (upd_peer p g ≫= f) Q anyway s.
Proof.
  intros Hg D [U Hs] Hf. apply wp_bind, wp_modify, Hf; [|by split].
  apply (during_upd p None None None None i k k st st); try done. intros y F1 F2 F3.
  destruct md; subst g; (split_and!; try done; intros []; split; try done); cbn [pid peer_set_inbound peer_set_outbound inbound_conn outbound_conn]; by rewrite F1.
Qed.

(** Choosing it. *)
Lemma finish_during c p i k st s : during p None None i k st s -> usable c i s -> (forall x, peers s !! p = Some x -> chosen_conn x = Some c) ->
  wp (finish_handshake p) (fun _ s' => good s') anyway s.
Proof. intros D U Hc. destruct (du_peer _ _ _ _ _ _ _ D) as (x & Hx & <- & Hk & Hst). apply (finish_spec p c x s); [apply D|done|by apply Hc|done]. Qed.

Lemma wp_unseen {B} g (f : unit -> PM B) (Q : B -> Net -> Prop) c p i k st s : (forall x, peer_view (g x) = peer_view x) ->
  during p None None i k st s -> usable c i s ->
  (forall s', during p None None i k st s' -> usable c i s' -> (forall x, peers s' !! p = Some x -> exists y, peers s !! p = Some y /\ x = g y) -> wp (f tt) Q anyway s') ->
  wp (upd_peer p g ≫= f) Q anyway s.
Proof.
  intros Hg D U Hf. apply wp_bind, wp_modify, Hf; [apply (quiet_during _ _ _ _ _ _ s); [done|by apply (silent_upd_peer p g)]|exact U|].
  intros x. cbn. rewrite lookup_alter_eq. destruct (peers s !! p) as [y|]; [|done]. intros [= <-]. by exists y.
Qed.

Lemma ping_handler_spec m c s : good s -> wp (ping_handler m c) (fun _ s' => good s') anyway s.
Proof.
  intros I. unfold Peers.ping_handler. apply wp_get_link. intros l Hl. destruct (is_terminated l) eqn:Ht; [by apply wp_ret|].
  destruct (is_null (claimed_addr m)).
  { apply wp_last; [apply silent_link_send|]. intros _ s' Q. by apply (inv_quiet _ _ _ _ _ s). }
  destruct (mode l) eqn:Hm; [by apply wp_ret|]. apply (wp_get_peer_id c _ l); [done|]. intros der Hd. apply wp_bind, wp_get.
  destruct (known_peers s !! sha256 der) as [p|] eqn:Hk.
  2: { apply wp_last; [silent_tac; apply silent_disp_terminate|]. intros _ s' Q. by apply (inv_quiet _ _ _ _ _ s). }
  apply wp_get_peer. intros x Hx. destruct (_ || _); [by apply wp_ret|].
  pose proof (proj2 (in_known _ _ _ _ _ _ I _ _ Hk) x Hx) as Hi.
  assert (during p None None (pid x) (pconn x) (pstate x) s) as D by (split; [exact I|by exists x]).
  assert (eligible PASSIVE c (pid x) s) as E.
  { apply (eligible_intro PASSIVE c (pid x) l); try done. unfold PeersInv.belongs. rewrite Hm. exists der. by rewrite Hi. }
  clear Hl I Hx Hk. revert D E. generalize (pconn x) as k, (pstate x) as st. intros k st D E.
  apply (wp_eligible _ _ _ PASSIVE c p (pid x) k st s); [apply silent_get_nonce|done|done|clear s D E]. intros n s D E.
  apply (wp_eligible _ _ _ PASSIVE c p (pid x) k st s); [apply silent_link_send|done|done|clear s D E]. intros _ s D E.
  apply (wp_eligible _ _ _ PASSIVE c p (pid x) k st s); [apply silent_terminate_stale|done|done|clear s D E]. intros _ s D E.
  apply (wp_record _ _ _ PASSIVE c p (pid x) k st s); [done|done|done|clear s D E]. intros s D E.
  apply (wp_eligible _ _ _ PASSIVE c p (pid x) k st s); [apply silent_get_nonce|done|done|clear s D E]. intros n' s D E.
  destruct (_ || _).
  - apply (wp_unseen _ _ _ c p (pid x) k st s); [done|done|apply E|]. intros s' D' U' Hc.
    apply (finish_during c p (pid x) k st s' D' U'). intros y Hy. by destruct (Hc y Hy) as (z & _ & ->).
  - apply wp_last; [apply silent_disp_terminate|]. intros _ s' Q. apply (inv_quiet _ _ _ _ _ s); [apply D|done].
Qed.

Lemma pong_handler_spec m c s : good s -> wp (pong_handler m c) (fun _ s' => good s') anyway s.
Proof.
  intros I. unfold Peers.pong_handler. apply wp_get_link. intros l Hl. destruct (is_terminated l) eqn:Ht; [by apply wp_ret|].
  destruct (is_null (claimed_addr m)).
  { apply wp_last; [|intros _ s' Q; by apply (inv_quiet _ _ _ _ _ s)]. silent_tac; [apply silent_reset_ping_timer|apply silent_send_ping]. }
  destruct (mode l) eqn:Hm; [|by apply wp_ret]. apply (wp_get_peer_id c _ l); [done|]. intros der Hd. apply wp_bind, wp_get.
  destruct (known_peers s !! sha256 der) as [p|] eqn:Hk.
  2: { apply wp_last; [apply silent_disp_terminate|]. intros _ s' Q. by apply (inv_quiet _ _ _ _ _ s). }
  apply wp_get_peer. intros x Hx. apply wp_assert. intros [Hnn Ha]%andb_prop. apply bool_decide_eq_true in Ha. destruct (_ || _); [by apply wp_ret|].
  assert (during p None None (pid x) (pconn x) (pstate x) s) as D by (split; [exact I|by exists x]).
  assert (eligible ACTIVE c (pid x) s) as E.
  { apply (eligible_intro ACTIVE c (pid x) l); try done. unfold PeersInv.belongs. rewrite Hm, <- Ha.
    destruct (po_addr _ _ _ _ _ _ _ _ (in_peers _ _ _ _ _ _ I p x Hx)); [by destruct (is_null _)|]. by destruct (is_null _). }
  clear Hl I Hx Hk Ha. revert D E. generalize (pconn x) as k, (pstate x) as st. intros k st D E.
  apply (wp_eligible _ _ _ ACTIVE c p (pid x) k st s); [apply silent_terminate_stale|done|done|clear s D E]. intros _ s D E.
  apply (wp_record _ _ _ ACTIVE c p (pid x) k st s); [done|done|done|clear s D E]. intros s D E.
  apply (wp_eligible _ _ _ ACTIVE c p (pid x) k st s); [apply silent_get_nonce|done|done|clear s D E]. intros n' s D E.
  match goal with |- wp (if ?b then _ else _) _ _ _ => destruct b end.
  - apply (wp_unseen _ _ _ c p (pid x) k st s); [done|done|apply E|]. intros s' D' U' Hc.
    apply (wp_unseen _ _ _ c p (pid x) k st s'); [done|done|done|]. intros s'' D'' U'' Hc'.
    apply (finish_during c p (pid x) k st s'' D'' U''). intros y Hy. destruct (Hc' y Hy) as (z & Hz & ->). by destruct (Hc z Hz) as (? & _ & ->).
  - apply wp_last; [apply silent_disp_terminate|]. intros _ s' Q. apply (inv_quiet _ _ _ _ _ s); [apply D|done].
Qed.

(** ** Registering peers *)

(** More connections and peers. *)
Lemma peer_ok_mono hs hr d s s' p x : peer_ok hs hr d s p x -> links s ⊆ links s' -> known_peers s' !! pid x = Some p ->
  (next_peer s <= next_peer s')%nat -> deleting s' = deleting s -> peer_ok hs hr d s' p x.
Proof.
  intros [K1 K2 K3 K4 K5 K6 K7 K8 K9] Hl Hk Hn Hd.
  assert (forall m o, serves sha256 owner s m (pid x) o -> serves sha256 owner s' m (pid x) o) as Hserves.
  { intros m o Hs c Hc. destruct (Hs c Hc) as (l & Hlk & Hrest). exists l. split; [by eapply lookup_weaken|done]. }
  split; auto; [lia| |].
  - destruct K4 as (l & Hlk & Hb). exists l. split; [by eapply lookup_weaken|done].
  - destruct K7 as [|(l & Hlk & Hst)]; [by left|right]. exists l. rewrite Hd. split; [by eapply lookup_weaken|done].
Qed.

Lemma fresh_link hs hr d s : inv hs hr d s -> links s !! size (links s) = None.
Proof. intros I. destruct (links s !! size (links s)) as [l|] eqn:E; [|done]. apply (in_links _ _ _ _ _ _ I) in E as [E _]. lia. Qed.

Lemma inv_add_conn hs hr d s l : inv hs hr d s -> cert l = None -> inv hs hr d (set_links (<[size (links s) := l]> (links s)) s).
Proof.
  intros I Hc. pose proof (fresh_link _ _ _ _ I) as Hf. destruct I as [I1 I2 I3 I4].
  assert (links s ⊆ <[size (links s) := l]> (links s)) as Hsub by (by apply insert_subseteq).
  split; [|..|exact I3|].
  - intros p x Hx. apply (peer_ok_mono hs hr d s); auto. apply (po_known _ _ _ _ _ _ _ _ (I1 p x Hx)).
  - intros c l' Hl'. cbn [links set_links] in *. rewrite map_size_insert_None by done. destruct (decide (c = size (links s))) as [->|Hne].
    + rewrite lookup_insert_eq in Hl'. injection Hl' as <-. split; [lia|by rewrite Hc].
    + rewrite lookup_insert_ne in Hl' by done. destruct (I2 c l' Hl'). split; [lia|done].
  - intros c Hcd. destruct (I4 c Hcd) as (l' & Hl' & Ht). exists l'. split; [|done]. by eapply lookup_weaken.
Qed.

(** Operations of the user: an error that reaches the user leaves the state good. *)
Definition handed (m : PM unit) (s : Net) : Prop := wp m (fun _ s' => good s') (fun e s' => match e with EPeer _ => good s' | _ => True end) s.

Lemma recoverable_spec m s : handed m s -> wp (recoverable m) (fun _ s' => good s') anyway s.
Proof.
  unfold handed, wp, recoverable. destruct (m s) as [[[]|[]] s']; try done. intros I. cbn. apply (inv_quiet _ _ _ _ _ s'); [done|by split].
Qed.

Definition fatal {A} (m : PM A) : Prop := forall s e, (m s).1 <> inr (EPeer e).
Lemma fatal_bind {A B} (m : PM A) (f : A -> PM B) : fatal m -> (forall a, fatal (f a)) -> fatal (m ≫= f).
Proof. intros Hm Hf s e. unfold mbind, M_bind. specialize (Hm s). destruct (m s) as [[a|e'] s']; [apply Hf|]. intros [= ->]. by eapply Hm. Qed.
Lemma fatal_from_option {A} e (o : option A) : (forall c, e <> EPeer c) -> fatal (from_option e o).
Proof. intros He s c. destruct o; cbn; [done|]. intros [= E]. by apply (He c). Qed.
Lemma fatal_assert b : fatal (assert b).
Proof. by destruct b. Qed.
Lemma fatal_on_world {A} c (m : NM A) : fatal (on_world c m).
Proof.
  unfold on_world. apply fatal_bind; [apply fatal_bind; [done|intros ?; by apply fatal_from_option]|intros l].
  destruct (m (world l)) as [r w]. apply fatal_bind; [done|]. by destruct r.
Qed.
Ltac fatal_tac := repeat (first
  [ match goal with |- fatal (_ ≫= _) => apply fatal_bind; [|intros ?] end
  | match goal with |- fatal (assert _) => apply fatal_assert | |- fatal (on_world _ _) => apply fatal_on_world end
  | match goal with |- fatal (get_peer _) => unfold get_peer | |- fatal (get_link _) => unfold get_link | |- fatal (disp_terminate _) => apply fatal_on_world
      | |- fatal (terminate_opt _) => unfold terminate_opt end
  | match goal with |- fatal (from_option _ _) => by apply fatal_from_option end
  | match goal with |- fatal (match ?x with _ => _ end) => destruct x end
  | done ]).

Lemma fatal_handed m s : fatal m -> wp m (fun _ s' => good s') anyway s -> handed m s.
Proof. unfold handed, wp. intros Hm. specialize (Hm s). destruct (m s) as [[[]|[]] s']; try done. intros _. by edestruct Hm. Qed.

(** With a registered peer. *)
Lemma found_spec i (body : nat -> PM unit) s : good s -> (forall p, known_peers s !! i = Some p -> handed (body p) s) ->
  wp (recoverable (p ← find_peer i; body p)) (fun _ s' => good s') anyway s.
Proof.
  intros I Hb. apply recoverable_spec. unfold handed, find_peer. apply wp_bind, wp_bind, wp_get, wp_from_option; [|done]. intros p Hp. by apply Hb.
Qed.

(** A new peer whose connection is a dummy. *)
Lemma inv_register i c l s : good s -> known_peers s !! i = None -> links s !! c = Some l -> dummy l ->
  good (mkNet (links s) (<[next_peer s := mkPeer i NetAddr_null passive_nonce c 0 0 None None None None false false false DISCONNECTED]> (peers s))
    (<[i := next_peer s]> (known_peers s)) (pending_peers s) (deleting s) (S (next_peer s)) (rands s) (calls s)).
Proof.
  intros [I1 I2 I3 I4] Hi Hl Hd. split; cbn [links peers known_peers next_peer deleting]; [|exact I2| |exact I4].
  - intros p x Hx. destruct (decide (p = next_peer s)) as [->|Hne].
    + rewrite lookup_insert_eq in Hx. injection Hx as <-.
      split; cbn; rewrite ?lookup_insert_eq; try done; [lia|by left|exists l; split; [done|by right]|right|by right; intros _ Hn]. exists l. split; [done|]. split; [intros _; apply Hd|done].
    + rewrite lookup_insert_ne in Hx by done. pose proof (I1 p x Hx) as K. apply (peer_ok_mono _ _ _ s); [done|done| |cbn; lia|done].
      cbn. rewrite lookup_insert_ne; [apply (po_known _ _ _ _ _ _ _ _ K)|]. intros E. pose proof (po_known _ _ _ _ _ _ _ _ K) as K'. rewrite <- E in K'. congruence.
  - intros j p Hj. destruct (decide (j = i)) as [->|Hne].
    + rewrite lookup_insert_eq in Hj. injection Hj as <-. split; [lia|]. intros x Hx. rewrite lookup_insert_eq in Hx. by injection Hx as <-.
    + rewrite lookup_insert_ne in Hj by done. destruct (I3 j p Hj) as [Hp Hid]. split; [lia|]. intros x Hx. rewrite lookup_insert_ne in Hx by lia. by apply Hid.
Qed.

(** Nobody uses a connection that did not exist. *)
Lemma fresh_unused hs hr d s s' l o : inv hs hr d s -> cert l = None -> s' = set_links (<[size (links s) := l]> (links s)) s ->
  inv hs hr d (set_links (alter (link_set_peer o) (size (links s)) (links s')) s').
Proof.
  intros I Hc ->. pose proof (inv_add_conn _ _ _ _ l I Hc) as I'. pose proof (fresh_link _ _ _ _ I) as Hf.
  apply (inv_upd_link _ _ _ _ _ _ (size (links s)) l); try done; [cbn; by rewrite lookup_insert_eq|].
  intros p x Hh Hx Hst Hk _. destruct (po_state _ _ _ _ _ _ _ _ (in_peers _ _ _ _ _ _ I p x Hx)) as [|(l' & Hl & _)]; [done|]. by rewrite Hk, Hf in Hl.
Qed.

Lemma add_peer_spec i s : good s -> wp (add_peer junk_msg i) (fun _ s' => good s') anyway s.
Proof.
  intros I. apply recoverable_spec. unfold handed. apply wp_bind, wp_get. destruct (known_peers s !! i) as [q|] eqn:Hi; [exact I|].
  unfold add_conn. repeat (apply wp_bind || apply wp_get || apply wp_modify || apply wp_ret).
  set (l0 := mkLink PASSIVE _ _ _ _ _ _). pose proof (fresh_unused _ _ _ s _ l0 (Some (next_peer s)) I eq_refl eq_refl) as I'.
  refine (inv_register i (size (links s)) (link_set_peer (Some (next_peer s)) l0) _ I' Hi _ _); [|done].
  cbn. by rewrite lookup_alter_eq, lookup_insert_eq.
Qed.

Lemma set_peer_addr_spec i a s : is_null a = true \/ owner a = i -> good s -> wp (set_peer_addr i a) (fun _ s' => good s') anyway s.
Proof.
  intros Ha I. apply found_spec; [done|]. intros p Hp. apply fatal_handed; [fatal_tac|]. apply wp_get_peer. intros x Hx. apply wp_modify.
  apply (inv_upd_peer _ _ None None None None None s p x); try done. intros []. split; try done. cbn.
  by rewrite (proj2 (in_known _ _ _ _ _ _ I _ _ Hp) x Hx).
Qed.

(** conn_peer changes no clause but the one on retries. *)
Lemma conn_peer_spec i n s : good s -> wp (conn_peer i n) (fun _ s' => good s') anyway s.
Proof.
  intros I. apply found_spec; [done|]. intros p Hp. unfold handed.
  apply wp_bind. unfold get_peer. apply wp_bind, wp_get, wp_from_option; [|done]. intros x Hx. destruct (is_null (paddr x)) eqn:Hnn; [exact I|].
  apply (fatal_handed (_ ≫= _)); [fatal_tac|]. apply wp_bind, wp_modify. set (f := fun x : Peer => _).
  assert (during p None (Some p) (pid x) (pconn x) (pstate x) s) as D by (split; [by apply suspend_retry|by exists x]).
  apply (during_upd p None (Some p) None (Some p) (pid x) (pconn x) (pconn x) (pstate x) (pstate x) s f) in D; [|done|same_fields].
  match type of D with during _ _ _ _ _ _ ?t => assert (forall y, peers t !! p = Some y -> y = f x) as Hy end.
  { intros y. cbn. rewrite !lookup_alter_eq, Hx. by intros [= <-]. }
  revert D Hy. match goal with |- during _ _ _ _ _ _ ?t -> _ => generalize t end. clear s I Hp Hx. intros s D Hy.
  destruct (bool_decide (pstate x = DISCONNECTED) && negb (n =? 0)) eqn:E.
  - apply wp_modify. apply (during_upd p None (Some p) None (Some p) (pid x) (pconn x) (pconn x) (pstate x) (pstate x) s (peer_set_retry (Some true))) in D; [|done|same_fields].
    destruct (du_peer _ _ _ _ _ _ _ D) as (y & Hy' & _). eapply close_retry; [apply D|exact Hy'|].
    cbn in Hy'. rewrite lookup_alter_eq in Hy'. destruct (peers s !! p); [|done]. by injection Hy' as <-.
  - assert (forall y, peers s !! p = Some y -> retry_ok y) as Hr.
    { intros y ->%Hy Hst Hc. cbn in Hst, Hc. exfalso. rewrite bool_decide_eq_true_2 in E by done. cbn in E. lia. }
    destruct (du_peer _ _ _ _ _ _ _ D) as (y & Hy' & Y1 & Y2 & Y3).
    assert (during p None None (pid x) (pconn x) (pstate x) s) as D'.
    { split; [|by exists y]. eapply close_retry; [apply D|exact Hy'|by apply Hr]. }
    destruct (bool_decide (pstate x = CONNECTED)) eqn:Hcon; [apply bool_decide_eq_true in Hcon|by apply wp_ret, D']. apply wp_bind, wp_modify.
    apply (during_upd p None None None None (pid x) (pconn x) (pconn x) (pstate x) RESET s (peer_set_state RESET)) in D'; [|done|].
    + apply wp_last; [apply silent_disp_terminate|]. intros _ s' Q. by apply (inv_quiet _ _ _ _ _ _ _ (du_inv _ _ _ _ _ _ _ D')).
    + intros z F1 F2 F3. split_and!; try done. intros [K1 K2 K3 K4 K5 K6 K7 K8 K9]. split; try done; [|by right]. right. destruct K7 as [|(l & Hl & _ & Hs)]; [done|].
      exists l. split_and!; try done. intros _. apply Hs. congruence.
Qed.

(** Deleting a peer: its connections lose their pointers first. *)
Lemma during_pointer p hs hr i k st s c l o : during p (Some p) hr i k st s -> links s !! c = Some l -> belongs l i \/ dummy l ->
  hs = Some p -> during p hs hr i k st (set_links (alter (link_set_peer o) c (links s)) s).
Proof. intros D Hl Hb ->. by apply (during_link p (Some p) hr i k st s c l o); [|left|..]. Qed.

Lemma suspend_state hr d p s : inv None hr d s -> inv (Some p) hr d s.
Proof. intros [I1 I2 I3 I4]. split; try done. intros q x Hx. destruct (I1 q x Hx) as [K1 K2 K3 K4 K5 K6 [|K7] K8 K9]; split; try done. by right. Qed.

(** Once nothing of the peer is left. *)
Lemma inv_unregister p i hr k st s : during p (Some p) hr i k st s ->
  inv None hr None (set_peers (delete p (peers s)) (set_known (delete i (known_peers s)) s)).
Proof.
  intros [[I1 I2 I3 I4] (x & Hx & Hi & _)]. split; [|exact I2| |exact I4]; cbn [peers known_peers next_peer set_peers set_known].
  - intros q y Hy. apply lookup_delete_Some in Hy as [Hne Hy]. destruct (I1 q y Hy) as [K1 K2 K3 K4 K5 K6 K7 K8 K9]. split; try done.
    + cbn. rewrite lookup_delete_ne; [done|]. intros E. rewrite <- E, <- Hi, (po_known _ _ _ _ _ _ _ _ (I1 p x Hx)) in K1. congruence.
    + right. destruct K7; [congruence|done].
  - intros j q Hj. apply lookup_delete_Some in Hj as [_ Hj]. destruct (I3 j q Hj) as [Hq Hid]. split; [done|]. intros y Hy. apply lookup_delete_Some in Hy as [_ Hy]. by apply Hid.
Qed.

Lemma serves_pointer m i o q z s : serves sha256 owner s m i o -> serves sha256 owner (set_links (alter (link_set_peer z) q (links s)) s) m i o.
Proof.
  intros Hs c Hc. destruct (Hs c Hc) as (l & Hl & Hm & Hb). cbn [links set_links]. destruct (decide (q = c)) as [->|Hne].
  - exists (link_set_peer z l). by rewrite lookup_alter_eq, Hl.
  - exists l. by rewrite lookup_alter_ne.
Qed.

Definition forget (o : option nat) (s : Net) : Net := match o with Some c => set_links (alter (link_set_peer None) c (links s)) s | None => s end.

Lemma during_forget p hr i k st m o s : during p (Some p) hr i k st s -> serves sha256 owner s m i o -> during p (Some p) hr i k st (forget o s).
Proof.
  intros D Ho. destruct o as [c|]; [|exact D]. destruct (Ho c eq_refl) as (l & Hl & _ & Hb).
  apply (during_link p (Some p) hr i k st s c l None); auto.
Qed.
Lemma serves_forget m i o o' s : serves sha256 owner s m i o -> serves sha256 owner (forget o' s) m i o.
Proof. destruct o'; [apply serves_pointer|done]. Qed.

(** Deleting a peer: its connections lose their pointers. *)
Lemma del_peer_spec i s : good s -> wp (del_peer i) (fun _ s' => good s') anyway s.
Proof.
  intros I. apply found_spec; [done|]. intros p Hp. apply fatal_handed; [fatal_tac|].
  apply wp_get_peer. intros x Hx. pose proof (proj2 (in_known _ _ _ _ _ _ I _ _ Hp) x Hx) as Hi.
  destruct (in_peers _ _ _ _ _ _ I p x Hx) as [_ _ _ (l & Hl & Hb) Hin Hout _ _]. rewrite Hi in *.
  assert (during p (Some p) None i (pconn x) (pstate x) s) as D by (split; [by apply suspend_state|by exists x]). clear I Hp Hx.
  apply (during_link p (Some p) None i (pconn x) (pstate x) s (pconn x) l None) in D; [|by left|done|done].
  apply (serves_pointer _ _ _ (pconn x) None) in Hin, Hout. apply wp_bind, wp_modify.
  revert D Hin Hout. generalize (set_links (alter (link_set_peer None) (pconn x) (links s)) s). clear Hl Hb Hi s l. intros s D Hin Hout.
  assert (forall m, silent m -> forall f : unit -> PM unit, (forall s', during p (Some p) None i (pconn x) (pstate x) s' -> serves sha256 owner s' PASSIVE i (inbound_conn x) ->
    serves sha256 owner s' ACTIVE i (outbound_conn x) -> wp (f tt) (fun _ s'' => good s'') anyway s') -> forall s, during p (Some p) None i (pconn x) (pstate x) s ->
    serves sha256 owner s PASSIVE i (inbound_conn x) -> serves sha256 owner s ACTIVE i (outbound_conn x) -> wp (m ≫= f) (fun _ s'' => good s'') anyway s) as Hstep.
  { intros m Hm f Hf s1 D1 I1 O1. apply wp_skip; [done|]. intros [] s2 Q. apply Hf; [by apply (quiet_during _ _ _ _ _ _ s1)|by apply (quiet_serves _ _ _ s1)..]. }
  revert s D Hin Hout. apply Hstep; [apply silent_disp_terminate|]. apply Hstep; [apply silent_terminate_opt|]. apply Hstep; [apply silent_terminate_opt|].
  intros s D Hin Hout. apply wp_bind, wp_modify.
  assert (during p (Some p) None i (pconn x) (pstate x) (forget (outbound_conn x) (forget (inbound_conn x) s))) as D'.
  { apply (during_forget _ _ _ _ _ ACTIVE); [by apply (during_forget _ _ _ _ _ PASSIVE)|by apply serves_forget]. }
  apply inv_unregister in D'. clear Hstep D Hin Hout.
  destruct (inbound_conn x), (outbound_conn x); repeat (apply wp_bind; (apply wp_ret || apply wp_modify)); apply wp_modify; exact D'.
Qed.

(** ** Connections come and go *)

Notation setup := (setup sha1 sha256 junk_msg msg_magic true CERT_BASED listen_addr).
Notation dispatch := (dispatch sha1 sha256 junk_msg msg_magic true CERT_BASED listen_addr).
Notation worker_event := (worker_event sha1 recv_chunk_size max_recv_buff_size max_msg_size).

Lemma silent_spec {A} (m : PM A) s : silent m -> good s -> wp m (fun _ s' => good s') anyway s.
Proof. intros Hm I. apply wp_last; [done|]. intros _ s' Q. by apply (inv_quiet _ _ _ _ _ s). Qed.

Lemma peer_send_spec m i s : good s -> wp (peer_send m i) (fun _ s' => good s') anyway s.
Proof.
  intros I. apply found_spec; [done|]. intros p Hp. apply fatal_handed; [fatal_tac|]. apply silent_spec; [|done]. silent_tac.
  apply silent_on_world. unfold send_msg, write. steady_tac.
Qed.

Lemma silent_multicast m ids : silent (multicast m ids).
Proof.
  induction ids as [|i ids IH]; cbn [multicast]; [apply silent_ret|]. unfold find_peer. silent_tac.
  apply silent_on_world. unfold send_msg, write. steady_tac.
Qed.

Lemma silent_recoverable m : silent m -> silent (recoverable m).
Proof. intros Hm s. unfold recoverable. specialize (Hm s). destruct (m s) as [[[]|[]] s']; try done. etransitivity; [exact Hm|]. by split. Qed.

Lemma retry_spec p x sk kn rm s : inv None (Some p) None s -> peers s !! p = Some x ->
  wp (retry junk_msg p sk kn rm) (fun _ s' => good s') anyway s.
Proof.
  intros I Hx. unfold retry, start_active_conn. apply wp_bind. apply wp_get_peer. intros x' Hx'. rewrite Hx in Hx'. injection Hx' as <-.
  apply wp_assert. intros Hnn. unfold add_conn. repeat (apply wp_bind || apply wp_get || apply wp_modify || apply wp_ret).
  set (l0 := mkLink ACTIVE _ _ _ _ _ _). pose proof (fresh_unused _ _ _ s _ l0 (Some p) I eq_refl eq_refl) as I'. set (s1 := set_links (<[_ := l0]> _) s) in *. set (c := size (links s)) in *.
  set (s2 := set_links _ s1) in *. assert (during p None (Some p) (pid x) (pconn x) (pstate x) s2) as D by (split; [exact I'|by exists x]).
  apply (during_upd p None (Some p) None (Some p) (pid x) (pconn x) (pconn x) (pstate x) (pstate x) s2 (peer_set_outbound (Some c))) in D; [|done|].
  2: { intros y F1 F2 F3. split_and!; try done. intros [K1 K2 K3 K4 K5 K6 K7 K8 K9]. split; try done. intros q [= <-].
    exists (link_set_peer (Some p) l0). split; [unfold s2, s1; cbn; by rewrite lookup_alter_eq, lookup_insert_eq|]. split; [done|].
    cbn [pid peer_set_outbound]. rewrite F1. cbn. destruct (is_null (paddr x)) eqn:En; [done|]. split; [done|].
    destruct (po_addr _ _ _ _ _ _ _ _ (in_peers _ _ _ _ _ _ I p x Hx)); [congruence|done]. }
  revert D. match goal with |- during _ _ _ _ _ _ ?t -> _ => generalize t end. clear I' s1 s2 l0 c. intros s' D.
  destruct (pending_peers s' !! paddr x); [done|]. cbn [assert]. apply wp_ret, wp_modify.
  apply (during_upd p None (Some p) None (Some p) (pid x) (pconn x) (pconn x) (pstate x) (pstate x) s' (peer_set_retry (Some true))) in D; [|done|same_fields].
  destruct (du_peer _ _ _ _ _ _ _ D) as (y & Hy & _). eapply close_retry; [apply D|exact Hy|].
  cbn in Hy. rewrite lookup_alter_eq in Hy. destruct (peers s' !! p); [|done]. by injection Hy as <-.
Qed.

(** A connection terminates: its teardown is to come. *)
Lemma inv_kill c l w s : good s -> links s !! c = Some l -> is_terminated l = false -> terminated (conn w) = true ->
  inv None None (Some c) (set_links (alter (link_set_world w) c (links s)) s).
Proof.
  intros [I1 I2 I3 I4] Hl Ht Hw.
  assert (forall q l', links s !! q = Some l' -> exists l'', alter (link_set_world w) c (links s) !! q = Some l'' /\ mode l'' = mode l' /\ peer l'' = peer l' /\
    (forall i, belongs l' i -> belongs l'' i) /\ (dummy l' -> dummy l'') /\ (is_terminated l' = true -> is_terminated l'' = true) /\ (q <> c -> l'' = l')) as Hlk.
  { intros q l' Hl'. destruct (decide (q = c)) as [->|Hne].
    - rewrite Hl in Hl'. injection Hl' as <-. exists (link_set_world w l). rewrite lookup_alter_eq, Hl. split_and!; try done.
      intros (? & ? & ? & E). congruence.
    - exists l'. rewrite lookup_alter_ne by done. split_and!; auto. }
  split; cbn [peers links known_peers deleting set_links].
  - intros p x Hx. destruct (I1 p x Hx) as [K1 K2 K3 K4 K5 K6 K7 K8 K9].
    assert (forall m o, serves sha256 owner s m (pid x) o -> serves sha256 owner (set_links (alter (link_set_world w) c (links s)) s) m (pid x) o) as Hserves.
    { intros m o Hv q Hq. destruct (Hv q Hq) as (l' & Hl' & Hm' & Hb'). destruct (Hlk q l' Hl') as (l'' & ? & ? & _ & Hbb & _).
      exists l''. cbn [links set_links]. split; [done|]. split; [congruence|by apply Hbb]. }
    split; try done; try (by apply Hserves); cbn [links set_links].
    + destruct K4 as (l' & Hl' & Hb'). destruct (Hlk _ l' Hl') as (l'' & ? & _ & _ & Hbb & Hdd & _). exists l''. split; [done|]. destruct Hb'; auto.
    + destruct K7 as [|(l' & Hl' & Hd & Hst)]; [by left|right]. destruct (Hlk _ l' Hl') as (l'' & Hl'' & _ & Hpp & Hbb & _ & Htt & Hne).
      exists l''. split; [done|]. split; [auto|]. intros Hn. destruct (Hst Hn) as (E1 & E2 & E3). rewrite Hpp. split; [done|]. split; [auto|]. cbn [deleting set_links].
      destruct (decide (pconn x = c)) as [->|Hn']; [by right; right|]. rewrite Hne by done. destruct E3 as [|[|]]; [by left|by right; left|done].
  - intros q l' Hl'. assert (size (alter (link_set_world w) c (links s)) = size (links s)) as -> by (by rewrite <- !size_dom, dom_alter_L).
    destruct (decide (q = c)) as [->|Hne]; [|rewrite lookup_alter_ne in Hl' by done; by apply I2].
    rewrite lookup_alter_eq, Hl in Hl'. injection Hl' as <-. by apply (I2 c l).
  - exact I3.
  - intros q Hq. destruct (I4 q Hq) as (l' & Hl' & Htt). destruct (Hlk _ l' Hl') as (l'' & ? & _ & _ & _ & _ & Ht' & _). exists l''. auto.
Qed.

(** The teardown waits in the dispatcher's queue, or leaves it. *)
Lemma inv_queue d d' s ds : inv None None d s -> (forall c, c ∈ ds -> exists l, links s !! c = Some l /\ is_terminated l = true) ->
  (forall c, c ∈ deleting s \/ d = Some c -> c ∈ ds \/ d' = Some c) -> inv None None d' (set_deleting ds s).
Proof.
  intros [I1 I2 I3 I4] Hds Hmv. split; try done. intros p x Hx. destruct (I1 p x Hx) as [K1 K2 K3 K4 K5 K6 K7 K8 K9]. split; try done.
  right. destruct K7 as [|(l & Hl & Hd & Hst)]; [done|]. exists l. split_and!; try done. intros Hn. destruct (Hst Hn) as (E1 & E2 & E3).
  split_and!; try done. cbn. destruct E3 as [|E3]; [by left|right]. apply Hmv. by destruct E3; auto.
Qed.

Lemma worker_event_spec c e s : good s -> wp (worker_event c e) (fun _ s' => good s') anyway s.
Proof.
  intros I. unfold Peers.worker_event. apply wp_get_link. intros l Hl.
  assert (wp (if worker l then _ ← on_world c (callback sha1 recv_chunk_size max_recv_buff_size max_msg_size e); l' ← get_link c;
    (if negb (is_terminated l) && is_terminated l' then modify (fun s => set_deleting (deleting s ++ [c]) s) else mret tt) else mret tt)
    (fun _ s' => good s') anyway s) as Hgo; [|by destruct e; [exact Hgo..|by apply wp_ret]].
  destruct (worker l); [|by apply wp_ret]. pose proof (callback_terminated sha1 recv_chunk_size max_recv_buff_size max_msg_size e (world l)) as Hmono.
  apply wp_bind. unfold on_world. apply wp_get_link. intros l' Hl'. rewrite Hl in Hl'. injection Hl' as <-.
  destruct (callback _ _ _ _ e (world l)) as [r w] eqn:Ew. cbn [snd] in Hmono. apply wp_bind, wp_modify. set (s1 := set_links _ s).
  destruct r as [[]|]; [|done]. apply wp_ret. apply wp_get_link. intros l' Hl'.
  assert (l' = link_set_world w l) as -> by (unfold s1 in Hl'; cbn in Hl'; rewrite lookup_alter_eq, Hl in Hl'; by injection Hl' as <-).
  destruct (is_terminated l) eqn:Ht; cbn [negb andb].
  - apply wp_ret. apply (inv_upd_link _ _ _ _ _ s c l); try done; [intros Hc; by apply (in_links _ _ _ _ _ _ I c l)|..].
    + intros (D1 & D2 & D3 & D4). split_and!; try done. by apply Hmono.
    + rewrite Ht. by apply Hmono.
  - destruct (is_terminated (link_set_world w l)) eqn:Ht'.
    + apply wp_modify. apply (inv_queue (Some c) None); [by apply (inv_kill c l w s)|..].
      * intros q [Hq|Hq]%elem_of_app; [|apply list_elem_of_singleton in Hq as ->; by exists (link_set_world w l)].
        destruct (in_deleting _ _ _ _ _ _ I q Hq) as (lq & Hlq & Htq). assert (q <> c) as Hne by (intros ->; congruence).
        exists lq. unfold s1. cbn. by rewrite lookup_alter_ne.
      * intros q [Hq|[= ->]]; left; apply elem_of_app; [by left|right; by left].
    + apply wp_ret. apply (inv_upd_link _ _ _ _ _ s c l); try done; [intros Hc; by apply (in_links _ _ _ _ _ _ I c l)|..|by rewrite Ht].
      intros (D1 & D2 & D3 & D4). congruence.
Qed.

Lemma disp_close_spec c s : good s -> wp (disp_close c) (fun _ s' => good s') anyway s.
Proof.
  intros I. unfold disp_close. apply wp_get_link. intros l Hl. destruct (worker l); [by apply wp_ret|].
  apply wp_bind. unfold on_world. apply wp_get_link. intros l' Hl'. rewrite Hl in Hl'. injection Hl' as <-.
  destruct (teardown (world l)) as [r w] eqn:Ew. apply wp_bind, wp_modify. destruct r as [[]|]; [|done]. apply wp_ret. apply wp_get_link. intros l' Hl'.
  cbn in Hl'. rewrite lookup_alter_eq, Hl in Hl'. injection Hl' as <-.
  assert (terminated (conn (world l)) = true -> terminated (conn w) = true) as Hmono.
  { intros Ht. pose proof (callback_terminated sha1 recv_chunk_size max_recv_buff_size max_msg_size EvTeardown (world l) Ht) as Hc. unfold callback, mbind, M_bind, get in Hc. by rewrite Ew in Hc. }
  destruct (is_terminated l) eqn:Ht; cbn [negb andb].
  - apply wp_ret. apply (inv_upd_link _ _ _ _ _ s c l); try done; [intros Hc; by apply (in_links _ _ _ _ _ _ I c l)|..].
    + intros (D1 & D2 & D3 & D4). split_and!; try done. by apply Hmono.
    + rewrite Ht. by apply Hmono.
  - destruct (is_terminated (link_set_world w l)) eqn:Ht'.
    + apply (teardown_spec c (link_set_world w l)); [by apply (inv_kill c l w s)|cbn; by rewrite lookup_alter_eq, Hl|done].
    + apply wp_ret. apply (inv_upd_link _ _ _ _ _ s c l); try done; [intros Hc; by apply (in_links _ _ _ _ _ _ I c l)|..|by rewrite Ht].
      intros (D1 & D2 & D3 & D4). congruence.
Qed.

Lemma setup_spec c l crt s : good s -> links s !! c = Some l -> worker l = true -> is_setup l = false -> wp (setup c crt) (fun _ s' => good s') anyway s.
Proof.
  intros I Hl Hw Hs. set (s1 := set_links (alter (link_set_up crt) c (links s)) s).
  assert (cert l = None) as Hc by (destruct (cert l) eqn:E; [|done]; rewrite (proj2 (in_links _ _ _ _ _ _ I c l Hl)) in Hs; congruence).
  assert (good s1) as I1.
  { apply (inv_upd_link _ _ _ _ _ s c l); try done. intros (_ & D2 & _). congruence. }
  unfold wp, Peers.setup. unfold mbind at 1, M_bind at 1, upd_link, modify. fold s1.
  pose proof (silent_setup_body sha1 sha256 junk_msg msg_magic listen_addr true CERT_BASED c s1) as Hq.
  destruct (on_dispatcher_setup _ _ _ _ _ _ _ c s1) as [[[]|e] s2]; [by apply (inv_quiet _ _ _ _ _ s1)|]. apply (inv_quiet _ _ _ _ _ s1 s2 I1) in Hq.
  destruct e; try done. apply (silent_spec (_ ← notify (Recoverable code); disp_terminate c) s2); [|done]. silent_tac. apply silent_disp_terminate.
Qed.

Lemma dispatch_spec c s : good s -> wp (dispatch c) (fun _ s' => good s') anyway s.
Proof.
  intros I. unfold Peers.dispatch. apply wp_skip; [apply silent_on_world; intros w; unfold dequeue; by destruct (incoming w)|]. intros m s1 Q.
  apply (inv_quiet _ _ _ _ _ _ _ I) in Q. clear I. destruct m as [m|]; [|by apply wp_ret].
  destruct (_ =? _); [destruct (MsgPing_parse _).1; [by apply ping_handler_spec|done]|].
  destruct (_ =? _); [destruct (MsgPing_parse _).1; [by apply pong_handler_spec|done]|]. by apply silent_spec; [apply silent_notify|].
Qed.

(** ** All events *)

Notation pstep := (pstep sha1 sha256 junk_msg recv_chunk_size max_recv_buff_size max_msg_size msg_magic true CERT_BASED listen_addr).
Notation run := (run sha1 sha256 junk_msg recv_chunk_size max_recv_buff_size max_msg_size msg_magic true CERT_BASED listen_addr).

(** Each address is given to one peer. *)
Definition own_address (e : pevent) : Prop := match e with PSetAddr i a => is_null a = true \/ owner a = i | _ => True end.

Lemma wp_with_link c (f : Link -> PM unit) Q s : (links s !! c = None -> Q tt s) -> (forall l, links s !! c = Some l -> wp (f l) Q anyway s) -> wp (with_link c f) Q anyway s.
Proof. intros H1 H2. unfold with_link. apply wp_bind, wp_get. destruct (links s !! c); [by apply H2|by apply wp_ret, H1]. Qed.

Lemma deleted_spec c s : good s -> c ∈ deleting s ->
  wp (del_conn c) (fun _ s' => good s') anyway (set_deleting (list_difference (deleting s) [c]) s).
Proof.
  intros I Hc. destruct (in_deleting _ _ _ _ _ _ I c Hc) as (l & Hl & Ht). apply (teardown_spec c l); [|done|done].
  apply (inv_queue None (Some c)); [done|..].
  - intros q Hq. apply list_elem_of_difference in Hq as [Hq _]. by apply (in_deleting _ _ _ _ _ _ I).
  - intros q [Hq|]; [|done]. destruct (decide (q = c)) as [->|Hne]; [by right|left]. apply list_elem_of_difference. split; [done|]. by intros ->%list_elem_of_singleton.
Qed.

Lemma pstep_spec e s : own_address e -> good s -> wp (pstep e) (fun _ s' => good s') anyway s.
Proof.
  intros He I. destruct e; cbn [Peers.pstep].
  - by apply add_peer_spec.
  - by apply del_peer_spec.
  - by apply set_peer_addr_spec.
  - by apply conn_peer_spec.
  - by apply peer_send_spec.
  - apply silent_spec; [|done]. apply silent_recoverable, silent_multicast.
  - apply wp_bind, wp_get. destruct (peers s !! p) as [x|] eqn:Hx; [|by apply wp_ret]. cbn [mbind option_bind]. destruct (retry_timer x) as [[|]|] eqn:Hr; [|by apply wp_ret..].
    apply wp_bind, wp_modify. apply (retry_spec p (peer_set_retry (Some false) x)); [|cbn; by rewrite lookup_alter_eq, Hx].
    apply (inv_upd_peer _ _ None None None (Some p) None s p x); try done. intros []. split; try done. by left.
  - apply silent_spec; [|done]. apply silent_bind; [apply silent_get|intros s']. destruct (ping_running <$> peers s' !! p) as [[|]|]; [|apply silent_ret..].
    apply silent_bind; [by apply silent_upd_peer|intros []; apply silent_ping_timer].
  - unfold add_conn. repeat (apply wp_bind || apply wp_get || apply wp_modify || apply wp_ret). by apply inv_add_conn.
  - apply wp_with_link; [done|]. intros l Hl. destruct (mode l) eqn:Hm; [|by apply wp_ret]. destruct (_ || _) eqn:E; [by apply wp_ret|]. apply wp_modify.
    apply (inv_upd_link _ _ _ _ _ s c l); try done; [intros Hc; by apply (in_links _ _ _ _ _ _ I c l)|]. intros (D1 & _). congruence.
  - apply wp_with_link; [done|]. intros l Hl. apply silent_spec; [|done]. silent_tac. apply silent_disp_terminate.
  - apply wp_with_link; [done|]. intros l Hl. by apply disp_close_spec.
  - apply wp_with_link; [done|]. intros l Hl. destruct (worker l) eqn:Hw; [|by apply wp_ret]. destruct (is_setup l) eqn:Hs; cbn [andb negb]; [by apply wp_ret|].
    by apply (setup_spec c l).
  - apply wp_with_link; [done|]. intros l Hl. by apply worker_event_spec.
  - apply wp_with_link; [done|]. intros l Hl. apply silent_spec; [|done]. silent_tac. apply silent_disp_terminate.
  - apply wp_with_link; [done|]. intros l Hl. by apply dispatch_spec.
  - apply wp_bind, wp_get. case_bool_decide as Hc; [|by apply wp_ret]. apply wp_bind, wp_modify. by apply deleted_spec.
Qed.

Lemma run_good es s : Forall own_address es -> good s -> wp (run es) (fun _ s' => good s') anyway s.
Proof.
  intros Hes. revert s. induction Hes as [|e es He _ IH]; intros s I; [done|]. cbn [Peers.run]. apply wp_bind.
  apply (wp_mono _ (fun _ s' => good s') _ anyway); [by apply pstep_spec|intros _ s'; apply IH|done].
Qed.

Lemma start_good rs : good (Net_new rs).
Proof. split; cbn; [by intros ? ? ?..|]. by intros c ?%elem_of_nil. Qed.

Lemma bind_inl {A B} (m : PM A) (f : A -> PM B) a s s' : m s = (inl a, s') -> (m ≫= f) s = f a s'.
Proof. intros E. unfold mbind, M_bind. by rewrite E. Qed.
Lemma get_link_inl c l s : links s !! c = Some l -> get_link c s = (inl l, s).
Proof. intros Hl. unfold get_link, mbind, M_bind, get. by rewrite Hl. Qed.
Lemma get_peer_inl p x s : peers s !! p = Some x -> get_peer p s = (inl x, s).
Proof. intros Hl. unfold get_peer, mbind, M_bind, get. by rewrite Hl. Qed.

(** The teardown of the connection of a connected peer. *)
Lemma teardown_tells p x l s : good s -> peers s !! p = Some x -> pstate x <> DISCONNECTED -> links s !! pconn x = Some l -> peer l = Some p ->
  pconn x ∈ deleting s -> exists s' x', pstep (PDelConn (pconn x)) s = (inl tt, s') /\ peers s' !! p = Some x' /\ pstate x' = DISCONNECTED /\
    PeerCb (pconn x) false ∈ calls s'.
Proof.
  intros I Hx Hst Hl Hp Hd. pose proof (po_timer _ _ _ _ _ _ _ _ (in_peers _ _ _ _ _ _ I p x Hx)) as Htm.
  cbn [Peers.pstep]. erewrite bind_inl; [|reflexivity]. cbv beta. rewrite bool_decide_eq_true_2 by done. erewrite bind_inl; [|reflexivity]. cbv beta.
  unfold del_conn, on_dispatcher_teardown. erewrite bind_inl; [|by apply get_link_inl]. erewrite bind_inl; [|reflexivity]. cbv beta. rewrite Hp.
  erewrite bind_inl; [|by apply get_peer_inl]. rewrite bool_decide_eq_false_2 by done. rewrite Nat.eqb_refl. cbn [assert].
  erewrite bind_inl; [|erewrite bind_inl; [|reflexivity]; erewrite bind_inl; [|reflexivity]; reflexivity]. erewrite bind_inl; [|reflexivity].
  erewrite bind_inl; [|apply get_peer_inl; cbn; rewrite !lookup_alter_eq, Hx; reflexivity]. cbn [fst snd].
  set (y := if 0 <? _ then _ else _). assert (pstate y = DISCONNECTED /\ (cur_ntry y <> 0 -> retry_timer y <> None)) as [Hy1 Hy2].
  { unfold y. destruct (0 <? _) eqn:E; cbn in E |- *; (split; [done|]); intros Hn Hnone; destruct (Htm Hnone); lia. }
  destruct (cur_ntry y =? 0) eqn:E; cbn [negb].
  - eexists _, _. split; [reflexivity|]. cbn. rewrite !lookup_alter_eq, Hx. split; [reflexivity|]. split; [exact Hy1|]. apply elem_of_app. right. by left.
  - destruct (retry_timer y) eqn:Er; [|exfalso; apply Hy2; [lia|done]]. cbn.
    eexists _, _. split; [reflexivity|]. cbn. rewrite !lookup_alter_eq, Hx. split; [reflexivity|]. split; [exact Hy1|]. apply elem_of_app. right. by left.
Qed.

(** C17. With TLS, identities that are certificates and an address for each peer, in
    every state that the network reaches: a registered peer is disconnected, its
    last connection has ended and, as long as attempts are left, its timer runs;
    or it has a connection that points to it and is alive or about to be torn
    down, which makes the peer disconnected and tells the user. *)
Theorem no_peer_stranded rs es s p x : Forall own_address es -> run es (Net_new rs) = (inl tt, s) -> peers s !! p = Some x ->
  known_peers s !! pid x = Some p /\ exists l, links s !! pconn x = Some l /\
  match pstate x with
  | DISCONNECTED => is_terminated l = true /\ (cur_ntry x <> 0 -> retry_timer x = Some true)
  | _ => peer l = Some p /\ (is_terminated l = true -> exists s' x', pstep (PDelConn (pconn x)) s = (inl tt, s') /\ peers s' !! p = Some x' /\
      pstate x' = DISCONNECTED /\ PeerCb (pconn x) false ∈ calls s')
  end.
Proof.
  intros Hes Hrun Hx. pose proof (run_good es _ Hes (start_good rs)) as I. unfold wp in I. rewrite Hrun in I.
  destruct (in_peers _ _ _ _ _ _ I p x Hx) as [K1 K2 K3 K4 K5 K6 [|(l & Hl & Hd & Hst)] K8 K9]; [done|]. split; [done|]. exists l. split; [done|].
  destruct K8 as [|Hr]; [done|]. unfold retry_ok in Hr. 
  assert (pstate x <> DISCONNECTED -> peer l = Some p /\ (is_terminated l = true -> exists s' x', pstep (PDelConn (pconn x)) s = (inl tt, s') /\ peers s' !! p = Some x' /\
      pstate x' = DISCONNECTED /\ PeerCb (pconn x) false ∈ calls s')) as Hcon.
  { intros Hn. destruct (Hst Hn) as (E1 & _ & E3). split; [done|]. intros Ht. apply (teardown_tells p x l); try done. by destruct E3 as [|[|]]; [congruence|..]. }
  destruct (pstate x); auto.
Qed.
End Safe.
