(* ===== verification/PeersLaw.v ===== *)
(** * Handshakes

    Both ends of a connection decide alike whether to keep it, and what was
    written to a peer and not sent goes out on the connection that is kept, the
    rest of a message that was cut included.  A second attempt to connect leaves
    a first that points to the peer, and assertions fail. *)

From Stdlib Require Import ZArith Lia.
From S2P Require Import Prelude Bytes Stream SegBuffer Framing Conn ConnLaw Peers PeersInv PeersSafe.

(** A computation that succeeds. *)
Definition runs {A} (m : PM A) (Q : A -> Net -> Prop) (s : Net) : Prop := wp m Q (fun _ _ => False) s.

Lemma runs_inl {A} (m : PM A) Q s : runs m Q s -> exists a s', m s = (inl a, s') /\ Q a s'.
Proof. unfold runs, wp. destruct (m s) as [[a|e] s']; [|done]. intros HQ. by exists a, s'. Qed.
Lemma runs_bind {A B} (m : PM A) (f : A -> PM B) Q s : runs m (fun a s' => runs (f a) Q s') s -> runs (m ≫= f) Q s.
Proof. apply wp_bind. Qed.
Lemma runs_mono {A} (m : PM A) (Q Q' : A -> Net -> Prop) s : runs m Q s -> (forall a s', Q a s' -> Q' a s') -> runs m Q' s.
Proof. intros Hm HQ. by apply (wp_mono m Q Q' (fun _ _ => False)). Qed.
Lemma runs_get_peer {B} p x (f : Peer -> PM B) Q s : peers s !! p = Some x -> runs (f x) Q s -> runs (get_peer p ≫= f) Q s.
Proof. intros Hx Hf. apply runs_bind. unfold runs, wp. by rewrite (get_peer_inl p x). Qed.
Lemma runs_get_link {B} c l (f : Link -> PM B) Q s : links s !! c = Some l -> runs (f l) Q s -> runs (get_link c ≫= f) Q s.
Proof. intros Hx Hf. apply runs_bind. unfold runs, wp. by rewrite (get_link_inl c l). Qed.
Lemma runs_modify {B} g (f : unit -> PM B) Q s : runs (f tt) Q (g s) -> runs (modify g ≫= f) Q s.
Proof. intros Hf. apply runs_bind. exact Hf. Qed.

(** The segments waiting to be sent on a connection. *)
Definition waiting (c : nat) (s : Net) : option (list (list Z)) := (fun l => send_buffer (conn (world l))) <$> links s !! c.

Section Law.
Context `{Host} (sha1 sha256 : list Z -> list Z) (junk_msg : Msg) (msg_magic : Z).
Context (tls : bool) (id_mode : IdentityMode) (listen_addr : NetAddr).

Notation link_send := (link_send sha1 junk_msg msg_magic).
Notation finish_handshake := (finish_handshake sha1 junk_msg msg_magic).
Notation send_ping := (send_ping sha1 junk_msg msg_magic).

(** The bytes of a message of the handshake. *)
Definition frame (op : Z) (bytes : list Z) : list Z := msg_serialize (default junk_msg (Msg_new sha1 junk_msg op bytes msg_magic)).

(** What the rest of a handshake relies on. *)
Record stable (s s' : Net) : Prop := {
  sb_peers : peers s' = peers s;
  sb_known : known_peers s' = known_peers s;
  sb_links c : link_view <$> links s' !! c = link_view <$> links s !! c;
}.

Lemma waiting_link c s b : waiting c s = Some b -> exists l, links s !! c = Some l /\ send_buffer (conn (world l)) = b.
Proof. intros Hb. apply fmap_Some in Hb as (l & Hl & ->). by exists l. Qed.

Lemma on_world_inl {A} c l (m : NM A) a w s : links s !! c = Some l -> m (world l) = (inl a, w) ->
  on_world c m s = (inl a, set_links (alter (link_set_world w) c (links s)) s).
Proof. intros Hl Hm. unfold on_world. rewrite (bind_inl _ _ l s s) by (by apply get_link_inl). by rewrite Hm. Qed.

Lemma stable_world c l w s : links s !! c = Some l -> terminated (conn w) = is_terminated l -> stable s (set_links (alter (link_set_world w) c (links s)) s).
Proof.
  intros Hl Ht. split; try done. intros q. cbn. destruct (decide (q = c)) as [->|Hne]; [|by rewrite lookup_alter_ne].
  rewrite lookup_alter_eq, Hl. cbn. unfold link_view, is_terminated at 1. cbn. by rewrite Ht.
Qed.
Lemma waiting_world c l w s q : links s !! c = Some l ->
  waiting q (set_links (alter (link_set_world w) c (links s)) s) = if decide (q = c) then Some (send_buffer (conn w)) else waiting q s.
Proof.
  intros Hl. unfold waiting. cbn. case_decide as Hq; [subst; by rewrite lookup_alter_eq, Hl|by rewrite lookup_alter_ne].
Qed.

Lemma write_runs c b d s : waiting c s = Some b -> runs (on_world c (write d)) (fun _ s' => stable s s' /\ waiting c s' = Some (b ++ [d]) /\
  forall q, q <> c -> waiting q s' = waiting q s) s.
Proof.
  intros Hb. destruct (waiting_link c s b Hb) as (l & Hl & Hbl). unfold runs, wp. erewrite (on_world_inl c l _ tt); [|done|reflexivity].
  split; [by apply (stable_world c l)|]. split; [rewrite (waiting_world c l), decide_True by done; cbn; by rewrite Hbl|].
  intros q Hq. by rewrite (waiting_world c l), decide_False by done.
Qed.

Lemma send_runs op bytes c b s : waiting c s = Some b -> runs (link_send op bytes c) (fun _ s' => stable s s' /\ waiting c s' = Some (b ++ [frame op bytes]) /\
  forall q, q <> c -> waiting q s' = waiting q s) s.
Proof.
  intros Hb. unfold Peers.link_send, frame. unfold Msg_new. cbn. apply runs_bind. apply wp_ret. by apply write_runs.
Qed.

Lemma terminate_runs c b s : waiting c s = Some b -> runs (disp_terminate c) (fun _ s' => stable s s' /\ (forall q, waiting q s' = waiting q s) /\
  exists l, links s' !! c = Some l /\ closing (world l) = true) s.
Proof.
  intros Hb. destruct (waiting_link c s b Hb) as (l & Hl & Hbl). unfold runs, wp, disp_terminate. erewrite (on_world_inl c l _ tt); [|done|reflexivity].
  split; [by apply (stable_world c l)|]. split.
  - intros q. rewrite (waiting_world c l) by done. case_decide as E; [rewrite E, Hb; cbn; by rewrite Hbl|done].
  - eexists. cbn. rewrite lookup_alter_eq, Hl. by split.
Qed.

(** All segments move, in order. *)
Lemma move_runs f old new bo bn s : old <> new -> waiting old s = Some bo -> waiting new s = Some bn -> Forall (fun seg => seg <> []) bo -> (length bo < f)%nat ->
  runs (move_segments f old new) (fun _ s' => stable s s' /\ waiting old s' = Some [] /\ waiting new s' = Some (bn ++ bo)) s.
Proof.
  intros Hne. revert bo bn s. induction f as [|f IH]; intros bo bn s Ho Hn Hf Hlen; [lia|]. cbn [move_segments].
  destruct (waiting_link old s bo Ho) as (l & Hl & Hbl). apply runs_bind. unfold runs at 1, wp. destruct bo as [|seg bo].
  - erewrite (on_world_inl old l _ []); [|done|by unfold pop_segment, gets, mbind, M_bind; rewrite Hbl].
    apply wp_ret. split; [by apply (stable_world old l)|]. rewrite !(waiting_world old l) by done. rewrite decide_True, decide_False by done. by rewrite Hbl, app_nil_r.
  - apply Forall_cons in Hf as [Hseg Hf]. erewrite (on_world_inl old l _ seg); [|done|by unfold pop_segment, gets, mbind, M_bind; rewrite Hbl].
    destruct seg as [|z seg]; [done|]. cbn [length Nat.eqb]. set (s1 := set_links _ s).
    assert (stable s s1) as S1 by (by apply (stable_world old l)).
    assert (waiting new s1 = Some bn) as Hn1 by (unfold s1; by rewrite (waiting_world old l), decide_False by done).
    assert (waiting old s1 = Some bo) as Ho1 by (unfold s1; by rewrite (waiting_world old l), decide_True by done).
    apply runs_bind, (runs_mono _ _ _ _ (write_runs new bn _ s1 Hn1)). intros [] s2 (S2 & Hn2 & Hq). cbn in Hlen.
    apply (runs_mono _ _ _ _ (IH bo (bn ++ [z :: seg]) s2 ltac:(rewrite Hq; done) Hn2 Hf ltac:(lia))). intros [] s3 (S3 & Ho3 & Hn3).
    rewrite <- (assoc_L (++)) in Hn3. split; [|done]. destruct S1, S2, S3. split; [congruence|congruence|]. intros c. congruence.
Qed.

(** In the middle of finish_handshake: the peer, and what waits on its old and
    on its new connection. *)
Record finishing (p old new : nat) (st : PeerState) (bo bn : list (list Z)) (s : Net) : Prop := {
  fi_peer : exists x, peers s !! p = Some x /\ chosen_conn x = Some new /\ pconn x = old /\ pstate x = st;
  fi_old : waiting old s = Some bo;
  fi_new : waiting new s = Some bn;
  fi_term : exists l, links s !! old = Some l /\ is_terminated l = true;
}.

Lemma finishing_stable p old new st bo bn bo' bn' s s' : finishing p old new st bo bn s -> stable s s' -> waiting old s' = Some bo' -> waiting new s' = Some bn' ->
  finishing p old new st bo' bn' s'.
Proof.
  intros [F1 F2 F3 (l & Hl & Ht)] [S1 S2 S3] Ho Hn. split; [by rewrite S1|done|done|].
  specialize (S3 old). rewrite Hl in S3. apply fmap_Some in S3 as (l' & -> & [= _ _ _ _ _ _ E]). exists l'. split; [done|congruence].
Qed.

Lemma finishing_upd g p old new st st' bo bn s : finishing p old new st bo bn s ->
  (forall x, pstate x = st -> chosen_conn (g x) = chosen_conn x /\ pconn (g x) = pconn x /\ pstate (g x) = st') ->
  finishing p old new st' bo bn (set_peers (alter g p (peers s)) s).
Proof.
  intros [(x & Hx & F1 & F2 & F3) Fo Fn Ft] Hg. split; try done. exists (g x). destruct (Hg x F3) as (G1 & G2 & G3). cbn. rewrite lookup_alter_eq, Hx.
  split_and!; [done|congruence..].
Qed.

Lemma waiting_peer c o q s : waiting q (set_links (alter (link_set_peer o) c (links s)) s) = waiting q s.
Proof.
  unfold waiting. cbn. destruct (decide (q = c)) as [->|Hne]; [|by rewrite lookup_alter_ne].
  rewrite lookup_alter_eq. by destruct (links s !! c).
Qed.

Lemma finishing_pointer c o p old new st bo bn s : finishing p old new st bo bn s -> finishing p old new st bo bn (set_links (alter (link_set_peer o) c (links s)) s).
Proof.
  intros [F1 Fo Fn (l & Hl & Ht)]. split; [done|by rewrite waiting_peer..|]. cbn. destruct (decide (old = c)) as [->|Hne].
  - exists (link_set_peer o l). by rewrite lookup_alter_eq, Hl.
  - exists l. by rewrite lookup_alter_ne.
Qed.

Lemma runs_upd {B} g (f : unit -> PM B) Q p old new st st' bo bn s : finishing p old new st bo bn s ->
  (forall x, pstate x = st -> chosen_conn (g x) = chosen_conn x /\ pconn (g x) = pconn x /\ pstate (g x) = st') ->
  (forall s', finishing p old new st' bo bn s' -> runs (f tt) Q s') -> runs (upd_peer p g ≫= f) Q s.
Proof. intros F Hg Hf. apply runs_modify, Hf. by apply (finishing_upd g p old new st st'). Qed.

(** The end of a handshake: the peer is connected through the connection that
    was chosen, which has got a heartbeat and then all that waited on the last
    connection. *)
Definition connected_with (p c : nat) (b : list (list Z)) (s : Net) : Prop :=
  (exists x, peers s !! p = Some x /\ pstate x = CONNECTED /\ pconn x = c) /\ (exists l, links s !! c = Some l /\ peer l = Some p) /\ waiting c s = Some b.

Definition heartbeat : list Z := frame OPCODE_PING heartbeat_bytes.

Lemma finish_runs p old new bo bn s : finishing p old new DISCONNECTED bo bn s -> old <> new -> Forall (fun seg => seg <> []) bo ->
  runs (finish_handshake p) (fun _ s' => connected_with p new (bn ++ heartbeat :: bo) s') s.
Proof.
  intros F Hne Hbo. destruct (fi_peer _ _ _ _ _ _ _ F) as (x & Hx & Hc & Hp & Hst). unfold Peers.finish_handshake.
  apply (runs_get_peer p x); [done|]. rewrite bool_decide_eq_true_2 by done. apply runs_bind, wp_ret. rewrite Hc, Hp. clear Hx Hst.
  apply (runs_upd _ _ _ p old new DISCONNECTED DISCONNECTED bo bn s); [done|done|clear s F]. intros s F.
  apply (runs_upd _ _ _ p old new DISCONNECTED DISCONNECTED bo bn s); [done|done|clear s F]. intros s F.
  apply runs_bind, (runs_mono _ (fun _ s' => finishing p old new DISCONNECTED bo bn s')).
  { destruct (outbound_conn x) as [o|]; [|by apply wp_ret]. apply runs_modify. apply (finishing_pointer o None) in F. apply wp_modify.
    apply (finishing_upd (peer_set_outbound None) p old new DISCONNECTED DISCONNECTED); done. }
  clear s F. intros _ s F.
  apply (runs_upd _ _ _ p old new DISCONNECTED CONNECTED bo bn s); [done|done|clear s F]. intros s F.
  apply (runs_upd _ _ _ p old new CONNECTED CONNECTED bo bn s); [done|done|clear s F]. intros s F.
  apply runs_bind. unfold Peers.send_ping. destruct (fi_peer _ _ _ _ _ _ _ F) as (y & Hy & Hcy & _). apply (runs_get_peer p y); [done|]. rewrite Hcy. apply runs_bind, wp_ret.
  apply (runs_upd _ _ _ p old new CONNECTED CONNECTED bo bn s); [done|done|clear s F y Hy Hcy]. intros s F.
  apply (runs_mono _ _ _ _ (send_runs OPCODE_PING heartbeat_bytes new bn s (fi_new _ _ _ _ _ _ _ F))). intros _ s1 (S1 & W1 & W1').
  assert (finishing p old new CONNECTED bo (bn ++ [heartbeat]) s1) as F1.
  { apply (finishing_stable _ _ _ _ bo bn bo (bn ++ [heartbeat]) s s1 F S1); [|exact W1]. rewrite W1' by done. apply F. }
  clear s F S1 W1 W1'.
  apply (runs_upd _ _ _ p old new CONNECTED CONNECTED bo (bn ++ [heartbeat]) s1); [done|done|clear s1 F1]. intros s F.
  cbn [from_option]. apply runs_bind, wp_ret. destruct (fi_term _ _ _ _ _ _ _ F) as (l & Hl & Ht). apply (runs_get_link old l); [done|]. rewrite Ht. apply runs_bind, wp_ret.
  pose proof (fi_old _ _ _ _ _ _ _ F) as Ho. unfold waiting in Ho. rewrite Hl in Ho. cbn in Ho. injection Ho as ->.
  apply runs_bind, (runs_mono _ _ _ _ (move_runs (S (length bo)) old new bo (bn ++ [heartbeat]) s Hne (fi_old _ _ _ _ _ _ _ F) (fi_new _ _ _ _ _ _ _ F) Hbo ltac:(lia))).
  intros _ s1 (S1 & Wo & Wn). rewrite <- (assoc_L (++)) in Wn. apply (finishing_stable _ _ _ _ _ _ [] (bn ++ [heartbeat] ++ bo) s s1 F S1 Wo) in Wn. clear s F S1 l Hl Ht Wo. rename Wn into F.
  apply runs_modify. apply (finishing_pointer old None) in F. revert F. generalize (set_links (alter (link_set_peer None) old (links s1)) s1). clear s1. intros s F.
  destruct F as [(y & Hy & _ & _ & Hst) _ Fn _]. apply runs_modify, runs_modify, runs_modify. destruct (waiting_link new s _ Fn) as (l & Hl & Hw).
  eapply runs_get_link; [cbn; by rewrite lookup_alter_eq, Hl|]. apply wp_modify. split; [|split].
  - exists (peer_set_conn new y). cbn. by rewrite lookup_alter_eq, Hy.
  - eexists. cbn. rewrite lookup_alter_eq, Hl. by split.
  - unfold waiting. cbn. rewrite lookup_alter_eq, Hl. cbn. by rewrite Hw.
Qed.

(** One end of a handshake: the connection [c] of this mode to the known peer [p]
    at the address [a], which has drawn the nonce [n], is disconnected and has
    no other connection in a handshake of this kind. *)
Record endpoint (m : ConnMode) (c p old : nat) (a : NetAddr) (n : Z) (bo bn : list (list Z)) (s : Net) : Prop := {
  ep_link : exists l, links s !! c = Some l /\ mode l = m /\ is_terminated l = false /\ (m = ACTIVE -> link_addr l = a);
  ep_known : exists i, get_peer_id sha256 tls id_mode c a s = (inl i, s) /\ known_peers s !! i = Some p;
  ep_peer : exists x, peers s !! p = Some x /\ pstate x = DISCONNECTED /\ paddr x = a /\ nonce x = n /\ pconn x = old /\
    forall o, match m with PASSIVE => inbound_conn x | ACTIVE => outbound_conn x end = Some o -> o = c;
  ep_addr : is_null a = false;
  ep_nonce : n <> 0;
  ep_old : exists l, links s !! old = Some l /\ is_terminated l = true;
  ep_unsent : waiting old s = Some bo /\ Forall (fun seg => seg <> []) bo;
  ep_waiting : waiting c s = Some bn;
}.

(** The end of a handshake that fails. *)
Definition given_up (p c : nat) (s : Net) : Prop :=
  (exists x, peers s !! p = Some x /\ pstate x = DISCONNECTED) /\ exists l, links s !! c = Some l /\ closing (world l) = true.

Lemma old_ne_conn m c p old a n bo bn s : endpoint m c p old a n bo bn s -> old <> c.
Proof. intros E <-. destruct (ep_link _ _ _ _ _ _ _ _ _ E) as (l & Hl & _ & Ht & _), (ep_old _ _ _ _ _ _ _ _ _ E) as (l' & Hl' & Ht'). congruence. Qed.

Lemma nonce_runs {B} p x (f : Z -> PM B) Q s : peers s !! p = Some x -> nonce x <> 0 -> runs (f (nonce x)) Q s -> runs (get_nonce p ≫= f) Q s.
Proof.
  intros Hx Hn Hf. apply runs_bind. unfold get_nonce. apply (runs_get_peer p x); [done|]. rewrite (proj2 (Z.eqb_neq _ _)) by done. by apply wp_ret.
Qed.

Lemma fresh_runs o c (f : unit -> PM unit) Q s : (forall q, o = Some q -> q = c) -> runs (f tt) Q s -> runs (terminate_stale o c ≫= f) Q s.
Proof.
  intros Ho Hf. apply runs_bind. destruct o as [q|]; [|by apply wp_ret]. rewrite (Ho q eq_refl). cbn [terminate_stale]. rewrite Nat.eqb_refl. by apply wp_ret.
Qed.

(** The choice, with the peer's record of the handshake made. *)
Lemma choice_runs (keep : bool) g p c old bo bn x s : peers s !! p = Some x -> pstate x = DISCONNECTED -> pconn x = old -> old <> c ->
  waiting old s = Some bo -> Forall (fun seg => seg <> []) bo -> waiting c s = Some bn -> (exists l, links s !! old = Some l /\ is_terminated l = true) ->
  (keep = true -> chosen_conn (g x) = Some c /\ pconn (g x) = pconn x /\ pstate (g x) = pstate x) ->
  runs (if keep then _ ← upd_peer p g; finish_handshake p else disp_terminate c)
    (fun _ s' => if keep then connected_with p c (bn ++ heartbeat :: bo) s' else given_up p c s') s.
Proof.
  intros Hx Hst Hp Hne Ho Hbo Hn Ht Hg. destruct keep.
  - apply runs_modify. apply (finish_runs p old c bo bn); [|done|done]. split; try done. exists (g x). cbn. rewrite lookup_alter_eq, Hx.
    destruct (Hg eq_refl) as (-> & -> & ->). by split_and!.
  - apply (runs_mono _ _ _ _ (terminate_runs c bn s Hn)). intros _ s' (S & _ & Hl). split; [|done]. exists x. by rewrite (sb_peers _ _ S).
Qed.

Lemma ping_runs c p old a n k bo bn s : endpoint PASSIVE c p old a n bo bn s ->
  runs (ping_handler sha1 sha256 junk_msg msg_magic tls id_mode listen_addr (mkPing a k) c)
    (fun _ s' => if k <? n then connected_with p c (bn ++ frame OPCODE_PONG (MsgPing_bytes listen_addr n) :: heartbeat :: bo) s' else given_up p c s') s.
Proof.
  intros E. pose proof (old_ne_conn _ _ _ _ _ _ _ _ _ E) as Hne. destruct E as [(l & Hl & Hm & Ht & _) (i & Hi & Hk) (x & Hx & Hst & Ha & Hnx & Hp & Hin) Hnn Hn0 (lo & Hlo & Hto) [Ho Hbo] Hw].
  unfold ping_handler. apply (runs_get_link c l); [done|]. rewrite Ht. cbn [claimed_addr ping_nonce]. rewrite Hnn, Hm.
  apply runs_bind. unfold runs at 1, wp. rewrite Hi. apply runs_bind, wp_get. rewrite Hk. apply (runs_get_peer p x); [done|].
  rewrite Hst, Ha, Hnn, !bool_decide_eq_true_2 by done. cbn [negb orb andb].
  apply (nonce_runs p x); [done|by rewrite Hnx|]. rewrite Hnx. apply runs_bind.
  apply (runs_mono _ _ _ _ (send_runs OPCODE_PONG (MsgPing_bytes listen_addr n) c bn s Hw)). intros _ s1 (S1 & W1 & W1').
  apply fresh_runs; [exact Hin|]. apply runs_modify. set (s2 := set_peers _ s1).
  assert (peers s2 !! p = Some (peer_set_inbound (Some c) x)) as Hx2 by (cbn; rewrite (sb_peers _ _ S1), lookup_alter_eq, Hx; done).
  apply (nonce_runs p _ _ _ _ Hx2); [by cbn; rewrite Hnx|]. cbn [nonce peer_set_inbound]. rewrite Hnx, orb_false_r.
  apply (runs_mono _ _ _ _ (choice_runs (k <? n) (peer_set_chosen (Some c)) p c old bo (bn ++ [frame OPCODE_PONG (MsgPing_bytes listen_addr n)]) _ s2 Hx2 Hst Hp Hne ltac:(rewrite <- Ho; by apply W1') Hbo W1
    ltac:(pose proof (sb_links _ _ S1 old) as S; rewrite Hlo in S; apply fmap_Some in S as (l' & Hl' & [= _ _ _ _ _ _ Et]); exists l'; split; [done|congruence]) ltac:(done))).
  intros _ s3. by rewrite <- (assoc_L (++)).
Qed.

Lemma pong_runs c p old a n k bo bn s : endpoint ACTIVE c p old a n bo bn s ->
  runs (pong_handler sha1 sha256 junk_msg msg_magic tls id_mode (mkPing a k) c)
    (fun _ s' => if n <? k then connected_with p c (bn ++ heartbeat :: bo) s' else given_up p c s') s.
Proof.
  intros E. pose proof (old_ne_conn _ _ _ _ _ _ _ _ _ E) as Hne. destruct E as [(l & Hl & Hm & Ht & Hla) (i & Hi & Hk) (x & Hx & Hst & Ha & Hnx & Hp & Hin) Hnn Hn0 (lo & Hlo & Hto) [Ho Hbo] Hw].
  specialize (Hla eq_refl). unfold pong_handler. apply (runs_get_link c l); [done|]. rewrite Ht. cbn [claimed_addr ping_nonce]. rewrite Hnn, Hm, Hla.
  apply runs_bind. unfold runs at 1, wp. rewrite Hi. apply runs_bind, wp_get. rewrite Hk. apply (runs_get_peer p x); [done|].
  rewrite Hst, Ha, Hnn, !bool_decide_eq_true_2 by done. cbn [negb orb andb assert]. apply runs_bind, wp_ret.
  apply fresh_runs; [exact Hin|]. apply runs_modify. set (s2 := set_peers _ s).
  assert (peers s2 !! p = Some (peer_set_outbound (Some c) x)) as Hx2 by (cbn; rewrite lookup_alter_eq, Hx; done).
  apply (nonce_runs p _ _ _ _ Hx2); [by cbn; rewrite Hnx|]. cbn [nonce peer_set_outbound]. rewrite Hnx.
  assert (exists l', links s2 !! old = Some l' /\ is_terminated l' = true) as Ht2 by (by exists lo).
  destruct (n <? k) eqn:Ek.
  - apply runs_modify. set (s3 := set_peers _ s2).
    assert (peers s3 !! p = Some (peer_set_chosen (Some c) (peer_set_outbound (Some c) x))) as Hx3 by (cbn; rewrite !lookup_alter_eq, Hx; done).
    by apply (choice_runs true (peer_set_ping_timer true) p c old bo bn _ s3 Hx3).
  - by apply (choice_runs false id p c old bo bn _ s2 Hx2).
Qed.

(** ** Two attempts *)

(** The connection [q] points to the peer [p]. *)
Definition points (q p : nat) (s : Net) : Prop := peer <$> links s !! q = Some (Some p).

Definition still_points {A} (q p : nat) (m : PM A) : Prop := forall s, points q p s -> points q p (m s).2.

Section Pointer.
Context (q p : nat).
Notation keeps m := (still_points q p m).

Lemma keeps_bind_ {A B} (m : PM A) (f : A -> PM B) : keeps m -> (forall a, keeps (f a)) -> keeps (m ≫= f).
Proof. intros Hm Hf s Hs. specialize (Hm s Hs). unfold mbind, M_bind. destruct (m s) as [[a|e] s']; [by apply Hf|done]. Qed.
Lemma keeps_pure {A} (m : PM A) : (forall s, (m s).2 = s) -> keeps m.
Proof. intros Hm s Hs. by rewrite Hm. Qed.
Lemma keeps_modify f : (forall s, links (f s) = links s) -> keeps (modify f).
Proof. intros Hf s Hs. unfold points. cbn. by rewrite Hf. Qed.
Lemma keeps_upd_link c f : c <> q \/ (forall l, peer (f l) = peer l) -> keeps (upd_link c f).
Proof.
  intros Hf s Hs. unfold points in *. cbn. destruct (decide (c = q)) as [->|Hne]; [|by rewrite lookup_alter_ne].
  destruct Hf as [|Hf]; [done|]. rewrite lookup_alter_eq. destruct (links s !! q) as [l|]; [|done]. cbn in *. by rewrite Hf.
Qed.
Lemma keeps_get_link c : keeps (get_link c).
Proof. apply keeps_pure. intros s. unfold get_link, mbind, M_bind, get. by destruct (links s !! c). Qed.
Lemma keeps_get_peer r : keeps (get_peer r).
Proof. apply keeps_pure. intros s. unfold get_peer, mbind, M_bind, get. by destruct (peers s !! r). Qed.
Lemma keeps_from_option {A} e (o : option A) : keeps (from_option e o).
Proof. apply keeps_pure. by destruct o. Qed.
Lemma keeps_assert b : keeps (assert b).
Proof. apply keeps_pure. by destruct b. Qed.

Lemma keeps_on_world {A} c (m : NM A) : keeps (on_world c m).
Proof.
  apply keeps_bind_; [apply keeps_get_link|]. intros l. destruct (m (world l)) as [r w].
  apply keeps_bind_; [by apply keeps_upd_link; right|]. intros []. apply keeps_pure. by destruct r.
Qed.

Lemma keeps_move f old new : keeps (move_segments f old new).
Proof.
  induction f as [|f IH]; [by apply keeps_pure|]. cbn [move_segments]. apply keeps_bind_; [apply keeps_on_world|]. intros seg.
  destruct (Nat.eqb _ 0); [by apply keeps_pure|]. apply keeps_bind_; [apply keeps_on_world|done].
Qed.

Lemma keeps_send op bytes c : keeps (link_send op bytes c).
Proof. apply keeps_bind_; [apply keeps_from_option|]. intros m. apply keeps_on_world. Qed.
Lemma keeps_send_ping r : keeps (send_ping r).
Proof.
  apply keeps_bind_; [apply keeps_get_peer|]. intros x. apply keeps_bind_; [apply keeps_from_option|]. intros c.
  apply keeps_bind_; [by apply keeps_modify|]. intros _. apply keeps_send.
Qed.

(** A handshake of another connection leaves the pointer of [q] alone. *)
Lemma finish_points r x s : peers s !! r = Some x -> (forall o, outbound_conn x = Some o -> o <> q) -> chosen_conn x <> Some q -> pconn x <> q ->
  points q p s -> points q p (finish_handshake r s).2.
Proof.
  intros Hx Ho Hc Hp Hs. unfold Peers.finish_handshake. rewrite (bind_inl _ _ x s s) by (by apply get_peer_inl). revert s Hx Hs.
  intros s _. revert s. match goal with |- forall s, points q p s -> points q p (?m s).2 => change (keeps m) end.
  assert (forall a, keeps (upd_link (pconn x) a)) as Kold by (intros; apply keeps_upd_link; by left).
  assert (keeps (match outbound_conn x with Some o => _ ← upd_link o (link_set_peer None); upd_peer r (peer_set_outbound None) | None => mret tt end)) as Kout.
  { destruct (outbound_conn x) as [o|]; [|by apply keeps_pure].
    apply keeps_bind_; [apply keeps_upd_link; left; by apply Ho|intros _; by apply keeps_modify]. }
  do 8 (apply keeps_bind_; [first [apply keeps_assert|apply keeps_send_ping|exact Kout|by apply keeps_modify]|intros _]).
  destruct (chosen_conn x) as [new|]; [|by apply keeps_pure].
  match goal with |- still_points _ _ (_ ≫= ?f) => change (keeps (f new)) end. cbn beta.
  apply keeps_bind_; [apply keeps_get_link|intros lo]. apply keeps_bind_; [apply keeps_assert|intros _].
  apply keeps_bind_; [apply keeps_move|intros _]. apply keeps_bind_; [apply Kold|intros _].
  apply keeps_bind_; [by apply keeps_modify|intros _]. apply keeps_bind_; [apply keeps_upd_link; left; congruence|intros _].
  apply keeps_bind_; [by apply keeps_modify|intros _]. apply keeps_bind_; [apply keeps_get_link|intros ln]. by apply keeps_modify.
Qed.
End Pointer.

(** Two attempts to connect with the peer [p] at the address [a]: [c1], which is
    alive, and the later [c2]; both point to the peer. *)
Record attempts (c1 c2 p : nat) (a : NetAddr) (s : Net) : Prop := {
  at_first : exists l, links s !! c1 = Some l /\ mode l = ACTIVE /\ is_terminated l = false /\ link_addr l = a;
  at_known : exists i, get_peer_id sha256 tls id_mode c1 a s = (inl i, s) /\ known_peers s !! i = Some p;
  at_points : points c1 p s /\ points c2 p s;
  at_ne : c1 <> c2;
  at_peer : exists x, peers s !! p = Some x /\ pstate x = DISCONNECTED /\ paddr x = a /\ outbound_conn x = Some c2;
  at_addr : is_null a = false;
}.

Lemma points_link q p s : points q p s -> exists l, links s !! q = Some l /\ peer l = Some p.
Proof. intros Hp. apply fmap_Some in Hp as (l & Hl & Hp). by exists l. Qed.

Lemma get_peer_id_same c a i s s' : get_peer_id sha256 tls id_mode c a s = (inl i, s) -> links s' !! c = links s !! c ->
  get_peer_id sha256 tls id_mode c a s' = (inl i, s').
Proof.
  unfold get_peer_id, get_link, _get_peer_id, mbind, M_bind, get. cbn. intros Hi ->. destruct (links s !! c) as [l|]; [|done]. cbn in *.
  destruct (negb tls); [by injection Hi as <-|]. destruct id_mode; [by injection Hi as <-|].
  destruct (cert l); cbn in *; [by injection Hi as <-|done].
Qed.

(** The timer of the first attempt makes the second. *)
Lemma retry_attempts c1 p old a n bo bn sk kn rm s s1 : endpoint ACTIVE c1 p old a n bo bn s -> points c1 p s ->
  links s !! size (links s) = None -> retry junk_msg p sk kn rm s = (inl tt, s1) ->
  attempts c1 (size (links s)) p a s1.
Proof.
  intros [(l & Hl & Hm & Ht & Hla) (i & Hi & Hk) (x & Hx & Hst & Ha & Hnx & _ & Hout) Hnn _ _ _ _] Hp Hfresh Hrun.
  assert (c1 <> size (links s)) as Hne by congruence.
  enough (wp (retry junk_msg p sk kn rm) (fun _ => attempts c1 (size (links s)) p a) (fun _ _ => True) s) as W by (unfold wp in W; by rewrite Hrun in W).
  unfold retry, start_active_conn. apply wp_bind, wp_bind. unfold wp at 1. rewrite (get_peer_inl p x) by done.
  apply wp_bind. rewrite Ha, Hnn. apply wp_ret. apply wp_bind. unfold add_conn. apply wp_bind, wp_get, wp_bind, wp_modify, wp_ret.
  apply wp_bind, wp_modify, wp_bind, wp_modify, wp_bind, wp_get. unfold assert. case_match; [|by apply wp_throw]. apply wp_ret, wp_modify.
  set (c2 := size (links s)) in *. split; cbn.
  - exists l. rewrite lookup_alter_ne, lookup_insert_ne by done. auto.
  - exists i. split; [|done]. eapply get_peer_id_same; [exact Hi|]. cbn. by rewrite lookup_alter_ne, lookup_insert_ne.
  - split; unfold points; cbn; [by rewrite lookup_alter_ne, lookup_insert_ne|]. by rewrite lookup_alter_eq, lookup_insert_eq.
  - done.
  - eexists. rewrite !lookup_alter_eq, Hx. by split_and!.
  - done.
Qed.

(** An answer on the first attempt. *)
Lemma first_answer c1 c2 p a k s : attempts c1 c2 p a s ->
  (pong_handler sha1 sha256 junk_msg msg_magic tls id_mode (mkPing a k) c1 s).1 = inr EAssert.
Proof.
  intros [(l & Hl & Hm & Ht & Hla) (i & Hi & Hk) [_ Hp2] Hne (x & Hx & Hst & Ha & Ho) Hnn].
  destruct (points_link _ _ _ Hp2) as (l2 & Hl2 & Hpl2).
  enough (wp (pong_handler sha1 sha256 junk_msg msg_magic tls id_mode (mkPing a k) c1) (fun _ _ => False) (fun e _ => e = EAssert) s) as W.
  { unfold wp in W. destruct (pong_handler _ _ _ _ _ _ _ _ s) as [[]]; [done|by rewrite W]. }
  unfold pong_handler. apply wp_bind. unfold wp at 1. rewrite (get_link_inl c1 l) by done. rewrite Ht. cbn [claimed_addr ping_nonce]. rewrite Hnn, Hm, Hla.
  apply wp_bind. unfold wp at 1. rewrite Hi. apply wp_bind, wp_get. rewrite Hk. apply wp_bind. unfold wp at 1. rewrite (get_peer_inl p x) by done.
  rewrite Hst, Ha, Hnn, !bool_decide_eq_true_2 by done. cbn [negb orb andb assert]. apply wp_bind, wp_ret.
  rewrite Ho. unfold terminate_stale. rewrite (proj2 (Nat.eqb_neq c2 c1)) by done. apply wp_bind, wp_bind. unfold wp at 1. rewrite (get_link_inl c2 l2) by done.
  rewrite Hpl2. apply wp_bind. by apply wp_throw.
Qed.

(** The end of a connection that points to a peer connected through another. *)
Lemma stale_teardown c1 c2 p b s : connected_with p c2 b s -> points c1 p s -> c1 <> c2 -> (on_dispatcher_teardown c1 s).1 = inr EAssert.
Proof.
  intros [(x & Hx & Hst & Hc) _] Hp Hne. destruct (points_link _ _ _ Hp) as (l & Hl & Hpl).
  enough (wp (on_dispatcher_teardown c1) (fun _ _ => False) (fun e _ => e = EAssert) s) as W.
  { unfold wp in W. destruct (on_dispatcher_teardown c1 s) as [[]]; [done|by rewrite W]. }
  unfold on_dispatcher_teardown. apply wp_bind. unfold wp at 1. rewrite (get_link_inl c1 l) by done. apply wp_bind, wp_modify. rewrite Hpl.
  apply wp_bind. unfold wp at 1. rewrite (get_peer_inl p x) by done. rewrite Hst, Hc. cbn. apply wp_bind, wp_bind.
  rewrite (proj2 (Nat.eqb_neq c2 c1)) by done. by apply wp_throw.
Qed.

(** A connection that is kept leaves the pointers of the others. *)
Lemma pong_points c p old a n k bo bn q s : endpoint ACTIVE c p old a n bo bn s -> q <> c -> q <> old -> n < k -> points q p s ->
  points q p (pong_handler sha1 sha256 junk_msg msg_magic tls id_mode (mkPing a k) c s).2.
Proof.
  intros [(l & Hl & Hm & Ht & Hla) (i & Hi & Hk) (x & Hx & Hst & Ha & Hnx & Hp & Hin) Hnn Hn0 _ _ _] Hqc Hqo Hnk Hq.
  specialize (Hla eq_refl). unfold pong_handler. rewrite (bind_inl _ _ l s s) by (by apply get_link_inl). rewrite Ht. cbn [claimed_addr ping_nonce]. rewrite Hnn, Hm, Hla.
  rewrite (bind_inl _ _ i s s) by done. rewrite (bind_inl _ _ s s s) by done. rewrite Hk. rewrite (bind_inl _ _ x s s) by (by apply get_peer_inl).
  rewrite Hst, Ha, Hnn, !bool_decide_eq_true_2 by done. cbn [negb orb andb assert]. rewrite (bind_inl _ _ tt s s) by done.
  rewrite (bind_inl _ _ tt s s).
  2: { destruct (outbound_conn x) as [o|]; [|done]. rewrite (Hin o eq_refl). cbn [terminate_stale]. by rewrite Nat.eqb_refl. }
  set (x2 := peer_set_outbound (Some c) x). set (s2 := set_peers (alter (peer_set_outbound (Some c)) p (peers s)) s).
  rewrite (bind_inl _ _ tt s s2) by done. assert (peers s2 !! p = Some x2) as Hx2 by (cbn; by rewrite lookup_alter_eq, Hx).
  rewrite (bind_inl _ _ n s2 s2).
  2: { unfold get_nonce. rewrite (bind_inl _ _ x2 s2 s2) by (by apply get_peer_inl). cbn [nonce x2 peer_set_outbound]. rewrite Hnx. by rewrite (proj2 (Z.eqb_neq n 0)). }
  rewrite (proj2 (Z.ltb_lt n k)) by done. set (s3 := set_peers (alter (peer_set_chosen (Some c)) p (peers s2)) s2).
  rewrite (bind_inl _ _ tt s2 s3) by done. set (s4 := set_peers (alter (peer_set_ping_timer true) p (peers s3)) s3). rewrite (bind_inl _ _ tt s3 s4) by done.
  apply (finish_points q p p (peer_set_ping_timer true (peer_set_chosen (Some c) x2))).
  - cbn. by rewrite !lookup_alter_eq, Hx.
  - by intros o [= <-].
  - by intros [= <-].
  - cbn. by rewrite Hp.
  - exact Hq.
Qed.

(** C20. A peer that is dialled again while the last connection made to it is
    still alive aborts the replica, in two ways.  The retry timer of a
    disconnected peer makes a second attempt and leaves the first alone, so both
    connections point to the peer.  A pong on the first, whatever its nonce, fails
    the assertion that only the current attempt points to the peer.  A pong on the
    second with the larger nonce is kept: the peer is connected through it, and
    the end of the first connection then fails the assertion that a connection
    which points to a connected peer is the peer's. *)
Theorem stale_attempt_asserts c1 c2 p a old n k bo bn :
  (forall sk kn rm s s1, endpoint ACTIVE c1 p old a n bo bn s -> points c1 p s -> links s !! size (links s) = None ->
     retry junk_msg p sk kn rm s = (inl tt, s1) -> attempts c1 (size (links s)) p a s1) /\
  (forall s, attempts c1 c2 p a s -> (pong_handler sha1 sha256 junk_msg msg_magic tls id_mode (mkPing a k) c1 s).1 = inr EAssert) /\
  (forall s, attempts c1 c2 p a s -> endpoint ACTIVE c2 p old a n bo bn s -> n < k ->
     exists s', pong_handler sha1 sha256 junk_msg msg_magic tls id_mode (mkPing a k) c2 s = (inl tt, s') /\
       connected_with p c2 (bn ++ heartbeat :: bo) s' /\ (on_dispatcher_teardown c1 s').1 = inr EAssert).
Proof.
  split; [intros sk kn rm s s1; apply retry_attempts|]. split; [intros s; apply first_answer|].
  intros s A E Hnk. destruct (runs_inl _ _ _ (pong_runs c2 p old a n k bo bn s E)) as ([] & s' & Hs & Q).
  rewrite (proj2 (Z.ltb_lt n k)) in Q by done. exists s'. split; [done|]. split; [done|].
  apply (stale_teardown c1 c2 p _ s' Q); [|apply A].
  pose proof (pong_points c2 p old a n k bo bn c1 s E (at_ne _ _ _ _ _ A)) as Hp. rewrite Hs in Hp. apply Hp; [|done|apply A].
  destruct (at_first _ _ _ _ _ A) as (l & Hl & _ & Ht & _), (ep_old _ _ _ _ _ _ _ _ _ E) as (l' & Hl' & Ht'). intros <-. congruence.
Qed.

(** What a ping or a pong of the handshake says is read back. *)
Definition addr_ok (a : NetAddr) : Prop := 0 <= ip a < 2 ^ 32 /\ 0 <= port a < 2 ^ 16.

Lemma ping_roundtrip a n : addr_ok a -> 0 <= n < 2 ^ 32 -> (MsgPing_parse (DataStream_of (MsgPing_bytes a n))).1 = inl (mkPing a n).
Proof.
  intros [Hi Hp] Hn.
  assert (MsgPing_bytes a n = host_bytes 1 1 ++ (host_bytes 4 (ip a) ++ host_bytes 2 (port a)) ++ le_bytes 4 n) as E.
  { unfold MsgPing_bytes, addr_serialize, put_int, put_data. cbn [buffer DataStream_new]. rewrite host_bytes_htole, app_nil_l, <- !(assoc_L (++)). reflexivity. }
  assert (parses MsgPing_parse (MsgPing_bytes a n) (mkPing a n)) as Hparse.
  { rewrite E. unfold MsgPing_parse. eapply parses_bind; [apply parses_host_int; simpl; lia|]. cbn [Z.eqb].
    eapply parses_bind.
    - unfold addr_unserialize. eapply parses_bind; [apply parses_host_int; simpl; lia|]. apply (parses_fmap _ (mkAddr (ip a))), parses_host_int. simpl; lia.
    - destruct a as [ai ap]. pose proof (parses_le 4 n ltac:(simpl; lia)) as Hle. unfold get_le in Hle. rewrite <- (app_nil_r (le_bytes 4 n)).
      assert (letoh 4 (host_val (le_bytes 4 n)) = n) as Hl.
      { pose proof (letoh_host_val _ (le_bytes_ok 4 n)) as Hl. rewrite le_bytes_length, le_val_small in Hl by (simpl; lia). exact Hl. }
      eapply parses_bind; [apply parses_get_int; [apply le_bytes_ok|apply le_bytes_length]|]. cbn [ip port]. rewrite Hl. apply parses_ret. }
  destruct (Hparse (DataStream_of (MsgPing_bytes a n)) []) as (s & -> & _); [|done].
  rewrite app_nil_r. apply ready_of. rewrite E, !length_app, !host_bytes_length, le_bytes_length. done.
Qed.

(** C18. Both ends of a connection keep it when the end that made it has drawn the
    smaller nonce, and both give it up otherwise, provided that at both ends the
    peer is known under the address the handshake names, which is not null, is
    disconnected, and has no other connection of this kind in a handshake; so that
    of the two connections of peers that dial each other one is kept when their
    nonces differ.  The end that keeps it is connected through it and sends on it,
    behind the handshake, everything that was written to the peer and not sent. *)
Theorem handshake_agrees sB c p oldB a nB boB bnB sA d q oldA nA boA bnA :
  endpoint PASSIVE c p oldB a nB boB bnB sB -> endpoint ACTIVE d q oldA listen_addr nA boA bnA sA ->
  exists sB' sA', ping_handler sha1 sha256 junk_msg msg_magic tls id_mode listen_addr (mkPing a nA) c sB = (inl tt, sB') /\
    pong_handler sha1 sha256 junk_msg msg_magic tls id_mode (mkPing listen_addr nB) d sA = (inl tt, sA') /\
    if nA <? nB then
      connected_with p c (bnB ++ frame OPCODE_PONG (MsgPing_bytes listen_addr nB) :: heartbeat :: boB) sB' /\
      connected_with q d (bnA ++ heartbeat :: boA) sA'
    else given_up p c sB' /\ given_up q d sA'.
Proof.
  intros HB HA. destruct (runs_inl _ _ _ (ping_runs c p oldB a nB nA boB bnB sB HB)) as ([] & sB' & HsB & QB).
  destruct (runs_inl _ _ _ (pong_runs d q oldA listen_addr nA nB boA bnA sA HA)) as ([] & sA' & HsA & QA).
  exists sB', sA'. split; [exact HsB|]. split; [exact HsA|]. by destruct (nA <? nB).
Qed.

(** ** A message cut in two *)

(** The kernel takes some segments and the front of the next: the rest of it goes
    back in front. *)
Lemma send_loop_cut f w whole seg later j kn : send_buffer (conn w) = whole ++ seg :: later -> kernel w = (Sent ∘ length <$> whole) ++ Sent j :: kn ->
  Forall (fun seg => seg <> []) whole -> (0 < j < length seg)%nat -> (length whole < f)%nat ->
  exists w', send_loop f w = (inl LoopReturn, w') /\ sent w' = sent w ++ concat whole ++ take j seg /\ send_buffer (conn w') = drop j seg :: later.
Proof.
  intros Hb Hk Hw [Hj Hjl]. revert f w Hb Hk. induction Hw as [|x whole Hx Hw IH]; intros f w Hb Hk Hf; (destruct f as [|f]; [lia|]);
    cbn [app fmap list_fmap] in Hb, Hk; cbn [send_loop]; run; rewrite Hb; cbn [fst snd].
  - destruct (Nat.eqb_spec (length seg) 0) as [E|_]; [lia|]. unfold send. cbn [kernel set_conn]. rewrite Hk. cbv zeta. rewrite (proj2 (Nat.ltb_lt _ _) Hjl). run.
    rewrite (proj2 (Nat.ltb_ge j 1)) by lia. eexists. split; [reflexivity|]. by split.
  - destruct (Nat.eqb_spec (length x) 0) as [E|_]; [by destruct x|]. unfold send. cbn [kernel set_conn]. rewrite Hk. cbv zeta. cbn [compose]. rewrite Nat.ltb_irrefl. run.
    match goal with |- context [send_loop f ?w] => destruct (IH f w) as (w' & -> & Hs & Hb'); [done..|cbn in Hf; lia|] end.
    exists w'. split; [reflexivity|]. split; [|exact Hb']. rewrite Hs. cbn [sent concat]. by rewrite take_ge, <- !(assoc_L (++)) by done.
Qed.

Lemma send_data_cut w whole seg later j kn : send_buffer (conn w) = whole ++ seg :: later -> kernel w = (Sent ∘ length <$> whole) ++ Sent j :: kn ->
  Forall (fun seg => seg <> []) whole -> (0 < j < length seg)%nat ->
  exists w', send_data w = (inl tt, w') /\ sent w' = sent w ++ concat whole ++ take j seg /\ send_buffer (conn w') = drop j seg :: later.
Proof.
  intros Hb Hk Hw Hj. destruct (send_loop_cut (S (length (send_buffer (conn w)))) w whole seg later j kn Hb Hk Hw Hj) as (w' & Hr & Hs); [rewrite Hb, length_app; lia|].
  exists w'. split; [|exact Hs]. unfold send_data. run. by rewrite Hr.
Qed.

Lemma heartbeat_good n : digest_like sha1 -> 0 <= msg_magic < 2 ^ 32 -> 1 <= n ->
  exists m, heartbeat = msg_serialize m /\ good_msg sha1 n m /\ opcode m = OPCODE_PING.
Proof.
  intros Hd Hm Hn. assert (length heartbeat_bytes = 1%nat) as Hl by apply (host_bytes_length 1 0).
  destruct (Msg_new_spec sha1 junk_msg OPCODE_PING heartbeat_bytes msg_magic Hd) as (m & Hnew & Hok & Hp & Ho & _ & Hnp & Hc); [unfold OPCODE_PING; lia|exact Hm|rewrite Hl; lia|].
  exists m. unfold heartbeat, frame. rewrite Hnew. split; [done|]. split; [|done]. split; try done. by rewrite (mk_length _ Hok), Hp, Hl.
Qed.

(** C19. When the kernel takes whole segments and then a part of a message before
    a connection ends, the rest of that message heads what waits; when the peer is
    connected again through a connection this end made, the rest is sent there
    behind the handshake and the heartbeat, and in front of all that was written
    later.  A receiver reads it as a header.  When that announces more than the
    limit (its bytes 5 to 8, which are payload, checksum or the length of another
    message), a receiver that is given the stream in one piece and has room queues
    the messages of the handshake only and drops the connection: nothing of what
    was written to the peer arrives. *)
Theorem reconnect_breaks_framing recv_chunk_size max_recv_buff_size max_msg_size w whole seg later more j kn c p old a n k bn s front pre m0 kn' :
  send_buffer (conn w) = whole ++ seg :: later -> kernel w = (Sent ∘ length <$> whole) ++ Sent j :: kn -> Forall (fun x => x <> []) whole -> (0 < j < length seg)%nat ->
  endpoint ACTIVE c p old a n (drop j seg :: later ++ more) bn s -> n < k -> front ++ concat bn = wire pre ->
  digest_like sha1 -> 0 <= msg_magic < 2 ^ 32 -> 1 <= max_msg_size -> (2 <= max_recv_buff_size)%nat ->
  Forall (good_msg sha1 max_msg_size) pre -> announces max_msg_size (drop j seg ++ concat (later ++ more)) ->
  Z.of_nat (length (front ++ concat (bn ++ heartbeat :: drop j seg :: later ++ more))) < 2 ^ 64 ->
  (exists w', send_data w = (inl tt, w') /\ sent w' = sent w ++ concat whole ++ take j seg /\ send_buffer (conn w') = drop j seg :: later) /\
  exists s' b, pong_handler sha1 sha256 junk_msg msg_magic tls id_mode (mkPing a k) c s = (inl tt, s') /\ connected_with p c b s' /\
    exists hb v, opcode hb = OPCODE_PING /\ incoming v = pre ++ [hb] /\ terminated (conn v) = true /\
      run_events sha1 recv_chunk_size max_recv_buff_size max_msg_size [EvRead; EvTeardown] (World_new m0 [Data (front ++ concat b)] kn' []) = (inl tt, v).
Proof.
  intros Hb Hk Hw Hj E Hnk Hf Hd Hmag Hmax Hbuf Hg Hann Hlen. split; [by apply (send_data_cut w whole seg later j kn)|].
  destruct (runs_inl _ _ _ (pong_runs c p old a n k _ bn s E)) as ([] & s' & Hs & Q). rewrite (proj2 (Z.ltb_lt n k)) in Q by done.
  exists s', (bn ++ heartbeat :: drop j seg :: later ++ more). split; [exact Hs|]. split; [exact Q|].
  destruct (heartbeat_good max_msg_size Hd Hmag Hmax) as (hb & Ehb & Hhb & Hop).
  assert (front ++ concat (bn ++ heartbeat :: drop j seg :: later ++ more) = wire (pre ++ [hb]) ++ drop j seg ++ concat (later ++ more)) as Ew.
  { rewrite concat_app. cbn [concat]. rewrite (assoc_L (++)), Hf, Ehb. unfold wire. rewrite bind_app. cbn [mbind list_bind]. by rewrite app_nil_r, <- !(assoc_L (++)). }
  rewrite Ew in Hlen |- *. destruct (garbage_disconnects sha1 recv_chunk_size max_recv_buff_size max_msg_size m0 (pre ++ [hb]) _ kn' ltac:(by apply Forall_app_2; [|constructor]) Hann Hbuf Hlen)
    as (v & Hrun & Hin & Ht). by exists hb, v.
Qed.
End Law.
