(* ===== verification/PeersRuns.v ===== *)
(** * Peers at work

    Two replicas that connect, with identities that are certificates, and runs
    in which PeerNetwork aborts or sends what nobody can read; the witnesses of
    the theorems about peers. *)

From Stdlib Require Import ZArith Lia.
From S2P Require Import Prelude Bytes Stream SegBuffer Framing Conn ConnLaw ConnRuns Peers PeersInv PeersSafe PeersLaw.

#[local] Instance peers_host : Host := false.

Definition addrA : NetAddr := mkAddr 1 10.
Definition addrB : NetAddr := mkAddr 2 20.
Definition certA : list Z := [65].
Definition certB : list Z := [66].

(** Identities are the certificates themselves. *)
Definition toy_sha256 (l : list Z) : list Z := l.
Abbreviation net_run listen := (run toy_sha1 toy_sha256 junk_msg 4096 4096 1024 0 true CERT_BASED listen).

Definition made_bytes (op : Z) (l : list Z) : list Z := msg_serialize (made (Msg_new toy_sha1 junk_msg op l 0)).
Definition pong_of (a : NetAddr) (n : Z) : list Z := made_bytes OPCODE_PONG (MsgPing_bytes a n).
Definition ping_of (a : NetAddr) (n : Z) : list Z := made_bytes OPCODE_PING (MsgPing_bytes a n).

(** A knows B and dials it with the nonce 5; connection 1 is ready for the pong. *)
Definition dials : list pevent := [PAdd certB; PSetAddr certB addrB; PConn certB (-1); PRetry 0 [] [] []; PConnected 1; PSetup 1 certB].
Definition stateA : Net := (net_run addrA dials (Net_new [4])).2.

(** B knows A, has drawn 9, and accepts the connection. *)
Definition accepts : list pevent := [PAdd certA; PSetAddr certA addrA; PConn certA (-1); PRetry 0 [] [] []; PConnected 1; PSetup 1 certA;
  PAccept (mkAddr 1 999) [] [] []; PSetup 2 certA; PSend hello certA].
Definition stateB : Net := (net_run addrB accepts (Net_new [8])).2.

Lemma endA : endpoint toy_sha256 true CERT_BASED ACTIVE 1 0 0 addrB 5 [] [ping_of addrA 5] stateA.
Proof.
  split.
  - eexists. split; [by vm_compute|]. by vm_compute.
  - exists certB. by vm_compute.
  - eexists. split; [by vm_compute|]. split_and!; try by vm_compute. intros o. vm_compute. by intros [= <-].
  - done.
  - done.
  - eexists. split; [by vm_compute|done].
  - split; [by vm_compute|constructor].
  - by vm_compute.
Qed.

Lemma endB : endpoint toy_sha256 true CERT_BASED PASSIVE 2 0 0 addrA 9 [msg_serialize hello] [] stateB.
Proof.
  split.
  - eexists. split; [by vm_compute|]. by vm_compute.
  - exists certA. by vm_compute.
  - eexists. split; [by vm_compute|]. split_and!; by vm_compute.
  - done.
  - done.
  - eexists. split; [by vm_compute|done].
  - split; [by vm_compute|]. constructor; [by vm_compute|constructor].
  - by vm_compute.
Qed.

Lemma handshake_agrees_witness : exists sB sA,
  ping_handler toy_sha1 toy_sha256 junk_msg 0 true CERT_BASED addrB (mkPing addrA 5) 2 stateB = (inl tt, sB) /\
  pong_handler toy_sha1 toy_sha256 junk_msg 0 true CERT_BASED (mkPing addrB 9) 1 stateA = (inl tt, sA) /\
  connected_with 0 2 [pong_of addrB 9; made_bytes OPCODE_PING heartbeat_bytes; msg_serialize hello] sB /\
  connected_with 0 1 [ping_of addrA 5; made_bytes OPCODE_PING heartbeat_bytes] sA.
Proof.
  destruct (handshake_agrees toy_sha1 toy_sha256 junk_msg 0 true CERT_BASED addrB stateB 2 0 0 addrA 9 [msg_serialize hello] [] stateA 1 0 0 5 [] [ping_of addrA 5] endB endA)
    as (sB & sA & E1 & E2 & Q). exists sB, sA. split; [exact E1|]. split; [exact E2|]. exact Q.
Defined.

(** A is connected, and its connection ends. *)
Definition meets : list pevent := [PAdd certB; PSetAddr certB addrB; PConn certB (-1);
  PRetry 0 [Data (pong_of addrB 9)] [Sent 24; Sent 14; Sent 5] []; PConnected 1; PSetup 1 certB; PWorker 1 EvRead; PMsg 1].
Definition own (a : NetAddr) : list Z := certB.

Lemma no_peer_stranded_witness : exists s x l, net_run addrA (meets ++ [PTimeout 1; PWorker 1 EvTeardown]) (Net_new [4]) = (inl tt, s) /\
  peers s !! 0%nat = Some x /\ pstate x = CONNECTED /\ links s !! pconn x = Some l /\ is_terminated l = true /\ peer l = Some 0%nat.
Proof.
  destruct (net_run addrA (meets ++ [PTimeout 1; PWorker 1 EvTeardown]) (Net_new [4])) as [r s] eqn:E.
  assert (r = inl tt) as -> by (change r with (r, s).1; rewrite <- E; by vm_compute).
  destruct (peers s !! 0%nat) as [x|] eqn:Ex; [|exfalso; revert Ex; change s with (inl tt : unit + PError, s).2; rewrite <- E; by vm_compute].
  destruct (no_peer_stranded toy_sha1 toy_sha256 junk_msg 4096 4096 1024 0 addrA own [4] (meets ++ [PTimeout 1; PWorker 1 EvTeardown]) s 0 x)
    as (Hk & l & Hl & Hst); [repeat constructor; by right|exact E|exact Ex|].
  assert (pstate x = CONNECTED) as Hx.
  { assert (pstate <$> peers s !! 0%nat = Some CONNECTED) as Ep by (change s with (inl tt : unit + PError, s).2; rewrite <- E; by vm_compute). rewrite Ex in Ep. by injection Ep. }
  exists s, x, l. rewrite Hx in Hst. split; [reflexivity|]. split; [exact Ex|]. split; [exact Hx|]. split; [exact Hl|]. split; [|apply Hst].
  assert ((x ← peers s !! 0%nat; l ← links s !! pconn x; Some (is_terminated l)) = Some true) as Et by (change s with (inl tt : unit + PError, s).2; rewrite <- E; by vm_compute).
  rewrite Ex in Et. cbn in Et. rewrite Hl in Et. by injection Et.
Defined.

(** ** Runs that abort *)

(** A dials B, and dials again because B was slow; B answers on the second
    connection.  The first still points to the peer: when it ends, nobody expects
    it.  And when B answers on the first after all, the second does.  No message
    is wrong in these runs. *)
Definition dials_twice : list pevent := dials ++ [PRetry 0 [Data (pong_of addrB 9)] [] []; PConnected 2; PSetup 2 certB; PWorker 2 EvRead; PMsg 2].
Definition first_ends : list pevent := [PTimeout 1; PWorker 1 EvTeardown; PDelConn 1].
Definition slow_answer : list pevent := [PAdd certB; PSetAddr certB addrB; PConn certB (-1);
  PRetry 0 [Data (pong_of addrB 9)] [] []; PConnected 1; PSetup 1 certB; PRetry 0 [] [] []; PWorker 1 EvRead; PMsg 1].

Example stale_attempt_run : exists s, net_run addrA dials_twice (Net_new [4]) = (inl tt, s) /\
  calls s = [PeerCb 2 true] /\ pconn <$> peers s !! 0%nat = Some 2%nat /\
  (net_run addrA (dials_twice ++ first_ends) (Net_new [4])).1 = inr EAssert /\
  (net_run addrA slow_answer (Net_new [4])).1 = inr EAssert.
Proof. eexists. split; [by vm_compute|]. by vm_compute. Qed.

(** The second attempt, made by the timer; then its pong. *)
Definition stateR : Net := (retry junk_msg 0 [] [] [] stateA).2.
Definition state2 : Net := (net_run addrA (dials ++ [PRetry 0 [] [] []; PConnected 2; PSetup 2 certB]) (Net_new [4])).2.

Lemma pointsA : points 1 0 stateA.
Proof. by vm_compute. Qed.

Lemma retry_fresh : links stateA !! size (links stateA) = None.
Proof. by vm_compute. Qed.
Lemma retry_runs : retry junk_msg 0 [] [] [] stateA = (inl tt, stateR).
Proof. unfold stateR. refine (ends_well _ tt _). by vm_compute. Qed.

Lemma end2 : endpoint toy_sha256 true CERT_BASED ACTIVE 2 0 0 addrB 5 [] [ping_of addrA 5] state2.
Proof.
  split.
  - eexists. split; [by vm_compute|]. by vm_compute.
  - exists certB. by vm_compute.
  - eexists. split; [by vm_compute|]. split_and!; try by vm_compute. intros o. vm_compute. by intros [= <-].
  - done.
  - done.
  - eexists. split; [by vm_compute|done].
  - split; [by vm_compute|constructor].
  - by vm_compute.
Qed.

Lemma attempts2 : attempts toy_sha256 true CERT_BASED 1 2 0 addrB state2.
Proof.
  split.
  - eexists. split; [by vm_compute|]. by vm_compute.
  - exists certB. by vm_compute.
  - by vm_compute.
  - done.
  - eexists. split; [by vm_compute|]. by vm_compute.
  - done.
Qed.

Lemma stale_attempt_asserts_witness :
  attempts toy_sha256 true CERT_BASED 1 (size (links stateA)) 0 addrB stateR /\
  (pong_handler toy_sha1 toy_sha256 junk_msg 0 true CERT_BASED (mkPing addrB 9) 1 state2).1 = inr EAssert /\
  exists s, pong_handler toy_sha1 toy_sha256 junk_msg 0 true CERT_BASED (mkPing addrB 9) 2 state2 = (inl tt, s) /\
    connected_with 0 2 [ping_of addrA 5; made_bytes OPCODE_PING heartbeat_bytes] s /\ (on_dispatcher_teardown 1 s).1 = inr EAssert.
Proof.
  destruct (stale_attempt_asserts toy_sha1 toy_sha256 junk_msg 0 true CERT_BASED 1 2 0 addrB 0 5 9 [] [ping_of addrA 5]) as (H1 & H2 & H3).
  split; [|split; [exact (H2 state2 attempts2)|exact (H3 state2 attempts2 end2 eq_refl)]].
  apply (H1 [] [] [] stateA stateR endA pointsA retry_fresh retry_runs).
Defined.

(** A host that connects from the port it listens on aborts the replica when that
    dials it next. *)
Example port_in_use_asserts : (net_run addrA [PAdd certB; PSetAddr certB addrB; PConn certB (-1); PAccept addrB [] [] []; PSetup 1 certB; PRetry 0 [] [] []] (Net_new [4])).1 = inr EAssert.
Proof. by vm_compute. Qed.

(** conn_peer with one attempt: the timer runs on, and a second connection is
    made after the first has failed. *)
Example ntry_not_respected :
  let s := (net_run addrA [PAdd certB; PSetAddr certB addrB; PConn certB 1; PRetry 0 [] [] []; PConnFail 1; PDispClose 1; PRetry 0 [] [] []] (Net_new [4])).2 in
  cur_ntry <$> peers s !! 0%nat = Some 0 /\ size (links s) = 3%nat /\ peer <$> links s !! 2%nat = Some (Some 0%nat).
Proof. by vm_compute. Qed.

(** Without certificates a connection can take the place of two peers; the first
    is then connected for ever. *)
Example claims_two_peers :
  let addrC := mkAddr 3 30 in
  let i a := toy_sha256 (buffer (addr_serialize a DataStream_new)) in
  let s := (run toy_sha1 toy_sha256 junk_msg 4096 4096 1024 0 false CERT_BASED addrA
    [PAdd (i addrB); PAdd (i addrC); PAccept (mkAddr 9 9) [Data (ping_of addrB 3 ++ ping_of addrC 3)] [] []; PSetup 2 []; PWorker 2 EvRead; PMsg 2; PMsg 2;
     PTimeout 2; PWorker 2 EvTeardown; PDelConn 2] (Net_new [])) in
  s.1 = inl tt /\ (fun x => (pstate x, pconn x)) <$> peers s.2 !! 0%nat = Some (CONNECTED, 2%nat) /\ is_terminated <$> links s.2 !! 2%nat = Some true.
Proof. by vm_compute. Qed.

(** ** A message cut in two *)

(** A is connected and sends; the kernel takes five bytes before the connection
    ends; A dials again. *)
Definition interrupted : list pevent := meets ++ [PSend hello certB; PWorker 1 EvWrite; PTimeout 1; PWorker 1 EvTeardown; PDelConn 1;
  PRetry 0 [Data (pong_of addrB 99)] [Sent 24; Sent 14; Sent 100; Sent 100] []; PConnected 2; PSetup 2 certB; PWorker 2 EvRead; PMsg 2; PSend bye certB;
  PWorker 2 EvWrite].

Definition after_reconnect : Net := (net_run addrA interrupted (Net_new [4; 7])).2.
Definition link_after (c : nat) : Link := default (mkLink PASSIVE NetAddr_null None None false false (dummy_world junk_msg)) (links after_reconnect !! c).

(** Of the two messages, with the handshakes in order at both ends, the receiver
    queues none and drops the connection. *)
Example reconnect_run : exists s l1 l2, net_run addrA interrupted (Net_new [4; 7]) = (inl tt, s) /\
  calls s = [PeerCb 1 true; PeerCb 1 false; PeerCb 2 true] /\ links s !! 1%nat = Some l1 /\ links s !! 2%nat = Some l2 /\
  sent (world l1) = ping_of addrA 5 ++ made_bytes OPCODE_PING heartbeat_bytes ++ take 5 (msg_serialize hello) /\
  sent (world l2) = ping_of addrA 8 ++ made_bytes OPCODE_PING heartbeat_bytes ++ drop 5 (msg_serialize hello) ++ msg_serialize bye /\
  let w := (run_events toy_sha1 4096 4096 1024 [EvRead; EvTeardown] (World_new junk_msg [Data (sent (world l2))] [] [])).2 in
  opcode <$> incoming w = [OPCODE_PING; OPCODE_PING] /\ terminated (conn w) = true.
Proof.
  exists after_reconnect, (link_after 1), (link_after 2). split; [unfold after_reconnect; refine (ends_well _ tt _); by vm_compute|].
  split; [by vm_compute|]. split; [by vm_compute|]. split; [by vm_compute|]. split; [by vm_compute|]. split; by vm_compute.
Qed.

(** The same with the second message written before the pong is handled. *)
Definition cut_here : list pevent := meets ++ [PSend hello certB].
Definition cut_world : World := default (dummy_world junk_msg) (world <$> links (net_run addrA cut_here (Net_new [4; 7])).2 !! 1%nat).
Definition before_pong : Net := (net_run addrA (cut_here ++ [PWorker 1 EvWrite; PTimeout 1; PWorker 1 EvTeardown; PDelConn 1;
  PRetry 0 [] [] []; PConnected 2; PSetup 2 certB; PSend bye certB]) (Net_new [4; 7])).2.
Definition ping_msg (a : NetAddr) (n : Z) : Msg := made (Msg_new toy_sha1 junk_msg OPCODE_PING (MsgPing_bytes a n) 0).

Lemma toy_sha1_digest : digest_like toy_sha1.
Proof. intros l. unfold toy_sha1. split; [rewrite le_bytes_length; lia|apply le_bytes_ok]. Qed.

Lemma end_again : endpoint toy_sha256 true CERT_BASED ACTIVE 2 0 1 addrB 8 [drop 5 (msg_serialize hello); msg_serialize bye] [ping_of addrA 8] before_pong.
Proof.
  split.
  - eexists. split; [by vm_compute|]. by vm_compute.
  - exists certB. by vm_compute.
  - eexists. split; [by vm_compute|]. split_and!; try by vm_compute. intros o. vm_compute. by intros [= <-].
  - done.
  - done.
  - eexists. split; [by vm_compute|done].
  - split; [by vm_compute|repeat constructor; by vm_compute].
  - by vm_compute.
Qed.

Lemma rest_announces : announces 1024 (drop 5 (msg_serialize hello) ++ concat ([] ++ [msg_serialize bye])).
Proof. split; [vm_compute; lia|]. split; [|by vm_compute]. apply (bool_decide_unpack _). by vm_compute. Qed.

Lemma reconnect_breaks_framing_witness :
  (exists w, send_data cut_world = (inl tt, w) /\
     sent w = sent cut_world ++ concat [ping_of addrA 5; made_bytes OPCODE_PING heartbeat_bytes] ++ take 5 (msg_serialize hello) /\
     send_buffer (conn w) = [drop 5 (msg_serialize hello)]) /\
  exists s b, pong_handler toy_sha1 toy_sha256 junk_msg 0 true CERT_BASED (mkPing addrB 99) 2 before_pong = (inl tt, s) /\ connected_with 0 2 b s /\
    exists hb v, opcode hb = OPCODE_PING /\ incoming v = [ping_msg addrA 8] ++ [hb] /\ terminated (conn v) = true /\
      run_events toy_sha1 4096 4096 1024 [EvRead; EvTeardown] (World_new junk_msg [Data (concat b)] [] []) = (inl tt, v).
Proof.
  apply (reconnect_breaks_framing toy_sha1 toy_sha256 junk_msg 0 true CERT_BASED 4096 4096 1024 cut_world
    [ping_of addrA 5; made_bytes OPCODE_PING heartbeat_bytes] (msg_serialize hello) [] [msg_serialize bye] 5 [] 2 0 1 addrB 8 99 [ping_of addrA 8] before_pong [] [ping_msg addrA 8] junk_msg []).
  - by vm_compute.
  - by vm_compute.
  - repeat constructor; by vm_compute.
  - vm_compute. lia.
  - exact end_again.
  - done.
  - by vm_compute.
  - exact toy_sha1_digest.
  - lia.
  - lia.
  - lia.
  - repeat constructor; by vm_compute.
  - exact rest_announces.
  - by vm_compute.
Defined.
