(* ===== verification/Blob.v ===== *)
(** * Blob and Bits

    The 256-bit digest type and the bit vector of
    [salticidae/include/salticidae/stream.h]. *)

From Stdlib Require Import ZArith Lia.
From S2P Require Import Prelude Bytes Stream.

Section Blob.
Context `{Host}.

(** Blob<256, uint64_t>: four words, least significant first. *)
Record Blob := mkBlob { words : list Z; loaded : bool }.

Definition Blob_new : Blob := mkBlob (replicate 4 0) false.

Definition blob_ok (b : Blob) : Prop :=
  length (words b) = 4%nat /\ Forall (fun w => 0 <= w < 2 ^ 64) (words b).

(** The inner loop of load: eight bytes, the last one first. *)
Definition load_word (l : list Z) : Z :=
  fold_left (fun x b => Z.lor (u64 (Z.shiftl x 8)) b) (reverse l) 0.

Definition Blob_load (arr : list Z) : Blob :=
  mkBlob ((fun i => load_word (take 8 (drop (8 * i) arr))) <$> seq 0 4) true.

(** Blob(const bytearray_t &): [None] is the exception. *)
Definition Blob_of_bytes (arr : list Z) : option Blob :=
  if decide (length arr = 32%nat) then Some (Blob_load arr) else None.

Definition is_null (b : Blob) : bool := negb (loaded b).

(** operator== *)
Definition Blob_eq (a b : Blob) : bool :=
  forallb (fun i => bool_decide (words a !! i = words b !! i)) (seq 0 4).

(** operator<: the loop from the top word down to word 1, then word 0. *)
Fixpoint Blob_lt_from (i : nat) (a b : list Z) : bool :=
  match i with
  | O => nth 0 a 0 <? nth 0 b 0
  | S j => if nth i a 0 =? nth i b 0 then Blob_lt_from j a b else nth i a 0 <? nth i b 0
  end.
Definition Blob_lt (a b : Blob) : bool := Blob_lt_from 3 (words a) (words b).

Definition cheap_hash (b : Blob) : Z := nth 0 (words b) 0.

Definition Blob_serialize (b : Blob) (s : DataStream) : DataStream :=
  fold_left (fun s w => put_int 8 (htole 8 (if loaded b then w else 0)) s) (words b) s.

Definition Blob_unserialize : SM Blob :=
  ws ← get_many (get_le 8) 4; mret (mkBlob ws true).

(** The number a blob holds. *)
Definition blob_val (b : Blob) : Z := le_val ((fun w => w) <$> (words b ≫= le_bytes 8)).

(** ** Properties *)

Lemma lor_low x b : 0 <= b < 256 -> 0 <= x -> Z.lor (x * 256) b = x * 256 + b.
Proof. intros Hb _. by apply (lor_add 8). Qed.

Lemma load_word_val l : Forall byte_ok l -> (length l <= 8)%nat -> load_word l = le_val l.
Proof.
  unfold load_word. intros Hl Hlen.
  induction l as [|b l IH]; [done|]. inversion Hl as [|? ? Hb Hl']; subst.
  rewrite reverse_cons, fold_left_app. cbn [fold_left]. simpl in Hlen.
  rewrite IH by (done || lia). cbn [le_val]. pose proof (le_val_range l Hl') as Hr.
  assert (le_val l < 2 ^ 56) as Hlt.
  { eapply Z.lt_le_trans; [apply Hr|]. apply Z.pow_le_mono_r; lia. }
  rewrite Z.shiftl_mul_pow2 by lia. change (2 ^ 8) with 256.
  rewrite u64_small by lia. rewrite lor_low by (unfold byte_ok in Hb; lia). lia.
Qed.

Lemma Blob_load_ok arr : Forall byte_ok arr -> blob_ok (Blob_load arr).
Proof.
  intros Ha. split; [done|]. apply Forall_fmap, Forall_forall. intros i _. simpl.
  assert (Forall byte_ok (take 8 (drop (8 * i) arr))) as Hf by (by apply Forall_take, Forall_drop).
  assert (length (take 8 (drop (8 * i) arr)) <= 8)%nat by (rewrite length_take; lia).
  rewrite load_word_val by done. pose proof (le_val_range _ Hf) as Hr.
  split; [apply Hr|]. eapply Z.lt_le_trans; [apply Hr|]. apply Z.pow_le_mono_r; lia.
Qed.

(** What serialize appends. *)
Definition blob_bytes (b : Blob) : list Z :=
  words b ≫= fun w => le_bytes 8 (if loaded b then w else 0).

Lemma fold_put_ints (enc : Z -> Z) n ws s :
  fold_left (fun s w => put_int n (htole n (enc w)) s) ws s =
  put_data (ws ≫= fun w => le_bytes n (enc w)) s.
Proof.
  revert s. induction ws as [|w ws IH]; intros s; simpl.
  - unfold put_data. rewrite app_nil_r. by destruct s.
  - rewrite IH. unfold put_int, put_data. rewrite host_bytes_htole. simpl. by rewrite <- (assoc_L (++)).
Qed.

Lemma Blob_serialize_bytes b s : Blob_serialize b s = put_data (blob_bytes b) s.
Proof. apply fold_put_ints. Qed.

Lemma blob_bytes_length b : length (words b) = 4%nat -> length (blob_bytes b) = 32%nat.
Proof.
  unfold blob_bytes. destruct b as [ws ld]. simpl. intros Hw.
  do 4 (destruct ws as [|? ws]; [done|]). destruct ws; [|done]. by destruct ld.
Qed.

Lemma blob_bytes_load arr : Forall byte_ok arr -> length arr = 32%nat ->
  blob_bytes (Blob_load arr) = arr.
Proof.
  intros Ha Hl. unfold blob_bytes, Blob_load. cbn [words loaded fmap list_fmap seq mbind list_bind].
  assert (forall i, (8 * i + 8 <= 32)%nat ->
    le_bytes 8 (load_word (take 8 (drop (8 * i) arr))) = take 8 (drop (8 * i) arr)) as Hw.
  { intros i Hi. assert (length (take 8 (drop (8 * i) arr)) = 8%nat) as Hl8
      by (rewrite length_take, length_drop; lia).
    rewrite load_word_val; [|by apply Forall_take, Forall_drop|lia].
    rewrite <- Hl8 at 1. apply le_bytes_val. by apply Forall_take, Forall_drop. }
  rewrite (Hw 0%nat), (Hw 1%nat), (Hw 2%nat), (Hw 3%nat) by lia. clear Hw.
  do 32 (destruct arr as [|? arr]; [done|]). by destruct arr.
Qed.

(** Reading back what serialize wrote. *)
Lemma parses_Blob b : blob_ok b -> loaded b = true -> parses Blob_unserialize (blob_bytes b) b.
Proof.
  intros [Hl Hw] Hld. unfold Blob_unserialize, blob_bytes. rewrite Hld.
  assert (b = mkBlob (words b) true) as -> by (destruct b; simpl in *; by subst).
  simpl. apply (parses_fmap _ (fun ws => mkBlob ws true)).
  pose proof (parses_many (get_le 8) (le_bytes 8) (words b)) as Hp. rewrite Hl in Hp. apply Hp.
  eapply Forall_impl; [exact Hw|]. intros w Hr. by apply parses_le.
Qed.

Lemma Blob_eq_spec a b : blob_ok a -> blob_ok b -> Blob_eq a b = true <-> words a = words b.
Proof.
  intros [Ha _] [Hb _]. unfold Blob_eq. rewrite forallb_forall. split.
  - intros Hf. apply list_eq. intros i. destruct (decide (i < 4)%nat).
    + apply (bool_decide_eq_true_1 (words a !! i = words b !! i)), Hf, in_seq. lia.
    + rewrite !lookup_ge_None_2 by lia. done.
  - intros -> i _. by apply bool_decide_eq_true.
Qed.

(** The value of a list of words. *)
Fixpoint wval (l : list Z) : Z :=
  match l with [] => 0 | w :: l => w + 2 ^ 64 * wval l end.

(** operator< compares the numbers the blobs hold. *)
Lemma Blob_lt_spec a b : blob_ok a -> blob_ok b -> Blob_lt a b = (wval (words a) <? wval (words b)).
Proof.
  destruct a as [wa la], b as [wb lb]. intros [Ha Hfa] [Hb Hfb]. simpl in *.
  do 4 (destruct wa as [|? wa]; [done|]). destruct wa; [|done].
  do 4 (destruct wb as [|? wb]; [done|]). destruct wb; [|done].
  repeat match goal with Hf : Forall _ (_ :: _) |- _ => inversion Hf; clear Hf; subst end.
  unfold Blob_lt. simpl. repeat case_match;
    repeat match goal with
    | Hx : (_ =? _) = true |- _ => apply Z.eqb_eq in Hx
    | Hx : (_ =? _) = false |- _ => apply Z.eqb_neq in Hx
    end; symmetry; subst.
  all: match goal with |- _ = (?x <? ?y) => destruct (x <? y) eqn:Hc end.
  all: rewrite ?Z.ltb_lt, ?Z.ltb_ge in *; lia.
Qed.
End Blob.

(** ** Bits *)

Section Bits.
Context `{Host}.

(** class _Bits<uint64_t>; [bdata = None] is the null pointer. *)
Record Bits := mkBits { bdata : option (list Z); nbits : Z; ndata : Z }.

(** (nbits + bit_per_datum - 1) / bit_per_datum in [uint32_t]. *)
Definition words_for (n : Z) : Z := u32 (u32 (n + 64) - 1) / 64.

(** _Bits(uint32_t): the new array is not initialised; [junk] is what the
    memory held. *)
Definition Bits_new (junk : list Z) (n : Z) : Bits :=
  mkBits (Some (take (Z.to_nat (words_for n)) junk)) n (words_for n).

(** One word of load: [*(arr++) << k] shifts an [int]; shifting by 32 or
    more, or out of a signed int, is undefined. *)
Fixpoint bits_word (k : Z) (l : list Z) : option Z :=
  match l with
  | [] => Some 0
  | b :: l =>
    if (32 <=? k) || (2 ^ 31 <=? b * 2 ^ k) then None
    else r ← bits_word (k + 8) l; Some (Z.lor (b * 2 ^ k) r)
  end.

Fixpoint bits_words (n : nat) (arr : list Z) : option (list Z) :=
  match n with
  | O => Some []
  | S n => w ← bits_word 0 (take 8 arr); ws ← bits_words n (drop 8 arr); Some (w :: ws)
  end.

(** load(arr, len) *)
Definition Bits_load (arr : list Z) : option Bits :=
  let n := u32 (Z.of_nat (length arr) * 8) in
  ws ← bits_words (Z.to_nat (words_for n)) arr;
  Some (mkBits (Some ws) n (words_for n)).

Definition bits_size (b : Bits) : Z := nbits b.

(** Access to [data[i]]: [None] is a read out of bounds. *)
Definition word_at (b : Bits) (i : Z) : option Z :=
  ws ← bdata b; ws !! Z.to_nat i.

Definition bits_get (b : Bits) (idx : Z) : option Z :=
  w ← word_at b (Z.shiftr idx 6); Some (Z.land (Z.shiftr w (Z.land idx 63)) 1).

Definition set_word (b : Bits) (i w : Z) : Bits :=
  mkBits (<[Z.to_nat i := w]> <$> bdata b) (nbits b) (ndata b).

Definition bits_set (b : Bits) (idx : Z) : option Bits :=
  let i := Z.shiftr idx 6 in let pos := Z.land idx 63 in
  w ← word_at b i;
  Some (set_word b i (Z.lxor w (u64 (Z.shiftl (Z.lxor (Z.land (Z.shiftr w pos) 1) 1) pos)))).

Definition bits_unset (b : Bits) (idx : Z) : option Bits :=
  let i := Z.shiftr idx 6 in let pos := Z.land idx 63 in
  w ← word_at b i;
  Some (set_word b i (Z.lxor w (u64 (Z.shiftl (Z.land (Z.shiftr w pos) 1) pos)))).

Definition bits_flip (b : Bits) (idx : Z) : option Bits :=
  let i := Z.shiftr idx 6 in let pos := Z.land idx 63 in
  w ← word_at b i;
  Some (set_word b i (Z.lxor w (u64 (Z.shiftl 1 pos)))).

Definition bits_clear (b : Bits) : Bits :=
  mkBits ((fun ws => replicate (length ws) 0) <$> bdata b) (nbits b) (ndata b).

(** serialize; with a null pointer nothing follows the size (the loop over
    [data] up to [data + ndata] runs from the null pointer). *)
Definition Bits_serialize (b : Bits) (s : DataStream) : option DataStream :=
  let s := put_int 4 (htole 4 (nbits b)) s in
  match bdata b with
  | Some ws => Some (fold_left (fun s w => put_int 8 (htole 8 w) s) ws s)
  | None => Some (fold_left (fun s _ => put_int 8 (htole 8 0) s) (replicate (Z.to_nat (ndata b)) 0) s)
  end.

Definition Bits_unserialize : SM Bits :=
  n ← get_le 4;
  ws ← get_many (get_le 8) (Z.to_nat (words_for n));
  mret (mkBits (Some ws) n (words_for n)).

(** Allocated, with as many words as bits need. *)
Record bits_ok (b : Bits) : Prop := {
  bo_nbits : 0 <= nbits b < 2 ^ 32 - 64;
  bo_ndata : ndata b = words_for (nbits b);
  bo_data : exists ws, bdata b = Some ws /\ length ws = Z.to_nat (ndata b) /\
    Forall (fun w => 0 <= w < 2 ^ 64) ws;
}.

Lemma words_for_small n : 0 <= n < 2 ^ 32 - 64 -> words_for n = (n + 63) / 64.
Proof. intros Hn. unfold words_for. rewrite (u32_small (n + 64)), u32_small by lia. f_equal. lia. Qed.

Lemma words_for_enough n idx : 0 <= n < 2 ^ 32 - 64 -> 0 <= idx < n -> idx / 64 < words_for n.
Proof.
  intros Hn Hi. rewrite words_for_small by done.
  pose proof (Z.div_mod idx 64 ltac:(lia)). pose proof (Z.mod_pos_bound idx 64 ltac:(lia)).
  pose proof (Z.div_mod (n + 63) 64 ltac:(lia)). pose proof (Z.mod_pos_bound (n + 63) 64 ltac:(lia)). lia.
Qed.

(** The bit at a valid index, as a boolean. *)
Definition bit_of (b : Bits) (idx : Z) : bool :=
  match word_at b (idx / 64) with Some w => Z.testbit w (idx mod 64) | None => false end.

Lemma index_split idx : 0 <= idx -> Z.shiftr idx 6 = idx / 64 /\ Z.land idx 63 = idx mod 64.
Proof.
  intros Hi. split; [by rewrite Z.shiftr_div_pow2 by lia|].
  change 63 with (Z.ones 6). by rewrite Z.land_ones by lia.
Qed.

Lemma land_1_testbit w i : 0 <= i -> Z.land (Z.shiftr w i) 1 = Z.b2z (Z.testbit w i).
Proof.
  intros Hi. rewrite Z.testbit_spec' by done. rewrite Z.shiftr_div_pow2 by done.
  change 1 with (Z.ones 1). by rewrite Z.land_ones by lia.
Qed.

Lemma word_at_ok b idx : bits_ok b -> 0 <= idx < nbits b ->
  exists w, word_at b (idx / 64) = Some w /\ 0 <= w < 2 ^ 64.
Proof.
  intros [Hn Hd (ws & Hb & Hl & Hw)] Hi. unfold word_at. rewrite Hb. simpl.
  pose proof (words_for_enough (nbits b) idx Hn Hi). pose proof (Z.div_pos idx 64 ltac:(lia) ltac:(lia)).
  destruct (ws !! Z.to_nat (idx / 64)) as [w|] eqn:Hw'.
  - exists w. split; [done|]. by eapply Forall_lookup_1 in Hw.
  - apply lookup_ge_None in Hw'. lia.
Qed.

Lemma bits_get_bit b idx x : 0 <= idx -> bits_get b idx = Some x -> x = Z.b2z (bit_of b idx).
Proof.
  intros Hi. unfold bits_get, bit_of. destruct (index_split idx) as [-> ->]; [lia|].
  destruct (word_at b (idx / 64)) as [w|]; [|done]. simpl. intros [= <-].
  apply land_1_testbit, Z.mod_pos_bound. lia.
Qed.

(** get returns the bit. *)
Lemma bits_get_spec b idx : bits_ok b -> 0 <= idx < nbits b ->
  bits_get b idx = Some (Z.b2z (bit_of b idx)).
Proof.
  intros Hok Hi. destruct (word_at_ok b idx Hok Hi) as (w & Hw & _).
  unfold bits_get, bit_of.
  destruct (index_split idx) as [-> ->]; [lia|]. rewrite Hw. simpl.
  rewrite land_1_testbit; [done|]. apply Z.mod_pos_bound. lia.
Qed.

(** Updating the word of a bit. *)
Lemma word_at_set b i w j : bits_ok b -> 0 <= i -> 0 <= j -> is_Some (word_at b i) ->
  word_at (set_word b i w) j = if decide (j = i) then Some w else word_at b j.
Proof.
  intros [_ _ (ws & Hb & _ & _)] Hi Hj [w0 Hw]. unfold word_at, set_word in *. simpl in *.
  rewrite Hb in *. simpl in *. apply lookup_lt_Some in Hw. case_decide.
  - subst. by rewrite list_lookup_insert_eq.
  - rewrite list_lookup_insert_ne; [done|]. intros ?%Z2Nat.inj; lia.
Qed.

Lemma bits_ok_set_word b i w : bits_ok b -> 0 <= w < 2 ^ 64 -> bits_ok (set_word b i w).
Proof.
  intros [Hn Hd (ws & Hb & Hl & Hw)] Hr. split; [done|done|].
  exists (<[Z.to_nat i := w]> ws). simpl. rewrite Hb. split; [done|].
  split; [by rewrite length_insert|]. by apply Forall_insert.
Qed.

Lemma lxor_range a b : 0 <= a < 2 ^ 64 -> 0 <= b < 2 ^ 64 -> 0 <= Z.lxor a b < 2 ^ 64.
Proof. by apply lxor_bound. Qed.

(** Toggling bit [pos] of a word when [c]. *)
Lemma toggle_testbit w pos c k : 0 <= pos < 64 -> 0 <= k < 64 ->
  Z.testbit (Z.lxor w (u64 (Z.shiftl (Z.b2z c) pos))) k =
  xorb (Z.testbit w k) (c && bool_decide (k = pos)).
Proof.
  intros Hp Hk. rewrite Z.lxor_spec. f_equal. unfold u64.
  rewrite Z.mod_pow2_bits_low by lia. rewrite Z.shiftl_spec by lia.
  destruct c; simpl; [|by rewrite Z.bits_0]. case_bool_decide.
  - subst. by rewrite Z.sub_diag.
  - destruct (decide (k < pos)); [by rewrite Z.testbit_neg_r by lia|].
    apply (Z.bits_above_log2 1); simpl; lia.
Qed.

(** What a single-bit operation does: bit [idx] becomes [v], the other bits
    stay. *)
Definition assigns (b b' : Bits) (idx : Z) (v : bool) : Prop :=
  bits_ok b' /\ nbits b' = nbits b /\
  forall j, 0 <= j < nbits b -> bit_of b' j = if decide (j = idx) then v else bit_of b j.

Lemma toggle_assigns b idx w (c : bool) : bits_ok b -> 0 <= idx < nbits b ->
  word_at b (idx / 64) = Some w -> 0 <= w < 2 ^ 64 ->
  assigns b (set_word b (idx / 64) (Z.lxor w (u64 (Z.shiftl (Z.b2z c) (idx mod 64)))))
    idx (xorb (bit_of b idx) c).
Proof.
  intros Hok Hi Hw Hr. pose proof (Z.mod_pos_bound idx 64 ltac:(lia)) as Hm.
  split; [|split; [done|]].
  - apply bits_ok_set_word; [done|]. apply lxor_range; [done|]. apply u64_range.
  - intros j Hj. pose proof (Z.mod_pos_bound j 64 ltac:(lia)) as Hmj.
    pose proof (Z.div_mod idx 64 ltac:(lia)). pose proof (Z.div_mod j 64 ltac:(lia)).
    unfold bit_of at 1. rewrite word_at_set; [|done|apply Z.div_pos; lia|apply Z.div_pos; lia|by eexists].
    case_decide as Hd.
    + rewrite toggle_testbit by done. unfold bit_of. rewrite Hd, Hw. case_decide as He.
      * subst j. rewrite bool_decide_true by done. by rewrite andb_true_r.
      * rewrite bool_decide_false by lia. by rewrite andb_false_r, xorb_false_r.
    + rewrite decide_False; [done|]. intros ->. done.
Qed.

Ltac bit_op b idx :=
  match goal with Hok : bits_ok b |- _ =>
    let w := fresh "w" in let Hw := fresh "Hw" in let Hr := fresh "Hr" in
    destruct (word_at_ok b idx Hok ltac:(lia)) as (w & Hw & Hr);
    destruct (index_split idx) as [-> ->]; [lia|]; rewrite Hw; simpl;
    pose proof (Z.mod_pos_bound idx 64 ltac:(lia));
    rewrite ?land_1_testbit by lia
  end.

Lemma bits_set_spec b idx : bits_ok b -> 0 <= idx < nbits b ->
  exists b', bits_set b idx = Some b' /\ assigns b b' idx true.
Proof.
  intros Hok Hi. unfold bits_set. bit_op b idx. eexists. split; [done|].
  pose proof (toggle_assigns b idx w (negb (bit_of b idx)) Hok Hi Hw Hr) as Ha.
  unfold bit_of in Ha. rewrite Hw in Ha. by destruct (Z.testbit w (idx mod 64)).
Qed.

Lemma bits_unset_spec b idx : bits_ok b -> 0 <= idx < nbits b ->
  exists b', bits_unset b idx = Some b' /\ assigns b b' idx false.
Proof.
  intros Hok Hi. unfold bits_unset. bit_op b idx. eexists. split; [done|].
  pose proof (toggle_assigns b idx w (bit_of b idx) Hok Hi Hw Hr) as Ha.
  unfold bit_of in Ha. rewrite Hw in Ha. by destruct (Z.testbit w (idx mod 64)).
Qed.

Lemma bits_flip_spec b idx : bits_ok b -> 0 <= idx < nbits b ->
  exists b', bits_flip b idx = Some b' /\ assigns b b' idx (negb (bit_of b idx)).
Proof.
  intros Hok Hi. unfold bits_flip. bit_op b idx. eexists. split; [done|].
  pose proof (toggle_assigns b idx w true Hok Hi Hw Hr) as Ha. by rewrite xorb_true_r in Ha.
Qed.

Lemma bits_clear_spec b : bits_ok b -> bits_ok (bits_clear b) /\ nbits (bits_clear b) = nbits b /\
  forall j, bit_of (bits_clear b) j = false.
Proof.
  intros [Hn Hd (ws & Hb & Hl & Hw)]. split; [|split; [done|]].
  - split; [done..|]. exists (replicate (length ws) 0). simpl. rewrite Hb. split; [done|].
    split; [by rewrite length_replicate|]. apply Forall_replicate. lia.
  - intros j. unfold bit_of, word_at, bits_clear. simpl. rewrite Hb. simpl.
    destruct (replicate (length ws) 0 !! Z.to_nat (j / 64)) as [w|] eqn:Hw'; [|done].
    apply lookup_replicate in Hw' as [-> _]. apply Z.bits_0.
Qed.

(** ** Serialization *)

Definition bits_bytes (b : Bits) : list Z :=
  le_bytes 4 (nbits b) ++ (default [] (bdata b) ≫= le_bytes 8).

Lemma Bits_serialize_bytes b s : bits_ok b -> Bits_serialize b s = Some (put_data (bits_bytes b) s).
Proof.
  intros [_ _ (ws & Hb & _ & _)]. unfold Bits_serialize, bits_bytes. rewrite Hb. simpl.
  rewrite (fold_put_ints (fun w => w)). unfold put_int, put_data. rewrite host_bytes_htole.
  simpl. by rewrite <- (assoc_L (++)).
Qed.

Lemma parses_Bits b : bits_ok b -> parses Bits_unserialize (bits_bytes b) b.
Proof.
  destruct b as [bd n nd]. intros [Hn Hd (ws & Hb & Hl & Hw)]. simpl in Hn, Hd, Hb, Hl. subst bd.
  unfold Bits_unserialize, bits_bytes.
  change (default [] (bdata (mkBits (Some ws) n nd))) with ws. cbn [nbits].
  eapply parses_bind; [apply parses_le; simpl; lia|].
  pose proof (parses_many (get_le 8) (le_bytes 8) ws) as Hp. rewrite Hl, Hd in Hp. rewrite Hd.
  apply (parses_fmap _ (fun ws => mkBits (Some ws) n (words_for n))), Hp.
  eapply Forall_impl; [exact Hw|]. intros w Hr. by apply parses_le.
Qed.
End Bits.
