(* ===== verification/Certs.v ===== *)
(** * Identities, replica configuration and the certificate interface

    [include/hotstuff/entity.h] (ReplicaInfo, ReplicaConfig) and the abstract
    classes PubKey, PrivKey, PartCert and QuorumCert of
    [include/hotstuff/crypto.h].  HotStuffCore is polymorphic in the
    certificate implementation through virtual functions; here that interface
    is the type class [CertScheme], whose laws [CertSchemeLaws] are what the
    consensus proofs use and what the implementations (DummyCerts,
    SecpCerts) discharge. *)

From stdpp Require Import strings.
From S2P Require Import Prelude.

Abbreviation ReplicaID := Z (only parsing).

(** Values the program treats as opaque: 256-bit digests, peer identifiers
    and keys. *)
Class KeyTypes := {
  uint256 : Type;
  uint256_eq_dec :: EqDecision uint256;
  uint256_countable :: Countable uint256;
  uint256_null : uint256;               (* uint256_t() *)
  PeerId : Type;
  PubKey : Type;
  PrivKey : Type;
}.

Section Config.
Context `{KeyTypes}.

(** struct ReplicaInfo *)
Record ReplicaInfo := mkReplicaInfo {
  ri_id : ReplicaID;
  ri_peer_id : PeerId;
  ri_pubkey : PubKey;
}.

(** class ReplicaConfig; the two counters are [size_t]. *)
Record ReplicaConfig := mkReplicaConfig {
  replica_map : gmap Z ReplicaInfo;
  nreplicas : Z;
  nmajority : Z;
}.

Definition ReplicaConfig_new : ReplicaConfig := mkReplicaConfig ∅ 0 0.

(** [unordered_map::insert] keeps an existing entry; the counter is
    incremented all the same. *)
Definition config_add_replica (rid : ReplicaID) (info : ReplicaInfo)
    (c : ReplicaConfig) : ReplicaConfig :=
  mkReplicaConfig
    (match replica_map c !! rid with
     | Some _ => replica_map c
     | None => <[rid := info]> (replica_map c)
     end)
    (u64 (nreplicas c + 1)) (nmajority c).

(** [None] is the HotStuffError "rid %s not found". *)
Definition get_info (c : ReplicaConfig) (rid : ReplicaID) : option ReplicaInfo :=
  replica_map c !! rid.
Definition get_pubkey (c : ReplicaConfig) (rid : ReplicaID) : option PubKey :=
  ri_pubkey <$> get_info c rid.
Definition get_peer_id (c : ReplicaConfig) (rid : ReplicaID) : option PeerId :=
  ri_peer_id <$> get_info c rid.

(** The replicas a configuration knows. *)
Definition config_ids (c : ReplicaConfig) : gset Z := dom (replica_map c).

Lemma get_pubkey_ids c rid : is_Some (get_pubkey c rid) <-> rid ∈ config_ids c.
Proof. unfold get_pubkey, get_info, config_ids. by rewrite fmap_is_Some, elem_of_dom. Qed.
End Config.

(** The virtual functions of PartCert, QuorumCert and HotStuffCore's factory
    methods.  [None] results are C++ exceptions. *)
Class CertScheme `{KeyTypes} := {
  part_cert : Type;
  quorum_cert : Type;
  create_part_cert : PrivKey -> uint256 -> part_cert;
  pc_obj_hash : part_cert -> uint256;
  pc_verify : part_cert -> PubKey -> bool;
  create_quorum_cert : ReplicaConfig -> uint256 -> quorum_cert;
  quorum_cert_dummy : quorum_cert;      (* new QuorumCertDummy() *)
  qc_obj_hash : quorum_cert -> uint256;
  add_part : quorum_cert -> ReplicaID -> part_cert -> option quorum_cert;
  compute : quorum_cert -> quorum_cert;
  qc_verify : quorum_cert -> ReplicaConfig -> option bool;
}.

(** What the consensus layer relies on.  [qc_carries c qc rid]: the
    certificate holds a signature on its object hash that verifies under the
    public key [c] gives to [rid].  [qc_valid] holds of the certificates the
    program reads from the network. *)
Class CertSchemeLaws `{CertScheme} := {
  qc_valid : quorum_cert -> Prop;
  qc_carries : ReplicaConfig -> quorum_cert -> ReplicaID -> Prop;
  create_part_cert_obj k h : pc_obj_hash (create_part_cert k h) = h;
  create_quorum_cert_obj c h : qc_obj_hash (create_quorum_cert c h) = h;
  compute_obj qc : qc_obj_hash (compute qc) = qc_obj_hash qc;
  add_part_obj qc rid pc qc' :
    add_part qc rid pc = Some qc' -> qc_obj_hash qc' = qc_obj_hash qc;
  qc_verify_quorum c qc : qc_valid qc ->
    qc_verify qc c = Some true ->
    exists signers : gset Z,
      nmajority c <= Z.of_nat (size signers) /\ signers ⊆ config_ids c /\
      forall rid, rid ∈ signers -> qc_carries c qc rid;
}.
