(* ===== verification/Crypto.v ===== *)
(** * Certificates

    The implementations of PartCert and QuorumCert in
    [include/hotstuff/crypto.h] and [src/crypto.cpp]: the dummy ones and the
    multi-signature of secp256k1 signatures, with their wire format, and the
    proof that the latter satisfies the interface of Certs. *)

From Stdlib Require Import ZArith Lia.
From S2P Require Import Prelude Bytes Stream Blob Certs.

(** A digest is kept as the four words of its Blob. *)
Definition digest : Type := list Z.
Definition digest_ok (d : digest) : Prop := blob_ok (mkBlob d true).

Section Digest.
Context `{Host}.

(** operator<< of a loaded digest, operator bytearray_t, and operator>>. *)
Definition put_digest (d : digest) (s : DataStream) : DataStream := Blob_serialize (mkBlob d true) s.
Definition digest_bytes (d : digest) : list Z := into_bytearray (put_digest d DataStream_new).
Definition get_digest : SM digest := words <$> Blob_unserialize.

Lemma put_digest_bytes d s : put_digest d s = put_data (digest_bytes d) s.
Proof. unfold digest_bytes, put_digest. by rewrite !Blob_serialize_bytes. Qed.

Lemma digest_bytes_blob d : digest_bytes d = blob_bytes (mkBlob d true).
Proof. unfold digest_bytes, put_digest. by rewrite Blob_serialize_bytes. Qed.

Lemma parses_map {A B} (m : SM A) (f : A -> B) l a : parses m l a -> parses (f <$> m) l (f a).
Proof.
  intros Hm s rest Hr. destruct (Hm s rest Hr) as (s' & He & Hr').
  exists s'. split; [|done]. unfold fmap, M_fmap. by rewrite He.
Qed.

Lemma parses_digest d : digest_ok d -> parses get_digest (digest_bytes d) d.
Proof.
  intros Hd. rewrite digest_bytes_blob. apply (parses_map _ words _ (mkBlob d true)).
  by apply parses_Blob.
Qed.
End Digest.

(** ** Dummy certificates *)

Section Dummy.
Context `{Host}.

(** PartCertDummy and QuorumCertDummy hold the object hash only. *)
Record PartCertDummy := mkPartDummy { pcd_obj : digest }.
Record QuorumCertDummy := mkQuorumDummy { qcd_obj : digest }.

Definition PartCertDummy_verify {K} (c : PartCertDummy) (k : K) : bool := true.
Definition QuorumCertDummy_verify {K} (c : QuorumCertDummy) (k : K) : bool := true.
Definition QuorumCertDummy_add_part {P} (c : QuorumCertDummy) (rid : Z) (p : P) : QuorumCertDummy := c.
Definition QuorumCertDummy_compute (c : QuorumCertDummy) : QuorumCertDummy := c.

Definition PartCertDummy_serialize (c : PartCertDummy) (s : DataStream) : DataStream :=
  put_digest (pcd_obj c) (put_int 4 0 s).
Definition PartCertDummy_unserialize : SM PartCertDummy :=
  _ ← get_int 4; d ← get_digest; mret (mkPartDummy d).
Definition QuorumCertDummy_serialize (c : QuorumCertDummy) (s : DataStream) : DataStream :=
  put_digest (qcd_obj c) (put_int 4 1 s).
Definition QuorumCertDummy_unserialize : SM QuorumCertDummy :=
  _ ← get_int 4; d ← get_digest; mret (mkQuorumDummy d).

Lemma dummy_roundtrip (t : Z) d (s : DataStream) : 0 <= t < 2 ^ 32 -> digest_ok d ->
  exists l, put_digest d (put_int 4 t s) = put_data l s /\
    parses (_ ← get_int 4; d ← get_digest; mret d) l d.
Proof.
  intros Ht Hd. exists (host_bytes 4 t ++ digest_bytes d). split.
  - rewrite put_digest_bytes. unfold put_int, put_data. simpl. by rewrite <- (assoc_L (++)).
  - eapply parses_bind; [by apply parses_host_int|].
    apply (parses_fmap _ (fun d => d)). by apply parses_digest.
Qed.
End Dummy.

(** ** Signatures

    The functions of libsecp256k1 that SigSecp256k1 calls; [fresh_sig] is the
    object before it is signed or read. *)
Class SigScheme := {
  Sig : Type;
  SigPub : Type;
  SigPriv : Type;
  fresh_sig : Sig;
  ecdsa_sign : SigPriv -> list Z -> option Sig;
  ecdsa_verify : Sig -> list Z -> SigPub -> bool;
  serialize_compact : Sig -> list Z;
  parse_compact : list Z -> option Sig;
}.

Class SigSchemeLaws `{SigScheme} := {
  serialize_compact_length s : length (serialize_compact s) = 64%nat;
  parse_serialize_compact s : parse_compact (serialize_compact s) = Some s;
}.

Section Secp.
Context `{Host} `{SigScheme}.

(** SigSecp256k1::verify and sign: the message must have 32 bytes, and the
    library must make a signature. *)
Definition sig_verify (s : Sig) (msg : list Z) (pk : SigPub) : option bool :=
  if decide (length msg = 32%nat) then Some (ecdsa_verify s msg pk) else None.
Definition sig_sign (k : SigPriv) (msg : list Z) : option Sig :=
  if decide (length msg = 32%nat) then ecdsa_sign k msg else None.

(** SigSecp256k1::serialize / unserialize *)
Definition put_sig (s : Sig) (st : DataStream) : DataStream := put_data (serialize_compact s) st.
Definition get_sig : SM Sig :=
  l ← get_data_inplace 64; from_option EParse (parse_compact l).

(** class PartCertSecp256k1 *)
Record PartCertSecp := mkPartSecp { pc_obj : digest; pc_sig : Sig }.
Definition PartCertSecp_new (k : SigPriv) (h : digest) : option PartCertSecp :=
  sg ← sig_sign k (digest_bytes h); Some (mkPartSecp h sg).

Definition PartCertSecp_verify (c : PartCertSecp) (pk : SigPub) : option bool :=
  sig_verify (pc_sig c) (digest_bytes (pc_obj c)) pk.
Definition PartCertSecp_serialize (c : PartCertSecp) (s : DataStream) : DataStream :=
  put_sig (pc_sig c) (put_digest (pc_obj c) s).
Definition PartCertSecp_unserialize : SM PartCertSecp :=
  d ← get_digest; sg ← get_sig; mret (mkPartSecp d sg).

(** class QuorumCertSecp256k1 *)
Record QuorumCertSecp := mkQuorumSecp { q_obj : digest; rids : Bits; sigs : gmap Z Sig }.

(** The constructor: the bit vector is allocated, then cleared. *)
Definition QuorumCertSecp_new (junk : list Z) (nreplicas : Z) (h : digest) : QuorumCertSecp :=
  mkQuorumSecp h (bits_clear (Bits_new junk (u32 nreplicas))) ∅.

(** add_part: [None] is the exception, or a write out of bounds. *)
Definition QuorumCertSecp_add_part (qc : QuorumCertSecp) (rid : Z) (pc : PartCertSecp)
    : option QuorumCertSecp :=
  if decide (pc_obj pc = q_obj qc) then
    r ← bits_set (rids qc) rid;
    Some (mkQuorumSecp (q_obj qc) r
            (match sigs qc !! rid with Some _ => sigs qc | None => <[rid := pc_sig pc]> (sigs qc) end))
  else None.

Definition QuorumCertSecp_compute (qc : QuorumCertSecp) : QuorumCertSecp := qc.

(** The loops over [i] from 0 to [rids.size()]. *)
Definition indices (qc : QuorumCertSecp) : list Z := seqZ 0 (bits_size (rids qc)).

(** verify: the replica configuration is seen through get_pubkey. [None] is
    an exception of get_pubkey or undefined behaviour (an index out of the
    bit vector, or a bit without its signature, which operator[] would
    create uninitialised). *)
Fixpoint verify_loop (pub : Z -> option SigPub) (qc : QuorumCertSecp) (ixs : list Z) : option bool :=
  match ixs with
  | [] => Some true
  | i :: ixs =>
    b ← bits_get (rids qc) i;
    if b =? 0 then verify_loop pub qc ixs else
    sg ← sigs qc !! u16 i;
    pk ← pub (u16 i);
    ok ← sig_verify sg (digest_bytes (q_obj qc)) pk;
    if ok : bool then verify_loop pub qc ixs else Some false
  end.

Definition QuorumCertSecp_verify (pub : Z -> option SigPub) (nmajority : Z) (qc : QuorumCertSecp)
    : option bool :=
  if Z.of_nat (size (sigs qc)) <? nmajority then Some false
  else verify_loop pub qc (indices qc).

(** verify(config, vpool): a task per signature, then the conjunction of what
    promise::all collects, which throws when there are no tasks. *)
Fixpoint verify_tasks (pub : Z -> option SigPub) (qc : QuorumCertSecp) (ixs : list Z)
    : option (list (Sig * SigPub)) :=
  match ixs with
  | [] => Some []
  | i :: ixs =>
    b ← bits_get (rids qc) i;
    if b =? 0 then verify_tasks pub qc ixs else
    pk ← pub (u16 i);
    sg ← sigs qc !! u16 i;
    ts ← verify_tasks pub qc ixs;
    Some ((sg, pk) :: ts)
  end.

Definition QuorumCertSecp_verify_async (pub : Z -> option SigPub) (nmajority : Z)
    (qc : QuorumCertSecp) : option bool :=
  if Z.of_nat (size (sigs qc)) <? nmajority then Some false else
  ts ← verify_tasks pub qc (indices qc);
  rs ← mapM (fun t => sig_verify t.1 (digest_bytes (q_obj qc)) t.2) ts;
  if decide (ts = []) then None else Some (forallb id rs).

(** serialize: [None] is sigs.at throwing or an index out of bounds. *)
Fixpoint put_sigs (qc : QuorumCertSecp) (ixs : list Z) (s : DataStream) : option DataStream :=
  match ixs with
  | [] => Some s
  | i :: ixs =>
    b ← bits_get (rids qc) i;
    if b =? 0 then put_sigs qc ixs s else
    sg ← sigs qc !! u16 i;
    put_sigs qc ixs (put_sig sg s)
  end.

Definition QuorumCertSecp_serialize (qc : QuorumCertSecp) (s : DataStream) : option DataStream :=
  s ← Bits_serialize (rids qc) (put_digest (q_obj qc) s);
  put_sigs qc (indices qc) s.

Fixpoint get_sigs (b : Bits) (ixs : list Z) (m : gmap Z Sig) : SM (gmap Z Sig) :=
  match ixs with
  | [] => mret m
  | i :: ixs =>
    x ← from_option EUndefined (bits_get b i);
    if x =? 0 then get_sigs b ixs m else
    sg ← get_sig;
    get_sigs b ixs (<[u16 i := sg]> m)
  end.

Definition QuorumCertSecp_unserialize : SM QuorumCertSecp :=
  d ← get_digest;
  b ← Bits_unserialize;
  m ← get_sigs b (seqZ 0 (bits_size b)) ∅;
  mret (mkQuorumSecp d b m).

(** ** Well-formed quorum certificates *)

Definition set_bit (b : Bits) (i : Z) : Prop := 0 <= i < nbits b /\ bit_of b i = true.

(** A signature for every set bit, and no other. *)
Record qc_ok (qc : QuorumCertSecp) : Prop := {
  qo_bits : bits_ok (rids qc);
  qo_obj : digest_ok (q_obj qc);
  qo_sig : forall i, set_bit (rids qc) i -> is_Some (sigs qc !! u16 i);
  qo_bit : forall k, is_Some (sigs qc !! k) -> exists i, set_bit (rids qc) i /\ u16 i = k;
}.

Lemma digest_bytes_length d : digest_ok d -> length (digest_bytes d) = 32%nat.
Proof. intros [Hl _]. rewrite digest_bytes_blob. by apply blob_bytes_length. Qed.

Lemma Bits_new_ok junk n : 0 <= n < 2 ^ 32 - 64 -> (Z.to_nat (words_for n) <= length junk)%nat ->
  Forall (fun w => 0 <= w < 2 ^ 64) junk -> bits_ok (Bits_new junk n).
Proof.
  intros Hn Hj Hw. split; [done..|]. eexists. split; [done|]. split.
  - rewrite length_take. simpl. lia.
  - by apply Forall_take.
Qed.

Lemma QuorumCertSecp_new_ok junk n h : 0 <= n < 2 ^ 32 - 64 -> digest_ok h ->
  (Z.to_nat (words_for n) <= length junk)%nat -> Forall (fun w => 0 <= w < 2 ^ 64) junk ->
  qc_ok (QuorumCertSecp_new junk n h).
Proof.
  intros Hn Hh Hj Hw. pose proof (Bits_new_ok junk n Hn Hj Hw) as Hb.
  unfold QuorumCertSecp_new. rewrite u32_small by lia.
  destruct (bits_clear_spec _ Hb) as (Hc & Hn' & Hbit). split; simpl; try done.
  - intros i [_ Hi]. by rewrite Hbit in Hi.
  - intros k [? Hk]. by rewrite lookup_empty in Hk.
Qed.

Lemma add_part_qc_ok qc rid pc : qc_ok qc -> 0 <= rid < nbits (rids qc) -> rid < 2 ^ 16 ->
  pc_obj pc = q_obj qc ->
  exists qc', QuorumCertSecp_add_part qc rid pc = Some qc' /\ qc_ok qc' /\ q_obj qc' = q_obj qc /\
    nbits (rids qc') = nbits (rids qc) /\ is_Some (sigs qc' !! rid).
Proof.
  intros [Hb Ho Hs Hk] Hr H16 Hobj. unfold QuorumCertSecp_add_part. rewrite decide_True by done.
  destruct (bits_set_spec (rids qc) rid Hb Hr) as (r & -> & Hb' & Hn & Hbit). simpl.
  assert (u16 rid = rid) as Hu by (apply Z.mod_small; lia).
  set (m := match sigs qc !! rid with Some _ => _ | None => _ end).
  assert (forall k, is_Some (m !! k) <-> k = rid \/ is_Some (sigs qc !! k)) as Hm.
  { intros k. unfold m. destruct (sigs qc !! rid) as [x|] eqn:Hx.
    - split; [by right|]. intros [->|?]; [by rewrite Hx|done].
    - destruct (decide (k = rid)) as [->|].
      + rewrite lookup_insert_eq. split; [by left|by eexists].
      + rewrite lookup_insert_ne by done. naive_solver. }
  eexists. split; [done|]. split; [split; simpl; try done|].
  - intros i [Hi Hbi]. rewrite Hn in Hi. rewrite Hm. rewrite Hbit in Hbi by done.
    case_decide; [subst; by left|]. right. by apply Hs.
  - intros k [->|Hk']%Hm.
    + exists rid. split; [|done]. split; [by rewrite Hn|]. rewrite Hbit by done. by rewrite decide_True.
    + destruct (Hk k Hk') as (i & [Hi Hbi] & <-). exists i. split; [|done].
      split; [by rewrite Hn|]. rewrite Hbit by done. by case_decide.
  - split; [done|]. split; [done|]. apply Hm. by left.
Qed.

(** ** Verification *)

(** Every signature stands at a set bit: what reading a certificate
    establishes, whatever the bytes. *)
Definition sigs_marked (qc : QuorumCertSecp) : Prop :=
  forall k, is_Some (sigs qc !! k) -> exists i, set_bit (rids qc) i /\ u16 i = k.

Lemma verify_loop_sound pub qc ixs : (forall i, i ∈ ixs -> 0 <= i) ->
  verify_loop pub qc ixs = Some true ->
  forall i, i ∈ ixs -> bit_of (rids qc) i = true ->
    exists sg pk, sigs qc !! u16 i = Some sg /\ pub (u16 i) = Some pk /\
      sig_verify sg (digest_bytes (q_obj qc)) pk = Some true.
Proof.
  induction ixs as [|i ixs IH]; intros Hin Hv j Hj Hbit; [by apply elem_of_nil in Hj|].
  simpl in Hv. destruct (bits_get (rids qc) i) as [x|] eqn:Hx; [|done]. simpl in Hv.
  assert (forall y, y ∈ ixs -> 0 <= y) as Hin' by (intros; apply Hin; by right).
  apply bits_get_bit in Hx as ->; [|apply Hin; by left].
  destruct (bit_of (rids qc) i) eqn:Hbi; simpl in Hv.
  - destruct (sigs qc !! u16 i) as [sg|] eqn:Hs; [|done]. simpl in Hv.
    destruct (pub (u16 i)) as [pk|] eqn:Hp; [|done]. simpl in Hv.
    destruct (sig_verify _ _ _) as [[]|] eqn:Hok; simpl in Hv; [|done..].
    apply elem_of_cons in Hj as [->|Hj]; [by exists sg, pk|by apply IH].
  - apply elem_of_cons in Hj as [->|Hj]; [congruence|by apply IH].
Qed.

Lemma indices_range qc i : i ∈ indices qc <-> 0 <= i < nbits (rids qc).
Proof. unfold indices, bits_size. rewrite elem_of_seqZ. lia. Qed.

(** A verified certificate holds, for a quorum of distinct replicas, a
    signature on its object that verifies under the replica's key. *)
Lemma verify_quorum pub nmaj qc : sigs_marked qc -> QuorumCertSecp_verify pub nmaj qc = Some true ->
  nmaj <= Z.of_nat (size (dom (sigs qc))) /\
  forall k, k ∈ dom (sigs qc) -> exists sg pk, sigs qc !! k = Some sg /\ pub k = Some pk /\
    sig_verify sg (digest_bytes (q_obj qc)) pk = Some true.
Proof.
  intros Hok Hv. unfold QuorumCertSecp_verify in Hv.
  destruct (Z.of_nat (size (sigs qc)) <? nmaj) eqn:Hlt; [done|]. apply Z.ltb_ge in Hlt.
  split; [by rewrite size_dom|]. intros k Hk%elem_of_dom.
  destruct (Hok k Hk) as (i & [Hi Hbit] & <-).
  apply (verify_loop_sound pub qc (indices qc)); [|done| |done].
  - intros j. rewrite indices_range. lia.
  - by apply indices_range.
Qed.

(** The asynchronous verification gives the same answer when every set bit
    has a public key. *)
Lemma verify_async_loop pub qc ixs : qc_ok qc -> (forall i, i ∈ ixs -> 0 <= i < nbits (rids qc)) ->
  (forall i, set_bit (rids qc) i -> is_Some (pub (u16 i))) ->
  exists ts rs, verify_tasks pub qc ixs = Some ts /\
    mapM (fun t => sig_verify t.1 (digest_bytes (q_obj qc)) t.2) ts = Some rs /\
    verify_loop pub qc ixs = Some (forallb id rs).
Proof.
  intros Hok. induction ixs as [|i ixs IH]; intros Hin Hpub; [by exists [], []|].
  destruct IH as (ts & rs & Ht & Hr & Hv); [intros; apply Hin; by right|done|].
  assert (0 <= i < nbits (rids qc)) as Hi by (apply Hin; by left).
  simpl. rewrite bits_get_spec by (apply Hok || done). simpl.
  destruct (bit_of (rids qc) i) eqn:Hb; simpl; [|by exists ts, rs].
  destruct (Hpub i ltac:(done)) as [pk Hpk]. destruct (qo_sig _ Hok i ltac:(done)) as [sg Hsg].
  assert (sig_verify sg (digest_bytes (q_obj qc)) pk =
    Some (ecdsa_verify sg (digest_bytes (q_obj qc)) pk)) as Hsv.
  { unfold sig_verify. rewrite digest_bytes_length by apply Hok. done. }
  rewrite Hpk, Hsg. simpl. rewrite Ht, Hsv. simpl.
  eexists ((sg, pk) :: ts), (ecdsa_verify sg (digest_bytes (q_obj qc)) pk :: rs).
  split; [done|]. split; [simpl; by rewrite Hsv; simpl; rewrite Hr|].
  simpl. by destruct (ecdsa_verify _ _ _).
Qed.

(** No tasks are made only when no bit is set. *)
Lemma verify_tasks_nil pub qc ixs : qc_ok qc -> (forall i, i ∈ ixs -> 0 <= i < nbits (rids qc)) ->
  verify_tasks pub qc ixs = Some [] <-> forall i, i ∈ ixs -> ~ set_bit (rids qc) i.
Proof.
  intros Hok. induction ixs as [|i ixs IH]; intros Hin; simpl; [split; [by intros _ i ?%elem_of_nil|done]|].
  assert (0 <= i < nbits (rids qc)) as Hi by (apply Hin; by left).
  rewrite bits_get_spec by (apply Hok || done). simpl. setoid_rewrite elem_of_cons.
  destruct (bit_of (rids qc) i) eqn:Hb; simpl.
  - split; [|intros Hn; by destruct (Hn i ltac:(by left))].
    destruct (pub (u16 i)), (sigs qc !! u16 i); simpl; try done. by destruct (verify_tasks pub qc ixs).
  - rewrite IH by (intros; apply Hin; by right). split; [|by auto].
    intros Hn j [->|Hj]; [|by apply Hn]. intros [_ Hs]. congruence.
Qed.

Lemma verify_async_same pub nmaj qc : qc_ok qc ->
  (forall i, set_bit (rids qc) i -> is_Some (pub (u16 i))) ->
  QuorumCertSecp_verify_async pub nmaj qc =
    if bool_decide (sigs qc = ∅) && (nmaj <=? 0) then None else QuorumCertSecp_verify pub nmaj qc.
Proof.
  intros Hok Hpub. unfold QuorumCertSecp_verify_async, QuorumCertSecp_verify.
  assert (forall i, i ∈ indices qc -> 0 <= i < nbits (rids qc)) as Hix by (intros i; by rewrite indices_range).
  destruct (verify_async_loop pub qc (indices qc) Hok Hix Hpub) as (ts & rs & Ht & Hr & ->).
  rewrite Ht. simpl. rewrite Hr. simpl.
  assert (ts = [] <-> sigs qc = ∅) as Hnil.
  { pose proof (verify_tasks_nil pub qc (indices qc) Hok Hix) as Hn. rewrite Ht in Hn. split.
    - intros ->. apply map_eq_iff. intros k. rewrite lookup_empty. apply eq_None_not_Some. intros Hk.
      destruct (qo_bit _ Hok k Hk) as (i & Hi & _). apply (proj1 Hn eq_refl i); [|done]. apply indices_range, Hi.
    - intros Hs. enough (Some ts = Some []) as [= ->] by done. apply Hn. intros i _ Hi.
      destruct (qo_sig _ Hok i Hi) as [sg Hsg]. by rewrite Hs, lookup_empty in Hsg. }
  destruct (decide (ts = [])) as [He|He].
  - apply Hnil in He as Hs. rewrite bool_decide_eq_true_2, Hs, map_size_empty by done. simpl.
    change (Z.of_nat 0) with 0. cbn [andb]. destruct (Z.ltb_spec 0 nmaj), (Z.leb_spec nmaj 0); done || lia.
  - rewrite bool_decide_eq_false_2 by (by rewrite <- Hnil). done.
Qed.

(** ** Reading certificates *)

Lemma get_sigs_marked b ixs m s :
  wp (get_sigs b ixs m)
    (fun m' _ => forall k, is_Some (m' !! k) -> is_Some (m !! k) \/
       exists i, i ∈ ixs /\ (exists x, bits_get b i = Some x /\ x <> 0) /\ u16 i = k)
    (fun _ _ => True) s.
Proof.
  revert m s. induction ixs as [|i ixs IH]; intros m s; simpl.
  - apply wp_ret. by left.
  - apply wp_bind, wp_from_option; [|done]. intros x Hx. destruct (x =? 0) eqn:Hz.
    + eapply wp_mono; [apply IH| |done]. intros m' ? Hm k Hk. cbn in Hm.
      destruct (Hm k Hk) as [?|(j & ? & ?)]; [by left|right]. exists j. split; [by right|done].
    + apply Z.eqb_neq in Hz. apply wp_bind. unfold wp at 1.
      destruct (get_sig s) as [[sg|e] s1]; [|done].
      eapply wp_mono; [apply IH| |done]. intros m' ? Hm k Hk. cbn in Hm.
      destruct (Hm k Hk) as [Hl|(j & ? & ?)]; [|right; exists j; split; [by right|done]].
      destruct (decide (k = u16 i)) as [->|].
      * right. exists i. split; [by left|]. split; [by exists x|done].
      * left. by rewrite lookup_insert_ne in Hl.
Qed.

Lemma unserialize_marked s :
  wp QuorumCertSecp_unserialize (fun qc _ => sigs_marked qc) (fun _ _ => True) s.
Proof.
  unfold QuorumCertSecp_unserialize. apply wp_bind. unfold wp at 1.
  destruct (get_digest s) as [[d|e] s1]; [|done]. apply wp_bind. unfold wp at 1.
  destruct (Bits_unserialize s1) as [[b|e] s2]; [|done]. apply wp_bind.
  eapply wp_mono; [apply get_sigs_marked| |done]. intros m s3 Hm. apply wp_ret.
  intros k Hk. destruct (Hm k Hk) as [[? Hl]|(i & Hi & (x & Hx & Hz) & <-)].
  - by rewrite lookup_empty in Hl.
  - exists i. apply elem_of_seqZ in Hi. split; [|done]. unfold set_bit. simpl.
    split; [unfold bits_size in Hi; lia|]. apply bits_get_bit in Hx; [|lia]. by destruct (bit_of b i).
Qed.

(** ** Round trip *)

Definition sigs_bytes (qc : QuorumCertSecp) (ixs : list Z) : list Z :=
  ixs ≫= fun i => if bit_of (rids qc) i
                  then match sigs qc !! u16 i with Some sg => serialize_compact sg | None => [] end
                  else [].

Definition qc_bytes (qc : QuorumCertSecp) : list Z :=
  digest_bytes (q_obj qc) ++ bits_bytes (rids qc) ++ sigs_bytes qc (indices qc).

Lemma put_sigs_bytes qc ixs s : qc_ok qc -> (forall i, i ∈ ixs -> 0 <= i < nbits (rids qc)) ->
  put_sigs qc ixs s = Some (put_data (sigs_bytes qc ixs) s).
Proof.
  intros Hok. revert s. induction ixs as [|i ixs IH]; intros s Hin; simpl.
  - unfold put_data. rewrite app_nil_r. by destruct s.
  - assert (0 <= i < nbits (rids qc)) as Hi by (apply Hin; by left).
    rewrite bits_get_spec by (apply Hok || done). simpl.
    destruct (bit_of (rids qc) i) eqn:Hb; simpl.
    + destruct (qo_sig _ Hok i ltac:(done)) as [sg ->]. simpl.
      rewrite IH by (intros; apply Hin; by right). unfold put_sig, put_data. simpl.
      by rewrite <- (assoc_L (++)).
    + rewrite IH by (intros; apply Hin; by right). done.
Qed.

Lemma serialize_bytes qc s : qc_ok qc ->
  QuorumCertSecp_serialize qc s = Some (put_data (qc_bytes qc) s).
Proof.
  intros Hok. unfold QuorumCertSecp_serialize. rewrite put_digest_bytes.
  rewrite Bits_serialize_bytes by apply Hok. simpl. rewrite put_sigs_bytes; [|done|].
  - unfold qc_bytes, put_data. simpl. by rewrite <- !(assoc_L (++)).
  - intros i. by rewrite indices_range.
Qed.

Context `{!SigSchemeLaws}.

Lemma parses_sig sg : parses get_sig (serialize_compact sg) sg.
Proof.
  unfold get_sig. rewrite <- (app_nil_r (serialize_compact sg)). eapply parses_bind.
  - pose proof (parses_get_data (serialize_compact sg)) as Hp.
    rewrite serialize_compact_length in Hp. exact Hp.
  - rewrite parse_serialize_compact. apply parses_ret.
Qed.

(** Reading the signatures back rebuilds the map, index by index. *)
Lemma parses_sigs qc ixs m : qc_ok qc -> (forall i, i ∈ ixs -> 0 <= i < nbits (rids qc)) ->
  (forall k v, m !! k = Some v -> sigs qc !! k = Some v) ->
  (forall k, is_Some (sigs qc !! k) -> is_Some (m !! k) \/ exists i, i ∈ ixs /\
     bit_of (rids qc) i = true /\ u16 i = k) ->
  parses (get_sigs (rids qc) ixs m) (sigs_bytes qc ixs) (sigs qc).
Proof.
  intros Hok. revert m. induction ixs as [|i ixs IH]; intros m Hin Hsub Hcov; simpl.
  - assert (m = sigs qc) as ->; [|apply parses_ret]. apply map_eq. intros k.
    destruct (m !! k) as [v|] eqn:Hm; [by rewrite (Hsub k v)|].
    destruct (sigs qc !! k) as [v|] eqn:Hs; [|done].
    destruct (Hcov k ltac:(by eexists)) as [[? ?]|(? & Hn & _)]; [congruence|by apply elem_of_nil in Hn].
  - assert (0 <= i < nbits (rids qc)) as Hi by (apply Hin; by left).
    rewrite bits_get_spec by (apply Hok || done). simpl.
    unfold sigs_bytes. cbn [mbind list_bind]. fold (sigs_bytes qc ixs).
    rewrite <- (app_nil_l (_ ++ _)). eapply parses_bind; [apply parses_ret|].
    destruct (bit_of (rids qc) i) eqn:Hb; simpl.
    + destruct (qo_sig _ Hok i ltac:(done)) as [sg Hsg]. rewrite Hsg.
      eapply parses_bind; [apply parses_sig|]. apply IH.
      * intros; apply Hin; by right.
      * intros k v. rewrite lookup_insert. case_decide; [subst; by intros [= <-]|apply Hsub].
      * intros k Hk. destruct (decide (k = u16 i)) as [->|]; [left; by rewrite lookup_insert_eq|].
        rewrite lookup_insert_ne by done. destruct (Hcov k Hk) as [?|(j & Hj & ? & ?)]; [by left|].
        apply elem_of_cons in Hj as [->|Hj]; [congruence|right; by exists j].
    + apply IH; [intros; apply Hin; by right|done|]. intros k Hk.
      destruct (Hcov k Hk) as [?|(j & Hj & ? & ?)]; [by left|].
      apply elem_of_cons in Hj as [->|Hj]; [congruence|right; by exists j].
Qed.

Lemma parses_qc qc : qc_ok qc -> parses QuorumCertSecp_unserialize (qc_bytes qc) qc.
Proof.
  intros Hok. unfold QuorumCertSecp_unserialize, qc_bytes.
  eapply parses_bind; [apply parses_digest, Hok|].
  eapply parses_bind; [apply parses_Bits, Hok|].
  destruct qc as [d b m]. apply (parses_fmap _ (fun m => mkQuorumSecp d b m)). simpl.
  apply (parses_sigs (mkQuorumSecp d b m)); [done|..].
  - intros i. apply (indices_range (mkQuorumSecp d b m)).
  - intros k v. by rewrite lookup_empty.
  - intros k Hk. right. destruct (qo_bit _ Hok k Hk) as (i & [Hi Hb] & <-).
    exists i. split; [|done]. by apply (indices_range (mkQuorumSecp d b m)).
Qed.
End Secp.

(** ** The interface of the consensus layer

    QuorumCertSecp256k1 implements CertScheme: the laws hold of every
    certificate that was read from bytes.  The core's interface has no failure
    of create_part_cert, whose constructor throws when the private key is not
    one; the certificate is then left unsigned. *)
Section Instance.
Context `{Host} `{SigScheme}.
(** What PeerId is (a hash of the TLS certificate) and what freshly
    allocated memory holds. *)
Variables (Peer : Type) (junk : list Z).

#[local] Instance secp_keys : KeyTypes := {|
  uint256 := digest; uint256_null := replicate 4 0;
  PeerId := Peer; PubKey := SigPub; PrivKey := SigPriv |}.

#[local] Instance secp_certs : CertScheme := {|
  part_cert := PartCertSecp;
  quorum_cert := QuorumCertSecp;
  create_part_cert k h := default (mkPartSecp h fresh_sig) (PartCertSecp_new k h);
  pc_obj_hash pc := pc_obj pc;
  pc_verify pc pk := default false (PartCertSecp_verify pc pk);
  create_quorum_cert c h := QuorumCertSecp_new junk (nreplicas c) h;
  quorum_cert_dummy := mkQuorumSecp (replicate 4 0) (mkBits None 0 0) ∅;
  qc_obj_hash qc := q_obj qc;
  add_part qc rid pc := QuorumCertSecp_add_part qc rid pc;
  compute qc := QuorumCertSecp_compute qc;
  qc_verify qc c := QuorumCertSecp_verify (get_pubkey c) (nmajority c) qc;
|}.

(** The certificate holds a signature of replica [rid] that verifies. *)
Definition secp_carries (c : ReplicaConfig) (x : QuorumCertSecp) (rid : Z) : Prop :=
  exists sg pk, sigs x !! rid = Some sg /\ get_pubkey c rid = Some pk /\
    sig_verify sg (digest_bytes (q_obj x)) pk = Some true.

#[local, refine] Instance secp_laws : CertSchemeLaws := {|
  qc_valid x := sigs_marked x;
  qc_carries c x rid := secp_carries c x rid |}.
Proof.
  - intros k h. simpl. unfold PartCertSecp_new. by destruct (sig_sign k _).
  - done.
  - done.
  - intros qc rid pc qc' Ha. simpl in *. unfold QuorumCertSecp_add_part in Ha.
    case_decide; [|done]. destruct (bits_set (rids qc) rid); [|done]. by injection Ha as <-.
  - intros c qc Hv Hver. simpl in *. destruct (verify_quorum _ _ _ Hv Hver) as [Hn Hall].
    exists (dom (sigs qc)). split; [done|]. split; [|done].
    intros k Hk. destruct (Hall k Hk) as (_ & pk & _ & Hpk & _).
    apply (proj1 (get_pubkey_ids c k)). by exists pk.
Defined.
End Instance.
