(* ===== verification/SecpCerts.v ===== *)
(** * The keys and signatures of a replica

    PubKeySecp256k1, PrivKeySecp256k1 and SigSecp256k1 of
    [include/hotstuff/crypto.h] on the library's objects, and the signature
    scheme of Crypto made of them, with its laws. *)

From Stdlib Require Import Zmod.
From S2P Require Import Prelude Bytes Limbs Primality Curve CurveGroup CurveOrder ModExp Scalar4x64 Field5x52 Group GroupLaw Ecmult EcmultLaw Sha256 Nonces EcmultGen EcmultGenLaw Ecdsa Keys Secp SecpLaw Der Stream Blob Certs Crypto.

#[local] Opaque zmul gen.

(** ** Objects *)

Definition byteb (b : Z) : bool := (0 <=? b) && (b <? 256).
Definition bytesb (n : nat) (l : list Z) : bool := Nat.eqb (length l) n && forallb byteb l.

Lemma bytesb_spec n l : bytesb n l = true <-> length l = n /\ Forall byte_ok l.
Proof.
  unfold bytesb. rewrite andb_true_iff, Nat.eqb_eq, forallb_forall, Forall_forall.
  split; intros [Hl Hb]; (split; [done|]); intros x Hx.
  - specialize (Hb x (proj1 (list_elem_of_In _ _) Hx)). unfold byteb in Hb. unfold byte_ok. lia.
  - specialize (Hb x (proj2 (list_elem_of_In _ _) Hx)). unfold byteb. unfold byte_ok in Hb. lia.
Qed.

Section Objects.
Context `{Host}.

(** What SigSecp256k1::data holds after sign or unserialize: reduced scalars. *)
Definition sigb (l : list Z) : bool :=
  bytesb 64 l && (sval (signature_load l).1 <? order) && (sval (signature_load l).2 <? order).
Definition sig_object : Type := { l : list Z | sigb l = true }.

(** What PubKeySecp256k1::data holds once set: the library loads it. *)
Definition keyb (l : list Z) : bool := bytesb 64 l && match pubkey_load l with Ret _ => true | _ => false end.
Definition key_object : Type := { l : list Z | keyb l = true }.

(** PrivKeySecp256k1::data: 32 bytes. *)
Definition priv_object : Type := { l : list Z | bytesb 32 l = true }.

(** [l] as an object, if it is one. *)
Definition as_object (p : list Z -> bool) (l : list Z) : option { l : list Z | p l = true } :=
  match decide (p l = true) with left e => Some (l ↾ e) | right _ => None end.

Lemma as_object_eq p l (o : { l : list Z | p l = true }) : proj1_sig o = l -> as_object p l = Some o.
Proof.
  destruct o as [l' e]. cbn. intros ->. unfold as_object. destruct (decide _) as [e'|]; [|done].
  do 2 f_equal. apply (proof_irrel e' e).
Qed.

Lemma as_object_some p l : p l = true -> exists o, as_object p l = Some o /\ proj1_sig o = l.
Proof. intros e. exists (l ↾ e). split; [|done]. by apply as_object_eq. Qed.

Lemma bytes_scalar_limbs l : length l = 32%nat -> Forall byte_ok l -> limbs_ok (bytes_scalar l).
Proof.
  intros Hl Hok. assert (forall k, (k <= 24)%nat -> 0 <= host_val (take 8 (drop k l)) < 2 ^ 64) as Hw.
  { intros k Hk. pose proof (host_val_range (take 8 (drop k l)) ltac:(by apply Forall_take, Forall_drop)) as Hr.
    by rewrite length_take, length_drop, Nat.min_l in Hr by lia. }
  split; cbn [bytes_scalar d0 d1 d2 d3]; [apply (Hw 0%nat)|apply Hw..]; lia.
Qed.

Lemma words_back l : length l = 8%nat -> Forall byte_ok l -> host_bytes 8 (host_val l) = l.
Proof. intros Hl Hok. rewrite <- Hl. by apply host_bytes_val. Qed.

Lemma scalar_bytes_of l : length l = 32%nat -> Forall byte_ok l -> scalar_bytes (bytes_scalar l) = l.
Proof.
  intros Hl Hok. unfold scalar_bytes, bytes_scalar. cbn [d0 d1 d2 d3].
  rewrite !words_back by (rewrite ?length_take, ?length_drop; lia || (by repeat first [apply Forall_take|apply Forall_drop])).
  rewrite (take_ge (drop 24 l)) by (rewrite length_drop; lia).
  replace (drop 24 l) with (drop 8 (drop 16 l)) by (by rewrite drop_drop). rewrite (take_drop 8 (drop 16 l)).
  replace (drop 16 l) with (drop 8 (drop 8 l)) by (by rewrite drop_drop). rewrite (take_drop 8 (drop 8 l)). apply take_drop.
Qed.

Lemma sig_object_rep (o : sig_object) : exists r s, sig_rep (proj1_sig o) r s /\
  (signature_load (proj1_sig o)).1 = bytes_scalar (take 32 (proj1_sig o)) /\ sval (signature_load (proj1_sig o)).1 = r.
Proof.
  destruct o as [l e]. cbn [proj1_sig]. unfold sigb in e. rewrite !andb_true_iff, !Z.ltb_lt in e. destruct e as [[[Hl Hok]%bytesb_spec Hr] Hs].
  unfold signature_load in *. cbn [fst snd] in *.
  assert (length (take 32 l) = 32 /\ length (drop 32 l) = 32)%nat as [L1 L2] by (rewrite length_take, length_drop; lia).
  assert (Forall byte_ok (take 32 l) /\ Forall byte_ok (drop 32 l)) as [O1 O2] by (split; [by apply Forall_take|by apply Forall_drop]).
  do 2 eexists. split; [|split; reflexivity]. exists (bytes_scalar (take 32 l)), (bytes_scalar (drop 32 l)).
  split; [|split; [split; [by apply bytes_scalar_limbs|exact Hr]|split; [split; [by apply bytes_scalar_limbs|exact Hs]|done]]].
  unfold signature_save. by rewrite !scalar_bytes_of, take_drop.
Qed.

Lemma scalar_bytes_props a : length (scalar_bytes a) = 32%nat /\ Forall byte_ok (scalar_bytes a).
Proof.
  unfold scalar_bytes. split; [rewrite !length_app, !host_bytes_length; done|]. repeat apply Forall_app_2; apply host_bytes_ok.
Qed.

Lemma sig_rep_sigb sig r s : sig_rep sig r s -> sigb sig = true.
Proof.
  intros (ar & as_ & -> & Hr & Hs & _). unfold sigb. rewrite signature_load_save by (apply Hr || apply Hs). cbn [fst snd].
  rewrite !andb_true_iff, !Z.ltb_lt. pose proof (scalar_ok_range ar Hr). pose proof (scalar_ok_range as_ Hs).
  split; [split|]; [|lia..]. apply bytesb_spec. destruct (scalar_bytes_props ar), (scalar_bytes_props as_).
  unfold signature_save. split; [rewrite length_app; lia|by apply Forall_app_2].
Qed.
End Objects.

(** ** The classes *)

Section Classes.
Context `{Host}.
(** The two default contexts, the memory of a call and the fuel of the loops. *)
Context (fuel : nat) (mem : memory) (sign_ctx verify_ctx : secp_context).

(** PubKeySecp256k1::serialize; the library's abort is [None]. *)
Definition pubkey_bytes (k : key_object) : option (list Z) :=
  match ec_pubkey_serialize 33 (proj1_sig k) EC_COMPRESSED with
  | Ret (_, output, _) => Some output
  | _ => None
  end.
Definition put_pubkey (k : key_object) (s : DataStream) : option DataStream :=
  l ← pubkey_bytes k; Some (put_data l s).

(** PubKeySecp256k1::unserialize: the exceptions become one. *)
Definition get_pubkey_object : SM key_object :=
  l ← get_data_inplace 33;
  from_option EParse (let '(ret, data) := ec_pubkey_parse l in if ret then as_object keyb data else None).

(** PrivKeySecp256k1::serialize, unserialize and from_rand; RAND_bytes gives a
    result and the buffer. *)
Definition put_privkey (k : priv_object) (s : DataStream) : DataStream := put_data (proj1_sig k) s.
Definition get_privkey : SM priv_object := l ← get_data_inplace 32; from_option EParse (as_object (bytesb 32) l).
Definition privkey_from_rand (rand : Z * priv_object) : option priv_object :=
  if rand.1 =? 0 then None else Some rand.2.

(** PrivKeySecp256k1::get_pubkey, the constructor PubKeySecp256k1(priv_key). *)
Definition privkey_get_pubkey (k : priv_object) : option key_object :=
  match ec_pubkey_create sign_ctx (proj1_sig k) with
  | Ret (true, data) => as_object keyb data
  | _ => None
  end.

(** The fields of the signature scheme; no signature when the library refuses
    the key or does not end within the fuel. *)
Lemma zero_sigb : sigb (zeros 64) = true.
Proof. unfold sigb, signature_load, bytes_scalar, host_val. by destruct big_endian. Qed.

Definition scheme_sign (k : priv_object) (msg : list Z) : option sig_object :=
  match secp_sign fuel mem sign_ctx msg (proj1_sig k) None None with
  | Ret (true, data) => as_object sigb data
  | _ => None
  end.

Definition scheme_verify (s : sig_object) (msg : list Z) (k : key_object) : bool :=
  match secp_verify mem verify_ctx (proj1_sig s) msg (proj1_sig k) with Ret b => b | _ => false end.

Definition scheme_serialize (s : sig_object) : list Z := signature_serialize_compact (proj1_sig s).
Definition scheme_parse (l : list Z) : option sig_object :=
  let '(ret, data) := signature_parse_compact l in if ret then as_object sigb data else None.

(** The signature scheme of the certificates. *)
Definition secp_scheme : SigScheme := {|
  Sig := sig_object; SigPub := key_object; SigPriv := priv_object;
  fresh_sig := zeros 64 ↾ zero_sigb; ecdsa_sign := scheme_sign; ecdsa_verify := scheme_verify;
  serialize_compact := scheme_serialize; parse_compact := scheme_parse |}.

(** ** The laws *)

Lemma compact_spec sig r s : sig_rep sig r s ->
  signature_serialize_compact sig = be_bytes 32 r ++ be_bytes 32 s /\
  signature_parse_compact (be_bytes 32 r ++ be_bytes 32 s) = (true, sig).
Proof.
  intros (ar & as_ & -> & Hr & Hs & <- & <-). unfold signature_serialize_compact, signature_parse_compact.
  rewrite signature_load_save, !get_b32_spec by (apply Hr || apply Hs). split; [reflexivity|].
  rewrite take_app_length', drop_app_length' by (symmetry; apply be_bytes_length).
  assert (forall a, scalar_ok a -> scalar_set_b32 (be_bytes 32 (sval a)) = (a, 0)) as Hb.
  { intros a Ha. pose proof (scalar_ok_range a Ha) as Hra.
    assert (be_val (be_bytes 32 (sval a)) = sval a) as Hv by (rewrite be_val_bytes; apply Z.mod_small; unfold order in *; lia).
    destruct (set_b32_range _ _ (be_bytes_length 32 (sval a)) (be_bytes_ok _ _) ltac:(lia) eq_refl) as (Hok & Hsv & Ho).
    destruct (scalar_set_b32 _) as [a' o]. cbn [fst snd] in *. f_equal; [|exact Ho].
    apply sval_inj; [apply Hok|apply Ha|]. by rewrite Hsv. }
  by rewrite !Hb.
Qed.

Lemma secp_scheme_laws : @SigSchemeLaws secp_scheme.
Proof.
  split; cbn [Sig serialize_compact parse_compact secp_scheme]; intros o;
    destruct (sig_object_rep o) as (r & s & Hrep & _); destruct (compact_spec _ _ _ Hrep) as [Hser Hpar].
  - unfold scheme_serialize. rewrite Hser, length_app, !be_bytes_length. done.
  - unfold scheme_parse, scheme_serialize. rewrite Hser, Hpar. by apply as_object_eq.
Qed.
End Classes.

(** ** Keys on the wire *)

Section Wire.
Context `{Host}.

Lemma save_bytes e : length (pubkey_save e) = 64%nat /\ Forall byte_ok (pubkey_save e).
Proof.
  unfold pubkey_save, fes_bytes. split; [rewrite !length_app, !host_bytes_length; done|].
  repeat apply Forall_app_2; apply host_bytes_ok.
Qed.

Lemma pk_rep_keyb pk P : length pk = 64%nat -> Forall byte_ok pk -> pk_rep pk P -> keyb pk = true.
Proof.
  intros Hl Hok (_ & _ & e & Hload & _). unfold keyb. rewrite Hload, andb_true_r. by apply bytesb_spec.
Qed.

Lemma privkey_get_pubkey_spec sign_ctx (k : priv_object) : signs sign_ctx -> scalar_nonce (proj1_sig k) = true ->
  exists pk, privkey_get_pubkey sign_ctx k = Some pk /\ pk_rep (proj1_sig pk) (zmul (be_val (proj1_sig k)) gen).
Proof.
  intros Hs Hn. destruct k as [k e]. cbn [proj1_sig] in *. apply bytesb_spec in e as Hk.
  destruct (pubkey_create_spec sign_ctx k Hs Hk) as (ret & data & Hc & Hret & Hrep). rewrite Hn in Hret. subst ret.
  destruct (Hrep eq_refl) as ([e' ->] & Hrep').
  unfold privkey_get_pubkey. cbn [proj1_sig]. rewrite Hc.
  destruct (save_bytes e') as [Hl Hok].
  destruct (as_object_some keyb (pubkey_save e') (pk_rep_keyb _ _ Hl Hok Hrep')) as (pk & Hpk & Hp). exists pk. split; [exact Hpk|]. by rewrite Hp.
Qed.

(** The 33 bytes that put_pubkey writes are read as a key of the same point. *)
Lemma pubkey_wire (pk : key_object) P : pk_rep (proj1_sig pk) P ->
  exists l pk', pubkey_bytes pk = Some l /\ point_bytes true P = Some l /\ parses get_pubkey_object l pk' /\ pk_rep (proj1_sig pk') P.
Proof.
  intros Hrep. destruct (pubkey_serialize_object 33 _ P true Hrep ltac:(done)) as (l & Hl & Hs).
  pose proof (point_bytes_length true P l Hl) as Hlen. destruct (parse_point_bytes true P l (proj1 Hrep) Hl) as (data & Hp & Hdrep).
  assert (exists e', data = pubkey_save e') as [e' ->].
  { unfold ec_pubkey_parse in Hp. destruct (eckey_pubkey_parse l) as [e'|]; [|done]. injection Hp as <-. by exists e'. }
  destruct (save_bytes e') as [Hdl Hdok].
  destruct (as_object_some keyb (pubkey_save e') (pk_rep_keyb _ _ Hdl Hdok Hdrep)) as (pk' & Hpk & Hpp).
  exists l, pk'. split; [|split; [exact Hl|split; [|by rewrite Hpp]]].
  - unfold pubkey_bytes. rewrite Hs. rewrite Hlen. change (Z.to_nat 33 - 33)%nat with 0%nat. cbn [zeros replicate]. by rewrite app_nil_r.
  - unfold get_pubkey_object. rewrite <- (app_nil_r l). eapply parses_bind.
    + pose proof (parses_get_data l) as Hg. rewrite Hlen in Hg. exact Hg.
    + rewrite Hp, Hpk. apply parses_ret.
Qed.
End Wire.

(** ** Properties *)

Lemma digest_bytes32 `{Host} d : digest_ok d -> bytes32 (digest_bytes d).
Proof.
  intros Hd. split; [by apply digest_bytes_length|]. rewrite digest_bytes_blob. unfold blob_bytes.
  induction (words _) as [|w ws IH]; cbn [mbind list_bind]; [constructor|]. apply Forall_app_2; [apply le_bytes_ok|exact IH].
Qed.

Definition sig_bytes `{Host} (o : sig_object) : list Z := proj1_sig o.

Section Votes.
Context `{Host}.
Context (fuel : nat) (mem : memory) (cs cv : secp_context).
Hypothesis Hmem : mem_ok mem.
#[local] Instance the_scheme : SigScheme := secp_scheme fuel mem cs cv.

Lemma key_nonce l : 0 < be_val l < order -> scalar_nonce l = true.
Proof. intros Hl. unfold scalar_nonce. apply andb_true_iff. rewrite negb_true_iff, Z.ltb_lt, Z.eqb_neq. lia. Qed.

Lemma scheme_verify_spec (o : sig_object) msg (pk : key_object) Q : verifies cv -> bytes32 msg -> pk_rep (proj1_sig pk) Q ->
  exists r s, sig_rep (proj1_sig o) r s /\
    (scheme_verify mem cv o msg pk = true <-> s <= order / 2 /\ ecdsa_valid r s (digest_scalar msg) Q).
Proof.
  intros Hv Hm Hpk. destruct (sig_object_rep o) as (r & s & Hrep & _). exists r, s. split; [exact Hrep|].
  destruct (secp_verify_spec mem cv _ r s msg _ Q Hmem Hv Hrep Hm Hpk) as (b & Hb & Hiff). unfold scheme_verify. by rewrite Hb.
Qed.

(** When the first suitable nonce comes within the fuel and its abscissa is not
    a multiple of the order, a vote is made, and it verifies. *)
Lemma vote_made (k : priv_object) d n x : signs cs -> verifies cv -> digest_ok d -> 0 < be_val (proj1_sig k) < order ->
  let nonce n := be_val (candidate n (nonce_stream (digest_bytes d) (proj1_sig k) None)) in
  first (fun n => suitable (be_val (proj1_sig k)) (digest_scalar (digest_bytes d)) (nonce n)) n -> (n < fuel)%nat ->
  abscissa (zmul (nonce n) gen) = Some x -> x mod order <> 0 ->
  exists c, PartCertSecp_new k d = Some c /\
    forall pk : key_object, pk_rep (proj1_sig pk) (zmul (be_val (proj1_sig k)) gen) -> PartCertSecp_verify c pk = Some true.
Proof.
  intros Hs Hv Hd Hk. cbv zeta. intros Hn Hlt Hx Hxn. pose proof (digest_bytes32 d Hd) as Hm.
  pose proof (proj2_sig k) as Hk32. cbv beta in Hk32. apply bytesb_spec in Hk32.
  destruct (default_sign_first fuel mem cs (digest_bytes d) (proj1_sig k) None Hmem Hs Hm Hk32 ltac:(discriminate) n Hk Hn Hlt)
    as (sig & r & s & Hsign & Hrep & (_ & x' & s0 & Hx' & Hr & _) & Hlow & Hval).
  rewrite Hx in Hx'. injection Hx' as <-. rewrite <- Hr in Hxn. specialize (Hval Hxn).
  destruct (as_object_some sigb sig (sig_rep_sigb sig r s Hrep)) as (o & Ho & Hos).
  eexists. split.
  { unfold PartCertSecp_new, sig_sign. rewrite decide_True by apply Hm. cbn [ecdsa_sign the_scheme secp_scheme]. unfold scheme_sign.
    rewrite Hsign, Ho. reflexivity. }
  intros pk Hpk. unfold PartCertSecp_verify, sig_verify. cbn [pc_sig pc_obj]. rewrite decide_True by apply Hm. f_equal.
  destruct (secp_verify_spec mem cv sig r s (digest_bytes d) _ _ Hmem Hv Hrep Hm Hpk) as (b & Hb & Hiff).
  cbn [ecdsa_verify the_scheme secp_scheme]. unfold scheme_verify. rewrite Hos, Hb. apply Hiff. split; [exact Hlow|exact Hval].
Qed.

Lemma part_cert_wire (c : PartCertSecp) : digest_ok (pc_obj c) ->
  parses PartCertSecp_unserialize (digest_bytes (pc_obj c) ++ scheme_serialize (pc_sig c)) c.
Proof.
  intros Hd. unfold PartCertSecp_unserialize. eapply parses_bind; [by apply parses_digest|].
  destruct c as [d o]. apply (parses_fmap _ (mkPartSecp d)). exact (@parses_sig (secp_scheme fuel mem cs cv) (secp_scheme_laws fuel mem cs cv) o).
Qed.

Lemma cert_verify_spec (c : PartCertSecp) (pk : key_object) Q : verifies cv -> digest_ok (pc_obj c) -> pk_rep (proj1_sig pk) Q ->
  exists r s, sig_rep (sig_bytes (pc_sig c)) r s /\
    exists b, PartCertSecp_verify c pk = Some b /\
      (b = true <-> s <= order / 2 /\ ecdsa_valid r s (digest_scalar (digest_bytes (pc_obj c))) Q).
Proof.
  intros Hv Hd Hpk. pose proof (digest_bytes32 _ Hd) as Hm.
  destruct (scheme_verify_spec (pc_sig c) (digest_bytes (pc_obj c)) pk Q Hv Hm Hpk) as (r & s & Hrep & Hiff).
  exists r, s. split; [exact Hrep|]. eexists. split; [|exact Hiff].
  unfold PartCertSecp_verify, sig_verify. by rewrite decide_True by apply Hm.
Qed.
End Votes.

(** C12. From the bytes of a secret key to the check of a vote: with the two contexts
    that crypto.cpp creates, a valid secret key has a public key, which
    survives the wire as a key of the same point; when the first suitable nonce
    comes within the fuel and its abscissa is not a multiple of the group
    order, a vote is made with the secret key, and it verifies under the public
    key; votes come back from their serializations; and any vote verifies under
    a public key exactly when it holds an ECDSA signature with a low [s] of its
    block's hash. *)
Theorem votes_verify `{Host} fuel mem k d : mem_ok mem -> (2 <= fuel)%nat -> 0 < be_val (proj1_sig k) < order -> digest_ok d ->
  exists cs cv pk, context_create fuel mem CONTEXT_SIGN = Ret cs /\ context_create fuel mem CONTEXT_VERIFY = Ret cv /\
    privkey_get_pubkey cs k = Some pk /\
    (exists l pk', pubkey_bytes pk = Some l /\ parses get_pubkey_object l pk' /\
       pk_rep (proj1_sig pk') (zmul (be_val (proj1_sig k)) gen)) /\
    let H1 := secp_scheme fuel mem cs cv in
    let nonce n := be_val (candidate n (nonce_stream (digest_bytes d) (proj1_sig k) None)) in
    (forall n x, first (fun n => suitable (be_val (proj1_sig k)) (digest_scalar (digest_bytes d)) (nonce n)) n -> (n < fuel)%nat ->
       abscissa (zmul (nonce n) gen) = Some x -> x mod order <> 0 ->
       exists c, @PartCertSecp_new _ H1 k d = Some c /\
         forall pk', pk_rep (proj1_sig pk') (zmul (be_val (proj1_sig k)) gen) -> @PartCertSecp_verify _ H1 c pk' = Some true) /\
    forall (c : @PartCertSecp H1), digest_ok (@pc_obj H1 c) ->
      parses (@PartCertSecp_unserialize _ H1) (digest_bytes (@pc_obj H1 c) ++ scheme_serialize (@pc_sig H1 c)) c /\
      forall (pk' : key_object) Q, pk_rep (proj1_sig pk') Q ->
      exists r s, sig_rep (sig_bytes (@pc_sig H1 c)) r s /\
        exists b, @PartCertSecp_verify _ H1 c pk' = Some b /\
          (b = true <-> s <= order / 2 /\ ecdsa_valid r s (digest_scalar (digest_bytes (@pc_obj H1 c))) Q).
Proof.
  intros Hmem Hf Hk Hd.
  destruct (context_create_spec fuel mem CONTEXT_SIGN Hmem Hf eq_refl) as (cs & Hcs & Hs & _). specialize (Hs eq_refl).
  destruct (context_create_spec fuel mem CONTEXT_VERIFY Hmem Hf eq_refl) as (cv & Hcv & _ & Hv). specialize (Hv eq_refl).
  destruct (privkey_get_pubkey_spec cs k Hs (key_nonce _ Hk)) as (pk & Hpk & Hrep).
  exists cs, cv, pk. split; [exact Hcs|]. split; [exact Hcv|]. split; [exact Hpk|]. split; [|split].
  - destruct (pubkey_wire pk _ Hrep) as (l & pk' & Hb & _ & Hpar & Hrep'). exists l, pk'. split; [exact Hb|]. split; [exact Hpar|exact Hrep'].
  - intros n x Hn Hlt Hx Hxn. exact (vote_made fuel mem cs cv Hmem k d n x Hs Hv Hd Hk Hn Hlt Hx Hxn).
  - intros c Hc. split; [by apply part_cert_wire|]. intros pk' Q Hpk'. exact (cert_verify_spec fuel mem cs cv Hmem c pk' Q Hv Hc Hpk').
Qed.
