(* ===== verification/SecpRuns.v ===== *)
(** * The library at work

    A memory, a secret key and messages at which the theorems on the library's
    operations apply. *)

From Stdlib Require Import Zmod Ring Field.
From Bignums Require Import BigZ.
From S2P Require Import Prelude Bytes Limbs Primality Curve CurveGroup CurveOrder ModExp Scalar4x64 Field5x52 FieldImpl Group GroupLaw Ecmult EcmultLaw Sha256 Nonces StaticTable GenPoints EcmultGen EcmultGenLaw Ecdsa Keys Secp SecpLaw Stream Blob Certs Crypto SecpCerts.

#[local] Opaque zmul gen candidate nonce_stream suitable digest_scalar be_val.

#[local] Instance run_little : Host := false.

Definition run_mem : memory := mkMemory (replicate 64 7) (replicate table_g gej_clear) (replicate table_g (mkGe fe_clear fe_clear false))
  (replicate table_g fe_clear) (mkGen None scalar_clear gej_clear)
  (mkStrauss (replicate table_a gej_clear) (replicate table_a fe_clear) (replicate table_a (mkGe fe_clear fe_clear false))).

Lemma run_mem_ok : mem_ok run_mem.
Proof.
  split; cbn [run_mem mem_hash mem_prej mem_prea mem_zr mem_strauss]; try apply length_replicate.
  - split; [apply length_replicate|by apply Forall_replicate].
  - split_and!; apply length_replicate.
Qed.

Definition run_key : list Z := replicate 31 0 ++ [5].
Definition run_msg : list Z := replicate 32 9.

Lemma run_key32 : bytes32 run_key.
Proof. split; [reflexivity|]. apply Forall_app_2; [by apply Forall_replicate|by repeat constructor]. Qed.
Lemma run_msg32 : bytes32 run_msg.
Proof. split; [reflexivity|]. by apply Forall_replicate. Qed.

Lemma secp_verify_correct_witness : exists ctx, context_create 2 run_mem CONTEXT_VERIFY = Ret ctx /\
  forall sig r s msg32 pk Q, sig_rep sig r s -> bytes32 msg32 -> pk_rep pk Q ->
  exists b, secp_verify run_mem ctx sig msg32 pk = Ret b /\
    (b = true <-> s <= order / 2 /\ ecdsa_valid r s (digest_scalar msg32) Q).
Proof. exact (secp_verify_correct 2 run_mem run_mem_ok (le_n 2)). Defined.

(** The abscissa of a multiple of the generator, from its Jacobian coordinates. *)
Definition jabscissa (J : jac) (x : Z) : bool :=
  match J with
  | None => false
  | Some (X, _, Z) => (0 <=? x) && (x <? fp) && bzero (BigZ.sub X (bmul (BigZ.of_Z x) (bmul Z Z)))
  end.

Lemma jabscissa_spec k x : jabscissa (jmul k jgen) x = true -> abscissa (zmul (Zpos k) gen) = Some x.
Proof.
  rewrite zmul_pos. pose proof (jmul_spec k _ _ gen_on_curve jgen_spec) as HJ.
  destruct (jmul k jgen) as [[[X Y] Z]|]; [|done]. destruct (pmul k gen) as [[px py]|]; [|done]. destruct HJ as (Hz & HX & _).
  cbn [jabscissa abscissa]. rewrite !andb_true_iff, Z.leb_le, Z.ltb_lt. intros [[H0 H1] E%bzero_sub].
  rewrite !B_mul, B_of_Z, HX in E. f_equal. apply of_Z_eq; [lia|].
  apply (fld_cancel (B Z * B Z)%F); [by apply fld_mul_nz|]. rewrite !(Zmod.mul_comm (B Z * B Z)%F). by rewrite E.
Qed.

(** The first nonce for a digest is in range and gives a signature. *)
Definition nonce_check (d m x : Z) (l : list Z) : bool :=
  let k := be_val l in
  (0 <? k) && (k <? order) && jabscissa (jmul (Z.to_pos k) jgen) x &&
  negb ((m + x mod order * d) mod order =? 0) && negb (x mod order =? 0).

Lemma nonce_check_spec d m x l : nonce_check d m x l = true ->
  suitable d m (be_val l) /\ abscissa (zmul (be_val l) gen) = Some x /\ x mod order <> 0.
Proof.
  unfold nonce_check. cbv zeta. rewrite !andb_true_iff, !negb_true_iff, !Z.ltb_lt, !Z.eqb_neq. intros [[[[H0 H1] Hx%jabscissa_spec] Hs] Hr].
  rewrite Z2Pos.id in Hx by exact H0. split; [|by split]. split; [by split|]. exists x. by split.
Qed.

Lemma first_0 good : good 0%nat -> first good 0.
Proof. intros H. split; [exact H|]. lia. Qed.

Definition run_x : Z := 57426859463718535828434822032186016318528060122992045188644477061413569294125.

Lemma run_nonce_check : nonce_check (be_val run_key) (digest_scalar run_msg) run_x
  (candidate 0 (nonce_stream run_msg run_key (Some run_msg))) = true.
Proof. vm_compute. reflexivity. Qed.

Lemma secp_sign_correct_witness : exists ctx sig r s, context_create 3 run_mem CONTEXT_SIGN = Ret ctx /\
  secp_sign 3 run_mem ctx run_msg run_key None (Some run_msg) = Ret (true, sig) /\
  sig_rep sig r s /\ s <= order / 2 /\ ecdsa_valid r s (digest_scalar run_msg) (zmul (be_val run_key) gen).
Proof.
  assert (forall l, Some run_msg = Some l -> bytes32 l) as Hdata by (intros l [= <-]; apply run_msg32).
  destruct (secp_sign_correct 3 run_mem run_msg run_key (Some run_msg) run_mem_ok ltac:(lia) run_msg32 run_key32 Hdata) as (ctx & Hc & _ & H).
  cbv zeta in H. specialize (H (conj eq_refl eq_refl) 0%nat).
  destruct (nonce_check_spec _ _ _ _ run_nonce_check) as (Hgood & Hx & Hnz). exists ctx.
  match type of H with first ?good _ -> _ => specialize (H (first_0 good Hgood) (Nat.lt_0_succ _)) end.
  destruct H as (sig & r & s & Hsign & Hrep & (_ & x & s0 & Hx' & Hr & _) & Hlow & Hval).
  exists sig, r, s. split; [exact Hc|]. split; [exact Hsign|]. split; [exact Hrep|]. split; [exact Hlow|].
  apply Hval. rewrite Hr. rewrite Hx in Hx'. injection Hx' as <-. exact Hnz.
Defined.

(** The compressed encoding of the generator. *)
Definition run_pub : list Z := 2 :: be_bytes 32 gen_x.

Lemma pubkey_encodings_witness : let '(ret, pk) := ec_pubkey_parse run_pub in
  if ret then exists P, pk_rep pk P /\ encodes run_pub P /\
    forall c : bool, exists l, point_bytes c P = Some l /\
      ec_pubkey_serialize (if c then 33 else 65) pk (if c then EC_COMPRESSED else EC_UNCOMPRESSED) = Ret (true, l, Z.of_nat (length l)) /\
      exists pk', ec_pubkey_parse l = (true, pk') /\ pk_rep pk' P
  else (forall P, ~ encodes run_pub P) /\ pk = zeros 64.
Proof. apply (pubkey_encodings run_pub). apply Forall_cons; split; [by split|apply be_bytes_ok]. Defined.

Lemma key_operations_witness : exists ctx, context_create 2 run_mem CONTEXT_VERIFY = Ret ctx /\
  forall pk P, pk_rep pk P ->
    key_result (ec_pubkey_negate pk) (pneg P) /\
    (forall tweak, bytes32 tweak -> be_val tweak < order ->
      key_result (ec_pubkey_tweak_add run_mem ctx pk tweak) (padd P (zmul (be_val tweak) gen)) /\
      key_result (ec_pubkey_tweak_mul run_mem ctx pk tweak) (zmul (be_val tweak) P) /\
      forall seckey, bytes32 seckey -> be_val seckey < order -> P = zmul (be_val seckey) gen ->
        (ec_privkey_tweak_add seckey tweak).1 = negb ((be_val seckey + be_val tweak) mod order =? 0) /\
        ((ec_privkey_tweak_add seckey tweak).1 = true ->
           key_result (ec_pubkey_tweak_add run_mem ctx pk tweak) (zmul (be_val (ec_privkey_tweak_add seckey tweak).2) gen)) /\
        ((ec_privkey_tweak_mul seckey tweak).1 = true ->
           key_result (ec_pubkey_tweak_mul run_mem ctx pk tweak) (zmul (be_val (ec_privkey_tweak_mul seckey tweak).2) gen)) /\
        key_result (ec_pubkey_negate pk) (zmul (be_val (ec_privkey_negate seckey)) gen)) /\
    (forall pks Ps, Forall2 pk_rep pks Ps -> key_result (ec_pubkey_combine (pk :: pks)) (sum_points (P :: Ps))).
Proof. exact (key_operations 2 run_mem run_mem_ok (le_n 2)). Defined.

Lemma run_key_object : bytesb 32 run_key = true.
Proof. reflexivity. Qed.
Definition run_priv : priv_object := run_key ↾ run_key_object.
Definition run_digest : digest := [1; 2; 3; 4].

Lemma run_digest_ok : digest_ok run_digest.
Proof. split; [done|]. by repeat constructor. Qed.

Definition run_vote_x : Z := 30900051743098209269705307728119071988289298910056566513888941210883633300803.

Lemma run_vote_check : nonce_check (be_val (proj1_sig run_priv)) (digest_scalar (digest_bytes run_digest)) run_vote_x
  (candidate 0 (nonce_stream (digest_bytes run_digest) (proj1_sig run_priv) None)) = true.
Proof. vm_compute. reflexivity. Qed.

Lemma votes_verify_witness : exists cs cv pk,
  context_create 2 run_mem CONTEXT_SIGN = Ret cs /\ context_create 2 run_mem CONTEXT_VERIFY = Ret cv /\
  privkey_get_pubkey cs run_priv = Some pk /\
  let H1 := secp_scheme 2 run_mem cs cv in
  exists c l pk', @PartCertSecp_new _ H1 run_priv run_digest = Some c /\
    pubkey_bytes pk = Some l /\ parses get_pubkey_object l pk' /\ @PartCertSecp_verify _ H1 c pk' = Some true.
Proof.
  destruct (votes_verify 2 run_mem run_priv run_digest run_mem_ok (le_n 2) (conj eq_refl eq_refl) run_digest_ok)
    as (cs & cv & pk & Hcs & Hcv & Hpk & (l & pk' & Hl & Hpar & Hrep) & Hvote & _).
  destruct (nonce_check_spec _ _ _ _ run_vote_check) as (Hgood & Hx & Hnz).
  cbv zeta in Hvote. specialize (Hvote 0%nat run_vote_x).
  match type of Hvote with first ?good _ -> _ => specialize (Hvote (first_0 good Hgood) (Nat.lt_0_succ _) Hx Hnz) end.
  destruct Hvote as (c & Hc & Hver).
  exists cs, cv, pk. split; [exact Hcs|]. split; [exact Hcv|]. split; [exact Hpk|].
  exists c, l, pk'. split; [exact Hc|]. split; [exact Hl|]. split; [exact Hpar|]. by apply Hver.
Defined.
