(* ===== verification/Entity.v ===== *)
(** * Blocks and the entity storage

    [include/hotstuff/entity.h]: class Block and class EntityStorage.  A
    [block_t] is a reference-counted pointer; blocks are shared and mutated
    through it, so the model keeps them in an explicit heap and a pointer is
    an index into that heap. *)

From S2P Require Import Prelude Certs.

Abbreviation ptr := nat (only parsing).

Section Entity.
Context `{CertScheme}.

(** The serialized fields of a block, which determine its hash. *)
Record Content := mkContent {
  parent_hashes : list uint256;
  cmds : list uint256;
  qc : option quorum_cert;
  extra : list Z;
}.

(** class Block: the serialized fields, the hash, and the fields derived
    on delivery. *)
Record Block := mkBlock {
  content : Content;
  hash : uint256;
  parents : list ptr;
  qc_ref : option ptr;
  self_qc : option quorum_cert;
  height : Z;                          (* uint32_t *)
  delivered : bool;
  decision : Z;                        (* int8_t *)
  voted : gset Z;
}.

Definition set_parents (ps : list ptr) (b : Block) : Block :=
  mkBlock (content b) (hash b) ps (qc_ref b) (self_qc b) (height b)
    (delivered b) (decision b) (voted b).
Definition set_qc_ref (r : option ptr) (b : Block) : Block :=
  mkBlock (content b) (hash b) (parents b) r (self_qc b) (height b)
    (delivered b) (decision b) (voted b).
Definition set_self_qc (q : option quorum_cert) (b : Block) : Block :=
  mkBlock (content b) (hash b) (parents b) (qc_ref b) q (height b)
    (delivered b) (decision b) (voted b).
Definition set_height (h : Z) (b : Block) : Block :=
  mkBlock (content b) (hash b) (parents b) (qc_ref b) (self_qc b) h
    (delivered b) (decision b) (voted b).
Definition set_delivered (d : bool) (b : Block) : Block :=
  mkBlock (content b) (hash b) (parents b) (qc_ref b) (self_qc b) (height b)
    d (decision b) (voted b).
Definition set_decision (d : Z) (b : Block) : Block :=
  mkBlock (content b) (hash b) (parents b) (qc_ref b) (self_qc b) (height b)
    (delivered b) d (voted b).
Definition set_voted (v : gset Z) (b : Block) : Block :=
  mkBlock (content b) (hash b) (parents b) (qc_ref b) (self_qc b) (height b)
    (delivered b) (decision b) v.
Definition set_qc (q : option quorum_cert) (b : Block) : Block :=
  mkBlock (mkContent (parent_hashes (content b)) (cmds (content b)) q
             (extra (content b)))
    (hash b) (parents b) (qc_ref b) (self_qc b) (height b)
    (delivered b) (decision b) (voted b).
End Entity.

(** salticidae::get_hash of a block: the digest of its serialization
    (BlockCodec gives it for the code's byte format). *)
Class BlockHash `{CertScheme} := get_hash : Content -> uint256.

(** Collision freedom, as a left inverse of the digest. *)
Class CollisionFree `{BlockHash} := {
  unhash : uint256 -> option Content;
  unhash_get_hash c : unhash (get_hash c) = Some c;
}.

Section Constructors.
Context `{BlockHash}.

(** Block(bool delivered, int8_t decision): the genesis block. *)
Definition genesis_content : Content :=
  mkContent [] [] (Some quorum_cert_dummy) [].
Definition Block_genesis (dlv : bool) (dec : Z) : Block :=
  mkBlock genesis_content (get_hash genesis_content) [] None None 0 dlv dec ∅.

(** Block() followed by the field assignments of Block::unserialize. *)
Definition Block_parsed (c : Content) : Block :=
  mkBlock c (get_hash c) [] None None 0 false 0 ∅.

(** The constructor HotStuffCore::on_propose uses. *)
Definition Block_proposed (c : Content) (ps : list ptr) (h : Z)
    (r : option ptr) : Block :=
  mkBlock c (get_hash c) ps r None h false 0 ∅.

(** struct BlockHeightCmp *)
Definition BlockHeightCmp (a b : Block) : bool := height a <? height b.
End Constructors.

(** class Command: the storage only looks at a command's hash. *)
Class CommandType `{KeyTypes} := {
  Command : Type;
  cmd_get_hash : Command -> uint256;
}.

Section Storage.
Context `{BlockHash} `{!CommandType}.

(** class EntityStorage *)
Record EntityStorage := mkStorage {
  blk_cache : gmap uint256 ptr;
  cmd_cache : gmap uint256 Command;
}.

Definition EntityStorage_new : EntityStorage := mkStorage ∅ ∅.

Definition is_blk_delivered (hp : list Block) (st : EntityStorage) (h : uint256) : bool :=
  match blk_cache st !! h with
  | None => false
  | Some p => match hp !! p with Some b => delivered b | None => false end
  end.

Definition is_blk_fetched (st : EntityStorage) (h : uint256) : bool :=
  bool_decide (is_Some (blk_cache st !! h)).

(** add_blk(const block_t &): the cached pointer if the hash is known. *)
Definition add_blk_ptr (st : EntityStorage) (h : uint256) (p : ptr)
    : ptr * EntityStorage :=
  match blk_cache st !! h with
  | Some q => (q, st)
  | None => (p, mkStorage (<[h := p]> (blk_cache st)) (cmd_cache st))
  end.

(** add_blk(Block &&, config): allocates the block; when the hash is known
    the fresh copy is dropped again and the cached pointer returned. *)
Definition add_blk (hp : list Block) (st : EntityStorage) (b : Block)
    : ptr * list Block * EntityStorage :=
  match blk_cache st !! hash b with
  | Some q => (q, hp, st)
  | None =>
    (length hp, hp ++ [b],
     mkStorage (<[hash b := length hp]> (blk_cache st)) (cmd_cache st))
  end.

Definition find_blk (st : EntityStorage) (h : uint256) : option ptr :=
  blk_cache st !! h.

Definition is_cmd_fetched (st : EntityStorage) (h : uint256) : bool :=
  bool_decide (is_Some (cmd_cache st !! h)).

Definition add_cmd (st : EntityStorage) (c : Command) : Command * EntityStorage :=
  match cmd_cache st !! cmd_get_hash c with
  | Some c' => (c', st)
  | None => (c, mkStorage (blk_cache st) (<[cmd_get_hash c := c]> (cmd_cache st)))
  end.

Definition find_cmd (st : EntityStorage) (h : uint256) : option Command :=
  cmd_cache st !! h.

Definition get_cmd_cache_size (st : EntityStorage) : nat := size (cmd_cache st).
Definition get_blk_cache_size (st : EntityStorage) : nat := size (blk_cache st).

(** The reference count of the pointer is the caller's [cnt]. *)
Definition try_release_cmd (st : EntityStorage) (cnt : Z) (c : Command)
    : bool * EntityStorage :=
  if cnt =? 2
  then (true, mkStorage (blk_cache st) (delete (cmd_get_hash c) (cmd_cache st)))
  else (false, st).

Definition try_release_blk (st : EntityStorage) (cnt : Z) (b : Block)
    : bool * EntityStorage :=
  if cnt =? 2
  then (true, mkStorage (delete (hash b) (blk_cache st)) (cmd_cache st))
  else (false, st).
End Storage.
