(* ===== verification/Core.v ===== *)
(** * HotStuffCore

    [include/hotstuff/consensus.h] (class HotStuffCore and the messages
    Proposal, Vote and Finality) and [src/consensus.cpp]: the replica's
    protocol state machine.  Every member function is a computation in the
    state-and-exception monad over the core object; the calls it makes to its
    virtual functions and the promises it resolves are appended, in order, to
    a trace of events.  A promise that is resolved is taken out of the state
    when the code does so; the continuations attached to it belong to the
    pace maker (PaceMaker) and the network layer and run as later
    steps. *)

From stdpp Require Import strings.
From S2P Require Import Prelude Certs Entity.

Section Core.
Context `{BlockHash} `{!CommandType}.

(** struct Proposal *)
Record Proposal := mkProposal { proposer : ReplicaID; prop_blk : ptr }.

(** struct Vote *)
Record Vote := mkVote {
  voter : ReplicaID;
  vote_blk_hash : uint256;
  vote_cert : part_cert;
}.

(** struct Finality *)
Record Finality := mkFinality {
  fin_rid : ReplicaID;
  fin_decision : Z;
  cmd_idx : Z;
  cmd_height : Z;
  cmd_hash : uint256;
  fin_blk_hash : uint256;
}.

(** Calls to virtual functions, resolved promises, and uses of the private
    key ([EvSign]). *)
Inductive Event :=
  | EvDecide (f : Finality)                      (* do_decide *)
  | EvConsensus (blk : ptr)                      (* do_consensus *)
  | EvBroadcastProposal (p : Proposal)           (* do_broadcast_proposal *)
  | EvVote (last_proposer : ReplicaID) (v : Vote) (* do_vote *)
  | EvSign (h : uint256)                         (* create_part_cert *)
  | EvQcFinish (blk : ptr)                       (* qc_waiting[blk].resolve *)
  | EvPropose (p : Proposal)                     (* propose_waiting.resolve *)
  | EvReceiveProposal (p : Proposal)             (* receive_proposal_waiting.resolve *)
  | EvHqcUpdate.                                 (* hqc_update_waiting.resolve *)

(** Exceptions the code throws, and the undefined behaviour it can reach. *)
Inductive Error :=
  | ENotDelivered        (* "block not delivered" *)
  | EQcNotFetched        (* "block referred by qc not fetched" *)
  | ESafetyBreached      (* "safety breached :( " *)
  | EEmptyParents        (* "empty parents" *)
  | ENotHigher           (* "new block should be higher than vheight" *)
  | EPartCert            (* "PartCert does match the block hash" *)
  | EOutOfRange          (* vector index past the end: undefined behaviour *)
  | ENull                (* null pointer dereference: undefined behaviour *)
  | ENoFuel.             (* the model's loop bound, never reached *)

Record HotStuffCore := mkCore {
  hp : list Block;                     (* the heap of blocks *)
  b0 : ptr;
  hqc : option (ptr * quorum_cert);    (* std::pair; null before on_init *)
  b_lock : ptr;
  b_exec : ptr;
  vheight : Z;                         (* uint32_t *)
  priv_key : PrivKey;
  tails : gset nat;
  config : ReplicaConfig;
  qc_waiting : gset nat;
  vote_disabled : bool;
  id : ReplicaID;
  storage : EntityStorage;
  trace : list Event;                  (* newest first *)
}.

Definition set_heap h s := mkCore h (b0 s) (hqc s) (b_lock s) (b_exec s) (vheight s)
  (priv_key s) (tails s) (config s) (qc_waiting s) (vote_disabled s) (id s) (storage s) (trace s).
Definition set_hqc q s := mkCore (hp s) (b0 s) q (b_lock s) (b_exec s) (vheight s)
  (priv_key s) (tails s) (config s) (qc_waiting s) (vote_disabled s) (id s) (storage s) (trace s).
Definition set_b_lock l s := mkCore (hp s) (b0 s) (hqc s) l (b_exec s) (vheight s)
  (priv_key s) (tails s) (config s) (qc_waiting s) (vote_disabled s) (id s) (storage s) (trace s).
Definition set_b_exec e s := mkCore (hp s) (b0 s) (hqc s) (b_lock s) e (vheight s)
  (priv_key s) (tails s) (config s) (qc_waiting s) (vote_disabled s) (id s) (storage s) (trace s).
Definition set_vheight v s := mkCore (hp s) (b0 s) (hqc s) (b_lock s) (b_exec s) v
  (priv_key s) (tails s) (config s) (qc_waiting s) (vote_disabled s) (id s) (storage s) (trace s).
Definition set_tails t s := mkCore (hp s) (b0 s) (hqc s) (b_lock s) (b_exec s) (vheight s)
  (priv_key s) t (config s) (qc_waiting s) (vote_disabled s) (id s) (storage s) (trace s).
Definition set_config c s := mkCore (hp s) (b0 s) (hqc s) (b_lock s) (b_exec s) (vheight s)
  (priv_key s) (tails s) c (qc_waiting s) (vote_disabled s) (id s) (storage s) (trace s).
Definition set_qc_waiting w s := mkCore (hp s) (b0 s) (hqc s) (b_lock s) (b_exec s) (vheight s)
  (priv_key s) (tails s) (config s) w (vote_disabled s) (id s) (storage s) (trace s).
Definition set_vote_disabled f s := mkCore (hp s) (b0 s) (hqc s) (b_lock s) (b_exec s) (vheight s)
  (priv_key s) (tails s) (config s) (qc_waiting s) f (id s) (storage s) (trace s).
Definition set_storage st s := mkCore (hp s) (b0 s) (hqc s) (b_lock s) (b_exec s) (vheight s)
  (priv_key s) (tails s) (config s) (qc_waiting s) (vote_disabled s) (id s) st (trace s).
Definition set_trace t s := mkCore (hp s) (b0 s) (hqc s) (b_lock s) (b_exec s) (vheight s)
  (priv_key s) (tails s) (config s) (qc_waiting s) (vote_disabled s) (id s) (storage s) t.

Abbreviation CM := (M HotStuffCore Error).

(** Dereference of a [block_t], assignment through it, and the index 0 of
    a vector. *)
Definition deref (p : ptr) : CM Block :=
  s ← get; from_option ENull (hp s !! p).
Definition upd (p : ptr) (f : Block -> Block) : CM unit :=
  modify (fun s => set_heap (alter f p (hp s)) s).
Definition index0 {A} (l : list A) : CM A := from_option EOutOfRange (head l).
Definition emit (e : Event) : CM unit :=
  modify (fun s => set_trace (e :: trace s) s).

(** HotStuffCore::HotStuffCore *)
Definition HotStuffCore_new (rid : ReplicaID) (k : PrivKey) : HotStuffCore :=
  let g := Block_genesis true 1 in
  let '(p, h, st) := add_blk [] EntityStorage_new g in
  mkCore h p None p p 0 k {[p]} ReplicaConfig_new ∅ false rid st [].

Definition sanity_check_delivered (p : ptr) : CM unit :=
  b ← deref p; if delivered b then mret tt else throw ENotDelivered.

Definition get_delivered_blk (h : uint256) : CM ptr :=
  s ← get;
  match find_blk (storage s) h with
  | None => throw ENotDelivered
  | Some p => b ← deref p; if delivered b then mret p else throw ENotDelivered
  end.

(** The loop [for (const auto &hash: blk->parent_hashes) push_back]. *)
Fixpoint push_parents (p : ptr) (hs : list uint256) : CM unit :=
  match hs with
  | [] => mret tt
  | h :: hs =>
    q ← get_delivered_blk h;
    _ ← upd p (fun b => set_parents (parents b ++ [q]) b);
    push_parents p hs
  end.

Definition on_deliver_blk (p : ptr) : CM bool :=
  blk ← deref p;
  if delivered blk then mret false else
  _ ← upd p (set_parents []);
  _ ← push_parents p (parent_hashes (content blk));
  blk ← deref p;
  p0 ← index0 (parents blk);
  pb ← deref p0;
  _ ← upd p (set_height (u32 (height pb + 1)));
  _ ← match qc (content blk) with
      | None => mret tt
      | Some q =>
        s ← get;
        r ← from_option EQcNotFetched (find_blk (storage s) (qc_obj_hash q));
        upd p (set_qc_ref (Some r))
      end;
  _ ← modify (fun s =>
        set_tails ({[p]} ∪ (tails s ∖ list_to_set (parents blk))) s);
  _ ← upd p (set_delivered true);
  mret true.

(** on_hqc_update, on_propose_ and on_receive_proposal_ resolve the
    current promise and install a fresh one. *)
Definition on_hqc_update : CM unit := emit EvHqcUpdate.
Definition on_propose_ (prop : Proposal) : CM unit := emit (EvPropose prop).
Definition on_receive_proposal_ (prop : Proposal) : CM unit :=
  emit (EvReceiveProposal prop).

Definition on_qc_finish (p : ptr) : CM unit :=
  s ← get;
  if decide (p ∈ qc_waiting s) then
    _ ← emit (EvQcFinish p);
    modify (fun s => set_qc_waiting (qc_waiting s ∖ {[p]}) s)
  else mret tt.

(** async_qc_finish: [true] when the returned promise is already resolved. *)
Definition async_qc_finish (p : ptr) : CM bool :=
  b ← deref p;
  s ← get;
  if nmajority (config s) <=? Z.of_nat (size (voted b)) then mret true
  else _ ← modify (fun s => set_qc_waiting ({[p]} ∪ qc_waiting s) s); mret false.

Definition update_hqc (p : ptr) (q : option quorum_cert) : CM unit :=
  s ← get;
  b ← deref p;
  h ← from_option ENull (hqc s);
  hb ← deref h.1;
  if height hb <? height b then
    q ← from_option ENull q;
    _ ← modify (set_hqc (Some (p, q)));
    on_hqc_update
  else mret tt.

(** The loop of [update] that fills [commit_queue] (returned oldest block
    first) and the block it stops at. *)
Fixpoint commit_walk (fuel : nat) (b : ptr) (queue : list ptr)
    : CM (list ptr * ptr) :=
  match fuel with
  | O => throw ENoFuel
  | S fuel =>
    s ← get;
    blk ← deref b;
    eb ← deref (b_exec s);
    if height eb <? height blk then
      p ← index0 (parents blk);
      commit_walk fuel p (b :: queue)
    else mret (queue, b)
  end.

(** The inner loop over the commands of a committed block. *)
Fixpoint decide_cmds (blk : Block) (i : Z) (cs : list uint256) : CM unit :=
  match cs with
  | [] => mret tt
  | c :: cs =>
    s ← get;
    _ ← emit (EvDecide (mkFinality (id s) 1 (u32 i) (height blk) c (hash blk)));
    decide_cmds blk (i + 1) cs
  end.

Fixpoint commit_blocks (queue : list ptr) : CM unit :=
  match queue with
  | [] => mret tt
  | p :: queue =>
    _ ← upd p (set_decision 1);
    _ ← emit (EvConsensus p);
    blk ← deref p;
    _ ← decide_cmds blk 0 (cmds (content blk));
    commit_blocks queue
  end.

(** The part of [update] after the commit conditions. *)
Definition commit (p : ptr) : CM unit :=
  blk ← deref p;
  qb ← commit_walk (S (Z.to_nat (height blk))) p [];
  s ← get;
  if decide (qb.2 = b_exec s) then
    _ ← commit_blocks qb.1;
    modify (set_b_exec p)
  else throw ESafetyBreached.

(** The three-step [update] (HOTSTUFF_TWO_STEP not defined). *)
Definition update (nblk : ptr) : CM unit :=
  nb ← deref nblk;
  match qc_ref nb with
  | None => mret tt
  | Some blk2 =>
    b2 ← deref blk2;
    if decision b2 =? 0 then
      _ ← update_hqc blk2 (qc (content nb));
      match qc_ref b2 with
      | None => mret tt
      | Some blk1 =>
        b1 ← deref blk1;
        if decision b1 =? 0 then
          s ← get;
          lb ← deref (b_lock s);
          _ ← mwhen (height lb <? height b1) (modify (set_b_lock blk1));
          match qc_ref b1 with
          | None => mret tt
          | Some blk =>
            b ← deref blk;
            if decision b =? 0 then
              p2 ← index0 (parents b2);
              if decide (p2 = blk1) then
                p1 ← index0 (parents b1);
                if decide (p1 = blk) then commit blk else mret tt
              else mret tt
            else mret tt
          end
        else mret tt
      end
    else mret tt
  end.

Definition on_receive_vote (v : Vote) : CM unit :=
  p ← get_delivered_blk (vote_blk_hash v);
  blk ← deref p;
  s ← get;
  let qsize := Z.of_nat (size (voted blk)) in
  if nmajority (config s) <=? qsize then mret tt else
  if decide (voter v ∈ voted blk) then mret tt else
  _ ← upd p (set_voted ({[voter v]} ∪ voted blk));
  let q := match self_qc blk with
           | Some q => q
           | None => create_quorum_cert (config s) (hash blk)
           end in
  _ ← upd p (set_self_qc (Some q));
  q ← from_option EPartCert (add_part q (voter v) (vote_cert v));
  _ ← upd p (set_self_qc (Some q));
  if qsize + 1 =? nmajority (config s) then
    let q := compute q in
    _ ← upd p (set_self_qc (Some q));
    _ ← update_hqc p (Some q);
    on_qc_finish p
  else mret tt.

(** create_part_cert with the replica's own key. *)
Definition sign (h : uint256) : CM part_cert :=
  s ← get;
  _ ← emit (EvSign h);
  mret (create_part_cert (priv_key s) h).

(** storage->add_blk(new Block(...)) *)
Definition store_blk (b : Block) : CM ptr := fun s =>
  let '(p, h, st) := add_blk (hp s) (storage s) b in
  (inl p, set_storage st (set_heap h s)).

(** get_hashes(parents) *)
Fixpoint get_hashes (ps : list ptr) : CM (list uint256) :=
  match ps with
  | [] => mret []
  | p :: ps => b ← deref p; hs ← get_hashes ps; mret (hash b :: hs)
  end.

(** on_propose up to the delivery of the new block. *)
Definition new_block (cs : list uint256) (ps : list ptr) (p0 : ptr) (ex : list Z)
    : CM ptr :=
  _ ← modify (fun s => set_tails (tails s ∖ list_to_set ps) s);
  hs ← get_hashes ps;
  pb ← deref p0;
  s ← get;
  h ← from_option ENull (hqc s);
  bnew ← store_blk (Block_proposed (mkContent hs cs (Some h.2) ex) ps
                      (u32 (height pb + 1)) (Some h.1));
  nb ← deref bnew;
  s ← get;
  _ ← upd bnew (set_self_qc (Some (create_quorum_cert (config s) (hash nb))));
  _ ← on_deliver_blk bnew;
  mret bnew.

Definition on_propose (cs : list uint256) (ps : list ptr) (ex : list Z) : CM ptr :=
  match ps with
  | [] => throw EEmptyParents
  | p0 :: _ =>
    bnew ← new_block cs ps p0 ex;
    _ ← update bnew;
    s ← get;
    nb ← deref bnew;
    if height nb <=? vheight s then throw ENotHigher else
    _ ← modify (set_vheight (height nb));
    c ← sign (hash nb);
    _ ← on_receive_vote (mkVote (id s) (hash nb) c);
    let prop := mkProposal (id s) bnew in
    _ ← on_propose_ prop;
    _ ← emit (EvBroadcastProposal prop);
    mret bnew
  end.

(** The loop [for (b = bnew; b->height > b_lock->height; b = b->parents[0])]. *)
Fixpoint lock_walk (fuel : nat) (b : ptr) : CM ptr :=
  match fuel with
  | O => throw ENoFuel
  | S fuel =>
    s ← get;
    blk ← deref b;
    lb ← deref (b_lock s);
    if height lb <? height blk
    then p ← index0 (parents blk); lock_walk fuel p
    else mret b
  end.

(** The voting rule of on_receive_proposal: the opinion on [bnew]. *)
Definition opinion_on (bnew : ptr) : CM bool :=
  s ← get;
  nb ← deref bnew;
  if vheight s <? height nb then
    lb ← deref (b_lock s);
    live ← match qc_ref nb with
           | None => mret false
           | Some r => rb ← deref r; mret (height lb <? height rb)
           end;
    if live : bool then _ ← modify (set_vheight (height nb)); mret true
    else
      b ← lock_walk (S (Z.to_nat (height nb))) bnew;
      if decide (b = b_lock s)
      then _ ← modify (set_vheight (height nb)); mret true
      else mret false
  else mret false.

Definition on_receive_proposal (prop : Proposal) : CM unit :=
  let bnew := prop_blk prop in
  _ ← sanity_check_delivered bnew;
  _ ← update bnew;
  opinion ← opinion_on bnew;
  nb ← deref bnew;
  _ ← match qc_ref nb with None => mret tt | Some r => on_qc_finish r end;
  _ ← on_receive_proposal_ prop;
  s ← get;
  if opinion && negb (vote_disabled s) then
    c ← sign (hash nb);
    emit (EvVote (proposer prop) (mkVote (id s) (hash nb) c))
  else mret tt.

(** on_init: QCs for the genesis block and the quorum size; the counters
    are [size_t] and [uint32_t]. *)
Definition on_init (nfaulty : Z) : CM unit :=
  _ ← modify (fun s => set_config
        (mkReplicaConfig (replica_map (config s)) (nreplicas (config s))
           (u64 (nreplicas (config s) - nfaulty))) s);
  s ← get;
  g ← deref (b0 s);
  let q := compute (create_quorum_cert (config s) (hash g)) in
  _ ← upd (b0 s) (fun b => set_qc_ref (Some (b0 s)) (set_self_qc (Some q) (set_qc (Some q) b)));
  modify (set_hqc (Some (b0 s, q))).

Definition add_replica (rid : ReplicaID) (peer : PeerId) (pk : PubKey) : CM unit :=
  _ ← modify (fun s =>
        set_config (config_add_replica rid (mkReplicaInfo rid peer pk) (config s)) s);
  s ← get;
  upd (b0 s) (fun b => set_voted ({[rid]} ∪ voted b) b).

(** Vote::verify; the outer [None] is the exception of get_pubkey. *)
Definition vote_verify (c : ReplicaConfig) (v : Vote) : option bool :=
  pk ← get_pubkey c (voter v);
  mret (pc_verify (vote_cert v) pk &&
        bool_decide (pc_obj_hash (vote_cert v) = vote_blk_hash v)).

(** Block::verify *)
Definition block_verify (c : ReplicaConfig) (genesis : uint256) (b : Block)
    : option bool :=
  match qc (content b) with
  | None => None
  | Some q => if decide (qc_obj_hash q = genesis) then Some true else qc_verify q c
  end.
End Core.
