(* ===== verification/Commands.v ===== *)
(** * Command queues of a replica

    The command path of class HotStuffBase ([include/hotstuff/hotstuff.h],
    [src/hotstuff.cpp]): exec_command and its relatives, the handler of
    cmd_pending registered in start(), and do_decide.  The queue between
    threads is a list; one run of the handler works on the elements that are
    in it.  Calling a callback, handing a batch to the pace maker and
    executing a decision are recorded, in order, as actions: a callback of
    this program only sends messages, it never touches the state below. *)

From Stdlib Require Import ZArith Lia.
From S2P Require Import Prelude Certs Core.

Section Commands.
Context `{KeyTypes}.
(** std::function<void(const Finality &)>: what the callback is for. *)
Variable Callback : Type.

Inductive Action :=
  | ABeat (cmds : list uint256)                (* pmaker->beat().then(propose) *)
  | ACall (cb : Callback) (fin : Finality)
  | AExecute (fin : Finality).                 (* state_machine_execute *)

(** The fields of HotStuffBase the command path uses. *)
Record Commands := mkCommands {
  base_id : ReplicaID;
  blk_size : Z;
  cmd_pending : list (uint256 * Callback);     (* front first *)
  cmd_pending_buffer : list uint256;           (* front first *)
  decision_waiting : gmap uint256 Callback;
  part_decided : Z;                            (* uint32_t *)
  actions : list Action;                       (* oldest first *)
}.

Definition Commands_new (rid : ReplicaID) (bsz : Z) : Commands :=
  mkCommands rid (u32 bsz) [] [] ∅ 0 [].

Definition act (a : Action) (s : Commands) : Commands :=
  mkCommands (base_id s) (blk_size s) (cmd_pending s) (cmd_pending_buffer s)
    (decision_waiting s) (part_decided s) (actions s ++ [a]).
Definition set_pending q (s : Commands) : Commands :=
  mkCommands (base_id s) (blk_size s) q (cmd_pending_buffer s)
    (decision_waiting s) (part_decided s) (actions s).
Definition set_buffer b (s : Commands) : Commands :=
  mkCommands (base_id s) (blk_size s) (cmd_pending s) b
    (decision_waiting s) (part_decided s) (actions s).
Definition set_waiting w (s : Commands) : Commands :=
  mkCommands (base_id s) (blk_size s) (cmd_pending s) (cmd_pending_buffer s)
    w (part_decided s) (actions s).
Definition set_decided n (s : Commands) : Commands :=
  mkCommands (base_id s) (blk_size s) (cmd_pending s) (cmd_pending_buffer s)
    (decision_waiting s) n (actions s).

Definition exec_command (h : uint256) (cb : Callback) (s : Commands) : Commands :=
  set_pending (cmd_pending s ++ [(h, cb)]) s.

(** Registers the callback, or answers a duplicate at once. *)
Definition wait_decision (h : uint256) (cb : Callback) (s : Commands) : Commands :=
  match decision_waiting s !! h with
  | None => set_waiting (<[h := cb]> (decision_waiting s)) s
  | Some _ => act (ACall cb (mkFinality (base_id s) 0 0 0 h uint256_null)) s
  end.

Definition exec_single_command (proposer : ReplicaID) (h : uint256) (cb : Callback)
    (s : Commands) : Commands :=
  let s := wait_decision h cb s in
  if decide (proposer = base_id s) then act (ABeat [h]) s else s.

Definition exec_command_noresp (proposer : ReplicaID) (h : uint256) (s : Commands) : Commands :=
  if decide (proposer = base_id s) then act (ABeat [h]) s else s.

(** The loop of the handler of cmd_pending over the queue; the result is
    the handler's: whether it wants to be called again. *)
Fixpoint cmd_loop (proposer : ReplicaID) (q : list (uint256 * Callback)) (s : Commands)
    : bool * Commands :=
  match q with
  | [] => (false, set_pending [] s)
  | (h, cb) :: q =>
    let s := wait_decision h cb (set_pending q s) in
    if decide (proposer = base_id s) then
      let s := set_buffer (cmd_pending_buffer s ++ [h]) s in
      if blk_size s <=? Z.of_nat (length (cmd_pending_buffer s)) then
        let n := Z.to_nat (blk_size s) in
        (true, act (ABeat (take n (cmd_pending_buffer s)))
                 (set_buffer (drop n (cmd_pending_buffer s)) s))
      else cmd_loop proposer q s
    else cmd_loop proposer q s
  end.
Definition cmd_pending_handler (proposer : ReplicaID) (s : Commands) : bool * Commands :=
  cmd_loop proposer (cmd_pending s) s.

Definition do_decide (fin : Finality) (s : Commands) : Commands :=
  let s := act (AExecute fin) (set_decided (u32 (part_decided s + 1)) s) in
  match decision_waiting s !! cmd_hash fin with
  | None => s
  | Some cb => set_waiting (delete (cmd_hash fin) (decision_waiting s)) (act (ACall cb fin) s)
  end.

(** The entry points of the command path, for any interleaving of them. *)
Inductive CmdInput :=
  | IExec (h : uint256) (cb : Callback)
  | ISingle (proposer : ReplicaID) (h : uint256) (cb : Callback)
  | IHandler (proposer : ReplicaID)
  | IDecide (fin : Finality).

Definition cmd_exec (i : CmdInput) (s : Commands) : Commands :=
  match i with
  | IExec h cb => exec_command h cb s
  | ISingle p h cb => exec_single_command p h cb s
  | IHandler p => (cmd_pending_handler p s).2
  | IDecide fin => do_decide fin s
  end.
Definition cmd_run (evs : list CmdInput) (s : Commands) : Commands :=
  foldl (fun s i => cmd_exec i s) s evs.

(** ** Callbacks *)

Definition submitted (i : CmdInput) : list (uint256 * Callback) :=
  match i with IExec h cb | ISingle _ h cb => [(h, cb)] | _ => [] end.
Definition called (a : Action) : list (uint256 * Callback) :=
  match a with ACall cb fin => [(cmd_hash fin, cb)] | _ => [] end.

(** Where the callbacks are: called, waiting for a decision, queued. *)
Definition callbacks (s : Commands) : list (uint256 * Callback) :=
  (actions s ≫= called) ++ map_to_list (decision_waiting s) ++ cmd_pending s.

(** Registering a callback moves it from the queue to the waiting map, or
    calls it. *)
Lemma wait_decision_callbacks h cb s :
  callbacks (wait_decision h cb s) ≡ₚ callbacks s ++ [(h, cb)].
Proof.
  unfold wait_decision, callbacks. destruct (decision_waiting s !! h) eqn:Hw; simpl.
  - rewrite bind_app. simpl. solve_Permutation.
  - rewrite map_to_list_insert by done. solve_Permutation.
Qed.

Lemma act_beat_callbacks cs s : callbacks (act (ABeat cs) s) = callbacks s.
Proof. unfold callbacks. simpl. rewrite bind_app. simpl. by rewrite app_nil_r. Qed.

Lemma set_pending_callbacks q s h cb : cmd_pending s = (h, cb) :: q ->
  callbacks s ≡ₚ callbacks (set_pending q s) ++ [(h, cb)].
Proof. intros Hq. unfold callbacks. rewrite Hq. simpl. solve_Permutation. Qed.

Lemma cmd_loop_callbacks p q s : cmd_pending s = q -> callbacks (cmd_loop p q s).2 ≡ₚ callbacks s.
Proof.
  revert s. induction q as [|[h cb] q IH]; intros s Hq; simpl.
  { by rewrite <- Hq; destruct s. }
  assert (callbacks (wait_decision h cb (set_pending q s)) ≡ₚ callbacks s) as Hw.
  { by rewrite wait_decision_callbacks, (set_pending_callbacks q s h cb) by done. }
  assert (cmd_pending (wait_decision h cb (set_pending q s)) = q) as Hp
    by (unfold wait_decision; by case_match).
  set (s1 := wait_decision h cb (set_pending q s)) in *. clearbody s1.
  case_decide; [|by rewrite IH].
  destruct (_ <=? _); simpl; [|by rewrite IH].
  rewrite act_beat_callbacks. exact Hw.
Qed.

Lemma do_decide_callbacks fin s : callbacks (do_decide fin s) ≡ₚ callbacks s.
Proof.
  unfold do_decide, callbacks. simpl. destruct (decision_waiting s !! cmd_hash fin) as [cb|] eqn:Hw; simpl.
  - rewrite !bind_app. simpl. rewrite <- (map_to_list_delete _ _ _ Hw). solve_Permutation.
  - rewrite bind_app. simpl. by rewrite app_nil_r.
Qed.

Lemma cmd_exec_callbacks i s : callbacks (cmd_exec i s) ≡ₚ callbacks s ++ submitted i.
Proof.
  destruct i as [h cb|p h cb|p|fin]; cbn [cmd_exec submitted].
  - unfold callbacks, exec_command. simpl. solve_Permutation.
  - unfold exec_single_command. case_decide; [rewrite act_beat_callbacks|]; apply wait_decision_callbacks.
  - rewrite app_nil_r. by apply cmd_loop_callbacks.
  - rewrite app_nil_r. apply do_decide_callbacks.
Qed.

Lemma cmd_run_callbacks evs s : callbacks (cmd_run evs s) ≡ₚ callbacks s ++ (evs ≫= submitted).
Proof.
  revert s. induction evs as [|i evs IH]; intros s; simpl; [by rewrite app_nil_r|].
  unfold cmd_run in *. simpl. rewrite IH, cmd_exec_callbacks. by rewrite <- (assoc_L (++)).
Qed.

(** What a step may report: a decision it was given, or a duplicate. *)
Definition reports (i : CmdInput) (fin : Finality) : Prop :=
  i = IDecide fin \/ fin_decision fin = 0.

Lemma cmd_loop_actions (P : Action -> Prop) p q s :
  (forall cs, P (ABeat cs)) -> (forall cb fin, fin_decision fin = 0 -> P (ACall cb fin)) ->
  Forall P (actions s) -> Forall P (actions (cmd_loop p q s).2).
Proof.
  intros Hb Hc. revert s. induction q as [|[h cb] q IH]; intros s Hs; simpl; [done|].
  assert (Forall P (actions (wait_decision h cb (set_pending q s)))) as Hw.
  { unfold wait_decision. case_match; simpl; [|done]. apply Forall_app. split; [done|].
    constructor; [by apply Hc|done]. }
  set (s1 := wait_decision h cb (set_pending q s)) in *. clearbody s1.
  case_decide; [|by apply IH]. destruct (_ <=? _); simpl; [|by apply IH].
  apply Forall_app. split; [done|]. by constructor.
Qed.

Lemma cmd_exec_reports i s (P : Action -> Prop) :
  (forall cs, P (ABeat cs)) -> (forall fin, P (AExecute fin)) ->
  (forall cb fin, reports i fin -> P (ACall cb fin)) ->
  Forall P (actions s) -> Forall P (actions (cmd_exec i s)).
Proof.
  intros Hb He Hc Hs. destruct i as [h cb|p h cb|p|fin]; cbn [cmd_exec].
  - done.
  - assert (Forall P (actions (wait_decision h cb s))) as Hw.
    { unfold wait_decision. case_match; simpl; [|done]. apply Forall_app. split; [done|].
      constructor; [apply Hc; by right|done]. }
    unfold exec_single_command. case_decide; [|done]. simpl. apply Forall_app. split; [done|]. by constructor.
  - apply cmd_loop_actions; [done| |done]. intros cb fin ?. apply Hc. by right.
  - unfold do_decide. simpl. case_match; simpl; rewrite ?Forall_app; split_and!; try done;
      repeat constructor; try done. apply Hc. by left.
Qed.

(** ** Batches *)

Definition batch (a : Action) : list (list uint256) :=
  match a with ABeat cs => [cs] | _ => [] end.
Definition batches (s : Commands) : list (list uint256) := actions s ≫= batch.

(** A replica that is its own proposer throughout. *)
Definition own (rid : ReplicaID) (i : CmdInput) : Prop :=
  match i with IHandler p => p = rid | ISingle _ _ _ => False | _ => True end.

(** The commands in the order they went in: batched, buffered, queued. *)
Definition in_order (s : Commands) : list uint256 :=
  concat (batches s) ++ cmd_pending_buffer s ++ (cmd_pending s).*1.
Definition batched (n : Z) (s : Commands) : Prop :=
  blk_size s = n /\ Forall (fun b => Z.of_nat (length b) = n) (batches s) /\
  Z.of_nat (length (cmd_pending_buffer s)) < n.

Lemma batches_act a s : batches (act a s) = batches s ++ batch a.
Proof. unfold batches. simpl. rewrite bind_app. simpl. by rewrite app_nil_r. Qed.

Lemma wait_decision_frame h cb s : let s' := wait_decision h cb s in
  batches s' = batches s /\ cmd_pending_buffer s' = cmd_pending_buffer s /\
  cmd_pending s' = cmd_pending s /\ blk_size s' = blk_size s /\ base_id s' = base_id s.
Proof.
  unfold wait_decision. case_match; simpl; [|done]. rewrite batches_act. simpl.
  by rewrite app_nil_r.
Qed.

Lemma cmd_loop_batched n q s : 0 < n -> batched n s -> cmd_pending s = q ->
  let s' := (cmd_loop (base_id s) q s).2 in
  in_order s' = in_order s /\ batched n s' /\ base_id s' = base_id s.
Proof.
  intros Hn. revert s. induction q as [|[h cb] q IH]; intros s (Hbl & Hall & Hlt) Hq; cbn [cmd_loop]; cbv zeta.
  { cbn [snd]. by rewrite <- Hq; destruct s. }
  destruct (wait_decision_frame h cb (set_pending q s)) as (Hb & Hbuf & Hp & Hbl' & Hid).
  set (s1 := wait_decision h cb (set_pending q s)) in *. clearbody s1. simpl in Hb, Hbuf, Hp, Hbl', Hid.
  change (batches (set_pending q s)) with (batches s) in Hb.
  rewrite decide_True by congruence.
  set (s2 := set_buffer (cmd_pending_buffer s1 ++ [h]) s1).
  assert (cmd_pending_buffer s2 = cmd_pending_buffer s ++ [h]) as Hbuf2 by (simpl; by rewrite Hbuf).
  assert (cmd_pending s2 = q /\ batches s2 = batches s /\ blk_size s2 = n /\ base_id s2 = base_id s) as
    (Hp2 & Hb2 & Hbl2 & Hid2) by (split_and!; first [exact Hb|simpl; congruence]).
  assert (in_order s2 = in_order s) as Ho2.
  { unfold in_order. rewrite Hp2, Hb2, Hbuf2, Hq. simpl. by rewrite <- (assoc_L (++) _ [h]). }
  clearbody s2. clear s1 Hb Hbuf Hp Hbl' Hid.
  destruct (Z.leb_spec (blk_size s2) (Z.of_nat (length (cmd_pending_buffer s2)))) as [Hle|Hgt].
  - cbn [snd]. set (k := Z.to_nat (blk_size s2)).
    assert (Z.of_nat (length (cmd_pending_buffer s2)) <= n) as Hge by (rewrite Hbuf2, length_app; simpl; lia).
    split; [|split; [split; [|split]|done]].
    + rewrite <- Ho2. unfold in_order. rewrite batches_act, concat_app. simpl. rewrite app_nil_r.
      change (batches (set_buffer _ ?s)) with (batches s).
      by rewrite <- (assoc_L (++)), (assoc_L (++) (take _ _)), take_drop.
    + done.
    + rewrite batches_act. apply Forall_app. change (batches (set_buffer _ ?s)) with (batches s).
      rewrite Hb2. split; [done|]. constructor; [|done]. rewrite length_take. lia.
    + simpl. rewrite length_drop. lia.
  - rewrite <- Hid2, <- Ho2. apply IH; [|done]. split; [done|]. rewrite Hb2. split; [done|]. lia.
Qed.

Lemma cmd_exec_batched n rid i s : 0 < n -> base_id s = rid -> own rid i -> batched n s ->
  let s' := cmd_exec i s in
  in_order s' = in_order s ++ match i with IExec h _ => [h] | _ => [] end /\ batched n s' /\ base_id s' = rid.
Proof.
  intros Hn Hid Hown Hb. destruct i as [h cb|p h cb|p|fin]; cbn [cmd_exec]; [|done|..].
  - split; [|split; [exact Hb|done]]. unfold in_order, exec_command. simpl.
    change (batches (set_pending _ ?s)) with (batches s). rewrite fmap_app. simpl.
    by rewrite !(assoc_L (++)).
  - simpl in Hown. subst p rid. rewrite app_nil_r. by apply cmd_loop_batched.
  - rewrite app_nil_r. destruct Hb as (Hbl & Hall & Hlt).
    assert (batches (do_decide fin s) = batches s /\ cmd_pending_buffer (do_decide fin s) = cmd_pending_buffer s /\
      cmd_pending (do_decide fin s) = cmd_pending s /\ blk_size (do_decide fin s) = blk_size s /\
      base_id (do_decide fin s) = base_id s) as (Hb & Hbuf & Hp & Hbl' & Hid').
    { unfold do_decide. case_match; simpl; split_and!; try done; unfold batches; simpl;
        rewrite !bind_app; simpl; by rewrite !app_nil_r. }
    unfold in_order, batched. rewrite Hb, Hbuf, Hp, Hbl', Hid'. done.
Qed.

Lemma cmd_run_batched n rid evs s : 0 < n -> base_id s = rid -> Forall (own rid) evs -> batched n s ->
  in_order (cmd_run evs s) = in_order s ++ (evs ≫= fun i => match i with IExec h _ => [h] | _ => [] end) /\
  batched n (cmd_run evs s).
Proof.
  intros Hn. revert s. induction evs as [|i evs IH]; intros s Hid Hown Hb; simpl; [by rewrite app_nil_r|].
  inversion Hown as [|? ? Hi Hown']; subst.
  destruct (cmd_exec_batched n (base_id s) i s Hn eq_refl Hi Hb) as (Ho & Hb' & Hid').
  destruct (IH _ Hid' Hown' Hb') as [Ho2 Hb2]. unfold cmd_run in *. simpl. split; [|exact Hb2].
  by rewrite Ho2, Ho, <- (assoc_L (++)).
Qed.

(** Runs of the handler drain the queue: it asks to be called again unless
    the queue is empty, and every run takes at least one command. *)
Lemma cmd_loop_drains p q s : cmd_pending s = q ->
  let r := cmd_loop p q s in
  (r.1 = false -> cmd_pending r.2 = []) /\ (length (cmd_pending r.2) <= pred (length q))%nat.
Proof.
  revert s. induction q as [|[h cb] q IH]; intros s Hq; simpl; [done|].
  destruct (wait_decision_frame h cb (set_pending q s)) as (_ & _ & Hp & _ & _).
  set (s1 := wait_decision h cb (set_pending q s)) in *. clearbody s1. simpl in Hp.
  assert (forall s2, cmd_pending s2 = q -> (cmd_loop p q s2).1 = false -> cmd_pending (cmd_loop p q s2).2 = []) as H1
    by (intros s2 Hs2; by apply IH).
  assert (forall s2, cmd_pending s2 = q -> (length (cmd_pending (cmd_loop p q s2).2) <= length q)%nat) as H2.
  { intros s2 Hs2. destruct (IH s2 Hs2) as [_ ?]. lia. }
  case_decide; [|by auto]. destruct (_ <=? _); [|by auto]. simpl. by rewrite Hp.
Qed.

Lemma cmd_loop_id p q s : base_id (cmd_loop p q s).2 = base_id s.
Proof.
  revert s. induction q as [|[h cb] q IH]; intros s; simpl; [done|].
  destruct (wait_decision_frame h cb (set_pending q s)) as (_ & _ & _ & _ & Hid).
  set (s1 := wait_decision h cb (set_pending q s)) in *. clearbody s1. simpl in Hid.
  case_decide; [|by rewrite IH]. destruct (_ <=? _); [done|]. by rewrite IH.
Qed.

Lemma do_decide_id fin s : base_id (do_decide fin s) = base_id s.
Proof. unfold do_decide. simpl. by case_match. Qed.

(** ** Properties *)

(** C31. No callback is ever lost or called twice, however the entry points
    interleave: those submitted are, as a multiset, those called, those
    waiting for a decision and those queued.  A callback is told a decision
    other than 0 only when do_decide was called with it. *)
Theorem callbacks_conserved rid bsz evs :
  let s := cmd_run evs (Commands_new rid bsz) in
  callbacks s ≡ₚ evs ≫= submitted /\
  forall cb fin, ACall cb fin ∈ actions s -> IDecide fin ∈ evs \/ fin_decision fin = 0.
Proof.
  split; [apply (cmd_run_callbacks evs)|]. intros cb fin Hin.
  set (P a := match a with ACall _ fin => IDecide fin ∈ evs \/ fin_decision fin = 0 | _ => True end).
  assert (forall evs' s, (forall i, i ∈ evs' -> i ∈ evs) -> Forall P (actions s) ->
    Forall P (actions (cmd_run evs' s))) as HP.
  { induction evs' as [|i evs' IH]; intros s Hsub Hs; [done|]. unfold cmd_run in *. simpl.
    apply IH; [intros; apply Hsub; by right|]. apply cmd_exec_reports; try done.
    intros cb' fin' [->|?]; [left; apply Hsub; by left|by right]. }
  specialize (HP evs (Commands_new rid bsz) ltac:(done) ltac:(constructor)).
  rewrite Forall_forall in HP. by specialize (HP _ Hin).
Qed.

(** A replica that proposes puts the commands given to exec_command into
    batches of exactly blk_size in the order of the calls, keeping fewer than
    blk_size of them back. *)
Theorem batches_fifo rid bsz evs : 0 < bsz < 2 ^ 32 -> Forall (own rid) evs ->
  let s := cmd_run evs (Commands_new rid bsz) in
  concat (batches s) ++ cmd_pending_buffer s ++ (cmd_pending s).*1 =
    (evs ≫= fun i => match i with IExec h _ => [h] | _ => [] end) /\
  Forall (fun b => Z.of_nat (length b) = bsz) (batches s) /\
  Z.of_nat (length (cmd_pending_buffer s)) < bsz.
Proof.
  intros Hb Hown. destruct (cmd_run_batched bsz rid evs (Commands_new rid bsz)) as (Ho & _ & Hall & Hlt);
    [lia|done|done|split; [by apply u32_small; lia|split; [by constructor|simpl; lia]]|].
  split; [exact Ho|done].
Qed.
End Commands.

Arguments ABeat {_ _} _.
Arguments ACall {_ _} _ _.
Arguments AExecute {_ _} _.
Arguments base_id {_ _} _.
Arguments blk_size {_ _} _.
Arguments cmd_pending {_ _} _.
Arguments cmd_pending_buffer {_ _} _.
Arguments decision_waiting {_ _} _.
Arguments part_decided {_ _} _.
Arguments actions {_ _} _.
Arguments mkCommands {_ _} _ _ _ _ _ _ _.
