(* ===== verification/Archipelago.v ===== *)
(** * Archipelago's ordering and commit set

    Class HotStuffApp of [examples/archipelago_app.cpp] and the parts of
    HotStuffBase made for it ([src/hotstuff.cpp]: check_stable_point_index,
    server_consensus_request_cmd_handler, the handlers of the ordering
    queues).  Clients have a command timestamped by the replicas (ordering
    phase 1) and send back a timestamp (phase 2), which puts the command into
    every replica's commit set; replica 1 closes batches of commands whose
    timestamps are stable and has one hash per batch agreed on.

    The code runs the client handlers on one thread and the decision callbacks
    on another without a lock; the model runs them one after another. *)

From Stdlib Require Import ZArith Lia Sorting.Sorted.
From stdpp Require Import sorting.
From S2P Require Import Prelude Bytes Certs Core Commands.

(** std::sort: some rearrangement that is sorted by the comparison. *)
Class StdSort := std_sort : forall A, (A -> A -> bool) -> list A -> list A.
Class StdSortLaws `{StdSort} := {
  std_sort_perm A lt (l : list A) : std_sort A lt l ≡ₚ l;
  std_sort_sorted A (key : A -> Z) (l : list A) :
    StronglySorted (fun a b => key a <= key b) (std_sort A (fun a b => key a <? key b) l) }.

(** Addresses of clients, and signatures made with the fixed key. *)
Class AppTypes `{KeyTypes} := {
  NetAddr : Type;
  OSig : Type;
  sign_fixed : list Z -> OSig;               (* SigSecp256k1 sig(timestamp, p) *)
  digest_of : list Z -> uint256;             (* Blob::load *)
  dummy_hash : Z -> Z -> uint256 }.          (* CommandDummy(cid, n).get_hash() *)

(** Failures: an index or iterator past the end of a vector and an [int]
    overflow, which are undefined, and a failed assertion. *)
Inductive AppError := EIndex | EOverflow | EAssert.

Section App.
Context `{Host} `{KeyTypes} `{!AppTypes} `{StdSort}.

(** The callbacks given to exec_command. *)
Inductive AppCallback :=
  | CbResp (addr : NetAddr)        (* resp_queue.enqueue(fin, addr) *)
  | CbBatch (h : uint256)          (* the leader's batch *)
  | CbNone.                        (* [](Finality) {} *)

(** What the replica sends, and hands to the pace maker and the state
    machine. *)
Inductive Output :=
  | SendOrdering1 (addr : NetAddr) (h timestamp : uint256) (timestamp_us : Z) (sig : OSig)
  | SendOrdering2 (addr : NetAddr) (h timestamp : uint256) (sig : OSig)
  | SendResp (addr : NetAddr) (fin : Finality)
  | SendExec (addr : NetAddr) (h : uint256)      (* MsgConsensusRespClientCmd *)
  | Broadcast (h : uint256) (stable_ts stable_idx : Z) (h1 h2 h3 h4 : uint256)
  | Beat (cmds : list uint256)
  | Execute (fin : Finality).

(** An element of commit_set: ((hash, timestamp), client). *)
Record Entry := mkEntry { e_hash : uint256; e_ts : Z; e_addr : NetAddr }.

Definition commit_set_cmp (a b : Entry) : bool := e_ts a <? e_ts b.

Record HotStuffApp := mkApp {
  queues : Commands AppCallback;
  (* HotStuffBase *)
  stable_point : Z;                              (* uint64_t *)
  stable_point_idx : Z;                          (* uint32_t *)
  commit_set : list Entry;
  stable_point_errors : list (Z * Z);
  ordering1 : list (uint256 * NetAddr);          (* front first *)
  ordering2 : list (uint256 * NetAddr);
  (* HotStuffApp *)
  stable_period : Z;                             (* uint32_t *)
  clnt_blk_size : Z;                             (* uint32_t *)
  cmd_cnt : Z;                                   (* uint32_t *)
  exec_count : Z;
  exec_sent : Z;
  exec_last_batch_clock : Z;                     (* uint64_t *)
  batch_received : gmap uint256 Z;               (* int *)
  exec_client_rsp : gmap uint256 (Z * Z);
  outputs : list Output;                         (* oldest first *)
}.

Definition HotStuffApp_new (rid clnt_blk_size stable_period : Z) : HotStuffApp :=
  mkApp (Commands_new AppCallback rid 1) 0 0 [] [] [] [] (u32 stable_period) (u32 clnt_blk_size)
    0 0 0 0 ∅ ∅ [].

Definition set_queues q s := mkApp q (stable_point s) (stable_point_idx s) (commit_set s)
  (stable_point_errors s) (ordering1 s) (ordering2 s) (stable_period s) (clnt_blk_size s) (cmd_cnt s)
  (exec_count s) (exec_sent s) (exec_last_batch_clock s) (batch_received s) (exec_client_rsp s) (outputs s).
Definition set_commit i l s := mkApp (queues s) (stable_point s) i l
  (stable_point_errors s) (ordering1 s) (ordering2 s) (stable_period s) (clnt_blk_size s) (cmd_cnt s)
  (exec_count s) (exec_sent s) (exec_last_batch_clock s) (batch_received s) (exec_client_rsp s) (outputs s).
Definition set_errors e s := mkApp (queues s) (stable_point s) (stable_point_idx s) (commit_set s)
  e (ordering1 s) (ordering2 s) (stable_period s) (clnt_blk_size s) (cmd_cnt s)
  (exec_count s) (exec_sent s) (exec_last_batch_clock s) (batch_received s) (exec_client_rsp s) (outputs s).
Definition set_ordering o1 o2 s := mkApp (queues s) (stable_point s) (stable_point_idx s) (commit_set s)
  (stable_point_errors s) o1 o2 (stable_period s) (clnt_blk_size s) (cmd_cnt s)
  (exec_count s) (exec_sent s) (exec_last_batch_clock s) (batch_received s) (exec_client_rsp s) (outputs s).
Definition set_cmd_cnt n s := mkApp (queues s) (stable_point s) (stable_point_idx s) (commit_set s)
  (stable_point_errors s) (ordering1 s) (ordering2 s) (stable_period s) (clnt_blk_size s) n
  (exec_count s) (exec_sent s) (exec_last_batch_clock s) (batch_received s) (exec_client_rsp s) (outputs s).
Definition set_exec_count n s := mkApp (queues s) (stable_point s) (stable_point_idx s) (commit_set s)
  (stable_point_errors s) (ordering1 s) (ordering2 s) (stable_period s) (clnt_blk_size s) (cmd_cnt s)
  n (exec_sent s) (exec_last_batch_clock s) (batch_received s) (exec_client_rsp s) (outputs s).
Definition set_exec_sent n s := mkApp (queues s) (stable_point s) (stable_point_idx s) (commit_set s)
  (stable_point_errors s) (ordering1 s) (ordering2 s) (stable_period s) (clnt_blk_size s) (cmd_cnt s)
  (exec_count s) n (exec_last_batch_clock s) (batch_received s) (exec_client_rsp s) (outputs s).
Definition set_clock c s := mkApp (queues s) (stable_point s) (stable_point_idx s) (commit_set s)
  (stable_point_errors s) (ordering1 s) (ordering2 s) (stable_period s) (clnt_blk_size s) (cmd_cnt s)
  (exec_count s) (exec_sent s) c (batch_received s) (exec_client_rsp s) (outputs s).
Definition set_batch_received m s := mkApp (queues s) (stable_point s) (stable_point_idx s) (commit_set s)
  (stable_point_errors s) (ordering1 s) (ordering2 s) (stable_period s) (clnt_blk_size s) (cmd_cnt s)
  (exec_count s) (exec_sent s) (exec_last_batch_clock s) m (exec_client_rsp s) (outputs s).
Definition set_client_rsp m s := mkApp (queues s) (stable_point s) (stable_point_idx s) (commit_set s)
  (stable_point_errors s) (ordering1 s) (ordering2 s) (stable_period s) (clnt_blk_size s) (cmd_cnt s)
  (exec_count s) (exec_sent s) (exec_last_batch_clock s) (batch_received s) m (outputs s).
Definition set_outputs o s := mkApp (queues s) (stable_point s) (stable_point_idx s) (commit_set s)
  (stable_point_errors s) (ordering1 s) (ordering2 s) (stable_period s) (clnt_blk_size s) (cmd_cnt s)
  (exec_count s) (exec_sent s) (exec_last_batch_clock s) (batch_received s) (exec_client_rsp s) o.

Abbreviation AM := (M HotStuffApp AppError).

Definition output (o : Output) : AM unit := modify (fun s => set_outputs (outputs s ++ [o]) s).
Definition exec (h : uint256) (cb : AppCallback) : AM unit :=
  modify (fun s => set_queues (exec_command AppCallback h cb (queues s)) s).

(** ** Commands and decisions *)

Definition client_request_cmd_handler (h : uint256) (addr : NetAddr) : AM unit :=
  exec h (CbResp addr).

(** The loop that tells the clients of a batch. *)
Fixpoint notify (n : nat) (i : Z) : AM unit :=
  match n with
  | O => mret tt
  | S n =>
    s ← get;
    e ← from_option EIndex (commit_set s !! Z.to_nat i);
    _ ← output (SendExec (e_addr e) (e_hash e));
    notify n (i + 1)
  end.

(** The callbacks; [operator[]] makes an entry when there is none. *)
Definition run_callback (cb : AppCallback) (fin : Finality) : AM unit :=
  match cb with
  | CbNone => mret tt
  | CbResp addr => output (SendResp addr fin)
  | CbBatch h =>
    s ← get;
    let r := default (0, 0) (exec_client_rsp s !! h) in
    _ ← modify (fun s => set_client_rsp (<[h := r]> (exec_client_rsp s)) s);
    _ ← notify (Z.to_nat (r.2 - r.1)) r.1;
    s ← get;
    mwhen (exec_count s <? r.2) (modify (set_exec_count r.2))
  end.

(** What a step of the command queues asked for, in order. *)
Fixpoint perform (l : list (Action AppCallback)) : AM unit :=
  match l with
  | [] => mret tt
  | a :: l =>
    _ ← match a with
        | ABeat cs => output (Beat cs)
        | AExecute fin => output (Execute fin)
        | ACall cb fin => run_callback cb fin
        end;
    perform l
  end.
Definition flush : AM unit :=
  s ← get;
  let q := queues s in
  _ ← modify (set_queues (mkCommands (base_id q) (blk_size q) (cmd_pending q) (cmd_pending_buffer q)
                            (decision_waiting q) (part_decided q) []));
  perform (actions q).

Definition app_cmd_pending (proposer : ReplicaID) : AM bool :=
  s ← get;
  let r := cmd_pending_handler AppCallback proposer (queues s) in
  _ ← modify (set_queues r.2);
  _ ← flush;
  mret r.1.

Definition app_decide (fin : Finality) : AM unit :=
  _ ← modify (fun s => set_queues (do_decide AppCallback fin (queues s)) s);
  flush.

(** ** Ordering phase 1 *)

(** The counter is an [int]: overflow is undefined. *)
Definition client_ordering1_request_cmd_handler (h : uint256) (addr : NetAddr) : AM unit :=
  s ← get;
  c ← match batch_received s !! h with
      | Some c => if c =? 2 ^ 31 - 1 then throw EOverflow else mret (c + 1)
      | None => mret 1
      end;
  _ ← modify (fun s => set_batch_received (<[h := c]> (batch_received s)) s);
  if u32 c <? clnt_blk_size s then mret tt else
  modify (fun s => set_ordering (ordering1 s ++ [(h, addr)]) (ordering2 s) s).

(** uint8_t timestamp[32] = "0"; the first eight bytes are overwritten. *)
Definition timestamp1 (us : Z) : list Z := host_bytes 8 us ++ replicate 24 0.

(** The handler of ordering1; [clock] gives gettimeofday for each element,
    in microseconds. *)
Fixpoint ordering1_loop (clock : nat -> Z) (q : list (uint256 * NetAddr)) : AM unit :=
  match q with
  | [] => mret tt
  | (h, addr) :: q =>
    let us := u64 (clock O) in
    _ ← output (SendOrdering1 addr h (digest_of (timestamp1 us)) us (sign_fixed (timestamp1 us)));
    ordering1_loop (fun i => clock (S i)) q
  end.
Definition ordering1_handler (clock : nat -> Z) : AM unit :=
  s ← get;
  _ ← modify (fun s => set_ordering [] (ordering2 s) s);
  ordering1_loop clock (ordering1 s).

(** ** Ordering phase 2 *)

(** uint8_t timestamp[32] = "00" *)
Definition timestamp2 : list Z := [48; 48] ++ replicate 30 0.

(** The handler of ordering2; the signatures it checks are its own and the
    results are not used. *)
Fixpoint ordering2_loop (q : list (uint256 * NetAddr)) : AM unit :=
  match q with
  | [] => mret tt
  | (h, addr) :: q =>
    _ ← output (SendOrdering2 addr h (digest_of timestamp2) (sign_fixed timestamp2));
    ordering2_loop q
  end.
Definition ordering2_handler : AM unit :=
  s ← get;
  _ ← modify (fun s => set_ordering (ordering1 s) [] s);
  ordering2_loop (ordering2 s).

(** std::sort(begin() + i, end()): undefined when i is past the end. *)
Definition sort_from (i : Z) (l : list Entry) : option (list Entry) :=
  if i <=? Z.of_nat (length l)
  then Some (take (Z.to_nat i) l ++ std_sort _ commit_set_cmp (drop (Z.to_nat i) l)) else None.

(** The index of the first element from [i] on whose timestamp is above the
    end of the batch. *)
Fixpoint scan (batch_end : Z) (l : list Entry) (i : Z) : Z :=
  match l with
  | [] => i
  | e :: l => if batch_end <? e_ts e then i else scan batch_end l (i + 1)
  end.

(** CommandDummy(cid, cmd_cnt++).get_hash() *)
Definition next_dummy (cid : Z) : AM uint256 :=
  s ← get;
  _ ← modify (set_cmd_cnt (u32 (cmd_cnt s + 1)));
  mret (dummy_hash cid (cmd_cnt s)).

(** The leader closes a batch. *)
Definition close_batch : AM unit :=
  h1 ← next_dummy 0; h2 ← next_dummy 1; h3 ← next_dummy 2; h4 ← next_dummy 3;
  s ← get;
  let size := u32 (Z.of_nat (length (commit_set s))) in
  l ← from_option EIndex (sort_from (stable_point_idx s) (commit_set s));
  last ← from_option EIndex (l !! Z.to_nat (u32 (size - 1)));
  let batch_end := u64 (e_ts last - u32 (stable_period s * 1000)) in
  let start := stable_point_idx s in
  let next := scan batch_end (take (Z.to_nat (size - start)) (drop (Z.to_nat start) l)) start in
  _ ← modify (set_commit next l);
  h ← next_dummy 4;
  _ ← output (Broadcast h batch_end next h1 h2 h3 h4);
  _ ← modify (fun s => set_client_rsp (<[h := (start, next)]> (exec_client_rsp s)) s);
  _ ← modify (set_exec_sent next);
  _ ← exec h (CbBatch h);
  _ ← exec h2 CbNone;
  _ ← exec h3 CbNone;
  exec h4 CbNone.

(** [now] is CLOCK_MONOTONIC in microseconds. *)
Definition client_ordering2_request_cmd_handler (h : uint256) (ts : Z) (addr : NetAddr) (now : Z)
    : AM unit :=
  s ← get;
  _ ← mwhen (ts <? stable_point s) (throw EAssert);                (* assert(false) *)
  _ ← modify (fun s => set_commit (stable_point_idx s) (commit_set s ++ [mkEntry h ts addr]) s);
  _ ← modify (fun s => set_ordering (ordering1 s) (ordering2 s ++ [(h, addr)]) s);
  if negb (base_id (queues s) =? 1) then mret tt else
  if exec_last_batch_clock s =? 0 then modify (set_clock (u64 now))
  else if u64 (exec_last_batch_clock s + u32 (stable_period s * 1000)) <? u64 now then
    _ ← modify (set_clock (u64 now));
    close_batch
  else mret tt.

(** ** The followers *)

Definition check_stable_point_index (stable_ts stable_idx : Z) : AM unit :=
  s ← get;
  _ ← mwhen (stable_point_idx s <? stable_idx)
        (l ← from_option EIndex (sort_from (stable_point_idx s) (commit_set s));
         modify (set_commit stable_idx l));
  s ← get;
  let error := modify (fun s => set_errors (stable_point_errors s ++ [(stable_ts, stable_idx)]) s) in
  if stable_idx <? u32 (Z.of_nat (length (commit_set s))) then
    e ← from_option EIndex (commit_set s !! Z.to_nat stable_idx);
    if (stable_ts <? e_ts e) && (0 <? stable_idx) then
      e' ← from_option EIndex (commit_set s !! Z.to_nat (stable_idx - 1));
      if e_ts e' <=? stable_ts then mret tt else error
    else error
  else error.

(** server_consensus_request_cmd_handler, after the message was parsed. *)
Definition server_consensus_request_cmd_handler (h : uint256) (stable_ts stable_idx : Z)
    (p2 p3 p4 : uint256) : AM unit :=
  s ← get;
  if base_id (queues s) =? 1 then mret tt else
  _ ← check_stable_point_index stable_ts stable_idx;
  _ ← exec h CbNone;
  _ ← exec p2 CbNone;
  _ ← exec p3 CbNone;
  exec p4 CbNone.

(** ** Events

    One handler call each; [rid] is 1 for the replica that leads. *)
Inductive AppInput :=
  | IRequest (h : uint256) (addr : NetAddr)
  | IOrdering1 (h : uint256) (addr : NetAddr)
  | IOrdering1Queue (clock : nat -> Z)
  | IOrdering2 (h : uint256) (ts : Z) (addr : NetAddr) (now : Z)
  | IOrdering2Queue
  | IConsensusReq (h : uint256) (stable_ts stable_idx : Z) (p2 p3 p4 : uint256)
  | IPending (proposer : ReplicaID)
  | IDecided (fin : Finality).

Definition app_exec (i : AppInput) : AM unit :=
  match i with
  | IRequest h addr => client_request_cmd_handler h addr
  | IOrdering1 h addr => client_ordering1_request_cmd_handler h addr
  | IOrdering1Queue clock => ordering1_handler clock
  | IOrdering2 h ts addr now => client_ordering2_request_cmd_handler h ts addr now
  | IOrdering2Queue => ordering2_handler
  | IConsensusReq h ts idx p2 p3 p4 => server_consensus_request_cmd_handler h ts idx p2 p3 p4
  | IPending p => _ ← app_cmd_pending p; mret tt
  | IDecided fin => app_decide fin
  end.

(** The timestamp of a request was read from eight bytes. *)
Definition input_ok (i : AppInput) : Prop :=
  match i with IOrdering2 _ ts _ _ => 0 <= ts < 2 ^ 64 | _ => True end.

(** A handler call that returned; the commit set must fit 32-bit indices. *)
Inductive app_step (s : HotStuffApp) : HotStuffApp -> Prop :=
  | app_step_input i s' : input_ok i -> Z.of_nat (length (commit_set s)) < 2 ^ 32 - 1 ->
      app_exec i s = (inl tt, s') -> app_step s s'.
End App.
