(* ===== verification/StablePoint.v ===== *)
(** * Stable points and batches

    Properties of Archipelago: what a batch of the leader contains, that a
    closed batch never changes and is answered exactly, and what the
    followers' check accepts. *)

From Stdlib Require Import ZArith Lia Sorting.Sorted.
From stdpp Require Import sorting.
From S2P Require Import Prelude Bytes Certs Core Commands Archipelago.

Section StablePoint.
Context `{Host} `{KeyTypes} `{!AppTypes} `{StdSort}.
Abbreviation app := HotStuffApp.

(** The elements the leader has put into a batch, and the others. *)
Definition closed (s : app) : list Entry := take (Z.to_nat (stable_point_idx s)) (commit_set s).
Definition pending (s : app) : list Entry := drop (Z.to_nat (stable_point_idx s)) (commit_set s).

(** The state invariant of the leader, between handler calls. *)
Definition rsp_ok (n : Z) (s : app) : Prop :=
  forall h r, exec_client_rsp s !! h = Some r -> 0 <= r.1 <= r.2 /\ r.2 <= n.
Record lead_inv (s : app) : Prop := {
  li_id : base_id (queues s) = 1;
  li_sp : stable_point s = 0;
  li_act : actions (queues s) = [];
  li_idx : 0 <= stable_point_idx s <= Z.of_nat (length (commit_set s));
  li_rsp : rsp_ok (stable_point_idx s) s }.

(** How the commit set develops: closed batches stay, the rest is
    rearranged and extended. *)
Record evolves (s s' : app) : Prop := {
  ev_idx : stable_point_idx s <= stable_point_idx s';
  ev_closed : take (Z.to_nat (stable_point_idx s)) (commit_set s') = closed s;
  ev_perm : exists new, commit_set s' ≡ₚ commit_set s ++ new }.

(** The commit set is left alone. *)
Record same_set (s s' : app) : Prop := {
  ss_id : base_id (queues s') = base_id (queues s);
  ss_sp : stable_point s' = stable_point s;
  ss_idx : stable_point_idx s' = stable_point_idx s;
  ss_set : commit_set s' = commit_set s;
  ss_rsp : forall h r, exec_client_rsp s' !! h = Some r -> exec_client_rsp s !! h = Some r \/ r = (0, 0) }.

#[export] Instance same_set_preorder : PreOrder same_set.
Proof.
  split; [intros s; by split; auto|]. intros s1 s2 s3 [] []. split; try congruence.
  intros h r Hr. naive_solver.
Qed.

#[export] Instance evolves_preorder : PreOrder evolves.
Proof.
  split.
  - intros s. split; [done|done|]. exists []. by rewrite app_nil_r.
  - intros s1 s2 s3 [Hi1 Hc1 [n1 Hp1]] [Hi2 Hc2 [n2 Hp2]]. split; [lia| |].
    + assert (Z.to_nat (stable_point_idx s1) <= Z.to_nat (stable_point_idx s2))%nat as Hle by lia.
      rewrite <- Hc1. unfold closed in Hc2.
      rewrite <- (Nat.min_l (Z.to_nat (stable_point_idx s1)) (Z.to_nat (stable_point_idx s2)) Hle).
      rewrite <- !take_take, Hc2. done.
    + exists (n1 ++ n2). by rewrite Hp2, Hp1, (assoc_L (++)).
Qed.

Lemma same_evolves s s' : same_set s s' -> evolves s s'.
Proof.
  intros []. split; [lia|by unfold closed; rewrite ss_set0|]. exists []. by rewrite ss_set0, app_nil_r.
Qed.

Lemma rsp_ok_same n s s' : 0 <= n -> same_set s s' -> rsp_ok n s -> rsp_ok n s'.
Proof. intros Hn Hs Hr h r Hh. destruct (ss_rsp _ _ Hs h r Hh) as [?| ->]; [by apply (Hr h)|]. simpl. lia. Qed.

Lemma lead_inv_same s s' : same_set s s' -> actions (queues s') = [] -> lead_inv s -> lead_inv s'.
Proof.
  intros Hs Ha []. split; try done; [by rewrite (ss_id _ _ Hs)|by rewrite (ss_sp _ _ Hs)|..].
  - by rewrite (ss_idx _ _ Hs), (ss_set _ _ Hs).
  - rewrite (ss_idx _ _ Hs). apply rsp_ok_same with s; [lia|done|done].
Qed.

(** ** Callbacks *)

Definition send_exec (e : Entry) : Output := SendExec (e_addr e) (e_hash e).

Lemma notify_spec n i s : 0 <= i -> i + Z.of_nat n <= Z.of_nat (length (commit_set s)) ->
  notify n i s =
  (inl tt, set_outputs (outputs s ++ (send_exec <$> take n (drop (Z.to_nat i) (commit_set s)))) s).
Proof.
  revert i s. induction n as [|n IH]; intros i s Hi Hn; simpl.
  - rewrite app_nil_r. by destruct s.
  - unfold mbind, M_bind, get. simpl.
    destruct (commit_set s !! Z.to_nat i) as [e|] eqn:He; [|apply lookup_ge_None in He; lia].
    unfold output, modify. simpl. rewrite IH by (simpl; lia). f_equal. unfold set_outputs. simpl. f_equal.
    rewrite <- (assoc_L (++)). f_equal. rewrite (drop_S _ _ _ He). simpl.
    replace (Z.to_nat (i + 1)) with (S (Z.to_nat i)) by lia. done.
Qed.

Lemma run_callback_batch h fin s r : exec_client_rsp s !! h = Some r ->
  0 <= r.1 <= r.2 -> r.2 <= Z.of_nat (length (commit_set s)) ->
  exists s', run_callback (CbBatch h) fin s = (inl tt, s') /\ same_set s s' /\
    queues s' = queues s /\ exec_client_rsp s' = exec_client_rsp s /\
    outputs s' = outputs s ++ (send_exec <$> take (Z.to_nat (r.2 - r.1)) (drop (Z.to_nat r.1) (commit_set s))).
Proof.
  intros Hr Hle Hn. unfold run_callback, mbind, M_bind, get, modify. rewrite Hr. simpl.
  rewrite (insert_id (exec_client_rsp s)) by done. rewrite notify_spec by (simpl; lia). simpl.
  unfold mwhen. destruct (exec_count s <? r.2); simpl; eexists; (split; [reflexivity|]);
    (split; [by split; simpl; auto|done]).
Qed.

Lemma run_callback_same cb fin s : rsp_ok (Z.of_nat (length (commit_set s))) s ->
  exists s', run_callback cb fin s = (inl tt, s') /\ same_set s s' /\ queues s' = queues s.
Proof.
  intros Hok. destruct cb as [addr|h|].
  - eexists. split; [reflexivity|]. by split; [split; simpl; auto|].
  - destruct (exec_client_rsp s !! h) as [r|] eqn:Hr.
    + destruct (Hok h r Hr) as [Hle Hn].
      destruct (run_callback_batch h fin s r Hr Hle Hn) as (s' & ? & ? & ? & _). by exists s'.
    + unfold run_callback, mbind, M_bind, get, modify. rewrite Hr. simpl.
      unfold mwhen. destruct (exec_count s <? 0); simpl; eexists; (split; [reflexivity|]);
        (split; [split; simpl; try done|done]);
        (intros h' r'; rewrite lookup_insert; case_decide; [intros [= <-]; by right|by left]).
  - eexists. split; [reflexivity|]. done.
Qed.

Lemma perform_same l s : rsp_ok (Z.of_nat (length (commit_set s))) s ->
  exists s', perform l s = (inl tt, s') /\ same_set s s' /\ queues s' = queues s.
Proof.
  revert s. induction l as [|a l IH]; intros s Hok; simpl; [by exists s|].
  assert (exists s1, match a with
    | ABeat cs => output (Beat cs)
    | AExecute fin => output (Execute fin)
    | ACall cb fin => run_callback cb fin end s = (inl tt, s1) /\ same_set s s1 /\ queues s1 = queues s)
    as (s1 & Hs1 & Hsame & Hq).
  { destruct a as [cs|cb fin|fin]; [|by apply run_callback_same|];
      (eexists; split; [reflexivity|]; by split; [split; simpl; auto|]). }
  destruct (IH s1) as (s2 & Hs2 & Hsame2 & Hq2).
  { rewrite (ss_set _ _ Hsame). apply rsp_ok_same with s; [lia|done|done]. }
  exists s2. unfold mbind, M_bind. rewrite Hs1. split; [done|].
  split; [by etrans|congruence].
Qed.

Lemma flush_same s : rsp_ok (Z.of_nat (length (commit_set s))) s ->
  exists s', flush s = (inl tt, s') /\ same_set s s' /\ actions (queues s') = [].
Proof.
  intros Hok. unfold flush, mbind, M_bind, get, modify. cbn [fst snd].
  match goal with |- context [perform ?l ?s0] => destruct (perform_same l s0 Hok) as (s' & -> & Hs & Hq) end.
  exists s'. split; [done|]. split; [|by rewrite Hq].
  transitivity (set_queues (mkCommands (base_id (queues s)) (blk_size (queues s)) (cmd_pending (queues s))
    (cmd_pending_buffer (queues s)) (decision_waiting (queues s)) (part_decided (queues s)) []) s); [|done].
  by split; simpl; auto.
Qed.
End StablePoint.

Section Batches.
Context `{Host} `{KeyTypes} `{!AppTypes} `{StdSort} `{!StdSortLaws}.
Abbreviation app := HotStuffApp.

Definition by_ts (a b : Entry) : Prop := e_ts a <= e_ts b.

Lemma sort_from_spec i l : 0 <= i <= Z.of_nat (length l) ->
  exists l', sort_from i l = Some l' /\ take (Z.to_nat i) l' = take (Z.to_nat i) l /\
    drop (Z.to_nat i) l' ≡ₚ drop (Z.to_nat i) l /\ StronglySorted by_ts (drop (Z.to_nat i) l').
Proof.
  intros Hi. unfold sort_from. rewrite (proj2 (Z.leb_le i _)) by lia. eexists. split; [reflexivity|].
  set (m := std_sort _ _ _).
  assert (length (take (Z.to_nat i) l) = Z.to_nat i) as Hl by (rewrite length_take; lia).
  rewrite take_app_length', drop_app_length' by done. split; [done|].
  split; [apply std_sort_perm|]. apply (std_sort_sorted _ e_ts).
Qed.

Lemma sort_from_perm i l l' : sort_from i l = Some l' -> l' ≡ₚ l.
Proof.
  unfold sort_from. case_match; [|done]. intros [= <-]. rewrite std_sort_perm. by rewrite take_drop.
Qed.

(** The scan stops at the first element above the end of the batch. *)
Lemma scan_spec be l i : StronglySorted by_ts l ->
  exists k, scan be l i = i + Z.of_nat k /\ (k <= length l)%nat /\
    Forall (fun e => e_ts e <= be) (take k l) /\ Forall (fun e => be < e_ts e) (drop k l).
Proof.
  intros Hs. revert i. induction Hs as [|e l Hs IH Hall]; intros i; simpl.
  { exists 0%nat. split; [lia|]. split; [done|]. by split. }
  destruct (Z.ltb_spec be (e_ts e)) as [Hlt|Hge].
  - exists 0%nat. split; [lia|]. split; [lia|]. split; [constructor|]. simpl. constructor; [done|].
    eapply Forall_impl; [exact Hall|]. intros x Hx. unfold by_ts in Hx. simpl in Hx. lia.
  - destruct (IH (i + 1)) as (k & -> & Hk & Ht & Hd). exists (S k). split; [lia|]. split; [lia|].
    split; [by constructor|done].
Qed.

(** The batch the leader closes. *)
Definition period_us (s : app) : Z := u32 (stable_period s * 1000).
Record batch_of (s s' : app) (h : uint256) (be : Z) : Prop := {
  bo_id : base_id (queues s') = base_id (queues s);
  bo_act : actions (queues s') = actions (queues s);
  bo_sp : stable_point s' = stable_point s;
  bo_idx : stable_point_idx s <= stable_point_idx s' <= Z.of_nat (length (commit_set s'));
  bo_closed : take (Z.to_nat (stable_point_idx s)) (commit_set s') = closed s;
  bo_perm : drop (Z.to_nat (stable_point_idx s)) (commit_set s') ≡ₚ pending s;
  bo_sorted : StronglySorted by_ts (drop (Z.to_nat (stable_point_idx s)) (commit_set s'));
  bo_in : Forall (fun e => e_ts e <= be)
    (take (Z.to_nat (stable_point_idx s' - stable_point_idx s)) (drop (Z.to_nat (stable_point_idx s)) (commit_set s')));
  bo_out : Forall (fun e => be < e_ts e) (pending s');
  bo_end : exists e, last (commit_set s') = Some e /\ be = u64 (e_ts e - period_us s);
  bo_sent : exists h1 h2 h3 h4,
    outputs s' = outputs s ++ [Broadcast h be (stable_point_idx s') h1 h2 h3 h4] /\
    cmd_pending (queues s') = cmd_pending (queues s) ++ [(h, CbBatch h); (h2, CbNone); (h3, CbNone); (h4, CbNone)];
  bo_rsp : exec_client_rsp s' = <[h := (stable_point_idx s, stable_point_idx s')]> (exec_client_rsp s) }.

Lemma close_batch_spec s : 0 <= stable_point_idx s <= Z.of_nat (length (commit_set s)) ->
  0 < Z.of_nat (length (commit_set s)) < 2 ^ 32 ->
  exists s' h be, close_batch s = (inl tt, s') /\ batch_of s s' h be.
Proof.
  intros Hi Hn. destruct (sort_from_spec _ _ Hi) as (l & Hl & Ht & Hp & Hs).
  pose proof (sort_from_perm _ _ _ Hl) as Hpl. apply Permutation_length in Hpl.
  set (i := stable_point_idx s) in *.
  destruct (lookup_lt_is_Some_2 l (length l - 1)%nat) as [e He]; [lia|].
  set (be := u64 (e_ts e - u32 (stable_period s * 1000))).
  destruct (scan_spec be (drop (Z.to_nat i) l) i Hs) as (k & Hk & Hkl & Hin & Hout).
  rewrite length_drop in Hkl.
  assert (take (Z.to_nat (Z.of_nat (length (commit_set s)) - i)) (drop (Z.to_nat i) l) = drop (Z.to_nat i) l) as Hfull
    by (apply take_ge; rewrite length_drop; lia).
  do 3 eexists. split.
  - unfold close_batch, next_dummy, output, exec, mbind, M_bind, get, modify. cbn -[Z.of_nat Z.pow u32 u64].
    fold i. rewrite Hl. cbn -[Z.of_nat Z.pow u32 u64]. rewrite (u32_small (Z.of_nat _)) by lia. rewrite u32_small by lia.
    replace (Z.to_nat (Z.of_nat (length (commit_set s)) - 1)) with (length l - 1)%nat by lia. rewrite He.
    cbn -[Z.of_nat Z.pow u32 u64]. fold be. rewrite Hfull, Hk. reflexivity.
  - assert (Z.to_nat (i + Z.of_nat k - i) = k) as Hkk by lia.
    assert (drop (Z.to_nat (i + Z.of_nat k)) l = drop k (drop (Z.to_nat i) l)) as Hdd
      by (rewrite drop_drop; f_equal; lia).
    split; cbn -[Z.of_nat Z.pow u32 u64]; fold i; try done.
    + lia.
    + by rewrite Hkk.
    + unfold pending. cbn -[Z.of_nat]. by rewrite Hdd.
    + exists e. rewrite last_lookup. split; [|done]. replace (pred (length l)) with (length l - 1)%nat by lia. exact He.
    + do 4 eexists. split; [done|]. by rewrite <- !(assoc_L (++)).
Qed.
End Batches.

Section Steps.
Context `{Host} `{KeyTypes} `{!AppTypes} `{StdSort} `{!StdSortLaws}.
Abbreviation app := HotStuffApp.

Lemma batch_of_lead s s' h be : lead_inv s -> batch_of s s' h be -> lead_inv s' /\ evolves s s'.
Proof.
  intros Hs Hb. pose proof (bo_idx _ _ _ _ Hb) as Hi. pose proof (li_idx _ Hs). split; [split|split].
  - rewrite (bo_id _ _ _ _ Hb). apply Hs.
  - rewrite (bo_sp _ _ _ _ Hb). apply Hs.
  - rewrite (bo_act _ _ _ _ Hb). apply Hs.
  - lia.
  - intros h' r. rewrite (bo_rsp _ _ _ _ Hb), lookup_insert. case_decide; [intros [= <-]; simpl; lia|].
    intros Hr. destruct (li_rsp _ Hs _ _ Hr). lia.
  - lia.
  - apply (bo_closed _ _ _ _ Hb).
  - exists []. rewrite app_nil_r. rewrite <- (take_drop (Z.to_nat (stable_point_idx s)) (commit_set s')).
    rewrite (bo_closed _ _ _ _ Hb), (bo_perm _ _ _ _ Hb). unfold closed, pending. by rewrite take_drop.
Qed.

(** A handler whose result keeps the commit set. *)
Definition quiet (m : M app AppError unit) : Prop := forall s, lead_inv s ->
  wp m (fun _ s' => same_set s s' /\ actions (queues s') = []) (fun e _ => e = EOverflow) s.

Lemma ordering1_loop_quiet clock q : quiet (ordering1_loop clock q).
Proof.
  revert clock. induction q as [|[h addr] q IH]; intros clock s Hs; simpl; [by split; [reflexivity|apply Hs]|].
  apply wp_bind, wp_modify. eapply wp_mono; [apply IH|..].
  - apply (lead_inv_same s); [by split; simpl; auto|apply Hs|done].
  - intros _ s' [Hsm Ha]. split; [|done]. etrans; [|done]. by split; simpl; auto.
  - done.
Qed.

Lemma ordering2_loop_quiet q : quiet (ordering2_loop q).
Proof.
  induction q as [|[h addr] q IH]; intros s Hs; simpl; [by split; [reflexivity|apply Hs]|].
  apply wp_bind, wp_modify. eapply wp_mono; [apply IH|..].
  - apply (lead_inv_same s); [by split; simpl; auto|apply Hs|done].
  - intros _ s' [Hsm Ha]. split; [|done]. etrans; [|done]. by split; simpl; auto.
  - done.
Qed.

Lemma ordering1_quiet h addr : quiet (client_ordering1_request_cmd_handler h addr).
Proof.
  intros s Hs. unfold client_ordering1_request_cmd_handler. wp_steps.
  eapply (wp_mono _ (fun _ s' => s' = s) _ (fun e _ => e = EOverflow)); [|intros c s' ->|done].
  - destruct (batch_received s !! h); [|by apply wp_ret]. by wp_steps.
  - wp_steps; (split; [by split; simpl; auto|apply Hs]).
Qed.

Lemma exec_quiet h cb : quiet (exec h cb).
Proof. intros s Hs. apply wp_modify. split; [by split; simpl; auto|apply Hs]. Qed.

Lemma flush_after f s : lead_inv s -> base_id (f (queues s)) = base_id (queues s) ->
  exists s', flush (set_queues (f (queues s)) s) = (inl tt, s') /\ same_set s s' /\ actions (queues s') = [].
Proof.
  intros Hs Hid. destruct (flush_same (set_queues (f (queues s)) s)) as (s' & Hf & Hsame & Ha).
  - intros h r Hr. destruct (li_rsp _ Hs h r Hr). pose proof (li_idx _ Hs). simpl. lia.
  - exists s'. split; [done|]. split; [|done]. etrans; [|exact Hsame]. by split; simpl; auto.
Qed.

Lemma decide_quiet fin : quiet (app_decide fin).
Proof.
  intros s Hs. unfold app_decide. apply wp_bind, wp_modify.
  destruct (flush_after (do_decide AppCallback fin) s Hs) as (s' & Hf & ? & ?); [apply do_decide_id|].
  unfold wp. by rewrite Hf.
Qed.

Lemma pending_quiet p : quiet (_ ← app_cmd_pending p; mret tt).
Proof.
  intros s Hs. unfold app_cmd_pending. do 2 apply wp_bind. apply wp_get. apply wp_bind, wp_modify, wp_bind.
  destruct (flush_after (fun q => (cmd_pending_handler AppCallback p q).2) s Hs) as (s' & Hf & ? & ?); [apply cmd_loop_id|].
  unfold wp at 1. by rewrite Hf.
Qed.

(** The state after a phase-2 request was recorded. *)
Definition received (h : uint256) (ts : Z) (addr : NetAddr) (s : app) : app :=
  let s := set_commit (stable_point_idx s) (commit_set s ++ [mkEntry h ts addr]) s in
  set_ordering (ordering1 s) (ordering2 s ++ [(h, addr)]) s.

Lemma received_evolves h ts addr s : lead_inv s -> lead_inv (received h ts addr s) /\ evolves s (received h ts addr s).
Proof.
  intros Hs. pose proof (li_idx _ Hs) as Hi.
  split; [split; try apply Hs; simpl; rewrite length_app; simpl; lia|]. split; simpl.
  - lia.
  - apply take_app_le. lia.
  - by eexists.
Qed.

(** A phase-2 request is recorded, and closes a batch when the leader's timer
    has run out. *)
Lemma ordering2_request_spec h ts addr now s : lead_inv s -> 0 <= ts ->
  Z.of_nat (length (commit_set s)) < 2 ^ 32 - 1 ->
  exists s', client_ordering2_request_cmd_handler h ts addr now s = (inl tt, s') /\
    let s1 := received h ts addr s in
    (same_set s1 s' /\ actions (queues s') = [] /\ outputs s' = outputs s) \/
    (exists hb be, batch_of (set_clock (u64 now) s1) s' hb be).
Proof.
  intros Hs Hts Hn. destruct (received_evolves h ts addr s Hs) as [Hs1 _].
  unfold client_ordering2_request_cmd_handler, mbind, M_bind, get, mwhen, modify.
  rewrite (li_sp _ Hs). rewrite (proj2 (Z.ltb_ge ts 0)) by done. cbn [fst snd mret M_ret].
  fold (received h ts addr s). rewrite (li_id _ Hs). cbn [Z.eqb Pos.eqb negb].
  change (set_ordering _ _ _) with (received h ts addr s).
  set (s1 := received h ts addr s) in *.
  assert (Z.of_nat (length (commit_set s1)) = Z.of_nat (length (commit_set s)) + 1) as Hl
    by (simpl; rewrite length_app; simpl; lia).
  assert (outputs s1 = outputs s) as Ho by done.
  clearbody s1. destruct (exec_last_batch_clock s =? 0).
  { eexists. split; [reflexivity|]. left. split; [by split; simpl; auto|]. split; [apply Hs1|done]. }
  destruct (_ <? u64 now).
  - destruct (close_batch_spec (set_clock (u64 now) s1)) as (s' & hb & be & Hc & Hb).
    + apply (li_idx _ Hs1).
    + simpl. rewrite Hl. lia.
    + exists s'. split; [exact Hc|]. right. by exists hb, be.
  - eexists. split; [reflexivity|]. left. split; [reflexivity|]. split; [apply Hs1|done].
Qed.
(** Every handler of the leader returns, keeps the invariant and lets the
    commit set develop; only the counter of phase 1 may overflow. *)
Lemma app_exec_spec i s : lead_inv s -> input_ok i ->
  Z.of_nat (length (commit_set s)) < 2 ^ 32 - 1 ->
  wp (app_exec i) (fun _ s' => lead_inv s' /\ evolves s s') (fun e _ => e = EOverflow) s.
Proof.
  intros Hs Hts Hn.
  assert (forall m, quiet m -> wp m (fun _ s' => lead_inv s' /\ evolves s s') (fun e _ => e = EOverflow) s) as Hq.
  { intros m Hm. eapply wp_mono; [apply Hm, Hs| |done]. intros _ s' [Hsame Ha].
    split; [by apply (lead_inv_same s)|by apply same_evolves]. }
  destruct i as [h addr|h addr|clock|h ts addr now| |h ts idx p2 p3 p4|p|fin]; cbn [app_exec].
  - apply Hq, exec_quiet.
  - apply Hq, ordering1_quiet.
  - apply Hq. intros s0 Hs0. unfold ordering1_handler. apply wp_bind, wp_get, wp_bind, wp_modify.
    assert (same_set s0 (set_ordering [] (ordering2 s0) s0)) as Hsame by (by split; simpl; auto).
    eapply wp_mono; [apply ordering1_loop_quiet, (lead_inv_same s0); [done|apply Hs0|done]| |done].
    intros _ s' [? ?]. split; [by etrans|done].
  - destruct (ordering2_request_spec h ts addr now s Hs (proj1 Hts) Hn) as (s' & Hr & Hcase). unfold wp. rewrite Hr.
    destruct (received_evolves h ts addr s Hs) as [Hs1 He1]. set (s1 := received h ts addr s) in *. clearbody s1.
    destruct Hcase as [(Hsame & Ha & _)|(hb & be & Hb)].
    + split; [by apply (lead_inv_same s1)|]. etrans; [exact He1|by apply same_evolves].
    + destruct (batch_of_lead (set_clock (u64 now) s1) s' hb be) as [Hs' He'];
        [apply (lead_inv_same s1); [by split; simpl; auto|apply Hs1|done]|done|].
      split; [done|]. etrans; [exact He1|]. etrans; [|exact He']. apply same_evolves. by split; simpl; auto.
  - apply Hq. intros s0 Hs0. unfold ordering2_handler. apply wp_bind, wp_get, wp_bind, wp_modify.
    assert (same_set s0 (set_ordering (ordering1 s0) [] s0)) as Hsame by (by split; simpl; auto).
    eapply wp_mono; [apply ordering2_loop_quiet, (lead_inv_same s0); [done|apply Hs0|done]| |done].
    intros _ s' [? ?]. split; [by etrans|done].
  - apply Hq. intros s0 Hs0. unfold server_consensus_request_cmd_handler. apply wp_bind, wp_get.
    rewrite (li_id _ Hs0). apply wp_ret. split; [reflexivity|apply Hs0].
  - apply Hq, pending_quiet.
  - apply Hq, decide_quiet.
Qed.
End Steps.

Section Leader.
Context `{Host} `{KeyTypes} `{!AppTypes} `{StdSort} `{!StdSortLaws}.
Abbreviation app := HotStuffApp.

Lemma new_lead b p : lead_inv (HotStuffApp_new 1 b p).
Proof. split; try done. Qed.

Lemma steps_lead s s' : lead_inv s -> rtc app_step s s' -> lead_inv s' /\ evolves s s'.
Proof.
  intros Hs. induction 1 as [s|s s1 s' [i s2 Hi Hn Hex] _ IH]; [by split|].
  pose proof (app_exec_spec i s Hs Hi Hn) as Hwp. unfold wp in Hwp. rewrite Hex in Hwp.
  destruct Hwp as [Hs2 He2]. destruct (IH Hs2) as [Hs3 He3]. split; [done|by etrans].
Qed.

(** A batch closed without an underflow leaves the newest command out. *)
Lemma batch_open (s s' : app) h be e : batch_of s s' h be ->
  stable_point_idx s < Z.of_nat (length (commit_set s)) -> last (commit_set s') = Some e ->
  0 < period_us s <= e_ts e -> e_ts e < 2 ^ 64 -> stable_point_idx s' < Z.of_nat (length (commit_set s')).
Proof.
  intros Hb Hlt He Hper Hmax. pose proof (bo_idx _ _ _ _ Hb) as Hi. pose proof (bo_in _ _ _ _ Hb) as Hin.
  destruct (bo_end _ _ _ _ Hb) as (e' & He' & Hbe). rewrite He in He'. injection He' as <-.
  destruct (decide (stable_point_idx s' < Z.of_nat (length (commit_set s')))) as [|Hge]; [done|exfalso].
  rewrite last_lookup in He. pose proof (lookup_lt_Some _ _ _ He).
  pose proof (Permutation_length (bo_perm _ _ _ _ Hb)) as Hlen. unfold pending in Hlen. rewrite !length_drop in Hlen.
  rewrite take_ge in Hin by (rewrite length_drop; lia). rewrite Forall_forall in Hin.
  assert (e_ts e <= be) as Hle.
  { apply Hin. apply (list_elem_of_lookup_2 _ (pred (length (commit_set s')) - Z.to_nat (stable_point_idx s))).
    rewrite lookup_drop. rewrite <- He. f_equal. lia. }
  rewrite Hbe in Hle. rewrite u64_small in Hle by lia. lia.
Qed.

(** C25. What the leader does when a command with its timestamp arrives: the command
    joins the pending ones, and a batch that it then broadcasts is exactly the
    pending commands up to the end that goes with it, sorted. *)
Theorem leader_batch_exact b p s h ts addr now :
  rtc app_step (HotStuffApp_new 1 b p) s -> 0 <= ts < 2 ^ 64 ->
  Z.of_nat (length (commit_set s)) < 2 ^ 32 - 1 ->
  exists s', client_ordering2_request_cmd_handler h ts addr now s = (inl tt, s') /\
    let i := Z.to_nat (stable_point_idx s) in let n := Z.to_nat (stable_point_idx s') in
    let l := commit_set s' in
    take i l = take i (commit_set s) /\ drop i l ≡ₚ drop i (commit_set s) ++ [mkEntry h ts addr] /\
    (outputs s' = outputs s /\ n = i \/
     exists hb be h1 h2 h3 h4 e,
       outputs s' = outputs s ++ [Broadcast hb be (stable_point_idx s') h1 h2 h3 h4] /\
       exec_client_rsp s' !! hb = Some (stable_point_idx s, stable_point_idx s') /\
       (i <= n)%nat /\ StronglySorted by_ts (drop i l) /\
       last l = Some e /\ be = u64 (e_ts e - period_us s) /\
       Forall (fun x => e_ts x <= be) (take (n - i) (drop i l)) /\
       Forall (fun x => be < e_ts x) (drop n l) /\
       (0 < period_us s <= e_ts e -> e_ts e < 2 ^ 64 -> (n < length l)%nat)).
Proof.
  intros Hr Hts Hn. destruct (steps_lead _ _ (new_lead b p) Hr) as [Hs _]. pose proof (li_idx _ Hs) as Hidx.
  destruct (ordering2_request_spec h ts addr now s Hs (proj1 Hts) Hn) as (s' & Hex & Hcase).
  exists s'. split; [exact Hex|]. cbv zeta.
  destruct Hcase as [(Hsame & _ & Ho)|(hb & be & Hb)].
  - rewrite (ss_set _ _ Hsame), (ss_idx _ _ Hsame). simpl. rewrite take_app_le, drop_app_le by lia. by auto.
  - pose proof (bo_closed _ _ _ _ Hb) as Hc. pose proof (bo_perm _ _ _ _ Hb) as Hp.
    pose proof (bo_idx _ _ _ _ Hb) as Hi. pose proof (bo_in _ _ _ _ Hb) as Hin.
    destruct (bo_sent _ _ _ _ Hb) as (h1 & h2 & h3 & h4 & Ho & _). destruct (bo_end _ _ _ _ Hb) as (e & He & Hbe).
    pose proof (bo_rsp _ _ _ _ Hb) as Hrsp. pose proof (bo_out _ _ _ _ Hb) as Hout.
    pose proof (bo_sorted _ _ _ _ Hb) as Hsrt.
    unfold closed, pending in Hc, Hp. cbn -[Z.of_nat Z.pow] in Hc, Hp, Hi, Hin, Ho, Hbe, Hrsp, Hsrt.
    rewrite take_app_le in Hc by lia. rewrite drop_app_le in Hp by lia.
    split; [exact Hc|]. split; [exact Hp|]. right. exists hb, be, h1, h2, h3, h4, e.
    split; [exact Ho|]. split; [rewrite Hrsp; by rewrite lookup_insert_eq|]. split; [lia|].
    split; [done|]. split; [done|]. split; [exact Hbe|].
    split; [by rewrite <- Z2Nat.inj_sub by lia|]. split; [exact Hout|].
    intros Hper Hmax. pose proof (batch_open _ _ _ _ e Hb) as Hopen. cbn -[Z.of_nat Z.pow] in Hopen.
    rewrite length_app in Hopen. cbn [length] in Hopen. specialize (Hopen ltac:(lia) He Hper Hmax). lia.
Qed.

(** C23. Batches that were closed stay as they are, when handlers run one at a time. *)
Theorem closed_batches_final b p s s' :
  rtc app_step (HotStuffApp_new 1 b p) s -> rtc app_step s s' ->
  let i := Z.to_nat (stable_point_idx s) in
  take i (commit_set s') = take i (commit_set s) /\ (i <= Z.to_nat (stable_point_idx s'))%nat /\
  (exists new, commit_set s' ≡ₚ commit_set s ++ new) /\
  forall input, input_ok input -> Z.of_nat (length (commit_set s')) < 2 ^ 32 - 1 ->
    wp (app_exec input) (fun _ _ => True) (fun e _ => e = EOverflow) s'.
Proof.
  intros Hr Hr'. destruct (steps_lead _ _ (new_lead b p) Hr) as [Hs _].
  destruct (steps_lead _ _ Hs Hr') as [Hs' []]. pose proof (li_idx _ Hs). cbv zeta.
  split; [done|]. split; [lia|]. split; [done|]. intros input Hi Hn.
  eapply wp_mono; [by apply app_exec_spec|done|done].
Qed.

(** C27. A batch is answered exactly, when the callback registered for its hash is
    the leader's own and the range kept for the hash is still that of the batch.
    A client that registers the hash first takes the callback's place:
    [AppRuns.unagreed_batch_answered]. *)
Theorem batch_answered b p s1 s h r fin :
  rtc app_step (HotStuffApp_new 1 b p) s1 -> rtc app_step s1 s ->
  exec_client_rsp s1 !! h = Some r -> exec_client_rsp s !! h = Some r ->
  decision_waiting (queues s) !! h = Some (CbBatch h) -> cmd_hash fin = h ->
  exists s', app_decide fin s = (inl tt, s') /\
    outputs s' = outputs s ++ Execute fin ::
      (send_exec <$> take (Z.to_nat (r.2 - r.1)) (drop (Z.to_nat r.1) (commit_set s1))).
Proof.
  intros Hr1 Hr Hh1 Hh Hw Hfin. destruct (steps_lead _ _ (new_lead b p) Hr1) as [Hs1 _].
  destruct (steps_lead _ _ Hs1 Hr) as [Hs [_ Hc _]].
  destruct (li_rsp _ Hs1 _ _ Hh1) as [Hle Hle2]. pose proof (li_idx _ Hs1). pose proof (li_idx _ Hs).
  destruct (li_rsp _ Hs _ _ Hh) as [_ Hle3].
  assert (actions (do_decide AppCallback fin (queues s)) = [AExecute fin; ACall (CbBatch h) fin]) as Ha.
  { unfold do_decide. cbn. rewrite Hfin, Hw. cbn. by rewrite (li_act _ Hs). }
  unfold app_decide, flush, mbind, M_bind, get, modify. cbn [queues set_queues]. rewrite Ha.
  set (q := do_decide AppCallback fin (queues s)). clearbody q. cbn [perform].
  unfold mbind, M_bind. cbn [output modify].
  match goal with |- context [run_callback _ _ ?s0] => set (s0' := s0) end.
  destruct (run_callback_batch h fin s0' r Hh Hle) as (s' & Hrun & _ & _ & _ & Ho); [simpl; lia|].
  rewrite Hrun. exists s'. split; [done|]. rewrite Ho. subst s0'. cbn [outputs set_outputs set_queues commit_set].
  rewrite <- (assoc_L (++)). cbn [Datatypes.app]. do 3 f_equal. rewrite !take_drop_commute. f_equal.
  assert (Z.to_nat r.1 + Z.to_nat (r.2 - r.1) = Z.to_nat r.2)%nat as -> by lia.
  assert (Z.to_nat r.2 <= Z.to_nat (stable_point_idx s1))%nat as Hb by lia.
  rewrite <- (Nat.min_l _ _ Hb), <- !take_take. by rewrite Hc.
Qed.
End Leader.

(** ** The followers' check *)

Section Follower.
Context `{Host} `{KeyTypes} `{!AppTypes} `{StdSort} `{!StdSortLaws}.
Abbreviation app := HotStuffApp.

Lemma filter_split {A} (P : A -> Prop) `{forall x, Decision (P x)} l k :
  Forall P (take k l) -> Forall (fun x => ~ P x) (drop k l) -> filter P l = take k l.
Proof.
  assert (forall l, Forall P l -> filter P l = l) as Hall.
  { induction 1 as [|x xs Hx _ IH]; [done|]. by rewrite filter_cons_True, IH. }
  assert (forall l, Forall (fun x => ~ P x) l -> filter P l = []) as Hnone.
  { induction 1 as [|x xs Hx _ IH]; [done|]. by rewrite filter_cons_False. }
  intros Ht Hd. rewrite <- (take_drop k l) at 1. by rewrite filter_app, Hall, Hnone, app_nil_r.
Qed.

(** Split at [n], a list has the commands up to [be] first. *)
Definition split_at (be : Z) (n : nat) (l : list Entry) : Prop :=
  Forall (fun e => e_ts e <= be) (take n l) /\ Forall (fun e => be < e_ts e) (drop n l).

Lemma split_filter be n l : split_at be n l -> filter (fun e => e_ts e <= be) l = take n l.
Proof.
  intros [Ht Hd]. apply filter_split; [done|]. eapply Forall_impl; [exact Hd|]. simpl. lia.
Qed.

(** A sorted rearrangement splits at the same index into the same parts. *)
Lemma split_sorted be n l l' : (n <= length l)%nat -> l' ≡ₚ l -> split_at be n l -> StronglySorted by_ts l' ->
  split_at be n l' /\ take n l' ≡ₚ take n l.
Proof.
  intros Hn Hp Hs Hsort. destruct (scan_spec be l' 0 Hsort) as (k & _ & Hk & Ht & Hd).
  assert (take k l' ≡ₚ take n l) as Hpk.
  { rewrite <- (split_filter be n l Hs), <- (split_filter be k l' (conj Ht Hd)). by rewrite Hp. }
  assert (k = n) as ->; [|by split].
  pose proof (Permutation_length Hpk) as Hl. rewrite !length_take in Hl.
  pose proof (Permutation_length Hp). lia.
Qed.

(** The check passes when the index splits the commit set, away from both
    ends. *)
Lemma check_passes be n f : base_id (queues f) <> 1 -> 0 < n ->
  n < Z.of_nat (length (commit_set f)) < 2 ^ 32 -> n <= stable_point_idx f -> split_at be (Z.to_nat n) (commit_set f) ->
  check_stable_point_index be n f = (inl tt, f).
Proof.
  intros Hid Hn Hlen Hidx [Ht Hd]. unfold check_stable_point_index, mbind, M_bind, get, mwhen.
  rewrite (proj2 (Z.ltb_ge (stable_point_idx f) n)) by lia. cbn [mret M_ret].
  rewrite u32_small, (proj2 (Z.ltb_lt n _)) by lia.
  destruct (lookup_lt_is_Some_2 (commit_set f) (Z.to_nat n)) as [e He]; [lia|].
  destruct (lookup_lt_is_Some_2 (commit_set f) (Z.to_nat (n - 1))) as [e' He']; [lia|].
  rewrite He, He'. cbn [from_option mret M_ret].
  assert (be < e_ts e) as Hlt.
  { rewrite Forall_forall in Hd. apply Hd. apply (list_elem_of_lookup_2 _ 0). rewrite lookup_drop.
    by rewrite Nat.add_0_r. }
  assert (e_ts e' <= be) as Hle.
  { rewrite Forall_forall in Ht. apply Ht. apply (list_elem_of_lookup_2 _ (Z.to_nat (n - 1))).
    by rewrite lookup_take_lt by lia. }
  by rewrite (proj2 (Z.ltb_lt _ _) Hlt), (proj2 (Z.leb_le _ _) Hle), (proj2 (Z.ltb_lt 0 n) Hn).
Qed.

Lemma check_sorts be n f l : stable_point_idx f < n ->
  sort_from (stable_point_idx f) (commit_set f) = Some l ->
  check_stable_point_index be n f = check_stable_point_index be n (set_commit n l f).
Proof.
  intros Hlt Hl. unfold check_stable_point_index, mbind, M_bind, get, mwhen, modify.
  rewrite (proj2 (Z.ltb_lt _ _) Hlt), Hl. cbn. by rewrite Z.ltb_irrefl.
Qed.

(** A follower that has the same commands in the same closed batches accepts
    what the leader broadcasts, and closes the same batch. *)
Lemma follower_accepts be n (i : Z) f cs : base_id (queues f) <> 1 ->
  stable_point_idx f = i -> 0 <= i <= n -> 0 < n < Z.of_nat (length cs) -> Z.of_nat (length cs) < 2 ^ 32 ->
  commit_set f ≡ₚ cs -> take (Z.to_nat i) (commit_set f) ≡ₚ take (Z.to_nat i) cs ->
  split_at be (Z.to_nat n) cs ->
  exists f', check_stable_point_index be n f = (inl tt, f') /\ queues f' = queues f /\
    stable_point_errors f' = stable_point_errors f /\
    stable_point_idx f' = n /\ take (Z.to_nat n) (commit_set f') ≡ₚ take (Z.to_nat n) cs /\ commit_set f' ≡ₚ cs.
Proof.
  intros Hid Hi Hin Hn Hlen Hp Hpre [Ht Hd]. pose proof (Permutation_length Hp) as Hl.
  assert (drop (Z.to_nat i) (commit_set f) ≡ₚ drop (Z.to_nat i) cs) as Hpost.
  { rewrite <- (take_drop (Z.to_nat i) (commit_set f)), <- (take_drop (Z.to_nat i) cs), Hpre in Hp.
    by apply Permutation_app_inv_l in Hp. }
  destruct (decide (i = n)) as [->|Hne].
  - rewrite <- Hpre in Ht. rewrite <- Hpost in Hd.
    exists f. split; [apply check_passes; [done|lia|lia|lia|done]|]. by split_and!.
  - destruct (sort_from_spec (stable_point_idx f) (commit_set f)) as (l & Hsort & Hlt & Hlp & Hls); [lia|].
    rewrite Hi in Hlt, Hlp, Hls. set (k := Z.to_nat i) in *.
    assert (l = take k l ++ drop k l) as Hsplit by (by rewrite take_drop).
    assert (Z.to_nat n = k + (Z.to_nat n - k))%nat as Hkn by lia.
    assert (split_at be (Z.to_nat n - k) (drop k cs)) as Hcs.
    { split; [by rewrite take_drop_commute, <- Hkn; apply Forall_drop|]. rewrite drop_drop. by rewrite <- Hkn. }
    destruct (split_sorted be (Z.to_nat n - k) (drop k cs) (drop k l)) as [[Ht1 Hd1] Hp1];
      [rewrite length_drop; lia|by rewrite Hlp|done|done|].
    set (f1 := set_commit n l f).
    assert (take (Z.to_nat n) l ≡ₚ take (Z.to_nat n) cs) as Htn.
    { rewrite Hkn, <- !take_take_drop, Hlt, Hpre. by rewrite Hp1. }
    assert (split_at be (Z.to_nat n) l) as Hsp.
    { split; [by rewrite Htn|]. rewrite Hkn, <- drop_drop. exact Hd1. }
    pose proof (sort_from_perm _ _ _ Hsort) as Hpl. pose proof (Permutation_length Hpl).
    exists f1. split; [rewrite (check_sorts be n f l) by (lia || done); apply check_passes; simpl; try done; lia|].
    split_and!; try done. simpl. by rewrite Hpl.
Qed.

(** C26. A follower with the leader's commands and closed batches accepts the
    leader's next batch, when the batch index is not 0, no timestamp is below the
    period, and no closed command is later than the end of the batch.  The index 0
    of a first, empty batch is flagged: [empty_first_batch_flagged]. *)
Theorem honest_batch_accepted b p s h ts addr now s' hb be n h1 h2 h3 h4 f p2 p3 p4 :
  rtc app_step (HotStuffApp_new 1 b p) s -> 0 <= ts < 2 ^ 64 ->
  Z.of_nat (length (commit_set s)) < 2 ^ 32 - 1 ->
  client_ordering2_request_cmd_handler h ts addr now s = (inl tt, s') ->
  outputs s' = outputs s ++ [Broadcast hb be n h1 h2 h3 h4] -> 0 < n -> 0 < period_us s ->
  Forall (fun e => period_us s <= e_ts e < 2 ^ 64) (commit_set s') ->
  let i := Z.to_nat (stable_point_idx s) in
  Forall (fun e => e_ts e <= be) (take i (commit_set s)) ->
  base_id (queues f) <> 1 -> stable_point_idx f = stable_point_idx s ->
  commit_set f ≡ₚ commit_set s' -> take i (commit_set f) ≡ₚ take i (commit_set s) ->
  exists f', server_consensus_request_cmd_handler hb be n p2 p3 p4 f = (inl tt, f') /\
    stable_point_errors f' = stable_point_errors f /\
    stable_point_idx f' = n /\ take (Z.to_nat n) (commit_set f') ≡ₚ take (Z.to_nat n) (commit_set s') /\
    commit_set f' ≡ₚ commit_set s' /\
    cmd_pending (queues f') = cmd_pending (queues f) ++ [(hb, CbNone); (p2, CbNone); (p3, CbNone); (p4, CbNone)].
Proof.
  intros Hr Hts Hn Hex Hout Hn0 Hper Hall i Hcl Hid Hfi Hfp Hfc.
  destruct (steps_lead _ _ (new_lead b p) Hr) as [Hs _]. pose proof (li_idx _ Hs) as Hidx.
  destruct (ordering2_request_spec h ts addr now s Hs (proj1 Hts) Hn) as (s'' & Hex' & Hcase).
  rewrite Hex in Hex'. injection Hex' as <-. destruct Hcase as [(_ & _ & Ho)|(hb' & be' & Hb)].
  { rewrite Hout in Ho. apply (f_equal length) in Ho. rewrite length_app in Ho. simpl in Ho. lia. }
  destruct (bo_sent _ _ _ _ Hb) as (q1 & q2 & q3 & q4 & Ho & _). cbn -[Z.pow] in Ho.
  rewrite Hout in Ho. apply app_inv_head in Ho. injection Ho as <- <- -> _ _ _ _.
  pose proof (bo_idx _ _ _ _ Hb) as Hi. pose proof (bo_closed _ _ _ _ Hb) as Hc. pose proof (bo_in _ _ _ _ Hb) as Hin.
  pose proof (bo_out _ _ _ _ Hb) as Hrest. destruct (bo_end _ _ _ _ Hb) as (e & He & _).
  pose proof (batch_open _ _ _ _ e Hb) as Hopen. pose proof (Permutation_length (bo_perm _ _ _ _ Hb)) as Hl.
  unfold closed, pending in Hc, Hl. cbn -[Z.of_nat Z.pow] in Hi, Hc, Hin, Hopen, Hl.
  rewrite take_app_le in Hc by lia. fold i in Hc, Hl, Hin. rewrite !length_drop, length_app in Hl. rewrite length_app in Hopen. cbn [length] in Hl, Hopen.
  assert (period_us s <= e_ts e < 2 ^ 64) as He64.
  { rewrite Forall_forall in Hall. apply Hall. rewrite last_lookup in He. by eapply list_elem_of_lookup_2. }
  specialize (Hopen ltac:(lia) He ltac:(split; [exact Hper|apply He64]) (proj2 He64)).
  assert (Z.to_nat (stable_point_idx s') = i + (Z.to_nat (stable_point_idx s' - stable_point_idx s)))%nat as Hni by lia.
  destruct (follower_accepts be (stable_point_idx s') (stable_point_idx s) f (commit_set s')) as
    (f1 & Hchk & Hq & Herr & Hf1 & Hf2 & Hf3); [done|done|lia|lia|lia|done|by fold i; rewrite Hfc, Hc| |].
  { split; [|exact Hrest]. rewrite Hni, <- take_take_drop. apply Forall_app. split; [by rewrite Hc|done]. }
  unfold server_consensus_request_cmd_handler, mbind, M_bind, get, exec, modify.
  rewrite (proj2 (Z.eqb_neq _ _) Hid), Hchk. eexists. split; [reflexivity|].
  cbn. rewrite Hq, <- !(assoc_L (++)). split_and!; done.
Qed.
End Follower.

(** ** What the followers' check gets wrong *)

Section CheckBugs.
Context `{Host} `{KeyTypes} `{!AppTypes} `{StdSort} `{!StdSortLaws}.
Abbreviation app := HotStuffApp.

Lemma server_past_end h ts n p2 p3 p4 (f : app) : base_id (queues f) <> 1 ->
  Z.of_nat (length (commit_set f)) < stable_point_idx f -> stable_point_idx f < n ->
  (server_consensus_request_cmd_handler h ts n p2 p3 p4 f).1 = inr EIndex.
Proof.
  intros Hid Hlt Hn. unfold server_consensus_request_cmd_handler, check_stable_point_index, mbind, M_bind, get, mwhen.
  rewrite (proj2 (Z.eqb_neq _ _) Hid), (proj2 (Z.ltb_lt (stable_point_idx f) n)) by lia.
  unfold sort_from. by rewrite (proj2 (Z.leb_gt (stable_point_idx f) _)) by lia.
Qed.

(** A follower that has received fewer commands than the leader's index
    records an error but adopts the index; the next larger index then makes
    it sort a range that starts past the end of its commit set. *)
Theorem lagging_follower_undefined f h1 h2 t1 t2 i1 i2 p2 p3 p4 : base_id (queues f) <> 1 ->
  0 <= stable_point_idx f <= Z.of_nat (length (commit_set f)) ->
  Z.of_nat (length (commit_set f)) < i1 < i2 -> i2 < 2 ^ 32 ->
  exists f1, server_consensus_request_cmd_handler h1 t1 i1 p2 p3 p4 f = (inl tt, f1) /\
    stable_point_errors f1 = stable_point_errors f ++ [(t1, i1)] /\
    (server_consensus_request_cmd_handler h2 t2 i2 p2 p3 p4 f1).1 = inr EIndex.
Proof.
  intros Hid Hi Hlt Hmax. destruct (sort_from_spec _ _ Hi) as (l & Hl & _).
  pose proof (Permutation_length (sort_from_perm _ _ _ Hl)) as Hlen.
  unfold server_consensus_request_cmd_handler at 1, check_stable_point_index at 1, mbind, M_bind, get, mwhen, modify, exec.
  rewrite (proj2 (Z.eqb_neq _ _) Hid), (proj2 (Z.ltb_lt (stable_point_idx f) i1)), Hl by lia.
  cbn -[Z.of_nat u32 Z.pow]. rewrite u32_small, (proj2 (Z.ltb_ge i1 _)) by lia.
  cbn -[Z.of_nat u32 Z.pow]. eexists. split; [reflexivity|]. split; [done|].
  apply server_past_end; simpl; [done|lia..].
Qed.

Lemma check_zero be (f : app) : 0 <= stable_point_idx f ->
  check_stable_point_index be 0 f = (inl tt, set_errors (stable_point_errors f ++ [(be, 0)]) f).
Proof.
  intros Hf. unfold check_stable_point_index, mbind, M_bind, get, mwhen.
  rewrite (proj2 (Z.ltb_ge (stable_point_idx f) 0)) by lia. cbn [mret M_ret].
  destruct (commit_set f) as [|x xs] eqn:Hc; [done|]. destruct (0 <? _); [|done].
  change ((x :: xs) !! Z.to_nat 0) with (Some x). unfold from_option at 1. unfold mret, M_ret.
  by rewrite Z.ltb_irrefl, andb_false_r.
Qed.

(** When no command is stable at the first batch the leader broadcasts the
    index 0, and every follower records an error. *)
Theorem empty_first_batch_flagged b p h1 h2 t addr : 0 < p -> p * 1000 <= t < 2 ^ 64 -> p * 1000 < 2 ^ 32 ->
  exists s1 s2 hb be q1 q2 q3 q4,
    client_ordering2_request_cmd_handler h1 t addr 1 (HotStuffApp_new 1 b p) = (inl tt, s1) /\
    client_ordering2_request_cmd_handler h2 t addr (2 + p * 1000) s1 = (inl tt, s2) /\
    outputs s2 = [Broadcast hb be 0 q1 q2 q3 q4] /\
    forall f, base_id (queues f) <> 1 -> 0 <= stable_point_idx f ->
      exists f', server_consensus_request_cmd_handler hb be 0 q2 q3 q4 f = (inl tt, f') /\
        stable_point_errors f' = stable_point_errors f ++ [(be, 0)].
Proof.
  intros Hp Ht Hmax. set (s0 := HotStuffApp_new 1 b p).
  assert (stable_period s0 = p) as Hper by (apply u32_small; lia).
  set (s1 := set_clock 1 (received h1 t addr s0)).
  assert (client_ordering2_request_cmd_handler h1 t addr 1 s0 = (inl tt, s1)) as H1'.
  { unfold client_ordering2_request_cmd_handler, mbind, M_bind, get, mwhen, modify. cbn -[Z.of_nat Z.pow].
    by rewrite (proj2 (Z.ltb_ge t 0)) by lia. }
  destruct (close_batch_spec (set_clock (u64 (2 + p * 1000)) (received h2 t addr s1))) as (s2 & hb & be & Hc & Hb).
  { simpl. lia. } { simpl. lia. }
  destruct (bo_sent _ _ _ _ Hb) as (q1 & q2 & q3 & q4 & Ho & _).
  exists s1, s2, hb, be, q1, q2, q3, q4. split; [done|]. split.
  { unfold client_ordering2_request_cmd_handler, mbind, M_bind, get, mwhen, modify.
    cbn -[Z.of_nat Z.pow u64 u32 close_batch Z.mul Z.add]. rewrite (proj2 (Z.ltb_ge t 0)) by lia.
    cbn -[Z.of_nat Z.pow u64 u32 close_batch Z.mul Z.add].
    rewrite (u32_small p), (u32_small (p * 1000)), (u64_small (1 + _)), (u64_small (2 + _)) by lia.
    rewrite (proj2 (Z.ltb_lt _ _)) by lia. rewrite (u64_small (2 + _)) in Hc by lia. exact Hc. }
  pose proof (bo_perm _ _ _ _ Hb) as Hperm. pose proof (bo_in _ _ _ _ Hb) as Hin. pose proof (bo_idx _ _ _ _ Hb) as Hi.
  destruct (bo_end _ _ _ _ Hb) as (e & He & Hbe).
  unfold pending in Hperm. cbn -[Z.of_nat Z.pow u64 u32] in Hperm, Hin, Hi, Ho.
  assert (forall x, x ∈ commit_set s2 -> e_ts x = t) as Hts.
  { intros x Hx. rewrite drop_0 in Hperm. rewrite Hperm in Hx. set_solver. }
  assert (be = t - p * 1000) as ->.
  { rewrite Hbe, (Hts e). 2: { rewrite last_lookup in He. by eapply list_elem_of_lookup_2. }
    unfold period_us. cbn -[Z.pow u64 u32]. rewrite (u32_small p), (u32_small (p * 1000)), u64_small by lia. done. }
  assert (stable_point_idx s2 = 0) as Hz.
  { destruct (decide (stable_point_idx s2 = 0)) as [|Hne]; [done|exfalso].
    rewrite drop_0, Z.sub_0_r in Hin. destruct (commit_set s2) as [|x xs] eqn:Hcs; [simpl in Hi; lia|].
    destruct (Z.to_nat (stable_point_idx s2)) eqn:Hn; [lia|]. simpl in Hin.
    inversion Hin as [|? ? Hx _]. rewrite (Hts x) in Hx by (by left). lia. }
  split; [by rewrite Ho, Hz|]. intros f Hid Hfi.
  unfold server_consensus_request_cmd_handler, mbind, M_bind, get, modify, exec.
  rewrite (proj2 (Z.eqb_neq _ _) Hid), check_zero by lia. by eexists.
Qed.
End CheckBugs.
