(* ===== verification/Client.v ===== *)
(** * Archipelago's client

    [examples/archipelago_client.cpp]: the client keeps a window of commands,
    collects 2f+1 timestamps for each in ordering phase 1, sends the one it
    picks to the replicas in phase 2 and waits for the answers.  The function
    client_resp_cmd_handler is not registered by the program and left out,
    with the measurement of times. *)

From Stdlib Require Import ZArith Lia Sorting.Sorted.
From stdpp Require Import sorting.
From S2P Require Import Prelude Bytes Certs Core Archipelago.

Section Client.
Context `{KeyTypes} `{!AppTypes} `{StdSort}.

(** struct Request; the counters are size_t. *)
Record Request := mkRequest {
  ordering_rtt1 : Z;
  ordering_rtt2 : Z;
  ordering_rtt3 : Z;
  timestamps : list Z;
}.
Definition Request_new : Request := mkRequest 0 0 0 [].

(** Messages, with the replica they go to. *)
Inductive ClientMsg :=
  | SendOrder1 (to : ReplicaID) (h : uint256)
  | SendOrder2 (to : ReplicaID) (h : uint256) (timestamp : Z).

(** The global variables. *)
Record Client := mkClient {
  cid : Z;                              (* uint32_t *)
  cnt : Z;                              (* uint32_t *)
  nfaulty : Z;                          (* uint32_t *)
  BATCH_SIZE : Z;                       (* int *)
  max_async_num : Z;                    (* size_t *)
  max_iter_num : Z;                     (* int *)
  conns : list ReplicaID;
  waiting : gmap uint256 Request;
  waiting_exec : gmap uint256 Request;
  count_order : Z;
  count_exec : Z;
  messages : list ClientMsg;            (* oldest first *)
}.

(** main: [n] replicas, and the options. *)
Definition Client_new (id bsz async iter : Z) (n : nat) : Client :=
  mkClient (u32 id) 0 (u32 (u64 (Z.of_nat n - 1) / 3)) bsz async iter (seqZ 0 (Z.of_nat n)) ∅ ∅ 0 0 [].

Definition set_window c w it (s : Client) := mkClient (cid s) c (nfaulty s) (BATCH_SIZE s) (max_async_num s) it
  (conns s) w (waiting_exec s) (count_order s) (count_exec s) (messages s).
Definition set_wait w (s : Client) := mkClient (cid s) (cnt s) (nfaulty s) (BATCH_SIZE s) (max_async_num s)
  (max_iter_num s) (conns s) w (waiting_exec s) (count_order s) (count_exec s) (messages s).
Definition set_exec w no ne (s : Client) := mkClient (cid s) (cnt s) (nfaulty s) (BATCH_SIZE s) (max_async_num s)
  (max_iter_num s) (conns s) (waiting s) w no ne (messages s).
Definition send ms (s : Client) := mkClient (cid s) (cnt s) (nfaulty s) (BATCH_SIZE s) (max_async_num s)
  (max_iter_num s) (conns s) (waiting s) (waiting_exec s) (count_order s) (count_exec s) (messages s ++ ms).

Abbreviation CLM := (M Client AppError).

(** try_send(): the map's insert keeps an entry it already has. *)
Definition try_send : CLM bool :=
  s ← get;
  if (Z.of_nat (size (waiting s)) <? max_async_num s) && negb (max_iter_num s =? 0) then
    let h := dummy_hash (cid s) (cnt s) in
    _ ← modify (send (mjoin (replicate (Z.to_nat (BATCH_SIZE s)) ((fun p => SendOrder1 p h) <$> conns s))));
    let w := match waiting s !! h with Some _ => waiting s | None => <[h := Request_new]> (waiting s) end in
    _ ← modify (set_window (u32 (cnt s + 1)) w
                  (if 0 <? max_iter_num s then max_iter_num s - 1 else max_iter_num s));
    mret true
  else mret false.

(** while (try_send()); with a bound on the number of rounds: [false] when
    it is exhausted. *)
Fixpoint send_all (fuel : nat) : CLM bool :=
  match fuel with
  | O => mret false
  | S fuel => b ← try_send; if b : bool then send_all fuel else mret true
  end.

Definition client_ordering1_resp_cmd_handler (h : uint256) (timestamp_us : Z) : CLM unit :=
  s ← get;
  match waiting s !! h with
  | None => mret tt
  | Some r =>
    let ts := timestamps r ++ [timestamp_us] in
    let n := u64 (ordering_rtt1 r + 1) in
    let put ts := modify (set_wait (<[h := mkRequest n (ordering_rtt2 r) (ordering_rtt3 r) ts]> (waiting s))) in
    if negb (n =? u32 (nfaulty s * 2 + 1)) then put ts else
    let ts := std_sort Z Z.ltb ts in
    _ ← put ts;
    median ← from_option EIndex (ts !! Z.to_nat (u32 (nfaulty s + 1)));
    modify (send ((fun p => SendOrder2 p h median) <$> conns s))
  end.

Definition client_ordering2_resp_cmd_handler (fuel : nat) (h : uint256) : CLM bool :=
  s ← get;
  match waiting s !! h with
  | None => mret true
  | Some r =>
    let n := u64 (ordering_rtt2 r + 1) in
    let r := mkRequest (ordering_rtt1 r) n (ordering_rtt3 r) (timestamps r) in
    if negb (n =? u32 (nfaulty s * 2 + 1)) then
      _ ← modify (set_wait (<[h := r]> (waiting s))); mret true
    else
      let we := match waiting_exec s !! h with
                | Some _ => waiting_exec s | None => <[h := r]> (waiting_exec s) end in
      _ ← modify (set_exec we (count_order s + 1) (count_exec s));
      _ ← modify (set_wait (delete h (waiting s)));
      send_all fuel
  end.

Definition client_ordering_exec_resp_handler (h : uint256) : CLM unit :=
  s ← get;
  match waiting_exec s !! h with
  | None => mret tt
  | Some r =>
    let n := u64 (ordering_rtt3 r + 1) in
    if negb (n =? 1) then
      modify (set_exec (<[h := mkRequest (ordering_rtt1 r) (ordering_rtt2 r) n (timestamps r)]> (waiting_exec s))
                (count_order s) (count_exec s))
    else modify (set_exec (delete h (waiting_exec s)) (count_order s) (count_exec s + 1))
  end.

(** The responses of phase 1 for one command, in the order they arrive. *)
Definition responses (h : uint256) (ts : list Z) : CLM unit :=
  foldl (fun m t => _ ← m; client_ordering1_resp_cmd_handler h t) (mret tt) ts.

(** ** Phase 1 *)

Lemma responses_app h ts t s :
  responses h (ts ++ [t]) s = (_ ← responses h ts; client_ordering1_resp_cmd_handler h t) s.
Proof. unfold responses. by rewrite foldl_app. Qed.

(** Before the last of the 2f+1 responses they are only collected. *)
Lemma responses_collect h s r ts : waiting s !! h = Some r -> ordering_rtt1 r = 0 -> timestamps r = [] ->
  0 <= nfaulty s < 2 ^ 31 - 1 -> Z.of_nat (length ts) < nfaulty s * 2 + 1 ->
  exists s1, responses h ts s = (inl tt, s1) /\ nfaulty s1 = nfaulty s /\ conns s1 = conns s /\
    waiting s1 !! h = Some (mkRequest (Z.of_nat (length ts)) (ordering_rtt2 r) (ordering_rtt3 r) ts) /\
    forall x, set_wait (<[h := x]> (waiting s1)) s1 = set_wait (<[h := x]> (waiting s)) s.
Proof.
  intros Hw Hr Ht Hf. induction ts as [|t ts IH] using rev_ind; intros Hl.
  { exists s. destruct r. simpl in *. by subst. }
  rewrite length_app in *. cbn [length] in *. destruct IH as (s1 & Hex & Hf1 & Hc1 & Hw1 & Hput); [lia|].
  rewrite responses_app. unfold mbind, M_bind. rewrite Hex.
  unfold client_ordering1_resp_cmd_handler, mbind, M_bind, get. rewrite Hw1, Hf1. cbn -[Z.of_nat u64 u32].
  rewrite u64_small, (u32_small (nfaulty s * 2 + 1)) by lia.
  rewrite (proj2 (Z.eqb_neq _ _)) by lia. cbn [negb]. unfold modify. rewrite Hput.
  replace (Z.of_nat (length ts + 1)) with (Z.of_nat (length ts) + 1) by lia.
  eexists. split; [reflexivity|]. split; [done|]. split; [done|]. split; [simpl; by rewrite lookup_insert_eq|].
  intros x. simpl. by rewrite insert_insert_eq.
Qed.
End Client.

Section Median.
Context `{KeyTypes} `{!AppTypes} `{StdSort} `{!StdSortLaws}.

(** The last of the 2f+1 responses sends the element of index f+1 of the
    sorted timestamps, if there is one. *)
Lemma responses_last h s r rs : waiting s !! h = Some r -> ordering_rtt1 r = 0 -> timestamps r = [] ->
  0 <= nfaulty s < 2 ^ 31 - 1 -> Z.of_nat (length rs) = nfaulty s * 2 + 1 ->
  exists s', waiting s' = <[h := mkRequest (Z.of_nat (length rs)) (ordering_rtt2 r) (ordering_rtt3 r) (std_sort Z Z.ltb rs)]> (waiting s) /\
    messages s' = messages s /\ conns s' = conns s /\
    responses h rs s =
      match std_sort Z Z.ltb rs !! Z.to_nat (nfaulty s + 1) with
      | Some m => (inl tt, send ((fun p => SendOrder2 p h m) <$> conns s) s')
      | None => (inr EIndex, s')
      end.
Proof.
  intros Hw Hr Ht Hf. destruct rs as [|t ts] using rev_ind; intros Hl; [simpl in Hl; lia|]. clear IHts.
  rewrite length_app in *. cbn [length] in *. rewrite responses_app. unfold mbind, M_bind.
  destruct (responses_collect h s r ts) as (s1 & Hex & Hf1 & Hc1 & Hw1 & Hput); [done|done|done|lia|lia|].
  rewrite Hex. unfold client_ordering1_resp_cmd_handler, mbind, M_bind, get. rewrite Hw1, Hf1, Hc1.
  cbn -[Z.of_nat u64 u32]. rewrite u64_small, (u32_small (nfaulty s * 2 + 1)), (u32_small (nfaulty s + 1)) by lia.
  rewrite (proj2 (Z.eqb_eq _ _)) by lia. cbn [negb]. unfold modify. rewrite Hput.
  replace (Z.of_nat (length ts + 1)) with (Z.of_nat (length ts) + 1) by lia.
  eexists (set_wait _ s). split; [reflexivity|]. split; [done|]. split; [done|].
  by destruct (std_sort Z Z.ltb (ts ++ [t]) !! Z.to_nat (nfaulty s + 1)).
Qed.

Lemma sort_Z l : StronglySorted Z.le (std_sort Z Z.ltb l).
Proof. apply (std_sort_sorted Z (fun x => x)). Qed.

Lemma sort_with_top hs v rs f : rs ≡ₚ hs ++ replicate f v -> Forall (fun x => x <= v) hs ->
  std_sort Z Z.ltb rs = std_sort Z Z.ltb hs ++ replicate f v.
Proof.
  intros Hp Hv. apply (StronglySorted_unique Z.le); [apply sort_Z| |by rewrite !std_sort_perm].
  assert (forall l, StronglySorted Z.le l -> Forall (fun x => x <= v) l -> StronglySorted Z.le (l ++ replicate f v)) as Happ.
  { induction 1 as [|x l Hs IH Hx]; intros Hl; simpl.
    - clear. induction f as [|f IH]; simpl; constructor; [done|]. apply Forall_replicate. lia.
    - inversion Hl; subst. constructor; [by apply IH|]. apply Forall_app. split; [done|]. by apply Forall_replicate. }
  apply Happ; [apply sort_Z|]. by rewrite std_sort_perm.
Qed.

(** The comment in the code promises the median, the (f+1)-th of the 2f+1
    timestamps, which is never beyond the timestamps of correct replicas; the
    element taken is the next one, which f faulty replicas choose freely. *)
Theorem median_controlled h s r hs v rs : waiting s !! h = Some r -> ordering_rtt1 r = 0 -> timestamps r = [] ->
  0 < nfaulty s < 2 ^ 31 - 1 -> Z.of_nat (length hs) = nfaulty s + 1 -> Forall (fun x => x <= v) hs ->
  rs ≡ₚ hs ++ replicate (Z.to_nat (nfaulty s)) v ->
  (exists s', responses h rs s = (inl tt, s') /\
     messages s' = messages s ++ ((fun p => SendOrder2 p h v) <$> conns s)) /\
  (exists x, x ∈ hs /\ std_sort Z Z.ltb rs !! Z.to_nat (nfaulty s) = Some x).
Proof.
  intros Hw Hr Ht Hf Hl Hv Hp. pose proof (Permutation_length Hp) as Hlr. rewrite length_app, length_replicate in Hlr.
  pose proof (Permutation_length (std_sort_perm Z Z.ltb hs)) as Hls.
  destruct (responses_last h s r rs Hw Hr Ht ltac:(lia) ltac:(lia)) as (s' & _ & Hm & Hc & Hex).
  rewrite (sort_with_top hs v rs _ Hp Hv) in *. split.
  - rewrite lookup_app_r in Hex by lia. rewrite (proj2 (lookup_replicate (Z.to_nat (nfaulty s)) v v _)) in Hex by (split; [done|lia]).
    rewrite Hex. eexists. split; [reflexivity|]. simpl. by rewrite Hm.
  - rewrite lookup_app_l by lia. destruct (lookup_lt_is_Some_2 (std_sort Z Z.ltb hs) (Z.to_nat (nfaulty s))) as [x Hx]; [lia|].
    exists x. split; [|done]. rewrite <- (std_sort_perm Z Z.ltb hs). by eapply list_elem_of_lookup_2.
Qed.

(** With three replicas or fewer (f = 0) the element does not exist: the
    first response reads past the end of the vector. *)
Theorem median_out_of_bounds id bsz async iter n h s r t :
  (1 <= n <= 3)%nat -> nfaulty s = nfaulty (Client_new id bsz async iter n) ->
  waiting s !! h = Some r -> ordering_rtt1 r = 0 -> timestamps r = [] ->
  (client_ordering1_resp_cmd_handler h t s).1 = inr EIndex.
Proof.
  intros Hn Hf Hw Hr Ht. assert (nfaulty s = 0) as Hz.
  { rewrite Hf. simpl. destruct n as [|[|[|[|n]]]]; [lia|done..|lia]. }
  destruct (responses_last h s r [t] Hw Hr Ht ltac:(lia) ltac:(simpl; lia)) as (s' & _ & _ & _ & Hex).
  pose proof (Permutation_length (std_sort_perm Z Z.ltb [t])) as Hl. rewrite Hz in Hex.
  rewrite (lookup_ge_None_2 (std_sort Z Z.ltb [t])) in Hex by (rewrite Hl; simpl; lia).
  unfold responses, mbind, M_bind in Hex. cbn [foldl] in Hex.
  cbn in Hex. by rewrite Hex.
Qed.
End Median.

(** ** The window *)

Section Window.
Context `{KeyTypes} `{!AppTypes} `{StdSort}.

Abbreviation CLM := (M Client AppError).

Inductive ClientInput :=
  | CStart (fuel : nat)
  | COrdering1 (h : uint256) (timestamp_us : Z)
  | COrdering2 (fuel : nat) (h : uint256)
  | CExec (h : uint256).
Definition client_exec (i : ClientInput) : CLM unit :=
  match i with
  | CStart fuel => _ ← send_all fuel; mret tt
  | COrdering1 h t => client_ordering1_resp_cmd_handler h t
  | COrdering2 fuel h => _ ← client_ordering2_resp_cmd_handler fuel h; mret tt
  | CExec h => client_ordering_exec_resp_handler h
  end.
Inductive client_step (s : Client) : Client -> Prop :=
  | client_step_input i : client_step s (client_exec i s).2.

(** The window is not exceeded, and a bounded client counts down. *)
Record window_ok (async iter : Z) (s : Client) : Prop := {
  wo_async : max_async_num s = async;
  wo_size : Z.of_nat (size (waiting s)) <= Z.max 0 async;
  wo_iter : 0 <= iter -> 0 <= max_iter_num s <= iter }.

Definition keeps_window (async iter : Z) {A} (m : CLM A) : Prop := forall s,
  window_ok async iter s -> window_ok async iter (m s).2.

Lemma size_insert_le (m : gmap uint256 Request) h r : (size (<[h := r]> m) <= S (size m))%nat.
Proof.
  destruct (m !! h) as [x|] eqn:Hh; [rewrite map_size_insert_Some by done|rewrite map_size_insert_None by done]; lia.
Qed.

Lemma try_send_window async iter : keeps_window async iter try_send.
Proof.
  intros s [Ha Hs Hi]. unfold try_send, mbind, M_bind, get, modify.
  destruct (_ && _) eqn:Hc; cbn [snd mret M_ret]; [|by split].
  apply andb_true_iff in Hc as [Hlt Hnz]. apply Z.ltb_lt in Hlt. apply negb_true_iff, Z.eqb_neq in Hnz.
  split; simpl; [done|..].
  - pose proof (size_insert_le (waiting s) (dummy_hash (cid s) (cnt s)) Request_new). case_match; lia.
  - intros Hit. specialize (Hi Hit). destruct (Z.ltb_spec 0 (max_iter_num s)); lia.
Qed.

Lemma send_all_window async iter fuel : keeps_window async iter (send_all fuel).
Proof.
  induction fuel as [|fuel IH]; intros s Hs; simpl; [done|]. unfold mbind, M_bind.
  pose proof (try_send_window async iter s Hs) as Ht. destruct (try_send s) as [[[]|e] s1]; [by apply IH|done..].
Qed.

Lemma client_exec_window async iter i : keeps_window async iter (client_exec i).
Proof.
  intros s Hs. pose proof Hs as [Ha Hsz Hi]. destruct i as [fuel|h t|fuel h|h]; cbn [client_exec].
  - unfold mbind, M_bind. pose proof (send_all_window async iter fuel s Hs) as Hw.
    by destruct (send_all fuel s) as [[?|?] ?].
  - unfold client_ordering1_resp_cmd_handler, mbind, M_bind, get. destruct (waiting s !! h) as [r|] eqn:Hw; [|done].
    assert (forall x, window_ok async iter (set_wait (<[h := x]> (waiting s)) s)) as Hput
      by (intros x; split; simpl; rewrite ?(map_size_insert_Some _ _ _ (mk_is_Some _ _ Hw)); done).
    destruct (negb _); [apply Hput|]. unfold modify. cbn [snd].
    destruct (std_sort _ _ _ !! _); cbn [from_option snd]; [|apply Hput].
    destruct (Hput (mkRequest (u64 (ordering_rtt1 r + 1)) (ordering_rtt2 r) (ordering_rtt3 r)
      (std_sort Z Z.ltb (timestamps r ++ [t])))). by split.
  - unfold client_ordering2_resp_cmd_handler, mbind, M_bind, get. destruct (waiting s !! h) as [r|] eqn:Hw; [|done].
    destruct (negb _); unfold modify; cbn [snd mret M_ret].
    + split; simpl; rewrite ?(map_size_insert_Some _ _ _ (mk_is_Some _ _ Hw)); done.
    + match goal with |- context [send_all fuel ?s0] => set (s1 := s0) end.
      assert (window_ok async iter s1) as H1'.
      { split; simpl; [done| |done]. pose proof (map_size_delete_Some _ _ (mk_is_Some _ _ Hw)). unfold delete in *. lia. }
      pose proof (send_all_window async iter fuel s1 H1') as Hs1. by destruct (send_all fuel s1) as [[?|?] ?].
  - unfold client_ordering_exec_resp_handler, mbind, M_bind, get. destruct (waiting_exec s !! h); [|done].
    by destruct (negb _); split.
Qed.

(** The rounds of the loop are bounded by the commands that are left. *)
Lemma send_all_ends n s : 0 <= max_iter_num s <= Z.of_nat n -> (send_all (S n) s).1 = inl true.
Proof.
  revert s. induction n as [|n IH]; intros s Hs.
  - simpl. unfold try_send, mbind, M_bind, get. assert (max_iter_num s = 0) as -> by lia. by rewrite andb_false_r.
  - cbn [send_all]. unfold try_send, mbind, M_bind, get, modify. destruct (_ && _) eqn:Hc; [|done].
    apply andb_true_iff in Hc as [_ Hnz]. apply negb_true_iff, Z.eqb_neq in Hnz. cbn [mret M_ret].
    apply IH. simpl. destruct (Z.ltb_spec 0 (max_iter_num s)); lia.
Qed.

(** The client never has more than max_async_num commands waiting, never
    starts more than the number asked for, and its sending loop ends. *)
Theorem client_window id bsz async iter n s : 0 <= iter -> rtc client_step (Client_new id bsz async iter n) s ->
  Z.of_nat (size (waiting s)) <= Z.max 0 async /\ 0 <= max_iter_num s <= iter /\
  (send_all (S (Z.to_nat (max_iter_num s))) s).1 = inl true.
Proof.
  intros Hi Hr. assert (window_ok async iter s) as [_ Hs Hm].
  { revert s Hr. apply rtc_ind_r; [split; simpl; rewrite ?map_size_empty; lia|].
    intros y z _ [i] Hy. by apply client_exec_window. }
  split; [done|]. split; [by apply Hm|]. apply send_all_ends. specialize (Hm Hi). lia.
Qed.
End Window.
