(* ===== verification/AppRuns.v ===== *)
(** * Executions of Archipelago

    A concrete instance of the application's parameters, witnesses for the
    theorems of StablePoint, Client and Commands, and two executions the code
    admits: a command with an early timestamp that ends up behind a closed
    batch, and a batch that is answered before anything was decided. *)

From Stdlib Require Import ZArith Lia Sorting.Sorted.
From stdpp Require Import sorting countable.
From S2P Require Import Prelude Bytes Certs Core Commands Archipelago StablePoint Client.

(** A std::sort, stable here. *)
Definition not_after {A} (lt : A -> A -> bool) (a b : A) : Prop := lt b a = false.
#[export] Instance not_after_dec {A} (lt : A -> A -> bool) a b : Decision (not_after lt a b).
Proof. unfold not_after. apply _. Defined.
#[export] Instance merge_std_sort : StdSort := fun A lt l => merge_sort (not_after lt) l.

#[export] Instance merge_std_sort_laws : StdSortLaws.
Proof.
  split; [intros; apply merge_sort_Permutation|]. intros A key l.
  set (lt := fun a b : A => key a <? key b).
  assert (Total (not_after lt)) as Ht.
  { intros a b. unfold not_after, lt. rewrite !Z.ltb_ge. lia. }
  assert (Transitive (not_after lt)) as Htr.
  { intros a b c. unfold not_after, lt. rewrite !Z.ltb_ge. lia. }
  pose proof (StronglySorted_merge_sort (not_after lt) l) as Hs.
  unfold std_sort, merge_std_sort. induction Hs as [|a l' Hs IH Hall]; constructor; [done|].
  eapply Forall_impl; [exact Hall|]. intros x. unfold not_after, lt. by rewrite Z.ltb_ge.
Qed.

#[export] Instance run_keys : KeyTypes := {|
  uint256 := Z * Z; uint256_null := (0, 0); PeerId := unit; PubKey := unit; PrivKey := unit |}.
#[export] Instance run_types : AppTypes := {|
  NetAddr := Z; OSig := list Z; sign_fixed l := l; digest_of l := (le_val l, 0); dummy_hash := pair |}.
#[export] Instance run_host : Host := false.

(** Runs a list of events, as long as each is a step. *)
#[export] Instance input_ok_dec i : Decision (input_ok i).
Proof. destruct i; simpl; apply _. Defined.
Fixpoint run_app (l : list AppInput) (s : HotStuffApp) : option HotStuffApp :=
  match l with
  | [] => Some s
  | i :: l =>
    if decide (input_ok i) then
      if Z.of_nat (length (commit_set s)) <? 2 ^ 32 - 1 then
        match app_exec i s with (inl _, s) => run_app l s | _ => None end
      else None
    else None
  end.

Lemma run_app_steps l s s' : run_app l s = Some s' -> rtc app_step s s'.
Proof.
  revert s. induction l as [|i l IH]; intros s; simpl; [intros [= <-]; apply rtc_refl|].
  case_decide as Hi; [|done]. destruct (Z.ltb_spec (Z.of_nat (length (commit_set s))) (2 ^ 32 - 1)) as [Hl|]; [|done].
  destruct (app_exec i s) as [[[]|e] s1] eqn:He; [|done]. intros Hr.
  eapply rtc_l; [by apply (app_step_input s i s1)|by apply IH].
Qed.

Lemma run_app_check {A} (f : HotStuffApp -> A) l s0 v :
  f <$> run_app l s0 = Some v -> exists s, rtc app_step s0 s /\ f s = v.
Proof.
  intros Hv. destruct (run_app l s0) as [s|] eqn:Hr; [|done]. injection Hv as Hv.
  exists s. split; [by apply (run_app_steps l)|done].
Qed.

(** Replica 1 leads, with batches of one request and a period of 1 ms. *)
Definition leader0 : HotStuffApp := HotStuffApp_new 1 1 1.

(** Commands 1, 2 are stamped 5000 and 7000; command 3, stamped 100, arrives
    after the batch with command 1 was closed. *)
Definition late_run : list AppInput :=
  [IOrdering2 (9, 1) 5000 71 1; IOrdering2 (9, 2) 7000 72 2000; IOrdering2 (9, 3) 100 73 4000].

(** Commands are not always ordered by their timestamps: a command that
    arrives with a timestamp below the end of a closed batch is put behind
    that batch, because stable_point, against which the timestamp is checked,
    is never set. *)
Theorem late_command_reordered : exists s, rtc app_step leader0 s /\
  e_ts <$> closed s = [5000; 100] /\ stable_point s = 0.
Proof.
  destruct (run_app_check (fun s => (e_ts <$> closed s, stable_point s)) late_run leader0 ([5000; 100], 0)) as (s & Hr & Hv);
    [by vm_compute|].
  exists s. split; [exact Hr|]. injection Hv as Ht Hs. exact (conj Ht Hs).
Qed.

(** A client asks for the command whose hash the next batch will have. *)
Definition forged_run : list AppInput :=
  [IRequest (4, 4) 70; IPending 0; IOrdering2 (9, 1) 5000 71 1; IOrdering2 (9, 2) 7000 72 2000; IPending 0].

Definition forged_outputs : list Output :=
  [Broadcast (4, 4) 6000 1 (0, 0) (1, 1) (2, 2) (3, 3); SendExec 71 (9, 1)].

(** The answer to the clients of a batch can precede its agreement: hashes of
    batches are hashes of commands anyone can submit, a duplicate is answered
    at once with decision 0, and the leader's callback does not look at the
    decision. *)
Theorem unagreed_batch_answered : exists s, rtc app_step leader0 s /\
  SendExec 71 (9, 1) ∈ outputs s /\ forall fin, Execute fin ∉ outputs s.
Proof.
  destruct (run_app_check outputs forged_run leader0 forged_outputs) as (s & Hr & Ho); [by vm_compute|].
  exists s. split; [exact Hr|]. rewrite Ho. split; [set_solver|].
  intros fin Hin. do 2 (apply elem_of_cons in Hin as [[=]|Hin]). by apply elem_of_nil in Hin.
Qed.

(** ** Witnesses *)

Definition hh (a b : Z) : uint256 := (a, b).
Definition na (a : Z) : NetAddr := a.

Definition after (l : list AppInput) : HotStuffApp := default leader0 (run_app l leader0).

Definition run1 : list AppInput := [IOrdering2 (hh 9 1) 5000 (na 71) 1].
Definition run2 : list AppInput := run1 ++ [IOrdering2 (hh 9 2) 7000 (na 72) 2000].
Definition run3 : list AppInput := run2 ++ [IPending 1; IPending 1].

Lemma after_reach l : is_Some (run_app l leader0) -> rtc app_step leader0 (after l).
Proof. intros [s Hs]. unfold after. rewrite Hs. by apply (run_app_steps l). Qed.

Lemma run1_reach : rtc app_step leader0 (after run1).
Proof. apply after_reach. eexists. by vm_compute. Qed.
Lemma run3_reach : rtc app_step leader0 (after run3).
Proof. apply after_reach. eexists. by vm_compute. Qed.

Lemma run2_step : app_step (after run1) (after run2).
Proof. apply (app_step_input _ (IOrdering2 (hh 9 2) 7000 (na 72) 2000)); by vm_compute. Qed.
Lemma run3_steps : rtc app_step (after run2) (after run3).
Proof.
  apply (run_app_steps [IPending 1; IPending 1]). by vm_compute.
Qed.

Lemma leader_batch_exact_witness : exists s',
  client_ordering2_request_cmd_handler (hh 9 2) 7000 (na 72) 2000 (after run1) = (inl tt, s') /\
  take 0 (commit_set s') = [].
Proof.
  destruct (leader_batch_exact 1 1 (after run1) (hh 9 2) 7000 (na 72) 2000) as (s' & Hex & Hc & _);
    [exact run1_reach|by vm_compute|by vm_compute|].
  exists s'. split; [exact Hex|exact Hc].
Defined.

Lemma closed_batches_final_witness :
  take 1 (commit_set (after run3)) = take 1 (commit_set (after run2)).
Proof.
  destruct (closed_batches_final 1 1 (after run2) (after run3)) as (Hc & _);
    [exact (rtc_r _ _ _ run1_reach run2_step)|exact run3_steps|exact Hc].
Defined.

Definition decided4 : Finality := mkFinality 1 1 0 1 (hh 4 4) (hh 0 0).
Lemma batch_answered_witness : exists s', app_decide decided4 (after run3) = (inl tt, s') /\
  outputs s' = outputs (after run3) ++ [Execute decided4; SendExec (na 71) (hh 9 1)].
Proof.
  destruct (batch_answered 1 1 (after run2) (after run3) (hh 4 4) (0, 1) decided4) as (s' & Hex & Ho);
    [exact (rtc_r _ _ _ run1_reach run2_step)|exact run3_steps|by vm_compute..|].
  exists s'. split; [exact Hex|exact Ho].
Defined.

(** Replica 0 received the two commands in the other order. *)
Definition follower : HotStuffApp :=
  default leader0 (run_app [IOrdering2 (hh 9 2) 7000 (na 72) 1; IOrdering2 (hh 9 1) 5000 (na 71) 2] (HotStuffApp_new 0 1 1)).

Lemma honest_batch_accepted_witness : exists f',
  server_consensus_request_cmd_handler (hh 4 4) 6000 1 (hh 1 1) (hh 2 2) (hh 3 3) follower = (inl tt, f') /\
  stable_point_errors f' = stable_point_errors follower.
Proof.
  destruct (honest_batch_accepted 1 1 (after run1) (hh 9 2) 7000 (na 72) 2000 (after run2) (hh 4 4) 6000 1
    (hh 0 0) (hh 1 1) (hh 2 2) (hh 3 3) follower (hh 1 1) (hh 2 2) (hh 3 3)) as (f' & Hex & He & _);
    [exact run1_reach|by vm_compute|by vm_compute|by vm_compute|by vm_compute|done|by vm_compute| | | | | | |].
  - repeat constructor; by vm_compute.
  - constructor.
  - by vm_compute.
  - by vm_compute.
  - vm_compute. apply perm_swap.
  - vm_compute. constructor.
  - exists f'. split; [exact Hex|exact He].
Defined.

Lemma lagging_follower_undefined_witness : exists f1,
  server_consensus_request_cmd_handler (hh 4 4) 6000 3 (hh 1 1) (hh 2 2) (hh 3 3) follower = (inl tt, f1) /\
  (server_consensus_request_cmd_handler (hh 4 9) 9000 4 (hh 1 1) (hh 2 2) (hh 3 3) f1).1 = inr EIndex.
Proof.
  destruct (lagging_follower_undefined follower (hh 4 4) (hh 4 9) 6000 9000 3 4 (hh 1 1) (hh 2 2) (hh 3 3)) as (f1 & Hex & _ & Hu);
    [by vm_compute..|].
  exists f1. split; [exact Hex|exact Hu].
Defined.

Lemma empty_first_batch_flagged_witness : exists s1 s2 be q1 q2 q3 q4 hb,
  client_ordering2_request_cmd_handler (hh 9 1) 5000 (na 71) 1 leader0 = (inl tt, s1) /\
  client_ordering2_request_cmd_handler (hh 9 2) 5000 (na 71) 1002 s1 = (inl tt, s2) /\
  outputs s2 = [Broadcast hb be 0 q1 q2 q3 q4].
Proof.
  destruct (empty_first_batch_flagged 1 1 (hh 9 1) (hh 9 2) 5000 (na 71)) as (s1 & s2 & hb & be & q1 & q2 & q3 & q4 & He1 & He2 & Ho & _);
    [done|done|done|].
  exists s1, s2, be, q1, q2, q3, q4, hb. split; [exact He1|]. split; [exact He2|exact Ho].
Defined.

(** A client of four replicas and one of three, after the first command was
    sent. *)
Definition client_of (n : nat) : Client := (client_exec (CStart 5) (Client_new 0 1 1 10 n)).2.

Lemma client_of_waiting n : waiting (client_of n) = <[hh 0 0 := Request_new]> ∅ /\
  nfaulty (client_of n) = nfaulty (Client_new 0 1 1 10 n).
Proof. split; reflexivity. Qed.

(** Replicas 0 and 1 answer 10 and 20, the faulty one answers 99. *)
Lemma median_controlled_witness : exists s', responses (hh 0 0) [99; 20; 10] (client_of 4) = (inl tt, s') /\
  messages s' = messages (client_of 4) ++ ((fun p => SendOrder2 p (hh 0 0) 99) <$> conns (client_of 4)).
Proof.
  destruct (median_controlled (hh 0 0) (client_of 4) Request_new [20; 10] 99 [99; 20; 10]) as [Hex _];
    [by rewrite (proj1 (client_of_waiting 4)), lookup_insert_eq|done|done|
     rewrite (proj2 (client_of_waiting 4)); by vm_compute|by rewrite (proj2 (client_of_waiting 4))|by repeat constructor| |exact Hex].
  rewrite (proj2 (client_of_waiting 4)). apply (Permutation_cons_append [20; 10] 99).
Defined.

Lemma median_out_of_bounds_witness :
  (client_ordering1_resp_cmd_handler (hh 0 0) 10 (client_of 3)).1 = inr EIndex.
Proof.
  apply (median_out_of_bounds 0 1 1 10 3 (hh 0 0) (client_of 3) Request_new 10);
    [lia|apply (proj2 (client_of_waiting 3))|by rewrite (proj1 (client_of_waiting 3)), lookup_insert_eq|done|done].
Defined.

Lemma client_window_witness : Z.of_nat (size (waiting (client_of 4))) <= 1.
Proof.
  apply (client_window 0 1 1 10 4 (client_of 4)); [done|]. apply rtc_once. constructor.
Defined.

Lemma batches_fifo_witness :
  let evs := [IExec Z (hh 0 1) 7; IExec Z (hh 0 2) 8; IExec Z (hh 0 3) 9; IHandler Z 5] in
  let s := cmd_run Z evs (Commands_new Z 5 2) in
  Forall (fun b => Z.of_nat (length b) = 2) (batches Z s).
Proof. apply (batches_fifo Z 5 2); [done|by repeat constructor]. Defined.
