(* ===== verification/Messages.v ===== *)
(** * Wire formats

    Block::serialize / unserialize ([src/entity.cpp]) and the messages of
    [include/hotstuff/consensus.h], [hotstuff.h] and [client.h], over the
    secp256k1 certificates.  Every encoder appends to a DataStream; every
    decoder is a parser in the stream monad. *)

From Stdlib Require Import ZArith Lia.
From S2P Require Import Prelude Bytes Stream Blob Certs Crypto Entity Core.

(** Two parses of the same bytes agree. *)
Lemma parses_inj `{Host} {A} (m : SM A) l a b : Z.of_nat (length l) < 2 ^ 63 ->
  parses m l a -> parses m l b -> a = b.
Proof.
  intros Hl Ha Hb. pose proof (ready_of l Hl) as Hr. rewrite <- (app_nil_r l) in Hr at 2.
  destruct (Ha _ _ Hr) as (s1 & H1 & _), (Hb _ _ Hr) as (s2 & H2 & _). congruence.
Qed.

Section Messages.
Context `{Host} `{SigScheme}.
Variables (Peer : Type) (junk : list Z).
#[local] Instance keys : KeyTypes := secp_keys Peer.
#[local] Instance certs : CertScheme := secp_certs Peer junk.

(** HotStuff<...>::parse_quorum_cert and parse_part_cert *)
Definition parse_quorum_cert : SM quorum_cert := QuorumCertSecp_unserialize.
Definition parse_part_cert : SM part_cert := PartCertSecp_unserialize.

(** ** Blocks *)

Definition put_digests (ds : list digest) (s : DataStream) : DataStream :=
  fold_left (fun s d => put_digest d s) ds s.

(** The pattern [s << htole((uint32_t)n)]. *)
Definition put_u32_le (n : Z) (s : DataStream) : DataStream := put_int 4 (htole 4 (u32 n)) s.

(** Block::serialize; [None] is the dereference of a null qc, or a failure
    of the certificate. *)
Definition Block_serialize (c : Content) (s : DataStream) : option DataStream :=
  let s := put_digests (parent_hashes c) (put_u32_le (Z.of_nat (length (parent_hashes c))) s) in
  let s := put_digests (cmds c) (put_u32_le (Z.of_nat (length (cmds c))) s) in
  q ← qc c;
  s ← QuorumCertSecp_serialize q s;
  Some (put_data (extra c) (put_u32_le (Z.of_nat (length (extra c))) s)).

(** Block::unserialize *)
Definition Block_unserialize : SM Content :=
  n ← get_le 4;
  ps ← get_many get_digest (Z.to_nat n);
  n ← get_le 4;
  cs ← get_many get_digest (Z.to_nat n);
  q ← parse_quorum_cert;
  n ← get_le 4;
  ex ← (if n =? 0 then mret [] else get_data_inplace n);
  mret (mkContent ps cs (Some q) ex).

Definition counted {A} (l : list A) : Prop := Z.of_nat (length l) < 2 ^ 32.

(** What Block::unserialize can produce, with a well-formed certificate. *)
Record content_ok (c : Content) : Prop := {
  co_parents : Forall digest_ok (parent_hashes c) /\ counted (parent_hashes c);
  co_cmds : Forall digest_ok (cmds c) /\ counted (cmds c);
  co_extra : counted (extra c);
  co_qc : exists q, qc c = Some q /\ qc_ok q;
}.

Definition block_bytes (c : Content) : list Z :=
  le_bytes 4 (Z.of_nat (length (parent_hashes c))) ++ (parent_hashes c ≫= digest_bytes) ++
  le_bytes 4 (Z.of_nat (length (cmds c))) ++ (cmds c ≫= digest_bytes) ++
  match qc c with Some q => qc_bytes q | None => [] end ++
  le_bytes 4 (Z.of_nat (length (extra c))) ++ extra c.

Lemma put_digests_bytes ds s : put_digests ds s = put_data (ds ≫= digest_bytes) s.
Proof.
  unfold put_digests. revert s. induction ds as [|d ds IH]; intros s; simpl.
  - unfold put_data. rewrite app_nil_r. by destruct s.
  - rewrite IH, put_digest_bytes. unfold put_data. simpl. by rewrite <- (assoc_L (++)).
Qed.

Lemma put_u32_le_bytes n s : 0 <= n < 2 ^ 32 -> put_u32_le n s = put_data (le_bytes 4 n) s.
Proof. intros Hn. unfold put_u32_le, put_int. rewrite u32_small by done. by rewrite host_bytes_htole. Qed.

Lemma put_data_app a b s : put_data b (put_data a s) = put_data (a ++ b) s.
Proof. unfold put_data. simpl. by rewrite (assoc_L (++)). Qed.

Lemma Block_serialize_bytes c s : content_ok c -> Block_serialize c s = Some (put_data (block_bytes c) s).
Proof.
  intros [[_ Hp] [_ Hc] He (q & Hq & Hok)]. unfold Block_serialize, block_bytes, counted in *.
  rewrite Hq. simpl. rewrite !put_digests_bytes, !put_u32_le_bytes by (split; [lia|done]).
  rewrite serialize_bytes by done. simpl. rewrite put_u32_le_bytes by (split; [lia|done]).
  f_equal. rewrite !put_data_app. done.
Qed.

Context `{!SigSchemeLaws}.

Lemma parses_digests ds : Forall digest_ok ds ->
  parses (get_many get_digest (length ds)) (ds ≫= digest_bytes) ds.
Proof. intros Hd. apply parses_many. eapply Forall_impl; [exact Hd|]. apply parses_digest. Qed.

Lemma parses_count {A} (l : list A) : counted l ->
  parses (get_le 4) (le_bytes 4 (Z.of_nat (length l))) (Z.of_nat (length l)).
Proof. intros Hl. apply parses_le. unfold counted in Hl. simpl. lia. Qed.

Lemma parses_counted {A B} (l : list A) (k : Z -> SM B) l' b : counted l ->
  parses (k (Z.of_nat (length l))) l' b ->
  parses (n ← get_le 4; k n) (le_bytes 4 (Z.of_nat (length l)) ++ l') b.
Proof. intros Hl Hk. eapply parses_bind; [by apply parses_count|done]. Qed.

(** Reading back what Block::serialize writes. *)
Lemma parses_block c : content_ok c -> parses Block_unserialize (block_bytes c) c.
Proof.
  destruct c as [ps cs qo ex]. intros [[Hpo Hp] [Hco Hc] He (q & Hq & Hok)]. simpl in *. subst qo.
  unfold Block_unserialize, block_bytes. cbn [parent_hashes cmds qc extra].
  apply parses_counted; [done|]. rewrite Nat2Z.id. eapply parses_bind; [by apply parses_digests|].
  apply parses_counted; [done|]. rewrite Nat2Z.id. eapply parses_bind; [by apply parses_digests|].
  eapply parses_bind; [by apply parses_qc|].
  apply parses_counted; [done|]. apply (parses_fmap _ (@mkContent keys certs ps cs (Some q))).
  destruct ex as [|x ex]; [apply parses_ret|].
  rewrite (proj2 (Z.eqb_neq _ _)) by (simpl; lia). apply parses_get_data.
Qed.

(** ** Hashing *)

(** SHA-256 of the crypto library below salticidae. *)
Variable sha256 : list Z -> list Z.

Definition block_hash (c : Content) : digest := words (Blob_load (sha256 (block_bytes c))).

(** Two well-formed blocks with one hash give a collision of SHA-256. *)
Lemma block_hash_collision c1 c2 :
  (forall l, length (sha256 l) = 32%nat /\ Forall byte_ok (sha256 l)) ->
  content_ok c1 -> content_ok c2 ->
  Z.of_nat (length (block_bytes c1)) < 2 ^ 63 -> Z.of_nat (length (block_bytes c2)) < 2 ^ 63 ->
  block_hash c1 = block_hash c2 -> c1 <> c2 ->
  block_bytes c1 <> block_bytes c2 /\ sha256 (block_bytes c1) = sha256 (block_bytes c2).
Proof.
  intros Hsha Ho1 Ho2 Hl1 Hl2 Heq Hne. split.
  - intros Hb. apply Hne. apply (parses_inj Block_unserialize (block_bytes c1)); [done|by apply parses_block|].
    rewrite Hb. by apply parses_block.
  - unfold block_hash in Heq. destruct (Hsha (block_bytes c1)) as [Hn1 Hf1].
    destruct (Hsha (block_bytes c2)) as [Hn2 Hf2].
    rewrite <- (blob_bytes_load (sha256 (block_bytes c1))) by done.
    rewrite <- (blob_bytes_load (sha256 (block_bytes c2))) by done.
    unfold blob_bytes. by rewrite Heq.
Qed.

(** ** Proposal, Vote and Finality *)

(** Proposal: the block travels with its content. *)
Definition Proposal_serialize (proposer : Z) (c : Content) (s : DataStream) : option DataStream :=
  Block_serialize c (put_int 2 proposer s).
Definition Proposal_unserialize : SM (Z * Content) :=
  p ← get_int 2; c ← Block_unserialize; mret (p, c).

Definition Vote_serialize (v : Vote) (s : DataStream) : DataStream :=
  PartCertSecp_serialize (vote_cert v) (put_digest (vote_blk_hash v) (put_int 2 (voter v) s)).
Definition Vote_unserialize : SM Vote :=
  r ← get_int 2; h ← get_digest; c ← parse_part_cert; mret (mkVote r h c).

(** int8_t is kept as its value in [-128, 128). *)
Definition put_i8 (x : Z) (s : DataStream) : DataStream := put_int 1 (x mod 256) s.
Definition get_i8 : SM Z := x ← get_int 1; mret (if 128 <=? x then x - 256 else x).

Definition Finality_serialize (f : Finality) (s : DataStream) : DataStream :=
  let s := put_i8 (fin_decision f) (put_int 2 (fin_rid f) s) in
  let s := put_int 4 (cmd_height f) (put_int 4 (cmd_idx f) s) in
  let s := put_digest (cmd_hash f) s in
  if fin_decision f =? 1 then put_digest (fin_blk_hash f) s else s.

(** unserialize into an object whose blk_hash is [b0]. *)
Definition Finality_unserialize (b0 : digest) : SM Finality :=
  r ← get_int 2; d ← get_i8; i ← get_int 4; h ← get_int 4; c ← get_digest;
  b ← (if d =? 1 then get_digest else mret b0);
  mret (mkFinality r d i h c b).

Definition u16_ok (x : Z) : Prop := 0 <= x < 2 ^ 16.
Definition u32_ok (x : Z) : Prop := 0 <= x < 2 ^ 32.

Lemma proposal_roundtrip p c s : u16_ok p -> content_ok c -> exists l,
  Proposal_serialize p c s = Some (put_data l s) /\ parses Proposal_unserialize l (p, c).
Proof.
  intros Hp Hc. exists (host_bytes 2 p ++ block_bytes c). split.
  - unfold Proposal_serialize. rewrite Block_serialize_bytes by done. f_equal. apply put_data_app.
  - eapply parses_bind; [by apply parses_host_int|]. apply (parses_fmap _ (fun c => (p, c))).
    by apply parses_block.
Qed.

Lemma vote_roundtrip v s : u16_ok (voter v) -> digest_ok (vote_blk_hash v) ->
  digest_ok (pc_obj (vote_cert v)) -> exists l,
  Vote_serialize v s = put_data l s /\ parses Vote_unserialize l v.
Proof.
  destruct v as [r h [d sg]]. simpl. intros Hr Hh Hd.
  exists (host_bytes 2 r ++ digest_bytes h ++ digest_bytes d ++ serialize_compact sg). split.
  - unfold Vote_serialize, PartCertSecp_serialize, put_sig. simpl.
    rewrite !put_digest_bytes. unfold put_int. rewrite !put_data_app. done.
  - eapply parses_bind; [by apply parses_host_int|]. eapply parses_bind; [by apply parses_digest|].
    apply (parses_fmap _ (@mkVote keys certs r h)). eapply parses_bind; [by apply parses_digest|].
    apply (parses_fmap _ (mkPartSecp d)). apply parses_sig.
Qed.

Lemma parses_i8 x : -128 <= x < 128 -> parses get_i8 (host_bytes 1 (x mod 256)) x.
Proof.
  intros Hx. unfold get_i8.
  assert (x = if 128 <=? x mod 256 then x mod 256 - 256 else x mod 256) as Heq.
  { destruct (128 <=? x mod 256) eqn:Hc;
      [apply Z.leb_le in Hc|apply Z.leb_gt in Hc]; destruct (decide (0 <= x)).
    - rewrite Z.mod_small in Hc by lia. lia.
    - rewrite <- (Z.mod_add x 1), Z.mod_small by lia. lia.
    - rewrite Z.mod_small by lia. done.
    - rewrite <- (Z.mod_add x 1), Z.mod_small in Hc by lia. lia. }
  rewrite Heq at 2. apply (parses_fmap _ (fun x => if 128 <=? x then x - 256 else x)).
  apply parses_host_int. simpl. apply Z.mod_pos_bound. lia.
Qed.

(** The block hash survives only for positive decisions. *)
Lemma finality_roundtrip f b s : u16_ok (fin_rid f) -> -128 <= fin_decision f < 128 ->
  u32_ok (cmd_idx f) -> u32_ok (cmd_height f) -> digest_ok (cmd_hash f) ->
  digest_ok (fin_blk_hash f) -> exists l, Finality_serialize f s = put_data l s /\
    parses (Finality_unserialize b) l
      (if fin_decision f =? 1 then f
       else mkFinality (fin_rid f) (fin_decision f) (cmd_idx f) (cmd_height f) (cmd_hash f) b).
Proof.
  destruct f as [r d i h c bh]. simpl. intros Hr Hd Hi Hh Hc Hb.
  exists (host_bytes 2 r ++ host_bytes 1 (d mod 256) ++ host_bytes 4 i ++ host_bytes 4 h ++
    digest_bytes c ++ if d =? 1 then digest_bytes bh else []). split.
  - unfold Finality_serialize, put_i8, put_int. simpl. rewrite put_digest_bytes, !put_data_app.
    destruct (d =? 1); rewrite ?put_digest_bytes, ?put_data_app, ?app_nil_r;
      by rewrite <- ?(assoc_L (++)).
  - unfold Finality_unserialize. do 5 (eapply parses_bind;
      [first [by apply parses_host_int|by apply parses_i8|by apply parses_digest]|]).
    destruct (d =? 1).
    + apply (parses_fmap _ (@mkFinality keys r d i h c)). by apply parses_digest.
    + rewrite <- (app_nil_r []). eapply parses_bind; apply parses_ret.
Qed.

(** ** Messages between replicas *)

(** MsgReqBlock(blk_hashes) and MsgReqBlock(DataStream &&) *)
Definition MsgReqBlock_make (hs : list digest) : DataStream :=
  put_digests hs (put_u32_le (Z.of_nat (length hs)) DataStream_new).
Definition MsgReqBlock_parse : SM (list digest) :=
  n ← get_le 4; get_many get_digest (Z.to_nat n).

Lemma MsgReqBlock_roundtrip hs : Forall digest_ok hs -> counted hs ->
  parses MsgReqBlock_parse (buffer (MsgReqBlock_make hs)) hs.
Proof.
  intros Hd Hc. unfold MsgReqBlock_make. rewrite put_digests_bytes, put_u32_le_bytes by (unfold counted in Hc; lia).
  simpl. change (le_bytes 4 (Z.of_nat (length hs)) ++ (hs ≫= digest_bytes)) with
    (le_bytes 4 (Z.of_nat (length hs)) ++ mbind digest_bytes hs).
  apply parses_counted; [done|]. rewrite Nat2Z.id. by apply parses_digests.
Qed.

(** MsgRespBlock(blks); the blocks by their contents. *)
Fixpoint put_blocks (cs : list Content) (s : DataStream) : option DataStream :=
  match cs with
  | [] => Some s
  | c :: cs => s ← Block_serialize c s; put_blocks cs s
  end.
Definition MsgRespBlock_make (cs : list Content) : option DataStream :=
  put_blocks cs (put_u32_le (Z.of_nat (length cs)) DataStream_new).
Definition MsgRespBlock_parse : SM (list Content) :=
  n ← get_le 4; get_many Block_unserialize (Z.to_nat n).

Lemma put_blocks_bytes cs s : Forall content_ok cs ->
  put_blocks cs s = Some (put_data (cs ≫= block_bytes) s).
Proof.
  intros Hc. revert s. induction Hc as [|c cs Hc _ IH]; intros s; simpl.
  - unfold put_data. rewrite app_nil_r. by destruct s.
  - rewrite Block_serialize_bytes by done. simpl. by rewrite IH, put_data_app.
Qed.

Lemma MsgRespBlock_roundtrip cs : Forall content_ok cs -> counted cs -> exists s,
  MsgRespBlock_make cs = Some s /\ parses MsgRespBlock_parse (buffer s) cs.
Proof.
  intros Hc Hn. unfold MsgRespBlock_make. rewrite put_blocks_bytes by done.
  rewrite put_u32_le_bytes by (unfold counted in Hn; lia). eexists. split; [done|].
  apply (parses_counted cs (fun n => get_many Block_unserialize (Z.to_nat n))); [done|].
  rewrite Nat2Z.id. apply parses_many. eapply Forall_impl; [exact Hc|]. apply parses_block.
Qed.

(** struct MsgConsensusReqCmd; the timestamp and the index are written in
    host order. *)
Record ConsensusReq := mkConsensusReq {
  commit_set_hash : digest; stable_timestamp : Z; stable_idx : Z;
  place_holders : digest * digest * digest * digest; creq_sig : Sig }.

Definition MsgConsensusReqCmd_make (m : ConsensusReq) : DataStream :=
  let '(p1, p2, p3, p4) := place_holders m in
  let s := put_digest (commit_set_hash m) DataStream_new in
  let s := put_int 4 (stable_idx m) (put_int 8 (stable_timestamp m) s) in
  put_sig (creq_sig m) (put_digest p4 (put_digest p3 (put_digest p2 (put_digest p1 s)))).

Definition MsgConsensusReqCmd_parse : SM ConsensusReq :=
  h ← get_digest; t ← get_int 8; i ← get_int 4;
  p1 ← get_digest; p2 ← get_digest; p3 ← get_digest; p4 ← get_digest; sg ← get_sig;
  mret (mkConsensusReq h t i (p1, p2, p3, p4) sg).

Lemma MsgConsensusReqCmd_roundtrip m : digest_ok (commit_set_hash m) ->
  0 <= stable_timestamp m < 2 ^ 64 -> u32_ok (stable_idx m) ->
  (let '(p1, p2, p3, p4) := place_holders m in
   digest_ok p1 /\ digest_ok p2 /\ digest_ok p3 /\ digest_ok p4) ->
  parses MsgConsensusReqCmd_parse (buffer (MsgConsensusReqCmd_make m)) m.
Proof.
  destruct m as [h t i [[[p1 p2] p3] p4] sg]. simpl. intros Hh Ht Hi (Hp1 & Hp2 & Hp3 & Hp4).
  unfold MsgConsensusReqCmd_make, put_sig. simpl. rewrite !put_digest_bytes. unfold put_int.
  rewrite !put_data_app. simpl. rewrite <- !(assoc_L (++)). unfold MsgConsensusReqCmd_parse.
  do 7 (eapply parses_bind; [first [by apply parses_digest|by apply parses_host_int]|]).
  apply (parses_fmap _ (mkConsensusReq h t i (p1, p2, p3, p4))). apply parses_sig.
Qed.

(** struct MsgConsensusRespCmd *)
Record ConsensusResp := mkConsensusResp {
  cresp_hash : digest; cresp_holders : digest * digest * digest * digest; cresp_sig : Sig }.

Definition MsgConsensusRespCmd_make (m : ConsensusResp) : DataStream :=
  let '(p1, p2, p3, p4) := cresp_holders m in
  put_sig (cresp_sig m) (put_digest p4 (put_digest p3 (put_digest p2 (put_digest p1
    (put_digest (cresp_hash m) DataStream_new))))).
Definition MsgConsensusRespCmd_parse : SM ConsensusResp :=
  h ← get_digest; p1 ← get_digest; p2 ← get_digest; p3 ← get_digest; p4 ← get_digest;
  sg ← get_sig; mret (mkConsensusResp h (p1, p2, p3, p4) sg).

Lemma MsgConsensusRespCmd_roundtrip m : digest_ok (cresp_hash m) ->
  (let '(p1, p2, p3, p4) := cresp_holders m in
   digest_ok p1 /\ digest_ok p2 /\ digest_ok p3 /\ digest_ok p4) ->
  parses MsgConsensusRespCmd_parse (buffer (MsgConsensusRespCmd_make m)) m.
Proof.
  destruct m as [h [[[p1 p2] p3] p4] sg]. simpl. intros Hh (Hp1 & Hp2 & Hp3 & Hp4).
  unfold MsgConsensusRespCmd_make, put_sig. simpl. rewrite !put_digest_bytes, !put_data_app.
  simpl. rewrite <- !(assoc_L (++)). unfold MsgConsensusRespCmd_parse.
  do 5 (eapply parses_bind; [by apply parses_digest|]).
  apply (parses_fmap _ (mkConsensusResp h (p1, p2, p3, p4))). apply parses_sig.
Qed.
End Messages.
