(* ===== verification/Codec.v ===== *)
(** * Certificates and messages on the wire

    What verification of a secp256k1 quorum certificate read from the network
    means, that certificates collected from votes verify, and the round
    trips of the wire formats. *)

From Stdlib Require Import ZArith Lia.
From S2P Require Import Prelude Bytes Sha256 Stream Blob Certs Crypto Entity Core Messages.

Section Streams.
Context `{Host}.

(** [m] reads [a] back from the bytes written to a fresh stream, and leaves
    what follows. *)
Definition reads_back {A} (m : SM A) (st : DataStream) (a : A) : Prop :=
  forall rest, Z.of_nat (length (buffer st ++ rest)) < 2 ^ 63 ->
    exists s', m (DataStream_of (buffer st ++ rest)) = (inl a, s') /\ to_bytearray s' = rest.

Lemma parses_reads_back {A} (m : SM A) l a : parses m l a -> reads_back m (put_data l DataStream_new) a.
Proof.
  intros Hp rest Hl. cbn [buffer put_data DataStream_new Datatypes.app] in *.
  destruct (Hp (DataStream_of (l ++ rest)) rest) as (s' & Hm & Hr); [by apply ready_of|].
  exists s'. split; [done|]. by destruct Hr as (_ & _ & ?).
Qed.
End Streams.

(** ** Certificates *)

Section Quorums.
Context `{Host} `{SigScheme}.
Variables (Peer : Type) (junk : list Z).
#[local] Instance keys : KeyTypes := secp_keys Peer.

(** A replica's signature on the certificate's object. *)
Definition signed_by (c : ReplicaConfig) (qc : QuorumCertSecp) (rid : Z) : Prop :=
  exists sg pk, sigs qc !! rid = Some sg /\ get_pubkey c rid = Some pk /\
    ecdsa_verify sg (digest_bytes (q_obj qc)) pk = true.

(** C10. Whatever bytes a certificate was read from, if it verifies then a
    majority quorum of distinct replicas of the configuration signed its
    object. *)
Theorem secp_quorum_sound (c : ReplicaConfig) s qc s' :
  QuorumCertSecp_unserialize s = (inl qc, s') ->
  QuorumCertSecp_verify (get_pubkey c) (nmajority c) qc = Some true ->
  exists signers : gset Z, nmajority c <= Z.of_nat (size signers) /\ signers ⊆ config_ids c /\
    forall rid, rid ∈ signers -> signed_by c qc rid.
Proof.
  intros Hu Hv. pose proof (unserialize_marked s) as Hm. unfold wp in Hm. rewrite Hu in Hm.
  destruct (verify_quorum _ _ _ Hm Hv) as [Hn Hall]. exists (dom (sigs qc)). split; [done|].
  assert (forall k, k ∈ dom (sigs qc) -> signed_by c qc k) as Hs.
  { intros k Hk. destruct (Hall k Hk) as (sg & pk & ? & ? & Hsv). exists sg, pk. split; [done|]. split; [done|].
    unfold sig_verify in Hsv. case_decide; [|done]. by injection Hsv. }
  split; [|exact Hs]. intros k Hk. destruct (Hs k Hk) as (sg & pk & _ & Hpk & _).
  apply (proj1 (get_pubkey_ids c k)). by exists pk.
Qed.

(** add_part for each of a list of votes. *)
Fixpoint add_parts (parts : list (Z * PartCertSecp)) (qc : QuorumCertSecp) : option QuorumCertSecp :=
  match parts with
  | [] => Some qc
  | (rid, pc) :: parts => qc ← QuorumCertSecp_add_part qc rid pc; add_parts parts qc
  end.

(** A vote that was checked: its signer is known and it verifies. *)
Definition good_part (pub : Z -> option SigPub) (n : Z) (h : digest) (p : Z * PartCertSecp) : Prop :=
  0 <= p.1 < n /\ pc_obj p.2 = h /\ exists pk, pub p.1 = Some pk /\ PartCertSecp_verify p.2 pk = Some true.

(** A certificate whose signatures all verify. *)
Record collected (pub : Z -> option SigPub) (n : Z) (h : digest) (qc : QuorumCertSecp) : Prop := {
  cl_ok : qc_ok qc;
  cl_obj : q_obj qc = h;
  cl_bits : nbits (rids qc) = n;
  cl_sig : forall k sg, sigs qc !! k = Some sg ->
    exists pk, pub k = Some pk /\ sig_verify sg (digest_bytes h) pk = Some true }.

Lemma add_part_collected pub n h qc rid pc : n <= 2 ^ 16 -> collected pub n h qc -> good_part pub n h (rid, pc) ->
  exists qc', QuorumCertSecp_add_part qc rid pc = Some qc' /\ collected pub n h qc' /\
    dom (sigs qc') = {[rid]} ∪ dom (sigs qc).
Proof.
  intros Hn [Hok Hobj Hb Hs] (Hr & Ho & pk & Hpk & Hv). cbn [fst snd] in *.
  destruct (add_part_qc_ok qc rid pc) as (qc' & Ha & Hok' & Ho' & Hb' & _); [done|by rewrite Hb|lia|by rewrite Ho, Hobj|].
  exists qc'. split; [done|].
  assert (sigs qc' = match sigs qc !! rid with Some _ => sigs qc | None => <[rid := pc_sig pc]> (sigs qc) end) as Hsg.
  { unfold QuorumCertSecp_add_part in Ha. case_decide; [|done]. destruct (bits_set _ _); [|done]. by injection Ha as <-. }
  split; [split; try congruence|].
  - intros k sg. rewrite Hsg. destruct (sigs qc !! rid) eqn:Hx; [apply Hs|].
    rewrite lookup_insert. case_decide; [|apply Hs]. intros [= <-]. subst k. exists pk. split; [done|].
    unfold PartCertSecp_verify in Hv. by rewrite Ho in Hv.
  - rewrite Hsg. destruct (sigs qc !! rid) eqn:Hx; [|by rewrite dom_insert_L].
    assert (rid ∈ dom (sigs qc)) by (apply elem_of_dom; by eexists). set_solver.
Qed.

Lemma add_parts_collected pub n h parts qc : n <= 2 ^ 16 -> collected pub n h qc ->
  Forall (good_part pub n h) parts ->
  exists qc', add_parts parts qc = Some qc' /\ collected pub n h qc' /\
    dom (sigs qc') = list_to_set parts.*1 ∪ dom (sigs qc).
Proof.
  intros Hn Hc Hp. revert qc Hc. induction Hp as [|[rid pc] parts Hp _ IH]; intros qc Hc; simpl.
  { exists qc. split; [done|]. split; [done|set_solver]. }
  destruct (add_part_collected pub n h qc rid pc Hn Hc Hp) as (q1 & Ha & Hc1 & Hd1).
  destruct (IH q1 Hc1) as (q2 & Hb & Hc2 & Hd2). exists q2. rewrite Ha. split; [done|]. split; [done|]. set_solver.
Qed.

Lemma verify_loop_complete pub n h qc ixs : collected pub n h qc -> n <= 2 ^ 16 ->
  (forall i, i ∈ ixs -> 0 <= i < n) -> verify_loop pub qc ixs = Some true.
Proof.
  intros [Hok Hobj Hb Hs] Hn. induction ixs as [|i ixs IH]; intros Hin; simpl; [done|].
  assert (0 <= i < n) as Hi by (apply Hin; by left).
  rewrite bits_get_spec by (apply Hok || by rewrite Hb). simpl.
  specialize (IH (fun j Hj => Hin j (list_elem_of_further _ _ _ Hj))).
  destruct (bit_of (rids qc) i) eqn:Hbit; simpl; [|done].
  destruct (qo_sig _ Hok i) as [sg Hsg]; [split; [by rewrite Hb|done]|].
  rewrite Hsg. simpl. destruct (Hs _ _ Hsg) as (pk & Hpk & Hv). rewrite Hpk. simpl.
  by rewrite Hobj, Hv.
Qed.

(** C11. Votes that were checked make a certificate that verifies as soon as they
    come from a quorum.  The asynchronous check answers the same, but for a
    certificate of no votes and a quorum of none: promise::all, given no tasks,
    throws. *)
Theorem collected_qc_verifies pub n h parts nmaj : 0 <= n <= 2 ^ 16 -> digest_ok h ->
  (Z.to_nat (words_for n) <= length junk)%nat -> Forall (fun w => 0 <= w < 2 ^ 64) junk ->
  Forall (good_part pub n h) parts ->
  exists qc, add_parts parts (QuorumCertSecp_new junk n h) = Some qc /\ qc_ok qc /\ q_obj qc = h /\
    dom (sigs qc) = list_to_set parts.*1 /\
    QuorumCertSecp_verify pub nmaj qc =
      Some (nmaj <=? Z.of_nat (size (list_to_set (C := gset Z) parts.*1))) /\
    QuorumCertSecp_verify_async pub nmaj qc =
      if bool_decide (parts = []) && (nmaj <=? 0) then None else QuorumCertSecp_verify pub nmaj qc.
Proof.
  intros Hn Hh Hj Hw Hp.
  assert (collected pub n h (QuorumCertSecp_new junk n h)) as Hc0.
  { split; [apply QuorumCertSecp_new_ok; [lia|done..]|done|simpl; apply u32_small; lia|].
    intros k sg. simpl. by rewrite lookup_empty. }
  destruct (add_parts_collected pub n h parts _ (proj2 Hn) Hc0 Hp) as (qc & Ha & Hc & Hd).
  cbn [sigs QuorumCertSecp_new] in Hd. rewrite dom_empty_L, (right_id_L ∅ (∪)) in Hd.
  exists qc. split; [done|]. split; [apply Hc|]. split; [apply Hc|]. split; [done|]. split.
  - unfold QuorumCertSecp_verify. rewrite <- Hd, size_dom.
    destruct (Z.ltb_spec (Z.of_nat (size (sigs qc))) nmaj); destruct (Z.leb_spec nmaj (Z.of_nat (size (sigs qc)))); try lia; try done.
    apply (verify_loop_complete pub n h); [done|lia|]. intros i. rewrite indices_range. by rewrite (cl_bits _ _ _ _ Hc).
  - rewrite (verify_async_same pub nmaj qc); [|apply Hc|].
    { replace (bool_decide (sigs qc = ∅)) with (bool_decide (parts = [])); [done|]. apply bool_decide_ext.
      rewrite <- dom_empty_iff_L, Hd. destruct parts as [|[rid pc] ps]; simpl; [done|]. split; [done|set_solver]. }
    intros i Hi. destruct (qo_sig _ (cl_ok _ _ _ _ Hc) i Hi) as [sg Hsg].
    destruct (cl_sig _ _ _ _ Hc _ _ Hsg) as (pk & Hpk & _). by exists pk.
Qed.
End Quorums.

(** ** Messages *)

Section Formats.
Context `{Host} `{SigScheme} `{!SigSchemeLaws}.
Variables (Peer : Type) (junk : list Z).
#[local] Instance keys2 : KeyTypes := secp_keys Peer.
#[local] Instance certs2 : CertScheme := secp_certs Peer junk.

(** C32. Quorum certificates and blocks come back as they were sent. *)
Theorem block_roundtrip c : content_ok Peer junk c ->
  exists st, Block_serialize Peer junk c DataStream_new = Some st /\ reads_back (Block_unserialize Peer junk) st c.
Proof.
  intros Hc. exists (put_data (block_bytes Peer junk c) DataStream_new).
  split; [by apply Block_serialize_bytes|]. by apply parses_reads_back, parses_block.
Qed.

(** C33. The hash of a block determines its content: two blocks with one hash
    exhibit a collision of SHA-256. *)
Theorem block_hash_binding c1 c2 : content_ok Peer junk c1 -> content_ok Peer junk c2 ->
  Z.of_nat (length (block_bytes Peer junk c1)) < 2 ^ 63 -> Z.of_nat (length (block_bytes Peer junk c2)) < 2 ^ 63 ->
  block_hash Peer junk SHA256 c1 = block_hash Peer junk SHA256 c2 ->
  c1 = c2 \/ block_bytes Peer junk c1 <> block_bytes Peer junk c2 /\
             SHA256 (block_bytes Peer junk c1) = SHA256 (block_bytes Peer junk c2).
Proof.
  intros Hk1 Hk2 Hl1 Hl2 Hh.
  destruct (decide (block_bytes Peer junk c1 = block_bytes Peer junk c2)) as [Heq|Hne].
  - left. apply (parses_inj (Block_unserialize Peer junk) (block_bytes Peer junk c1)); [done|by apply parses_block|].
    rewrite Heq. by apply parses_block.
  - right. apply block_hash_collision; try done.
    + intros l. split; [apply SHA256_length|apply SHA256_ok].
    + intros ->. done.
Qed.

(** Proposals, votes and decisions come back as they were sent; a negative
    decision loses its block hash. *)
Theorem consensus_messages_roundtrip p c v f b : u16_ok p -> content_ok Peer junk c ->
  u16_ok (voter v) -> digest_ok (vote_blk_hash v) -> digest_ok (pc_obj (vote_cert v)) ->
  u16_ok (fin_rid f) -> -128 <= fin_decision f < 128 -> u32_ok (cmd_idx f) -> u32_ok (cmd_height f) ->
  digest_ok (cmd_hash f) -> digest_ok (fin_blk_hash f) ->
  (exists st, Proposal_serialize Peer junk p c DataStream_new = Some st /\
     reads_back (Proposal_unserialize Peer junk) st (p, c)) /\
  reads_back (Vote_unserialize Peer junk) (Vote_serialize Peer junk v DataStream_new) v /\
  reads_back (Finality_unserialize Peer b) (Finality_serialize Peer f DataStream_new)
    (if fin_decision f =? 1 then f
     else mkFinality (fin_rid f) (fin_decision f) (cmd_idx f) (cmd_height f) (cmd_hash f) b).
Proof.
  intros. destruct (proposal_roundtrip Peer junk p c DataStream_new) as (l1 & Hs1 & Hp1); [done..|].
  destruct (vote_roundtrip Peer junk v DataStream_new) as (l2 & Hs2 & Hp2); [done..|].
  destruct (finality_roundtrip Peer f b DataStream_new) as (l3 & Hs3 & Hp3); [done..|].
  split; [exists (put_data l1 DataStream_new); split; [done|by apply parses_reads_back]|].
  rewrite Hs2, Hs3. split; by apply parses_reads_back.
Qed.

(** The requests and answers of the replicas' network come back as they were
    sent. *)
Theorem network_messages_roundtrip hs cs m : Forall digest_ok hs -> counted hs ->
  Forall (content_ok Peer junk) cs -> counted cs ->
  digest_ok (commit_set_hash m) -> 0 <= stable_timestamp m < 2 ^ 64 -> u32_ok (stable_idx m) ->
  (let '(p1, p2, p3, p4) := place_holders m in digest_ok p1 /\ digest_ok p2 /\ digest_ok p3 /\ digest_ok p4) ->
  reads_back MsgReqBlock_parse (MsgReqBlock_make hs) hs /\
  (exists st, MsgRespBlock_make Peer junk cs = Some st /\ reads_back (MsgRespBlock_parse Peer junk) st cs) /\
  reads_back MsgConsensusReqCmd_parse (MsgConsensusReqCmd_make m) m.
Proof.
  assert (forall A (p : SM A) st a, parses p (buffer st) a -> reads_back p st a) as Hb.
  { intros A p st a Hp. exact (parses_reads_back p (buffer st) a Hp). }
  intros. split; [by apply Hb, MsgReqBlock_roundtrip|]. split; [|by apply Hb, MsgConsensusReqCmd_roundtrip].
  destruct (MsgRespBlock_roundtrip Peer junk cs) as (st & Hs & Hp); [done..|]. exists st. split; [done|by apply Hb].
Qed.
End Formats.

(** ** Bit vectors *)

Section BitVectors.
Context `{Host}.

(** _Bits implements a vector of bits: the operations read and change exactly
    the bit they name, stay within the words allocated, and the vector comes
    back from its serialization. *)
Theorem bits_refine b idx : bits_ok b -> 0 <= idx < nbits b ->
  bits_get b idx = Some (Z.b2z (bit_of b idx)) /\
  (exists b', bits_set b idx = Some b' /\ assigns b b' idx true) /\
  (exists b', bits_unset b idx = Some b' /\ assigns b b' idx false) /\
  (exists b', bits_flip b idx = Some b' /\ assigns b b' idx (negb (bit_of b idx))) /\
  (bits_ok (bits_clear b) /\ forall j, bit_of (bits_clear b) j = false) /\
  exists st, Bits_serialize b DataStream_new = Some st /\ reads_back Bits_unserialize st b.
Proof.
  intros Hb Hi. split; [by apply bits_get_spec|]. split; [by apply bits_set_spec|].
  split; [by apply bits_unset_spec|]. split; [by apply bits_flip_spec|].
  split; [by destruct (bits_clear_spec b Hb) as (? & _ & ?)|].
  exists (put_data (bits_bytes b) DataStream_new). split; [by apply Bits_serialize_bytes|].
  by apply parses_reads_back, parses_Bits.
Qed.

(** Four bytes from the network make a vector of 2^32 - 1 bits with no words:
    the number of words is computed in 32 bits and wraps, and every access
    is out of bounds. *)
Theorem bits_unserialize_overflow rest : Z.of_nat (length rest) < 2 ^ 62 ->
  exists b s', Bits_unserialize (DataStream_of ([255; 255; 255; 255] ++ rest)) = (inl b, s') /\
    nbits b = 2 ^ 32 - 1 /\ bdata b = Some [] /\ forall idx, bits_get b idx = None.
Proof.
  intros Hr.
  assert (parses Bits_unserialize ([255; 255; 255; 255] ++ []) (mkBits (Some []) (2 ^ 32 - 1) 0)) as Hp.
  { unfold Bits_unserialize. eapply parses_bind.
    - exact (parses_le 4 (2 ^ 32 - 1) ltac:(split; by vm_compute)).
    - exact (parses_ret (mkBits (Some []) (2 ^ 32 - 1) 0)). }
  destruct (Hp (DataStream_of ([255; 255; 255; 255] ++ rest)) rest) as (s' & Hm & _).
  { rewrite app_nil_r. apply ready_of. rewrite length_app. simpl length. lia. }
  eexists _, s'. split; [exact Hm|]. split; [done|]. split; [done|]. intros idx. done.
Qed.
End BitVectors.
