(* ===== verification/CodecRuns.v ===== *)
(** * Instances for the wire formats

    A concrete signature scheme with its laws, and the witnesses of the
    theorems of Codec. *)

From Stdlib Require Import ZArith Lia.
From S2P Require Import Prelude Bytes Sha256 Stream Blob Certs Crypto Entity Core Messages Codec.

(** Signatures of one bit: a replica signs with its key, a number; the
    signature verifies when it is [true]. *)
#[export] Instance bit_scheme : SigScheme := {|
  Sig := bool; SigPub := Z; SigPriv := Z;
  fresh_sig := false;
  ecdsa_sign k m := Some true;
  ecdsa_verify s m k := s;
  serialize_compact s := replicate 64 (Z.b2z s);
  parse_compact l :=
    if decide (l = replicate 64 0) then Some false else
    if decide (l = replicate 64 1) then Some true else None |}.

#[export] Instance bit_scheme_laws : SigSchemeLaws.
Proof. split; [intros s; by destruct s|intros s; by destruct s]. Qed.

#[export] Instance little : Host := false.

Definition zeros : list Z := [0; 0].
Definition obj1 : digest := [1; 2; 3; 4].
Definition part1 : PartCertSecp := mkPartSecp obj1 true.
Definition parts3 : list (Z * PartCertSecp) := [(0, part1); (2, part1); (0, part1); (3, part1)].
Definition pubs (r : Z) : option SigPub := if (0 <=? r) && (r <? 4) then Some r else None.

Lemma parts3_good : Forall (good_part pubs 4 obj1) parts3.
Proof. repeat constructor; try done; eexists; split; done. Qed.

Lemma obj1_ok : digest_ok obj1.
Proof. split; [done|]. repeat constructor; done. Qed.
Lemma zeros_ok : Forall (fun w => 0 <= w < 2 ^ 64) zeros.
Proof. repeat constructor; done. Qed.

Lemma collected_qc_verifies_witness : exists qc,
  add_parts parts3 (QuorumCertSecp_new zeros 4 obj1) = Some qc /\
  QuorumCertSecp_verify pubs 3 qc = Some true /\ QuorumCertSecp_verify_async pubs 3 qc = Some true.
Proof.
  destruct (collected_qc_verifies zeros pubs 4 obj1 parts3 3) as (qc & Ha & _ & _ & _ & Hv & Hasync);
    [done|exact obj1_ok|by apply Nat.leb_le|exact zeros_ok|exact parts3_good|].
  exists qc. split; [exact Ha|]. rewrite Hasync. cbn [andb]. rewrite andb_false_r, Hv. split; by vm_compute.
Defined.

(** The certificate of [parts3], and a block with it. *)
Definition qc3 : QuorumCertSecp := default (QuorumCertSecp_new zeros 4 obj1)
  (add_parts parts3 (QuorumCertSecp_new zeros 4 obj1)).

Lemma qc3_ok : qc_ok qc3.
Proof.
  assert (collected pubs 4 obj1 (QuorumCertSecp_new zeros 4 obj1)) as Hc0.
  { split; [apply QuorumCertSecp_new_ok; [done|exact obj1_ok|by apply Nat.leb_le|exact zeros_ok]|done|done|].
    intros k sg. simpl. by rewrite lookup_empty. }
  destruct (add_parts_collected pubs 4 obj1 parts3 _ ltac:(done) Hc0 parts3_good) as (qc & Ha & Hc & _).
  unfold qc3. rewrite Ha. apply Hc.
Qed.

#[local] Instance run_keys : KeyTypes := secp_keys unit.
#[local] Instance run_certs : CertScheme := secp_certs unit zeros.

(** Four replicas, of which three are a quorum. *)
Definition config4 : ReplicaConfig :=
  let c := foldl (fun c r => config_add_replica r (mkReplicaInfo r tt r) c) ReplicaConfig_new [0; 1; 2; 3] in
  mkReplicaConfig (replica_map c) (nreplicas c) 3.

Definition qc3_stream : DataStream := DataStream_of (qc_bytes qc3).

Lemma qc3_read : exists s', QuorumCertSecp_unserialize qc3_stream = (inl qc3, s').
Proof.
  destruct (parses_qc qc3 qc3_ok qc3_stream []) as (s' & Hs & _); [|by exists s'].
  rewrite app_nil_r. apply ready_of. by vm_compute.
Qed.

Lemma secp_quorum_sound_witness : exists signers : gset Z, 3 <= Z.of_nat (size signers) /\
  forall rid, rid ∈ signers -> signed_by unit config4 qc3 rid.
Proof.
  destruct qc3_read as (s' & Hs).
  destruct (secp_quorum_sound unit config4 qc3_stream qc3 s') as (sg & Hn & _ & Hall); [exact Hs|by vm_compute|].
  exists sg. split; [exact Hn|exact Hall].
Defined.

Definition content1 : Content := mkContent [obj1] [obj1; obj1] (Some qc3) [7].

Lemma content1_ok : content_ok unit zeros content1.
Proof.
  split; simpl.
  - split; [exact (Forall_replicate _ 1 obj1 obj1_ok)|done].
  - split; [exact (Forall_replicate _ 2 obj1 obj1_ok)|done].
  - done.
  - exists qc3. split; [done|apply qc3_ok].
Qed.

Lemma block_roundtrip_witness : exists st,
  Block_serialize unit zeros content1 DataStream_new = Some st /\ reads_back (Block_unserialize unit zeros) st content1.
Proof. apply (block_roundtrip unit zeros content1). exact content1_ok. Defined.

Lemma block_hash_binding_witness : content1 = content1 \/
  block_bytes unit zeros content1 <> block_bytes unit zeros content1 /\
  SHA256 (block_bytes unit zeros content1) = SHA256 (block_bytes unit zeros content1).
Proof.
  apply (block_hash_binding unit zeros content1 content1); [exact content1_ok|exact content1_ok|by vm_compute|by vm_compute|reflexivity].
Defined.

Definition vote1 : Vote := mkVote 2 obj1 part1.
Definition final1 : Finality := mkFinality 2 1 0 7 obj1 obj1.

Lemma consensus_messages_roundtrip_witness :
  reads_back (Vote_unserialize unit zeros) (Vote_serialize unit zeros vote1 DataStream_new) vote1.
Proof.
  apply (consensus_messages_roundtrip unit zeros 2 content1 vote1 final1 obj1);
    try exact content1_ok; try exact obj1_ok; by vm_compute.
Defined.

Definition request1 : ConsensusReq := mkConsensusReq obj1 6000 1 (obj1, obj1, obj1, obj1) true.
Lemma network_messages_roundtrip_witness :
  reads_back MsgConsensusReqCmd_parse (MsgConsensusReqCmd_make request1) request1.
Proof.
  apply (network_messages_roundtrip unit zeros [obj1] [content1] request1);
    [exact (Forall_replicate _ 1 obj1 obj1_ok)|done|exact (Forall_replicate _ 1 content1 content1_ok)|done|
     exact obj1_ok|done|done|by split_and!; exact obj1_ok].
Defined.

Definition bits5 : Bits := mkBits (Some [5; 1]) 70 2.
Lemma bits5_ok : bits_ok bits5.
Proof. split; [done|done|]. eexists. split; [done|]. split; [done|]. repeat constructor; done. Qed.

Lemma bits_refine_witness : exists b', bits_set bits5 65 = Some b' /\ assigns bits5 b' 65 true.
Proof. apply (bits_refine bits5 65); [exact bits5_ok|done]. Defined.

Lemma bits_unserialize_overflow_witness : exists b s',
  Bits_unserialize (DataStream_of [255; 255; 255; 255; 0]) = (inl b, s') /\ nbits b = 2 ^ 32 - 1.
Proof.
  destruct (bits_unserialize_overflow [0]) as (b & s' & Hs & Hn & _); [done|]. exists b, s'. split; [exact Hs|exact Hn].
Defined.
