(* ===== verification/Limits.v ===== *)
(** * Proposals and the message size limit

    archipelago_app.cpp configures the network of the replicas without
    max_msg_size, so that messages are limited to 1024 bytes.  A proposal
    carries a signature of 64 bytes for each replica of a quorum. *)

From Stdlib Require Import ZArith Lia.
From S2P Require Import Prelude Bytes Stream Blob Certs Crypto Entity Core Messages Codec CodecRuns SegBuffer Framing Conn ConnLaw ConnRuns.

Section Limits.
Context `{Host} `{SigScheme} `{!SigSchemeLaws}.

(** Every signature of a certificate is written. *)
Lemma sigs_bytes_length q ixs : qc_ok q -> (forall i, i ∈ ixs -> 0 <= i < nbits (rids q)) ->
  length (sigs_bytes q ixs) = (64 * length (filter (fun i => bit_of (rids q) i = true) ixs))%nat.
Proof.
  intros Hok Hin. induction ixs as [|i ixs IH]; [done|].
  assert (0 <= i < nbits (rids q)) as Hi by (apply Hin; by left). specialize (IH ltac:(intros; apply Hin; by right)).
  change (sigs_bytes q (i :: ixs)) with ((if bit_of (rids q) i then match sigs q !! u16 i with Some sg => serialize_compact sg | None => [] end else []) ++ sigs_bytes q ixs).
  rewrite length_app, IH, filter_cons. destruct (bit_of (rids q) i) eqn:Hb.
  - destruct (qo_sig _ Hok i ltac:(done)) as [sg ->]. rewrite decide_True by done. rewrite serialize_compact_length. cbn [length]. lia.
  - rewrite decide_False by done. cbn [length]. lia.
Qed.

Lemma signers_written q : qc_ok q -> (size (sigs q) <= length (filter (fun i => bit_of (rids q) i = true) (indices q)))%nat.
Proof.
  intros Hok. set (l := filter _ _). rewrite <- size_dom.
  transitivity (size (list_to_set (u16 <$> l) : gset Z)).
  - apply subseteq_size. intros k Hk. apply elem_of_dom in Hk. destruct (qo_bit _ Hok k Hk) as (i & [Hi Hb] & <-).
    apply elem_of_list_to_set, list_elem_of_fmap. exists i. split; [done|]. apply list_elem_of_filter. split; [exact Hb|]. by apply indices_range.
  - rewrite <- (length_fmap u16 l). generalize (u16 <$> l). clear. intros l. induction l as [|x l IH]; [done|]. cbn [list_to_set length].
    rewrite size_union_alt, size_singleton. etransitivity; [apply Nat.add_le_mono_l, subseteq_size, subseteq_difference_l; reflexivity|]. lia.
Qed.

Lemma qc_bytes_long q : qc_ok q -> (32 + 64 * size (sigs q) <= length (qc_bytes q))%nat.
Proof.
  intros Hok. unfold qc_bytes. rewrite !length_app, digest_bytes_length by apply Hok.
  rewrite (sigs_bytes_length q (indices q) Hok) by (intros i; apply indices_range). pose proof (signers_written q Hok). lia.
Qed.

Variables (Peer : Type) (junk : list Z).
#[local] Instance limits_keys : KeyTypes := secp_keys Peer.
#[local] Instance limits_certs : CertScheme := secp_certs Peer junk.

Lemma digests_length ds : Forall digest_ok ds -> length (ds ≫= digest_bytes) = (32 * length ds)%nat.
Proof.
  induction 1 as [|d ds Hd _ IH]; [done|]. cbn [mbind list_bind length]. rewrite length_app, digest_bytes_length by done.
  change (length (ds ≫= digest_bytes) = (32 * length ds)%nat) in IH. lia.
Qed.

Lemma block_bytes_long c q : content_ok Peer junk c -> qc c = Some q ->
  (44 + 32 * length (parent_hashes c) + 32 * length (cmds c) + 64 * size (sigs q) <= length (block_bytes Peer junk c))%nat.
Proof.
  intros [[Hp _] [Hc _] _ (q0 & Hq & Hok)] Hqc. rewrite Hqc in Hq. injection Hq as <-. unfold block_bytes. rewrite Hqc.
  rewrite !length_app, !le_bytes_length, !digests_length by done. 
  assert (forall n a b e, 32 + 64 * size (sigs q) <= n -> 44 + 32 * a + 32 * b + 64 * size (sigs q) <= 4 + (32 * a + (4 + (32 * b + (n + (4 + e))))))%nat as Hsum by lia.
  apply Hsum, (qc_bytes_long q Hok).
Qed.

(** C22. A replica of a system in which a quorum has fifteen members or more (22
    replicas) loses the connection to every other replica it proposes to: a
    block with a parent and such a certificate does not fit the default limit,
    and the receiver gives up on the header. *)
Theorem large_proposals_disconnect sha1 (junk_msg m : Msg) p c q kn rm : digest_like sha1 -> u16_ok p -> content_ok Peer junk c ->
  qc c = Some q -> (15 <= size (sigs q))%nat -> parent_hashes c <> [] -> Z.of_nat (length (block_bytes Peer junk c)) < 2 ^ 31 ->
  exists st msg, Proposal_serialize Peer junk p c DataStream_new = Some st /\
    Msg_new sha1 junk_msg 0 (into_bytearray st) 0 = Some msg /\
    exists w, run_events sha1 config_recv_chunk_size config_max_recv_buff_size config_max_msg_size [EvRead; EvTeardown]
        (World_new m [Data (msg_serialize msg)] kn rm) = (inl tt, w) /\
      incoming w = [] /\ terminated (conn w) = true.
Proof.
  intros Hd Hp Hc Hq Hn Hpar Hlen.
  assert (Proposal_serialize Peer junk p c DataStream_new = Some (put_data (host_bytes 2 p ++ block_bytes Peer junk c) DataStream_new)) as Hs
    by (unfold Proposal_serialize; rewrite Block_serialize_bytes by done; f_equal; apply put_data_app).
  set (l := host_bytes 2 p ++ block_bytes Peer junk c) in Hs.
  pose proof (block_bytes_long c q Hc Hq) as Hlong. destruct (parent_hashes c) as [|x ps]; [done|]. cbn [length] in Hlong.
  assert (length l = 2 + length (block_bytes Peer junk c))%nat as Hl by (unfold l; by rewrite length_app, host_bytes_length).
  destruct (Msg_new_spec sha1 junk_msg 0 l 0 Hd ltac:(lia) ltac:(lia) ltac:(lia)) as (msg & Hm & Hok & Hpl & _).
  exists (put_data l DataStream_new), msg. split; [exact Hs|]. split; [exact Hm|]. rewrite serialize_frame.
  pose proof (mk_length _ Hok) as Hml. rewrite Hpl in Hml.
  apply (oversized_disconnects sha1 config_recv_chunk_size config_max_recv_buff_size config_max_msg_size); [exact Hok|unfold config_max_msg_size; lia|unfold config_max_recv_buff_size; lia|].
  rewrite length_app, header_bytes_length, Hpl. unfold header_size. lia.
Qed.
End Limits.

(** ** A system of 22 replicas, whose quorum is 15 *)

Definition pubs22 (r : Z) : option SigPub := if (0 <=? r) && (r <? 22) then Some r else None.
Definition parts15 : list (Z * PartCertSecp) := (fun i => (Z.of_nat i, part1)) <$> seq 0 15.
Definition qc15 : QuorumCertSecp := default (QuorumCertSecp_new zeros 22 obj1) (add_parts parts15 (QuorumCertSecp_new zeros 22 obj1)).

Lemma qc15_ok : qc_ok qc15.
Proof.
  assert (Forall (good_part pubs22 22 obj1) parts15) as Hp by (repeat constructor; try done; eexists; split; done).
  assert (collected pubs22 22 obj1 (QuorumCertSecp_new zeros 22 obj1)) as Hc0.
  { split; [apply QuorumCertSecp_new_ok; [done|exact obj1_ok|by apply Nat.leb_le|exact zeros_ok]|done|done|].
    intros k sg. simpl. by rewrite lookup_empty. }
  destruct (add_parts_collected pubs22 22 obj1 parts15 _ ltac:(done) Hc0 Hp) as (qc & Ha & Hc & _).
  unfold qc15. rewrite Ha. apply Hc.
Qed.

#[local] Instance limits_run_keys : KeyTypes := secp_keys unit.
#[local] Instance limits_run_certs : CertScheme := secp_certs unit zeros.

(** Its block has one parent, one command and no extra. *)
Definition content15 : Content := mkContent [obj1] [obj1] (Some qc15) [].

Lemma content15_ok : content_ok unit zeros content15.
Proof.
  split; simpl.
  - split; [exact (Forall_replicate _ 1 obj1 obj1_ok)|done].
  - split; [exact (Forall_replicate _ 1 obj1 obj1_ok)|done].
  - done.
  - exists qc15. split; [done|apply qc15_ok].
Qed.

Lemma toy_digest : digest_like toy_sha1.
Proof. intros l. unfold toy_sha1. split; [rewrite le_bytes_length; by apply Nat.leb_le|apply le_bytes_ok]. Qed.

Lemma large_proposals_disconnect_witness : exists st msg,
  Proposal_serialize unit zeros 2 content15 DataStream_new = Some st /\
  Msg_new toy_sha1 junk_msg 0 (into_bytearray st) 0 = Some msg /\
  exists w, run_events toy_sha1 config_recv_chunk_size config_max_recv_buff_size config_max_msg_size [EvRead; EvTeardown]
      (World_new junk_msg [Data (msg_serialize msg)] [] []) = (inl tt, w) /\
    incoming w = [] /\ terminated (conn w) = true.
Proof.
  apply (large_proposals_disconnect unit zeros toy_sha1 junk_msg junk_msg 2 content15 qc15);
    [exact toy_digest|done|exact content15_ok|reflexivity|by apply Nat.leb_le; vm_compute|done|by vm_compute].
Defined.
