(* ===== verification/Agreement.v ===== *)
(** * The agreement argument, away from the code

    What chained HotStuff promises, stated over abstract blocks: a history of
    the votes cast by honest replicas, each obeying the voting rule of
    HotStuffCore::on_receive_proposal / on_propose, never certifies two
    conflicting blocks above a block that heads a certified three-chain.
    Network instantiates the section with the hashes of the real blocks and
    shows that every execution of the replicas yields such a history. *)

From S2P Require Import Prelude.

Section Agreement.
Context {B : Type} `{EqDecision B}.
(** Genesis block, first parent, and the block a block's QC refers to. *)
Variables (g : B) (par just : B -> option B).
Hypothesis par_g : par g = None.

(** Parent-first ancestry and distance from genesis. *)
Definition anc : B -> B -> Prop := rtc (fun x y => par y = Some x).

Inductive hgt : B -> Z -> Prop :=
  | hgt_g : hgt g 0
  | hgt_S b p n : par b = Some p -> hgt p n -> hgt b (n + 1).

Lemma hgt_nonneg b n : hgt b n -> 0 <= n.
Proof. induction 1; lia. Qed.

Lemma hgt_fun b n m : hgt b n -> hgt b m -> n = m.
Proof.
  intros Hn. revert m. induction Hn as [|b p n Hp Hn IH]; intros m Hm.
  - inversion Hm; subst; [done|congruence].
  - inversion Hm; subst; [congruence|].
    assert (p0 = p) as -> by congruence. f_equal. auto.
Qed.

Lemma hgt_0 b : hgt b 0 -> b = g.
Proof. inversion 1 as [|? ? n ? Hn]; [done|]. apply hgt_nonneg in Hn. lia. Qed.

Lemma anc_hgt a b n : anc a b -> hgt b n -> exists m, hgt a m /\ m <= n.
Proof.
  intros Ha. revert n.
  refine (rtc_ind_r (fun b => forall n, hgt b n -> exists m, hgt a m /\ m <= n) a _ _ b Ha).
  - intros n Hn. exists n. split; [done|lia].
  - intros y z Hay Hyz IH n Hn. inversion Hn; subst; [congruence|].
    assert (p = y) as -> by congruence.
    destruct (IH n0) as (m & Hm & ?); [done|]. exists m. split; [done|lia].
Qed.

(** Two ancestors of one block are comparable. *)
Lemma anc_linear a b c : anc a c -> anc b c -> anc a b \/ anc b a.
Proof.
  intros Ha. revert b.
  refine (rtc_ind_r (fun c => forall b, anc b c -> anc a b \/ anc b a) a _ _ c Ha).
  - auto.
  - intros y z Hay Hyz IH b Hb.
    apply rtc_inv_r in Hb as [->|(y' & Hby & Hy')].
    + left. by eapply rtc_r.
    + assert (y' = y) as -> by congruence. auto.
Qed.

Lemma anc_g b n : hgt b n -> anc g b.
Proof. induction 1 as [|b p n Hp Hn IH]; [apply rtc_refl|]. by eapply rtc_r. Qed.

Lemma anc_same_hgt a b n : anc a b -> hgt a n -> hgt b n -> a = b.
Proof.
  intros Hab Ha Hb. apply rtc_inv_r in Hab as [|(p & Hap & Hp)]; [done|].
  inversion Hb; subst; [congruence|]. assert (p0 = p) as -> by congruence.
  destruct (anc_hgt _ _ _ Hap ltac:(done)) as (m & Hm & ?).
  pose proof (hgt_fun _ _ _ Ha Hm). lia.
Qed.

(** ** Votes, quorums and certified blocks *)

Variables (nodes byz : gset Z) (q : nat).
Hypothesis quorum_intersect : forall Q1 Q2 : gset Z,
  Q1 ⊆ nodes -> Q2 ⊆ nodes -> (q <= size Q1)%nat -> (q <= size Q2)%nat ->
  exists r, r ∈ Q1 /\ r ∈ Q2 /\ r ∉ byz.

(** A vote of an honest replica with the block it was locked on. *)
Record VoteRec := mkVR { vr_r : Z; vr_b : B; vr_lock : B }.

(** Newest vote first. *)
Definition history := list VoteRec.

Definition voted_for (hs : history) (r : Z) (b : B) : Prop :=
  exists l, mkVR r b l ∈ hs.

Definition certified (hs : history) (b : B) : Prop :=
  b = g \/ exists Q : gset Z, Q ⊆ nodes /\ (q <= size Q)%nat /\
    forall r, r ∈ Q -> r ∉ byz -> voted_for hs r b.

(** The voting rule: what holds when replica [r], locked on [l], votes
    for [b] after the votes [hs] have been cast. *)
Record vote_ok (hs : history) (r : Z) (b l : B) : Prop := {
  vo_fresh : forall b' n n', voted_for hs r b' -> hgt b n -> hgt b' n' -> n' < n;
  vo_lock : certified hs l;
  vo_lock_hgt : exists n, hgt l n;
  vo_just : exists j, just b = Some j /\ certified hs j /\ anc j b;
  vo_rule : anc l b \/
    exists j m n, just b = Some j /\ hgt l m /\ hgt j n /\ m < n;
  vo_two_chain : forall b' j1 j2 m n,
    voted_for hs r b' \/ b' = b -> just b' = Some j1 -> just j1 = Some j2 ->
    hgt j2 m -> hgt l n -> m <= n;
}.

Inductive valid : history -> Prop :=
  | valid_nil : valid []
  | valid_cons hs r b l : valid hs -> vote_ok hs r b l -> valid (mkVR r b l :: hs).

Lemma voted_in hs r b l : mkVR r b l ∈ hs -> voted_for hs r b.
Proof. by exists l. Qed.

Lemma certified_mono hs hs' b : hs ⊆ hs' -> certified hs b -> certified hs' b.
Proof.
  intros Hsub [->|(Q & ? & ? & HQ)]; [by left|right].
  exists Q. split_and!; [done..|]. intros r Hr Hb.
  destruct (HQ r Hr Hb) as [l Hl]. exists l. auto.
Qed.

(** Every vote of a valid history obeyed the rule when it was cast. *)
Lemma valid_vote hs r b l : valid hs -> mkVR r b l ∈ hs ->
  exists hs1 hs2, hs = hs1 ++ mkVR r b l :: hs2 /\ valid hs2 /\ vote_ok hs2 r b l.
Proof.
  intros Hv. induction Hv as [|hs r' b' l' Hv IH Hok]; intros Hin.
  - by apply elem_of_nil in Hin.
  - apply elem_of_cons in Hin as [Heq|Hin].
    + simplify_eq. by exists [], hs.
    + destruct (IH Hin) as (hs1 & hs2 & -> & ? & ?).
      by exists (mkVR r' b' l' :: hs1), hs2.
Qed.

(** A replica votes at most once per height. *)
Lemma valid_same_height hs r b b' n : valid hs ->
  voted_for hs r b -> voted_for hs r b' -> hgt b n -> hgt b' n -> b = b'.
Proof.
  intros Hv. induction Hv as [|hs r0 b0 l0 Hv IH Hok]; intros [l Hl] [l' Hl'] Hb Hb'.
  { by apply elem_of_nil in Hl. }
  apply elem_of_cons in Hl as [Hl|Hl], Hl' as [Hl'|Hl']; simplify_eq; [done|..].
  - pose proof (vo_fresh _ _ _ _ Hok b' n n (voted_in _ _ _ _ Hl') Hb Hb'). lia.
  - pose proof (vo_fresh _ _ _ _ Hok b n n (voted_in _ _ _ _ Hl) Hb' Hb). lia.
  - apply IH; [by eexists..|done|done].
Qed.

(** If [r] voted for a block of height [n] and for [b] of height [m < n],
    then the vote for [b] came first. *)
Lemma valid_order hs1 hs2 r w l b n m : valid (hs1 ++ mkVR r w l :: hs2) ->
  voted_for (hs1 ++ mkVR r w l :: hs2) r b -> hgt w n -> hgt b m -> m < n ->
  voted_for hs2 r b.
Proof.
  induction hs1 as [|[r0 b0 l0] hs1 IH]; simpl; intros Hv [l' Hl'] Hw Hb Hlt.
  - apply elem_of_cons in Hl' as [Hl'|Hl'].
    + simplify_eq. pose proof (hgt_fun _ _ _ Hw Hb). lia.
    + by exists l'.
  - inversion Hv as [|? ? ? ? Hv' Hok]; subst.
    apply elem_of_cons in Hl' as [Hl'|Hl'].
    + simplify_eq. exfalso.
      assert (voted_for (hs1 ++ mkVR r0 w l :: hs2) r0 w) as Hvf.
      { exists l. apply elem_of_app. right. by left. }
      pose proof (vo_fresh _ _ _ _ Hok w m n Hvf Hb Hw). lia.
    + apply IH; [done| by exists l' |done..].
Qed.

Lemma certified_intersect hs hs' b w : certified hs b -> certified hs' w ->
  b <> g -> w <> g -> exists r, voted_for hs r b /\ voted_for hs' r w.
Proof.
  intros [?|(Q & HQ & Hs & Hv)] [?|(Q' & HQ' & Hs' & Hv')] ? ?; [done..|].
  destruct (quorum_intersect Q Q') as (r & ? & ? & ?); eauto.
Qed.

Lemma certified_same_height hs b w n : valid hs -> certified hs b ->
  certified hs w -> hgt b n -> hgt w n -> b = w.
Proof.
  intros Hv Hb Hw Hn Hn'.
  destruct (decide (b = g)) as [->|Hbg].
  { inversion Hn; subst; [|congruence]. symmetry. by apply hgt_0. }
  destruct (decide (w = g)) as [->|Hwg].
  { inversion Hn'; subst; [|congruence]. by apply hgt_0. }
  destruct (certified_intersect hs hs b w) as (r & ? & ?); [done..|].
  by eapply valid_same_height.
Qed.

(** [b0], [b1], [b2] form a certified direct chain: the condition under
    which [update] commits [b0]. *)
Record three_chain (hs : history) (b0 b1 b2 : B) : Prop := {
  tc_c0 : certified hs b0;
  tc_c1 : certified hs b1;
  tc_c2 : certified hs b2;
  tc_p1 : par b1 = Some b0;
  tc_p2 : par b2 = Some b1;
  tc_j1 : just b1 = Some b0;
  tc_j2 : just b2 = Some b1;
}.

(** Main lemma: certified blocks at or above [b0] extend [b0].  The
    induction is on the history at the time the certificate existed. *)
Lemma three_chain_extends hs b0 b1 b2 n0 : valid hs -> three_chain hs b0 b1 b2 ->
  hgt b0 n0 -> forall hs1 hs2 w n, hs = hs1 ++ hs2 -> valid hs2 ->
  certified hs2 w -> hgt w n -> n0 <= n -> anc b0 w.
Proof.
  intros Hv Htc Hn0.
  assert (hgt b1 (n0 + 1)) as Hn1 by (econstructor; [apply Htc|done]).
  assert (hgt b2 (n0 + 1 + 1)) as Hn2 by (econstructor; [apply Htc|done]).
  pose proof (hgt_nonneg _ _ Hn0).
  intros hs1 hs2. revert hs1. remember (length hs2) as len eqn:Hlen.
  revert hs2 Hlen. induction (lt_wf len) as [len _ IH].
  intros hs2 -> hs1 w n -> Hv2 Hw Hn Hle.
  pose proof (certified_mono hs2 (hs1 ++ hs2) w ltac:(set_solver) Hw) as Hw'.
  assert (forall b k, certified (hs1 ++ hs2) b -> hgt b k -> n = k -> w = b) as Hsame.
  { intros b k Hb Hk ->. by apply (certified_same_height (hs1 ++ hs2) w b k). }
  destruct (decide (n = n0)).
  { rewrite (Hsame b0 n0) by (done || apply Htc). apply rtc_refl. }
  destruct (decide (n = n0 + 1)).
  { rewrite (Hsame b1 (n0 + 1)) by (done || apply Htc). apply rtc_once, Htc. }
  destruct (decide (n = n0 + 1 + 1)).
  { rewrite (Hsame b2 (n0 + 1 + 1)) by (done || apply Htc).
    eapply rtc_l; [apply Htc|]. apply rtc_once, Htc. }
  clear Hsame.
  assert (b2 <> g) by (intros ->; pose proof (tc_p2 _ _ _ _ Htc); congruence).
  assert (w <> g) by (intros ->; pose proof (hgt_fun _ _ _ hgt_g Hn); lia).
  destruct (certified_intersect (hs1 ++ hs2) hs2 b2 w) as (r & Hr2 & [l Hrw]);
    [apply Htc|done..|].
  destruct (valid_vote _ _ _ _ Hv2 Hrw) as (k1 & k2 & -> & Hvk & Hok).
  rewrite (assoc_L (++)) in Hv, Hr2.
  pose proof (valid_order _ _ _ _ _ _ n _ Hv Hr2 Hn Hn2 ltac:(lia)) as Hbefore.
  destruct (vo_lock_hgt _ _ _ _ Hok) as [m Hm].
  assert (n0 <= m).
  { eapply (vo_two_chain _ _ _ _ Hok b2 b1 b0); eauto using tc_j1, tc_j2. }
  assert (forall x k, certified k2 x -> hgt x k -> n0 <= k -> anc b0 x) as IHx.
  { intros x k Hx Hk ?.
    eapply (IH (length k2)) with (hs1 := hs1 ++ k1 ++ [mkVR r w l]);
      [rewrite length_app; simpl; lia|done| |done..].
    by rewrite <- !(assoc_L (++)). }
  destruct (vo_just _ _ _ _ Hok) as (j & Hj & Hcj & Hanc).
  destruct (vo_rule _ _ _ _ Hok) as [Hlw|(j' & ml & mj & Hj' & Hml & Hmj & ?)].
  - etrans; [|exact Hlw]. eapply IHx; [apply Hok|done|lia].
  - simplify_eq. assert (ml = m) as -> by (eapply hgt_fun; eauto).
    etrans; [|exact Hanc]. eapply IHx; [done..|lia].
Qed.

(** Agreement: the heads of two certified three-chains lie on one branch. *)
Lemma three_chains_comparable hs b0 b1 b2 c0 c1 c2 n m : valid hs ->
  three_chain hs b0 b1 b2 -> three_chain hs c0 c1 c2 ->
  hgt b0 n -> hgt c0 m -> anc b0 c0 \/ anc c0 b0.
Proof.
  intros Hv Hb Hc Hn Hm. destruct (decide (n <= m)).
  - left. by eapply (three_chain_extends hs b0 b1 b2 n Hv Hb Hn []); try done; apply Hc.
  - right. eapply (three_chain_extends hs c0 c1 c2 m Hv Hc Hm []); try done; [apply Hb|lia].
Qed.
End Agreement.

(** Two quorums of a system with [3f + 1 <= n] replicas, of which at most
    [f] are Byzantine, share an honest replica. *)
Lemma quorum_intersection (nodes byz Q1 Q2 : gset Z) (f q : nat) :
  (3 * f < size nodes)%nat -> (size (byz ∩ nodes) <= f)%nat ->
  (size nodes <= q + f)%nat ->
  Q1 ⊆ nodes -> Q2 ⊆ nodes -> (q <= size Q1)%nat -> (q <= size Q2)%nat ->
  exists r, r ∈ Q1 /\ r ∈ Q2 /\ r ∉ byz.
Proof.
  intros Hn Hf Hq H1 H2 Hs1 Hs2.
  assert (size (Q1 ∪ Q2) <= size nodes)%nat by (apply subseteq_size; set_solver).
  pose proof (size_union_alt Q1 Q2) as Hu.
  assert (size (Q2 ∖ Q1) + size (Q1 ∩ Q2) = size Q2)%nat.
  { rewrite <- size_union by set_solver. f_equal. apply set_eq. intros x.
    destruct (decide (x ∈ Q1)); set_solver. }
  destruct (decide ((Q1 ∩ Q2) ∖ byz = ∅)) as [He|Hne].
  - exfalso. assert (size (Q1 ∩ Q2) <= size (byz ∩ nodes))%nat; [|lia].
    apply subseteq_size. intros x Hx.
    destruct (decide (x ∈ byz)); set_solver.
  - apply set_choose_L in Hne as [r Hr]. exists r. set_solver.
Qed.
