(* ===== verification/CoreInv.v ===== *)
(** * Invariants of a replica

    The well-formedness of the block tree a replica has built ([wf]) and the
    safety invariant [inv] that ties its lock, its highest QC, its votes and
    its decisions to the history of votes cast in the whole system
    (Agreement).  CoreSteps shows that every operation of Core preserves
    them. *)

From S2P Require Import Prelude Certs Entity Core Agreement.

Section Defs.
Context `{BlockHash} `{!CommandType} `{!CertSchemeLaws} `{!CollisionFree}.

Definition genesis_hash : uint256 := get_hash genesis_content.

(** The first parent and the QC target that a digest commits to.  The
    genesis block's QC is for itself (on_init). *)
Definition parH (h : uint256) : option uint256 :=
  c ← unhash h; head (parent_hashes c).
Definition jstH (h : uint256) : option uint256 :=
  if decide (h = genesis_hash) then Some genesis_hash
  else c ← unhash h; q ← qc c; Some (qc_obj_hash q).

Abbreviation ancH := (anc parH).
Abbreviation hgtH := (hgt genesis_hash parH).

Lemma parH_genesis : parH genesis_hash = None.
Proof. unfold parH, genesis_hash. by rewrite unhash_get_hash. Qed.

(** A block of the tree: present and delivered. *)
Definition dlv (s : HotStuffCore) (p : ptr) (b : Block) : Prop :=
  hp s !! p = Some b /\ delivered b = true.

Record wf (s : HotStuffCore) : Prop := {
  wf_cache : forall h p, blk_cache (storage s) !! h = Some p <->
    exists b, hp s !! p = Some b /\ hash b = h;
  wf_hash : forall p b, hp s !! p = Some b -> p <> b0 s ->
    hash b = get_hash (content b);
  wf_b0 : exists g, dlv s (b0 s) g /\ hash g = genesis_hash /\ parents g = [] /\
    qc_ref g = Some (b0 s) /\ height g = 0 /\
    exists q, qc (content g) = Some q /\ qc_obj_hash q = genesis_hash;
  wf_dlv : forall p b, dlv s p b -> p <> b0 s ->
    exists p0 c0 r rb q,
      head (parents b) = Some p0 /\ dlv s p0 c0 /\
      head (parent_hashes (content b)) = Some (hash c0) /\
      height b = height c0 + 1 /\ 0 <= height c0 /\ height b < 2 ^ 32 /\
      qc (content b) = Some q /\ qc_obj_hash q = hash rb /\
      qc_ref b = Some r /\ dlv s r rb /\ ancH (hash rb) (hash c0);
}.

Section WfFacts.
Context (s : HotStuffCore) (W : wf s).

Lemma wf_inj p p' b b' : hp s !! p = Some b -> hp s !! p' = Some b' ->
  hash b = hash b' -> p = p'.
Proof.
  intros Hb Hb' Heq.
  assert (blk_cache (storage s) !! hash b = Some p) by (apply wf_cache; eauto).
  assert (blk_cache (storage s) !! hash b = Some p')
    by (apply wf_cache; [done|]; rewrite Heq; eauto).
  congruence.
Qed.

Lemma wf_not_b0 p b : hp s !! p = Some b -> p <> b0 s -> hash b <> genesis_hash.
Proof.
  intros Hb Hp Heq. destruct (wf_b0 s W) as (g & [Hg _] & Hh & _).
  apply Hp. eapply wf_inj; eauto. congruence.
Qed.

Lemma wf_b0_dlv : exists g, dlv s (b0 s) g /\ hash g = genesis_hash /\ height g = 0.
Proof. destruct (wf_b0 s W) as (g & ? & ? & ? & ? & ? & ?). eauto. Qed.

Lemma dlv_b0 b : hp s !! b0 s = Some b -> hash b = genesis_hash /\ height b = 0 /\ dlv s (b0 s) b.
Proof.
  intros Hb. destruct wf_b0_dlv as (g & Hd & ? & ?).
  destruct Hd as [Hg ?]. rewrite Hb in Hg. simplify_eq. done.
Qed.

(** First parent of a delivered block. *)
Lemma dlv_par p b : dlv s p b -> p <> b0 s ->
  exists p0 c0, head (parents b) = Some p0 /\ dlv s p0 c0 /\
    parH (hash b) = Some (hash c0) /\ height b = height c0 + 1 /\ 0 <= height c0.
Proof.
  intros Hd Hp. destruct (wf_dlv s W p b Hd Hp)
    as (p0 & c0 & r & rb & q & ? & ? & Hph & ? & ? & _).
  exists p0, c0. split_and!; try done. unfold parH.
  rewrite (wf_hash s W p b) by (done || apply Hd). by rewrite unhash_get_hash.
Qed.

Lemma dlv_height_nonneg p b : dlv s p b -> 0 <= height b.
Proof.
  intros Hd. destruct (decide (p = b0 s)) as [->|Hp].
  - destruct (dlv_b0 b) as (_ & -> & _); [apply Hd|done].
  - destruct (dlv_par p b Hd Hp) as (?&?&_&_&_&?&?). lia.
Qed.

(** Induction along first parents. *)
Lemma dlv_ind (P : ptr -> Block -> Prop) :
  (forall b, dlv s (b0 s) b -> P (b0 s) b) ->
  (forall p b p0 c0, dlv s p b -> p <> b0 s -> head (parents b) = Some p0 ->
     dlv s p0 c0 -> parH (hash b) = Some (hash c0) ->
     height b = height c0 + 1 -> P p0 c0 -> P p b) ->
  forall p b, dlv s p b -> P p b.
Proof.
  intros Hbase Hstep p b. remember (Z.to_nat (height b)) as n eqn:Hn.
  revert p b Hn. induction (lt_wf n) as [n _ IH]. intros p b -> Hd.
  destruct (decide (p = b0 s)) as [->|Hp]; [by apply Hbase|].
  destruct (dlv_par p b Hd Hp) as (p0 & c0 & ? & Hd0 & ? & Hh & ?).
  eapply Hstep; try done. eapply IH; [|done|done]. lia.
Qed.

Lemma dlv_hgt p b : dlv s p b -> hgtH (hash b) (height b).
Proof.
  revert p b. apply dlv_ind.
  - intros b Hd. destruct (dlv_b0 b) as (-> & -> & _); [apply Hd|]. constructor.
  - intros p b p0 c0 _ _ _ _ Hpar -> IH. by econstructor.
Qed.

(** The block a delivered block's QC refers to. *)
Lemma dlv_just p b : dlv s p b ->
  exists r rb, qc_ref b = Some r /\ dlv s r rb /\
    jstH (hash b) = Some (hash rb) /\ ancH (hash rb) (hash b) /\
    (exists q, qc (content b) = Some q /\ qc_obj_hash q = hash rb) /\
    (r = b0 s \/ height rb < height b).
Proof.
  intros Hd. destruct (decide (p = b0 s)) as [->|Hp].
  - destruct (wf_b0 s W) as (g & Hg & Hh & _ & Hr & _ & q & Hq & Hqo).
    assert (b = g) as -> by (destruct Hd, Hg; congruence).
    exists (b0 s), g. split_and!; try done.
    + unfold jstH. rewrite Hh. by rewrite decide_True.
    + exists q. by rewrite Hh.
    + by left.
  - destruct (wf_dlv s W p b Hd Hp) as (p0 & c0 & r & rb & q & ? & Hd0 & Hph & Hh
      & ? & _ & Hq & Hqo & Hr & Hrd & Hanc).
    destruct (dlv_par p b Hd Hp) as (p0' & c0' & ? & Hd0' & Hpar & _).
    assert (p0' = p0) as -> by congruence.
    assert (c0' = c0) as -> by (destruct Hd0, Hd0'; congruence).
    exists r, rb. split_and!; try done.
    + unfold jstH. rewrite decide_False by (eapply wf_not_b0; [apply Hd|done]).
      rewrite (wf_hash s W p b), unhash_get_hash by (done || apply Hd).
      simpl. rewrite Hq. simpl. by rewrite Hqo.
    + by eapply rtc_r.
    + eauto.
    + right. destruct (anc_hgt _ _ parH_genesis _ _ _ Hanc (dlv_hgt _ _ Hd0)) as (m & Hm & ?).
      pose proof (hgt_fun _ _ parH_genesis _ _ _ Hm (dlv_hgt _ _ Hrd)). lia.
Qed.

Lemma dlv_unique p b b' : dlv s p b -> dlv s p b' -> b = b'.
Proof. intros [? _] [? _]. congruence. Qed.

Lemma dlv_ptr p p' b b' : dlv s p b -> dlv s p' b' -> hash b = hash b' -> p = p' /\ b = b'.
Proof.
  intros Hd Hd' Heq. assert (p = p') as -> by (eapply wf_inj; [apply Hd|apply Hd'|done]).
  split; [done|]. by eapply dlv_unique.
Qed.

(** Ancestors of a delivered block are in the tree. *)
Lemma dlv_anc x p b : dlv s p b -> ancH x (hash b) ->
  exists p' b', dlv s p' b' /\ hash b' = x /\ height b' <= height b.
Proof.
  revert p b. apply (dlv_ind (fun p b => ancH x (hash b) ->
    exists p' b', dlv s p' b' /\ hash b' = x /\ height b' <= height b)).
  - intros b Hd Ha. destruct (dlv_b0 b) as (Hh & _ & _); [apply Hd|].
    apply rtc_inv_r in Ha as [->|(y & _ & Hy)].
    + exists (b0 s), b. by split; [|split; [|lia]].
    + rewrite Hh, parH_genesis in Hy. done.
  - intros p b p0 c0 Hd _ _ Hd0 Hpar Hh IH Ha.
    apply rtc_inv_r in Ha as [->|(y & Hy & Hpy)].
    + exists p, b. by split; [|split; [|lia]].
    + rewrite Hpar in Hpy. simplify_eq.
      destruct (IH Hy) as (p' & b' & ? & ? & ?). exists p', b'. split; [done|split; [done|lia]].
Qed.
End WfFacts.

(** ** States with the same block tree

    Everything but delivery leaves the tree part of the blocks alone. *)

Definition tree_of (b : Block) :=
  (content b, hash b, parents b, qc_ref b, height b, delivered b).

Record same_tree (s s' : HotStuffCore) : Prop := {
  st_heap : tree_of <$> hp s = tree_of <$> hp s';
  st_b0 : b0 s = b0 s';
  st_storage : storage s = storage s';
  st_config : config s = config s';
  st_id : id s = id s';
  st_key : priv_key s = priv_key s';
}.

#[export] Instance same_tree_equiv : Equivalence same_tree.
Proof.
  split.
  - by intros s.
  - intros s s' []. by split.
  - intros s1 s2 s3 [] []. split; congruence.
Qed.

Lemma same_tree_lookup s s' p b' : same_tree s s' -> hp s' !! p = Some b' ->
  exists b, hp s !! p = Some b /\ tree_of b = tree_of b'.
Proof.
  intros [Hh _ _ _ _ _] Hb. assert ((tree_of <$> hp s) !! p = Some (tree_of b')) as Hl.
  { by rewrite Hh, list_lookup_fmap, Hb. }
  rewrite list_lookup_fmap in Hl. destruct (hp s !! p) as [b|]; [|done].
  simpl in Hl. exists b. split; congruence.
Qed.

Lemma same_tree_dlv s s' p b' : same_tree s s' -> dlv s' p b' ->
  exists b, dlv s p b /\ tree_of b = tree_of b'.
Proof.
  intros Hs [Hb Hd]. destruct (same_tree_lookup _ _ _ _ Hs Hb) as (b & ? & Ht).
  exists b. unfold tree_of in Ht. split; [split; [done|congruence]|done].
Qed.

Lemma wf_same_tree s s' : same_tree s s' -> wf s -> wf s'.
Proof.
  intros Hs W. pose proof (symmetry Hs) as Hs'. split.
  - intros h p. rewrite <- (st_storage _ _ Hs), (wf_cache s W). split.
    + intros (b & Hb & <-). destruct (same_tree_lookup _ _ _ _ Hs' Hb) as (b' & ? & Ht).
      exists b'. unfold tree_of in Ht. split; congruence.
    + intros (b & Hb & <-). destruct (same_tree_lookup _ _ _ _ Hs Hb) as (b' & ? & Ht).
      exists b'. unfold tree_of in Ht. split; congruence.
  - intros p b Hb Hp. destruct (same_tree_lookup _ _ _ _ Hs Hb) as (b' & Hb' & Ht).
    pose proof (wf_hash s W p b' Hb' ltac:(by rewrite (st_b0 _ _ Hs))).
    unfold tree_of in Ht. congruence.
  - destruct (wf_b0 s W) as (g & Hg & Hh & Hpa & Hr & Hht & q & Hq & Hqo).
    destruct (same_tree_dlv _ _ _ _ Hs' Hg) as (g' & Hg' & Ht).
    rewrite <- (st_b0 _ _ Hs). exists g'. unfold tree_of in Ht.
    assert (content g' = content g) as Hc by congruence. rewrite Hc.
    split; [done|]. repeat (split; [congruence|]). eauto.
  - intros p b Hd Hp. destruct (same_tree_dlv _ _ _ _ Hs Hd) as (b' & Hd' & Ht).
    rewrite <- (st_b0 _ _ Hs) in Hp.
    destruct (wf_dlv s W p b' Hd' Hp) as (p0 & c0 & r & rb & q & ? & Hd0 & ? & ? & ? & ?
      & ? & ? & ? & Hrd & ?).
    destruct (same_tree_dlv _ _ _ _ Hs' Hd0) as (c0' & ? & Ht0).
    destruct (same_tree_dlv _ _ _ _ Hs' Hrd) as (rb' & ? & Htr).
    unfold tree_of in *. simplify_eq.
    exists p0, c0', r, rb', q.
    assert (content b = content b') as -> by congruence.
    assert (hash c0' = hash c0) as -> by congruence.
    assert (hash rb' = hash rb) as -> by congruence.
    repeat match goal with |- _ /\ _ => split end; (congruence || lia || done || idtac).
Qed.

(** Updating the mutable part of one block. *)
Lemma same_tree_alter s p f : (forall b, tree_of (f b) = tree_of b) ->
  same_tree s (set_heap (alter f p (hp s)) s).
Proof.
  intros Hf. split; try done. simpl. apply list_eq. intros i.
  rewrite !list_lookup_fmap, list_lookup_alter.
  case_decide; [subst|done]. destruct (hp s !! i); simpl; [by rewrite Hf|done].
Qed.

(** ** The safety invariant *)

Section Inv.
Variables (nodes byz : gset Z) (q : nat).
Abbreviation hist := (history (B := uint256)).
Abbreviation cert := (certified genesis_hash nodes byz q).
Abbreviation tchain := (three_chain genesis_hash parH jstH nodes byz q).

Record inv (r : ReplicaID) (hs : hist) (s : HotStuffCore) : Prop := {
  i_wf : wf s;
  i_id : id s = r;
  i_config : nmajority (config s) = Z.of_nat q /\ config_ids (config s) = nodes;
  i_cert : forall p b j, dlv s p b -> jstH (hash b) = Some j -> cert hs j;
  i_lock : exists lb, dlv s (b_lock s) lb /\ cert hs (hash lb);
  i_hqc : exists p hq hb, hqc s = Some (p, hq) /\ dlv s p hb /\
    cert hs (hash hb) /\ qc_obj_hash hq = hash hb;
  i_lock_hqc : b_lock s = b0 s \/
    forall p hq hb lb, hqc s = Some (p, hq) -> dlv s p hb ->
      dlv s (b_lock s) lb -> height lb < height hb;
  i_votes : forall b, voted_for hs r b ->
    exists p bb, dlv s p bb /\ hash bb = b /\ height bb <= vheight s;
  i_two_chain : forall b j1 j2 lb m, voted_for hs r b -> jstH b = Some j1 ->
    jstH j1 = Some j2 -> hgtH j2 m -> dlv s (b_lock s) lb -> m <= height lb;
  i_voted : forall p b v, hp s !! p = Some b -> p <> b0 s -> v ∈ voted b ->
    v ∈ nodes /\ (v ∉ byz -> voted_for hs v (hash b));
  i_voted_b0 : forall b, hp s !! b0 s = Some b -> nodes ⊆ voted b;
  i_self_qc : forall p b c, hp s !! p = Some b -> self_qc b = Some c ->
    qc_obj_hash c = hash b;
  i_exec : exists eb, dlv s (b_exec s) eb;
  i_exec_lock : forall eb lb, dlv s (b_exec s) eb -> dlv s (b_lock s) lb ->
    height eb <= height lb;
  i_exec_chain : forall eb, dlv s (b_exec s) eb ->
    b_exec s = b0 s \/ exists h1 h2, tchain hs (hash eb) h1 h2;
  i_dec : forall p b eb, hp s !! p = Some b -> dlv s (b_exec s) eb ->
    (decision b <> 0 <-> delivered b = true /\ ancH (hash b) (hash eb));
  i_trace : forall f, EvDecide f ∈ trace s -> exists p b i,
    dlv s p b /\ decision b <> 0 /\ fin_blk_hash f = hash b /\
    cmd_height f = height b /\ cmd_idx f = u32 (Z.of_nat i) /\
    cmds (content b) !! i = Some (cmd_hash f);
}.

(** Votes of other replicas only add certificates. *)
Lemma inv_mono r hs hs' s : hs ⊆ hs' ->
  (forall b, voted_for hs' r b -> voted_for hs r b) -> inv r hs s -> inv r hs' s.
Proof.
  intros Hsub Hr []. pose proof (fun b => certified_mono genesis_hash nodes byz q hs hs' b Hsub) as Hm.
  split; try done; eauto.
  - destruct i_lock0 as (lb & ? & ?). eauto.
  - destruct i_hqc0 as (p & hq & hb & ? & ? & ? & ?). eauto 10.
  - intros p b v Hb Hp Hv. destruct (i_voted0 p b v Hb Hp Hv) as [? Hvf].
    split; [done|]. intros Hz. destruct (Hvf Hz) as [l Hl]. exists l. auto.
  - intros eb He. destruct (i_exec_chain0 eb He) as [?|(h1 & h2 & [])]; [by left|].
    right. exists h1, h2. split; auto.
Qed.
End Inv.
End Defs.
