(* ===== verification/CoreSteps.v ===== *)
(** * The operations of a replica preserve its invariants

    Weakest-precondition specifications of the functions of Core under the
    safety invariant of CoreInv: what each leaves unchanged ([quiet]), which
    exceptions it can raise, and the facts about the lock that the voting
    rule needs. *)

From S2P Require Import Prelude Certs Entity Core Agreement CoreInv.

Section Steps.
Context `{BlockHash} `{!CommandType} `{!CertSchemeLaws} `{!CollisionFree}.
Variables (nodes byz : gset Z) (q : nat).
Abbreviation hist := (history (B := uint256)).
Abbreviation ancH := (anc parH).
Abbreviation hgtH := (hgt genesis_hash parH).
Abbreviation cert := (certified genesis_hash nodes byz q).
Abbreviation tchain := (three_chain genesis_hash parH jstH nodes byz q).
Abbreviation inv := (inv nodes byz q).

(** The digests signed so far, newest first. *)
Definition signed (s : HotStuffCore) : list uint256 :=
  omap (fun e => match e with EvSign h => Some h | _ => None end) (trace s).

(** Nothing that other steps rely on has changed. *)
Record quiet (s s' : HotStuffCore) : Prop := {
  qt_tree : same_tree s s';
  qt_vheight : vheight s = vheight s';
  qt_signed : signed s = signed s';
  qt_disabled : vote_disabled s = vote_disabled s';
}.

#[export] Instance quiet_preorder : PreOrder quiet.
Proof.
  split; [by intros s; split|]. intros s1 s2 s3 [] []. split; [|congruence..].
  by etrans.
Qed.

Definition is_decide (e : Event) : bool :=
  match e with EvDecide _ => true | _ => false end.
Definition is_sign (e : Event) : bool :=
  match e with EvSign _ => true | _ => false end.

Lemma quiet_emit e s : is_sign e = false -> quiet s (set_trace (e :: trace s) s).
Proof. intros He. by destruct e. Qed.
Lemma quiet_set_hqc x s : quiet s (set_hqc x s).
Proof. done. Qed.
Lemma quiet_set_b_lock x s : quiet s (set_b_lock x s).
Proof. done. Qed.
Lemma quiet_set_b_exec x s : quiet s (set_b_exec x s).
Proof. done. Qed.
Lemma quiet_set_qc_waiting x s : quiet s (set_qc_waiting x s).
Proof. done. Qed.

(** ** Pure state changes that keep the invariant *)

Section Pure.
Context (r : ReplicaID) (hs : hist) (s : HotStuffCore) (I : inv r hs s).

Local Ltac same := split; (done || (by split)).

Lemma wf_frame s' : hp s = hp s' -> b0 s = b0 s' -> storage s = storage s' ->
  config s = config s' -> id s = id s' -> priv_key s = priv_key s' -> wf s'.
Proof. intros. apply (wf_same_tree s); [split; congruence|apply I]. Qed.

Lemma inv_emit e : is_decide e = false -> inv r hs (set_trace (e :: trace s) s).
Proof.
  intros He. pose proof (wf_frame (set_trace (e :: trace s) s)) as W.
  destruct I. split; try assumption; [by apply W|].
  intros f [Heq|Hin]%elem_of_cons; [subst; done|by apply i_trace].
Qed.

Lemma inv_set_qc_waiting w : inv r hs (set_qc_waiting w s).
Proof.
  pose proof (wf_frame (set_qc_waiting w s)) as W.
  destruct I. split; try assumption. by apply W.
Qed.

Lemma inv_set_tails t : inv r hs (set_tails t s).
Proof.
  pose proof (wf_frame (set_tails t s)) as W.
  destruct I. split; try assumption. by apply W.
Qed.

Lemma inv_set_vheight v : vheight s <= v -> inv r hs (set_vheight v s).
Proof.
  intros Hv. pose proof (wf_frame (set_vheight v s)) as W.
  destruct I. split; try assumption; [by apply W|].
  intros b Hb. destruct (i_votes b Hb) as (p & bb & ? & ? & ?).
  exists p, bb. simpl. split; [done|split; [done|lia]].
Qed.

Lemma inv_set_hqc p hq b : dlv s p b -> cert hs (hash b) -> qc_obj_hash hq = hash b ->
  (forall p' hq' b', hqc s = Some (p', hq') -> dlv s p' b' -> height b' <= height b) ->
  inv r hs (set_hqc (Some (p, hq)) s).
Proof.
  intros Hd Hc Hq Hle. pose proof (wf_frame (set_hqc (Some (p, hq)) s)) as W.
  destruct I. split; try assumption; [by apply W|by eauto 10|].
  destruct i_lock_hqc as [?|Hlt]; [by left|right].
  intros p1 hq1 hb lb [= <- <-] Hd1 Hl.
  destruct i_hqc as (p' & hq' & b' & Hs & Hd' & _).
  specialize (Hlt _ _ _ _ Hs Hd' Hl). specialize (Hle _ _ _ Hs Hd').
  pose proof (dlv_unique s _ _ _ Hd1 Hd) as ->. lia.
Qed.

Lemma inv_set_b_lock p b : dlv s p b -> cert hs (hash b) ->
  (forall lb, dlv s (b_lock s) lb -> height lb < height b) ->
  (forall p' hq' b', hqc s = Some (p', hq') -> dlv s p' b' -> height b < height b') ->
  inv r hs (set_b_lock p s).
Proof.
  intros Hd Hc Hlt Hle. pose proof (wf_frame (set_b_lock p s)) as W.
  destruct I. destruct i_lock as (lb & Hl & _). specialize (Hlt _ Hl).
  assert (forall x, dlv s p x -> x = b) as Hu by (intros; by eapply dlv_unique).
  split; try assumption; [by apply W|by eauto|..].
  - right. intros p1 hq1 hb lb1 Hs Hd1 ->%Hu. eauto.
  - intros b1 j1 j2 lb1 m ? ? ? ? ->%Hu. enough (m <= height lb) by lia. eauto.
  - intros eb lb1 He ->%Hu. enough (height eb <= height lb) by lia. eauto.
Qed.

Lemma inv_dlv_hqc : exists p hq hb, hqc s = Some (p, hq) /\ dlv s p hb.
Proof. destruct (i_hqc _ _ _ _ _ _ I) as (p & hq & hb & ? & ? & _). eauto. Qed.
Lemma inv_dlv_lock : exists lb, dlv s (b_lock s) lb.
Proof. destruct (i_lock _ _ _ _ _ _ I) as (lb & ? & _). eauto. Qed.

(** The target of a delivered block's QC is certified. *)
Lemma inv_just_cert p b p' b' : dlv s p b -> qc_ref b = Some p' -> dlv s p' b' ->
  cert hs (hash b') /\ jstH (hash b) = Some (hash b').
Proof.
  intros Hd Hr Hd'. destruct (dlv_just s (i_wf _ _ _ _ _ _ I) p b Hd)
    as (r' & rb & Hr' & Hd'' & Hj & _).
  assert (r' = p') as -> by congruence.
  pose proof (dlv_unique s _ _ _ Hd'' Hd') as ->.
  split; [|done]. exact (i_cert _ _ _ _ _ _ I p b _ Hd Hj).
Qed.

(** Undecided blocks are not the genesis block. *)
Lemma inv_undecided p b : dlv s p b -> decision b = 0 -> p <> b0 s.
Proof.
  intros Hd Hdec ->. destruct (i_exec _ _ _ _ _ _ I) as [eb He].
  pose proof (i_wf _ _ _ _ _ _ I) as W.
  destruct (dlv_b0 s W b) as (Hh & _ & _); [apply Hd|].
  apply (i_dec _ _ _ _ _ _ I (b0 s) b eb (proj1 Hd) He); [|done].
  split; [apply Hd|]. rewrite Hh. eapply anc_g. by eapply dlv_hgt.
Qed.

(** Decided blocks are no higher than the lock. *)
Lemma inv_decided_lock p b lb : dlv s p b -> decision b <> 0 ->
  dlv s (b_lock s) lb -> height b <= height lb.
Proof.
  intros Hd Hdec Hl. destruct (i_exec _ _ _ _ _ _ I) as [eb He].
  pose proof (i_wf _ _ _ _ _ _ I) as W.
  apply (i_dec _ _ _ _ _ _ I p b eb (proj1 Hd) He) in Hdec as [_ Ha].
  destruct (dlv_anc s W _ _ _ He Ha) as (p' & b' & Hd' & Hh & ?).
  destruct (dlv_ptr s W _ _ _ _ Hd Hd' ltac:(done)) as [-> ->].
  pose proof (i_exec_lock _ _ _ _ _ _ I eb lb He Hl). lia.
Qed.
End Pure.

(** ** Elementary computations *)

Lemma wp_deref p b (Q : Block -> HotStuffCore -> Prop) X s :
  hp s !! p = Some b -> Q b s -> wp (deref p) Q X s.
Proof. intros Hb HQ. unfold deref. wp_steps; by simplify_eq. Qed.

Lemma wp_index0 {A} (l : list A) a (Q : A -> HotStuffCore -> Prop) X s :
  head l = Some a -> Q a s -> wp (index0 l) Q X s.
Proof. intros Hl HQ. unfold index0. rewrite Hl. by apply wp_ret. Qed.

(** update_hqc keeps the invariant when the QC really is for the block. *)
Lemma update_hqc_spec r hs s p b hq : inv r hs s -> dlv s p b ->
  cert hs (hash b) -> qc_obj_hash hq = hash b ->
  wp (update_hqc p (Some hq))
    (fun _ s' => inv r hs s' /\ quiet s s' /\ b_lock s' = b_lock s /\
       b_exec s' = b_exec s /\ hp s' = hp s /\ tails s' = tails s /\
       forall p' hq' b', hqc s' = Some (p', hq') -> dlv s' p' b' -> height b <= height b')
    (fun _ _ => False) s.
Proof.
  intros I Hd Hc Hq. unfold update_hqc.
  destruct (inv_dlv_hqc r hs s I) as (p0 & hq0 & hb & Hh & Hdh).
  apply wp_bind, wp_get. apply wp_bind. eapply wp_deref; [apply Hd|].
  rewrite Hh. apply wp_bind, wp_ret. simpl. apply wp_bind.
  eapply wp_deref; [apply Hdh|]. wp_step.
  - cbn. split; [|split; [|split; [|split; [|split; [|split]]]]]; try done.
    + apply inv_emit; [|done]. eapply inv_set_hqc; try done.
      intros p' hq' b' Hs Hd'. simplify_eq.
      rewrite (dlv_unique s _ _ _ Hd' Hdh). lia.
    + intros p' hq' b' [= <- <-] Hd'. by rewrite (dlv_unique s p _ _ Hd' Hd).
  - apply wp_ret. split; [done|]. split; [done|]. do 4 (split; [done|]).
    intros p' hq' b' Hs Hd'. simplify_eq. rewrite (dlv_unique s _ _ _ Hd' Hdh). lia.
Qed.

(** ** Committing *)

(** commit_walk collects exactly the ancestors above b_exec and stops at
    the first one that is not higher; the fuel it is given suffices. *)
Lemma commit_walk_spec r hs s eb : inv r hs s -> dlv s (b_exec s) eb ->
  forall fuel p b queue, dlv s p b -> (Z.to_nat (height b) < fuel)%nat ->
  wp (commit_walk fuel p queue)
    (fun res s' => s' = s /\ exists path d, res.1 = path ++ queue /\ dlv s res.2 d /\
       height d <= height eb /\ ancH (hash d) (hash b) /\
       (forall x, x ∈ path -> exists bx, dlv s x bx /\ ancH (hash bx) (hash b) /\
          height eb < height bx) /\
       (forall x bx, dlv s x bx -> ancH (hash bx) (hash b) ->
          x ∈ path \/ ancH (hash bx) (hash d)))
    (fun _ _ => False) s.
Proof.
  intros I He. pose proof (i_wf _ _ _ _ _ _ I) as W.
  induction fuel as [|fuel IH]; intros p b queue Hd Hf; [lia|]. simpl.
  apply wp_bind, wp_get. apply wp_bind. eapply wp_deref; [apply Hd|].
  apply wp_bind. eapply wp_deref; [apply He|]. wp_step.
  - apply Z.ltb_lt in Heqb0. pose proof (dlv_height_nonneg s W _ _ He).
    destruct (decide (p = b0 s)) as [->|Hp].
    { destruct (dlv_b0 s W b) as (_ & ? & _); [apply Hd|]. lia. }
    destruct (dlv_par s W p b Hd Hp) as (p0 & c0 & Hhd & Hd0 & Hpar & Hh & ?).
    apply wp_bind. eapply wp_index0; [done|].
    eapply wp_mono; [apply (IH p0 c0 (p :: queue) Hd0); lia| |done].
    intros [res e] s' (-> & path & d & -> & Hde & Hle & Hanc & Hin & Hcov).
    split; [done|]. exists (path ++ [p]), d. simpl in *.
    rewrite <- (assoc_L (++)). split; [done|]. split; [done|]. split; [done|].
    split; [by eapply rtc_r|]. split.
    + intros x Hx. apply elem_of_app in Hx as [Hx|Hx]; [|apply list_elem_of_singleton in Hx].
      * destruct (Hin x Hx) as (bx & ? & ? & ?). exists bx. split; [done|].
        split; [by eapply rtc_r|done].
      * subst. exists b. split; [done|]. split; [apply rtc_refl|done].
    + intros x bx Hdx Hax. apply rtc_inv_r in Hax as [Heq|(y & Hy & Hyb)].
      * left. apply elem_of_app. right. apply list_elem_of_singleton.
        by destruct (dlv_ptr s W _ _ _ _ Hdx Hd Heq) as [-> _].
      * rewrite Hpar in Hyb. simplify_eq. destruct (Hcov x bx Hdx Hy) as [?|?]; [|by right].
        left. apply elem_of_app. by left.
  - apply Z.ltb_ge in Heqb0. apply wp_ret. split; [done|].
    exists [], b. simpl. split; [done|]. split; [done|]. split; [done|].
    split; [apply rtc_refl|]. split; [by intros x ?%elem_of_nil|]. by right.
Qed.

(** The effect of commit_blocks on the blocks and on the trace. *)
Record marked (queue : list nat) (s s' : HotStuffCore) : Prop := {
  mk_quiet : quiet s s';
  mk_hqc : hqc s = hqc s';
  mk_lock : b_lock s = b_lock s';
  mk_exec : b_exec s = b_exec s';
  mk_tails : tails s = tails s';
  mk_block : forall p b', hp s' !! p = Some b' -> exists b, hp s !! p = Some b /\
    tree_of b = tree_of b' /\ voted b = voted b' /\ self_qc b = self_qc b' /\
    decision b' = (if decide (p ∈ queue) then 1 else decision b);
  mk_trace : forall f, EvDecide f ∈ trace s' -> EvDecide f ∈ trace s \/
    exists p b i, p ∈ queue /\ hp s !! p = Some b /\ fin_blk_hash f = hash b /\
      cmd_height f = height b /\ cmd_idx f = u32 (Z.of_nat i) /\
      cmds (content b) !! i = Some (cmd_hash f);
}.

Lemma decide_cmds_spec blk s : forall cs n, (forall i, cs !! i = cmds (content blk) !! (n + i)%nat) ->
  wp (decide_cmds blk (Z.of_nat n) cs)
    (fun _ s' => exists evs, s' = set_trace (evs ++ trace s) s /\
       forall e, e ∈ evs -> exists f i, e = EvDecide f /\ fin_blk_hash f = hash blk /\
         cmd_height f = height blk /\ cmd_idx f = u32 (Z.of_nat i) /\
         cmds (content blk) !! i = Some (cmd_hash f))
    (fun _ _ => False) s.
Proof.
  intros cs. revert s. induction cs as [|c cs IH]; intros s n Hcs; simpl.
  - apply wp_ret. exists []. split; [by destruct s|]. by intros e ?%elem_of_nil.
  - apply wp_bind, wp_get. apply wp_bind, wp_modify.
    replace (Z.of_nat n + 1) with (Z.of_nat (S n)) by lia.
    eapply wp_mono; [apply IH| |done].
    + intros i. pose proof (Hcs (S i)) as Hi. simpl in Hi. rewrite Hi. f_equal. lia.
    + intros _ s' (evs & -> & Hev). simpl. eexists (evs ++ [_]). split.
      { rewrite <- (assoc_L (++)). done. }
      intros e He. apply elem_of_app in He as [He|He]; [by apply Hev|].
      apply list_elem_of_singleton in He. subst e.
      eexists _, n. split; [done|]. simpl. do 3 (split; [done|]).
      pose proof (Hcs 0%nat) as Hi. rewrite Nat.add_0_r in Hi. by rewrite <- Hi.
Qed.

Lemma signed_decides evs l : (forall e, e ∈ evs -> exists f, e = EvDecide f) ->
  omap (fun e => match e with EvSign h => Some h | _ => None end) (evs ++ l) =
  omap (fun e => match e with EvSign h => Some h | _ => None end) l.
Proof.
  intros Hev. rewrite omap_app. induction evs as [|e evs IH]; [done|].
  destruct (Hev e) as [f ->]; [by left|]. simpl. apply IH. intros. apply Hev. by right.
Qed.

Lemma commit_blocks_spec queue : forall s, (forall p, p ∈ queue -> is_Some (hp s !! p)) ->
  wp (commit_blocks queue) (fun _ s' => marked queue s s') (fun _ _ => False) s.
Proof.
  induction queue as [|p queue IH]; intros s Hq; simpl.
  - apply wp_ret. split; try done; [|by left]. intros p b' Hb'. exists b'. by rewrite decide_False by set_solver.
  - destruct (Hq p) as [b Hb]; [by left|].
    apply wp_bind, wp_modify. apply wp_bind, wp_modify. apply wp_bind.
    eapply wp_deref with (b := set_decision 1 b).
    { simpl. by rewrite list_lookup_alter_eq, Hb. }
    apply wp_bind. eapply wp_mono; [apply (decide_cmds_spec _ _ _ 0); done| |done].
    intros _ s1 (evs & -> & Hev). simpl.
    match goal with |- wp _ _ _ ?st => set (s1 := st) end.
    eapply wp_mono; [apply IH| |done].
    { intros x Hx. simpl. rewrite list_lookup_alter.
      destruct (Hq x) as [bx Hbx]; [by right|]. case_decide; subst; rewrite ?Hbx; eauto. }
    intros _ s2 [Hqt ? ? ? ? Hblk Htr]. split; try done.
    + etrans; [|exact Hqt]. split; try done.
      * pose proof (same_tree_alter s p (set_decision 1) ltac:(by intros [])) as []. by split.
      * unfold signed, s1. simpl. rewrite signed_decides; [done|].
        intros e He. destruct (Hev e He) as (f & ? & -> & _). eauto.
    + intros x b' Hb'. destruct (Hblk x b' Hb') as (b1 & Hb1 & Ht & Hv & Hs & Hdec).
      simpl in Hb1. rewrite list_lookup_alter in Hb1. destruct (decide (p = x)) as [->|Hxp].
      * exists b. rewrite Hb in Hb1. injection Hb1 as <-. split; [done|]. split; [exact Ht|].
        split; [exact Hv|]. split; [exact Hs|]. rewrite (decide_True (P := x ∈ x :: queue)) by set_solver.
        rewrite Hdec. by case_decide.
      * exists b1. split; [done|]. split; [done|]. split; [done|]. split; [done|].
        rewrite Hdec. destruct (decide (x ∈ queue)), (decide (x ∈ p :: queue)); set_solver.
    + intros f Hf. destruct (Htr f Hf) as [Hin|(x & bx & i & Hx & Hbx & ?)].
      * unfold s1 in Hin. simpl in Hin. apply elem_of_app in Hin as [Hin|Hin].
        -- destruct (Hev _ Hin) as (f' & i & [= <-] & ?). right.
           exists p, b, i. split; [by left|]. split; done.
        -- apply elem_of_cons in Hin as [?|?]; [done|by left].
      * right. simpl in Hbx. rewrite list_lookup_alter in Hbx.
        destruct (decide (p = x)) as [->|].
        -- rewrite Hb in Hbx. injection Hbx as <-. exists x, b, i. split; [by right|]. done.
        -- exists x, bx, i. split; [by right|]. done.
Qed.

(** The state after a successful commit satisfies the invariant again. *)
Lemma inv_committed r hs s s' p b eb path h1 h2 : inv r hs s -> marked path s s' ->
  dlv s p b -> dlv s (b_exec s) eb -> ancH (hash eb) (hash b) ->
  tchain hs (hash b) h1 h2 ->
  (forall lb, dlv s (b_lock s) lb -> height b <= height lb) ->
  (forall x, x ∈ path -> exists bx, dlv s x bx /\ ancH (hash bx) (hash b) /\
     height eb < height bx) ->
  (forall x bx, dlv s x bx -> ancH (hash bx) (hash b) ->
     x ∈ path \/ ancH (hash bx) (hash eb)) ->
  inv r hs (set_b_exec p s').
Proof.
  intros I [Hqt Hhqc Hlk Hex _ Hblk Htr] Hd He Hanc Htc Hle Hin Hcov.
  pose proof (i_wf _ _ _ _ _ _ I) as W. destruct Hqt as [Hst Hvh _ _].
  assert (same_tree s (set_b_exec p s')) as Hst' by (destruct Hst; by split).
  assert (forall x bx, dlv (set_b_exec p s') x bx -> exists bx0, dlv s x bx0 /\ tree_of bx0 = tree_of bx)
    as Hback by (intros; by eapply same_tree_dlv).
  assert (forall x bx, dlv s x bx -> exists bx0, dlv (set_b_exec p s') x bx0 /\ tree_of bx0 = tree_of bx)
    as Hforw by (intros; eapply same_tree_dlv; [by symmetry|done]).
  assert (forall b1 b2, tree_of b1 = tree_of b2 -> hash b1 = hash b2 /\ height b1 = height b2 /\
    content b1 = content b2 /\ delivered b1 = delivered b2) as Ht
    by (unfold tree_of; intros; split_and!; congruence).
  pose proof I as I0. destruct I. split; simpl.
  - by eapply wf_same_tree.
  - by rewrite <- (st_id _ _ Hst).
  - by rewrite <- (st_config _ _ Hst).
  - intros x bx j (bx0 & Hd0 & (Hh & _)%Ht)%Hback Hj. rewrite <- Hh in Hj. eauto.
  - destruct i_lock as (lb & (lb' & ? & (Hh & _)%Ht)%Hforw & ?).
    exists lb'. rewrite <- Hlk, Hh. done.
  - destruct i_hqc as (x & hq & hb & ? & (hb' & ? & (Hh & _)%Ht)%Hforw & ? & ?).
    exists x, hq, hb'. rewrite <- Hhqc, Hh. done.
  - rewrite <- Hlk, <- (st_b0 _ _ Hst), <- Hhqc. destruct i_lock_hqc as [?|Hlt]; [by left|right].
    intros x hq hb lb Hs (hb' & ? & (_ & <- & _)%Ht)%Hback (lb' & ? & (_ & <- & _)%Ht)%Hback. eauto.
  - intros x Hx. destruct (i_votes x Hx) as (y & bb & (bb' & ? & (Hh & Hhh & _)%Ht)%Hforw & <- & ?).
    exists y, bb'. rewrite <- Hvh, Hhh. done.
  - rewrite <- Hlk. intros x j1 j2 lb m ? ? ? ? (lb' & ? & (_ & <- & _)%Ht)%Hback. eauto.
  - rewrite <- (st_b0 _ _ Hst). intros x bx v Hx Hne Hv.
    destruct (Hblk x bx Hx) as (bx0 & Hx0 & (Hh & _)%Ht & Hvo & _). rewrite <- Hvo in Hv.
    rewrite <- Hh. eauto.
  - rewrite <- (st_b0 _ _ Hst). intros bx Hx.
    destruct (Hblk _ bx Hx) as (bx0 & Hx0 & _ & <- & _). eauto.
  - intros x bx c Hx Hc. destruct (Hblk x bx Hx) as (bx0 & Hx0 & (Hh & _)%Ht & _ & Hs & _).
    rewrite <- Hh. rewrite <- Hs in Hc. eauto.
  - destruct (Hforw _ _ Hd) as (b' & ? & _). eauto.
  - rewrite <- Hlk. intros b1 lb (b1' & Hb1 & (_ & <- & _)%Ht)%Hback (lb' & ? & (_ & <- & _)%Ht)%Hback.
    rewrite (dlv_unique s _ _ _ Hb1 Hd). eauto.
  - intros b1 (b1' & Hb1 & (<- & _)%Ht)%Hback. right. exists h1, h2.
    by rewrite (dlv_unique s _ _ _ Hb1 Hd).
  - intros x bx b1 Hx (b1' & Hb1 & (<- & _)%Ht)%Hback.
    rewrite (dlv_unique s _ _ _ Hb1 Hd). clear b1' Hb1.
    destruct (Hblk x bx Hx) as (bx0 & Hx0 & (Hh & _ & _ & Hdl)%Ht & _ & _ & ->).
    rewrite <- Hh, <- Hdl. destruct (decide (x ∈ path)) as [Hp|Hp].
    + split; [|done]. destruct (Hin x Hp) as (by0 & [Hy ?] & ? & _). intros _.
      assert (by0 = bx0) as -> by congruence. done.
    + rewrite (i_dec x bx0 eb Hx0 He). split; intros [? Ha]; (split; [done|]).
      * by etrans.
      * destruct (Hcov x bx0 ltac:(done) Ha); [done|done].
  - intros f Hf. apply Htr in Hf as [Hf|(x & bx & i & Hx & Hbx & Hf)].
    + destruct (i_trace f Hf) as (x & bx & i & Hdx & Hdec & Hf1 & Hf2 & Hf3 & Hf4).
      destruct (Hforw _ _ Hdx) as (bx' & Hdx' & (Hh & Hhh & Hc & _)%Ht).
      exists x, bx', i. split; [done|]. rewrite Hh, Hhh, Hc. split; [|done].
      destruct (Hblk x bx' (proj1 Hdx')) as (by0 & Hy & _ & _ & _ & ->).
      destruct Hdx as [Hdx _]. assert (by0 = bx) as -> by congruence. by case_decide.
    + destruct (Hin x Hx) as (by0 & Hdy & _). destruct (Hforw _ _ Hdy) as (bx' & Hdx' & (Hh & Hhh & Hc & _)%Ht).
      assert (by0 = bx) as -> by (destruct Hdy; congruence).
      exists x, bx', i. split; [done|]. rewrite Hh, Hhh, Hc. split; [|done].
      destruct (Hblk x bx' (proj1 Hdx')) as (by0 & Hy & _ & _ & _ & ->).
      by rewrite decide_True.
Qed.

Lemma commit_spec r hs s p b eb h1 h2 : inv r hs s -> dlv s p b -> decision b = 0 ->
  dlv s (b_exec s) eb -> tchain hs (hash b) h1 h2 ->
  (forall lb, dlv s (b_lock s) lb -> height b <= height lb) ->
  wp (commit p)
    (fun _ s' => inv r hs s' /\ quiet s s' /\ b_lock s' = b_lock s /\ hqc s' = hqc s /\
       tails s' = tails s)
    (fun e s' => e = ESafetyBreached /\ s' = s /\
       ~ ancH (hash eb) (hash b) /\ ~ ancH (hash b) (hash eb)) s.
Proof.
  intros I Hd Hdec He Htc Hle. pose proof (i_wf _ _ _ _ _ _ I) as W. unfold commit.
  apply wp_bind. eapply wp_deref; [apply Hd|]. apply wp_bind.
  eapply wp_mono; [eapply (commit_walk_spec r hs s eb I He); [done|lia]| |done].
  intros [queue e] s' (-> & path & d & -> & Hde & Hhd & Had & Hin & Hcov). simpl in *.
  rewrite app_nil_r. apply wp_bind, wp_get. case_decide as Heq.
  - rewrite Heq in Hde. pose proof (dlv_unique s _ _ _ Hde He) as ->. apply wp_bind.
    eapply wp_mono; [apply commit_blocks_spec| |done].
    { intros x Hx. destruct (Hin x Hx) as (bx & [? _] & _). eauto. }
    intros ? s' Hm. cbn in Hm. apply wp_modify. split; [by apply (inv_committed r hs s s' p b eb path h1 h2)|].
    destruct Hm. split; [|simpl; by rewrite mk_hqc0, mk_lock0, mk_tails0].
    etrans; [done|]. apply quiet_set_b_exec.
  - apply wp_throw. split; [done|]. split; [done|]. split.
    + intros Ha. destruct (Hcov _ _ He Ha) as [Hp|Hp].
      * destruct (Hin _ Hp) as (bx & Hbx & _ & Hlt).
        rewrite (dlv_unique s _ _ _ Hbx He) in Hlt. lia.
      * destruct (anc_hgt _ _ parH_genesis _ _ _ Hp (dlv_hgt s W _ _ Hde)) as (m & Hm & ?).
        pose proof (hgt_fun _ _ parH_genesis _ _ _ Hm (dlv_hgt s W _ _ He)).
        assert (height eb = height d) as Hh by lia.
        assert (hash eb = hash d) as Hx.
        { eapply (anc_same_hgt _ _ parH_genesis); [done| |by eapply dlv_hgt].
          rewrite <- Hh. by eapply dlv_hgt. }
        destruct (dlv_ptr s W _ _ _ _ He Hde Hx) as [Hp' _]. congruence.
    + intros Ha. assert (decision b <> 0); [|done].
      apply (i_dec _ _ _ _ _ _ I p b eb (proj1 Hd) He). split; [apply Hd|done].
Qed.

(** ** update *)

(** The lock is at least as high as the block two QCs below [b]. *)
Definition lock_covers (s : HotStuffCore) (b : Block) : Prop :=
  forall j1 j2 lb m, jstH (hash b) = Some j1 -> jstH j1 = Some j2 -> hgtH j2 m ->
    dlv s (b_lock s) lb -> m <= height lb.

(** [update] raised "safety breached": the QC chain above [nb] commits a
    block on another branch than b_exec. *)
Definition breach (hs : hist) (s : HotStuffCore) : Prop :=
  exists eb h0 h1 h2, dlv s (b_exec s) eb /\ tchain hs h0 h1 h2 /\
    (exists n, hgtH h0 n) /\ ~ ancH (hash eb) h0 /\ ~ ancH h0 (hash eb).

Definition hqc_above (s : HotStuffCore) (h : Z) : Prop :=
  forall p hq b, hqc s = Some (p, hq) -> dlv s p b -> h <= height b.

(** The lock is the old one or lies below the block's QC. *)
Definition lock_below (s s' : HotStuffCore) (b : Block) : Prop :=
  b_lock s' = b_lock s \/ forall lb r rb, qc_ref b = Some r -> dlv s r rb ->
    dlv s' (b_lock s') lb -> height lb < height rb.

Lemma update_spec r hs s p b : inv r hs s -> dlv s p b ->
  wp (update p)
    (fun _ s' => inv r hs s' /\ quiet s s' /\ lock_covers s' b /\ lock_below s s' b)
    (fun e s' => e = ESafetyBreached /\ inv r hs s' /\ quiet s s' /\ breach hs s') s.
Proof.
  intros I Hd. unfold update. pose proof (i_wf _ _ _ _ _ _ I) as W.
  apply wp_bind. eapply wp_deref; [apply Hd|].
  destruct (dlv_just s W p b Hd) as (p2 & b2 & Hr2 & Hd2 & Hj2 & _ & (q2 & Hq2 & Hqo2) & Hlt2).
  destruct (dlv_just s W p2 b2 Hd2) as (p1 & b1 & Hr1 & Hd1 & Hj1 & _ & (q1 & Hq1 & Hqo1) & Hlt1).
  destruct (dlv_just s W p1 b1 Hd1) as (p0 & bb & Hr0 & Hd0 & Hj0 & Ha0 & _ & Hlt0).
  pose proof (i_cert _ _ _ _ _ _ I _ _ _ Hd Hj2) as Hc2.
  pose proof (i_cert _ _ _ _ _ _ I _ _ _ Hd2 Hj1) as Hc1.
  pose proof (i_cert _ _ _ _ _ _ I _ _ _ Hd1 Hj0) as Hc0.
  (* whatever the exit, the lock must reach b1 *)
  assert (forall s', same_tree s s' -> (forall lb, dlv s' (b_lock s') lb -> height b1 <= height lb) ->
    lock_covers s' b) as Hcover.
  { intros s' Hst Hle j1 j2 lb m E1 E2 Hm Hl. rewrite Hj2 in E1. injection E1 as <-.
    rewrite Hj1 in E2. injection E2 as <-.
    rewrite (hgt_fun _ _ parH_genesis _ _ _ Hm (dlv_hgt s W _ _ Hd1)). auto. }
  rewrite Hr2. apply wp_bind. eapply wp_deref; [apply Hd2|]. wp_step; cycle 1.
  { (* blk2 already decided *)
    apply Z.eqb_neq in Heqb0. apply wp_ret. split; [done|]. split; [done|]. split; [|by left].
    apply Hcover; [done|]. intros lb Hl.
    assert (height b1 <= height b2).
    { destruct Hlt1 as [->|]; [|lia]. destruct (dlv_b0 s W b1) as (_ & -> & _); [apply Hd1|].
      by eapply dlv_height_nonneg. }
    pose proof (inv_decided_lock r hs s I p2 b2 lb Hd2 Heqb0 Hl). lia. }
  apply Z.eqb_eq in Heqb0. pose proof (inv_undecided r hs s I p2 b2 Hd2 Heqb0) as Hne2.
  rewrite Hq2. apply wp_bind.
  eapply wp_mono; [eapply (update_hqc_spec r hs s p2 b2 q2 I); done| |done].
  intros _ s1 (I1 & Hqt1 & Hlk1 & Hex1 & Hhp1 & Htl1 & Hab1).
  assert (forall x bx, dlv s x bx -> dlv s1 x bx) as H01 by (intros x bx [? ?]; split; [by rewrite Hhp1|done]).
  rewrite Hr1. apply wp_bind. eapply wp_deref; [rewrite Hhp1; apply Hd1|]. wp_step; cycle 1.
  { (* blk1 already decided *)
    apply Z.eqb_neq in Heqb1. apply wp_ret. split; [done|]. split; [done|]. split; [|by left].
    apply Hcover; [apply Hqt1|]. intros lb Hl.
    by apply (inv_decided_lock r hs s1 I1 p1 b1 lb); [apply H01|..]. }
  apply Z.eqb_eq in Heqb1.
  destruct (inv_dlv_lock r hs s1 I1) as [lb Hl].
  apply wp_bind, wp_get. apply wp_bind. eapply wp_deref; [apply Hl|]. apply wp_bind.
  assert (height b1 < height b2) as Hlt12.
  { destruct Hlt1 as [->|]; [|lia]. destruct (inv_undecided r hs s I _ _ Hd1 Heqb1). done. }
  assert (wp (mwhen (height lb <? height b1) (modify (set_b_lock p1)))
    (fun _ s2 => inv r hs s2 /\ quiet s1 s2 /\ hp s2 = hp s1 /\ b_exec s2 = b_exec s1 /\
       (b_lock s2 = b_lock s1 \/ b_lock s2 = p1) /\
       forall lb, dlv s2 (b_lock s2) lb -> height b1 <= height lb)
    (fun (_ : Error) _ => False) s1) as Hlock.
  { unfold mwhen. destruct (height lb <? height b1) eqn:Hcmp.
    - apply Z.ltb_lt in Hcmp. apply wp_modify. split; [|split; [done|]].
      + apply (inv_set_b_lock r hs s1 I1 p1 b1); [by apply H01|done|..].
        * intros lb' Hl'. by rewrite (dlv_unique s1 _ _ _ Hl' Hl).
        * intros x hx bx Hx Hbx. specialize (Hab1 _ _ _ Hx Hbx). lia.
      + do 2 (split; [done|]). split; [by right|]. intros lb' Hl'. simpl in Hl'.
        rewrite (dlv_unique s1 _ _ _ Hl' (H01 _ _ Hd1)). lia.
    - apply Z.ltb_ge in Hcmp. apply wp_ret. do 4 (split; [done|]). split; [by left|].
      intros lb' Hl'. rewrite (dlv_unique s1 _ _ _ Hl' Hl). lia. }
  eapply wp_mono; [exact Hlock| |done]. clear Hlock.
  intros _ s2 (I2 & Hqt2 & Hhp2 & Hex2 & Hlk2 & Hle2).
  assert (forall x bx, dlv s x bx -> dlv s2 x bx) as H02
    by (intros x bx [? ?]; split; [by rewrite Hhp2, Hhp1|done]).
  assert (quiet s s2) as Hqt by (by etrans).
  assert (inv r hs s2 /\ quiet s s2 /\ lock_covers s2 b /\ lock_below s s2 b) as Hdone.
  { split; [done|]. split; [done|]. split; [apply Hcover; [apply Hqt|done]|].
    destruct Hlk2 as [Hlk2|Hlk2]; [left; congruence|right].
    intros lb' r' rb Hr' Hrb Hl'. rewrite Hr2 in Hr'. injection Hr' as <-.
    rewrite (dlv_unique s _ _ _ Hrb Hd2). rewrite Hlk2 in Hl'.
    by rewrite (dlv_unique s2 _ _ _ Hl' (H02 _ _ Hd1)). }
  rewrite Hr0. apply wp_bind. eapply wp_deref; [apply H02, Hd0|]. wp_step; [|by apply wp_ret].
  apply Z.eqb_eq in Heqb2.
  assert (p1 <> b0 s) as Hne1 by (eapply inv_undecided; done).
  destruct (dlv_par s W p2 b2 Hd2 Hne2) as (x2 & c2 & Hx2 & Hdx2 & Hp2 & Hh2 & _).
  destruct (dlv_par s W p1 b1 Hd1 Hne1) as (x1 & c1 & Hx1 & Hdx1 & Hp1 & Hh1 & _).
  apply wp_bind. eapply wp_index0; [done|]. case_decide as Hx; [|by apply wp_ret]. subst x2.
  apply wp_bind. eapply wp_index0; [done|]. case_decide as Hx; [|by apply wp_ret]. subst x1.
  pose proof (dlv_unique s _ _ _ Hdx2 Hd1) as ->. pose proof (dlv_unique s _ _ _ Hdx1 Hd0) as ->.
  assert (tchain hs (hash bb) (hash b1) (hash b2)) as Htc by (by split).
  destruct (i_exec _ _ _ _ _ _ I2) as [eb He].
  eapply wp_mono; [eapply (commit_spec r hs s2 p0 bb eb); eauto|..].
  - intros lb' Hl'. specialize (Hle2 lb' Hl'). lia.
  - intros _ s3 (I3 & Hqt3 & Hlk3 & _ & Htl3). split; [done|]. split; [by etrans|].
    destruct Hdone as (_ & _ & Hcov & Hbel).
    assert (forall lb3, dlv s3 (b_lock s3) lb3 -> exists lb2, dlv s2 (b_lock s2) lb2 /\
      height lb2 = height lb3) as Hlb.
    { intros lb3 Hl3. rewrite Hlk3 in Hl3.
      destruct (same_tree_dlv _ _ _ _ (qt_tree _ _ Hqt3) Hl3) as (lb2 & Hl2 & Ht).
      exists lb2. unfold tree_of in Ht. split; [done|congruence]. }
    split.
    + intros j1 j2 lb3 m E1 E2 Hm (lb2 & Hl2 & <-)%Hlb. eauto.
    + destruct Hbel as [Hbel|Hbel]; [left; congruence|right].
      intros lb3 r' rb ? ? (lb2 & Hl2 & <-)%Hlb. eauto.
  - intros e s3 (-> & -> & Hn1 & Hn2). split; [done|]. split; [done|]. split; [done|].
    exists eb, (hash bb), (hash b1), (hash b2). do 2 (split; [done|]). split; [|done].
    eexists. by eapply dlv_hgt.
Qed.
End Steps.
