(* ===== verification/CoreGrow.v ===== *)
(** * Invariants under growth of the block tree

    The operations that add a block, deliver one, or record votes and
    certificates on one only extend the tree; [inv_grow] is the common
    argument that the safety invariant survives, and the lemmas after it are
    its instances for single-block updates and for casting a vote. *)

From S2P Require Import Prelude Certs Entity Core Agreement CoreInv CoreSteps.

Section Grow.
Context `{BlockHash} `{!CommandType} `{!CertSchemeLaws} `{!CollisionFree}.
Variables (nodes byz : gset Z) (q : nat).
Abbreviation hist := (history (B := uint256)).
Abbreviation ancH := (anc parH).
Abbreviation hgtH := (hgt genesis_hash parH).
Abbreviation cert := (certified genesis_hash nodes byz q).
Abbreviation tchain := (three_chain genesis_hash parH jstH nodes byz q).
Abbreviation inv := (inv nodes byz q).

(** A vote on [h] that may be recorded. *)
Definition good_voter (hs : hist) (h : uint256) (v : Z) : Prop :=
  v ∈ nodes /\ (v ∉ byz -> voted_for hs v h).

Record blk_grows (hs : hist) (b b' : Block) : Prop := {
  bg_content : content b' = content b;
  bg_hash : hash b' = hash b;
  bg_decision : decision b' = decision b;
  bg_tree : delivered b = true -> tree_of b' = tree_of b;
  bg_voted : forall v, v ∈ voted b' -> v ∈ voted b \/ good_voter hs (hash b) v;
  bg_voted_sub : voted b ⊆ voted b';
  bg_self_qc : forall c, self_qc b' = Some c ->
    self_qc b = Some c \/ qc_obj_hash c = hash b;
}.

Record grows (hs : hist) (s s' : HotStuffCore) : Prop := {
  gr_b0 : b0 s' = b0 s;
  gr_hqc : hqc s' = hqc s;
  gr_lock : b_lock s' = b_lock s;
  gr_exec : b_exec s' = b_exec s;
  gr_vheight : vheight s' = vheight s;
  gr_config : config s' = config s;
  gr_id : id s' = id s;
  gr_key : priv_key s' = priv_key s;
  gr_disabled : vote_disabled s' = vote_disabled s;
  gr_trace : trace s' = trace s;
  gr_old : forall p b, hp s !! p = Some b ->
    exists b', hp s' !! p = Some b' /\ blk_grows hs b b';
  gr_new : forall p b', hp s' !! p = Some b' -> hp s !! p = None ->
    decision b' = 0 /\ delivered b' = false /\ voted b' = ∅ /\ self_qc b' = None;
  gr_deliver : forall p b', dlv s' p b' -> (exists b, dlv s p b) \/
    forall j, jstH (hash b') = Some j -> cert hs j;
}.

Lemma blk_grows_refl hs b : blk_grows hs b b.
Proof. split; auto. Qed.

Section GrowFacts.
Context (r : ReplicaID) (hs : hist) (s s' : HotStuffCore).
Context (I : inv r hs s) (G : grows hs s s').

Lemma grows_dlv p b : dlv s p b -> exists b', dlv s' p b' /\ tree_of b' = tree_of b.
Proof.
  intros [Hb Hd]. destruct (gr_old _ _ _ G p b Hb) as (b' & Hb' & Hg).
  pose proof (bg_tree _ _ _ Hg Hd) as Ht. exists b'. split; [|done].
  split; [done|]. unfold tree_of in Ht. congruence.
Qed.

(** Backwards for a block that was already delivered. *)
Lemma grows_dlv_old p b b' : dlv s p b -> dlv s' p b' -> tree_of b' = tree_of b.
Proof.
  intros (b1 & [Hb1 _] & <-)%grows_dlv [Hb' _]. congruence.
Qed.

Lemma grows_lookup p b' : hp s' !! p = Some b' ->
  (exists b, hp s !! p = Some b /\ blk_grows hs b b') \/
  (hp s !! p = None /\ decision b' = 0 /\ delivered b' = false /\ voted b' = ∅ /\ self_qc b' = None).
Proof.
  intros Hb'. destruct (hp s !! p) as [b|] eqn:Hb.
  - left. destruct (gr_old _ _ _ G p b Hb) as (b1 & ? & ?). exists b. split; [done|congruence].
  - right. split; [done|]. by eapply gr_new.
Qed.

Lemma tree_of_inj b1 b2 : tree_of b1 = tree_of b2 ->
  hash b1 = hash b2 /\ height b1 = height b2 /\ content b1 = content b2 /\
  delivered b1 = delivered b2 /\ parents b1 = parents b2 /\ qc_ref b1 = qc_ref b2.
Proof. unfold tree_of. intros. split_and!; congruence. Qed.

Lemma grows_lock_hash lb lb' : dlv s (b_lock s) lb -> dlv s' (b_lock s') lb' ->
  hash lb' = hash lb /\ height lb' = height lb.
Proof.
  intros Hl Hl'. rewrite (gr_lock _ _ _ G) in Hl'.
  by destruct (tree_of_inj _ _ (grows_dlv_old _ _ _ Hl Hl')) as (? & ? & _).
Qed.

Lemma grows_exec_hash eb eb' : dlv s (b_exec s) eb -> dlv s' (b_exec s') eb' ->
  hash eb' = hash eb /\ height eb' = height eb.
Proof.
  intros Hl Hl'. rewrite (gr_exec _ _ _ G) in Hl'.
  by destruct (tree_of_inj _ _ (grows_dlv_old _ _ _ Hl Hl')) as (? & ? & _).
Qed.

Lemma grows_hqc_hash p hq hb hb' : hqc s = Some (p, hq) -> dlv s p hb -> dlv s' p hb' ->
  hash hb' = hash hb /\ height hb' = height hb.
Proof.
  intros _ Hd Hd'. by destruct (tree_of_inj _ _ (grows_dlv_old _ _ _ Hd Hd')) as (? & ? & _).
Qed.

Lemma grows_cert p b' j : dlv s' p b' -> jstH (hash b') = Some j -> cert hs j.
Proof.
  intros Hd' Hj. destruct (gr_deliver _ _ _ G p b' Hd') as [(b & Hd)|]; [|auto].
  destruct (tree_of_inj _ _ (grows_dlv_old _ _ _ Hd Hd')) as (Hh & _).
  eapply (i_cert _ _ _ _ _ _ I); [exact Hd|]. by rewrite <- Hh.
Qed.

Lemma grows_dec p b' eb' : hp s' !! p = Some b' -> dlv s' (b_exec s') eb' ->
  (decision b' <> 0 <-> delivered b' = true /\ ancH (hash b') (hash eb')).
Proof.
  intros Hb' He'. pose proof (i_wf _ _ _ _ _ _ I) as W.
  destruct (i_exec _ _ _ _ _ _ I) as [eb He].
  destruct (grows_exec_hash _ _ He He') as [-> _].
  destruct (grows_lookup p b' Hb') as [(b & Hb & Hg)|(Hn & Hdc & Hdl & _)].
  - rewrite (bg_decision _ _ _ Hg), (bg_hash _ _ _ Hg), (i_dec _ _ _ _ _ _ I p b eb Hb He).
    split; intros [Hd Ha]; (split; [|done]).
    + destruct (tree_of_inj _ _ (bg_tree _ _ _ Hg Hd)) as (_ & _ & _ & -> & _). done.
    + destruct (dlv_anc s W _ _ _ He Ha) as (p2 & b2 & [Hb2 ?] & Hh2 & _).
      assert (p2 = p) as -> by (by eapply (wf_inj s W)).
      congruence.
  - rewrite Hdc, Hdl. split; [done|]. by intros [? _].
Qed.

Lemma grows_self_qc p b' c : hp s' !! p = Some b' -> self_qc b' = Some c ->
  qc_obj_hash c = hash b'.
Proof.
  intros Hb' Hc. destruct (grows_lookup p b' Hb') as [(b & Hb & Hg)|(_ & _ & _ & _ & Hs)].
  - rewrite (bg_hash _ _ _ Hg). destruct (bg_self_qc _ _ _ Hg c Hc) as [?|?]; [|done].
    by eapply (i_self_qc _ _ _ _ _ _ I).
  - congruence.
Qed.

Lemma grows_trace f : EvDecide f ∈ trace s' -> exists p b i,
  dlv s' p b /\ decision b <> 0 /\ fin_blk_hash f = hash b /\
  cmd_height f = height b /\ cmd_idx f = u32 (Z.of_nat i) /\
  cmds (content b) !! i = Some (cmd_hash f).
Proof.
  rewrite (gr_trace _ _ _ G). intros Hf.
  destruct (i_trace _ _ _ _ _ _ I f Hf) as (p & b & i & [Hb Hd] & ? & ? & ? & ? & ?).
  destruct (gr_old _ _ _ G p b Hb) as (b' & Hb' & Hg).
  pose proof (bg_tree _ _ _ Hg Hd) as Ht.
  destruct (tree_of_inj _ _ Ht) as (Hh & Hhh & Hc & Hdd & _).
  exists p, b', i. rewrite Hh, Hhh, Hc, (bg_decision _ _ _ Hg).
  split; [|done]. split; [done|congruence].
Qed.

(** The invariant survives growth. *)
Lemma inv_grow : wf s' -> inv r hs s'.
Proof.
  intros W'. pose proof (inv_dlv_lock nodes byz q r hs s I) as [lb Hl].
  destruct (i_exec _ _ _ _ _ _ I) as [eb He].
  destruct (grows_dlv _ _ Hl) as (lb' & Hl' & _). destruct (grows_dlv _ _ He) as (eb' & He' & _).
  split; [done|..].
  - rewrite (gr_id _ _ _ G). apply I.
  - rewrite (gr_config _ _ _ G). apply I.
  - apply grows_cert.
  - exists lb'. rewrite (gr_lock _ _ _ G). split; [done|].
    destruct (grows_lock_hash lb lb' Hl) as [-> _]; [by rewrite (gr_lock _ _ _ G)|].
    destruct (i_lock _ _ _ _ _ _ I) as (lb2 & Hl2 & ?). by rewrite (dlv_unique s _ _ _ Hl Hl2).
  - destruct (i_hqc _ _ _ _ _ _ I) as (p & hq & hb & Hh & Hd & ? & ?).
    destruct (grows_dlv _ _ Hd) as (hb' & Hd' & (Hx & _)%tree_of_inj).
    exists p, hq, hb'. rewrite (gr_hqc _ _ _ G), Hx. done.
  - rewrite (gr_lock _ _ _ G), (gr_b0 _ _ _ G), (gr_hqc _ _ _ G).
    destruct (i_lock_hqc _ _ _ _ _ _ I) as [?|Hlt]; [by left|right].
    intros p hq hb1 lb1 Hs Hd1 Hl1. destruct (inv_dlv_hqc nodes byz q r hs s I) as (p2 & hq2 & hb & Hs2 & Hd2).
    rewrite Hs2 in Hs. injection Hs as -> ->.
    destruct (grows_hqc_hash p hq hb hb1 Hs2 Hd2 Hd1) as [_ ->].
    destruct (grows_lock_hash lb lb1 Hl) as [_ ->]; [by rewrite (gr_lock _ _ _ G)|].
    by eapply Hlt.
  - rewrite (gr_vheight _ _ _ G). intros b Hb. destruct (i_votes _ _ _ _ _ _ I b Hb) as (p & bb & Hd & <- & ?).
    destruct (grows_dlv _ _ Hd) as (bb' & Hd' & (Hx & Hy & _)%tree_of_inj).
    exists p, bb'. rewrite Hx, Hy. done.
  - intros b j1 j2 lb1 m ? ? ? ? Hl1. destruct (grows_lock_hash lb lb1 Hl Hl1) as [_ ->].
    by eapply (i_two_chain _ _ _ _ _ _ I).
  - rewrite (gr_b0 _ _ _ G). intros p b' v Hb' Hp Hv.
    destruct (grows_lookup p b' Hb') as [(b & Hb & Hg)|(_ & _ & _ & Hvo & _)]; [|set_solver].
    rewrite (bg_hash _ _ _ Hg). destruct (bg_voted _ _ _ Hg v Hv) as [?|?]; [|done].
    by eapply (i_voted _ _ _ _ _ _ I).
  - rewrite (gr_b0 _ _ _ G). intros b' Hb'. destruct (wf_b0_dlv s (i_wf _ _ _ _ _ _ I)) as (g & [Hg _] & _).
    destruct (gr_old _ _ _ G _ g Hg) as (b1 & Hb1 & Hgr). assert (b1 = b') as -> by congruence.
    etrans; [by eapply (i_voted_b0 _ _ _ _ _ _ I)|apply Hgr].
  - apply grows_self_qc.
  - rewrite (gr_exec _ _ _ G). eauto.
  - intros eb1 lb1 He1 Hl1. destruct (grows_exec_hash eb eb1 He He1) as [_ ->].
    destruct (grows_lock_hash lb lb1 Hl Hl1) as [_ ->]. by eapply (i_exec_lock _ _ _ _ _ _ I).
  - intros eb1 He1. destruct (grows_exec_hash eb eb1 He He1) as [-> _].
    rewrite (gr_exec _ _ _ G), (gr_b0 _ _ _ G). by eapply (i_exec_chain _ _ _ _ _ _ I).
  - apply grows_dec.
  - apply grows_trace.
Qed.
End GrowFacts.

(** ** Updating one block *)

(** What delivery establishes of a block. *)
Definition linked (s : HotStuffCore) (b : Block) : Prop :=
  exists p0 c0 r rb q,
    head (parents b) = Some p0 /\ dlv s p0 c0 /\
    head (parent_hashes (content b)) = Some (hash c0) /\
    height b = height c0 + 1 /\ 0 <= height c0 /\ height b < 2 ^ 32 /\
    qc (content b) = Some q /\ qc_obj_hash q = hash rb /\
    qc_ref b = Some r /\ dlv s r rb /\ ancH (hash rb) (hash c0).

Definition put (p : ptr) (b : Block) (s : HotStuffCore) : HotStuffCore :=
  set_heap (<[p := b]> (hp s)) s.

Lemma upd_put p b f s : hp s !! p = Some b ->
  set_heap (alter f p (hp s)) s = put p (f b) s.
Proof.
  intros Hb. unfold put. f_equal. apply list_eq. intros i.
  rewrite list_lookup_alter, list_lookup_insert.
  pose proof (lookup_lt_Some _ _ _ Hb). case_decide; subst.
  - by rewrite Hb, decide_True.
  - rewrite decide_False; [done|]. by intros [-> _].
Qed.

Lemma put_put p b b' s : put p b (put p b' s) = put p b s.
Proof. unfold put, set_heap. simpl. f_equal. apply list_insert_insert_eq. Qed.

Lemma put_lookup p b b' s x : hp s !! p = Some b ->
  hp (put p b' s) !! x = if decide (x = p) then Some b' else hp s !! x.
Proof.
  intros Hb. simpl. case_decide; subst.
  - rewrite list_lookup_insert_eq; [done|]. by eapply lookup_lt_Some.
  - by rewrite list_lookup_insert_ne.
Qed.

Lemma put_dlv p b b' s x bx : hp s !! p = Some b -> delivered b = false ->
  dlv s x bx -> dlv (put p b' s) x bx.
Proof.
  intros Hb Hn [Hx Hd]. split; [|done]. rewrite (put_lookup _ b) by done.
  case_decide; [|done]. congruence.
Qed.

Lemma wf_put_undelivered s p b b' : wf s -> hp s !! p = Some b ->
  delivered b = false -> content b' = content b -> hash b' = hash b ->
  (delivered b' = true -> linked s b') -> wf (put p b' s).
Proof.
  intros W Hb Hn Hc Hh Hlk.
  assert (p <> b0 s) as Hne.
  { intros ->. destruct (wf_b0_dlv s W) as (g & [? ?] & _). congruence. }
  assert (forall x, hp (put p b' s) !! x = if decide (x = p) then Some b' else hp s !! x) as Hl
    by (intros; by eapply put_lookup).
  assert (forall x bx, dlv s x bx -> dlv (put p b' s) x bx) as Hd
    by (intros; by eapply put_dlv).
  split.
  - intros h x. change (storage (put p b' s)) with (storage s).
    rewrite (wf_cache s W). setoid_rewrite Hl. case_decide; [subst|done].
    split; intros (bx & Hx & <-); simplify_eq; eauto.
  - intros x bx. rewrite Hl. case_decide; [subst|by apply (wf_hash s W)].
    intros [= <-] _. rewrite Hh, Hc. by eapply wf_hash.
  - destruct (wf_b0 s W) as (g & Hg & Hrest). exists g. split; [|done]. by apply Hd.
  - intros x bx [Hx Hdx] Hxb. rewrite Hl in Hx. case_decide.
    + injection Hx as <-. destruct (Hlk Hdx) as (p0 & c0 & r & rb & qq & Hrest).
      exists p0, c0, r, rb, qq. destruct_and!. split_and?; auto.
    + destruct (wf_dlv s W x bx ltac:(done) Hxb) as (p0 & c0 & r & rb & qq & Hrest).
      exists p0, c0, r, rb, qq. destruct_and!. split_and?; auto.
Qed.

Lemma wf_put_same s p b b' : wf s -> hp s !! p = Some b -> tree_of b' = tree_of b ->
  wf (put p b' s).
Proof.
  intros W Hb Ht. apply (wf_same_tree s); [|done]. split; try done. simpl.
  apply list_eq. intros x. rewrite !list_lookup_fmap.
  pose proof (put_lookup p b b' s x Hb) as Hx. simpl in Hx. rewrite Hx.
  case_decide; [|done]. subst. rewrite Hb. simpl. by rewrite Ht.
Qed.

Lemma grows_put hs s p b b' : hp s !! p = Some b -> blk_grows hs b b' ->
  (delivered b = false -> delivered b' = true ->
     forall j, jstH (hash b) = Some j -> cert hs j) ->
  grows hs s (put p b' s).
Proof.
  intros Hb Hg Hj.
  assert (forall x, hp (put p b' s) !! x = if decide (x = p) then Some b' else hp s !! x) as Hl
    by (intros; by eapply put_lookup).
  split; try done.
  - intros x bx Hx. rewrite Hl. case_decide; [|by eauto using blk_grows_refl].
    subst. exists b'. split; [done|]. congruence.
  - intros x bx. rewrite Hl. case_decide; congruence.
  - intros x bx [Hx Hdx]. rewrite Hl in Hx. case_decide; [|left; by exists bx].
    subst. injection Hx as <-. destruct (delivered b) eqn:Hdb; [left; by exists b|].
    right. rewrite (bg_hash _ _ _ Hg). auto.
Qed.

(** Writing the mutable fields of an undelivered block. *)
Lemma inv_put_undelivered r hs s p b b' : inv r hs s -> hp s !! p = Some b ->
  delivered b = false -> delivered b' = false ->
  content b' = content b -> hash b' = hash b -> decision b' = decision b ->
  voted b' = voted b -> (forall c, self_qc b' = Some c -> self_qc b = Some c \/ qc_obj_hash c = hash b) ->
  inv r hs (put p b' s).
Proof.
  intros I Hb Hn Hn' Hc Hh Hdc Hv Hs. eapply inv_grow; [exact I| |].
  - eapply grows_put; [done| |congruence]. split; try done; [congruence|rewrite Hv; auto|by rewrite Hv].
  - eapply wf_put_undelivered; try done; [apply I|congruence].
Qed.

(** Writing the voters or the certificate of a block. *)
Lemma inv_put_same r hs s p b b' : inv r hs s -> hp s !! p = Some b ->
  tree_of b' = tree_of b -> decision b' = decision b -> voted b ⊆ voted b' ->
  (forall v, v ∈ voted b' -> v ∈ voted b \/ good_voter hs (hash b) v) ->
  (forall c, self_qc b' = Some c -> self_qc b = Some c \/ qc_obj_hash c = hash b) ->
  inv r hs (put p b' s).
Proof.
  intros I Hb Ht Hdc Hv Hv' Hs. destruct (tree_of_inj _ _ Ht) as (Hh & _ & Hc & Hd & _).
  eapply inv_grow; [exact I| |].
  - eapply grows_put; [done| |congruence]. by split.
  - eapply wf_put_same; [apply I|done|done].
Qed.

(** ** Casting a vote *)

Lemma voted_for_cons (hs : hist) v b l r x :
  voted_for (mkVR v b l :: hs) r x -> (r = v /\ x = b) \/ voted_for hs r x.
Proof.
  intros [l' Hl]. apply elem_of_cons in Hl as [[= -> -> ->]|Hl]; [by left|right; by exists l'].
Qed.

(** The replica's own vote for a delivered block at its vheight. *)
Lemma inv_vote r hs s p b lk : inv r hs s -> dlv s p b -> height b <= vheight s ->
  lock_covers s b -> inv r (mkVR r (hash b) lk :: hs) s.
Proof.
  intros I Hd Hv Hlc.
  assert (hs ⊆ mkVR r (hash b) lk :: hs) as Hsub by (intros x; by right).
  pose proof (fun b => certified_mono genesis_hash nodes byz q _ _ b Hsub) as Hm.
  destruct I. split; try done; eauto.
  - destruct i_lock as (lb & ? & ?). eauto.
  - destruct i_hqc as (x & hq & hb & ? & ? & ? & ?). eauto 10.
  - intros x [[_ ->]|Hx]%voted_for_cons; eauto.
  - intros x j1 j2 lb m [[_ ->]|Hx]%voted_for_cons; eauto.
  - intros x bx v Hb Hp Hvo. destruct (i_voted x bx v Hb Hp Hvo) as [? Hvf].
    split; [done|]. intros Hz. destruct (Hvf Hz) as [l Hl]. exists l. by right.
  - intros eb He. destruct (i_exec_chain eb He) as [?|(h1 & h2 & [])]; [by left|].
    right. exists h1, h2. split; auto.
Qed.

(** The rule of Agreement holds of the vote of a replica that satisfies
    its invariant, has not voted at this height, and whose lock the block
    extends or is outranked by the block's QC. *)
Lemma inv_vote_ok r hs s p b lb : inv r hs s -> dlv s p b -> dlv s (b_lock s) lb ->
  (forall b', voted_for hs r b' -> forall n', hgtH b' n' -> n' < height b) ->
  lock_covers s b ->
  (ancH (hash lb) (hash b) \/
   exists j rb, qc_ref b = Some j /\ dlv s j rb /\ height lb < height rb) ->
  vote_ok genesis_hash parH jstH nodes byz q hs r (hash b) (hash lb).
Proof.
  intros I Hd Hl Hfresh Hlc Hrule. pose proof (i_wf _ _ _ _ _ _ I) as W.
  destruct (dlv_just s W p b Hd) as (j & rb & Hr & Hdr & Hj & Ha & _).
  split.
  - intros b' n n' Hb' Hn Hn'. rewrite (hgt_fun _ _ parH_genesis _ _ _ Hn (dlv_hgt s W _ _ Hd)).
    by eapply Hfresh.
  - destruct (i_lock _ _ _ _ _ _ I) as (lb' & Hl' & ?). by rewrite (dlv_unique s _ _ _ Hl Hl').
  - exists (height lb). by eapply dlv_hgt.
  - exists (hash rb). split; [done|]. split; [|done].
    exact (i_cert _ _ _ _ _ _ I p b _ Hd Hj).
  - destruct Hrule as [?|(j' & rb' & Hr' & Hdr' & Hlt)]; [by left|right].
    assert (j' = j) as -> by congruence. rewrite (dlv_unique s _ _ _ Hdr' Hdr) in Hlt.
    exists (hash rb), (height lb), (height rb). split; [done|].
    split; [by eapply dlv_hgt|]. split; [by eapply dlv_hgt|done].
  - intros b' j1 j2 m n Hb' Hj1 Hj2 Hm Hn.
    rewrite (hgt_fun _ _ parH_genesis _ _ _ Hn (dlv_hgt s W _ _ Hl)).
    destruct Hb' as [Hb'| ->].
    + exact (i_two_chain _ _ _ _ _ _ I b' j1 j2 lb m Hb' Hj1 Hj2 Hm Hl).
    + exact (Hlc j1 j2 lb m Hj1 Hj2 Hm Hl).
Qed.
End Grow.
