(* ===== verification/CoreOps.v ===== *)
(** * Specifications of the message handlers of a replica

    Every entry point of HotStuffCore, run from a state that satisfies the
    safety invariant, ends in one that satisfies it again, whether it returns
    or throws, and a digest it signs is a vote that obeys the voting rule. *)

From S2P Require Import Prelude Certs Entity Core Agreement CoreInv CoreSteps CoreGrow.

Section Ops.
Context `{BlockHash} `{!CommandType} `{!CertSchemeLaws} `{!CollisionFree}.
Variables (nodes byz : gset Z) (q : nat).
Abbreviation hist := (history (B := uint256)).
Abbreviation ancH := (anc parH).
Abbreviation hgtH := (hgt genesis_hash parH).
Abbreviation cert := (certified genesis_hash nodes byz q).
Abbreviation vote_okH := (vote_ok genesis_hash parH jstH nodes byz q).
Abbreviation inv := (inv nodes byz q).
Abbreviation good_voter := (good_voter nodes byz).

(** The outcome of an operation: nothing signed, or one lawful vote. *)
Definition cast (r : ReplicaID) (hs : hist) (s s' : HotStuffCore) : Prop :=
  (signed s' = signed s /\ inv r hs s') \/
  exists p b lb, signed s' = hash b :: signed s /\ dlv s' p b /\
    dlv s' (b_lock s') lb /\ vote_okH hs r (hash b) (hash lb) /\
    inv r (mkVR r (hash b) (hash lb) :: hs) s'.

(** The part of the state an operation may not change at all. *)
Record same_conf (s s' : HotStuffCore) : Prop := {
  sc_config : config s' = config s;
  sc_id : id s' = id s;
  sc_key : priv_key s' = priv_key s;
  sc_disabled : vote_disabled s' = vote_disabled s;
}.

#[export] Instance same_conf_preorder : PreOrder same_conf.
Proof. split; [by intros s|]. intros s1 s2 s3 [] []. split; congruence. Qed.

Lemma quiet_conf s s' : quiet s s' -> same_conf s s'.
Proof. intros [[] _ _ ?]. split; congruence. Qed.

Lemma cast_quiet r hs s s' : inv r hs s' -> quiet s s' -> cast r hs s s'.
Proof. intros I Hq. left. split; [|done]. by rewrite (qt_signed _ _ Hq). Qed.

(** ** The voting rule *)

Lemma lock_walk_spec r hs s lb : inv r hs s -> dlv s (b_lock s) lb ->
  forall fuel p b, dlv s p b -> (Z.to_nat (height b) < fuel)%nat ->
  wp (lock_walk fuel p)
    (fun res s' => s' = s /\ exists d, dlv s res d /\ ancH (hash d) (hash b) /\
       height d <= height lb)
    (fun _ _ => False) s.
Proof.
  intros I Hl. pose proof (i_wf _ _ _ _ _ _ I) as W.
  induction fuel as [|fuel IH]; intros p b Hd Hf; [lia|]. simpl.
  apply wp_bind, wp_get. apply wp_bind. eapply wp_deref; [apply Hd|].
  apply wp_bind. eapply wp_deref; [apply Hl|]. wp_step.
  - apply Z.ltb_lt in Heqb0. pose proof (dlv_height_nonneg s W _ _ Hl).
    destruct (decide (p = b0 s)) as [->|Hp].
    { destruct (dlv_b0 s W b) as (_ & ? & _); [apply Hd|]. lia. }
    destruct (dlv_par s W p b Hd Hp) as (p0 & c0 & Hhd & Hd0 & Hpar & Hh & ?).
    apply wp_bind. eapply wp_index0; [done|].
    eapply wp_mono; [apply (IH p0 c0 Hd0); lia| |done].
    intros res s' (-> & d & ? & ? & ?). split; [done|]. exists d.
    split; [done|]. split; [by eapply rtc_r|done].
  - apply Z.ltb_ge in Heqb0. apply wp_ret. split; [done|]. exists b.
    split; [done|]. split; [apply rtc_refl|done].
Qed.

(** What a positive opinion means. *)
Definition may_vote (s : HotStuffCore) (b : Block) : Prop :=
  vheight s < height b /\
  forall lb, dlv s (b_lock s) lb ->
    ancH (hash lb) (hash b) \/
    exists j rb, qc_ref b = Some j /\ dlv s j rb /\ height lb < height rb.

Lemma opinion_on_spec r hs s p b : inv r hs s -> dlv s p b ->
  wp (opinion_on p)
    (fun o s' => if o : bool then may_vote s b /\ s' = set_vheight (height b) s else s' = s)
    (fun _ _ => False) s.
Proof.
  intros I Hd. unfold opinion_on. pose proof (i_wf _ _ _ _ _ _ I) as W.
  destruct (inv_dlv_lock nodes byz q r hs s I) as [lb Hl].
  destruct (dlv_just s W p b Hd) as (j & rb & Hr & Hdr & _).
  assert (forall lb', dlv s (b_lock s) lb' -> lb' = lb) as Hu
    by (intros; by eapply dlv_unique).
  apply wp_bind, wp_get. apply wp_bind. eapply wp_deref; [apply Hd|].
  wp_step; [|by apply wp_ret]. apply Z.ltb_lt in Heqb0.
  apply wp_bind. eapply wp_deref; [apply Hl|]. rewrite Hr.
  apply wp_bind, wp_bind. eapply wp_deref; [apply Hdr|]. apply wp_ret.
  destruct (height lb <? height rb) eqn:Hcmp.
  - apply Z.ltb_lt in Hcmp. apply wp_bind, wp_modify, wp_ret. split; [|done].
    split; [done|]. intros lb' ->%Hu. right. by exists j, rb.
  - apply wp_bind. eapply wp_mono; [eapply (lock_walk_spec r hs s lb I Hl); [done|lia]| |done].
    intros res s' (-> & d & Hdd & Ha & _). case_decide as Heq.
    + apply wp_bind, wp_modify, wp_ret. split; [|done]. split; [done|].
      intros lb' ->%Hu. left. subst res. by rewrite (dlv_unique s _ _ _ Hl Hdd).
    + by apply wp_ret.
Qed.

Lemma on_qc_finish_spec r hs s p : inv r hs s ->
  wp (on_qc_finish p)
    (fun _ s' => inv r hs s' /\ quiet s s' /\ hp s' = hp s /\ b_lock s' = b_lock s)
    (fun _ _ => False) s.
Proof.
  intros I. unfold on_qc_finish. apply wp_bind, wp_get. case_decide; [|by apply wp_ret].
  apply wp_bind, wp_modify, wp_modify. split; [|done].
  by apply inv_set_qc_waiting, inv_emit.
Qed.

(** The invariant and the vote of a replica that has just raised its
    vheight to a block it may vote for. *)
Lemma may_vote_cast r hs s p b lb : inv r hs s -> dlv s p b -> lock_covers s b ->
  may_vote s b -> dlv s (b_lock s) lb ->
  let s' := set_vheight (height b) s in
  inv r hs s' /\ vote_okH hs r (hash b) (hash lb) /\
  inv r (mkVR r (hash b) (hash lb) :: hs) s'.
Proof.
  intros I Hd Hlc [Hv Hm] Hl s'. pose proof (i_wf _ _ _ _ _ _ I) as W.
  assert (inv r hs s') as I' by (apply inv_set_vheight; [done|lia]).
  split; [done|]. split.
  - apply (inv_vote_ok nodes byz q r hs s p b lb I Hd Hl); [|done|by apply Hm].
    intros b' Hb' n Hn. destruct (i_votes _ _ _ _ _ _ I b' Hb') as (y & bb & Hdb & <- & ?).
    rewrite (hgt_fun _ _ parH_genesis _ _ _ Hn (dlv_hgt s W _ _ Hdb)). lia.
  - eapply inv_vote; [exact I'|exact Hd|simpl; lia|exact Hlc].
Qed.

(** ** on_receive_proposal *)

Lemma sanity_check_spec s p b : hp s !! p = Some b ->
  wp (sanity_check_delivered p)
    (fun _ s' => s' = s /\ dlv s p b) (fun e s' => e = ENotDelivered /\ s' = s) s.
Proof.
  intros Hb. unfold sanity_check_delivered. apply wp_bind. eapply wp_deref; [done|].
  destruct (delivered b) eqn:Hd; [by apply wp_ret|by apply wp_throw].
Qed.

Lemma on_receive_proposal_spec r hs s prop b : inv r hs s ->
  hp s !! prop_blk prop = Some b ->
  wp (on_receive_proposal prop)
    (fun _ s' => cast r hs s s' /\ same_conf s s')
    (fun e s' => (e = ENotDelivered \/ e = ESafetyBreached /\ breach nodes byz q hs s') /\
       cast r hs s s' /\ same_conf s s') s.
Proof.
  intros I Hb. unfold on_receive_proposal. set (p := prop_blk prop) in *.
  apply wp_bind. eapply wp_mono; [by eapply sanity_check_spec| |]; cycle 1.
  { intros e s' [-> ->]. split; [by left|]. split; [by apply cast_quiet|done]. }
  intros ? s0 [-> Hd]. apply wp_bind.
  eapply wp_mono; [by apply (update_spec nodes byz q r hs s p b)| |]; cycle 1.
  { intros e s1 (-> & I1 & Hq1 & Hbr). split; [by right|].
    split; [by apply cast_quiet|by apply quiet_conf]. }
  intros ? s1 (I1 & Hq1 & Hlc & _).
  destruct (same_tree_dlv s1 s p b (symmetry (qt_tree _ _ Hq1)) Hd) as (b1 & Hd1 & Ht).
  destruct (tree_of_inj _ _ Ht) as (Hh1 & Hht1 & _).
  assert (lock_covers s1 b1) as Hlc1 by (unfold lock_covers in *; by rewrite Hh1).
  apply wp_bind. eapply wp_mono; [by apply (opinion_on_spec r hs s1 p b1)| |done].
  intros o s2 Ho. destruct (inv_dlv_lock nodes byz q r hs s1 I1) as [lb Hl].
  assert (inv r hs s2 /\ hp s2 = hp s1 /\ b_lock s2 = b_lock s1 /\ signed s2 = signed s1 /\
    same_conf s1 s2 /\ (o = true -> vote_okH hs r (hash b1) (hash lb) /\
      inv r (mkVR r (hash b1) (hash lb) :: hs) s2)) as (I2 & Hhp2 & Hlk2 & Hsg2 & Hcf2 & Hvote).
  { destruct o; [|subst s2; done]. destruct Ho as [Hm ->].
    destruct (may_vote_cast r hs s1 p b1 lb I1 Hd1 Hlc1 Hm Hl) as (? & ? & ?). done. }
  clear Ho. apply wp_bind. eapply wp_deref; [rewrite Hhp2; apply Hd1|].
  destruct (dlv_just s1 (i_wf _ _ _ _ _ _ I1) p b1 Hd1) as (j & rb & -> & _).
  assert (forall hs', inv r hs' s2 -> wp (on_qc_finish j)
    (fun _ s3 => inv r hs' s3 /\ quiet s2 s3 /\ hp s3 = hp s2 /\ b_lock s3 = b_lock s2)
    (fun _ _ => False) s2) as Hfin by (intros; by apply on_qc_finish_spec).
  assert (same_conf s s1) as Hcf1 by by apply quiet_conf.
  pose proof (qt_signed _ _ Hq1) as Hsg1. apply wp_bind.
  destruct (o && negb (vote_disabled s2)) eqn:Hop.
  - apply andb_true_iff in Hop as [-> Hnd]. destruct (Hvote eq_refl) as [Hok I2'].
    eapply wp_mono; [apply (Hfin _ I2')| |done].
    intros ? s3 (I3 & Hq3 & Hhp3 & Hlk3). apply wp_bind, wp_modify, wp_bind, wp_get. cbn -[negb].
    rewrite <- (qt_disabled _ _ Hq3), Hnd. cbn.
    split; [|etrans; [exact Hcf1|etrans; [exact Hcf2|by destruct (quiet_conf _ _ Hq3)]]].
    right. exists p, b1, lb.
    pose proof (qt_signed _ _ Hq3) as Hsg3. unfold signed in *. cbn.
    split; [congruence|]. unfold dlv. cbn. rewrite Hhp3, Hhp2, Hlk3, Hlk2.
    split; [done|]. split; [done|]. split; [done|].
    eapply (inv_emit _ _ _ _ _ (set_trace _ _)); [|done].
    eapply (inv_emit _ _ _ _ _ (set_trace _ _)); [|done]. by eapply inv_emit.
  - eapply wp_mono; [apply (Hfin _ I2)| |done].
    intros ? s3 (I3 & Hq3 & Hhp3 & Hlk3). apply wp_bind, wp_modify, wp_bind, wp_get. cbn -[negb].
    rewrite <- (qt_disabled _ _ Hq3), Hop. cbn.
    split; [|etrans; [exact Hcf1|etrans; [exact Hcf2|by destruct (quiet_conf _ _ Hq3)]]].
    left. pose proof (qt_signed _ _ Hq3) as Hsg3. unfold signed in *. cbn.
    split; [congruence|]. by eapply inv_emit.
Qed.

(** ** on_receive_vote *)

Lemma wp_upd p b f (Q : unit -> HotStuffCore -> Prop) X s :
  hp s !! p = Some b -> Q tt (put p (f b) s) -> wp (upd p f) Q X s.
Proof. intros Hb HQ. apply wp_modify. by rewrite (upd_put _ b). Qed.

Lemma put_self p b b' s : hp s !! p = Some b -> hp (put p b' s) !! p = Some b'.
Proof. intros Hb. rewrite (put_lookup p b) by done. by rewrite decide_True. Qed.

Lemma quiet_put s p b b' : hp s !! p = Some b -> tree_of b' = tree_of b ->
  quiet s (put p b' s).
Proof.
  intros Hb Ht. split; try done. split; try done.
  apply list_eq. intros x. rewrite !list_lookup_fmap, (put_lookup p b) by done.
  case_decide; [|done]. subst. rewrite Hb. simpl. by rewrite Ht.
Qed.

Lemma get_delivered_spec s h : wf s ->
  wp (get_delivered_blk h)
    (fun p s' => s' = s /\ exists b, dlv s p b /\ hash b = h)
    (fun e s' => e = ENotDelivered /\ s' = s /\
       forall p b, dlv s p b -> hash b <> h) s.
Proof.
  intros W. unfold get_delivered_blk. apply wp_bind, wp_get. unfold find_blk.
  destruct (blk_cache (storage s) !! h) as [p|] eqn:Hp.
  - pose proof (proj1 (wf_cache s W h p) Hp) as (b & Hb & Hh).
    apply wp_bind. eapply wp_deref; [done|]. destruct (delivered b) eqn:Hd.
    + apply wp_ret. split; [done|]. by exists b.
    + apply wp_throw. do 2 (split; [done|]). intros x bx [Hx ?] Hxh.
      assert (x = p) as -> by (eapply (wf_inj s W); [done..|congruence]). congruence.
  - apply wp_throw. do 2 (split; [done|]). intros x bx [Hx _] Hxh.
    assert (blk_cache (storage s) !! h = Some x) by (apply (wf_cache s W); eauto). congruence.
Qed.

(** A quorum of recorded voters certifies the block. *)
Lemma voted_cert (r : Z) hs h (V : gset Z) : (q <= size V)%nat ->
  (forall v, v ∈ V -> good_voter hs h v) -> cert hs h.
Proof.
  intros Hs Hv. right. exists V. split; [intros v Hin; by apply Hv|]. split; [done|].
  intros v Hin Hz. by apply Hv.
Qed.

Definition kept (r : ReplicaID) (hs : hist) (s s' : HotStuffCore) : Prop :=
  inv r hs s' /\ quiet s s' /\ b_lock s' = b_lock s.

Lemma on_receive_vote_spec r hs s v : inv r hs s -> (q <= size nodes)%nat ->
  good_voter hs (vote_blk_hash v) (voter v) ->
  wp (on_receive_vote v)
    (fun _ s' => kept r hs s s')
    (fun e s' => (e = ENotDelivered \/ e = EPartCert) /\ kept r hs s s') s.
Proof.
  intros I Hq Hv. pose proof (i_wf _ _ _ _ _ _ I) as W. unfold on_receive_vote.
  apply wp_bind. eapply wp_mono; [by apply get_delivered_spec| |]; cycle 1.
  { intros e s' (-> & -> & _). split; [by left|]. by split. }
  intros p s' (-> & b & Hd & Hh). apply wp_bind. eapply wp_deref; [apply Hd|].
  pose proof (proj1 Hd) as Hb. destruct (i_config _ _ _ _ _ _ I) as [Hnm _].
  apply wp_bind, wp_get. wp_step; [by apply wp_ret|]. apply Z.leb_gt in Heqb0.
  case_decide as Hin; [by apply wp_ret|].
  assert (p <> b0 s) as Hne.
  { intros ->. pose proof (subseteq_size _ _ (i_voted_b0 _ _ _ _ _ _ I b Hb)). lia. }
  assert (forall b', tree_of b' = tree_of b -> decision b' = decision b ->
    voted b' = {[voter v]} ∪ voted b ->
    (forall c, self_qc b' = Some c -> self_qc b = Some c \/ qc_obj_hash c = hash b) ->
    kept r hs s (put p b' s)) as Hput.
  { intros b' Ht Hdc Hvo Hsq. split; [|split; [by eapply quiet_put|done]].
    eapply inv_put_same; try done; rewrite Hvo; [set_solver|].
    intros v' [->%elem_of_singleton|?]%elem_of_union; [right; by rewrite Hh|by left]. }
  apply wp_bind. eapply wp_upd; [done|]. apply wp_bind. eapply wp_upd; [by eapply put_self|].
  rewrite put_put. match goal with |- wp _ _ _ (put p (set_self_qc (Some ?c) _) s) => set (q1 := c) end.
  assert (qc_obj_hash q1 = hash b) as Hq1.
  { unfold q1. destruct (self_qc b) eqn:Hsq; [|apply create_quorum_cert_obj].
    by eapply (i_self_qc _ _ _ _ _ _ I). }
  apply wp_bind, wp_from_option; [|]; cycle 1.
  { intros _. split; [by right|]. apply Hput; try done. intros c [= <-]. by right. }
  intros q2 Hq2%add_part_obj. apply wp_bind. eapply wp_upd; [by eapply put_self|].
  rewrite put_put. wp_step; [|apply wp_ret; apply Hput; try done; intros c [= <-]; right; congruence].
  apply Z.eqb_eq in Heqb1. apply wp_bind. eapply wp_upd; [by eapply put_self|].
  rewrite put_put. match goal with |- wp _ _ _ (put p ?c s) => set (b4 := c) end.
  assert (qc_obj_hash (compute q2) = hash b) as Hq3 by (rewrite compute_obj; congruence).
  destruct (Hput b4) as (I4 & Hqt4 & Hlk4); [done..|intros c [= <-]; by right|].
  assert (dlv (put p b4 s) p b4) as Hd4 by (split; [by eapply put_self|apply Hd]).
  apply wp_bind. eapply wp_mono; [eapply (update_hqc_spec nodes byz q r hs _ p b4)| |done]; try done.
  { apply (voted_cert r hs _ ({[voter v]} ∪ voted b)).
    - rewrite size_union, size_singleton by set_solver. lia.
    - intros v' [->%elem_of_singleton|Hin']%elem_of_union; [change (hash b4) with (hash b); by rewrite Hh|].
      exact (i_voted _ _ _ _ _ _ I p b v' Hb Hne Hin'). }
  intros ? s5 (I5 & Hqt5 & Hlk5 & _). eapply wp_mono; [by apply (on_qc_finish_spec r hs s5)| |done].
  intros ? s6 (I6 & Hqt6 & _ & Hlk6). split; [done|]. split; [|congruence].
  etrans; [exact Hqt4|]. by etrans.
Qed.
End Ops.
