(* ===== verification/CoreDeliver.v ===== *)
(** * Storing, delivering and proposing blocks

    Specifications of the operations that extend a replica's block tree:
    EntityStorage::add_blk, HotStuffCore::on_deliver_blk and
    HotStuffCore::on_propose. *)

From S2P Require Import Prelude Certs Entity Core Agreement CoreInv CoreSteps CoreGrow CoreOps.

Section Deliver.
Context `{BlockHash} `{!CommandType} `{!CertSchemeLaws} `{!CollisionFree}.
Variables (nodes byz : gset Z) (q : nat).
Abbreviation hist := (history (B := uint256)).
Abbreviation ancH := (anc parH).
Abbreviation cert := (certified genesis_hash nodes byz q).
Abbreviation inv := (inv nodes byz q).
Abbreviation cast := (cast nodes byz q).

(** ** Storing *)

Definition fresh_blk (b : Block) : Prop :=
  hash b = get_hash (content b) /\ decision b = 0 /\ delivered b = false /\
  voted b = ∅ /\ self_qc b = None.

Lemma add_blk_lookup hp (b : Block) x :
  (hp ++ [b]) !! x = if decide (x = length hp) then Some b else hp !! x.
Proof.
  case_decide; subst.
  - by rewrite lookup_app_r, Nat.sub_diag by lia.
  - destruct (decide (x < length hp)%nat); [by rewrite lookup_app_l|].
    rewrite (proj2 (lookup_ge_None (hp ++ [b]) x)) by (rewrite length_app; simpl; lia).
    by rewrite (proj2 (lookup_ge_None hp x)) by lia.
Qed.

Lemma store_blk_spec r hs s b : inv r hs s -> fresh_blk b ->
  wp (store_blk b)
    (fun p s' => inv r hs s' /\ grows nodes byz q hs s s' /\ tails s' = tails s /\
       exists b', hp s' !! p = Some b' /\ hash b' = hash b /\ (b' = b \/ hp s !! p = Some b'))
    (fun _ _ => False) s.
Proof.
  intros I (Hh & Hdc & Hdl & Hvo & Hsq). pose proof (i_wf _ _ _ _ _ _ I) as W.
  unfold store_blk, add_blk, wp. destruct (blk_cache (storage s) !! hash b) as [p|] eqn:Hc.
  - pose proof (proj1 (wf_cache s W _ _) Hc) as (b' & Hb' & ?).
    assert (set_storage (storage s) (set_heap (hp s) s) = s) as -> by (by destruct s).
    split; [done|]. split; [|eauto 10]. split; try done.
    + intros x bx Hx. exists bx. split; [done|]. apply blk_grows_refl.
    + congruence.
    + left. eauto.
  - set (s' := set_storage _ _).
    assert (forall x, hp s' !! x = if decide (x = length (hp s)) then Some b else hp s !! x) as Hl
      by (intros; apply add_blk_lookup).
    assert (forall x bx, hp s !! x = Some bx -> hp s' !! x = Some bx) as Hold.
    { intros x bx Hx. rewrite Hl. apply lookup_lt_Some in Hx as ?. rewrite decide_False; [done|lia]. }
    assert (forall x bx, dlv s' x bx -> dlv s x bx) as Hback.
    { intros x bx [Hx Hd]. rewrite Hl in Hx. case_decide; [congruence|done]. }
    assert (forall x bx, dlv s x bx -> dlv s' x bx) as Hforw by (intros x bx [? ?]; split; auto).
    assert (grows nodes byz q hs s s') as G.
    { split; try done.
      - intros x bx Hx. exists bx. split; [by apply Hold|apply blk_grows_refl].
      - intros x bx. rewrite Hl. case_decide; [|congruence]. intros [= <-] _. done.
      - intros x bx Hd%Hback. left. eauto. }
    split; [|split; [done|split; [done|]]]; cycle 1.
    { exists b. rewrite Hl, decide_True by done. split; [done|]. split; [done|]. by left. }
    eapply inv_grow; [exact I|exact G|]. split.
    + intros h x. cbn [storage s' set_storage blk_cache].
      rewrite lookup_insert. setoid_rewrite Hl. case_decide as Hx; subst.
      * split; [intros [= <-]; rewrite decide_True by done; eauto|].
        intros (bx & Hbx & Heq). case_decide; [congruence|].
        assert (blk_cache (storage s) !! hash b = Some x) by (apply (wf_cache s W); eauto). congruence.
      * rewrite (wf_cache s W). case_decide; [subst|done].
        rewrite lookup_ge_None_2 by lia. split; intros (bx & ? & ?); congruence.
    + intros x bx. rewrite Hl. case_decide; [by intros [= <-]|by apply (wf_hash s W)].
    + destruct (wf_b0 s W) as (g & Hg & Hrest). exists g. split; [by apply Hforw|done].
    + intros x bx Hd%Hback Hne.
      destruct (wf_dlv s W x bx Hd Hne) as (p0 & c0 & rr & rb & qq & Hrest).
      exists p0, c0, rr, rb, qq. destruct_and!. split_and?; auto.
Qed.

(** ** Delivery *)

(** What the layer below guarantees of a block it delivers: its parents
    are delivered, its QC is a valid certificate for an ancestor. *)
Record deliver_ok (hs : hist) (s : HotStuffCore) (c : Content) : Prop := {
  do_parents : forall h, h ∈ parent_hashes c -> exists x bx, dlv s x bx /\ hash bx = h;
  do_link : exists x0 c0 x1 rb qq,
    head (parent_hashes c) = Some (hash c0) /\ dlv s x0 c0 /\ height c0 + 1 < 2 ^ 32 /\
    qc c = Some qq /\ qc_obj_hash qq = hash rb /\ dlv s x1 rb /\
    ancH (hash rb) (hash c0) /\ cert hs (hash rb);
}.

Section OneBlock.
Context (s : HotStuffCore) (W : wf s) (p : ptr) (b : Block).
Context (Hb : hp s !! p = Some b) (Hn : delivered b = false).

Lemma undelivered_dlv x bx b' : delivered b' = false ->
  dlv (put p b' s) x bx <-> dlv s x bx.
Proof.
  intros Hn'. split; [|by eapply put_dlv]. intros [Hx Hd].
  rewrite (put_lookup p b) in Hx by done. case_decide; [congruence|done].
Qed.

(** push_parents fills the parents with the delivered blocks the hashes
    name, or stops at the first hash that names none. *)
Lemma push_parents_spec l : forall b', delivered b' = false ->
  content b' = content b -> hash b' = hash b ->
  wp (push_parents p l)
    (fun _ s' => exists ps, s' = put p (set_parents (parents b' ++ ps) b') s /\
       Forall2 (fun x h => exists bx, dlv s x bx /\ hash bx = h) ps l)
    (fun e s' => e = ENotDelivered /\ (exists ps, s' = put p (set_parents ps b') s) /\
       exists h, h ∈ l /\ forall x bx, dlv s x bx -> hash bx <> h)
    (put p b' s).
Proof.
  induction l as [|h l IH]; intros b' Hn' Hc Hh; simpl.
  - apply wp_ret. exists []. split; [|constructor]. rewrite app_nil_r. by destruct b'.
  - assert (wf (put p b' s)) as W' by (by eapply wf_put_undelivered; [done..|congruence]).
    apply wp_bind. eapply wp_mono; [by apply get_delivered_spec| |].
    + intros x s' (-> & bx & Hx & <-). apply undelivered_dlv in Hx; [|done].
      apply wp_bind. eapply wp_upd; [by eapply put_self|]. rewrite put_put.
      eapply wp_mono; [by apply IH| |].
      * intros ? s' (ps & -> & Hps). exists (x :: ps). simpl. rewrite <- (assoc_L (++)).
        split; [done|]. constructor; [eauto|done].
      * intros e s' (-> & (ps & ->) & h & Hin & Hno). split; [done|]. split; [by exists ps|].
        exists h. split; [by right|done].
    + intros e s' (-> & -> & Hno). split; [done|]. split.
      * exists (parents b'). by destruct b'.
      * exists h. split; [by left|]. intros x bx Hx. apply (Hno x bx).
        by apply undelivered_dlv.
Qed.
End OneBlock.

(** Completing the delivery of a block. *)
Lemma inv_delivered r hs s p b b' qq : inv r hs s -> hp s !! p = Some b ->
  delivered b = false -> content b' = content b -> hash b' = hash b ->
  decision b' = decision b -> voted b' = voted b -> self_qc b' = self_qc b ->
  qc (content b) = Some qq -> cert hs (qc_obj_hash qq) -> linked s b' ->
  inv r hs (put p b' s) /\ grows nodes byz q hs s (put p b' s).
Proof.
  intros I Hb Hn Hc Hh Hdc Hvo Hsq Hqc Hce Hlk. pose proof (i_wf _ _ _ _ _ _ I) as W.
  assert (grows nodes byz q hs s (put p b' s)) as G.
  { apply (grows_put _ _ _ _ _ _ b); [done|..].
    - split; try done; rewrite ?Hvo, ?Hsq; auto; congruence.
    - intros _ _ j. assert (p <> b0 s) as Hne.
      { intros ->. destruct (wf_b0_dlv s W) as (g & [? ?] & _). congruence. }
      unfold jstH. rewrite decide_False by (by eapply wf_not_b0).
      rewrite (wf_hash s W p b), unhash_get_hash by done. simpl. rewrite Hqc. simpl.
      by intros [= <-]. }
  split; [|done]. eapply inv_grow; [exact I|exact G|]. by eapply wf_put_undelivered.
Qed.

Lemma on_deliver_blk_spec r hs s p b : inv r hs s -> hp s !! p = Some b ->
  (delivered b = false -> deliver_ok hs s (content b)) ->
  wp (on_deliver_blk p)
    (fun res s' => res = negb (delivered b) /\ inv r hs s' /\ grows nodes byz q hs s s' /\
       exists b', dlv s' p b' /\ hash b' = hash b /\ content b' = content b /\
         voted b' = voted b)
    (fun _ _ => False) s.
Proof.
  intros I Hb Hok. pose proof (i_wf _ _ _ _ _ _ I) as W. unfold on_deliver_blk.
  apply wp_bind. eapply wp_deref; [done|]. destruct (delivered b) eqn:Hn.
  { apply wp_ret. split; [done|]. split; [done|]. split; [|by exists b].
    split; try done; [|congruence|left; eauto]. intros x bx Hx. exists bx.
    split; [done|apply blk_grows_refl]. }
  destruct (Hok eq_refl) as [Hpar (x0 & c0 & x1 & rb & qq & Hph & Hd0 & Hht & Hqc & Hqo & Hd1 & Ha & Hce)].
  apply wp_bind. eapply wp_upd; [done|]. apply wp_bind.
  eapply wp_mono; [by apply (push_parents_spec s W p b Hb Hn)| |]; cycle 1.
  { intros e s' (_ & _ & h & Hin & Hno). destruct (Hpar h Hin) as (x & bx & Hx & Hxh).
    by destruct (Hno x bx Hx). }
  intros ? s' (ps & -> & Hps). simpl. apply wp_bind. eapply wp_deref; [by eapply put_self|].
  destruct (parent_hashes (content b)) as [|h0 hl] eqn:Hphs; [done|]. injection Hph as ->.
  inversion Hps as [|x0' ? ps' ? (bx & Hdx & Hxh)]; subst.
  destruct (dlv_ptr s W _ _ _ _ Hdx Hd0 Hxh) as [-> ->].
  pose proof (dlv_height_nonneg s W _ _ Hd0).
  apply wp_bind. eapply wp_index0; [done|]. apply wp_bind.
  eapply wp_deref; [by apply (undelivered_dlv s p b)|].
  apply wp_bind. eapply wp_upd; [by eapply put_self|]. rewrite put_put. apply wp_bind.
  cbn [content set_height set_parents qc].  rewrite Hqc. apply wp_bind, wp_get.
  assert (blk_cache (storage s) !! qc_obj_hash qq = Some x1) as Hfind.
  { apply (wf_cache s W). exists rb. split; [apply Hd1|done]. }
  apply wp_bind. unfold find_blk. cbn [storage put set_heap]. rewrite Hfind. apply wp_ret.
  eapply wp_upd; [by eapply put_self|]. rewrite put_put. apply wp_bind, wp_modify, wp_bind.
  match goal with |- wp (upd _ _) _ _ (set_tails ?t (put p ?b' s)) => set (tl := t); set (bb := b') end.
  eapply wp_upd with (b := bb); [by eapply (put_self p b)|]. apply wp_ret.
  change (put p (set_delivered true bb) (set_tails tl (put p bb s)))
    with (set_tails tl (put p (set_delivered true bb) (put p bb s))). rewrite put_put.
  set (b' := set_delivered true bb).
  destruct (inv_delivered r hs s p b b' qq) as [I' G]; try done; [by rewrite Hqo|..].
  { exists x0, c0, x1, rb, qq. simpl. rewrite Hphs, u32_small by lia.
    repeat (split; [done || lia|]). done. }
  split; [done|]. split; [by apply inv_set_tails|]. split; [by destruct G|].
  exists b'. split; [|done]. split; [by eapply (put_self p b)|done].
Qed.

(** ** Proposing *)

(** What building the block to propose leaves in place. *)
Record onward (s s' : HotStuffCore) : Prop := {
  on_conf : same_conf s s';
  on_signed : signed s' = signed s;
  on_vheight : vheight s' = vheight s;
  on_lock : b_lock s' = b_lock s;
  on_hqc : hqc s' = hqc s;
  on_b0 : b0 s' = b0 s;
  on_dlv : forall p b, dlv s p b -> exists b', dlv s' p b' /\ tree_of b' = tree_of b;
}.

#[export] Instance onward_preorder : PreOrder onward.
Proof.
  split.
  - intros s. split; try done. eauto.
  - intros s1 s2 s3 [] []. split; try congruence; [by etrans|].
    intros p b (b2 & (b3 & ? & ?)%on_dlv1 & ?)%on_dlv0. exists b3. split; [done|congruence].
Qed.

Lemma grows_onward hs s s' : grows nodes byz q hs s s' -> onward s s'.
Proof.
  intros G. split; try apply G.
  - split; apply G.
  - unfold signed. by rewrite (gr_trace _ _ _ _ _ _ G).
  - intros p b Hd. by eapply grows_dlv.
Qed.

Lemma onward_tails s t : onward s (set_tails t s).
Proof. split; try done. intros p b Hd. by exists b. Qed.

Lemma get_hashes_spec s ps : (forall p, p ∈ ps -> is_Some (hp s !! p)) ->
  wp (get_hashes ps)
    (fun hs s' => s' = s /\ Forall2 (fun p h => exists b, hp s !! p = Some b /\ hash b = h) ps hs)
    (fun _ _ => False) s.
Proof.
  induction ps as [|p ps IH]; intros Hps; simpl; [by apply wp_ret|].
  destruct (Hps p) as [b Hb]; [by left|]. apply wp_bind. eapply wp_deref; [done|].
  apply wp_bind. eapply wp_mono; [apply IH; set_solver| |done].
  intros l s' [-> Hl]. apply wp_ret. split; [done|]. constructor; [eauto|done].
Qed.

Lemma content_unique s p b c : wf s -> hp s !! p = Some b -> p <> b0 s ->
  hash b = get_hash c -> content b = c.
Proof.
  intros W Hb Hp Hh. rewrite (wf_hash s W p b Hb Hp) in Hh.
  pose proof (unhash_get_hash (content b)) as H1'. rewrite Hh, unhash_get_hash in H1'. congruence.
Qed.

(** The parents given to on_propose: delivered blocks, the first of which
    extends the block of the highest QC (as PMHighTail arranges). *)
Definition propose_ok (s : HotStuffCore) (ps : list nat) : Prop :=
  (forall p, p ∈ ps -> exists b, dlv s p b) /\
  exists p0 c0 ph hq hb, head ps = Some p0 /\ dlv s p0 c0 /\ height c0 + 1 < 2 ^ 32 /\
    hqc s = Some (ph, hq) /\ dlv s ph hb /\ ancH (hash hb) (hash c0).

(** The content of the proposed block can be delivered. *)
Lemma propose_deliver_ok r hs s ps l ph hq cs ex : inv r hs s -> propose_ok s ps ->
  hqc s = Some (ph, hq) ->
  Forall2 (fun p h => exists b, hp s !! p = Some b /\ hash b = h) ps l ->
  deliver_ok hs s (mkContent l cs (Some hq) ex).
Proof.
  intros I (Hps & p0 & c0 & ph' & hq' & hb & Hh & Hd0 & Hlt & Hq & Hdh & Ha) Hq' Hl.
  assert (ph' = ph /\ hq' = hq) as [-> ->] by (split; congruence).
  destruct (i_hqc _ _ _ _ _ _ I) as (ph' & hq' & hb' & Hq2 & Hd2 & Hce & Hqo).
  assert (ph' = ph /\ hq' = hq) as [-> ->] by (split; congruence).
  pose proof (dlv_unique s _ _ _ Hd2 Hdh) as ->. split; simpl.
  - intros h Hin. apply list_elem_of_lookup in Hin as [i Hi].
    destruct (Forall2_lookup_r _ _ _ _ _ Hl Hi) as (p & Hp & b & Hb & Hbh).
    destruct (Hps p) as [b' Hd]; [by eapply list_elem_of_lookup_2|].
    exists p, b'. split; [done|]. destruct Hd. congruence.
  - exists p0, c0, ph, hb, hq. split; [|done].
    destruct ps as [|p1 ps]; [done|]. injection Hh as ->.
    inversion Hl as [|? h0 ? l' (b & Hb & Hbh)]; subst. simpl. f_equal.
    destruct Hd0. congruence.
Qed.

Lemma deliver_ok_onward hs s s' c : onward s s' -> deliver_ok hs s c -> deliver_ok hs s' c.
Proof.
  intros O [Hp (x0 & c0 & x1 & rb & qq & ? & Hd0 & ? & ? & ? & Hd1 & ? & ?)].
  assert (forall x b, dlv s x b -> exists b', dlv s' x b' /\ hash b' = hash b /\
    height b' = height b) as Hf.
  { intros x b (b' & ? & (? & ? & _)%tree_of_inj)%(on_dlv _ _ O). eauto. }
  split.
  - intros h (x & b & (b' & ? & ? & _)%Hf & <-)%Hp. eauto.
  - destruct (Hf _ _ Hd0) as (c0' & ? & Hh0 & Hht). destruct (Hf _ _ Hd1) as (rb' & ? & Hh1 & _).
    exists x0, c0', x1, rb', qq. rewrite Hh0, Hh1, Hht. done.
Qed.

(** A delivered block that carries the highest QC refers to its block. *)
Lemma dlv_hqc_ref r hs s p b ph hq : inv r hs s -> dlv s p b -> p <> b0 s ->
  hqc s = Some (ph, hq) -> qc (content b) = Some hq -> qc_ref b = Some ph.
Proof.
  intros I Hd Hp Hq Hc. pose proof (i_wf _ _ _ _ _ _ I) as W.
  destruct (i_hqc _ _ _ _ _ _ I) as (ph' & hq' & hb & Hq2 & Hd2 & _ & Hqo).
  assert (ph' = ph /\ hq' = hq) as [-> ->] by (split; congruence).
  destruct (dlv_just s W p b Hd) as (j & rb & Hr & Hdr & _ & _ & (q' & Hq' & Hqo') & _).
  assert (q' = hq) as -> by congruence.
  assert (hash rb = hash hb) as Heq by congruence.
  by destruct (dlv_ptr s W _ _ _ _ Hdr Hd2 Heq) as [-> _].
Qed.

Lemma new_block_spec r hs s cs ps p0 ex : inv r hs s -> head ps = Some p0 -> propose_ok s ps ->
  wp (new_block cs ps p0 ex)
    (fun p s' => inv r hs s' /\ onward s s' /\ p <> b0 s' /\ exists b, dlv s' p b /\
       exists ph hq, hqc s' = Some (ph, hq) /\ qc_ref b = Some ph)
    (fun _ _ => False) s.
Proof.
  intros I Hh0 Hok. unfold new_block. apply wp_bind, wp_modify.
  set (s1 := set_tails _ s).
  assert (inv r hs s1) as I1 by (by apply inv_set_tails).
  assert (onward s s1) as O1 by apply onward_tails. apply wp_bind.
  eapply wp_mono; [apply (get_hashes_spec s1)| |done].
  { intros p Hin. destruct (proj1 Hok p Hin) as (b & Hb & _). eauto. }
  intros l s' [-> Hl]. destruct (proj2 Hok) as (p0' & c0 & ph & hq & _ & Hh0' & Hd0 & _ & Hhq & _).
  assert (p0' = p0) as -> by congruence. apply wp_bind. eapply wp_deref; [apply Hd0|].
  apply wp_bind, wp_get, wp_bind. change (hqc s1) with (hqc s). rewrite Hhq. apply wp_ret. simpl.
  pose proof (propose_deliver_ok r hs s1 ps l ph hq cs ex I1 Hok Hhq Hl) as Hdo.
  set (c := mkContent l cs (Some hq) ex) in *. apply wp_bind.
  eapply wp_mono; [apply (store_blk_spec r hs s1); [done|by split_and!]| |done].
  intros p s2 (I2 & G2 & _ & b2 & Hb2 & Hhash & Hor). simpl in Hhash.
  pose proof (grows_onward _ _ _ G2) as O2. pose proof (i_wf _ _ _ _ _ _ I2) as W2.
  assert (p <> b0 s2) as Hne.
  { intros ->. destruct (dlv_b0 s2 W2 b2 Hb2) as (Hg & _). rewrite Hg in Hhash.
    assert (unhash (get_hash genesis_content) = unhash (get_hash c)) as Hu by (f_equal; apply Hhash).
    rewrite !unhash_get_hash in Hu. injection Hu as Hu _ _ _.
    destruct ps; [done|]. inversion Hl; subst. done. }
  pose proof (content_unique s2 p b2 c W2 Hb2 Hne Hhash) as Hc2.
  apply wp_bind. eapply wp_deref; [done|]. apply wp_bind, wp_get, wp_bind.
  eapply wp_upd; [done|].
  match goal with |- wp _ _ _ (put p ?b s2) => set (b3 := b) end.
  assert (inv r hs (put p b3 s2)) as I3.
  { eapply inv_put_same; try done; [by left|]. intros c' [= <-]. right. apply create_quorum_cert_obj. }
  assert (onward s2 (put p b3 s2)) as O3.
  { apply (grows_onward hs), (grows_put _ _ _ _ _ _ b2); [done| |subst b3; simpl; congruence].
    split; try done; [by left|]. intros c' [= <-]. right. apply create_quorum_cert_obj. }
  apply wp_bind. eapply wp_mono; [apply (on_deliver_blk_spec r hs (put p b3 s2) p b3 I3)| |done].
  - by eapply put_self.
  - intros _. simpl. rewrite Hc2. eapply deliver_ok_onward; [exact O3|].
    by eapply deliver_ok_onward.
  - intros res s4 (_ & I4 & G4 & b4 & Hd4 & _ & Hc4 & _). apply wp_ret.
    pose proof (grows_onward _ _ _ G4) as O4.
    assert (onward s s4) as O by (etrans; [exact O1|etrans; [exact O2|by etrans]]).
    split; [done|]. split; [done|].
    assert (p <> b0 s4) as Hne4 by (rewrite (on_b0 _ _ O4); done). split; [done|].
    exists b4. split; [done|]. exists ph, hq. split; [by rewrite (on_hqc _ _ O)|].
    apply (dlv_hqc_ref r hs s4 p b4 ph hq I4 Hd4 Hne4); [by rewrite (on_hqc _ _ O)|].
    change (content b3) with (content b2) in Hc4; by rewrite Hc4, Hc2.
Qed.

(** A block that refers to the highest QC's block may be voted for. *)
Lemma propose_may_vote r hs s s' p b b' ph hq : inv r hs s -> dlv s p b ->
  hqc s = Some (ph, hq) -> qc_ref b = Some ph -> quiet s s' -> lock_below s s' b ->
  dlv s' p b' -> tree_of b' = tree_of b -> vheight s' < height b' -> may_vote s' b'.
Proof.
  intros I Hd Hq Hr Hqt Hlb Hd' Ht Hv. split; [done|]. intros lb' Hl'.
  pose proof (i_wf _ _ _ _ _ _ I) as W. pose proof (qt_tree _ _ Hqt) as St.
  destruct (tree_of_inj _ _ Ht) as (Hh & _ & _ & _ & _ & Hrr).
  destruct (i_hqc _ _ _ _ _ _ I) as (ph' & hq' & hb & Hq2 & Hdh & _).
  assert (ph' = ph /\ hq' = hq) as [-> ->] by (split; congruence).
  destruct (same_tree_dlv _ _ _ _ (symmetry St) Hdh) as (hb' & Hdh' & Hth).
  destruct (tree_of_inj _ _ Hth) as (_ & Hhh & _).
  destruct Hlb as [Heq|Hlt].
  - rewrite Heq in Hl'. destruct (same_tree_dlv _ _ _ _ St Hl') as (lb & Hl & Htl).
    destruct (tree_of_inj _ _ Htl) as (Hlh & Hlhh & _).
    destruct (i_lock_hqc _ _ _ _ _ _ I) as [Hlk|Hlk].
    + left. rewrite <- Hlh, Hh. rewrite Hlk in Hl.
      destruct (dlv_b0 s W lb) as (-> & _); [apply Hl|]. eapply anc_g. by eapply dlv_hgt.
    + right. exists ph, hb'. rewrite Hrr. split; [done|]. split; [done|].
      rewrite Hhh, <- Hlhh. by eapply Hlk.
  - right. exists ph, hb'. rewrite Hrr. split; [done|]. split; [done|].
    rewrite Hhh. by eapply Hlt.
Qed.

Definition propose_error (hs : hist) (e : Error) (s' : HotStuffCore) : Prop :=
  (e = ENotHigher \/ e = ENotDelivered \/ e = EPartCert) \/ e = ESafetyBreached /\ breach nodes byz q hs s'.

Lemma on_propose_spec r hs s cs ps ex : inv r hs s -> (q <= size nodes)%nat -> r ∈ nodes ->
  propose_ok s ps ->
  wp (on_propose cs ps ex)
    (fun _ s' => cast r hs s s' /\ same_conf s s')
    (fun e s' => propose_error hs e s' /\ cast r hs s s' /\ same_conf s s') s.
Proof.
  intros I Hq Hr Hok. unfold on_propose. destruct ps as [|p0 ps].
  { by destruct Hok as [_ (? & ? & ? & ? & ? & ? & _)]. }
  apply wp_bind. eapply wp_mono; [by apply (new_block_spec r hs s)| |done].
  intros p s1 (I1 & O1 & Hne & b & Hd & ph & hq & Hhq & Href).
  apply wp_bind. eapply wp_mono; [by apply (update_spec nodes byz q r hs s1 p b)| |]; cycle 1.
  { intros e s2 (-> & I2 & Hq2 & Hbr). split; [by right|]. split.
    - left. by rewrite <- (qt_signed _ _ Hq2), (on_signed _ _ O1).
    - etrans; [apply O1|by apply quiet_conf]. }
  intros ? s2 (I2 & Hq2 & Hlc & Hlb).
  destruct (same_tree_dlv s2 s1 p b (symmetry (qt_tree _ _ Hq2)) Hd) as (b2 & Hd2 & Ht).
  assert (signed s2 = signed s) as Hsg2 by (by rewrite <- (qt_signed _ _ Hq2), (on_signed _ _ O1)).
  assert (same_conf s s2) as Hcf2 by (etrans; [apply O1|by apply quiet_conf]).
  apply wp_bind, wp_get, wp_bind. eapply wp_deref; [apply Hd2|]. wp_step.
  { apply wp_throw. split; [by left; left|]. split; [by left|done]. }
  apply Z.leb_gt in Heqb0. destruct (tree_of_inj _ _ Ht) as (Hh & _).
  pose proof (propose_may_vote r hs s1 s2 p b b2 ph hq I1 Hd Hhq Href Hq2 Hlb Hd2 Ht Heqb0) as Hmv.
  assert (lock_covers s2 b2) as Hlc2 by (unfold lock_covers in *; by rewrite Hh).
  destruct (inv_dlv_lock nodes byz q r hs s2 I2) as [lb Hl].
  destruct (may_vote_cast nodes byz q r hs s2 p b2 lb I2 Hd2 Hlc2 Hmv Hl) as (_ & Hvok & I3).
  apply wp_bind, wp_modify, wp_bind, wp_bind, wp_get, wp_bind, wp_modify, wp_ret, wp_bind.
  set (s3 := set_vheight (height b2) s2) in *. set (s4 := set_trace _ s3).
  assert (inv r (mkVR r (hash b2) (hash lb) :: hs) s4) as I4 by by apply inv_emit.
  assert (forall s5, kept nodes byz q r (mkVR r (hash b2) (hash lb) :: hs) s4 s5 ->
    cast r hs s s5 /\ same_conf s s5) as Hend.
  { intros s5 (I5 & Hq5 & Hlk5). split; [|etrans; [exact Hcf2|by destruct (quiet_conf _ _ Hq5)]].
    pose proof (qt_signed _ _ Hq5) as Hsg5.
    destruct (same_tree_dlv s5 s4 p b2 (symmetry (qt_tree _ _ Hq5)) Hd2) as (b5 & Hd5 & Ht5).
    destruct (same_tree_dlv s5 s4 (b_lock s5) lb (symmetry (qt_tree _ _ Hq5))) as (lb5 & Hl5 & Htl5);
      [by rewrite Hlk5|].
    destruct (tree_of_inj _ _ Ht5) as (Hh5 & _). destruct (tree_of_inj _ _ Htl5) as (Hhl5 & _).
    right. exists p, b5, lb5. rewrite Hh5, Hhl5.
    split; [unfold signed in *; cbn in *; congruence|]. done. }
  eapply wp_mono; [apply (on_receive_vote_spec nodes byz q r _ s4 _ I4 Hq)| |].
  - rewrite (i_id _ _ _ _ _ _ I2). split; [done|]. intros _. exists (hash lb). by left.
  - intros ? s5 Hk. apply wp_bind, wp_modify, wp_bind, wp_modify, wp_ret. apply Hend.
    destruct Hk as (I5 & Hq5 & Hlk5). split; [|split; [|done]].
    + eapply (inv_emit _ _ _ _ _ (set_trace _ _)); [|done]. by eapply inv_emit.
    + etrans; [exact Hq5|]. by split.
  - intros e s5 ([-> | ->] & Hk); (split; [unfold propose_error; tauto|by apply Hend]).
Qed.

(** ** Adding an undelivered block and delivering it *)

Lemma add_spec r hs s c : inv r hs s ->
  wp (store_blk (Block_parsed c))
    (fun p s' => inv r hs s' /\ onward s s') (fun _ _ => False) s.
Proof.
  intros I. eapply wp_mono; [apply (store_blk_spec r hs s (Block_parsed c) I); by split_and!| |done].
  intros p s' (I' & G & _). split; [done|by eapply grows_onward].
Qed.

(** A parent that is not delivered makes delivery fail, and the block
    stays undelivered. *)
Lemma on_deliver_missing r hs s p b : inv r hs s -> hp s !! p = Some b ->
  delivered b = false ->
  (exists h, h ∈ parent_hashes (content b) /\ forall x bx, dlv s x bx -> hash bx <> h) ->
  wp (on_deliver_blk p) (fun _ _ => False)
    (fun e s' => e = ENotDelivered /\ inv r hs s' /\
       exists b', hp s' !! p = Some b' /\ hash b' = hash b /\ delivered b' = false) s.
Proof.
  intros I Hb Hn (h & Hin & Hno). pose proof (i_wf _ _ _ _ _ _ I) as W. unfold on_deliver_blk.
  apply wp_bind. eapply wp_deref; [done|]. rewrite Hn.
  apply wp_bind. eapply wp_upd; [done|]. apply wp_bind.
  eapply wp_mono; [by apply (push_parents_spec s W p b Hb Hn)| |].
  - intros ? s' (ps & -> & Hps). apply list_elem_of_lookup in Hin as [i Hi].
    destruct (Forall2_lookup_r _ _ _ _ _ Hps Hi) as (x & _ & bx & Hx & Hbx).
    by destruct (Hno x bx Hx).
  - intros e s' (-> & (ps & ->) & _). split; [done|]. split.
    + by eapply inv_put_undelivered; try done; left.
    + eexists. split; [by eapply put_self|]. done.
Qed.
End Deliver.
