(* ===== verification/PaceMaker.v ===== *)
(** * Pace makers

    [include/hotstuff/liveness.h]: PMHighTail (parent selection), PMWaitQC
    (one proposal per QC) and PMRoundRobinProposer (rotation of proposers).
    The callbacks that the pace makers attach to the promises of HotStuffCore
    are functions here; they run when the core's trace shows the promise
    resolved (EvHqcUpdate, EvPropose, EvReceiveProposal, EvQcFinish). *)

From S2P Require Import Prelude Certs Entity Core Agreement CoreInv CoreSteps CoreGrow CoreOps CoreDeliver.

(** ** PMHighTail *)

Section HighTail.
Context `{BlockHash} `{!CommandType}.
Abbreviation CM := (M HotStuffCore Error).

(** The loop of check_ancestry. *)
Fixpoint walk_down (fuel : nat) (a b : ptr) : CM ptr :=
  match fuel with
  | O => throw ENoFuel
  | S fuel =>
    ab ← deref a; bb ← deref b;
    if height ab <? height bb then p ← index0 (parents bb); walk_down fuel a p else mret b
  end.

Definition check_ancestry (a b : ptr) : CM bool :=
  bb ← deref b;
  r ← walk_down (S (Z.to_nat (height bb))) a b;
  mret (bool_decide (r = a)).

(** The loop of reg_hqc_update over the tails, from the candidate [t]. *)
Fixpoint best_tail (hqc_blk t : ptr) (tls : list ptr) : CM ptr :=
  match tls with
  | [] => mret t
  | tail :: tls =>
    ok ← check_ancestry hqc_blk tail;
    tb ← deref t; lb ← deref tail;
    best_tail hqc_blk (if (ok : bool) && (height tb <? height lb) then tail else t) tls
  end.

(** The callbacks: each returns the new hqc_tail.  [std::set<block_t>]
    iterates in address order; the model uses the order of [elements]. *)
Definition pm_hqc_update : CM ptr :=
  s ← get; h ← from_option ENull (hqc s); best_tail h.1 h.1 (elements (tails s)).

Definition pm_proposal (prop : Proposal) : CM ptr := mret (prop_blk prop).

Definition pm_receive_proposal (prop : Proposal) (hqc_tail : ptr) : CM ptr :=
  s ← get; h ← from_option ENull (hqc s);
  ok ← check_ancestry h.1 (prop_blk prop);
  b ← deref (prop_blk prop); tb ← deref hqc_tail;
  mret (if (ok : bool) && (height tb <? height b) then prop_blk prop else hqc_tail).

(** PMHighTail::init and get_parents *)
Definition pm_init : CM ptr := s ← get; mret (b0 s).
Definition get_parents (hqc_tail : ptr) : list ptr := [hqc_tail].
End HighTail.

Section HighTailProps.
Context `{BlockHash} `{!CommandType} `{!CertSchemeLaws} `{!CollisionFree}.
Variables (nodes byz : gset Z) (q : nat).
Abbreviation hist := (history (B := uint256)).
Abbreviation ancH := (anc parH).
Abbreviation inv := (inv nodes byz q).

(** hqc_tail is a delivered block on the branch of the highest QC. *)
Definition tail_ok (s : HotStuffCore) (t : ptr) : Prop :=
  exists tb ph hq hb, dlv s t tb /\ hqc s = Some (ph, hq) /\ dlv s ph hb /\ ancH (hash hb) (hash tb).

Section At.
Context (s : HotStuffCore) (W : wf s).

Lemma walk_down_spec a ab : dlv s a ab -> forall fuel p b, dlv s p b ->
  (Z.to_nat (height b) < fuel)%nat ->
  wp (walk_down fuel a p)
    (fun r s' => s' = s /\ exists d, dlv s r d /\ ancH (hash d) (hash b) /\ height d <= height ab /\
       (height ab <= height b -> height d = height ab))
    (fun _ _ => False) s.
Proof.
  intros Ha. induction fuel as [|fuel IH]; intros p b Hd Hf; [lia|]. simpl.
  apply wp_bind. eapply wp_deref; [apply Ha|]. apply wp_bind. eapply wp_deref; [apply Hd|].
  wp_step.
  - apply Z.ltb_lt in Heqb0. pose proof (dlv_height_nonneg s W _ _ Ha).
    destruct (decide (p = b0 s)) as [->|Hp].
    { destruct (dlv_b0 s W b) as (_ & ? & _); [apply Hd|]. lia. }
    destruct (dlv_par s W p b Hd Hp) as (p0 & c0 & Hhd & Hd0 & Hpar & Hh & ?).
    apply wp_bind. eapply wp_index0; [done|].
    eapply wp_mono; [apply (IH p0 c0 Hd0); lia| |done].
    intros r s' (-> & d & ? & ? & ? & Hle). split; [done|]. exists d.
    split; [done|]. split; [by eapply rtc_r|]. split; [done|]. intros _. apply Hle. lia.
  - apply Z.ltb_ge in Heqb0. apply wp_ret. split; [done|]. exists b.
    split; [done|]. split; [apply rtc_refl|]. split; [done|lia].
Qed.

(** check_ancestry decides ancestry between delivered blocks. *)
Lemma check_ancestry_spec a b ab bb : dlv s a ab -> dlv s b bb ->
  wp (check_ancestry a b)
    (fun r s' => s' = s /\ (r = true <-> ancH (hash ab) (hash bb)))
    (fun _ _ => False) s.
Proof.
  intros Ha Hb. unfold check_ancestry. apply wp_bind. eapply wp_deref; [apply Hb|]. apply wp_bind.
  eapply wp_mono; [by apply (walk_down_spec a ab Ha _ b bb Hb); lia| |done].
  intros r s' (-> & d & Hd & Had & Hle & Heq). apply wp_ret. split; [done|].
  rewrite bool_decide_eq_true. split.
  - intros ->. by rewrite (dlv_unique s _ _ _ Ha Hd).
  - intros Hanc. pose proof (dlv_hgt s W _ _ Ha) as Hha. pose proof (dlv_hgt s W _ _ Hd) as Hhd.
    destruct (anc_hgt _ _ parH_genesis _ _ _ Hanc (dlv_hgt s W _ _ Hb)) as (m & Hm & Hmle).
    rewrite (hgt_fun _ _ parH_genesis _ _ _ Hm Hha) in Hmle. rewrite (Heq Hmle) in Hhd.
    assert (hash d = hash ab) as Hx.
    { destruct (anc_linear parH _ _ _ Had Hanc) as [H'|H'].
      - by apply (anc_same_hgt _ _ parH_genesis _ _ _ H' Hhd Hha).
      - symmetry. by apply (anc_same_hgt _ _ parH_genesis _ _ _ H' Hha Hhd). }
    by destruct (dlv_ptr s W _ _ _ _ Hd Ha Hx).
Qed.

Lemma best_tail_spec ph hb tls : dlv s ph hb -> (forall t, t ∈ tls -> exists tb, dlv s t tb) ->
  forall t tb, dlv s t tb -> ancH (hash hb) (hash tb) ->
  wp (best_tail ph t tls)
    (fun r s' => s' = s /\ exists rb, dlv s r rb /\ ancH (hash hb) (hash rb) /\ height tb <= height rb /\
       forall x xb, x ∈ tls -> dlv s x xb -> ancH (hash hb) (hash xb) -> height xb <= height rb)
    (fun _ _ => False) s.
Proof.
  intros Hh. induction tls as [|x tls IH]; intros Hin t tb Ht Ha; simpl.
  - apply wp_ret. split; [done|]. exists tb. split; [done|]. split; [done|]. split; [lia|].
    by intros ? ? ?%elem_of_nil.
  - destruct (Hin x) as [xb Hx]; [by left|].
    apply wp_bind. eapply wp_mono; [by apply (check_ancestry_spec ph x hb xb)| |done].
    intros ok s' [-> Hok]. apply wp_bind. eapply wp_deref; [apply Ht|].
    apply wp_bind. eapply wp_deref; [apply Hx|].
    assert (forall y, y ∈ tls -> exists yb, dlv s y yb) as Hin' by (intros; apply Hin; by right).
    assert (forall u ub, dlv s u ub -> ancH (hash hb) (hash ub) -> height tb <= height ub ->
      (ok = true -> height xb <= height ub) ->
      wp (best_tail ph u tls)
        (fun r s' => s' = s /\ exists rb, dlv s r rb /\ ancH (hash hb) (hash rb) /\
           height tb <= height rb /\ forall y yb, y ∈ x :: tls -> dlv s y yb ->
             ancH (hash hb) (hash yb) -> height yb <= height rb) (fun _ _ => False) s) as Hgo.
    { intros u ub Hu Hau Hle Hxu. eapply wp_mono; [by apply (IH Hin' u ub)| |done].
      intros r s' (-> & rb & Hr & Har & Hler & Hall). split; [done|]. exists rb.
      split; [done|]. split; [done|]. split; [lia|].
      intros y yb Hy Hdy Hay. apply elem_of_cons in Hy as [->|Hy]; [|by eapply Hall].
      rewrite (dlv_unique s _ _ _ Hdy Hx) in *. assert (height xb <= height ub); [|lia].
      apply Hxu, Hok, Hay. }
    destruct (ok && (height tb <? height xb)) eqn:Hc.
    + apply andb_true_iff in Hc as [-> Hlt]. apply Z.ltb_lt in Hlt.
      apply (Hgo x xb Hx); [by apply Hok|lia|lia].
    + apply (Hgo t tb Ht Ha); [lia|]. intros ->. simpl in Hc. by apply Z.ltb_ge in Hc.
Qed.
End At.

(** After an update of the highest QC, hqc_tail is the highest of the tails
    that extend it, or the block of the QC itself. *)
Lemma pm_hqc_update_spec r hs s : inv r hs s -> (forall t, t ∈ tails s -> exists tb, dlv s t tb) ->
  wp pm_hqc_update
    (fun t s' => s' = s /\ tail_ok s t /\ exists tb, dlv s t tb /\
       forall x xb ph hq hb, x ∈ tails s -> dlv s x xb -> hqc s = Some (ph, hq) -> dlv s ph hb ->
         ancH (hash hb) (hash xb) -> height xb <= height tb)
    (fun _ _ => False) s.
Proof.
  intros I Ht. unfold pm_hqc_update. apply wp_bind, wp_get.
  destruct (inv_dlv_hqc nodes byz q r hs s I) as (ph & hq & hb & Hq & Hd). rewrite Hq.
  apply wp_bind, wp_ret. simpl.
  eapply wp_mono; [apply (best_tail_spec s (i_wf _ _ _ _ _ _ I) ph hb _ Hd) with (tb := hb)| |done].
  - intros t Hin%elem_of_elements. by apply Ht.
  - done.
  - apply rtc_refl.
  - intros t s' (-> & tb & Htb & Ha & _ & Hall). split; [done|]. split.
    + by exists tb, ph, hq, hb.
    + exists tb. split; [done|]. intros x xb ph' hq' hb' Hx Hdx [= <- <-] Hd' Hax.
      rewrite (dlv_unique s _ _ _ Hd' Hd) in Hax. eapply Hall; [by apply elem_of_elements|done..].
Qed.

Lemma pm_receive_proposal_spec r hs s prop b t : inv r hs s -> dlv s (prop_blk prop) b ->
  tail_ok s t ->
  wp (pm_receive_proposal prop t) (fun t' s' => s' = s /\ tail_ok s t') (fun _ _ => False) s.
Proof.
  intros I Hb Ht. pose proof Ht as (tb & ph & hq & hb & Htb & Hq & Hd & Ha).
  unfold pm_receive_proposal. apply wp_bind, wp_get. rewrite Hq. apply wp_bind, wp_ret. simpl.
  apply wp_bind. eapply wp_mono; [by apply (check_ancestry_spec s (i_wf _ _ _ _ _ _ I) ph _ hb b)| |done].
  intros ok s' [-> Hok]. apply wp_bind. eapply wp_deref; [apply Hb|].
  apply wp_bind. eapply wp_deref; [apply Htb|]. apply wp_ret. split; [done|].
  destruct ok; simpl; [|done]. destruct (_ <? _); [|done].
  exists b, ph, hq, hb. split; [done|]. split; [done|]. split; [done|]. by apply Hok.
Qed.

Lemma pm_init_spec r hs s : inv r hs s -> (forall ph hq, hqc s = Some (ph, hq) -> ph = b0 s) ->
  wp pm_init (fun t s' => s' = s /\ tail_ok s t) (fun _ _ => False) s.
Proof.
  intros I Hg. unfold pm_init. apply wp_bind, wp_get, wp_ret. split; [done|].
  destruct (inv_dlv_hqc nodes byz q r hs s I) as (ph & hq & hb & Hq & Hd).
  pose proof (Hg ph hq Hq) as ->. exists hb, (b0 s), hq, hb.
  split; [done|]. split; [done|]. split; [done|]. apply rtc_refl.
Qed.

(** The parents chosen satisfy what on_propose needs. *)
Lemma get_parents_propose_ok s t : tail_ok s t ->
  (forall tb, dlv s t tb -> height tb + 1 < 2 ^ 32) -> propose_ok s (get_parents t).
Proof.
  intros (tb & ph & hq & hb & Ht & Hq & Hd & Ha) Hlt. split.
  - intros p [->|?%elem_of_nil]%elem_of_cons; [by exists tb|done].
  - exists t, tb, ph, hq, hb. split; [done|]. split; [done|]. split; [by apply Hlt|]. done.
Qed.
End HighTailProps.
