(* ===== verification/Proposer.v ===== *)
(** * Proposer scheduling

    PMWaitQC and PMRoundRobinProposer of [include/hotstuff/liveness.h], run
    over the state of HotStuffCore.  A promise handed out by beat() is a
    number; resolving it appends to [resolved], newest first. *)

From Stdlib Require Import Sorting.Sorted.
From stdpp Require Import sorting.
From S2P Require Import Prelude Certs Entity Core.

(** ** PMWaitQC *)

Section WaitQC.
Context `{BlockHash} `{!CommandType}.

Record PMWaitQC := mkWaitQC {
  pending_beats : list nat;            (* front first *)
  last_proposed : option ptr;
  locked : bool;
  pm_qc_finish : option (ptr * nat);   (* the block waited for, the beat *)
  next_beat : nat;
  resolved : list (nat * ReplicaID);
}.

Abbreviation WM := (M (HotStuffCore * PMWaitQC) Error).

Definition lift {A} (m : M HotStuffCore Error A) : WM A := fun st =>
  match m st.1 with
  | (inl a, s) => (inl a, (s, st.2))
  | (inr e, s) => (inr e, (s, st.2))
  end.
Definition pm_modify (f : PMWaitQC -> PMWaitQC) : WM unit := modify (fun st => (st.1, f st.2)).

(** get_proposer: the replica itself, or the fixed proposer of
    PaceMakerDummyFixed. *)
Definition get_proposer (fixed : option ReplicaID) (s : HotStuffCore) : ReplicaID :=
  match fixed with Some p => p | None => id s end.

Definition set_finish (x : option (ptr * nat)) (p : PMWaitQC) : PMWaitQC :=
  mkWaitQC (pending_beats p) (last_proposed p) (locked p) x (next_beat p) (resolved p).

Definition resolve (fixed : option ReplicaID) (pm : nat) : WM unit :=
  modify (fun st => (st.1,
    let p := st.2 in
    mkWaitQC (pending_beats p) (last_proposed p) (locked p) (pm_qc_finish p) (next_beat p)
      ((pm, get_proposer fixed st.1) :: resolved p))).

Definition schedule_next (fixed : option ReplicaID) : WM unit :=
  st ← get;
  match pending_beats st.2 with
  | pm :: rest =>
    if locked st.2 then mret tt else
    _ ← pm_modify (fun p => mkWaitQC rest (last_proposed p) (locked p) None (next_beat p) (resolved p));
    lp ← from_option ENull (last_proposed st.2);
    done ← lift (async_qc_finish lp);
    _ ← (if done : bool then resolve fixed pm else pm_modify (set_finish (Some (lp, pm))));
    pm_modify (fun p => mkWaitQC (pending_beats p) (last_proposed p) true (pm_qc_finish p)
                          (next_beat p) (resolved p))
  | [] => mret tt
  end.

(** The callback of update_last_proposed. *)
Definition on_own_proposal (fixed : option ReplicaID) (blk : ptr) : WM unit :=
  _ ← pm_modify (fun p => mkWaitQC (pending_beats p) (Some blk) false (pm_qc_finish p)
                            (next_beat p) (resolved p));
  schedule_next fixed.

(** The callback of schedule_next, when the QC of [blk] arrives. *)
Definition on_qc (fixed : option ReplicaID) (blk : ptr) : WM unit :=
  st ← get;
  match pm_qc_finish st.2 with
  | Some (b, pm) =>
    if decide (b = blk) then _ ← pm_modify (set_finish None); resolve fixed pm else mret tt
  | None => mret tt
  end.

(** PMWaitQC::init *)
Definition waitqc_init (s : HotStuffCore) : PMWaitQC := mkWaitQC [] (Some (b0 s)) false None 0 [].

Definition get_pending_size (p : PMWaitQC) : nat := length (pending_beats p).

Definition beat (fixed : option ReplicaID) : WM nat :=
  st ← get;
  let pm := next_beat st.2 in
  _ ← pm_modify (fun p => mkWaitQC (pending_beats p ++ [pm]) (last_proposed p) (locked p)
                            (pm_qc_finish p) (S pm) (resolved p));
  _ ← schedule_next fixed;
  mret pm.

(** beat_resp: the promise is already resolved with the result. *)
Definition beat_resp (fixed : option ReplicaID) (last_proposer : ReplicaID) : ReplicaID :=
  match fixed with Some p => p | None => last_proposer end.

(** Events of a pace maker; HotStuffCore moves arbitrarily in between. *)
Inductive WInput := WBeat | WQc (blk : ptr) | WPropose (blk : ptr).

Definition wexec (fixed : option ReplicaID) (i : WInput) : WM unit :=
  match i with
  | WBeat => _ ← beat fixed; mret tt
  | WQc blk => on_qc fixed blk
  | WPropose blk => on_own_proposal fixed blk
  end.

Inductive wstep (fixed : option ReplicaID) : PMWaitQC -> PMWaitQC -> Prop :=
  | wstep_input s p i : wstep fixed p (wexec fixed i (s, p)).2.2.

(** The beats in the order they are served: resolved, waited for, queued. *)
Definition served (p : PMWaitQC) : list nat :=
  reverse (resolved p).*1 ++
  match pm_qc_finish p with Some (_, pm) => [pm] | None => [] end ++ pending_beats p.

(** Served in increasing order, below the next number; and nothing is queued
    while the pace maker is free. *)
Record waitqc_ok (p : PMWaitQC) : Prop := {
  wo_sorted : StronglySorted lt (served p);
  wo_below : Forall (fun n => (n < next_beat p)%nat) (served p);
  wo_free : locked p = false -> pending_beats p = [];
}.

Definition waitqc_ok' (p : PMWaitQC) : Prop :=
  StronglySorted lt (served p) /\ Forall (fun n => (n < next_beat p)%nat) (served p).

Lemma sorted_sublist (l1 l2 : list nat) : sublist l1 l2 -> StronglySorted lt l2 -> StronglySorted lt l1.
Proof.
  induction 1 as [|x l1 l2 Hs IH|x l1 l2 Hs IH]; intros Hsort; [done|..].
  - inversion Hsort as [|? ? Hs2 Hf]; subst. constructor; [by apply IH|].
    apply Forall_forall. intros y Hy. rewrite Forall_forall in Hf. apply Hf.
    by eapply sublist_submseteq, elem_of_submseteq in Hs.
  - inversion Hsort; subst. by apply IH.
Qed.

Lemma served_sublist p p' : sublist (served p') (served p) -> next_beat p' = next_beat p ->
  waitqc_ok' p -> waitqc_ok' p'.
Proof.
  intros Hs Hn [Hsort Hb]. split; [by eapply sorted_sublist|]. rewrite Hn.
  apply Forall_forall. intros y Hy. rewrite Forall_forall in Hb. apply Hb.
  by eapply sublist_submseteq, elem_of_submseteq in Hs.
Qed.

Definition ok_post (st : HotStuffCore * PMWaitQC) : Prop := waitqc_ok' st.2.

Lemma schedule_next_spec fixed st : waitqc_ok' st.2 ->
  wp (schedule_next fixed)
    (fun _ st' => waitqc_ok st'.2) (fun _ st' => waitqc_ok' st'.2) st.
Proof.
  destruct st as [s p]. simpl. intros Hok. unfold schedule_next. apply wp_bind, wp_get. simpl.
  destruct (pending_beats p) as [|pm rest] eqn:Hp.
  { apply wp_ret. destruct Hok. by split. }
  destruct (locked p) eqn:Hl; [apply wp_ret; destruct Hok; split; simpl; congruence|].
  set (p1 := mkWaitQC rest (last_proposed p) (locked p) None (next_beat p) (resolved p)).
  assert (waitqc_ok' p1) as Hok1.
  { apply (served_sublist p); [|done|exact Hok]. unfold served. simpl. rewrite Hp.
    apply sublist_app; [done|]. destruct (pm_qc_finish p) as [[? ?]|]; simpl; by repeat constructor. }
  assert (sublist (reverse (resolved p).*1 ++ pm :: rest) (served p)) as Hsub.
  { unfold served. rewrite Hp. apply sublist_app; [done|].
    destruct (pm_qc_finish p) as [[? ?]|]; simpl; by repeat constructor. }
  apply wp_bind, wp_modify. cbn [fst snd]. rewrite Hl. apply wp_bind, wp_from_option; [|done].
  intros lp _. apply wp_bind. unfold wp at 1, lift. cbn [fst snd].
  destruct (async_qc_finish lp s) as [[d|e] s1]; [|done]. apply wp_bind.
  assert (forall p', served p' = reverse (resolved p).*1 ++ pm :: rest -> next_beat p' = next_beat p ->
    locked p' = true -> waitqc_ok p') as Hend.
  { intros p' Hs Hn Hlk. destruct (served_sublist p p') as [Hs1 Hb1]; [by rewrite Hs|done|done|].
    split; [done|done|congruence]. }
  destruct d; cbn; apply Hend; try done; unfold served; simpl.
  rewrite reverse_cons, <- (assoc_L (++)). done.
Qed.

Lemma waitqc_ok_weaken p : waitqc_ok p -> waitqc_ok' p.
Proof. intros []. by split. Qed.

(** Every event keeps the order. *)
Lemma wexec_spec fixed i s p : waitqc_ok' p ->
  wp (wexec fixed i) (fun _ st' => waitqc_ok' st'.2) (fun _ st' => waitqc_ok' st'.2) (s, p).
Proof.
  intros Hok. destruct i as [|blk|blk]; simpl.
  - unfold beat. apply wp_bind, wp_bind, wp_get, wp_bind, wp_modify, wp_bind.
    eapply wp_mono; [apply schedule_next_spec| |done].
    + simpl. destruct Hok as [Hs Hb].
      set (p' := mkWaitQC _ _ _ _ _ _).
      assert (served p' = served p ++ [next_beat p]) as Heq
        by (unfold served; simpl; by rewrite !(assoc_L (++))).
      split; rewrite Heq.
      * apply StronglySorted_app_2; [|done|by repeat constructor].
        intros x y Hx ->%list_elem_of_singleton. rewrite Forall_forall in Hb. by apply Hb.
      * apply Forall_app. split; [|by repeat constructor].
        eapply Forall_impl; [exact Hb|]. simpl. lia.
    + intros ? st' Hok'. apply wp_ret, wp_ret. by apply waitqc_ok_weaken.
  - unfold on_qc. apply wp_bind, wp_get. simpl. destruct (pm_qc_finish p) as [[b pm]|] eqn:Hf; [|by apply wp_ret].
    case_decide; [|by apply wp_ret]. apply wp_bind, wp_modify, wp_modify. simpl.
    eapply (served_sublist p); [|done|done]. unfold served. simpl. rewrite Hf, reverse_cons, <- (assoc_L (++)). done.
  - unfold on_own_proposal. apply wp_bind, wp_modify.
    eapply wp_mono; [apply schedule_next_spec; exact Hok| |done].
    intros ? st' Hok'. by apply waitqc_ok_weaken.
Qed.

Lemma wstep_ok fixed p p' : wstep fixed p p' -> waitqc_ok' p -> waitqc_ok' p'.
Proof.
  intros [s p0 i] Hok. pose proof (wexec_spec fixed i s p0 Hok) as Hwp. unfold wp in Hwp.
  destruct (wexec fixed i (s, p0)) as [[?|?] [s' p1]]; apply Hwp.
Qed.

(** ** Property *)

(** C28. PMWaitQC serves the beats in the order of the calls to beat(), each at
    most once, whatever proposals and QCs arrive in between and however
    HotStuffCore moves. *)
Theorem beats_in_order fixed s p : rtc (wstep fixed) (waitqc_init s) p ->
  StronglySorted lt (reverse (resolved p).*1).
Proof.
  intros Hr. assert (waitqc_ok' p) as [Hs _].
  { revert p Hr. apply (rtc_ind_r (fun p => waitqc_ok' p)).
    - split; by repeat constructor.
    - intros y z _ Hyz. by apply (wstep_ok fixed). }
  eapply sorted_sublist; [|exact Hs]. unfold served. apply sublist_inserts_r. done.
Qed.
End WaitQC.
