(* ===== verification/RoundRobin.v ===== *)
(** * Rotation of proposers

    PMRoundRobinProposer and PaceMakerRR of [include/hotstuff/liveness.h].
    The object's state is split in two: the queue of beats, which has the
    fields of PMWaitQC, and the rotation.  A timer is the callback it is
    armed with; [exp_timeout] counts the doublings of [base_timeout]. *)

From S2P Require Import Prelude Certs Entity Core PaceMaker Proposer.

Section RoundRobin.
Context `{BlockHash} `{!CommandType}.

Inductive Timer :=
  | TExp (doublings : nat)   (* on_exp_timeout, after the exponential timeout *)
  | TRotate.                 (* rotate, after prop_delay *)

Record Rotation := mkRotation {
  exp_timeout : nat;
  timer : option Timer;
  rr_proposer : ReplicaID;
  prop_blks : gmap Z ptr;    (* prop_blk; no entry is a null entry *)
  rotating : bool;
  regs : nat;                (* callbacks of reg_proposal waiting *)
  recv_regs : nat;           (* callbacks of reg_receive_proposal waiting *)
  pm_wait_propose : bool;    (* proposer_update_last_proposed is registered *)
  pm_qc_manual : option (ptr * nat);  (* the block waited for, 3 - x *)
  hqc_tail : ptr;            (* of PMHighTail *)
  reproposals : nat;         (* closures given to async_call *)
}.

Abbreviation RState := (HotStuffCore * (PMWaitQC * Rotation))%type.
Abbreviation RM := (M RState Error).

Definition liftc {A} (m : M HotStuffCore Error A) : RM A := fun st =>
  match m st.1 with
  | (inl a, s) => (inl a, (s, st.2))
  | (inr e, s) => (inr e, (s, st.2))
  end.
Definition beats_modify (f : PMWaitQC -> PMWaitQC) : RM unit :=
  modify (fun st => (st.1, (f st.2.1, st.2.2))).
Definition rot_modify (f : Rotation -> Rotation) : RM unit :=
  modify (fun st => (st.1, (st.2.1, f st.2.2))).

Definition set_timer (t : option Timer) (r : Rotation) : Rotation :=
  mkRotation (exp_timeout r) t (rr_proposer r) (prop_blks r) (rotating r) (regs r) (recv_regs r)
    (pm_wait_propose r) (pm_qc_manual r) (hqc_tail r) (reproposals r).
Definition set_prop_blks (m : gmap Z ptr) (r : Rotation) : Rotation :=
  mkRotation (exp_timeout r) (timer r) (rr_proposer r) m (rotating r) (regs r) (recv_regs r)
    (pm_wait_propose r) (pm_qc_manual r) (hqc_tail r) (reproposals r).
Definition set_regs (n m : nat) (r : Rotation) : Rotation :=
  mkRotation (exp_timeout r) (timer r) (rr_proposer r) (prop_blks r) (rotating r) n m
    (pm_wait_propose r) (pm_qc_manual r) (hqc_tail r) (reproposals r).
Definition set_wait (b : bool) (r : Rotation) : Rotation :=
  mkRotation (exp_timeout r) (timer r) (rr_proposer r) (prop_blks r) (rotating r) (regs r) (recv_regs r)
    b (pm_qc_manual r) (hqc_tail r) (reproposals r).
Definition set_manual (x : option (ptr * nat)) (r : Rotation) : Rotation :=
  mkRotation (exp_timeout r) (timer r) (rr_proposer r) (prop_blks r) (rotating r) (regs r) (recv_regs r)
    (pm_wait_propose r) x (hqc_tail r) (reproposals r).
Definition set_exp_timeout (n : nat) (r : Rotation) : Rotation :=
  mkRotation n (timer r) (rr_proposer r) (prop_blks r) (rotating r) (regs r) (recv_regs r)
    (pm_wait_propose r) (pm_qc_manual r) (hqc_tail r) (reproposals r).
Definition set_rotating (b : bool) (r : Rotation) : Rotation :=
  mkRotation (exp_timeout r) (timer r) (rr_proposer r) (prop_blks r) b (regs r) (recv_regs r)
    (pm_wait_propose r) (pm_qc_manual r) (hqc_tail r) (reproposals r).
Definition set_proposer (p : ReplicaID) (r : Rotation) : Rotation :=
  mkRotation (exp_timeout r) (timer r) p (prop_blks r) (rotating r) (regs r) (recv_regs r)
    (pm_wait_propose r) (pm_qc_manual r) (hqc_tail r) (reproposals r).
Definition set_reproposals (n : nat) (r : Rotation) : Rotation :=
  mkRotation (exp_timeout r) (timer r) (rr_proposer r) (prop_blks r) (rotating r) (regs r) (recv_regs r)
    (pm_wait_propose r) (pm_qc_manual r) (hqc_tail r) n.

(** pblk = prop_blk[rid]; if it is null, the block of the proposal. *)
Definition note_proposal (rid : ReplicaID) (blk : ptr) (r : Rotation) : Rotation :=
  match prop_blks r !! rid with
  | Some _ => r
  | None => set_prop_blks (<[rid := blk]> (prop_blks r)) r
  end.

(** The callbacks of reg_proposal and reg_receive_proposal: all of those
    registered run, and register again while rotating. *)
Definition rr_reg_proposal (rid : ReplicaID) (blk : ptr) (r : Rotation) : Rotation :=
  match regs r with
  | O => r
  | n => let r := note_proposal rid blk r in
         set_regs (if rotating r then n else O) (recv_regs r) r
  end.
Definition rr_reg_receive_proposal (rid : ReplicaID) (blk : ptr) (r : Rotation) : Rotation :=
  match recv_regs r with
  | O => r
  | n => let r := note_proposal rid blk r in
         set_regs (regs r) (if rotating r then n else O) r
  end.

Definition proposer_schedule_next : RM unit :=
  st ← get;
  match pending_beats st.2.1 with
  | pm :: rest =>
    if locked st.2.1 then mret tt else
    _ ← beats_modify (fun p => mkWaitQC rest (last_proposed p) (locked p) None (next_beat p) (resolved p));
    lp ← from_option ENull (last_proposed st.2.1);
    done ← liftc (async_qc_finish lp);
    _ ← (if done : bool
         then beats_modify (fun p => mkWaitQC (pending_beats p) (last_proposed p) (locked p) (pm_qc_finish p)
                (next_beat p) ((pm, rr_proposer st.2.2) :: resolved p))
         else beats_modify (set_finish (Some (lp, pm))));
    beats_modify (fun p => mkWaitQC (pending_beats p) (last_proposed p) true (pm_qc_finish p)
                             (next_beat p) (resolved p))
  | [] => mret tt
  end.

(** The callback of proposer_update_last_proposed; it registers again. *)
Definition proposer_update_last_proposed (blk : ptr) : RM unit :=
  st ← get;
  if pm_wait_propose st.2.2 then
    _ ← beats_modify (fun p => mkWaitQC (pending_beats p) (Some blk) false (pm_qc_finish p)
                                 (next_beat p) (resolved p));
    proposer_schedule_next
  else mret tt.

(** do_new_consensus(x, cmds) with [n] = 3 - x (HOTSTUFF_TWO_STEP not
    defined): the continuation of x = 3 returns. *)
Fixpoint do_new_consensus (n : nat) (cs : list uint256) : RM ptr :=
  st ← get;
  blk ← liftc (on_propose cs (get_parents (hqc_tail st.2.2)) []);
  _ ← rot_modify (set_manual None);
  done ← liftc (async_qc_finish blk);
  if done : bool then
    match n with O => mret blk | S n => do_new_consensus n [] end
  else _ ← rot_modify (set_manual (Some (blk, n))); mret blk.

(** The continuation of pm_qc_manual when the QC of [blk] arrives. *)
Definition on_manual_qc (blk : ptr) : RM unit :=
  st ← get;
  match pm_qc_manual st.2.2 with
  | Some (b, n) =>
    if decide (b = blk) then
      _ ← rot_modify (set_manual None);
      match n with O => mret tt | S n => _ ← do_new_consensus n []; mret tt end
    else mret tt
  | None => mret tt
  end.

Definition on_exp_timeout : RM unit :=
  st ← get;
  _ ← (if rr_proposer st.2.2 =? id st.1 then _ ← do_new_consensus 3 []; mret tt else mret tt);
  rot_modify (set_timer (Some TRotate)).

(** The three reject() calls of rotate and stop_rotate. *)
Definition reject_all : RM unit :=
  _ ← beats_modify (set_finish None);
  rot_modify (fun r => set_manual None (set_wait false r)).

Definition rotate : RM unit :=
  _ ← rot_modify (fun r => set_rotating true (set_prop_blks ∅ (set_regs (S (regs r)) (S (recv_regs r)) r)));
  st ← get;
  let n := nreplicas (config st.1) in
  if n =? 0 then throw EOutOfRange else   (* % 0 *)
  _ ← rot_modify (fun r => set_proposer (u16 ((rr_proposer r + 1) mod n)) r);
  _ ← reject_all;
  rot_modify (fun r => set_exp_timeout (S (exp_timeout r)) (set_timer (Some (TExp (exp_timeout r))) r)).

Definition stop_rotate : RM unit :=
  _ ← rot_modify (set_timer None);
  _ ← reject_all;
  _ ← rot_modify (set_rotating false);
  st ← get;
  _ ← beats_modify (fun p => mkWaitQC (pending_beats p) (Some (b0 st.1)) false (pm_qc_finish p)
                               (next_beat p) (resolved p));
  _ ← rot_modify (set_wait true);
  if rr_proposer st.2.2 =? id st.1
  then rot_modify (fun r => set_reproposals (S (reproposals r)) r)
  else mret tt.

(** The closure stop_rotate gives to async_call; [pending] are the keys of
    decision_waiting when it runs. *)
Definition repropose (pending : list uint256) : RM unit :=
  st ← get;
  match reproposals st.2.2 with
  | O => mret tt
  | S n =>
    _ ← rot_modify (set_reproposals n);
    match pending with [] => mret tt | _ => _ ← do_new_consensus 3 pending; mret tt end
  end.

Definition on_consensus (blk : ptr) : RM unit :=
  _ ← rot_modify (fun r => set_exp_timeout O (set_timer None r));
  st ← get;
  if bool_decide (prop_blks st.2.2 !! rr_proposer st.2.2 = Some blk) then stop_rotate else mret tt.

Definition impeach : RM unit :=
  st ← get; if rotating st.2.2 then mret tt else rotate.

(** beat() *)
Definition rr_beat : RM nat :=
  st ← get;
  let pm := next_beat st.2.1 in
  if negb (rotating st.2.2) && (rr_proposer st.2.2 =? id st.1) then
    _ ← beats_modify (fun p => mkWaitQC (pending_beats p ++ [pm]) (last_proposed p) (locked p)
                                 (pm_qc_finish p) (S pm) (resolved p));
    _ ← proposer_schedule_next;
    mret pm
  else
    _ ← beats_modify (fun p => mkWaitQC (pending_beats p) (last_proposed p) (locked p) (pm_qc_finish p)
                                 (S pm) ((pm, rr_proposer st.2.2) :: resolved p));
    mret pm.

(** The constructor and init(), with PMHighTail's. *)
Definition rr_new (tail : ptr) : PMWaitQC * Rotation :=
  (mkWaitQC [] None false None 0 [], mkRotation O None 0 ∅ false O O false None tail O).
Definition rr_init : RM unit := _ ← rot_modify (set_exp_timeout O); stop_rotate.

(** The events of PaceMakerRR.  The core may move in between. *)
Inductive RInput :=
  | RBeat | RImpeach | RTimer
  | RConsensus (blk : ptr)
  | RPropose (blk : ptr)                          (* own proposal *)
  | RReceive (rid : ReplicaID) (blk : ptr)        (* proposal received *)
  | RQc (blk : ptr)                               (* async_qc_finish(blk) resolved *)
  | RRepropose (pending : list uint256)
  | RTail (t : ptr).                              (* PMHighTail moved its tail *)

Definition rr_on_qc (blk : ptr) : RM unit :=
  st ← get;
  _ ← match pm_qc_finish st.2.1 with
      | Some (b, pm) =>
        if decide (b = blk) then
          beats_modify (fun p => mkWaitQC (pending_beats p) (last_proposed p) (locked p) None
                 (next_beat p) ((pm, rr_proposer st.2.2) :: resolved p))
        else mret tt
      | None => mret tt
      end;
  on_manual_qc blk.

Definition on_timer : RM unit :=
  st ← get;
  match timer st.2.2 with
  | None => mret tt
  | Some (TExp _) => on_exp_timeout
  | Some TRotate => rotate
  end.

Definition rexec (i : RInput) : RM unit :=
  match i with
  | RBeat => _ ← rr_beat; mret tt
  | RImpeach => impeach
  | RTimer => on_timer
  | RConsensus blk => on_consensus blk
  | RPropose blk =>
    st ← get;
    _ ← rot_modify (rr_reg_proposal (id st.1) blk);
    proposer_update_last_proposed blk
  | RReceive rid blk => rot_modify (rr_reg_receive_proposal rid blk)
  | RQc blk => rr_on_qc blk
  | RRepropose pending => repropose pending
  | RTail t => rot_modify (fun r => mkRotation (exp_timeout r) (timer r) (rr_proposer r) (prop_blks r)
      (rotating r) (regs r) (recv_regs r) (pm_wait_propose r) (pm_qc_manual r) t (reproposals r))
  end.

(** A step of the pace maker of replica [rid] among [n], on an event [ok]
    accepts; HotStuffCore is in any state of that replica. *)
Inductive rstep (rid n : Z) (ok : RInput -> Prop) : PMWaitQC * Rotation -> PMWaitQC * Rotation -> Prop :=
  | rstep_input s p i : id s = rid -> nreplicas (config s) = n -> ok i ->
      rstep rid n ok p (rexec i (s, p)).2.2.

(** The invariant: a timer runs only while rotating, and beats wait only
    while not rotating. *)
Record rr_ok (n : Z) (p : PMWaitQC * Rotation) : Prop := {
  ro_proposer : 0 <= rr_proposer p.2 < n;
  ro_timer : rotating p.2 = false -> timer p.2 = None;
  ro_beats : rotating p.2 = true -> pm_qc_finish p.1 = None /\ pm_wait_propose p.2 = false;
}.

(** Rotating with no timer, and no proposal from the proposer [q]. *)
Definition stalled (q : Z) (r : Rotation) : Prop :=
  rotating r = true /\ timer r = None /\ rr_proposer r = q /\ prop_blks r !! q = None.

(** Events that do not come from [q]. *)
Definition silent (q : Z) (i : RInput) : Prop :=
  match i with RReceive rid _ => rid <> q | _ => True end.

(** ** Lemmas *)

Lemma wp_liftc {A} (m : M HotStuffCore Error A) (Q : A -> RState -> Prop) X st :
  (forall a s, Q a (s, st.2)) -> (forall e s, X e (s, st.2)) -> wp (liftc m) Q X st.
Proof. intros HQ HX. unfold wp, liftc. destruct (m st.1) as [[a|e] s]; auto. Qed.

(** An invariant of the pace maker's part of the state that [m] keeps. *)
Definition keeps {A} (P : PMWaitQC * Rotation -> Prop) (m : RM A) : Prop :=
  forall st, P st.2 -> wp m (fun _ st' => P st'.2) (fun _ st' => P st'.2) st.

Lemma keeps_step P i st : keeps P (rexec i) -> P st.2 -> P (rexec i st).2.2.
Proof.
  intros Hk Hp. specialize (Hk st Hp). unfold wp in Hk. by destruct (rexec i st) as [[?|?] ?].
Qed.

(** The queue of beats does not touch the rotation. *)
Lemma schedule_rot P st : P st.2.2 ->
  wp proposer_schedule_next (fun _ st' => P st'.2.2) (fun _ st' => P st'.2.2) st.
Proof.
  intros Hp. unfold proposer_schedule_next. apply wp_bind, wp_get.
  destruct (pending_beats st.2.1) as [|pm rest]; [by apply wp_ret|].
  destruct (locked st.2.1); [by apply wp_ret|].
  apply wp_bind, wp_modify, wp_bind, wp_from_option; [intros lp _|done].
  apply wp_bind, wp_liftc; intros d s; [|done]. apply wp_bind. by destruct d; apply wp_modify, wp_modify.
Qed.

Lemma do_new_consensus_keeps P n cs :
  (forall p r x, P (p, r) -> P (p, set_manual x r)) -> keeps P (do_new_consensus n cs).
Proof.
  intros HP. revert cs. induction n as [|n IH]; intros cs [s [p r]] Hp; simpl;
    (apply wp_bind, wp_get, wp_bind, wp_liftc; simpl; [intros blk s'|done]);
    (apply wp_bind, wp_modify, wp_bind, wp_liftc; simpl; [intros d s''|by auto]);
    destruct d; try (apply wp_bind, wp_modify, wp_ret; simpl; auto).
  - apply wp_ret; simpl; auto.
  - apply IH. simpl. auto.
Qed.

(** Executes the straight-line code of a handler in a [wp] goal. *)
Ltac rr_run := repeat (lazymatch goal with
  | |- wp (_ ≫= _) _ _ _ => apply wp_bind
  | |- wp (mret _) _ _ _ => apply wp_ret
  | |- wp get _ _ _ => apply wp_get
  | |- wp (modify _) _ _ _ => apply wp_modify
  | |- wp (beats_modify _) _ _ _ => apply wp_modify
  | |- wp (rot_modify _) _ _ _ => apply wp_modify
  end; cbn beta iota; cbn [fst snd]).
#[local] Arguments proposer_schedule_next : simpl never.
#[local] Arguments do_new_consensus : simpl never.
#[local] Arguments rotate : simpl never.
#[local] Arguments stop_rotate : simpl never.

Lemma rotate_ok n st : nreplicas (config st.1) = n -> 0 < n <= 2 ^ 16 ->
  wp rotate (fun _ st' => st'.1 = st.1 /\ rr_ok n st'.2 /\
               rr_proposer st'.2.2 = (rr_proposer st.2.2 + 1) mod n /\
               timer st'.2.2 = Some (TExp (exp_timeout st.2.2)) /\
               exp_timeout st'.2.2 = S (exp_timeout st.2.2))
    (fun _ _ => False) st.
Proof.
  intros Hn Hb. unfold rotate, reject_all. rr_run. rewrite Hn.
  destruct (Z.eqb_spec n 0); [lia|]. rr_run.
  pose proof (Z.mod_pos_bound (rr_proposer st.2.2 + 1) n) as Hm.
  assert (u16 ((rr_proposer st.2.2 + 1) mod n) = (rr_proposer st.2.2 + 1) mod n) as Hu
    by (apply Z.mod_small; lia).
  simpl. rewrite Hu. split; [done|]. split; [|done].
  split; simpl; [lia|done|done].
Qed.

Lemma stop_rotate_ok n st : rr_ok n st.2 ->
  wp stop_rotate (fun _ st' => rr_ok n st'.2) (fun _ st' => rr_ok n st'.2) st.
Proof.
  intros Hok. unfold stop_rotate, reject_all. rr_run.
  case_match; rr_run; (split; [apply Hok|done|done]).
Qed.

Lemma on_manual_keeps P blk :
  (forall p r x, P (p, r) -> P (p, set_manual x r)) -> keeps P (on_manual_qc blk).
Proof.
  intros HP [s [p r]] Hp. unfold on_manual_qc. rr_run.
  repeat (case_match; try (by rr_run)); rr_run; [by apply HP|].
  eapply wp_mono; [apply do_new_consensus_keeps; [done|by apply HP]| |done]. intros. by rr_run.
Qed.

Lemma repropose_keeps P pending :
  (forall p r x, P (p, r) -> P (p, set_manual x r)) ->
  (forall p r x, P (p, r) -> P (p, set_reproposals x r)) -> keeps P (repropose pending).
Proof.
  intros HP HR [s [p r]] Hp. unfold repropose. rr_run.
  repeat (case_match; try (by rr_run)); rr_run; [by apply HR|].
  eapply wp_mono; [apply do_new_consensus_keeps; [done|by apply HR]| |done]. intros. by rr_run.
Qed.

Lemma do_new_consensus_ok n m cs b :
  keeps (fun p => rr_ok n p /\ rotating p.2 = b) (do_new_consensus m cs).
Proof. apply do_new_consensus_keeps. intros p r x [[] ?]. split; [by split|done]. Qed.

Lemma on_manual_ok n blk : keeps (rr_ok n) (on_manual_qc blk).
Proof. apply on_manual_keeps. intros p r x []. by split. Qed.

Lemma rr_ok_idle n r : 0 <= rr_proposer r < n -> timer r = None -> rotating r = false ->
  forall p, rr_ok n (p, r).
Proof. intros ??? p. split; simpl; [done|done|congruence]. Qed.

Lemma schedule_ok n st : rr_ok n st.2 -> rotating st.2.2 = false ->
  wp proposer_schedule_next (fun _ st' => rr_ok n st'.2) (fun _ st' => rr_ok n st'.2) st.
Proof.
  intros [Hp Ht Hb] Hr.
  eapply (wp_mono _ (fun _ st' => 0 <= rr_proposer st'.2.2 < n /\ timer st'.2.2 = None /\ rotating st'.2.2 = false)
     _ (fun _ st' => 0 <= rr_proposer st'.2.2 < n /\ timer st'.2.2 = None /\ rotating st'.2.2 = false)).
  - apply (schedule_rot (fun r => 0 <= rr_proposer r < n /\ timer r = None /\ rotating r = false)). auto.
  - intros _ [s [p r]] (?&?&?). by apply rr_ok_idle.
  - intros _ [s [p r]] (?&?&?). by apply rr_ok_idle.
Qed.

Lemma note_proposal_ok n p rid blk r : rr_ok n (p, r) -> rr_ok n (p, note_proposal rid blk r).
Proof. intros Hok. unfold note_proposal. case_match; [done|]. destruct Hok. by split. Qed.

(** Every event keeps the invariant. *)
Lemma rexec_ok n i st : nreplicas (config st.1) = n -> 0 < n <= 2 ^ 16 -> rr_ok n st.2 ->
  wp (rexec i) (fun _ st' => rr_ok n st'.2) (fun _ st' => rr_ok n st'.2) st.
Proof.
  intros Hn Hb Hok. assert (wp rotate (fun _ st' => rr_ok n st'.2) (fun _ st' => rr_ok n st'.2) st) as Hrot.
  { eapply wp_mono; [by apply (rotate_ok n)| |done]. simpl. tauto. }
  destruct i as [| | |blk|blk|rid blk|blk|pending|tl]; simpl.
  - unfold rr_beat. apply wp_bind, wp_bind, wp_get. destruct (rotating st.2.2) eqn:Hr; simpl.
    { rr_run. split; [apply Hok|apply Hok|]. simpl. apply Hok. }
    case_match; rr_run; [|split; apply Hok].
    eapply wp_mono; [apply (schedule_ok n)| |done]; [split; apply Hok|done|]. intros ? st' ?. by rr_run.
  - unfold impeach. apply wp_bind, wp_get. case_match; [by apply wp_ret|done].
  - unfold on_timer, on_exp_timeout. apply wp_bind, wp_get.
    destruct (timer st.2.2) as [[k|]|] eqn:Ht; [|done|by apply wp_ret].
    assert (rotating st.2.2 = true) as Hr.
    { destruct (rotating st.2.2) eqn:Hr; [done|]. rewrite (ro_timer _ _ Hok Hr) in Ht. done. }
    assert (forall st' : RState, rr_ok n st'.2 /\ rotating st'.2.2 = true ->
              rr_ok n (st'.2.1, set_timer (Some TRotate) st'.2.2)) as Hset.
    { intros st' [[] ?]. split; simpl; [done|congruence|done]. }
    rr_run. case_match; rr_run; [|by apply Hset].
    eapply wp_mono; [by apply (do_new_consensus_ok n)| |]; [intros ? st' ?; rr_run; by apply Hset|].
    simpl. tauto.
  - unfold on_consensus. rr_run. assert (rr_ok n (st.2.1, set_exp_timeout 0 (set_timer None st.2.2))) as Hok'.
    { split; [apply Hok|done|apply Hok]. }
    case_match; rr_run; [by apply stop_rotate_ok|done].
  - unfold proposer_update_last_proposed. rr_run.
    set (r := rr_reg_proposal _ _ _). assert (rr_ok n (st.2.1, r)) as Hok'.
    { subst r. unfold rr_reg_proposal. case_match; [destruct st as [? [? ?]]; exact Hok|].
      pose proof (note_proposal_ok n st.2.1 (id st.1) blk st.2.2) as Hnote. simpl.
      destruct Hnote; [destruct st as [? [? ?]]; exact Hok|]. by split. }
    case_match; rr_run; [|done]. assert (rotating r = false) as Hr.
    { destruct (rotating r) eqn:Hr; [|done]. destruct (ro_beats _ _ Hok' Hr). simpl in *. congruence. }
    apply schedule_ok; [|done]. split; [apply Hok'|apply Hok'|simpl; congruence].
  - rr_run. unfold rr_reg_receive_proposal. case_match; [destruct st as [? [? ?]]; exact Hok|].
    pose proof (note_proposal_ok n st.2.1 rid blk st.2.2) as Hnote. simpl.
    destruct Hnote; [destruct st as [? [? ?]]; exact Hok|]. by split.
  - unfold rr_on_qc. rr_run.
    apply (wp_mono _ (fun _ st' => rr_ok n st'.2) _ (fun _ _ => False)); [|intros ? st' ?; by apply on_manual_ok|done].
    case_match; [|by rr_run]. case_match. case_match; rr_run; [|done].
    split; [apply Hok|apply Hok|]. intros Hr. by destruct (ro_beats _ _ Hok Hr).
  - apply (repropose_keeps (rr_ok n)); [| |done]; intros p r x []; by split.
  - rr_run. destruct Hok. by split.
Qed.

Lemma rr_init_ok n st : 0 <= rr_proposer st.2.2 < n ->
  wp rr_init (fun _ st' => rr_ok n st'.2) (fun _ st' => rr_ok n st'.2) st.
Proof.
  intros Hp. unfold rr_init, stop_rotate, reject_all. rr_run. case_match; rr_run; by split.
Qed.

Lemma schedule_stalled q st : stalled q st.2.2 ->
  wp proposer_schedule_next (fun _ st' => stalled q st'.2.2) (fun _ st' => stalled q st'.2.2) st.
Proof. intros Hst. by apply schedule_rot. Qed.

Lemma note_proposal_stalled q rid blk r : rid <> q -> stalled q r -> stalled q (note_proposal rid blk r).
Proof.
  intros Hne (Hr & Ht & Hp & Hn). unfold note_proposal. case_match; [by split|].
  repeat split; try done. simpl. by rewrite lookup_insert_ne.
Qed.

(** Once stalled, a pace maker whose proposer is silent stays so. *)
Lemma rexec_stalled q i st : stalled q st.2.2 -> id st.1 <> q -> silent q i ->
  wp (rexec i) (fun _ st' => stalled q st'.2.2) (fun _ st' => stalled q st'.2.2) st.
Proof.
  intros Hst Hid Hsil. pose proof Hst as (Hr & Ht & Hp & Hn).
  assert (forall (p : PMWaitQC) r x, stalled q r -> stalled q (set_manual x r)) as Hman by done.
  destruct i as [| | |blk|blk|rid blk|blk|pending|tl]; simpl.
  - unfold rr_beat. rr_run. rewrite Hr. simpl. by rr_run.
  - unfold impeach. rr_run. rewrite Hr. by rr_run.
  - unfold on_timer. rr_run. rewrite Ht. by rr_run.
  - unfold on_consensus. rr_run. simpl. rewrite Hp, Hn. simpl. by rr_run.
  - unfold proposer_update_last_proposed. rr_run.
    assert (stalled q (rr_reg_proposal (id st.1) blk st.2.2)) as Hst'.
    { unfold rr_reg_proposal. case_match; [done|]. by apply note_proposal_stalled. }
    case_match; rr_run; [|done]. apply (schedule_stalled q). done.
  - rr_run. unfold rr_reg_receive_proposal. case_match; [done|]. by apply note_proposal_stalled.
  - unfold rr_on_qc. rr_run.
    apply (wp_mono _ (fun _ st' => stalled q st'.2.2) _ (fun _ _ => False)); [| |done].
    + repeat (case_match; try by rr_run).
    + intros _ st' Hst'. by apply (on_manual_keeps (fun p => stalled q p.2)).
  - by apply (repropose_keeps (fun p => stalled q p.2)).
  - by rr_run.
Qed.

(** [k] rotations. *)
Fixpoint rotations (k : nat) : RM unit :=
  match k with O => mret tt | S k => _ ← rotate; rotations k end.

Lemma rotations_spec n k st : nreplicas (config st.1) = n -> 0 < n <= 2 ^ 16 ->
  0 <= rr_proposer st.2.2 < n ->
  wp (rotations k) (fun _ st' => rr_proposer st'.2.2 = (rr_proposer st.2.2 + Z.of_nat k) mod n /\
                      exp_timeout st'.2.2 = (k + exp_timeout st.2.2)%nat)
    (fun _ _ => False) st.
Proof.
  intros Hn Hb. revert st Hn. induction k as [|k IH]; intros st Hn Hp.
  { apply wp_ret. rewrite Z.add_0_r, Z.mod_small; [done|lia]. }
  apply wp_bind. eapply wp_mono; [by apply (rotate_ok n)| |done].
  intros _ st' (Hs & Hok & Hp' & _ & He). eapply wp_mono; [apply IH; [by rewrite Hs|apply Hok]| |done].
  intros _ st'' [-> ->]. rewrite Hp', He. split; [|lia].
  rewrite Z.add_mod_idemp_l by lia. f_equal. lia.
Qed.

(** ** Properties *)

(** The round-robin pace maker runs a timer only while it rotates, queues no
    beat while it rotates, and believes in a proposer that exists, whatever
    events arrive and however the core moves between them. *)
Theorem rr_invariant rid n s p p' :
  nreplicas (config s) = n -> 0 < n <= 2 ^ 16 -> 0 <= rr_proposer p.2 < n ->
  rtc (rstep rid n (fun _ => True)) (rr_init (s, p)).2.2 p' -> rr_ok n p'.
Proof.
  intros Hn Hb Hp. apply (rtc_ind_r (fun p' => rr_ok n p')).
  - pose proof (rr_init_ok n (s, p) Hp) as Hi. unfold wp in Hi. by destruct (rr_init (s, p)) as [[?|?] ?].
  - intros p1 p2 _ [s2 p3 i Hid Hc _] Hok. pose proof (rexec_ok n i (s2, p3) Hc Hb Hok) as Hwp.
    unfold wp in Hwp. by destruct (rexec i (s2, p3)) as [[?|?] ?].
Qed.

(** Rotation gives every replica its turn: fewer than [n] rotations bring any
    replica to the proposer's role, and each doubles the timeout once. *)
Theorem rotation_reaches n st r : nreplicas (config st.1) = n -> 0 < n <= 2 ^ 16 ->
  0 <= rr_proposer st.2.2 < n -> 0 <= r < n ->
  exists k, Z.of_nat k < n /\
    wp (rotations k) (fun _ st' => rr_proposer st'.2.2 = r /\
                        exp_timeout st'.2.2 = (k + exp_timeout st.2.2)%nat) (fun _ _ => False) st.
Proof.
  intros Hn Hb Hp Hr. exists (Z.to_nat ((r - rr_proposer st.2.2) mod n)).
  pose proof (Z.mod_pos_bound (r - rr_proposer st.2.2) n) as Hm. split; [lia|].
  eapply wp_mono; [by apply (rotations_spec n)| |done]. intros _ st' [-> ->]. split; [|done].
  rewrite Z2Nat.id, Z.add_mod_idemp_r by lia. rewrite Z.mod_small; lia.
Qed.

(** C29. A block decided during a rotation stops the timer even when the rotation
    goes on: if the new proposer is silent from there on, the replica rotates
    for ever without a timer, and impeachments, beats, QCs and further
    decisions never move it to another proposer. *)
Theorem rotation_stalls rid n s p blk p' : id s = rid ->
  rotating p.2 = true -> prop_blks p.2 !! rr_proposer p.2 = None -> rr_proposer p.2 <> rid ->
  rtc (rstep rid n (silent (rr_proposer p.2))) (rexec (RConsensus blk) (s, p)).2.2 p' ->
  rotating p'.2 = true /\ timer p'.2 = None /\ rr_proposer p'.2 = rr_proposer p.2.
Proof.
  intros Hid Hr Hn Hne Hrtc.
  assert (stalled (rr_proposer p.2) p'.2) as (? & ? & ? & _); [|done].
  revert p' Hrtc. apply (rtc_ind_r (fun p' => stalled (rr_proposer p.2) p'.2)).
  - simpl. unfold on_consensus, mbind, M_bind, rot_modify, modify, get. simpl. rewrite Hn. simpl. done.
  - intros p1 p2 _ [s2 p3 i Hid2 Hc Hsil] Hst.
    pose proof (rexec_stalled (rr_proposer p.2) i (s2, p3) Hst) as Hwp. simpl in Hwp.
    rewrite Hid2 in Hwp. specialize (Hwp (not_eq_sym Hne) Hsil).
    unfold wp in Hwp. by destruct (rexec i (s2, p3)) as [[?|?] ?].
Qed.
End RoundRobin.
