(* ===== verification/CoreInit.v ===== *)
(** * Start-up of a replica

    The constructor of HotStuffCore, the registration of the replicas and
    on_init, in the order HotStuffBase::start ([src/hotstuff.cpp]) runs them,
    and the theorem that they establish the safety invariant with the quorum
    size [n - (n - 1) / 3]. *)

From S2P Require Import Prelude Certs Entity Core Agreement CoreInv CoreSteps CoreOps.

Section Init.
Context `{BlockHash} `{!CommandType}.
(** salticidae::NetAddr, only compared. *)
Context {NetAddr : Type} `{EqDecision NetAddr}.
Abbreviation CM := (M HotStuffCore Error).

(** The loop of HotStuffBase::start over [replicas] from index [i]; it
    returns peers.size().  The index is truncated to a ReplicaID. *)
Fixpoint add_replicas (listen : NetAddr) (i : Z)
    (reps : list (NetAddr * PubKey * PeerId)) : CM Z :=
  match reps with
  | [] => mret 0
  | (addr, pk, peer) :: reps =>
    _ ← add_replica (u16 i) peer pk;
    n ← add_replicas listen (i + 1) reps;
    mret (if decide (addr = listen) then n else n + 1)
  end.

(** The protocol part of HotStuffBase::start. *)
Definition start (listen : NetAddr) (reps : list (NetAddr * PubKey * PeerId)) : CM unit :=
  n ← add_replicas listen 0 reps;
  on_init (u32 (n / 3)).

(** A started replica. *)
Definition started (rid : ReplicaID) (k : PrivKey) (listen : NetAddr)
    (reps : list (NetAddr * PubKey * PeerId)) : HotStuffCore :=
  (start listen reps (HotStuffCore_new rid k)).2.
End Init.

Section InitInv.
Context `{BlockHash} `{!CommandType} `{!CertSchemeLaws} `{!CollisionFree}.
Context {NetAddr : Type} `{EqDecision NetAddr}.

(** The replicas with indices below [n]. *)
Definition node_ids (n : Z) : gset Z := list_to_set (seqZ 0 n).

Lemma node_ids_S n : 0 <= n -> {[n]} ∪ node_ids n = node_ids (n + 1).
Proof.
  intros ?. apply set_eq. intros x. unfold node_ids.
  rewrite elem_of_union, elem_of_singleton, !elem_of_list_to_set, !elem_of_seqZ. lia.
Qed.

Lemma node_ids_size n : 0 <= n -> size (node_ids n) = Z.to_nat n.
Proof.
  intros ?. unfold node_ids. rewrite size_list_to_set by apply NoDup_seqZ.
  by rewrite length_seqZ.
Qed.

Lemma config_add_ids c rid info : config_ids (config_add_replica rid info c) = {[rid]} ∪ config_ids c.
Proof.
  unfold config_ids, config_add_replica. simpl.
  destruct (replica_map c !! rid) eqn:Hr; [|set_solver].
  apply elem_of_dom_2 in Hr. set_solver.
Qed.

(** The state between the constructor and on_init: the genesis block with
    the voters [V] and the configuration [c]. *)
Definition booting (s0 : HotStuffCore) (c : ReplicaConfig) : HotStuffCore :=
  set_config c (set_heap [set_voted (config_ids c) (Block_genesis true 1)] s0).

(** The other replicas: peers.size(). *)
Definition others (listen : NetAddr) (reps : list (NetAddr * PubKey * PeerId)) : Z :=
  Z.of_nat (length (filter (fun x => x.1.1 <> listen) reps)).

Lemma add_replicas_spec s0 listen reps : b0 s0 = 0%nat ->
  forall i c, 0 <= i -> i + Z.of_nat (length reps) <= 2 ^ 16 ->
  config_ids c = node_ids i -> nreplicas c = i ->
  wp (add_replicas listen i reps)
    (fun n s' => n = others listen reps /\ exists c', s' = booting s0 c' /\
       config_ids c' = node_ids (i + Z.of_nat (length reps)) /\
       nreplicas c' = i + Z.of_nat (length reps))
    (fun _ _ => False) (booting s0 c).
Proof.
  intros Hb0. induction reps as [|[[a pk] peer] reps IH]; intros i c Hi Hlen Hc Hn.
  - apply wp_ret. split; [done|]. exists c. rewrite Z.add_0_r. done.
  - cbn [add_replicas]. cbn [length] in *. apply wp_bind. unfold add_replica.
    apply wp_bind, wp_modify, wp_bind, wp_get. simpl. rewrite Hb0. apply wp_modify. simpl.
    assert (u16 i = i) as -> by (unfold u16; apply Z.mod_small; lia).
    set (c1 := config_add_replica i _ c).
    assert (config_ids c1 = {[i]} ∪ config_ids c) as Hc1 by apply config_add_ids.
    match goal with |- wp _ _ _ ?st => assert (st = booting s0 c1) as -> end.
    { unfold booting. simpl. rewrite Hc1. done. }
    apply wp_bind. eapply wp_mono; [apply (IH (i + 1) c1)| |done].
    + lia.
    + lia.
    + by rewrite Hc1, Hc, node_ids_S.
    + unfold c1, config_add_replica. simpl. rewrite Hn. apply u64_small. lia.
    + intros n s' (-> & c' & -> & Hi' & Hn'). apply wp_ret. split.
      * unfold others. rewrite filter_cons. simpl. repeat case_decide; simpl; try done; lia.
      * exists c'. split; [done|]. rewrite Hi', Hn'. split; [f_equal|]; lia.
Qed.

(** The state after on_init. *)
Definition ready (rid : ReplicaID) (k : PrivKey) (c : ReplicaConfig) : HotStuffCore :=
  let qc0 := compute (create_quorum_cert c genesis_hash) in
  let g := Block_genesis true 1 in
  mkCore [set_qc_ref (Some 0%nat) (set_self_qc (Some qc0)
            (set_qc (Some qc0) (set_voted (config_ids c) g)))]
    0 (Some (0%nat, qc0)) 0 0 0 k {[0%nat]} c ∅ false rid
    (mkStorage {[genesis_hash := 0%nat]} ∅) [].

(** The quorum size of [n] replicas. *)
Definition quorum (n : Z) : Z := n - (n - 1) / 3.

Lemma started_ready rid k listen reps : let n := Z.of_nat (length reps) in
  0 < n <= 2 ^ 16 -> others listen reps = n - 1 ->
  exists c, started rid k listen reps = ready rid k c /\
    nmajority c = quorum n /\ config_ids c = node_ids n.
Proof.
  intros n Hn Ho. unfold started.
  assert (0 <= (n - 1) / 3 <= n - 1)
    by (split; [apply Z.div_pos; lia|apply Z.div_le_upper_bound; lia]).
  assert (wp (start listen reps) (fun _ s' => exists c, s' = ready rid k c /\
    nmajority c = quorum n /\ config_ids c = node_ids n) (fun _ _ => False)
    (HotStuffCore_new rid k)) as Hwp.
  { unfold start. apply wp_bind.
    assert (config_ids ReplicaConfig_new = ∅) as Hid0 by apply dom_empty_L.
    assert (HotStuffCore_new rid k = booting (HotStuffCore_new rid k) ReplicaConfig_new) as Heq
      by (unfold booting; by rewrite Hid0).
    rewrite Heq.
    eapply wp_mono; [apply (add_replicas_spec (HotStuffCore_new rid k) listen reps)| |done]; try done.
    { lia. }
    intros m s' (-> & c & -> & Hids & Hnr). rewrite Ho.
      rewrite Z.add_0_l in Hids, Hnr. fold n in Hids, Hnr.
      unfold on_init. apply wp_bind, wp_modify, wp_bind, wp_get, wp_bind.
      eapply wp_deref; [done|]. apply wp_bind, wp_modify, wp_modify.
      eexists (mkReplicaConfig (replica_map c) (nreplicas c) _). split; [|split].
      + reflexivity.
      + simpl. rewrite Hnr. unfold quorum. rewrite u32_small by lia. apply u64_small. lia.
      + done. }
  unfold wp in Hwp. by destruct (start listen reps (HotStuffCore_new rid k)) as [[[]|e] s'].
Qed.

Lemma ready_inv rid k c nodes byz q : nmajority c = Z.of_nat q -> config_ids c = nodes ->
  inv nodes byz q rid [] (ready rid k c).
Proof.
  intros Hq Hids. set (s := ready rid k c).
  set (qc0 := compute (create_quorum_cert c genesis_hash)).
  assert (qc_obj_hash qc0 = genesis_hash) as Hqc
    by (unfold qc0; by rewrite compute_obj, create_quorum_cert_obj).
  set (g := set_qc_ref (Some 0%nat) (set_self_qc (Some qc0)
            (set_qc (Some qc0) (set_voted (config_ids c) (Block_genesis true 1))))).
  assert (forall p b, hp s !! p = Some b -> p = 0%nat /\ b = g) as Hl.
  { intros [|p] b Hb; simpl in Hb; [|done]. injection Hb as <-. done. }
  assert (dlv s 0%nat g) as Hg by done.
  assert (certified genesis_hash nodes byz q [] genesis_hash) as Hc by by left.
  assert (forall b, dlv s 0%nat b -> b = g) as Hu by (intros b [[_ ->]%Hl _]; done).
  split; simpl; try done.
  - split.
    + intros h p. simpl. rewrite lookup_singleton. split.
      * case_decide; [|done]. intros [= <-]. exists g. done.
      * intros (b & [-> ->]%Hl & <-). by rewrite decide_True.
    + intros p b [-> ->]%Hl. done.
    + exists g. simpl. repeat (split; [done|]). by exists qc0.
    + intros p b [[-> ->]%Hl _]. done.
  - intros p b j [[-> ->]%Hl _]. unfold jstH. rewrite decide_True by done. by intros [= <-].
  - exists g. done.
  - exists 0%nat, qc0, g. done.
  - by left.
  - intros b [l Hl']. by apply elem_of_nil in Hl'.
  - intros b j1 j2 lb m [l Hl']. by apply elem_of_nil in Hl'.
  - intros p b v [-> ->]%Hl. done.
  - intros b [_ ->]%(Hl 0%nat). by rewrite <- Hids.
  - intros p b c' [-> ->]%Hl. by intros [= <-].
  - exists g. done.
  - intros eb lb ->%Hu ->%Hu. done.
  - by left.
  - intros p b eb [-> ->]%Hl ->%Hu. split; [|done]. intros _. split; [done|apply rtc_refl].
  - intros f Hf. by apply elem_of_nil in Hf.
Qed.
End InitInv.
