(* ===== verification/Network.v ===== *)
(** * The replicated system

    A step relation over the honest replicas: each step hands one input to
    one replica, whose code runs to completion (the event loop of
    HotStuffBase runs one callback at a time).  Byzantine replicas appear
    only through the inputs: any block, proposal or vote may be injected,
    subject to the checks HotStuffBase makes before it calls the core
    (async_deliver_blk, vote_handler) and to signatures being unforgeable.
    The ghost history records the votes of honest replicas. *)

From S2P Require Import Prelude Certs Entity Core Agreement CoreInv CoreSteps CoreGrow CoreOps CoreDeliver CoreInit.

Section Network.
Context `{BlockHash} `{!CommandType} `{!CertSchemeLaws} `{!CollisionFree}.
Context {NetAddr : Type} `{EqDecision NetAddr}.
Abbreviation hist := (history (B := uint256)).
Abbreviation ancH := (anc parH).

(** Calls from the base layer and the pace maker into the core. *)
Inductive Input :=
  | InBlock (c : Content)              (* a block was fetched or parsed *)
  | InDeliver (p : ptr)                (* on_deliver_blk *)
  | InProposal (prop : Proposal)       (* on_receive_proposal *)
  | InVote (v : Vote)                  (* on_receive_vote *)
  | InPropose (cs : list uint256) (ps : list ptr) (ex : list Z). (* on_propose *)

Definition exec (i : Input) : M HotStuffCore Error unit :=
  match i with
  | InBlock c => _ ← store_blk (Block_parsed c); mret tt
  | InDeliver p => _ ← on_deliver_blk p; mret tt
  | InProposal prop => on_receive_proposal prop
  | InVote v => on_receive_vote v
  | InPropose cs ps ex => _ ← on_propose cs ps ex; mret tt
  end.

Variables (byz : gset Z) (n : Z).
Abbreviation nodes := (node_ids n).
Abbreviation q := (Z.to_nat (quorum n)).
Abbreviation invN := (inv nodes byz q).
Abbreviation certN := (certified genesis_hash nodes byz q).
Abbreviation validN := (valid genesis_hash parH jstH nodes byz q).

(** Signatures of honest replicas exist only for digests they voted for. *)
Definition qc_unforged (hs : hist) (c : ReplicaConfig) (qc : quorum_cert) : Prop :=
  forall rid, rid ∉ byz -> qc_carries c qc rid -> voted_for hs rid (qc_obj_hash qc).

Definition vote_unforged (hs : hist) (c : ReplicaConfig) (v : Vote) : Prop :=
  forall pk, voter v ∉ byz -> get_pubkey c (voter v) = Some pk ->
    pc_verify (vote_cert v) pk = true -> voted_for hs (voter v) (pc_obj_hash (vote_cert v)).

(** What async_deliver_blk has established when it calls on_deliver_blk:
    the block verifies, its parents are delivered and the block its QC
    refers to has been fetched. *)
Record checked (hs : hist) (s : HotStuffCore) (b : Block) : Prop := {
  ck_valid : forall qc', qc (content b) = Some qc' -> qc_valid qc';
  ck_verify : block_verify (config s) genesis_hash b = Some true;
  ck_unforged : forall qc', qc (content b) = Some qc' -> qc_unforged hs (config s) qc';
  ck_parents : forall h, h ∈ parent_hashes (content b) -> exists x bx, dlv s x bx /\ hash bx = h;
  ck_fetched : forall qc', qc (content b) = Some qc' ->
    is_blk_fetched (storage s) (qc_obj_hash qc') = true;
}.

(** What the protocol needs besides and the code does not check: there is
    a parent, below the height limit, and the QC is for a delivered block
    on the branch of that parent. *)
Definition well_linked (s : HotStuffCore) (b : Block) : Prop :=
  exists x0 c0 x1 rb qq,
    head (parent_hashes (content b)) = Some (hash c0) /\ dlv s x0 c0 /\
    height c0 + 1 < 2 ^ 32 /\ qc (content b) = Some qq /\ qc_obj_hash qq = hash rb /\
    dlv s x1 rb /\ ancH (hash rb) (hash c0).

(** Inputs that pass the checks of the code; [linked] adds the condition
    on QCs. *)
Definition admissible (linked : bool) (hs : hist) (s : HotStuffCore) (i : Input) : Prop :=
  match i with
  | InBlock _ => True
  | InDeliver p => exists b, hp s !! p = Some b /\ (delivered b = false ->
      checked hs s b /\ (linked = true -> well_linked s b))
  | InProposal prop => is_Some (hp s !! prop_blk prop)
  | InVote v => vote_verify (config s) v = Some true /\ vote_unforged hs (config s) v
  | InPropose _ ps _ => propose_ok s ps
  end.

Record Net := mkNet { reps : gmap Z HotStuffCore; nhist : hist }.

Definition lock_hash (s : HotStuffCore) : uint256 :=
  match hp s !! b_lock s with Some b => hash b | None => genesis_hash end.

(** The votes a run of the core from [s] to [s'] cast. *)
Definition new_votes (r : ReplicaID) (s s' : HotStuffCore) : hist :=
  (fun h => mkVR r h (lock_hash s')) <$> take (length (signed s') - length (signed s)) (signed s').

Definition apply_input (r : ReplicaID) (s : HotStuffCore) (i : Input) (net : Net) : Net :=
  let s' := (exec i s).2 in
  mkNet (<[r := s']> (reps net)) (new_votes r s s' ++ nhist net).

Inductive step (linked : bool) : Net -> Net -> Prop :=
  | step_input net r s i : reps net !! r = Some s -> admissible linked (nhist net) s i ->
      step linked net (apply_input r s i net).

(** The started honest replicas. *)
Definition initial (listen : Z -> NetAddr) (key : Z -> PrivKey)
    (rs : list (NetAddr * PubKey * PeerId)) : Net :=
  mkNet (set_to_map (fun r => (r, started r (key r) (listen r) rs)) (nodes ∖ byz)) [].

(** The network really has [n] replicas at distinct addresses. *)
Definition deployment (listen : Z -> NetAddr) (rs : list (NetAddr * PubKey * PeerId)) : Prop :=
  0 < n <= 2 ^ 16 /\ Z.of_nat (length rs) = n /\
  forall r, r ∈ nodes -> others (listen r) rs = n - 1.

(** The blocks [r] voted for in a history, newest first. *)
Fixpoint votes_of (r : ReplicaID) (hs : hist) : list uint256 :=
  match hs with
  | [] => []
  | v :: hs => if decide (vr_r v = r) then vr_b v :: votes_of r hs else votes_of r hs
  end.

Record net_inv (net : Net) : Prop := {
  ni_valid : validN (nhist net);
  ni_reps : forall r s, reps net !! r = Some s -> r ∈ nodes /\ r ∉ byz /\ invN r (nhist net) s;
  ni_signed : forall r s, reps net !! r = Some s -> signed s = votes_of r (nhist net);
}.

Lemma quorum_bounds : 0 < n -> 0 < quorum n <= n.
Proof.
  intros ?. unfold quorum. pose proof (Z.div_pos (n - 1) 3).
  pose proof (Z.div_le_upper_bound (n - 1) 3 (n - 1)). lia.
Qed.

Lemma quorum_size : 0 < n -> (q <= size nodes)%nat.
Proof. intros Hn. rewrite node_ids_size by lia. pose proof (quorum_bounds Hn). lia. Qed.

Lemma initial_reps listen key rs r s : deployment listen rs ->
  reps (initial listen key rs) !! r = Some s -> r ∈ nodes /\ r ∉ byz /\ invN r [] s.
Proof.
  intros (Hn & Hlen & Ho) Hs. simpl in Hs. apply lookup_set_to_map in Hs as (r' & Hr & [= <- <-]); [|by intros ????].
  split; [set_solver|]. split; [set_solver|]. pose proof (quorum_bounds ltac:(lia)).
  destruct (started_ready r' (key r') (listen r') rs) as (c & -> & Hq & Hids).
  - lia.
  - rewrite Hlen. apply Ho. set_solver.
  - rewrite Hlen in *. apply ready_inv; [lia|done].
Qed.

Lemma initial_signed listen key rs r s : deployment listen rs ->
  reps (initial listen key rs) !! r = Some s -> signed s = [].
Proof.
  intros (Hn & Hlen & Ho) Hs. simpl in Hs.
  apply lookup_set_to_map in Hs as (r' & Hr & [= <- <-]); [|by intros ????].
  destruct (started_ready r' (key r') (listen r') rs) as (c & -> & _ & _); [lia| |done].
  rewrite Hlen. apply Ho. set_solver.
Qed.

Lemma initial_inv listen key rs : deployment listen rs -> net_inv (initial listen key rs).
Proof.
  intros Hd. split; [constructor| |].
  - intros r s. by apply initial_reps.
  - intros r s Hs. by erewrite initial_signed.
Qed.

(** A verified, unforged QC certifies its block. *)
Lemma checked_cert r hs s b qq : invN r hs s -> checked hs s b ->
  qc (content b) = Some qq -> certN hs (qc_obj_hash qq).
Proof.
  intros I Hd Hq. pose proof (ck_verify _ _ _ Hd) as Hv. unfold block_verify in Hv.
  rewrite Hq in Hv. case_decide as Hg; [by left|].
  destruct (qc_verify_quorum _ _ (ck_valid _ _ _ Hd qq Hq) Hv) as (S & Hs & Hsub & Hc).
  destruct (i_config _ _ _ _ _ _ I) as [Hnm Hids].
  right. exists S. rewrite <- Hids. split; [done|]. split; [lia|].
  intros v Hin Hz. eapply (ck_unforged _ _ _ Hd); [done|done|by apply Hc].
Qed.

Lemma checked_ok r hs s b : invN r hs s -> checked hs s b -> well_linked s b ->
  deliver_ok nodes byz q hs s (content b).
Proof.
  intros I Hd (x0 & c0 & x1 & rb & qq & ? & ? & ? & Hq & Hqo & ? & ?). split; [apply Hd|].
  exists x0, c0, x1, rb, qq. repeat (split; [done|]).
  rewrite <- Hqo. by eapply checked_cert.
Qed.

Lemma vote_good r hs s v : invN r hs s -> vote_verify (config s) v = Some true ->
  vote_unforged hs (config s) v ->
  good_voter nodes byz hs (vote_blk_hash v) (voter v) /\
  pc_obj_hash (vote_cert v) = vote_blk_hash v.
Proof.
  intros I Hv Hu. unfold vote_verify in Hv.
  destruct (get_pubkey (config s) (voter v)) as [pk|] eqn:Hpk; [|done].
  simpl in Hv. injection Hv as Hv. apply andb_true_iff in Hv as [Hv1 Hv2].
  apply bool_decide_eq_true in Hv2. split; [|done]. split.
  - destruct (i_config _ _ _ _ _ _ I) as [_ <-]. apply get_pubkey_ids. by exists pk.
  - intros Hz. rewrite <- Hv2. by eapply Hu.
Qed.

(** Everything a run of the core can do: cast at most one lawful vote, and
    throw only for the stated reasons. *)
Lemma exec_spec r hs s i : 0 < n -> r ∈ nodes -> invN r hs s -> admissible true hs s i ->
  wp (exec i) (fun _ s' => cast nodes byz q r hs s s')
    (fun e s' => cast nodes byz q r hs s s' /\
       (e = ESafetyBreached -> breach nodes byz q hs s')) s.
Proof.
  intros Hn Hr I Ha. pose proof (quorum_size Hn) as Hq. destruct i; simpl in *.
  - apply wp_bind. eapply wp_mono; [by apply add_spec| |done].
    intros p s' [I' O]. apply wp_ret. left. by rewrite (on_signed _ _ O).
  - destruct Ha as (b & Hb & Hd). apply wp_bind.
    eapply wp_mono; [apply (on_deliver_blk_spec nodes byz q r hs s p b I Hb)| |done].
    + intros Hn'. destruct (Hd Hn') as [Hck Hwl]. by apply (checked_ok r), Hwl.
    + intros res s' (_ & I' & G & _). apply wp_ret. left.
      by rewrite (on_signed _ _ (grows_onward _ _ _ _ _ _ G)).
  - destruct Ha as [b Hb]. eapply wp_mono; [by apply (on_receive_proposal_spec nodes byz q r hs s prop b)|..].
    + by intros ? s' [? _].
    + intros e s' ([->|[-> Hbr]] & Hc & _); by split.
  - destruct Ha as [Hv Hu]. destruct (vote_good r hs s v I Hv Hu).
    eapply wp_mono; [by apply (on_receive_vote_spec nodes byz q r hs s v)|..].
    + intros ? s' (I' & Hqt & _). by apply cast_quiet.
    + intros e s' (He & I' & Hqt & _). split; [by apply cast_quiet|]. by destruct He as [-> | ->].
  - apply wp_bind. eapply wp_mono; [by apply (on_propose_spec nodes byz q r hs s cs ps ex)|..].
    + intros p s' [Hc _]. by apply wp_ret.
    + intros e s' (He & Hc & _). split; [done|]. by destruct He as [[->|[->| ->]]|[-> ?]].
Qed.

Lemma new_votes_none r s s' : signed s' = signed s -> new_votes r s s' = [].
Proof. intros Hs. unfold new_votes. by rewrite Hs, Nat.sub_diag. Qed.

Lemma new_votes_one r s s' h p lb : signed s' = h :: signed s ->
  b_lock s' = p -> hp s' !! p = Some lb -> new_votes r s s' = [mkVR r h (hash lb)].
Proof.
  intros Hs Hp Hl. unfold new_votes, lock_hash. rewrite Hs, Hp, Hl. simpl.
  replace (S (length (signed s)) - length (signed s))%nat with 1%nat by lia. done.
Qed.

(** What one input does to the replica and to the history. *)
Lemma apply_input_cases net r s i : 0 < n -> net_inv net -> reps net !! r = Some s ->
  admissible true (nhist net) s i -> let s' := (exec i s).2 in
  (new_votes r s s' = [] /\ signed s' = signed s /\ invN r (nhist net) s') \/
  exists h l, new_votes r s s' = [mkVR r h l] /\ signed s' = h :: signed s /\
    vote_ok genesis_hash parH jstH nodes byz q (nhist net) r h l /\
    invN r (mkVR r h l :: nhist net) s'.
Proof.
  intros Hn [Hv Hr _] Hs Ha s'. destruct (Hr r s Hs) as (Hrn & _ & I).
  pose proof (exec_spec r (nhist net) s i Hn Hrn I Ha) as Hwp.
  assert (cast nodes byz q r (nhist net) s s') as Hc.
  { subst s'. unfold wp in Hwp. destruct (exec i s) as [[?|?] s']; [done|apply Hwp]. }
  destruct Hc as [[Hsg I']|(p & b & lb & Hsg & Hd & [Hl _] & Hok & I')].
  - left. by rewrite new_votes_none.
  - right. exists (hash b), (hash lb). by erewrite new_votes_one.
Qed.

Lemma net_inv_step net net' : 0 < n -> net_inv net -> step true net net' -> net_inv net'.
Proof.
  intros Hn NI Hst. destruct Hst as [net r s i Hs Ha]. pose proof NI as [Hv Hr Hsgn].
  destruct (Hr r s Hs) as (Hrn & Hz & I). unfold apply_input.
  destruct (apply_input_cases net r s i Hn NI Hs Ha) as [(-> & Hsg & I')|(h & l & -> & Hsg & Hok & I')];
    set (s' := (exec i s).2) in *.
  - split; [done|..]; intros r' s2; simpl; rewrite lookup_insert; case_decide; auto;
      intros [= <-]; subst; [done|]. rewrite Hsg. auto.
  - split; [by constructor|..]; intros r' s2; simpl; rewrite lookup_insert; case_decide; subst.
    + by intros [= <-].
    + intros Hs2. destruct (Hr r' s2 Hs2) as (? & ? & I2). split; [done|]. split; [done|].
      eapply inv_mono; [by intros x; right| |exact I2].
      intros x [[? _]|?]%voted_for_cons; [congruence|done].
    + intros [= <-]. by rewrite Hsg, (Hsgn r' s Hs).
    + intros Hs2. by rewrite (Hsgn r' s2 Hs2).
Qed.

Lemma net_inv_reach listen key rs net : deployment listen rs ->
  rtc (step true) (initial listen key rs) net -> net_inv net.
Proof.
  intros Hd. apply (rtc_ind_r net_inv); [by apply initial_inv|].
  intros x y _ Hxy Hx. eapply net_inv_step; [by destruct Hd as [[? _] _]|done..].
Qed.
End Network.
