(* ===== verification/Safety.v ===== *)
(** * Safety of the replicated system

    Consequences of the network invariant for every execution with at most
    [(n - 1) / 3] Byzantine replicas. *)

From S2P Require Import Prelude Certs Entity Core Agreement CoreInv CoreSteps CoreGrow CoreOps CoreDeliver CoreInit Network.

Section Safety.
Context `{BlockHash} `{!CommandType} `{!CertSchemeLaws} `{!CollisionFree}.
Context {NetAddr : Type} `{EqDecision NetAddr}.
Abbreviation ancH := (anc parH).
Abbreviation hgtH := (hgt genesis_hash parH).
Variables (byz : gset Z) (n : Z).
Variables (listen : Z -> NetAddr) (key : Z -> PrivKey) (rs : list (NetAddr * PubKey * PeerId)).
Abbreviation nodes := (node_ids n).
Abbreviation q := (Z.to_nat (quorum n)).
Abbreviation tchain := (three_chain genesis_hash parH jstH nodes byz q).

(** The assumptions of the protocol: a deployment of [n] replicas of which
    at most [(n - 1) / 3] are Byzantine. *)
Definition assumptions : Prop :=
  deployment n listen rs /\ Z.of_nat (size (byz ∩ nodes)) <= (n - 1) / 3.

Definition reachable (net : Net) : Prop :=
  rtc (step byz true) (initial byz n listen key rs) net.

Context (Has : assumptions).

Lemma quorums_meet (Q1 Q2 : gset Z) : Q1 ⊆ nodes -> Q2 ⊆ nodes ->
  (q <= size Q1)%nat -> (q <= size Q2)%nat -> exists r, r ∈ Q1 /\ r ∈ Q2 /\ r ∉ byz.
Proof.
  destruct Has as [[Hn _] Hf].
  assert (0 <= (n - 1) / 3) by (apply Z.div_pos; lia).
  assert (3 * ((n - 1) / 3) <= n - 1) by (apply Z.mul_div_le; lia).
  apply (quorum_intersection nodes byz Q1 Q2 (Z.to_nat ((n - 1) / 3)) q).
  - rewrite node_ids_size by lia. lia.
  - lia.
  - rewrite node_ids_size by lia. unfold quorum. lia.
Qed.

Lemma reach_inv net : reachable net -> net_inv byz n net.
Proof. intros Hr. eapply net_inv_reach; [by destruct Has|exact Hr]. Qed.

Section At.
Context (net : Net) (Hr : net_inv byz n net).

Lemma tchains_comparable h0 h1 h2 k0 k1 k2 m m' : tchain (nhist net) h0 h1 h2 ->
  tchain (nhist net) k0 k1 k2 -> hgtH h0 m -> hgtH k0 m' -> ancH h0 k0 \/ ancH k0 h0.
Proof.
  apply (three_chains_comparable _ _ _ parH_genesis nodes byz q quorums_meet).
  apply (ni_valid _ _ _ Hr).
Qed.

(** The last executed blocks of two honest replicas are on one branch. *)
Lemma exec_comparable r1 s1 r2 s2 e1 e2 : reps net !! r1 = Some s1 -> reps net !! r2 = Some s2 ->
  dlv s1 (b_exec s1) e1 -> dlv s2 (b_exec s2) e2 ->
  ancH (hash e1) (hash e2) \/ ancH (hash e2) (hash e1).
Proof.
  intros H1' H2' Hd1 Hd2.
  destruct (ni_reps _ _ _ Hr r1 s1 H1') as (_ & _ & I1).
  destruct (ni_reps _ _ _ Hr r2 s2 H2') as (_ & _ & I2).
  pose proof (i_wf _ _ _ _ _ _ I1) as W1. pose proof (i_wf _ _ _ _ _ _ I2) as W2.
  pose proof (dlv_hgt s1 W1 _ _ Hd1) as Hh1. pose proof (dlv_hgt s2 W2 _ _ Hd2) as Hh2.
  destruct (i_exec_chain _ _ _ _ _ _ I1 e1 Hd1) as [Hb|(h1 & h2 & Hc1)].
  { left. rewrite Hb in Hd1. destruct (dlv_b0 s1 W1 e1) as (-> & _); [apply Hd1|]. by eapply anc_g. }
  destruct (i_exec_chain _ _ _ _ _ _ I2 e2 Hd2) as [Hb|(k1 & k2 & Hc2)].
  { right. rewrite Hb in Hd2. destruct (dlv_b0 s2 W2 e2) as (-> & _); [apply Hd2|]. by eapply anc_g. }
  by eapply tchains_comparable.
Qed.

(** Decided blocks are ancestors of the last executed one. *)
Lemma decided_anc r s p b : reps net !! r = Some s -> hp s !! p = Some b -> decision b <> 0 ->
  dlv s p b /\ exists e, dlv s (b_exec s) e /\ ancH (hash b) (hash e).
Proof.
  intros Hs Hb Hdec. destruct (ni_reps _ _ _ Hr r s Hs) as (_ & _ & I).
  destruct (i_exec _ _ _ _ _ _ I) as [e He].
  apply (i_dec _ _ _ _ _ _ I p b e Hb He) in Hdec as [Hd Ha].
  split; [done|]. by exists e.
Qed.

Lemma decided_comparable r1 s1 p1 b1 r2 s2 p2 b2 :
  reps net !! r1 = Some s1 -> reps net !! r2 = Some s2 ->
  hp s1 !! p1 = Some b1 -> hp s2 !! p2 = Some b2 -> decision b1 <> 0 -> decision b2 <> 0 ->
  ancH (hash b1) (hash b2) \/ ancH (hash b2) (hash b1).
Proof.
  intros Hs1 Hs2 Hb1 Hb2 Hd1 Hd2.
  destruct (decided_anc r1 s1 p1 b1 Hs1 Hb1 Hd1) as (_ & e1 & He1 & Ha1).
  destruct (decided_anc r2 s2 p2 b2 Hs2 Hb2 Hd2) as (_ & e2 & He2 & Ha2).
  destruct (exec_comparable r1 s1 r2 s2 e1 e2 Hs1 Hs2 He1 He2) as [He|He].
  - apply (anc_linear parH (hash b1) (hash b2) (hash e2)); [by etrans|done].
  - apply (anc_linear parH (hash b1) (hash b2) (hash e1)); [done|by etrans].
Qed.

Lemma decided_same_height r1 s1 p1 b1 r2 s2 p2 b2 :
  reps net !! r1 = Some s1 -> reps net !! r2 = Some s2 ->
  hp s1 !! p1 = Some b1 -> hp s2 !! p2 = Some b2 -> decision b1 <> 0 -> decision b2 <> 0 ->
  height b1 = height b2 -> hash b1 = hash b2.
Proof.
  intros Hs1 Hs2 Hb1 Hb2 Hd1 Hd2 Hh.
  destruct (ni_reps _ _ _ Hr r1 s1 Hs1) as (_ & _ & I1).
  destruct (ni_reps _ _ _ Hr r2 s2 Hs2) as (_ & _ & I2).
  destruct (decided_anc r1 s1 p1 b1 Hs1 Hb1 Hd1) as (Hv1 & _).
  destruct (decided_anc r2 s2 p2 b2 Hs2 Hb2 Hd2) as (Hv2 & _).
  pose proof (dlv_hgt s1 (i_wf _ _ _ _ _ _ I1) _ _ Hv1) as Hh1.
  pose proof (dlv_hgt s2 (i_wf _ _ _ _ _ _ I2) _ _ Hv2) as Hh2. rewrite Hh in Hh1.
  destruct (decided_comparable r1 s1 p1 b1 r2 s2 p2 b2) as [Ha|Ha]; try done.
  - by eapply (anc_same_hgt _ _ parH_genesis).
  - symmetry. by eapply (anc_same_hgt _ _ parH_genesis).
Qed.

(** Every output of an honest replica names a command of a block it
    decided. *)
Lemma decide_event r s f : reps net !! r = Some s -> EvDecide f ∈ trace s ->
  exists p b i, hp s !! p = Some b /\ decision b <> 0 /\ fin_blk_hash f = hash b /\
    cmd_height f = height b /\ cmd_idx f = u32 (Z.of_nat i) /\
    cmds (content b) !! i = Some (cmd_hash f).
Proof.
  intros Hs Hf. destruct (ni_reps _ _ _ Hr r s Hs) as (_ & _ & I).
  destruct (i_trace _ _ _ _ _ _ I f Hf) as (p & b & i & [Hb _] & Hrest). by exists p, b, i.
Qed.

(** The block behind a hash is the same at every replica. *)
Lemma same_content r1 s1 p1 b1 r2 s2 p2 b2 :
  reps net !! r1 = Some s1 -> reps net !! r2 = Some s2 ->
  hp s1 !! p1 = Some b1 -> hp s2 !! p2 = Some b2 -> hash b1 = hash b2 ->
  hash b1 <> genesis_hash -> content b1 = content b2.
Proof.
  intros Hs1 Hs2 Hb1 Hb2 Hh Hg.
  destruct (ni_reps _ _ _ Hr r1 s1 Hs1) as (_ & _ & I1).
  destruct (ni_reps _ _ _ Hr r2 s2 Hs2) as (_ & _ & I2).
  pose proof (i_wf _ _ _ _ _ _ I1) as W1. pose proof (i_wf _ _ _ _ _ _ I2) as W2.
  assert (p1 <> b0 s1) as Hp1 by (intros ->; by destruct (dlv_b0 s1 W1 b1 Hb1)).
  assert (p2 <> b0 s2) as Hp2 by (intros ->; destruct (dlv_b0 s2 W2 b2 Hb2); congruence).
  apply (content_unique s1 p1 b1 (content b2) W1 Hb1 Hp1).
  rewrite Hh. by apply (wf_hash s2 W2 p2 b2).
Qed.

(** A breach would need two incomparable certified three-chains. *)
Lemma no_breach r s : reps net !! r = Some s -> forall s' hs',
  inv nodes byz q r hs' s' -> valid genesis_hash parH jstH nodes byz q hs' ->
  ~ breach nodes byz q hs' s'.
Proof.
  intros _ s' hs' I Hv (eb & h0 & h1 & h2 & He & Hc & [m Hm] & Hn1 & Hn2).
  pose proof (i_wf _ _ _ _ _ _ I) as W.
  destruct (i_exec_chain _ _ _ _ _ _ I eb He) as [Hb|(k1 & k2 & Hk)].
  - rewrite Hb in He. destruct (dlv_b0 s' W eb) as (Hg & _); [apply He|].
    apply Hn1. rewrite Hg. by eapply anc_g.
  - destruct (three_chains_comparable _ _ _ parH_genesis nodes byz q quorums_meet
      hs' _ _ _ _ _ _ _ _ Hv Hk Hc (dlv_hgt s' W _ _ He) Hm); done.
Qed.
End At.

(** ** The theorems *)

(** C1. agreement.  In every execution with at most (n-1)/3 Byzantine replicas
    whose blocks carry QCs for their ancestors two honest replicas that output
    commands at the same height output them from the same block, and
    outputs at the same height and index of a block with fewer than 2^32
    commands are the same command. *)
Theorem agreement net r1 s1 f1 r2 s2 f2 : reachable net ->
  reps net !! r1 = Some s1 -> reps net !! r2 = Some s2 ->
  EvDecide f1 ∈ trace s1 -> EvDecide f2 ∈ trace s2 -> cmd_height f1 = cmd_height f2 ->
  fin_blk_hash f1 = fin_blk_hash f2 /\
  (cmd_idx f1 = cmd_idx f2 ->
   (forall p b, hp s1 !! p = Some b -> Z.of_nat (length (cmds (content b))) < 2 ^ 32) ->
   (forall p b, hp s2 !! p = Some b -> Z.of_nat (length (cmds (content b))) < 2 ^ 32) ->
   fin_blk_hash f1 <> genesis_hash -> cmd_hash f1 = cmd_hash f2).
Proof.
  intros Hreach Hs1 Hs2 Hf1 Hf2 Hht. pose proof (reach_inv net Hreach) as Hr.
  destruct (decide_event net Hr r1 s1 f1 Hs1 Hf1) as (p1 & b1 & i1 & Hb1 & Hd1 & Hx1 & Hh1 & Hi1 & Hc1).
  destruct (decide_event net Hr r2 s2 f2 Hs2 Hf2) as (p2 & b2 & i2 & Hb2 & Hd2 & Hx2 & Hh2 & Hi2 & Hc2).
  assert (hash b1 = hash b2) as Heq
    by (eapply (decided_same_height net Hr r1 s1 p1 b1 r2 s2 p2 b2); try done; congruence).
  split; [congruence|]. intros Hi Hl1 Hl2 Hg. rewrite Hx1 in Hg.
  pose proof (same_content net Hr r1 s1 p1 b1 r2 s2 p2 b2 Hs1 Hs2 Hb1 Hb2 Heq Hg) as Hcc.
  pose proof (Hl1 p1 b1 Hb1). pose proof (Hl2 p2 b2 Hb2).
  apply lookup_lt_Some in Hc1 as ?. apply lookup_lt_Some in Hc2 as ?.
  rewrite Hi1, Hi2, !u32_small in Hi by lia. assert (i1 = i2) as -> by lia.
  rewrite Hcc in Hc1. congruence.
Qed.

(** C2. the exception "safety breached :( " is unreachable in executions with at
    most (n-1)/3 Byzantine replicas whose blocks carry QCs for their ancestors
    (which the code does not check; [Runs.unlinked_qc_breaches_safety] reaches the
    exception without it): whatever admissible input any honest replica handles,
    update never finds a committed block off the branch of b_exec. *)
Theorem safety_never_breached net r s i : reachable net -> reps net !! r = Some s ->
  admissible byz true (nhist net) s i -> (exec i s).1 <> inr ESafetyBreached.
Proof.
  intros Hreach Hs Ha Hres. pose proof (reach_inv net Hreach) as Hr.
  assert (0 < n) as Hn by (destruct Has as [[? _] _]; lia).
  destruct (ni_reps _ _ _ Hr r s Hs) as (Hrn & _ & I).
  pose proof (exec_spec byz n r (nhist net) s i Hn Hrn I Ha) as Hwp.
  unfold wp in Hwp. destruct (exec i s) as [[?|e] s'] eqn:He; simpl in Hres; [done|].
  injection Hres as ->. destruct Hwp as [[[_ I']|(p & b & lb & _ & _ & _ & Hok & I')] Hb].
  - by apply (no_breach net r s Hs s' (nhist net) I' (ni_valid _ _ _ Hr)), Hb.
  - specialize (Hb eq_refl). destruct Hb as (eb & h0 & h1 & h2 & He' & Hc & Hm & Hn1 & Hn2).
    apply (no_breach net r s Hs s' _ I' (valid_cons _ _ _ _ _ _ _ _ _ _ (ni_valid _ _ _ Hr) Hok)).
    exists eb, h0, h1, h2. split; [done|]. split; [|done].
    destruct Hc as [? ? ?]. split; try done;
      apply (certified_mono _ _ _ _ (nhist net)); try done; by intros x; right.
Qed.

(** C3. all blocks decided by honest replicas lie on one branch, in executions
    with at most (n-1)/3 Byzantine replicas whose blocks carry QCs for their
    ancestors. *)
Theorem decided_one_branch net r1 s1 p1 b1 r2 s2 p2 b2 : reachable net ->
  reps net !! r1 = Some s1 -> reps net !! r2 = Some s2 ->
  hp s1 !! p1 = Some b1 -> hp s2 !! p2 = Some b2 -> decision b1 <> 0 -> decision b2 <> 0 ->
  ancH (hash b1) (hash b2) \/ ancH (hash b2) (hash b1).
Proof. intros Hreach. by apply decided_comparable, reach_inv. Qed.


End Safety.
