(* ===== verification/Scenario.v ===== *)
(** * Concrete executions

    A symbolic instance of the interfaces (a digest is the term it hashes, a
    signature names its signer) in which the model runs, a checker for the
    steps of the network, and two executions of four replicas: one in which
    blocks are committed, and one that the checks of the code admit and in
    which two honest replicas commit conflicting blocks. *)

From stdpp Require Import countable.
From S2P Require Import Prelude Certs Entity Core Agreement CoreInv CoreSteps CoreGrow CoreOps CoreDeliver CoreInit Network.

(** ** The symbolic instance *)

Abbreviation term := (gen_tree Z).

#[export] Instance sym_keys : KeyTypes := {|
  uint256 := term; uint256_null := GenLeaf 0; PeerId := Z; PubKey := Z; PrivKey := Z |}.

(** A certificate: the object and the signatures, each the key it verifies
    under. *)
Definition sym_qc_ok (c : ReplicaConfig) (x : Z * Z) : bool :=
  bool_decide (get_pubkey c x.1 = Some x.2).

#[export] Instance sym_certs : CertScheme := {|
  part_cert := Z * term;
  quorum_cert := term * list (Z * Z);
  create_part_cert k h := (k, h);
  pc_obj_hash pc := pc.2;
  pc_verify pc pk := pc.1 =? pk;
  create_quorum_cert _ h := (h, []);
  quorum_cert_dummy := (GenLeaf 0, []);
  qc_obj_hash qc := qc.1;
  add_part qc rid pc := if decide (pc.2 = qc.1) then Some (qc.1, (rid, pc.1) :: qc.2) else None;
  compute qc := qc;
  qc_verify qc c := Some ((nmajority c <=? Z.of_nat (size (list_to_set (C := gset Z) qc.2.*1)))
                          && forallb (sym_qc_ok c) qc.2);
|}.

#[export, refine] Instance sym_laws : CertSchemeLaws := {|
  qc_valid _ := True;
  qc_carries c qc rid := exists k, (rid, k) ∈ qc.2 /\ get_pubkey c rid = Some k |}.
Proof.
  - done.
  - done.
  - done.
  - intros qc rid pc qc' Ha. simpl in *. by case_decide; simplify_eq.
  - intros c qc _ Hv. simpl in Hv. injection Hv as Hv. apply andb_true_iff in Hv as [Hn Hf].
    apply Z.leb_le in Hn. rewrite forallb_forall in Hf. exists (list_to_set qc.2.*1).
    assert (forall rid, rid ∈ (list_to_set qc.2.*1 : gset Z) ->
      exists k, (rid, k) ∈ qc.2 /\ get_pubkey c rid = Some k) as Hc.
    { intros rid (k & -> & Hin)%elem_of_list_to_set%list_elem_of_fmap. exists k.2.
      destruct k as [rid k]. split; [done|]. apply list_elem_of_In in Hin.
      apply Hf in Hin. by apply bool_decide_eq_true in Hin. }
    split; [done|]. split; [|done]. intros rid (k & _ & Hk)%Hc.
    apply get_pubkey_ids. by exists k.
Defined.

Definition term_of_qc (qc : quorum_cert) : term :=
  GenNode 4 (qc.1 :: ((fun x => GenNode 5 [GenLeaf x.1; GenLeaf x.2]) <$> qc.2)).

#[export] Instance sym_hash : BlockHash := fun c =>
  GenNode 0 [GenNode 1 (parent_hashes c); GenNode 2 (cmds c);
             GenNode 3 (match qc c with None => [] | Some x => [term_of_qc x] end);
             GenNode 4 (GenLeaf <$> extra c)].

Definition leaf_of (t : term) : option Z := match t with GenLeaf x => Some x | _ => None end.
Definition sig_of (t : term) : option (Z * Z) :=
  match t with GenNode 5 [GenLeaf x; GenLeaf y] => Some (x, y) | _ => None end.
Definition qc_of (t : term) : option quorum_cert :=
  match t with GenNode 4 (h :: l) => (h,.) <$> mapM sig_of l | _ => None end.

Definition sym_unhash (t : term) : option Content :=
  match t with
  | GenNode 0 [GenNode 1 ps; GenNode 2 cs; GenNode 3 q; GenNode 4 e] =>
    qq ← match q with [] => Some None | t :: _ => Some <$> qc_of t end;
    ee ← mapM leaf_of e;
    Some (mkContent ps cs qq ee)
  | _ => None
  end.

Lemma mapM_roundtrip {A} (f : A -> term) (g : term -> option A) l :
  (forall x, g (f x) = Some x) -> mapM g (f <$> l) = Some l.
Proof. intros Hfg. induction l as [|x l IH]; simpl; [done|]. rewrite Hfg. simpl. unfold fmap in IH. by rewrite IH. Qed.

#[export, refine] Instance sym_free : CollisionFree := {| unhash := sym_unhash |}.
Proof.
  intros [ps cs q e]. unfold get_hash, sym_hash, sym_unhash. cbn [parent_hashes cmds qc extra].
  assert ((match match q with None => [] | Some x => [term_of_qc x] end with
           | [] => Some None | t :: _ => Some <$> qc_of t end) = Some q) as Hq.
  { destruct q as [[h l]|]; [|done]. unfold term_of_qc. simpl.
    rewrite (mapM_roundtrip _ sig_of); [done|]. by intros []. }
  rewrite Hq. simpl. by rewrite (mapM_roundtrip GenLeaf leaf_of).
Defined.

#[export] Instance sym_cmds : CommandType := {| Command := Z; cmd_get_hash x := GenLeaf x |}.

(** ** A checker for steps *)

Section Checker.
Variables (byz : gset Z).

Definition voted_forb (hs : history (B := term)) (r : Z) (h : term) : bool :=
  existsb (fun v => (vr_r v =? r) && bool_decide (vr_b v = h)) hs.

Lemma voted_forb_sound hs r h : voted_forb hs r h = true -> voted_for hs r h.
Proof.
  unfold voted_forb. rewrite existsb_exists. intros ([r' h' l] & Hin & Hb).
  apply andb_true_iff in Hb as [Hr Hh%bool_decide_eq_true]. apply Z.eqb_eq in Hr.
  simpl in *. subst. exists l. by apply list_elem_of_In.
Qed.

Definition unforgedb (hs : history (B := term)) (rid : Z) (h : term) : bool :=
  bool_decide (rid ∈ byz) || voted_forb hs rid h.

Lemma unforgedb_sound hs rid h : unforgedb hs rid h = true -> rid ∉ byz -> voted_for hs rid h.
Proof.
  unfold unforgedb. intros Hb Hz. apply orb_true_iff in Hb as [Hb|Hb].
  - by apply bool_decide_eq_true in Hb.
  - by apply voted_forb_sound.
Qed.

(** The delivered block with a given hash. *)
Definition find_dlv (s : HotStuffCore) (h : term) : option (nat * Block) :=
  p ← blk_cache (storage s) !! h; b ← hp s !! p;
  if delivered b && bool_decide (hash b = h) then Some (p, b) else None.

Lemma find_dlv_sound s h p b : find_dlv s h = Some (p, b) -> dlv s p b /\ hash b = h.
Proof.
  unfold find_dlv. destruct (blk_cache (storage s) !! h) as [p'|]; [|done]. simpl.
  destruct (hp s !! p') as [b'|] eqn:Hb; [|done]. simpl.
  destruct (delivered b') eqn:Hd; [|done]. simpl. case_bool_decide; [|done].
  by intros [= <- <-].
Qed.

Fixpoint ancb (fuel : nat) (a b : uint256) : bool :=
  bool_decide (a = b) ||
  match fuel with
  | O => false
  | S fuel => match parH b with Some p => ancb fuel a p | None => false end
  end.

Lemma ancb_sound fuel a b : ancb fuel a b = true -> anc parH a b.
Proof.
  revert b. induction fuel as [|fuel IH]; intros b; simpl; intros [Hb|Hb]%orb_true_iff.
  - apply bool_decide_eq_true in Hb as ->. apply rtc_refl.
  - done.
  - apply bool_decide_eq_true in Hb as ->. apply rtc_refl.
  - destruct (parH b) as [p|] eqn:Hp; [|done]. eapply rtc_r; [by apply IH|done].
Qed.

Definition checkedb (hs : history (B := term)) (s : HotStuffCore) (b : Block) : bool :=
  bool_decide (block_verify (config s) genesis_hash b = Some true) &&
  match qc (content b) with
  | None => false
  | Some qc' => forallb (fun x => unforgedb hs x.1 qc'.1) qc'.2 &&
      is_blk_fetched (storage s) qc'.1
  end &&
  forallb (fun h => bool_decide (is_Some (find_dlv s h))) (parent_hashes (content b)).

Lemma checkedb_sound hs s b : checkedb hs s b = true -> checked byz hs s b.
Proof.
  unfold checkedb. intros [[Hv Hq]%andb_true_iff Hp]%andb_true_iff.
  apply bool_decide_eq_true in Hv. rewrite forallb_forall in Hp.
  destruct (qc (content b)) as [qc'|] eqn:Hqc; [|done].
  apply andb_true_iff in Hq as [Hu Hf]. rewrite forallb_forall in Hu. split.
  - done.
  - done.
  - rewrite Hqc. intros ? [= <-] rid Hz (k & Hin%list_elem_of_In & _).
    specialize (Hu (rid, k) Hin). by eapply unforgedb_sound.
  - intros h Hin%list_elem_of_In. specialize (Hp h Hin). apply bool_decide_eq_true in Hp as [[p bx] Hx].
    apply find_dlv_sound in Hx as [? ?]. by exists p, bx.
  - rewrite Hqc. by intros ? [= <-].
Qed.

Definition well_linkedb (s : HotStuffCore) (b : Block) : bool :=
  match head (parent_hashes (content b)), qc (content b) with
  | Some h, Some qc' =>
    match find_dlv s h, find_dlv s qc'.1 with
    | Some (_, c0), Some (_, rb) => (height c0 + 1 <? 2 ^ 32) && ancb 20 (hash rb) (hash c0)
    | _, _ => false
    end
  | _, _ => false
  end.

Lemma well_linkedb_sound s b : well_linkedb s b = true -> well_linked s b.
Proof.
  unfold well_linkedb, well_linked. destruct (head _) as [h|]; [|done].
  destruct (qc (content b)) as [qc'|]; [|done].
  destruct (find_dlv s h) as [[x0 c0]|] eqn:H0; [|done].
  destruct (find_dlv s qc'.1) as [[x1 rb]|] eqn:H1; [|done].
  intros [Hl Ha]%andb_true_iff. apply Z.ltb_lt in Hl. apply ancb_sound in Ha.
  apply find_dlv_sound in H0 as [? <-]. apply find_dlv_sound in H1 as [? ?].
  by exists x0, c0, x1, rb, qc'.
Qed.

Definition propose_okb (s : HotStuffCore) (ps : list nat) : bool :=
  forallb (fun p => match hp s !! p with Some b => delivered b | None => false end) ps &&
  match ps, hqc s with
  | p0 :: _, Some (ph, _) =>
    match hp s !! p0, hp s !! ph with
    | Some c0, Some hb => (height c0 + 1 <? 2 ^ 32) && delivered hb && ancb 20 (hash hb) (hash c0)
    | _, _ => false
    end
  | _, _ => false
  end.

Lemma propose_okb_sound s ps : propose_okb s ps = true -> propose_ok s ps.
Proof.
  unfold propose_okb, propose_ok. intros [Hf Hh]%andb_true_iff. rewrite forallb_forall in Hf.
  assert (forall p, p ∈ ps -> exists b, dlv s p b) as Hd.
  { intros p Hin%list_elem_of_In. specialize (Hf p Hin). destruct (hp s !! p) as [b|] eqn:Hb; [|done].
    by exists b. }
  split; [done|]. destruct ps as [|p0 ps]; [done|]. destruct (hqc s) as [[ph hq]|]; [|done].
  destruct (Hd p0) as (c0 & Hc & Hcd); [by left|]. rewrite Hc in Hh.
  destruct (hp s !! ph) as [hb|] eqn:Hhb; [|done].
  apply andb_true_iff in Hh as [[Hl Hdh]%andb_true_iff Ha].
  apply Z.ltb_lt in Hl. apply ancb_sound in Ha. by exists p0, c0, ph, hq, hb.
Qed.

Definition admissibleb (linked : bool) (hs : history (B := term)) (s : HotStuffCore) (i : Input) : bool :=
  match i with
  | InBlock _ => true
  | InDeliver p =>
    match hp s !! p with
    | None => false
    | Some b => delivered b || checkedb hs s b && (negb linked || well_linkedb s b)
    end
  | InProposal prop => bool_decide (is_Some (hp s !! prop_blk prop))
  | InVote v => bool_decide (vote_verify (config s) v = Some true) &&
      unforgedb hs (voter v) (pc_obj_hash (vote_cert v))
  | InPropose _ ps _ => propose_okb s ps
  end.

Lemma admissibleb_sound linked hs s i : admissibleb linked hs s i = true ->
  admissible byz linked hs s i.
Proof.
  destruct i; simpl.
  - done.
  - destruct (hp s !! p) as [b|] eqn:Hb; [|done]. intros Hc. exists b. split; [done|].
    intros Hd. rewrite Hd in Hc. simpl in Hc. apply andb_true_iff in Hc as [Hc Hw].
    split; [by apply checkedb_sound|]. intros ->. by apply well_linkedb_sound.
  - by intros ?%bool_decide_eq_true.
  - intros [Hv%bool_decide_eq_true Hu]%andb_true_iff. split; [done|].
    intros pk Hz _ _. by apply (unforgedb_sound hs (voter v)).
  - apply propose_okb_sound.
Qed.

Fixpoint run (linked : bool) (script : list (Z * Input)) (net : Net) : option Net :=
  match script with
  | [] => Some net
  | (r, i) :: script =>
    s ← reps net !! r;
    if admissibleb linked (nhist net) s i then run linked script (apply_input r s i net)
    else None
  end.

Lemma run_sound linked script : forall net net', run linked script net = Some net' ->
  rtc (step byz linked) net net'.
Proof.
  induction script as [|[r i] script IH]; simpl; intros net net' Hr.
  - injection Hr as <-. apply rtc_refl.
  - destruct (reps net !! r) as [s|] eqn:Hs; [|done]. simpl in Hr.
    destruct (admissibleb linked (nhist net) s i) eqn:Ha; [|done].
    eapply rtc_l; [|by apply IH]. constructor; [done|]. by apply admissibleb_sound.
Qed.
End Checker.
