(* ===== verification/Runs.v ===== *)
(** * Two executions of four replicas

    Replica 3 is Byzantine.  In [good_run] the others receive the chain
    g <- b1 <- b2 <- b3 <- b4 <- b5 and commit b1 and b2.  In [fork_run] the
    inputs pass every check of the code, but the QC of block x4 is for a
    block that is not its ancestor, and replicas 0 and 1 commit different
    blocks at height 1; when replica 0 gets the branch of replica 1 as well, its
    core throws "safety breached". *)

From stdpp Require Import countable.
From S2P Require Import Prelude Certs Entity Core Agreement CoreInv CoreSteps CoreOps CoreDeliver CoreInit Network Safety Scenario.

(** A block on parent [p] with command [c] and the QC of [qs] for [j]. *)
Definition child (p : uint256) (c : Z) (j : uint256) (qs : list Z) : Content :=
  mkContent [p] [GenLeaf c] (Some (j, (fun r => (r, r)) <$> qs)) [].
Definition hash_of (c : Content) : uint256 := get_hash c.

Definition gh : uint256 := hash_of genesis_content.
Definition b1 := child gh 1 gh [].
Definition b2 := child (hash_of b1) 2 (hash_of b1) [0; 1; 2].
Definition b3 := child (hash_of b2) 3 (hash_of b2) [0; 1; 2].
Definition b4 := child (hash_of b3) 4 (hash_of b3) [0; 1; 2].
Definition b5 := child (hash_of b4) 5 (hash_of b4) [0; 1; 2].

(** Receiving block [c] as the [p]-th block of the heap; with [vote] also
    its proposal. *)
Definition receive (r : Z) (p : nat) (c : Content) (vote : bool) : list (Z * Input) :=
  [(r, InBlock c); (r, InDeliver p)] ++
  (if vote then [(r, InProposal (mkProposal 3 p))] else []).

Definition receive_all (rs : list Z) (p : nat) (c : Content) (vote : bool) : list (Z * Input) :=
  rs ≫= fun r => receive r p c vote.

Definition byz4 : gset Z := {[3]}.
Definition listen4 (r : Z) : Z := r.
Definition key4 (r : Z) : PrivKey := r.
Definition rs4 : list (Z * PubKey * PeerId) := (fun r => (r, r, r)) <$> [0; 1; 2; 3].
Definition net4 : Net := initial byz4 4 listen4 key4 rs4.

(** Replica 0 proposes [b1] itself; the others receive everything. *)
Definition good_script : list (Z * Input) :=
  [(0, InPropose [GenLeaf 1] [0%nat] [])] ++
  receive_all [1; 2] 1 b1 true ++
  [(0, InVote (mkVote 1 (hash_of b1) (1, hash_of b1)));
   (0, InVote (mkVote 2 (hash_of b1) (2, hash_of b1)))] ++
  receive_all [0; 1; 2] 2 b2 true ++
  receive_all [0; 1; 2] 3 b3 true ++
  receive_all [0; 1; 2] 4 b4 true ++
  receive_all [0; 1] 5 b5 true.

Definition good_net : Net := default net4 (run byz4 true good_script net4).

Definition decisions (net : Net) (r : Z) : list Finality :=
  match reps net !! r with
  | None => []
  | Some s => omap (fun e => match e with EvDecide f => Some f | _ => None end) (trace s)
  end.

(** The fork: x4 extends x3 but carries the QC of b2. *)
Definition x1 := child gh 11 gh [].
Definition x2 := child (hash_of x1) 12 gh [].
Definition x3 := child (hash_of x2) 13 gh [].
Definition x4 := child (hash_of x3) 14 (hash_of b2) [0; 1; 2].
Definition x5 := child (hash_of x4) 15 (hash_of x4) [1; 2; 3].
Definition x6 := child (hash_of x5) 16 (hash_of x5) [1; 2; 3].
Definition x7 := child (hash_of x6) 17 (hash_of x6) [1; 2; 3].

Definition fork_script : list (Z * Input) :=
  receive_all [0; 1; 2] 1 b1 true ++
  receive_all [0; 1; 2] 2 b2 true ++
  receive_all [0; 1; 2] 3 b3 true ++
  receive 0 4 b4 true ++
  receive_all [1; 2] 4 x1 false ++
  receive_all [1; 2] 5 x2 false ++
  receive_all [1; 2] 6 x3 false ++
  receive_all [1; 2] 7 x4 true ++
  receive_all [1; 2] 8 x5 true ++
  receive_all [1; 2] 9 x6 true ++
  receive 1 10 x7 true.

Definition fork_net : Net := default net4 (run byz4 false fork_script net4).

Definition rep (net : Net) (r : Z) : HotStuffCore :=
  default (HotStuffCore_new 0 0) (reps net !! r).

Definition no_output : Finality := mkFinality 0 0 0 0 uint256_null uint256_null.

(** The [i]-th output of replica [r], newest first. *)
Definition output (net : Net) (r : Z) (i : nat) : Finality :=
  default no_output (decisions net r !! i).

Definition okb {A} (o : option A) : bool := match o with Some _ => true | None => false end.

Lemma default_ok {A} (o : option A) d : okb o = true -> o = Some (default d o).
Proof. by destruct o. Qed.

Lemma run_reach linked script : okb (run byz4 linked script net4) = true ->
  rtc (step byz4 linked) net4 (default net4 (run byz4 linked script net4)).
Proof. intros Hok. eapply run_sound. by apply default_ok. Qed.

Lemma rep_lookup net r : okb (reps net !! r) = true -> reps net !! r = Some (rep net r).
Proof. apply default_ok. Qed.

Lemma output_in net r i : okb (reps net !! r) = true -> okb (decisions net r !! i) = true ->
  EvDecide (output net r i) ∈ trace (rep net r).
Proof.
  intros Hr Ho. apply (default_ok _ no_output) in Ho.
  apply list_elem_of_lookup_2 in Ho. fold (output net r i) in Ho.
  unfold decisions in Ho. rewrite (rep_lookup net r Hr) in Ho.
  apply list_elem_of_omap in Ho as (e & He & Hf). destruct e; try done. by injection Hf as <-.
Qed.

Lemma assumptions4 : assumptions byz4 4 listen4 rs4.
Proof.
  split; [|by vm_compute]. split; [lia|]. split; [done|]. intros r Hr.
  unfold node_ids in Hr. apply elem_of_list_to_set in Hr. revert r Hr.
  apply Forall_forall. repeat constructor.
Qed.

Lemma good_reachable : reachable byz4 4 listen4 key4 rs4 good_net.
Proof. apply run_reach. by vm_compute. Qed.

(** Replicas 0 and 1 both output at height 2. *)
Lemma agreement_witness :
  cmd_height (output good_net 0 0) = 2 /\
  fin_blk_hash (output good_net 0 0) = fin_blk_hash (output good_net 1 0).
Proof.
  split; [by vm_compute|].
  apply (agreement byz4 4 listen4 key4 rs4 assumptions4 good_net 0 (rep good_net 0)
    (output good_net 0 0) 1 (rep good_net 1) (output good_net 1 0)).
  - apply good_reachable.
  - apply rep_lookup. by vm_compute.
  - apply rep_lookup. by vm_compute.
  - apply output_in; by vm_compute.
  - apply output_in; by vm_compute.
  - by vm_compute.
Defined.

(** Replica 2 then receives block b5 and commits b2. *)
Lemma safety_never_breached_witness :
  (exec (InProposal (mkProposal 3 4)) (rep good_net 2)).1 <> inr ESafetyBreached.
Proof.
  apply (safety_never_breached byz4 4 listen4 key4 rs4 assumptions4 good_net 2 (rep good_net 2)).
  - apply good_reachable.
  - apply rep_lookup. by vm_compute.
  - apply admissibleb_sound. by vm_compute.
Defined.

Definition blk (net : Net) (r : Z) (p : nat) : Block :=
  default (Block_genesis false 0) (hp (rep net r) !! p).

Lemma decided_one_branch_witness :
  anc parH (hash (blk good_net 0 1)) (hash (blk good_net 1 2)) \/
  anc parH (hash (blk good_net 1 2)) (hash (blk good_net 0 1)).
Proof.
  apply (decided_one_branch byz4 4 listen4 key4 rs4 assumptions4 good_net 0 (rep good_net 0) 1
    (blk good_net 0 1) 1 (rep good_net 1) 2 (blk good_net 1 2)).
  - apply good_reachable.
  - apply rep_lookup. by vm_compute.
  - apply rep_lookup. by vm_compute.
  - apply default_ok. by vm_compute.
  - apply default_ok. by vm_compute.
  - by vm_compute.
  - by vm_compute.
Defined.

Definition nth_signed (net : Net) (r : Z) (i : nat) : uint256 :=
  default uint256_null (signed (rep net r) !! i).


(** C9. The checks of the code admit an execution, with one Byzantine replica of
    four, in which replicas 0 and 1 commit different blocks at height 1: a
    block whose QC is not for one of its ancestors is delivered. *)
Theorem unlinked_qc_breaks_agreement :
  assumptions byz4 4 listen4 rs4 /\
  exists net s0 s1 f0 f1, rtc (step byz4 false) net4 net /\
    reps net !! 0 = Some s0 /\ reps net !! 1 = Some s1 /\
    EvDecide f0 ∈ trace s0 /\ EvDecide f1 ∈ trace s1 /\
    cmd_height f0 = cmd_height f1 /\ cmd_hash f0 <> cmd_hash f1.
Proof.
  split; [apply assumptions4|].
  exists fork_net, (rep fork_net 0), (rep fork_net 1), (output fork_net 0 0), (output fork_net 1 3).
  split; [apply run_reach; by vm_compute|].
  split; [apply rep_lookup; by vm_compute|]. split; [apply rep_lookup; by vm_compute|].
  split; [apply output_in; by vm_compute|]. split; [apply output_in; by vm_compute|].
  split; by vm_compute.
Qed.

(** Replica 0 then receives the other branch. *)
Definition breach_script : list (Z * Input) :=
  fork_script ++ receive 0 5 x1 false ++ receive 0 6 x2 false ++ receive 0 7 x3 false ++
  receive 0 8 x4 true ++ receive 0 9 x5 true ++ receive 0 10 x6 true ++ [(0, InBlock x7); (0, InDeliver 11)].
Definition breach_net : Net := default net4 (run byz4 false breach_script net4).

(** In an execution of this kind update finds a block to commit off the branch
    of b_exec, and throws: the proviso of [safety_never_breached] is needed. *)
Example unlinked_qc_breaches_safety :
  rtc (step byz4 false) net4 breach_net /\
  admissible byz4 false (nhist breach_net) (rep breach_net 0) (InProposal (mkProposal 3 11)) /\
  (exec (InProposal (mkProposal 3 11)) (rep breach_net 0)).1 = inr ESafetyBreached.
Proof.
  split; [apply run_reach; by vm_compute|]. split; [apply admissibleb_sound; by vm_compute|by vm_compute].
Qed.

(** A block without parents. *)
Definition orphan : Content := mkContent [] [] (Some (gh, [])) [7].

(** The checks of the code also admit a block without parents, and
    delivering it reads [parents[0]] of an empty vector. *)
Theorem orphan_out_of_range :
  let net := apply_input 0 (rep net4 0) (InBlock orphan) net4 in
  rtc (step byz4 false) net4 net /\
  admissible byz4 false (nhist net) (rep net 0) (InDeliver 1) /\
  (exec (InDeliver 1) (rep net 0)).1 = inr EOutOfRange.
Proof.
  split; [|split].
  - apply rtc_once. constructor; [|done]. apply rep_lookup. by vm_compute.
  - apply admissibleb_sound. by vm_compute.
  - by vm_compute.
Qed.
