(* ===== verification/PaceRuns.v ===== *)
(** * Executions of the pace makers

    Witnesses for the theorems of Proposer and RoundRobin, on replica 0 of
    the four-replica deployment of Runs. *)

From Stdlib Require Import Sorting.Sorted.
From stdpp Require Import countable.
From S2P Require Import Prelude Certs Entity Core PaceMaker Proposer CoreInit Network Scenario Runs RoundRobin.

Definition core0 : HotStuffCore := started 0 (key4 0) (listen4 0) rs4.

Lemma core0_id : id core0 = 0.
Proof. by vm_compute. Qed.
Lemma core0_nreplicas : nreplicas (config core0) = 4.
Proof. by vm_compute. Qed.

Definition rr_after (i : RInput) (p : PMWaitQC * Rotation) : PMWaitQC * Rotation :=
  (rexec i (core0, p)).2.2.

Lemma rr_after_step (ok : RInput -> Prop) i p : ok i -> rstep 0 4 ok p (rr_after i p).
Proof. apply rstep_input; [apply core0_id|apply core0_nreplicas]. Qed.

(** After init, replica 0 impeaches: the proposer is replica 1. *)
Definition rr_start : PMWaitQC * Rotation := (rr_init (core0, rr_new 0%nat)).2.2.
Definition rr_impeached : PMWaitQC * Rotation := rr_after RImpeach rr_start.

Lemma rr_impeached_state : rotating rr_impeached.2 = true /\
  prop_blks rr_impeached.2 !! rr_proposer rr_impeached.2 = None /\ rr_proposer rr_impeached.2 = 1.
Proof. repeat split; by vm_compute. Qed.

(** The genesis block is decided late; then another impeachment and a
    timer event. *)
Definition rr_stalled : PMWaitQC * Rotation := rr_after (RConsensus 0%nat) rr_impeached.
Lemma rr_after_eq i p : (rexec i (core0, p)).2.2 = rr_after i p.
Proof. done. Qed.

#[local] Opaque rr_after rr_init core0.

Lemma rr_invariant_witness : rr_ok 4 rr_impeached.
Proof.
  apply (rr_invariant 0 4 core0 (rr_new 0%nat)); [apply core0_nreplicas|lia|simpl; lia|].
  apply rtc_once. exact (rr_after_step (fun _ => True) RImpeach rr_start I).
Defined.

Lemma rotation_reaches_witness : exists k, Z.of_nat k < 4 /\
  wp (rotations k) (fun _ st' => rr_proposer st'.2.2 = 3 /\ exp_timeout st'.2.2 = (k + 0)%nat)
    (fun _ _ => False) (core0, rr_new 0%nat).
Proof. apply (rotation_reaches 4 (core0, rr_new 0%nat) 3); [apply core0_nreplicas|lia|simpl; lia|lia]. Defined.

Lemma rotation_stalls_witness :
  let p' := rr_after RTimer (rr_after RImpeach rr_stalled) in
  rotating p'.2 = true /\ timer p'.2 = None /\ rr_proposer p'.2 = rr_proposer rr_impeached.2.
Proof.
  destruct rr_impeached_state as (Hr & Hn & Hp).
  apply (rotation_stalls 0 4 core0 rr_impeached 0%nat); [apply core0_id|done|done|by rewrite Hp|].
  rewrite rr_after_eq. change (rr_after (RConsensus 0%nat) rr_impeached) with rr_stalled.
  apply (rtc_l _ _ (rr_after RImpeach rr_stalled)); [exact (rr_after_step _ RImpeach rr_stalled I)|].
  apply rtc_once. exact (rr_after_step _ RTimer _ I).
Defined.

(** Two calls to beat() on a fresh pace maker. *)
Definition w_after (i : WInput) (p : PMWaitQC) : PMWaitQC := (wexec None i (core0, p)).2.2.

Lemma w_after_step i p : wstep None p (w_after i p).
Proof. apply wstep_input. Qed.

Definition w_two : PMWaitQC := w_after WBeat (w_after WBeat (waitqc_init core0)).

#[local] Opaque w_after.

Lemma beats_in_order_witness : StronglySorted lt (reverse (resolved w_two).*1).
Proof.
  apply (beats_in_order None core0).
  apply (rtc_l _ _ (w_after WBeat (waitqc_init core0))); [exact (w_after_step WBeat _)|].
  apply rtc_once. exact (w_after_step WBeat _).
Defined.
