(* ===== verification/PaceSafe.v ===== *)
(** * The pace maker in the replicated system

    PMHighTail at the replicas of every execution: its ancestry test is
    right, and the tail it picks is a parent that on_propose accepts. *)

From stdpp Require Import countable.
From S2P Require Import Prelude Certs Entity Core Agreement CoreInv CoreSteps CoreGrow CoreOps CoreDeliver PaceMaker CoreInit Network Safety Scenario Runs.

Section PaceSafe.
Context `{BlockHash} `{!CommandType} `{!CertSchemeLaws} `{!CollisionFree}.
Context {NetAddr : Type} `{EqDecision NetAddr}.
Variables (byz : gset Z) (n : Z).
Variables (listen : Z -> NetAddr) (key : Z -> PrivKey) (rs : list (NetAddr * PubKey * PeerId)).

(** check_ancestry decides, for delivered blocks of a replica of any
    execution, whether the first is an ancestor of the second; it neither
    fails nor changes the replica. *)
Theorem check_ancestry_decides net r s a b ab bb : assumptions byz n listen rs ->
  reachable byz n listen key rs net -> reps net !! r = Some s -> dlv s a ab -> dlv s b bb ->
  wp (check_ancestry a b)
    (fun res s' => s' = s /\ (res = true <-> anc parH (hash ab) (hash bb))) (fun _ _ => False) s.
Proof.
  intros Has Hr Hs Ha Hb. destruct (ni_reps _ _ _ (reach_inv byz n listen key rs Has net Hr) r s Hs) as (_ & _ & I).
  by apply (check_ancestry_spec s (i_wf _ _ _ _ _ _ I)).
Qed.

(** C30. In executions whose blocks carry QCs for their ancestors, with at most
    (n-1)/3 Byzantine replicas and delivered tails: after the highest QC changed the tail that is picked extends its block
    and is as high as any tail that does; proposing on it never follows a
    null pointer, reads past a vector or finds a block missing. *)
Theorem picked_tail_proposable net r s cs ex : assumptions byz n listen rs ->
  reachable byz n listen key rs net -> reps net !! r = Some s ->
  (forall t, t ∈ tails s -> exists tb, dlv s t tb /\ height tb + 1 < 2 ^ 32) ->
  wp pm_hqc_update
    (fun t s' => s' = s /\ exists tb ph hq hb, dlv s t tb /\ hqc s = Some (ph, hq) /\ dlv s ph hb /\
       anc parH (hash hb) (hash tb) /\
       (forall x xb, x ∈ tails s -> dlv s x xb -> anc parH (hash hb) (hash xb) -> height xb <= height tb) /\
       (height tb + 1 < 2 ^ 32 -> wp (on_propose cs (get_parents t) ex) (fun _ _ => True)
          (fun e _ => e <> EOutOfRange /\ e <> ENull /\ e <> ENoFuel /\ e <> EEmptyParents /\ e <> EQcNotFetched) s))
    (fun _ _ => False) s.
Proof.
  intros Has Hr Hs Ht. pose proof (reach_inv byz n listen key rs Has net Hr) as Hinv.
  destruct (ni_reps _ _ _ Hinv r s Hs) as (Hrn & _ & I).
  eapply wp_mono; [eapply (pm_hqc_update_spec _ _ _ r _ s I)| |done].
  { intros t Hin. destruct (Ht t Hin) as (tb & ? & _). by exists tb. }
  intros t s' (-> & Hok & tb & Hd & Hall). split; [done|].
  pose proof Hok as (tb' & ph & hq & hb & Hd' & Hq & Hdh & Ha). rewrite (dlv_unique s _ _ _ Hd' Hd) in *.
  exists tb, ph, hq, hb. do 4 (split; [done|]). split; [intros x xb Hx Hdx Hax; by apply (Hall x xb ph hq hb)|].
  intros Hlt. eapply wp_mono; [eapply (on_propose_spec _ _ _ r _ s cs _ ex I)|done|].
  - apply (quorum_size n). destruct Has as [[Hn _] _]. lia.
  - done.
  - apply get_parents_propose_ok; [done|]. intros tb2 Hd2. by rewrite (dlv_unique s _ _ _ Hd2 Hd).
  - intros e s' [He _]. unfold propose_error in He. by repeat split; intros ->; destruct He as [[?|[?|?]]|[? _]].
Qed.
End PaceSafe.

(** Replica 0 at the end of [good_run]: the genesis block is an ancestor of
    b1, and b5 is the only tail. *)
Definition good0 : HotStuffCore := rep good_net 0.
Definition good0_blk (p : nat) : Block := default (Block_genesis false 0) (hp good0 !! p).

Lemma good0_rep : reps good_net !! 0 = Some good0.
Proof. exact (rep_lookup good_net 0 ltac:(by vm_compute)). Qed.

Lemma good0_dlv p : (p <= 5)%nat -> dlv good0 p (good0_blk p).
Proof.
  intros Hp. assert (forallb (fun p => okb (hp good0 !! p) && delivered (good0_blk p)) (seq 0 6) = true) as Hall
    by (by vm_compute).
  rewrite forallb_forall in Hall. specialize (Hall p (proj2 (in_seq 6 0 p) ltac:(lia))).
  apply andb_true_iff in Hall as [Ho Hd]. split; [exact (default_ok _ (Block_genesis false 0) Ho)|exact Hd].
Qed.

Lemma good0_tails : tails good0 = {[5%nat]}.
Proof. by vm_compute. Qed.
Lemma good0_height : height (good0_blk 5) = 5.
Proof. by vm_compute. Qed.

#[local] Opaque good_net good0 good0_blk.

Lemma check_ancestry_decides_witness :
  wp (check_ancestry 0%nat 1%nat)
    (fun res s' => s' = good0 /\ (res = true <-> anc parH (hash (good0_blk 0)) (hash (good0_blk 1))))
    (fun _ _ => False) good0.
Proof.
  apply (check_ancestry_decides byz4 4 listen4 key4 rs4 good_net 0 good0);
    [exact assumptions4|exact good_reachable|exact good0_rep|apply good0_dlv; lia|apply good0_dlv; lia].
Defined.

Lemma picked_tail_proposable_witness :
  wp pm_hqc_update (fun t s' => s' = good0) (fun _ _ => False) good0.
Proof.
  eapply wp_mono; [apply (picked_tail_proposable byz4 4 listen4 key4 rs4 good_net 0 good0 [] [])| |];
    [exact assumptions4|exact good_reachable|exact good0_rep| | |].
  - rewrite good0_tails. intros t ->%elem_of_singleton. exists (good0_blk 5).
    rewrite good0_height. split; [apply good0_dlv; lia|done].
  - intros t s' [Hs _]. exact Hs.
  - intros e s' Hf. exact Hf.
Defined.
