(* ===== verification/Voting.v ===== *)
(** * Sending votes

    HotStuffBase::do_vote ([src/hotstuff.cpp]): the vote HotStuffCore made is
    sent to the replica the pace maker names. *)

From stdpp Require Import countable.
From S2P Require Import Prelude Certs Entity Core Agreement Proposer CoreInv CoreInit Network Safety Scenario Runs.

Section Voting.
Context `{BlockHash} `{!CommandType}.

(** The message for a peer, or one of the two exceptions: "unreachable line"
    and "rid %s not found". *)
Inductive VoteOut :=
  | SendVote (peer : PeerId) (v : Vote)
  | ThrowUnreachable
  | ThrowNotFound.

(** The promise of beat_resp is resolved already, so the continuation runs
    at once. *)
Definition do_vote (fixed : option ReplicaID) (s : HotStuffCore) (last_proposer : ReplicaID)
    (v : Vote) : VoteOut :=
  let proposer := beat_resp fixed last_proposer in
  if decide (proposer = id s) then ThrowUnreachable
  else match get_peer_id (config s) proposer with
       | Some peer => SendVote peer v
       | None => ThrowNotFound
       end.
End Voting.

(** Replica 0 receives b1 and then a proposal of it that names replica [p] as
    its proposer. *)
Definition forged_net : Net := default net4 (run byz4 true (receive 0 1 b1 false) net4).

Definition vote_outs (fixed : option ReplicaID) (s : HotStuffCore) : list VoteOut :=
  omap (fun e => match e with EvVote lp v => Some (do_vote fixed s lp v) | _ => None end) (trace s).

Definition vote_tag (o : VoteOut) : nat :=
  match o with SendVote _ _ => 0 | ThrowUnreachable => 1 | ThrowNotFound => 2 end.
Lemma single_unreachable l : vote_tag <$> l = [1%nat] -> l = [ThrowUnreachable].
Proof. destruct l as [|[] [|]]; by intros [=]. Qed.
Lemma single_not_found l : vote_tag <$> l = [2%nat] -> l = [ThrowNotFound].
Proof. destruct l as [|[] [|]]; by intros [=]. Qed.

Definition returned {A E} (r : A + E) : bool := match r with inl _ => true | inr _ => false end.
Lemma returned_tt {E} (r : unit + E) : returned r = true -> r = inl tt.
Proof. by destruct r as [[]|]. Qed.

(** A proposal names its proposer itself and nobody checks the name: with the
    pace makers that answer the last proposer, a faulty replica makes a
    correct one throw the exception of the "unreachable line" by naming it as
    the proposer of a valid block, and "rid not found" by naming a replica
    that does not exist. *)
Theorem forged_proposer_throws :
  rtc (step byz4 true) net4 forged_net /\
  forall p, p = 0 \/ p = 77 ->
    admissible byz4 true (nhist forged_net) (rep forged_net 0) (InProposal (mkProposal p 1)) /\
    (exec (InProposal (mkProposal p 1)) (rep forged_net 0)).1 = inl tt /\
    vote_outs None (exec (InProposal (mkProposal p 1)) (rep forged_net 0)).2 =
      [if decide (p = 0) then ThrowUnreachable else ThrowNotFound].
Proof.
  split.
  - apply run_reach. by vm_compute.
  - intros p Hp. split; [apply admissibleb_sound; destruct Hp as [-> | ->]; by vm_compute|].
    destruct Hp as [-> | ->]; (split; [apply returned_tt; by vm_compute|]).
    + apply single_unreachable. by vm_compute.
    + apply single_not_found. by vm_compute.
Qed.
