(* ===== verification/DeliveryCore.v ===== *)
(** * What the core never undoes

    The facts about HotStuffCore the delivery engine relies on, for every run
    of the core, whether it returns or throws: blocks keep their contents, a
    delivered block stays delivered, the storage forgets nothing and the
    configuration and the genesis block stay.  They need none of the
    protocol's invariants. *)

From stdpp Require Import strings.
From S2P Require Import Prelude Certs Entity Core.

Section CoreFrame.
Context `{BlockHash} `{!CommandType}.

Abbreviation CM := (M HotStuffCore Error).

(** Cached pointers are valid, blocks carry a certificate, and the genesis block is stored and delivered. *)
Record stored (s : HotStuffCore) : Prop := {
  sd_cache : forall h x, blk_cache (storage s) !! h = Some x ->
    exists b, hp s !! x = Some b /\ hash b = h;
  sd_block : forall x b, hp s !! x = Some b ->
    is_Some (qc (content b)) /\
    Z.of_nat (length (parent_hashes (content b))) < 2 ^ 32;
  sd_genesis : exists b, hp s !! b0 s = Some b /\ hash b = get_hash genesis_content /\ delivered b = true;
}.

Definition block_ext (b b' : Block) : Prop :=
  content b' = content b /\ hash b' = hash b /\ (delivered b = true -> delivered b' = true).

#[export] Instance block_ext_preorder : PreOrder block_ext.
Proof. split; [by intros b|]. intros b1 b2 b3 (? & ? & ?) (? & ? & ?). split; [congruence|]. split; [congruence|auto]. Qed.

Record evolves (s s' : HotStuffCore) : Prop := {
  ev_config : config s' = config s;
  ev_b0 : b0 s' = b0 s;
  ev_id : id s' = id s;
  ev_cache : blk_cache (storage s) ⊆ blk_cache (storage s');
  ev_block : forall x b, hp s !! x = Some b -> exists b', hp s' !! x = Some b' /\ block_ext b b';
}.

#[export] Instance evolves_preorder : PreOrder evolves.
Proof.
  split.
  - intros s. split; [done..|]. intros x b Hb. by exists b.
  - intros s1 s2 s3 [C1 B1 I1 K1 P1] [C2 B2 I2 K2 P2]. split; [congruence..|by etrans|].
    intros x b Hb. destruct (P1 x b Hb) as (b2 & Hb2 & ?). destruct (P2 x b2 Hb2) as (b3 & Hb3 & ?).
    exists b3. split; [done|by etrans].
Qed.

(** [s'] follows [s], stores no more blocks and delivers only those of [D]. *)
Definition same_block (D : Prop) (b b' : Block) : Prop := block_ext b b' /\ (delivered b' = true -> delivered b = true \/ D).

Record frame (D : ptr -> Prop) (s s' : HotStuffCore) : Prop := {
  fr_config : config s' = config s;
  fr_b0 : b0 s' = b0 s;
  fr_id : id s' = id s;
  fr_storage : storage s' = storage s;
  fr_length : length (hp s') = length (hp s);
  fr_block : forall x b, hp s !! x = Some b -> exists b', hp s' !! x = Some b' /\ same_block (D x) b b';
}.

#[export] Instance frame_preorder D : PreOrder (frame D).
Proof.
  split.
  - intros s. split; [done..|]. intros x b Hb. exists b. split; [done|]. split; [reflexivity|by left].
  - intros s1 s2 s3 [] []. split; [congruence..|]. intros x b Hb.
    destruct (fr_block0 x b Hb) as (b2 & Hb2 & E2 & D2). destruct (fr_block1 x b2 Hb2) as (b3 & Hb3 & E3 & D3).
    exists b3. split; [done|]. split; [by etrans|]. intros Hd. destruct (D3 Hd) as [?|?]; auto.
Qed.

Lemma frame_weaken (D D' : ptr -> Prop) s s' : (forall x, D x -> D' x) -> frame D s s' -> frame D' s s'.
Proof.
  intros HD []. split; [done..|]. intros x b Hb. destruct (fr_block0 x b Hb) as (b' & ? & ? & Hd).
  exists b'. split; [done|]. split; [done|]. intros Hd'. destruct (Hd Hd'); auto.
Qed.

Lemma frame_evolves D s s' : frame D s s' -> evolves s s'.
Proof.
  intros []. split; [done..|by rewrite fr_storage0|]. intros x b Hb. destruct (fr_block0 x b Hb) as (b' & ? & ? & _). by exists b'.
Qed.

(** Blocks of the later state come from the earlier one. *)
Lemma frame_block_inv D s s' x b' : frame D s s' -> hp s' !! x = Some b' ->
  exists b, hp s !! x = Some b /\ same_block (D x) b b'.
Proof.
  intros F Hx. destruct (lookup_lt_is_Some_2 (hp s) x) as [b Hb].
  { rewrite <- (fr_length _ _ _ F). by eapply lookup_lt_Some. }
  destruct (fr_block _ _ _ F x b Hb) as (b2 & Hb2 & ?). simplify_eq. by exists b.
Qed.

Lemma frame_stored D s s' : frame D s s' -> stored s -> stored s'.
Proof.
  intros F [Hc Hk Hg]. split.
  - intros h x Hx. rewrite (fr_storage _ _ _ F) in Hx. destruct (Hc h x Hx) as (b & Hxb & <-).
    destruct (fr_block _ _ _ F x b Hxb) as (b' & Hx' & (_ & ? & _) & _). by exists b'.
  - intros x b' Hx'. destruct (frame_block_inv _ _ _ _ _ F Hx') as (b & Hx & (-> & _ & _) & _). by apply (Hk x).
  - destruct Hg as (b & Hx & Hh & Hd). destruct (fr_block _ _ _ F _ b Hx) as (b' & Hx' & (_ & ? & Hd') & _).
    rewrite (fr_b0 _ _ _ F). exists b'. split; [done|]. split; [congruence|auto].
Qed.

End CoreFrame.

(** A computation that only moves along [R]. *)
Definition along {S E X} (R : S -> S -> Prop) (m : M S E X) : Prop := forall s, R s (m s).2.

Section Along.
Context {S E : Type} (R : S -> S -> Prop) `{!PreOrder R}.

Lemma along_ret {X} (a : X) : along R (mret a : M S E X).
Proof. intros s. reflexivity. Qed.
Lemma along_throw {X} (e : E) : along R (throw e : M S E X).
Proof. intros s. reflexivity. Qed.
Lemma along_get : along R (get : M S E S).
Proof. intros s. reflexivity. Qed.
Lemma along_from_option {X} (e : E) (o : option X) : along R (from_option e o : M S E X).
Proof. destruct o; intros s; reflexivity. Qed.
Lemma along_bind {X Y} (m : M S E X) (f : X -> M S E Y) :
  along R m -> (forall a, along R (f a)) -> along R (m ≫= f).
Proof.
  intros Hm Hf s. specialize (Hm s). unfold mbind, M_bind. destruct (m s) as [[a|e] s1]; simpl in *; [|done].
  etrans; [exact Hm|apply Hf].
Qed.
Lemma along_modify (f : S -> S) : (forall s, R s (f s)) -> along R (modify f : M S E unit).
Proof. by intros Hf s. Qed.
Lemma along_when b (m : M S E unit) : along R m -> along R (mwhen b m).
Proof. destruct b; [done|]. intros _ s. reflexivity. Qed.
End Along.

Create HintDb along.
#[export] Hint Resolve along_ret along_throw along_get along_from_option along_when : along.

Ltac along_steps := repeat (match goal with
  | |- along ?R (_ ≫= _) => eapply (along_bind R); [|intros]
  | |- along _ (if ?b then _ else _) => destruct b
  | |- along _ (match ?o with _ => _ end) => destruct o
  | |- forall _, _ => intros
  | |- along _ _ => solve [eauto with along typeclass_instances]
  end; cbn beta).

Section CoreMoves.
Context `{BlockHash} `{!CommandType}.
Abbreviation CM := (M HotStuffCore Error).

(** Assignments through a block pointer, and to members. *)
Lemma frame_upd D x f : (forall b, same_block (D x) b (f b)) -> along (frame D) (upd x f).
Proof.
  intros Hf s. unfold upd, modify. simpl. split; simpl; [done..|by rewrite length_alter|].
  intros y b Hb. destruct (decide (y = x)) as [->|].
  - exists (f b). by rewrite list_lookup_alter_eq, Hb.
  - exists b. rewrite list_lookup_alter_ne by done. split; [done|]. split; [reflexivity|by left].
Qed.

Lemma frame_modify D f : (forall s, frame D s (f s)) -> along (frame D) (modify f : CM unit).
Proof. by apply along_modify. Qed.
#[local] Hint Extern 2 (same_block _ _ _) => (split; [done|by left]) : along.
#[local] Hint Extern 2 (frame _ _ _) => (split; [done..|]; intros ? bl ?; exists bl; split; [done|]; split; [reflexivity|by left]) : along.
#[local] Hint Resolve frame_upd frame_modify : along.

Lemma frame_deref D x : along (frame D) (deref x).
Proof. unfold deref. along_steps. Qed.
Lemma frame_index0 D {A} (l : list A) : along (frame D) (index0 l).
Proof. unfold index0. along_steps. Qed.
Lemma frame_emit D e : along (frame D) (emit e).
Proof. unfold emit. along_steps. Qed.
#[local] Hint Resolve frame_deref frame_index0 frame_emit : along.

Lemma frame_get_delivered_blk D h : along (frame D) (get_delivered_blk h).
Proof. unfold get_delivered_blk. along_steps. Qed.
#[local] Hint Resolve frame_get_delivered_blk : along.

Lemma frame_push_parents D x hs : along (frame D) (push_parents x hs).
Proof. induction hs; simpl; along_steps. Qed.
#[local] Hint Resolve frame_push_parents : along.

Lemma frame_on_deliver_blk x : along (frame (eq x)) (on_deliver_blk x).
Proof.
  unfold on_deliver_blk. along_steps. apply frame_upd. intros b. split; [|by right].
  split; [done|]. by split.
Qed.

Lemma frame_on_qc_finish D x : along (frame D) (on_qc_finish x).
Proof. unfold on_qc_finish. along_steps. Qed.
Lemma frame_update_hqc D x q : along (frame D) (update_hqc x q).
Proof. unfold update_hqc, on_hqc_update. along_steps. Qed.
Lemma frame_sign D h : along (frame D) (sign h).
Proof. unfold sign. along_steps. Qed.
Lemma frame_commit_walk D n x l : along (frame D) (commit_walk n x l).
Proof. revert x l. induction n; intros; simpl; along_steps. Qed.
Lemma frame_decide_cmds D b i cs : along (frame D) (decide_cmds b i cs).
Proof. revert i. induction cs; intros; simpl; along_steps. Qed.
#[local] Hint Resolve frame_on_qc_finish frame_update_hqc frame_sign frame_commit_walk frame_decide_cmds : along.

Lemma frame_commit_blocks D l : along (frame D) (commit_blocks l).
Proof. induction l; simpl; along_steps. Qed.
#[local] Hint Resolve frame_commit_blocks : along.

Lemma frame_commit D x : along (frame D) (commit x).
Proof. unfold commit. along_steps. Qed.
#[local] Hint Resolve frame_commit : along.

Lemma frame_update D x : along (frame D) (update x).
Proof. unfold update. along_steps. Qed.
#[local] Hint Resolve frame_update : along.

Lemma frame_lock_walk D n x : along (frame D) (lock_walk n x).
Proof. revert x. induction n; intros; simpl; along_steps. Qed.
#[local] Hint Resolve frame_lock_walk : along.

Lemma frame_opinion_on D x : along (frame D) (opinion_on x).
Proof. unfold opinion_on. along_steps. Qed.
#[local] Hint Resolve frame_opinion_on : along.

Lemma frame_on_receive_proposal D p : along (frame D) (on_receive_proposal p).
Proof. unfold on_receive_proposal, sanity_check_delivered, on_receive_proposal_. along_steps. Qed.

Lemma frame_on_receive_vote D v : along (frame D) (on_receive_vote v).
Proof. unfold on_receive_vote. along_steps. Qed.
Lemma frame_get_hashes D ps : along (frame D) (get_hashes ps).
Proof. induction ps; simpl; along_steps. Qed.
End CoreMoves.
#[export] Hint Resolve frame_upd frame_modify frame_deref frame_index0 frame_emit frame_get_delivered_blk frame_push_parents
  frame_on_qc_finish frame_update_hqc frame_sign frame_commit frame_update frame_lock_walk frame_opinion_on
  frame_on_receive_proposal frame_on_receive_vote frame_get_hashes : along.
#[export] Hint Extern 2 (same_block _ _ _) => (split; [done|by left]) : along.
#[export] Hint Extern 2 (frame _ _ _) => (split; [done..|]; intros ? bl ?; exists bl; split; [done|]; split; [reflexivity|by left]) : along.

Section Facts.
Context `{BlockHash} `{!CommandType}.
Abbreviation CM := (M HotStuffCore Error).

Lemma wp_along {S E X} (R : S -> S -> Prop) (m : M S E X) (Q : X -> S -> Prop) (Xc : E -> S -> Prop) s :
  along R m -> (forall a s', R s s' -> m s = (inl a, s') -> Q a s') ->
  (forall e s', R s s' -> m s = (inr e, s') -> Xc e s') -> wp m Q Xc s.
Proof. intros Hm Hq Hx. specialize (Hm s). unfold wp. destruct (m s) as [[a|e] s'] eqn:He; auto. Qed.

Lemma delivered_mono s s' h : evolves s s' ->
  is_blk_delivered (hp s) (storage s) h = true -> is_blk_delivered (hp s') (storage s') h = true.
Proof.
  intros Hev. unfold is_blk_delivered. destruct (blk_cache (storage s) !! h) as [x|] eqn:Hx; [|done].
  rewrite (lookup_weaken _ _ _ _ Hx (ev_cache _ _ Hev)). destruct (hp s !! x) as [b|] eqn:Hb; [|done].
  destruct (ev_block _ _ Hev x b Hb) as (b' & -> & _ & _ & Hd). done.
Qed.

Lemma find_mono s s' h x : evolves s s' ->
  find_blk (storage s) h = Some x -> find_blk (storage s') h = Some x.
Proof. intros Hev Hx. by eapply lookup_weaken, ev_cache. Qed.

(** A stored pointer is delivered exactly when its digest is. *)
Lemma delivered_at s h x b : find_blk (storage s) h = Some x -> hp s !! x = Some b ->
  is_blk_delivered (hp s) (storage s) h = delivered b.
Proof. intros Hx Hb. unfold is_blk_delivered. unfold find_blk in Hx. by rewrite Hx, Hb. Qed.

Abbreviation moved := (fun _ : ptr => True).

Lemma on_deliver_blk_result x s :
  wp (on_deliver_blk x)
    (fun r s' => if r : bool then exists b b', hp s !! x = Some b /\ delivered b = false /\
                   hp s' !! x = Some b' /\ delivered b' = true
                 else s' = s /\ exists b, hp s !! x = Some b /\ delivered b = true) (fun _ _ => True) s.
Proof.
  unfold on_deliver_blk, deref. wp_steps; [by eauto| |done].
  match goal with Hh : hp s !! x = Some a |- _ => rename Hh into Hx end.
  apply (wp_along (frame moved)); [apply frame_upd; intros b; split; [done|by left]|intros _ s1 F1 _|done].
  wp_step. apply (wp_along (frame moved)); [apply frame_push_parents|intros _ s2 F2 _|done].
  wp_steps; try done. unfold index0. wp_steps; try done.
  apply (wp_along (frame moved)); [apply frame_upd; intros b; split; [done|by left]|intros _ s3 F3 _|done].
  wp_step. apply (wp_along (frame moved)).
  { destruct (qc (content a0)); [|intros s'; reflexivity].
    eapply (along_bind (frame moved)); [intros s'; reflexivity|intros]. eapply (along_bind (frame moved)).
    - destruct (find_blk _ _); intros s'; reflexivity.
    - intros. apply frame_upd. intros b. split; [done|by left]. }
  2: done.
  intros _ s4 F4 _. wp_step. apply wp_modify. set (s5 := set_tails _ s4). wp_steps.
  assert (frame moved s s4) as F by (etrans; [exact F1|etrans; [exact F2|etrans; [exact F3|exact F4]]]).
  destruct (ev_block _ _ (frame_evolves _ _ _ F) x a Hx) as (b5 & Hb5 & _).
  unfold upd. wp_steps. exists a, (set_delivered true b5). split; [done|].
  split; [by destruct (delivered a)|]. split; [|done]. subst s5. simpl. by rewrite list_lookup_alter_eq, Hb5.
Qed.

(** storage->add_blk. *)
Lemma store_blk_stored b s : stored s -> is_Some (qc (content b)) ->
  Z.of_nat (length (parent_hashes (content b))) < 2 ^ 32 -> delivered b = false ->
  exists x s', store_blk b s = (inl x, s') /\ evolves s s' /\ stored s' /\
    find_blk (storage s') (hash b) = Some x /\
    (forall h, is_blk_delivered (hp s') (storage s') h = true -> is_blk_delivered (hp s) (storage s) h = true) /\
    (size (blk_cache (storage s')) <= S (size (blk_cache (storage s))))%nat.
Proof.
  intros [Hc Hk Hg] Hq Hlen Hnd. unfold store_blk, add_blk. simpl.
  destruct (blk_cache (storage s) !! hash b) as [x|] eqn:Hx.
  - exists x, s. split; [by destruct s|]. repeat (split; [done|]). lia.
  - eexists _, _. split; [done|]. unfold find_blk. simpl.
    assert (forall y b', hp s !! y = Some b' -> (hp s ++ [b]) !! y = Some b') as Hold
      by (intros; by apply lookup_app_l_Some).
    split; [|split; [|split; [by rewrite lookup_insert_eq|split]]].
    + split; [done..|by apply insert_subseteq|]. intros y b' Hy. exists b'. split; [by apply Hold|reflexivity].
    + split.
      * intros h y. simpl. rewrite lookup_insert. case_decide; subst.
        -- intros [= <-]. exists b. split; [by rewrite lookup_app_r, Nat.sub_diag|done].
        -- intros Hy. destruct (Hc h y Hy) as (b' & Hb & <-). exists b'. split; [by apply Hold|done].
      * intros y b'. simpl. intros [Hy|[_ Hy]]%lookup_app_Some; [by apply (Hk y)|].
        apply list_lookup_singleton_Some in Hy as [_ <-]. done.
      * destruct Hg as (b' & Hb & ? & ?). exists b'. split; [by apply Hold|done].
    + intros h. unfold is_blk_delivered. simpl. rewrite lookup_insert. case_decide; subst.
      * rewrite lookup_app_r, Nat.sub_diag by done. simpl. by rewrite Hnd.
      * destruct (blk_cache (storage s) !! h) as [y|] eqn:Hy; [|done].
        destruct (Hc h y Hy) as (b' & Hb & _). by rewrite Hb, (Hold y b' Hb).
    + rewrite map_size_insert_None by done. lia.
Qed.

(** ** Own proposals *)

Definition sound_step (c c' : HotStuffCore) : Prop := evolves c c' /\ (stored c -> stored c').

#[export] Instance sound_step_preorder : PreOrder sound_step.
Proof. split; [done|]. intros c1 c2 c3 [] []. split; [by etrans|auto]. Qed.

Lemma frame_sound {X} D (m : CM X) : along (frame D) m -> along sound_step m.
Proof. intros Hm s. split; [eapply frame_evolves, Hm|eapply frame_stored, Hm]. Qed.

Lemma along_bind_post {S E X Y} (R : relation S) `{!PreOrder R} (P : X -> Prop) (m : M S E X) (f : X -> M S E Y) :
  along R m -> (forall a s s', m s = (inl a, s') -> P a) -> (forall a, P a -> along R (f a)) -> along R (m ≫= f).
Proof.
  intros Hm HP Hf s. specialize (Hm s). pose proof (fun a s' => HP a s s') as HPs. unfold mbind, M_bind.
  destruct (m s) as [[a|e] s1]; simpl in *; [|done]. etrans; [exact Hm|]. apply Hf. by eapply HPs.
Qed.

Lemma get_hashes_length ps s hs s' : get_hashes ps s = (inl hs, s') -> length hs = length ps.
Proof.
  revert hs s s'. induction ps as [|p ps IH]; intros hs s s'; simpl; [by intros [= <- _]|].
  unfold mbind, M_bind at 1. destruct (deref p s) as [[b|e] s1]; [|done]. unfold M_bind.
  destruct (get_hashes ps s1) as [[l|e] s2] eqn:Hg; [|done]. intros [= <- _]. simpl. f_equal. by eapply IH.
Qed.

Lemma store_blk_sound b : is_Some (qc (content b)) -> Z.of_nat (length (parent_hashes (content b))) < 2 ^ 32 ->
  delivered b = false -> along sound_step (store_blk b).
Proof.
  intros Hq Hl Hd s. split.
  - unfold store_blk, add_blk. destruct (blk_cache (storage s) !! hash b) as [x|] eqn:Hx; simpl.
    + split; simpl; [done..|]. intros y b' ?. by exists b'.
    + split; simpl; [done..|by apply insert_subseteq|]. intros y b' ?. exists b'. split; [by apply lookup_app_l_Some|reflexivity].
  - intros Hs. destruct (store_blk_stored b s Hs Hq Hl Hd) as (x & s' & -> & _ & ? & _). done.
Qed.

Lemma new_block_sound cs ps p0 ex : Z.of_nat (length ps) < 2 ^ 32 -> along sound_step (new_block cs ps p0 ex).
Proof.
  intros Hl. unfold new_block. eapply along_bind; [apply _|eapply (frame_sound moved); eauto with along|intros _].
  eapply (along_bind_post _ (fun hs => length hs = length ps)); [eapply (frame_sound moved); eauto with along|by intros ???; apply get_hashes_length|].
  intros hs Hhs. do 3 (eapply along_bind; [apply _|eapply (frame_sound moved); eauto with along typeclass_instances|intros]).
  eapply along_bind; [apply _|by apply store_blk_sound; [by eexists|simpl; lia|]|intros].
  eapply (frame_sound (fun _ => True)). along_steps; try done.
  intros s. eapply frame_weaken; [|apply frame_on_deliver_blk]. done.
Qed.

Lemma on_propose_sound cs ps ex : Z.of_nat (length ps) < 2 ^ 32 -> along sound_step (on_propose cs ps ex).
Proof.
  intros Hl. unfold on_propose, on_propose_. destruct ps as [|p0 ps]; [apply along_throw; apply _|].
  eapply along_bind; [apply _|by apply new_block_sound|intros]. eapply (frame_sound moved). along_steps.
Qed.

(** ** The blocks that are stored and not delivered *)

Definition undelivered (s : HotStuffCore) : gset uint256 :=
  filter (fun h => is_blk_delivered (hp s) (storage s) h = false) (dom (blk_cache (storage s))).

Lemma undelivered_spec s h :
  h ∈ undelivered s <-> is_Some (find_blk (storage s) h) /\ is_blk_delivered (hp s) (storage s) h = false.
Proof. unfold undelivered. rewrite elem_of_filter, elem_of_dom. naive_solver. Qed.

Lemma delivered_back D s s' h : frame D s s' -> is_blk_delivered (hp s') (storage s') h = true ->
  is_blk_delivered (hp s) (storage s) h = true \/ exists x, find_blk (storage s) h = Some x /\ D x.
Proof.
  intros F. unfold is_blk_delivered, find_blk. rewrite (fr_storage _ _ _ F).
  destruct (blk_cache (storage s) !! h) as [x|] eqn:Hx; [|done].
  destruct (hp s' !! x) as [b'|] eqn:Hb'; [|done]. intros Hd.
  destruct (frame_block_inv _ _ _ _ _ F Hb') as (b & -> & _ & Hb). destruct (Hb Hd); eauto.
Qed.

Lemma undelivered_frame D s s' : frame D s s' -> undelivered s' ⊆ undelivered s.
Proof.
  intros F h [Hs Hd]%undelivered_spec. apply undelivered_spec. rewrite (fr_storage _ _ _ F) in Hs.
  split; [done|]. apply not_true_is_false. intros Ht.
  eapply delivered_mono in Ht; [|by eapply frame_evolves]. by rewrite Hd in Ht.
Qed.

(** A block that was delivered leaves the set. *)
Lemma undelivered_deliver D s s' h : frame D s s' -> h ∈ undelivered s ->
  is_blk_delivered (hp s') (storage s') h = true -> (size (undelivered s') < size (undelivered s))%nat.
Proof.
  intros F Hh Hd. apply subset_size, strict_spec_alt. split; [by eapply undelivered_frame|].
  intros He. rewrite <- He in Hh. apply undelivered_spec in Hh as [_ Hh]. congruence.
Qed.
End Facts.

(** ** Delivered blocks have delivered parents *)

Section Rooted.
Context `{BlockHash} `{!CommandType}.
Abbreviation CM := (M HotStuffCore Error).
Abbreviation dlvd c h := (is_blk_delivered (hp c) (storage c) h = true).
Abbreviation still := (fun _ : ptr => False).

Definition rooted (c : HotStuffCore) : Prop :=
  forall x b h, hp c !! x = Some b -> delivered b = true -> h ∈ parent_hashes (content b) -> dlvd c h.

(** A step that delivers only blocks with delivered parents. *)
Record grows (c c' : HotStuffCore) : Prop := {
  gr_evolves : evolves c c';
  gr_new : forall x b', hp c' !! x = Some b' -> delivered b' = true ->
    (exists b, hp c !! x = Some b /\ delivered b = true) \/
    (forall h, h ∈ parent_hashes (content b') -> dlvd c' h);
}.

#[export] Instance grows_preorder : PreOrder grows.
Proof.
  split; [intros c; split; [reflexivity|eauto]|]. intros c1 c2 c3 [E1 N1] [E2 N2]. split; [by etrans|].
  intros x b3 Hx Hd. destruct (N2 x b3 Hx Hd) as [(b2 & Hb2 & Hd2)|?]; [|by right].
  destruct (N1 x b2 Hb2 Hd2) as [?|Hp]; [by left|right]. intros h.
  destruct (ev_block _ _ E2 x b2 Hb2) as (b & Hb & Hc & _). simplify_eq. rewrite Hc. intros Hh.
  by eapply delivered_mono, Hp.
Qed.

Lemma grows_rooted c c' : grows c c' -> rooted c -> rooted c'.
Proof.
  intros [E N] R x b' h Hx Hd Hh. destruct (N x b' Hx Hd) as [(b & Hb & Hdb)|Hp]; [|by apply Hp].
  destruct (ev_block _ _ E x b Hb) as (b2 & ? & Hc & _). simplify_eq. rewrite Hc in Hh.
  by eapply delivered_mono, (R x b).
Qed.

Lemma frame_grows c c' : frame still c c' -> grows c c'.
Proof.
  intros F. split; [by eapply frame_evolves|]. intros x b' Hx Hd. left.
  destruct (frame_block_inv _ _ _ _ _ F Hx) as (b & Hb & _ & Hs). exists b. split; [done|]. by destruct (Hs Hd).
Qed.

Lemma along_grows {X} (m : CM X) : along (frame still) m -> along grows m.
Proof. intros Hm s. apply frame_grows, Hm. Qed.

Lemma wp_frame {X} (m : CM X) (Q : X -> HotStuffCore -> Prop) (Xc : Error -> HotStuffCore -> Prop) s :
  along (frame still) m -> (forall a s', frame still s s' -> Q a s') -> (forall e s', frame still s s' -> Xc e s') -> wp m Q Xc s.
Proof. intros Hm HQ HX. apply (wp_along (frame still)); [done|intros; by apply HQ|intros; by apply HX]. Qed.

Lemma push_parents_delivered x hs s : wp (push_parents x hs)
  (fun _ s' => frame still s s' /\ forall h, h ∈ hs -> dlvd s' h) (fun _ s' => frame still s s') s.
Proof.
  revert s. induction hs as [|h hs IH]; intros s; simpl; [apply wp_ret; split; [reflexivity|by intros ? ?%elem_of_nil]|].
  apply wp_bind. unfold get_delivered_blk. apply wp_bind, wp_get.
  destruct (find_blk (storage s) h) as [p|] eqn:Hp; [|apply wp_throw; reflexivity]. unfold deref. apply wp_bind, wp_bind, wp_get.
  destruct (hp s !! p) as [b|] eqn:Hb; [|apply wp_throw; reflexivity]. apply wp_ret. destruct (delivered b) eqn:Hd; [|apply wp_throw; reflexivity]. apply wp_ret.
  assert (dlvd s h) as Hh by (by rewrite (delivered_at _ _ _ _ Hp Hb)).
  apply wp_bind, wp_frame; [eauto with along|intros _ s1 F1|done].
  eapply wp_mono; [apply IH| |].
  - intros _ s2 [F2 Hs]. assert (frame still s s2) as F by (by etrans). split; [done|].
    intros h' [->|?]%elem_of_cons; [|by apply Hs]. eapply delivered_mono; [by eapply frame_evolves|done].
  - intros e s2 F2. by etrans.
Qed.

Lemma grows_on_deliver_blk x : along grows (on_deliver_blk x).
Proof.
  intros s. enough (wp (on_deliver_blk x) (fun _ => grows s) (fun _ => grows s) s) as Hwp.
  { unfold wp in Hwp. by destruct (on_deliver_blk x s) as [[]]. }
  unfold on_deliver_blk. apply wp_bind. unfold deref at 1. apply wp_bind, wp_get.
  destruct (hp s !! x) as [b|] eqn:Hx; [|apply wp_throw; reflexivity]. apply wp_ret. destruct (delivered b); [apply wp_ret; reflexivity|].
  apply wp_bind, wp_frame; [eauto with along|intros _ s1 F1|intros; by apply frame_grows].
  apply wp_bind. eapply wp_mono; [apply push_parents_delivered| |intros e s2 F2; apply frame_grows; by etrans].
  intros _ s2 [F2 Hp]. assert (frame still s s2) as F by (by etrans). clear s1 F1 F2.
  destruct (ev_block _ _ (frame_evolves _ _ _ F) x b Hx) as (b2 & Hb2 & Hc2 & _).
  unfold deref at 1. apply wp_bind, wp_bind, wp_get. rewrite Hb2. apply wp_ret. rewrite Hc2.
  apply wp_bind, wp_frame; [eauto with along|intros p0 s3 F3|intros; apply frame_grows; by etrans].
  apply wp_bind, wp_frame; [eauto with along|intros pb s4 F4|intros; apply frame_grows; by repeat (etrans; [done|])].
  apply wp_bind, wp_frame; [eauto with along|intros _ s5 F5|intros; apply frame_grows; by repeat (etrans; [done|])].
  apply wp_bind, wp_frame; [along_steps|intros _ s6 F6|intros; apply frame_grows; by repeat (etrans; [done|])].
  apply wp_bind, wp_frame; [eauto with along|intros _ s7 F7|intros; apply frame_grows; by repeat (etrans; [done|])].
  assert (frame still s2 s7) as F27 by (by repeat (etrans; [done|])).
  assert (frame still s s7) as F07 by (by etrans).
  assert (frame (eq x) s7 (upd x (set_delivered true) s7).2) as F8.
  { apply frame_upd. intros b'. split; [by repeat split|by right]. }
  apply wp_bind. unfold wp. destruct (upd x (set_delivered true) s7) as [r s8] eqn:E8. cbn [snd] in F8.
  unfold upd, modify in E8. injection E8 as <- <-. set (s8 := set_heap _ s7) in *.
  pose proof (frame_evolves _ _ _ F8) as Ev. split; [etrans; [by eapply frame_evolves|done]|]. intros y b' Hb' Hd.
  destruct (frame_block_inv _ _ _ _ _ F8 Hb') as (b7 & Hb7 & (Hc7 & _) & Hs7).
  destruct (frame_block_inv _ _ _ _ _ F07 Hb7) as (b0' & Hb0' & (Hc0 & _) & Hs0).
  destruct (Hs7 Hd) as [Hd7|<-]; [left; exists b0'; split; [done|]; by destruct (Hs0 Hd7)|right].
  simplify_eq. rewrite Hc7, Hc0. intros h Hh. eapply (delivered_mono s2 s8); [|by apply Hp].
  etrans; [by eapply frame_evolves|done].
Qed.

Lemma grows_store_blk b : delivered b = false -> along grows (store_blk b).
Proof.
  intros Hd s. unfold store_blk, add_blk. destruct (blk_cache (storage s) !! hash b) as [x|] eqn:Hx; simpl.
  - split; simpl; [|eauto]. split; simpl; [done..|]. intros y b' ?. by exists b'.
  - split; simpl.
    + split; simpl; [done..|by apply insert_subseteq|]. intros y b' ?. exists b'. split; [by apply lookup_app_l_Some|reflexivity].
    + intros y b' [?|[_ Hy]]%lookup_app_Some Hdb; [eauto|]. apply list_lookup_singleton_Some in Hy as [_ <-]. congruence.
Qed.
#[local] Hint Resolve grows_on_deliver_blk grows_store_blk : along.

Lemma grows_on_propose cs ps ex : along grows (on_propose cs ps ex).
Proof.
  unfold on_propose, on_propose_, new_block. destruct ps as [|p0 ps]; [apply along_throw; apply _|].
  eapply along_bind; [apply _| |intros; apply along_grows; along_steps].
  repeat (eapply along_bind; [apply _|first [by apply grows_store_blk|apply grows_on_deliver_blk|apply along_grows; eauto with along typeclass_instances]|intros]).
  apply along_ret, _.
Qed.
End Rooted.
