(* ===== verification/Promise.v ===== *)
(** * Promises

    [include/hotstuff/promise.hpp], as built (CPPROMISE_USE_STACK_FREE is not
    defined): a promise is settled once, by resolve or reject, and runs the
    callbacks registered with then at that moment, in the order of their
    registration; a callback registered later runs at once.

    Promises are shared, so they live in a store and a [promise_t] is an index
    into it; the vector and the counter that the callbacks of [all] share
    live in a store of their own.  A closure is a value that says which
    function it is and what it captured; the body of the program's closures is
    given by an interpreter [user], which may itself create, settle and
    combine promises.  [run] carries the bound on the nesting of callbacks.
    The reference counts, which only decide when a promise is freed, are left
    out. *)

From S2P Require Import Prelude.

Abbreviation pid := nat (only parsing).

Section Promise.
Context {A K W E : Type}.

(** pm_any_t: a value of the program or the [values_t] of [all]; an empty
    one is [None]. *)
Inductive Any :=
  | AVal (a : A)
  | AValues (l : list (option Any)).

Inductive State := Pending | Fulfilled | Rejected.

(** Functions passed to then and fail: the program's, and the lambdas in
    cps_transform, all and race, which settle [npm]. *)
Inductive Fn :=
  | User (k : K)
  | AllSlot (results : nat) (idx : nat) (npm : pid)
  | FwdResolve (npm : pid)
  | FwdReject (npm : pid).

(** callback_t: what gen_on_fulfilled and gen_on_rejected build from a
    function, and the lambdas that pass the result or the reason on. *)
Inductive Callback :=
  | OnFulfilled (f : Fn) (npm : pid)
  | OnRejected (f : Fn) (npm : pid)
  | PassResult (npm : pid)
  | PassReason (npm : pid).

(** What a function returns: nothing, a value, or a promise. *)
Inductive Ret := RVoid | RVal (v : Any) | RPromise (p : pid).

Record Promise := mkPromise {
  fulfilled_callbacks : list Callback;
  rejected_callbacks : list Callback;
  state : State;
  result : option Any;
  reason : option Any;
}.
Definition Promise_new : Promise := mkPromise [] [] Pending None None.

(** The [size] (a [size_t]) and [results] of a call of [all]. *)
Record Join := mkJoin { jsize : Z; jresults : list (option Any) }.

Record Store := mkStore { pms : list Promise; joins : list Join; world : W }.

(** "mismatching promise value types", a dangling pointer, the model's
    bound, and what the program throws. *)
Inductive PmError := EMismatch | EDangling | EDepth | EUser (e : E).

Abbreviation PM := (M Store PmError).

Definition set_pms ps (s : Store) := mkStore ps (joins s) (world s).
Definition set_joins js (s : Store) := mkStore (pms s) js (world s).
Definition set_world w (s : Store) := mkStore (pms s) (joins s) w.

(** A computation of the program on its own state. *)
Definition lift {X} (m : M W E X) : PM X := fun s =>
  match m (world s) with
  | (inl x, w) => (inl x, set_world w s)
  | (inr e, w) => (inr (EUser e), set_world w s)
  end.

(** new Promise() *)
Definition new_promise : PM pid :=
  s ← get; _ ← modify (set_pms (pms s ++ [Promise_new])); mret (length (pms s)).
Definition load (p : pid) : PM Promise := s ← get; from_option EDangling (pms s !! p).
Definition store (p : pid) (x : Promise) : PM unit := modify (fun s => set_pms (<[p:=x]> (pms s)) s).

Definition add_on_fulfilled (p : pid) (c : Callback) : PM unit :=
  x ← load p;
  store p (mkPromise (fulfilled_callbacks x ++ [c]) (rejected_callbacks x) (state x) (result x) (reason x)).
Definition add_on_rejected (p : pid) (c : Callback) : PM unit :=
  x ← load p;
  store p (mkPromise (fulfilled_callbacks x) (rejected_callbacks x ++ [c]) (state x) (result x) (reason x)).

(** ** Settling and chaining, over the function that runs a callback *)

Section Ops.
Variable run : pid -> Callback -> PM unit.

Fixpoint run_all (p : pid) (cs : list Callback) : PM unit :=
  match cs with [] => mret tt | c :: cs => _ ← run p c; run_all p cs end.

Definition trigger_fulfill (p : pid) : PM unit :=
  x ← load p;
  _ ← store p (mkPromise (fulfilled_callbacks x) (rejected_callbacks x) Fulfilled (result x) (reason x));
  _ ← run_all p (fulfilled_callbacks x);
  x ← load p;
  store p (mkPromise [] (rejected_callbacks x) (state x) (result x) (reason x)).

Definition trigger_reject (p : pid) : PM unit :=
  x ← load p;
  _ ← store p (mkPromise (fulfilled_callbacks x) (rejected_callbacks x) Rejected (result x) (reason x));
  _ ← run_all p (rejected_callbacks x);
  x ← load p;
  store p (mkPromise (fulfilled_callbacks x) [] (state x) (result x) (reason x)).

(** resolve() and resolve(pm_any_t); the first leaves [result] empty. *)
Definition resolve (p : pid) (v : option Any) : PM unit :=
  x ← load p;
  match state x with
  | Pending =>
    _ ← store p (mkPromise (fulfilled_callbacks x) (rejected_callbacks x) Pending v (reason x));
    trigger_fulfill p
  | _ => mret tt
  end.

Definition reject (p : pid) (v : option Any) : PM unit :=
  x ← load p;
  match state x with
  | Pending =>
    _ ← store p (mkPromise (fulfilled_callbacks x) (rejected_callbacks x) Pending (result x) v);
    trigger_reject p
  | _ => mret tt
  end.

(** promise_t([=](promise_t &pm) { pm.resolve(v); }) *)
Definition resolved (v : option Any) : PM pid :=
  p ← new_promise; _ ← resolve p v; mret p.

(** then: with a handler of rejections, or without. *)
Definition then_ (p : pid) (f : Fn) (g : option Fn) : PM pid :=
  x ← load p;
  npm ← new_promise;
  let rej := match g with Some g => OnRejected g npm | None => PassReason npm end in
  _ ← match state x with
      | Pending => _ ← add_on_fulfilled p (OnFulfilled f npm); add_on_rejected p rej
      | Fulfilled => run p (OnFulfilled f npm)
      | Rejected => run p rej
      end;
  mret npm.

Definition fail (p : pid) (g : Fn) : PM pid :=
  x ← load p;
  npm ← new_promise;
  _ ← match state x with
      | Pending => _ ← add_on_rejected p (OnRejected g npm); add_on_fulfilled p (PassResult npm)
      | Fulfilled => run p (PassResult npm)
      | Rejected => run p (OnRejected g npm)
      end;
  mret npm.

Fixpoint all_loop (j : nat) (npm : pid) (idx : nat) (ps : list pid) : PM unit :=
  match ps with
  | [] => mret tt
  | p :: ps =>
    _ ← then_ p (AllSlot j idx npm) (Some (FwdReject npm));
    all_loop j npm (S idx) ps
  end.

Definition all (ps : list pid) : PM pid :=
  npm ← new_promise;
  match ps with
  | [] => throw EMismatch
  | _ =>
    s ← get;
    let j := length (joins s) in
    _ ← modify (set_joins (joins s ++ [mkJoin (Z.of_nat (length ps)) (replicate (length ps) None)]));
    _ ← all_loop j npm 0 ps;
    mret npm
  end.

Fixpoint race_loop (npm : pid) (ps : list pid) : PM unit :=
  match ps with
  | [] => mret tt
  | p :: ps => _ ← then_ p (FwdResolve npm) (Some (FwdReject npm)); race_loop npm ps
  end.
Definition race (ps : list pid) : PM pid :=
  npm ← new_promise; _ ← race_loop npm ps; mret npm.

(** The lambda that [all] passes to then. *)
Definition all_slot (j idx : nat) (npm : pid) (v : option Any) : PM unit :=
  s ← get;
  jn ← from_option EDangling (joins s !! j);
  let rs := <[idx := v]> (jresults jn) in
  let n := u64 (jsize jn - 1) in
  _ ← modify (set_joins (<[j := mkJoin n rs]> (joins s)));
  if n =? 0 then resolve npm (Some (AValues rs)) else mret tt.

Variable user : K -> option Any -> PM Ret.

(** A function applied to the value of a promise. *)
Definition call (f : Fn) (v : option Any) : PM Ret :=
  match f with
  | User k => user k v
  | AllSlot j idx npm => _ ← all_slot j idx npm v; mret RVoid
  | FwdResolve npm => _ ← resolve npm v; mret RVoid
  | FwdReject npm => _ ← reject npm v; mret RVoid
  end.

(** The lambdas of gen_on_fulfilled (with resolve) and gen_on_rejected
    (with reject): the chained promise follows what the function returned. *)
Definition chain (settle : pid -> option Any -> PM unit) (f : Fn) (v : option Any) (npm : pid) : PM unit :=
  r ← call f v;
  match r with
  | RVoid => settle npm None
  | RVal v => settle npm (Some v)
  | RPromise q => _ ← then_ q (FwdResolve npm) (Some (FwdReject npm)); mret tt
  end.

Definition run_callback (p : pid) (c : Callback) : PM unit :=
  x ← load p;
  match c with
  | OnFulfilled f npm => chain resolve f (result x) npm
  | OnRejected f npm => chain reject f (reason x) npm
  | PassResult npm => resolve npm (result x)
  | PassReason npm => reject npm (reason x)
  end.
End Ops.

(** Callbacks nested at most [fuel] deep.  [user] gets the function that
    runs callbacks. *)
Variable user : (pid -> Callback -> PM unit) -> K -> option Any -> PM Ret.

Fixpoint run (fuel : nat) (p : pid) (c : Callback) : PM unit :=
  match fuel with
  | O => throw EDepth
  | S fuel => run_callback (run fuel) (user (run fuel)) p c
  end.
End Promise.

(** ** The bound on the nesting

    A computation that stays below the bound gives the same result with any
    larger one. *)

Section Fuel.
Context {A K W E : Type}.
Abbreviation PM := (M (Store (A := A) (K := K) (W := W)) (PmError (E := E))).
Abbreviation RunFn := (pid -> Callback (K := K) -> PM unit).

Definition refines {X} (m m' : PM X) : Prop := forall s, (m s).1 = inr EDepth \/ m s = m' s.

Lemma refines_refl {X} (m : PM X) : refines m m.
Proof. by right. Qed.

Lemma refines_bind {X Y} (m m' : PM X) (f f' : X -> PM Y) :
  refines m m' -> (forall a, refines (f a) (f' a)) -> refines (m ≫= f) (m' ≫= f').
Proof.
  intros Hm Hf s. unfold mbind, M_bind. destruct (Hm s) as [Hd| <-].
  - destruct (m s) as [[a|e] s1]; simplify_eq/=. by left.
  - destruct (m s) as [[a|e] s1]; [apply Hf|by right].
Qed.

Lemma refines_trans {X} (m1 m2 m3 : PM X) : refines m1 m2 -> refines m2 m3 -> refines m1 m3.
Proof. intros R1 R2 s. destruct (R1 s) as [?| ->]; [by left|apply R2]. Qed.

Lemma refines_when b (m m' : PM unit) : refines m m' -> refines (mwhen b m) (mwhen b m').
Proof. destruct b; [done|]. intros _. apply refines_refl. Qed.
End Fuel.

Create HintDb refines.
#[export] Hint Resolve refines_refl refines_when : refines.

Ltac refine_steps := repeat (match goal with
  | |- refines (_ ≫= _) (_ ≫= _) => eapply refines_bind; [|intros]
  | |- refines ?m ?m => apply refines_refl
  | |- refines (if ?b then _ else _) _ => destruct b
  | |- refines (match ?o with _ => _ end) _ => destruct o
  | |- refines _ _ => solve [eauto with refines]
  end; cbn beta iota).

Section FuelOps.
Context {A K W E : Type}.
Abbreviation PM := (M (Store (A := A) (K := K) (W := W)) (PmError (E := E))).
Abbreviation RunFn := (pid -> Callback (K := K) -> PM unit).

Section Two.
Context (rn rn' : RunFn) (Hrn : forall p c, refines (rn p c) (rn' p c)).

Lemma run_all_refines p cs : refines (run_all rn p cs) (run_all rn' p cs).
Proof. induction cs; simpl; refine_steps. Qed.
#[local] Hint Resolve run_all_refines : refines.

Lemma trigger_fulfill_refines p : refines (trigger_fulfill rn p) (trigger_fulfill rn' p).
Proof. unfold trigger_fulfill. refine_steps. Qed.
Lemma trigger_reject_refines p : refines (trigger_reject rn p) (trigger_reject rn' p).
Proof. unfold trigger_reject. refine_steps. Qed.
#[local] Hint Resolve trigger_fulfill_refines trigger_reject_refines : refines.

Lemma resolve_refines p v : refines (resolve rn p v) (resolve rn' p v).
Proof. unfold resolve. refine_steps. Qed.
Lemma reject_refines p v : refines (reject rn p v) (reject rn' p v).
Proof. unfold reject. refine_steps. Qed.
#[local] Hint Resolve resolve_refines reject_refines : refines.

Lemma resolved_refines v : refines (resolved rn v) (resolved rn' v).
Proof. unfold resolved. refine_steps. Qed.
Lemma then_refines p f g : refines (then_ rn p f g) (then_ rn' p f g).
Proof. unfold then_. refine_steps. Qed.
#[local] Hint Resolve resolved_refines then_refines : refines.

Lemma all_loop_refines j npm i ps : refines (all_loop rn j npm i ps) (all_loop rn' j npm i ps).
Proof. revert i. induction ps; intros; simpl; refine_steps. Qed.
#[local] Hint Resolve all_loop_refines : refines.

Lemma all_refines ps : refines (all rn ps) (all rn' ps).
Proof. unfold all. refine_steps. Qed.
Lemma all_slot_refines j i npm v : refines (all_slot rn j i npm v) (all_slot rn' j i npm v).
Proof. unfold all_slot. refine_steps. Qed.
End Two.
#[local] Hint Resolve resolve_refines reject_refines then_refines all_slot_refines : refines.

Context (user : RunFn -> K -> option (Any (A := A)) -> PM (Ret (A := A))).
Hypothesis user_refines : forall rn rn', (forall p c, refines (rn p c) (rn' p c)) ->
  forall k v, refines (user rn k v) (user rn' k v).
#[local] Hint Resolve user_refines : refines.

Lemma run_callback_refines rn rn' : (forall p c, refines (rn p c) (rn' p c)) ->
  forall p c, refines (run_callback rn (user rn) p c) (run_callback rn' (user rn') p c).
Proof.
  intros Hrn p c. assert (forall f v, refines (call rn (user rn) f v) (call rn' (user rn') f v)) as Hc.
  { intros [] v; simpl; refine_steps. }
  unfold run_callback, chain. refine_steps.
Qed.

Lemma run_refines n n' p c : (n <= n')%nat -> refines (run user n p c) (run user n' p c).
Proof.
  revert n' p c. induction n as [|n IH]; intros n' p c Hn; [by left|]. destruct n' as [|n']; [lia|].
  simpl. apply run_callback_refines. intros q c'. apply IH. lia.
Qed.
End FuelOps.
#[export] Hint Resolve resolve_refines reject_refines then_refines resolved_refines all_refines : refines.
