(* ===== verification/Delivery.v ===== *)
(** * Fetching and delivering blocks

    The parts of class HotStuffBase ([include/hotstuff/hotstuff.h],
    [src/hotstuff.cpp]) that stand between the network and HotStuffCore: the
    contexts of blocks that are being fetched and delivered, async_fetch_blk,
    async_deliver_blk, the handlers of replica messages, and the verification
    promises of VeriPool ([include/hotstuff/task.h]) and of Block and Vote.

    A closure passed to then is one of [Closure], its body is a case of
    [user]; calls into the core are runs of the core's own definitions.  The
    pace maker's continuations of what the core resolves are not run here, as
    in Core. *)

From stdpp Require Import strings.
From S2P Require Import Prelude Certs Entity Core Promise.

(** Whether an implementation of PartCert or QuorumCert answers the
    asynchronous verify at once instead of through the pool. *)
Class AsyncVerify `{CertScheme} := {
  pc_inline : part_cert -> bool;
  qc_inline : quorum_cert -> ReplicaConfig -> bool;
}.

Section Delivery.
Context `{BlockHash} `{!CommandType} `{!AsyncVerify} `{EqDecision PeerId}.

(** Values of promises. *)
Inductive BVal := VBool (b : bool) | VBlk (p : ptr).

(** The closures of HotStuffBase and of Vote::verify, with their captures. *)
Inductive Closure :=
  | KFetched (blk_hash : uint256) (replica : PeerId)   (* async_deliver_blk, the block *)
  | KDeliver (blk : ptr)                               (* async_deliver_blk, all its conditions *)
  | KProposal (prop : Proposal)                        (* propose_handler *)
  | KVote (v : Vote)                                   (* vote_handler *)
  | KVoteVerify (v : Vote)                             (* Vote::verify *)
  | KRespond (replica : PeerId).                       (* req_blk_handler *)

(** FetchContext, without its timer and message. *)
Record FetchContext := mkFetch { fc_pm : pid; fc_replicas : list PeerId }.

(** A job of the pool is kept with the answer it will give. *)
Record Task := mkTask { t_result : bool; t_pm : pid }.

Inductive NetOut :=
  | SendReqBlock (to : PeerId) (h : uint256)
  | SendRespBlock (to : PeerId) (blks : list ptr).

Record Base := mkBase {
  core : HotStuffCore;
  blk_fetch_waiting : gmap uint256 FetchContext;
  blk_delivery_waiting : gmap uint256 pid;
  vpool : list Task;
  sent : list NetOut;                        (* newest first *)
  n_fetched : Z;                             (* uint64_t fetched *)
  n_delivered : Z;                           (* uint64_t delivered *)
}.

Definition set_core c b := mkBase c (blk_fetch_waiting b) (blk_delivery_waiting b) (vpool b) (sent b) (n_fetched b) (n_delivered b).
Definition set_fetch m b := mkBase (core b) m (blk_delivery_waiting b) (vpool b) (sent b) (n_fetched b) (n_delivered b).
Definition set_delivery m b := mkBase (core b) (blk_fetch_waiting b) m (vpool b) (sent b) (n_fetched b) (n_delivered b).
Definition set_vpool l b := mkBase (core b) (blk_fetch_waiting b) (blk_delivery_waiting b) l (sent b) (n_fetched b) (n_delivered b).
Definition set_sent l b := mkBase (core b) (blk_fetch_waiting b) (blk_delivery_waiting b) (vpool b) l (n_fetched b) (n_delivered b).
Definition set_counts f d b := mkBase (core b) (blk_fetch_waiting b) (blk_delivery_waiting b) (vpool b) (sent b) f d.

(** A failed assertion, an exception of verify ("rid not found"), or an
    exception of the core. *)
Inductive BaseError := EAssertion | EVerify | ECore (e : Error).

Abbreviation Pid := pid (only parsing).
Abbreviation St := (Store (A := BVal) (K := Closure) (W := Base)).
Abbreviation BM := (M St (PmError (E := BaseError))).
Abbreviation RunFn := (Pid -> Callback (K := Closure) -> BM unit).
Abbreviation val := (AVal (A := BVal)).

Definition lift_core {X} (m : M HotStuffCore Error X) : BM X := lift (fun b =>
  match m (core b) with
  | (inl x, c) => (inl x, set_core c b)
  | (inr e, c) => (inr (ECore e), set_core c b)
  end).
Definition get_base : BM Base := gets world.
Definition update_base (f : Base -> Base) : BM unit := modify (fun s => set_world (f (world s)) s).
Definition assertion (b : bool) : BM unit := if b then mret tt else throw (EUser EAssertion).

(** any_cast *)
Definition cast_bool (v : option (Any (A := BVal))) : BM bool :=
  match v with Some (AVal (VBool b)) => mret b | _ => throw EMismatch end.
Definition cast_blk (v : option (Any (A := BVal))) : BM ptr :=
  match v with Some (AVal (VBlk p)) => mret p | _ => throw EMismatch end.
Definition cast_values (v : option (Any (A := BVal))) : BM (list (option (Any (A := BVal)))) :=
  match v with Some (AValues l) => mret l | _ => throw EMismatch end.

(** storage->find_blk and is_blk_fetched, is_blk_delivered in the heap *)
Definition find_block (h : uint256) : BM (option ptr) :=
  b ← get_base; mret (find_blk (storage (core b)) h).
Definition blk_delivered (h : uint256) : BM bool :=
  b ← get_base; mret (is_blk_delivered (hp (core b)) (storage (core b)) h).

Definition send_msg (m : NetOut) : BM unit := update_base (fun b => set_sent (m :: sent b) b).

(** FetchContext::add_replica; the message goes out to the first replica. *)
Definition add_fetch_replica (h : uint256) (replica : PeerId) (fetch_now : bool) : BM unit :=
  b ← get_base;
  match blk_fetch_waiting b !! h with
  | None => mret tt
  | Some ctx =>
    _ ← mwhen (bool_decide (fc_replicas ctx = []) && fetch_now) (send_msg (SendReqBlock replica h));
    update_base (fun b => set_fetch (<[h := mkFetch (fc_pm ctx)
      (if decide (replica ∈ fc_replicas ctx) then fc_replicas ctx else fc_replicas ctx ++ [replica])]>
      (blk_fetch_waiting b)) b)
  end.

(** FetchContext::timeout_cb *)
Definition timeout_cb (h : uint256) : BM unit :=
  b ← get_base;
  match blk_fetch_waiting b !! h with
  | None => mret tt
  | Some ctx => update_base (fun b => set_sent (((fun r => SendReqBlock r h) <$> reverse (fc_replicas ctx)) ++ sent b) b)
  end.

(** VeriPool::verify *)
Definition vpool_verify (r : bool) : BM Pid :=
  p ← new_promise;
  _ ← update_base (fun b => set_vpool (vpool b ++ [mkTask r p]) b);
  mret p.

Section Run.
Variable rn : RunFn.

Definition answer (inline r : bool) : BM Pid :=
  if inline then resolved rn (Some (val (VBool r))) else vpool_verify r.

(** Block::verify; an exception of the configuration's get_pubkey is
    thrown here, when the jobs are made.  The jobs of one certificate, one for
    each signature, are one job here, whose answer is their conjunction: the
    promise of promise::all is resolved when the last of them is done.  There is
    at least one, since a quorum is not empty. *)
Definition block_verify_async (x : ptr) : BM Pid :=
  blk ← lift_core (deref x);
  b ← get_base;
  q ← from_option (EUser EAssertion) (qc (content blk));
  gb ← lift_core (deref (b0 (core b)));
  if decide (qc_obj_hash q = hash gb) then resolved rn (Some (val (VBool true))) else
  r ← from_option (EUser EVerify) (qc_verify q (config (core b)));
  answer (qc_inline q (config (core b))) r.

(** Vote::verify *)
Definition vote_verify_async (v : Vote) : BM Pid :=
  b ← get_base;
  pk ← from_option (EUser EVerify) (get_pubkey (config (core b)) (voter v));
  p ← answer (pc_inline (vote_cert v)) (pc_verify (vote_cert v) pk);
  then_ rn p (User (KVoteVerify v)) None.

Definition base_fetch_blk (x : ptr) : BM unit :=
  blk ← lift_core (deref x);
  _ ← update_base (fun b => set_counts (u64 (n_fetched b + 1)) (n_delivered b) b);
  b ← get_base;
  match blk_fetch_waiting b !! hash blk with
  | None => mret tt
  | Some ctx =>
    _ ← resolve rn (fc_pm ctx) (Some (val (VBlk x)));
    update_base (fun b => set_fetch (delete (hash blk) (blk_fetch_waiting b)) b)
  end.

(** HotStuffBase::on_deliver_blk *)
Definition base_deliver_blk (x : ptr) : BM bool :=
  blk ← lift_core (deref x);
  b ← get_base;
  _ ← assertion (forallb (is_blk_delivered (hp (core b)) (storage (core b))) (parent_hashes (content blk)));
  valid ← lift_core (on_deliver_blk x);
  _ ← mwhen valid (update_base (fun b => set_counts (n_fetched b) (u64 (n_delivered b + 1)) b));
  b ← get_base;
  match blk_delivery_waiting b !! hash blk with
  | None => mret true
  | Some pm =>
    _ ← if valid : bool then resolve rn pm (Some (val (VBlk x))) else reject rn pm (Some (val (VBlk x)));
    _ ← update_base (fun b => set_delivery (delete (hash blk) (blk_delivery_waiting b)) b);
    mret valid
  end.

Definition async_fetch_blk (h : uint256) (replica : option PeerId) (fetch_now : bool) : BM Pid :=
  o ← find_block h;
  match o with
  | Some x => resolved rn (Some (val (VBlk x)))
  | None =>
    b ← get_base;
    pm ← match blk_fetch_waiting b !! h with
         | Some ctx => mret (fc_pm ctx)
         | None =>
           pm ← new_promise;
           _ ← update_base (fun b => set_fetch (<[h := mkFetch pm []]> (blk_fetch_waiting b)) b);
           mret pm
         end;
    _ ← match replica with Some r => add_fetch_replica h r fetch_now | None => mret tt end;
    mret pm
  end.

Definition async_deliver_blk (h : uint256) (replica : PeerId) : BM Pid :=
  d ← blk_delivered h;
  o ← find_block h;
  if d : bool then
    x ← from_option (EUser (ECore ENull)) o;
    resolved rn (Some (val (VBlk x)))
  else
    b ← get_base;
    match blk_delivery_waiting b !! h with
    | Some pm => mret pm
    | None =>
      pm ← new_promise;
      _ ← update_base (fun b => set_delivery (<[h := pm]> (blk_delivery_waiting b)) b);
      pf ← async_fetch_blk h (Some replica) true;
      _ ← then_ rn pf (User (KFetched h replica)) None;
      mret pm
    end.

Fixpoint fetch_all (hs : list uint256) (replica : option PeerId) : BM (list Pid) :=
  match hs with
  | [] => mret []
  | h :: hs => p ← async_fetch_blk h replica true; ps ← fetch_all hs replica; mret (p :: ps)
  end.
Fixpoint deliver_all (hs : list uint256) (replica : PeerId) : BM (list Pid) :=
  match hs with
  | [] => mret []
  | h :: hs => p ← async_deliver_blk h replica; ps ← deliver_all hs replica; mret (p :: ps)
  end.

(** The continuation of async_deliver_blk once the block is there. *)
Definition on_fetched (x : ptr) (replica : PeerId) : BM unit :=
  blk ← lift_core (deref x);
  q ← from_option (EUser EAssertion) (qc (content blk));
  b ← get_base;
  p1 ← if decide (x = b0 (core b)) then resolved rn (Some (val (VBool true))) else block_verify_async x;
  p2 ← async_fetch_blk (qc_obj_hash q) (Some replica) true;
  ps ← deliver_all (parent_hashes (content blk)) replica;
  a ← all rn (p1 :: p2 :: ps);
  _ ← then_ rn a (User (KDeliver x)) None;
  mret tt.

(** The bodies of the closures. *)
Definition user (k : Closure) (v : option (Any (A := BVal))) : BM (Ret (A := BVal)) :=
  match k with
  | KFetched h replica => x ← cast_blk v; _ ← on_fetched x replica; mret RVoid
  | KDeliver x =>
    vs ← cast_values v;
    v0 ← from_option EMismatch (head vs);
    b ← cast_bool v0;
    _ ← if b : bool then _ ← base_deliver_blk x; mret tt else mret tt;
    mret RVoid
  | KProposal prop => _ ← lift_core (on_receive_proposal prop); mret RVoid
  | KVote vt =>
    vs ← cast_values v;
    v1 ← from_option EMismatch (vs !! 1%nat);
    b ← cast_bool v1;
    _ ← if b : bool then lift_core (on_receive_vote vt) else mret tt;
    mret RVoid
  | KVoteVerify vt =>
    b ← cast_bool v;
    mret (RVal (val (VBool (b && bool_decide (pc_obj_hash (vote_cert vt) = vote_blk_hash vt)))))
  | KRespond replica =>
    vs ← cast_values v;
    blks ← mapM cast_blk vs;
    _ ← send_msg (SendRespBlock replica blks);
    mret RVoid
  end.

(** ** The handlers

    The peer is [None] when the connection has no identity. *)

Definition propose_handler (proposer : ReplicaID) (c : Content) (peer : option PeerId) : BM unit :=
  match peer with
  | None => mret tt
  | Some peer =>
    x ← lift_core (store_blk (Block_parsed c));
    blk ← lift_core (deref x);
    pd ← async_deliver_blk (hash blk) peer;
    a ← all rn [pd];
    _ ← then_ rn a (User (KProposal (mkProposal proposer x))) None;
    mret tt
  end.

Definition vote_handler (v : Vote) (peer : option PeerId) : BM unit :=
  match peer with
  | None => mret tt
  | Some peer =>
    pd ← async_deliver_blk (vote_blk_hash v) peer;
    pv ← vote_verify_async v;
    a ← all rn [pd; pv];
    _ ← then_ rn a (User (KVote v)) None;
    mret tt
  end.

Definition req_blk_handler (hs : list uint256) (peer : option PeerId) : BM unit :=
  match peer with
  | None => mret tt
  | Some peer =>
    ps ← fetch_all hs None;
    a ← all rn ps;
    _ ← then_ rn a (User (KRespond peer)) None;
    mret tt
  end.

(** MsgRespBlock::postponed_parse, then a call per block. *)
Fixpoint store_blks (cs : list Content) : BM (list ptr) :=
  match cs with
  | [] => mret []
  | c :: cs => x ← lift_core (store_blk (Block_parsed c)); xs ← store_blks cs; mret (x :: xs)
  end.
Fixpoint fetched_all (xs : list ptr) : BM unit :=
  match xs with [] => mret tt | x :: xs => _ ← base_fetch_blk x; fetched_all xs end.
Definition resp_blk_handler (cs : list Content) : BM unit :=
  xs ← store_blks cs; fetched_all xs.

(** The handler of VeriPool's out_queue, for the job that is done. *)
Definition task_done (i : nat) : BM unit :=
  b ← get_base;
  match vpool b !! i with
  | None => mret tt
  | Some t =>
    _ ← resolve rn (t_pm t) (Some (val (VBool (t_result t))));
    update_base (fun b => set_vpool (filter (fun t' => t_pm t' ≠ t_pm t) (vpool b)) b)
  end.

Inductive BaseInput :=
  | BPropose (proposer : ReplicaID) (c : Content) (peer : option PeerId)
  | BVote (v : Vote) (peer : option PeerId)
  | BReqBlock (hs : list uint256) (peer : option PeerId)
  | BRespBlock (cs : list Content)
  | BTaskDone (i : nat)
  | BTimeout (h : uint256).

Definition handle (i : BaseInput) : BM unit :=
  match i with
  | BPropose p c peer => propose_handler p c peer
  | BVote v peer => vote_handler v peer
  | BReqBlock hs peer => req_blk_handler hs peer
  | BRespBlock cs => resp_blk_handler cs
  | BTaskDone i => task_done i
  | BTimeout h => timeout_cb h
  end.
End Run.

(** An event handled with callbacks nested at most [fuel] deep. *)
Definition handle_event (fuel : nat) (i : BaseInput) : BM unit := handle (run user fuel) i.
End Delivery.

(** ** The handlers below the bound on the nesting *)

Section DeliveryFuel.
Context `{BlockHash} `{!CommandType} `{!AsyncVerify} `{EqDecision PeerId}.
Abbreviation St := (Store (A := BVal) (K := Closure) (W := Base)).
Abbreviation BM := (M St (PmError (E := BaseError))).
Abbreviation RunFn := (pid -> Callback (K := Closure) -> BM unit).

Section Two.
Context (rn rn' : RunFn) (Hrn : forall p c, refines (rn p c) (rn' p c)).

Lemma answer_refines inline r : refines (answer rn inline r) (answer rn' inline r).
Proof. unfold answer. refine_steps. Qed.
#[local] Hint Resolve answer_refines : refines.

Lemma block_verify_refines x : refines (block_verify_async rn x) (block_verify_async rn' x).
Proof. unfold block_verify_async. refine_steps. Qed.
Lemma vote_verify_refines v : refines (vote_verify_async rn v) (vote_verify_async rn' v).
Proof. unfold vote_verify_async. refine_steps. Qed.
Lemma base_fetch_refines x : refines (base_fetch_blk rn x) (base_fetch_blk rn' x).
Proof. unfold base_fetch_blk. refine_steps. Qed.
Lemma base_deliver_refines x : refines (base_deliver_blk rn x) (base_deliver_blk rn' x).
Proof. unfold base_deliver_blk. refine_steps. Qed.
Lemma async_fetch_refines h r now : refines (async_fetch_blk rn h r now) (async_fetch_blk rn' h r now).
Proof. unfold async_fetch_blk. refine_steps. Qed.
#[local] Hint Resolve block_verify_refines vote_verify_refines base_fetch_refines base_deliver_refines async_fetch_refines : refines.

Lemma async_deliver_refines h r : refines (async_deliver_blk rn h r) (async_deliver_blk rn' h r).
Proof. unfold async_deliver_blk. refine_steps. Qed.
#[local] Hint Resolve async_deliver_refines : refines.

Lemma fetch_all_refines hs r : refines (fetch_all rn hs r) (fetch_all rn' hs r).
Proof. induction hs; simpl; refine_steps. Qed.
Lemma deliver_all_refines hs r : refines (deliver_all rn hs r) (deliver_all rn' hs r).
Proof. induction hs; simpl; refine_steps. Qed.
Lemma fetched_all_refines xs : refines (fetched_all rn xs) (fetched_all rn' xs).
Proof. induction xs; simpl; refine_steps. Qed.
#[local] Hint Resolve fetch_all_refines deliver_all_refines fetched_all_refines : refines.

Lemma on_fetched_refines x r : refines (on_fetched rn x r) (on_fetched rn' x r).
Proof. unfold on_fetched. refine_steps. Qed.
#[local] Hint Resolve on_fetched_refines : refines.

Lemma user_refines k v : refines (user rn k v) (user rn' k v).
Proof. destruct k; simpl; refine_steps. Qed.

Lemma handle_refines i : refines (handle rn i) (handle rn' i).
Proof.
  destruct i as [pr c [p|]|v [p|]|hs [p|]|cs|i|h]; simpl;
    unfold propose_handler, vote_handler, req_blk_handler, resp_blk_handler, task_done; refine_steps.
Qed.
End Two.

Lemma handle_event_refines n n' i : (n <= n')%nat -> refines (handle_event n i) (handle_event n' i).
Proof.
  intros Hn. apply handle_refines. intros p c. apply run_refines; [|done]. intros. by apply user_refines.
Qed.
End DeliveryFuel.
