(* ===== verification/DeliveryInv.v ===== *)
(** * Invariant of the delivery engine

    Every promise of the engine has a meaning: what its value will say about
    the core's state.  The invariant types the promises, the callbacks and the
    joins of [all] with a list of meanings that only grows, and counts the
    callbacks that are still to run as tokens: one per open slot of a join,
    one per block whose delivery is under way.  [T] holds the tokens of
    callbacks that are running, so that the invariant can be stated between
    any two steps of a handler. *)

From stdpp Require Import strings.
From S2P Require Import Prelude Certs Entity Core DeliveryCore Promise Delivery.

Section Typing.
Context `{BlockHash} `{!CommandType} `{!AsyncVerify} `{EqDecision PeerId}.

Abbreviation St := (Store (A := BVal) (K := Closure) (W := Base)).
Abbreviation BM := (M St (PmError (E := BaseError))).
Abbreviation RunFn := (pid -> Callback (K := Closure) -> BM unit).
Abbreviation Val := (option (Any (A := BVal))).

(** ** Meanings of promises *)

Inductive Meaning :=
  | MFetch (h : uint256)        (* the block with this digest, stored *)
  | MDeliver (h : uint256)      (* the same, delivered *)
  | MVerify (x : ptr)           (* whether the block verifies *)
  | MPart (v : Vote)            (* whether the vote's certificate verifies *)
  | MVote (v : Vote)            (* whether the vote verifies *)
  | MJoin (j : nat)             (* the values of a join's slots *)
  | MNone.                      (* the promise that a discarded then returned *)

Definition sat0 (c : HotStuffCore) (m : Meaning) (v : Val) : Prop :=
  match m with
  | MFetch h => exists x, v = Some (AVal (VBlk x)) /\ find_blk (storage c) h = Some x
  | MDeliver h => exists x, v = Some (AVal (VBlk x)) /\ find_blk (storage c) h = Some x /\
      is_blk_delivered (hp c) (storage c) h = true
  | MVerify x => exists r b, v = Some (AVal (VBool r)) /\ hp c !! x = Some b /\
      block_verify (config c) (get_hash genesis_content) b = Some r
  | MPart vt => exists pk, get_pubkey (config c) (voter vt) = Some pk /\
      v = Some (AVal (VBool (pc_verify (vote_cert vt) pk)))
  | MVote vt => exists r, v = Some (AVal (VBool r)) /\ vote_verify (config c) vt = Some r
  | MJoin _ => False
  | MNone => True
  end.

(** The promises a join collects. *)
Definition slot_meaning (m : Meaning) : Prop :=
  match m with MFetch _ | MDeliver _ | MVerify _ | MVote _ => True | _ => False end.

Abbreviation Joins := (list (pid * list pid)).

Definition sat (c : HotStuffCore) (G : list Meaning) (D : Joins) (m : Meaning) (v : Val) : Prop :=
  match m with
  | MJoin j => exists npm qs rs, D !! j = Some (npm, qs) /\ v = Some (AValues rs) /\
      Forall2 (fun q w => exists m', G !! q = Some m' /\ sat0 c m' w) qs rs
  | _ => sat0 c m v
  end.

(** ** Tokens *)

Inductive Tok :=
  | TSlot (j idx : nat)         (* a slot callback that has not run *)
  | TDrive (h : uint256)        (* a block whose delivery goes on *)
  | TOpen (p : pid)             (* a pending promise that this handler will settle *)
  | TDone (h : uint256).        (* a delivered block whose context is still there *)

#[export] Instance Tok_eq_dec : EqDecision Tok.
Proof. solve_decision. Defined.

Definition tok_of (c : HotStuffCore) (cb : Callback (K := Closure)) : list Tok :=
  match cb with
  | OnFulfilled (AllSlot j idx _) _ => [TSlot j idx]
  | OnFulfilled (User (KFetched h _)) _ => [TDrive h]
  | OnFulfilled (User (KDeliver x)) _ => match hp c !! x with Some b => [TDrive (hash b)] | None => [] end
  | _ => []
  end.

Definition pm_toks (c : HotStuffCore) (x : Promise (A := BVal) (K := Closure)) : list Tok :=
  match state x with Pending => fulfilled_callbacks x ≫= tok_of c | _ => [] end.
Definition outs (s : St) : list Tok := pms s ≫= pm_toks (core (world s)).

(** ** Callbacks *)

Definition meanings (G : list Meaning) (qs : list pid) (ms : list Meaning) : Prop :=
  Forall2 (fun q m => G !! q = Some m) qs ms.

Definition joined (G : list Meaning) (D : Joins) (m : Meaning) (ms : list Meaning) : Prop :=
  exists j npm qs, m = MJoin j /\ D !! j = Some (npm, qs) /\ meanings G qs ms.

(** What the delivery of a block waits for. *)
Definition deps (b : Block) (x : ptr) (q : quorum_cert) : list Meaning :=
  MVerify x :: MFetch (qc_obj_hash q) :: (MDeliver <$> parent_hashes (content b)).

Definition cb_ok (c : HotStuffCore) (G : list Meaning) (D : Joins) (p : pid) (m : Meaning)
    (cb : Callback (K := Closure)) : Prop :=
  match cb with
  | OnFulfilled (User (KFetched h _)) npm => m = MFetch h /\ G !! npm = Some MNone
  | OnFulfilled (User (KDeliver x)) npm => G !! npm = Some MNone /\
      exists b q, hp c !! x = Some b /\ find_blk (storage c) (hash b) = Some x /\
        qc (content b) = Some q /\ joined G D m (deps b x q)
  | OnFulfilled (User (KProposal prop)) npm => G !! npm = Some MNone /\
      exists h, find_blk (storage c) h = Some (prop_blk prop) /\ joined G D m [MDeliver h]
  | OnFulfilled (User (KVote v)) npm => G !! npm = Some MNone /\
      joined G D m [MDeliver (vote_blk_hash v); MVote v]
  | OnFulfilled (User (KVoteVerify v)) npm => m = MPart v /\ G !! npm = Some (MVote v)
  | OnFulfilled (User (KRespond _)) npm => G !! npm = Some MNone /\
      exists hs, joined G D m (MFetch <$> hs)
  | OnFulfilled (AllSlot j idx npm0) npm => G !! npm = Some MNone /\ slot_meaning m /\
      exists qs, D !! j = Some (npm0, qs) /\ qs !! idx = Some p
  | _ => False
  end.

(** What keeps a pending promise from being settled. *)
Definition waits_for (s : St) (q : pid) (m : Meaning) : Prop :=
  match m with
  | MFetch h => exists ctx, blk_fetch_waiting (world s) !! h = Some ctx /\ fc_pm ctx = q
  | MDeliver h => blk_delivery_waiting (world s) !! h = Some q
  | MVerify _ | MPart _ => exists t, t ∈ vpool (world s) /\ t_pm t = q
  | MJoin j => exists x idx, joins s !! j = Some x /\ jresults x !! idx = Some None
  | MVote _ | MNone => True
  end.

(** A block whose certificate does not verify is not delivered. *)
Definition bad_block (c : HotStuffCore) (h : uint256) : Prop :=
  exists x b, find_blk (storage c) h = Some x /\ hp c !! x = Some b /\
    block_verify (config c) (get_hash genesis_content) b = Some false.

Definition is_delivered (c : HotStuffCore) (h : uint256) : Prop := is_blk_delivered (hp c) (storage c) h = true.

Definition promise_ok (c : HotStuffCore) G D (p : pid) (x : Promise (A := BVal) (K := Closure)) : Prop :=
  exists m, G !! p = Some m /\
    match state x with
    | Pending => Forall (cb_ok c G D p m) (fulfilled_callbacks x)
    | Fulfilled => sat c G D m (result x)
    | Rejected => False
    end.

Definition join_ok (c : HotStuffCore) (G : list Meaning) (D : Joins) (j : nat) (x : Join (A := BVal)) : Prop :=
  exists npm qs, D !! j = Some (npm, qs) /\ G !! npm = Some (MJoin j) /\
    Z.of_nat (length qs) < 2 ^ 64 /\ length (jresults x) = length qs /\
    jsize x = Z.of_nat (length (filter (fun r => r = None) (jresults x))) /\
    forall idx w, jresults x !! idx = Some (Some w) ->
      exists q m, qs !! idx = Some q /\ G !! q = Some m /\ sat0 c m (Some w).

Record Inv (G : list Meaning) (D : Joins) (s : St) (T : list Tok) : Prop := {
  iv_lenG : length G = length (pms s);
  iv_lenD : length D = length (joins s);
  iv_stored : stored (core (world s));
  iv_pm : forall p x, pms s !! p = Some x -> promise_ok (core (world s)) G D p x;
  iv_join : forall j x, joins s !! j = Some x -> join_ok (core (world s)) G D j x;
  iv_joinpm : forall p j e, G !! p = Some (MJoin j) -> D !! j = Some e -> e.1 = p;
  iv_nodup : NoDup (outs s ++ T);
  iv_slot : forall j idx, TSlot j idx ∈ outs s ++ T <->
    exists x, joins s !! j = Some x /\ jresults x !! idx = Some None;
  iv_drive : forall h, TDrive h ∈ outs s ++ T ->
    is_Some (blk_delivery_waiting (world s) !! h) /\ ~ is_delivered (core (world s)) h;
  iv_dw : forall h q, blk_delivery_waiting (world s) !! h = Some q ->
    G !! q = Some (MDeliver h) /\
    (TDrive h ∈ outs s ++ T \/ TDone h ∈ T \/ bad_block (core (world s)) h);
  iv_done : forall h, TDone h ∈ T -> is_delivered (core (world s)) h;
  iv_fw : forall h ctx, blk_fetch_waiting (world s) !! h = Some ctx -> G !! fc_pm ctx = Some (MFetch h);
  iv_pool : forall t, t ∈ vpool (world s) -> exists m, G !! t_pm t = Some m /\
    match m with MVerify _ | MPart _ => sat0 (core (world s)) m (Some (AVal (VBool (t_result t)))) | _ => False end;
  iv_alloc : forall q, TOpen q ∈ T -> (q < length (pms s))%nat;
  iv_open : forall q m x, G !! q = Some m -> pms s !! q = Some x -> state x = Pending ->
    waits_for s q m \/ TOpen q ∈ T;
}.

(** ** Monotonicity *)

Lemma sat0_mono c c' m v : evolves c c' -> sat0 c m v -> sat0 c' m v.
Proof.
  intros Ev. destruct m; simpl; try done.
  - intros (x & -> & Hx). exists x. split; [done|]. by eapply find_mono.
  - intros (x & -> & Hx & Hd). exists x. split; [done|]. split; [by eapply find_mono|by eapply delivered_mono].
  - intros (r & b & -> & Hb & Hv). destruct (ev_block _ _ Ev x b Hb) as (b' & Hb' & Hc & _).
    exists r, b'. split; [done|]. split; [done|]. unfold block_verify in *. by rewrite Hc, (ev_config _ _ Ev).
  - intros (pk & Hpk & ->). exists pk. by rewrite (ev_config _ _ Ev).
  - intros (r & -> & Hr). exists r. by rewrite (ev_config _ _ Ev).
Qed.

Lemma bad_block_mono c c' h : evolves c c' -> bad_block c h -> bad_block c' h.
Proof.
  intros Ev (x & b & Hx & Hb & Hv). destruct (ev_block _ _ Ev x b Hb) as (b' & Hb' & Hc & _).
  exists x, b'. split; [by eapply find_mono|]. split; [done|]. unfold block_verify in *. by rewrite Hc, (ev_config _ _ Ev).
Qed.

Section Mono.
Context (c c' : HotStuffCore) (G G' : list Meaning) (D D' : Joins).
Hypothesis (Ev : evolves c c') (HG : G `prefix_of` G') (HD : D `prefix_of` D').

Lemma lookup_G q m : G !! q = Some m -> G' !! q = Some m.
Proof. intros Hq. by eapply prefix_lookup_Some. Qed.
Lemma lookup_D j x : D !! j = Some x -> D' !! j = Some x.
Proof. intros Hj. by eapply prefix_lookup_Some. Qed.

Lemma meanings_mono qs ms : meanings G qs ms -> meanings G' qs ms.
Proof. intros Hm. eapply Forall2_impl; [exact Hm|]. intros q m. apply lookup_G. Qed.

Lemma joined_mono m ms : joined G D m ms -> joined G' D' m ms.
Proof.
  intros (j & npm & qs & -> & Hj & Hm). exists j, npm, qs. split; [done|].
  split; [by apply lookup_D|by apply meanings_mono].
Qed.

Lemma sat_mono m v : sat c G D m v -> sat c' G' D' m v.
Proof.
  destruct m; try by apply sat0_mono.
  intros (npm & qs & rs & Hj & -> & Hs). exists npm, qs, rs. split; [by apply lookup_D|]. split; [done|].
  eapply Forall2_impl; [exact Hs|]. intros q w (m' & Hq & Hw). exists m'. split; [by apply lookup_G|by eapply sat0_mono].
Qed.

Lemma cb_ok_mono p m cb : cb_ok c G D p m cb -> cb_ok c' G' D' p m cb.
Proof.
  pose proof lookup_G as LG. pose proof joined_mono as LJ. pose proof (find_mono c c') as LF.
  destruct cb as [[[h r|x|prop|v|v|r]|j idx npm0|npm0|npm0] npm|f npm|npm|npm]; simpl; try done.
  - intros [-> ?]. auto.
  - intros (? & b & q & Hb & Hx & Hq & Hj). split; [auto|].
    destruct (ev_block _ _ Ev x b Hb) as (b' & Hb' & Hc & Hh & _).
    exists b', q. split; [done|]. rewrite Hh, Hc. split; [auto|]. split; [done|].
    unfold deps. rewrite Hc. by apply LJ.
  - intros (? & h & ? & ?). split; [auto|]. exists h. auto.
  - intros (? & ?). auto.
  - intros [-> ?]. auto.
  - intros (? & hs & ?). split; [auto|]. exists hs. auto.
  - intros (? & ? & qs & Hj & Hq). split; [auto|]. split; [done|]. exists qs. split; [by apply lookup_D|done].
Qed.

Lemma tok_of_mono p m cb : cb_ok c G D p m cb -> tok_of c' cb = tok_of c cb.
Proof.
  destruct cb as [[[h r|x|prop|v|v|r]|j idx npm0|npm0|npm0] npm|f npm|npm|npm]; simpl; try done.
  intros (? & b & q & Hb & _). rewrite Hb. destruct (ev_block _ _ Ev x b Hb) as (b' & -> & _ & Hh & _). by rewrite Hh.
Qed.

Lemma toks_mono p m cbs : Forall (cb_ok c G D p m) cbs -> cbs ≫= tok_of c' = cbs ≫= tok_of c.
Proof.
  induction 1 as [|cb cbs Hcb _ IH]; [done|]. rewrite !bind_cons, IH. f_equal. by eapply tok_of_mono.
Qed.

Lemma promise_ok_mono p x : promise_ok c G D p x -> promise_ok c' G' D' p x.
Proof.
  intros (m & Hm & Hx). exists m. split; [by apply lookup_G|]. destruct (state x); [|by apply sat_mono|done].
  eapply Forall_impl; [exact Hx|]. intros cb. apply cb_ok_mono.
Qed.

Lemma pm_toks_mono p x : promise_ok c G D p x -> pm_toks c' x = pm_toks c x.
Proof. intros (m & _ & Hx). unfold pm_toks. destruct (state x); [|done..]. by eapply toks_mono. Qed.

Lemma join_ok_mono j x : join_ok c G D j x -> join_ok c' G' D' j x.
Proof.
  intros (npm & qs & Hj & Hn & Hl & Hr & Hs & Hw). exists npm, qs.
  split; [by apply lookup_D|]. split; [by apply lookup_G|]. split; [done|]. split; [done|]. split; [done|].
  intros idx w Hi. destruct (Hw idx w Hi) as (q & m & ? & ? & ?). exists q, m. split; [done|].
  split; [by apply lookup_G|by eapply sat0_mono].
Qed.
End Mono.


Lemma bind_ext_in {X Y} (f g : X -> list Y) l : (forall x, x ∈ l -> f x = g x) -> l ≫= f = l ≫= g.
Proof.
  induction l as [|x l IH]; intros Hf; [done|]. rewrite !bind_cons. f_equal; [apply Hf; left|].
  apply IH. intros y Hy. apply Hf. by right.
Qed.

Lemma bind_insert_perm {X Y} (f : X -> list Y) l i x : l !! i = Some x ->
  exists R, l ≫= f ≡ₚ f x ++ R /\ forall y, <[i:=y]> l ≫= f ≡ₚ f y ++ R.
Proof.
  intros Hi. exists ((take i l ++ drop (S i) l) ≫= f). split; [|intros y].
  - rewrite <- (take_drop_middle l i x Hi) at 1. rewrite !bind_app, bind_cons. solve_Permutation.
  - rewrite insert_take_drop by (by eapply lookup_lt_Some). rewrite !bind_app, bind_cons. solve_Permutation.
Qed.

Lemma outs_mono G D s c' : evolves (core (world s)) c' ->
  (forall p x, pms s !! p = Some x -> promise_ok (core (world s)) G D p x) ->
  pms s ≫= pm_toks c' = outs s.
Proof.
  intros Ev Hp. apply bind_ext_in. intros x [p Hx]%list_elem_of_lookup. by eapply pm_toks_mono, Hp.
Qed.

(** ** Steps of the invariant *)

Lemma inv_perm G D s T T' : T ≡ₚ T' -> Inv G D s T -> Inv G D s T'.
Proof.
  intros HT []. split; try done.
  - by rewrite <- HT.
  - intros j idx. rewrite <- HT. apply iv_slot0.
  - intros h. rewrite <- HT. apply iv_drive0.
  - intros h q. rewrite <- HT. apply iv_dw0.
  - intros h. rewrite <- HT. apply iv_done0.
  - intros q. rewrite <- HT. apply iv_alloc0.
  - intros q m x ???. rewrite <- HT. by eapply iv_open0.
Qed.

(** A token of an open promise can be dropped, and picked up. *)
Lemma inv_drop_open G D s T q : Inv G D s (TOpen q :: T) ->
  (forall m x, G !! q = Some m -> pms s !! q = Some x -> state x = Pending -> waits_for s q m) -> Inv G D s T.
Proof.
  intros [] Hw. assert (forall k, k <> TOpen q -> k ∈ outs s ++ T <-> k ∈ outs s ++ TOpen q :: T) as Hk.
  { intros k Hk. rewrite !elem_of_app, elem_of_cons. naive_solver. }
  split; try done.
  - eapply sublist_NoDup; [exact iv_nodup0|]. apply sublist_app; [done|]. by apply sublist_cons.
  - intros j idx. rewrite Hk by done. apply iv_slot0.
  - intros h. rewrite Hk by done. apply iv_drive0.
  - intros h p Hp. destruct (iv_dw0 h p Hp) as [? [Hd|[Hd|?]]]; split; auto.
    + left. by apply Hk.
    + right; left. by apply elem_of_cons in Hd as [?|?].
  - intros h Hh. apply iv_done0. by right.
  - intros p Hp. apply iv_alloc0. by right.
  - intros p m x Hm Hx Hs. destruct (iv_open0 p m x Hm Hx Hs) as [?|[[= ->]|?]%elem_of_cons]; [by left| |by right].
    left. by eapply Hw.
Qed.

Definition cb_tok (k : Tok) : Prop := match k with TSlot _ _ | TDrive _ => True | _ => False end.

Lemma tok_of_cb c cb k : k ∈ tok_of c cb -> cb_tok k.
Proof.
  destruct cb as [[[]|j idx npm0|npm0|npm0] npm|f npm|npm|npm]; simpl; try (by intros ?%elem_of_nil);
    try (by intros ->%list_elem_of_singleton).
  destruct (hp c !! _); [by intros ->%list_elem_of_singleton|by intros ?%elem_of_nil].
Qed.

Lemma pm_toks_cb c x k : k ∈ pm_toks c x -> cb_tok k.
Proof.
  unfold pm_toks. destruct (state x); [|by intros ?%elem_of_nil..].
  intros (cb & Hk & _)%list_elem_of_bind. by eapply tok_of_cb.
Qed.

Lemma outs_cb s k : k ∈ outs s -> cb_tok k.
Proof. intros (x & Hk & _)%list_elem_of_bind. by eapply pm_toks_cb. Qed.

Definition with_core (c : HotStuffCore) (s : St) : St := set_world (set_core c (world s)) s.

Lemma waits_for_core c s q m : waits_for (with_core c s) q m <-> waits_for s q m.
Proof. by destruct m. Qed.

(** The core moves on without delivering a block that is under way. *)
Lemma inv_core G D s T c' : Inv G D s T -> evolves (core (world s)) c' -> stored c' ->
  (forall h, TDrive h ∈ outs s ++ T -> ~ is_delivered c' h) -> Inv G D (with_core c' s) T.
Proof.
  intros I Ev Hst Hd. pose proof I as [].
  assert (outs (with_core c' s) = outs s) as Ho by (by eapply (outs_mono G D s)).
  split; rewrite ?Ho; try done.
  - intros p x Hx. eapply promise_ok_mono; [exact Ev|done..|]. by apply iv_pm0.
  - intros j x Hx. eapply join_ok_mono; [exact Ev|done..|]. by apply iv_join0.
  - intros h Hh. destruct (iv_drive0 h Hh). auto.
  - intros h q Hq. destruct (iv_dw0 h q Hq) as [? [?|[?|?]]]; split; auto.
    right; right. by eapply bad_block_mono.
  - intros h Hh. eapply delivered_mono; [exact Ev|]. by apply iv_done0.
  - intros t Ht. destruct (iv_pool0 t Ht) as (m & Hm & Hs). exists m. split; [done|].
    destruct m; try done; by eapply sat0_mono.
Qed.

(** A block under way is delivered. *)
Lemma inv_deliver G D s T c' h : Inv G D s (TDrive h :: T) -> evolves (core (world s)) c' -> stored c' ->
  is_delivered c' h -> (forall h', h' <> h -> is_delivered c' h' -> is_delivered (core (world s)) h') ->
  Inv G D (with_core c' s) (TDone h :: T).
Proof.
  intros I Ev Hst Hd Hother. pose proof I as [].
  assert (outs (with_core c' s) = outs s) as Ho by (by eapply (outs_mono G D s)).
  pose proof iv_nodup0 as (Hn1 & Hn2 & Hn3)%NoDup_app. apply NoDup_cons in Hn3 as [Hn3 Hn4].
  assert (TDone h ∉ outs s) as Hno by (by intros ?%outs_cb).
  assert (TDone h ∉ T) as Hnt.
  { intros Hin. destruct (iv_drive0 h) as [_ Hu]; [rewrite elem_of_app, elem_of_cons; auto|].
    apply Hu, iv_done0. by right. }
  assert (TDrive h ∉ outs s) as Hdo by (intros Hin; apply (Hn2 _ Hin); by left).
  assert (forall k, k <> TDrive h -> k <> TDone h -> k ∈ outs s ++ TDone h :: T <-> k ∈ outs s ++ TDrive h :: T) as Hk.
  { intros k ??. rewrite !elem_of_app, !elem_of_cons. naive_solver. }
  split; rewrite ?Ho; try done.
  - intros p x Hx. eapply promise_ok_mono; [exact Ev|done..|]. by apply iv_pm0.
  - intros j x Hx. eapply join_ok_mono; [exact Ev|done..|]. by apply iv_join0.
  - apply NoDup_app. split; [done|]. split; [|by apply NoDup_cons].
    intros k Hko [->|?]%elem_of_cons; [done|]. apply (Hn2 k Hko). by right.
  - intros j idx. rewrite Hk by done. apply iv_slot0.
  - intros h' Hh'. assert (h' <> h) as Hne.
    { intros ->. apply elem_of_app in Hh' as [?|[?|?]%elem_of_cons]; done. }
    rewrite Hk in Hh' by congruence. destruct (iv_drive0 h' Hh') as [? Hu]. split; [done|]. eauto.
  - intros h' q Hq. destruct (iv_dw0 h' q Hq) as [? Hx]. split; [done|].
    destruct (decide (h' = h)) as [->|]; [right; left; by left|].
    destruct Hx as [?|[Hx|?]].
    + left. by rewrite Hk by congruence.
    + right; left. apply elem_of_cons in Hx as [?|?]; [congruence|by right].
    + right; right. by eapply bad_block_mono.
  - intros h' [[= ->]|Hh']%elem_of_cons; [done|]. eapply delivered_mono; [exact Ev|]. apply iv_done0. by right.
  - intros t Ht. destruct (iv_pool0 t Ht) as (m & Hm & Hs). exists m. split; [done|].
    destruct m; try done; by eapply sat0_mono.
  - intros q [?|Hq]%elem_of_cons; [done|]. apply iv_alloc0. by right.
  - intros q m x ?? Hp. destruct (iv_open0 q m x) as [?|[?|?]%elem_of_cons]; try done.
    + by left.
    + right. by right.
Qed.

(** ** The store of promises *)

Lemma inv_tokens G D s s' T T' : Inv G D s T -> world s' = world s -> joins s' = joins s ->
  length (pms s') = length (pms s) -> outs s' ++ T' ≡ₚ outs s ++ T ->
  (forall p x, pms s' !! p = Some x -> promise_ok (core (world s)) G D p x) ->
  (forall p x, pms s' !! p = Some x -> state x = Pending ->
     exists y, pms s !! p = Some y /\ state y = Pending) ->
  (forall q, TOpen q ∈ T' <-> TOpen q ∈ T) -> (forall h, TDone h ∈ T' <-> TDone h ∈ T) -> Inv G D s' T'.
Proof.
  intros [] Hw Hj Hl Hk Hp Hs Ho Hd. split; rewrite ?Hw, ?Hj, ?Hl; try done.
  - by rewrite Hk.
  - intros j idx. rewrite Hk. apply iv_slot0.
  - intros h. rewrite Hk. apply iv_drive0.
  - intros h q Hq. destruct (iv_dw0 h q Hq) as [? Hx]. split; [done|]. by rewrite Hk, Hd.
  - intros h. rewrite Hd. apply iv_done0.
  - intros q. rewrite Ho. apply iv_alloc0.
  - intros q m x Hm Hx Hst. destruct (Hs q x Hx Hst) as (y & Hy & Hsy). rewrite Ho.
    destruct (iv_open0 q m y Hm Hy Hsy) as [Hwf|?]; [left|by right].
    destruct m; simpl in *; rewrite ?Hw, ?Hj; done.
Qed.

(** One promise changes: its callbacks move between the store and [T]. *)
Lemma inv_pm G D s T T' p x x' : Inv G D s T -> pms s !! p = Some x ->
  promise_ok (core (world s)) G D p x' -> (state x' = Pending -> state x = Pending) ->
  pm_toks (core (world s)) x' ++ T' ≡ₚ pm_toks (core (world s)) x ++ T ->
  Inv G D (set_pms (<[p:=x']> (pms s)) s) T'.
Proof.
  intros I Hp Hok Hst HT. pose proof I as [].
  destruct (bind_insert_perm (pm_toks (core (world s))) (pms s) p x Hp) as (R & HR & HR').
  assert (forall k, ~ cb_tok k -> k ∈ T' <-> k ∈ T) as Hk.
  { intros k Hk. assert (k ∈ pm_toks (core (world s)) x' ++ T' <-> k ∈ pm_toks (core (world s)) x ++ T) as He by by rewrite HT.
    rewrite !elem_of_app in He. split; intros Hin.
    - destruct (proj1 He (or_intror Hin)) as [?%pm_toks_cb|?]; done.
    - destruct (proj2 He (or_intror Hin)) as [?%pm_toks_cb|?]; done. }
  eapply inv_tokens; [exact I|done|done|..]; simpl.
  - by rewrite length_insert.
  - unfold outs. simpl. rewrite HR', HR. rewrite <- !(assoc_L (++)), (Permutation_app_comm R T'),
      (Permutation_app_comm R T), !(assoc_L (++)). by rewrite HT.
  - intros q y. rewrite list_lookup_insert_Some. intros [(-> & -> & _)|[_ Hq]]; [done|by apply iv_pm0].
  - intros q y. rewrite list_lookup_insert_Some. intros [(-> & -> & _)|[_ Hq]] Hs; [exists x; auto|by exists y].
  - intros q. apply Hk. by intros ?.
  - intros h. apply Hk. by intros ?.
Qed.

Lemma inv_new G D s T m : Inv G D s T -> (forall j, m = MJoin j -> (length D <= j)%nat) ->
  Inv (G ++ [m]) D (set_pms (pms s ++ [Promise_new]) s) (TOpen (length (pms s)) :: T).
Proof.
  intros I Hmj. pose proof I as [].
  assert (outs (set_pms (pms s ++ [Promise_new]) s) = outs s) as Ho.
  { unfold outs. simpl. by rewrite bind_app, bind_singleton, app_nil_r. }
  assert (G `prefix_of` G ++ [m]) as HG by (by exists [m]).
  assert (evolves (core (world s)) (core (world s))) as Ev by reflexivity.
  assert (forall k, cb_tok k -> k ∈ outs s ++ TOpen (length (pms s)) :: T <-> k ∈ outs s ++ T) as Hk.
  { intros k Hk. rewrite !elem_of_app, elem_of_cons. destruct k; naive_solver. }
  split; rewrite ?Ho; simpl; try done.
  - rewrite !length_app. simpl. lia.
  - intros p x [Hx|[Hp Hx]]%lookup_app_Some.
    + eapply promise_ok_mono; [done..|]. by apply iv_pm0.
    + apply list_lookup_singleton_Some in Hx as [Hx <-].
      assert (p = length (pms s)) as -> by lia. exists m. split; [|by constructor].
      rewrite <- iv_lenG0. by rewrite lookup_app_r, Nat.sub_diag.
  - intros j x Hx. eapply join_ok_mono; [done..|]. by apply iv_join0.
  - intros p j e [Hp|[_ Hp]]%lookup_app_Some Hj; [by eapply iv_joinpm0|].
    apply list_lookup_singleton_Some in Hp as [_ ->]. apply lookup_lt_Some in Hj.
    specialize (Hmj j eq_refl). lia.
  - rewrite <- Permutation_middle. constructor; [|done]. intros [?%outs_cb|Hin%iv_alloc0]%elem_of_app; [done|lia].
  - intros j idx. rewrite Hk by done. apply iv_slot0.
  - intros h. rewrite Hk by done. apply iv_drive0.
  - intros h q Hq. destruct (iv_dw0 h q Hq) as [? Hx]. split; [by eapply prefix_lookup_Some|].
    rewrite Hk by done. destruct Hx as [?|[?|?]]; auto. right; left. by right.
  - intros h [?|?]%elem_of_cons; [done|auto].
  - intros h ctx Hh. eapply prefix_lookup_Some; [by eapply iv_fw0|done].
  - intros t Ht. destruct (iv_pool0 t Ht) as (m' & ? & ?). exists m'. split; [by eapply prefix_lookup_Some|done].
  - intros q [[= ->]|Hq%iv_alloc0]%elem_of_cons; rewrite length_app; simpl; lia.
  - intros q m' x Hm Hx Hs. apply lookup_app_Some in Hx as [Hx|[Hp Hx]].
    + rewrite lookup_app_l in Hm by (rewrite iv_lenG0; by eapply lookup_lt_Some).
      destruct (iv_open0 q m' x Hm Hx Hs) as [?|?]; [left; by destruct m'|right; by right].
    + apply list_lookup_singleton_Some in Hx as [Hx <-]. right.
      assert (q = length (pms s)) as -> by lia. by left.
Qed.

(** ** Joins *)

Abbreviation open_slots rs := (length (filter (fun r : Val => r = None) rs)).

Lemma open_slots_fill (rs : list Val) idx w : rs !! idx = Some None ->
  open_slots rs = S (open_slots (<[idx := Some w]> rs)).
Proof.
  revert idx. induction rs as [|r rs IH]; intros [|idx] Hi; simplify_eq/=.
  - done.
  - rewrite !filter_cons. case_decide; simpl; by rewrite (IH idx Hi).
Qed.

Lemma open_slots_zero (rs : list Val) : open_slots rs = 0%nat <-> Forall is_Some rs.
Proof.
  induction rs as [|[w|] rs IH]; [done|..].
  - rewrite filter_cons_False by done. rewrite IH, Forall_cons. naive_solver.
  - rewrite filter_cons_True by done. rewrite Forall_cons. split; [done|]. intros [[? ?] _]. done.
Qed.

Lemma open_slots_replicate n : open_slots (replicate n None) = n.
Proof. induction n as [|n IH]; [done|]. change (S (open_slots (replicate n None)) = S n). by f_equal. Qed.

Lemma inv_join_new G D s T npm qs : Inv G D s (TOpen npm :: T) ->
  G !! npm = Some (MJoin (length (joins s))) ->
  (forall p, G !! p = Some (MJoin (length (joins s))) -> p = npm) -> qs <> [] -> Z.of_nat (length qs) < 2 ^ 64 ->
  Inv G (D ++ [(npm, qs)])
    (set_joins (joins s ++ [mkJoin (Z.of_nat (length qs)) (replicate (length qs) None)]) s)
    ((TSlot (length (joins s)) <$> seq 0 (length qs)) ++ T).
Proof.
  intros I Hnpm Huniq Hne Hlen. pose proof I as []. set (j := length (joins s)) in *.
  set (jn := mkJoin _ _). set (sl := TSlot j <$> _).
  assert (D `prefix_of` D ++ [(npm, qs)]) as HD by (by exists [(npm, qs)]).
  assert (evolves (core (world s)) (core (world s))) as Ev by reflexivity.
  assert ((D ++ [(npm, qs)]) !! j = Some (npm, qs)) as HDj
    by (by rewrite <- iv_lenD0, lookup_app_r, Nat.sub_diag).
  assert ((joins s ++ [jn]) !! j = Some jn) as HJj by (unfold j; by rewrite lookup_app_r, Nat.sub_diag).
  assert (forall j' idx, TSlot j' idx ∈ sl <-> j' = j /\ (idx < length qs)%nat) as Hsl.
  { intros j' idx. unfold sl. rewrite list_elem_of_fmap. split.
    - by intros (i & [= -> ->] & Hi%elem_of_seq); split; [|lia].
    - intros [-> Hi]. exists idx. split; [done|]. apply elem_of_seq. lia. }
  assert (forall k, k ∈ sl -> exists idx, k = TSlot j idx) as Hsl'.
  { intros k (i & -> & _)%list_elem_of_fmap. by exists i. }
  assert (forall k, (forall idx, k <> TSlot j idx) -> k <> TOpen npm ->
    k ∈ outs s ++ sl ++ T <-> k ∈ outs s ++ TOpen npm :: T) as Hk.
  { intros k Hns Hno. rewrite !elem_of_app, elem_of_cons. split; [|naive_solver].
    intros [?|[(i & ->)%Hsl'|?]]; [auto|by destruct (Hns i)|auto]. }
  assert (forall idx, TSlot j idx ∉ outs s ++ TOpen npm :: T) as Hfresh.
  { intros idx (x & Hx & _)%iv_slot0. apply lookup_lt_Some in Hx. unfold j in Hx. lia. }
  split; simpl; try done.
  - rewrite !length_app, iv_lenD0. done.
  - intros p x Hx. eapply promise_ok_mono; [done..|]. by apply iv_pm0.
  - intros j' x [Hx|[Hj Hx]]%lookup_app_Some.
    + eapply join_ok_mono; [done..|]. by apply iv_join0.
    + apply list_lookup_singleton_Some in Hx as [Hx <-]. assert (j' = j) as -> by (unfold j; lia).
      exists npm, qs. split; [done|].
      split; [done|]. split; [done|]. simpl. rewrite length_replicate, open_slots_replicate.
      split; [done|]. split; [done|]. intros idx w Hi. by apply lookup_replicate in Hi as [? _].
  - intros p j' e Hp [Hj|[Hj He]]%lookup_app_Some; [by eapply iv_joinpm0|].
    apply list_lookup_singleton_Some in He as [Hx <-]. simpl. symmetry. apply Huniq.
    rewrite Hp. do 2 f_equal. lia.
  - change (outs (set_joins _ s)) with (outs s).
    apply NoDup_app in iv_nodup0 as (Hn1 & Hn2 & [_ Hn3]%NoDup_cons). apply NoDup_app. split; [done|]. split.
    + intros k Hko [(i & ->)%Hsl'|Hkt]%elem_of_app; [|by apply (Hn2 k Hko); right].
      apply (Hfresh i), elem_of_app. by left.
    + apply NoDup_app. split; [|split; [|done]].
      * apply NoDup_fmap; [by intros ?? [= ->]|apply NoDup_seq].
      * intros k (i & ->)%Hsl' Hkt. apply (Hfresh i). rewrite elem_of_app, elem_of_cons. auto.
  - intros j' idx. change (outs (set_joins _ s)) with (outs s). destruct (decide (j' = j)) as [->|Hj].
    + rewrite !elem_of_app, Hsl. split.
      * intros [Ho|[[_ Hi]|Ht]]; [|exists jn|]; try (by destruct (Hfresh idx); rewrite elem_of_app, ?elem_of_cons; auto).
        split; [done|]. by apply lookup_replicate_2.
      * intros (x & Hx & Hi). rewrite HJj in Hx. injection Hx as <-. apply lookup_replicate in Hi as [_ Hi]. right; by left.
    + rewrite Hk by congruence. rewrite iv_slot0. split; intros (x & Hx & Hi); exists x; (split; [|done]).
      * by apply lookup_app_l_Some.
      * apply lookup_app_Some in Hx as [?|[Hj' Hx]]; [done|]. apply list_lookup_singleton_Some in Hx as [Hx _].
        unfold j in Hj. lia.
  - intros h. change (outs (set_joins _ s)) with (outs s). rewrite Hk by congruence. apply iv_drive0.
  - intros h q Hq. change (outs (set_joins _ s)) with (outs s). destruct (iv_dw0 h q Hq) as [? Hx]. split; [done|].
    rewrite Hk by congruence. destruct Hx as [?|[Hx|?]]; auto. right; left.
    apply elem_of_app. right. by apply elem_of_cons in Hx as [?|?].
  - intros h [(i & ?)%Hsl'|?]%elem_of_app; [done|]. apply iv_done0. by right.
  - intros q [(i & ?)%Hsl'|?]%elem_of_app; [done|]. apply iv_alloc0. by right.
  - intros q m x Hm Hx Hs. destruct (iv_open0 q m x Hm Hx Hs) as [Hw|[[= ->]|Hq]%elem_of_cons].
    + left. destruct m; try done. destruct Hw as (y & idx & Hy & ?). exists y, idx. simpl. split; [|done].
      by apply lookup_app_l_Some.
    + left. rewrite Hnpm in Hm. injection Hm as <-. simpl. exists jn, 0%nat.
      split; [done|]. apply lookup_replicate_2. destruct qs; [done|simpl; lia].
    + right. apply elem_of_app. by right.
Qed.

Lemma open_slots_pos (rs : list Val) : open_slots rs <> 0%nat -> exists i, rs !! i = Some None.
Proof.
  intros Hp. destruct (filter (fun r : Val => r = None) rs) as [|r l] eqn:Hf; [done|].
  assert (r ∈ filter (fun r : Val => r = None) rs) as [-> Hi]%list_elem_of_filter by (rewrite Hf; left).
  by apply list_elem_of_lookup.
Qed.

(** A slot of a join is filled; the last one leaves the join's promise to
    be resolved. *)
Lemma inv_slot G D s T j idx jn npm qs q m w : Inv G D s (TSlot j idx :: T) ->
  joins s !! j = Some jn -> D !! j = Some (npm, qs) -> qs !! idx = Some q -> G !! q = Some m ->
  sat0 (core (world s)) m (Some w) ->
  let n := u64 (jsize jn - 1) in let rs := <[idx := Some w]> (jresults jn) in
  let s' := set_joins (<[j := mkJoin n rs]> (joins s)) s in
  exists T', Inv G D s' T' /\ (T' = T \/ T' = TOpen npm :: T) /\ G !! npm = Some (MJoin j) /\
    (n = 0 -> sat (core (world s)) G D (MJoin j) (Some (AValues rs))) /\ (n <> 0 -> T' = T).
Proof.
  intros I Hj HDj Hq Hm Hw n rs s'. pose proof I as [].
  destruct (iv_join0 j jn Hj) as (npm' & qs' & HDj' & Hnpm & Hlen & Hlr & Hsz & Hfill). simplify_eq.
  destruct (iv_slot0 j idx) as [(jn' & Hj' & Hnone) _]; [rewrite elem_of_app, elem_of_cons; auto|]. simplify_eq.
  pose proof (open_slots_fill _ _ w Hnone) as Hcnt. fold rs in Hcnt.
  assert (open_slots rs <= length qs)%nat as Hle.
  { rewrite <- Hlr. unfold rs. rewrite <- (length_insert (jresults jn) idx (Some w)). apply length_filter. }
  assert (open_slots (jresults jn) <= length qs)%nat as Hle' by (rewrite <- Hlr; apply length_filter).
  assert (n = Z.of_nat (open_slots rs)) as Hn.
  { unfold n. rewrite Hsz, Hcnt, u64_small; lia. }
  assert (forall i v, rs !! i = Some (Some v) -> exists q m, qs !! i = Some q /\ G !! q = Some m /\ sat0 (core (world s)) m (Some v)) as Hrs.
  { intros i v. unfold rs. rewrite list_lookup_insert_Some. intros [(-> & [= ->] & _)|[_ Hi]]; eauto. }
  assert (length rs = length qs) as Hlrs by (unfold rs; by rewrite length_insert).
  assert (n = 0 -> sat (core (world s)) G D (MJoin j) (Some (AValues rs))) as Hsat.
  { intros Hz. assert (Forall is_Some rs) as Hall by (apply open_slots_zero; lia).
    exists npm, qs, rs. split; [done|]. split; [done|]. apply Forall2_same_length_lookup. split; [done|].
    intros i p v Hp Hv. rewrite Forall_lookup in Hall. destruct (Hall i v Hv) as [v' ->].
    destruct (Hrs i v' Hv) as (? & m' & ? & ? & ?). simplify_eq. by exists m'. }
  set (T' := if decide (n = 0 /\ TOpen npm ∉ T) then TOpen npm :: T else T).
  assert (outs s' = outs s) as Ho by done.
  pose proof iv_nodup0 as Hnd. rewrite <- Permutation_middle in Hnd. apply NoDup_cons in Hnd as [Hnot Hnd].
  assert (forall k, k <> TSlot j idx -> k <> TOpen npm -> k ∈ outs s ++ T' <-> k ∈ outs s ++ TSlot j idx :: T) as Hk.
  { intros k ??. unfold T'. case_decide; rewrite !elem_of_app, !elem_of_cons; naive_solver. }
  assert (forall k, k <> TSlot j idx -> k <> TOpen npm -> k ∈ T' <-> k ∈ TSlot j idx :: T) as HkT.
  { intros k ??. unfold T'. case_decide; rewrite !elem_of_cons; naive_solver. }
  assert (TOpen npm ∈ T' \/ n <> 0) as Hopen.
  { unfold T'. destruct (decide (n = 0)); [left|by right]. case_decide as Hd; [by left|].
    destruct (decide (TOpen npm ∈ T)); [done|]. by destruct Hd. }
  exists T'. split; [|split; [|split; [done|split; [done|]]]].
  2:{ unfold T'. case_decide; auto. }
  2:{ intros Hne. unfold T'. case_decide as Hd; [by destruct Hd|done]. }
  split; rewrite ?Ho; simpl; try done.
  - by rewrite length_insert.
  - intros j' x. rewrite list_lookup_insert_Some. intros [(-> & <- & _)|[_ Hx]]; [|by apply iv_join0].
    exists npm, qs. done.
  - unfold T'. case_decide as Hd; [|done]. rewrite <- Permutation_middle. constructor; [|done].
    intros [?%outs_cb|?]%elem_of_app; [done|by destruct Hd].
  - intros j' i. destruct (decide (j' = j)) as [->|Hne].
    + destruct (decide (i = idx)) as [->|Hni].
      * split.
        -- intros Hin. destruct Hnot. unfold T' in Hin. case_decide; [|done].
           rewrite elem_of_app, elem_of_cons in Hin. rewrite elem_of_app. naive_solver.
        -- intros (x & Hx & Hi). rewrite list_lookup_insert_eq in Hx by (by eapply lookup_lt_Some). simplify_eq/=.
           unfold rs in Hi. rewrite list_lookup_insert_eq in Hi by (by eapply lookup_lt_Some). done.
      * rewrite Hk by congruence. rewrite iv_slot0, list_lookup_insert_eq by (by eapply lookup_lt_Some).
        split; intros (x & Hx & Hi); simplify_eq/=.
        -- eexists; split; [done|]. simpl. unfold rs. by rewrite list_lookup_insert_ne.
        -- exists jn. split; [done|]. unfold rs in Hi. by rewrite list_lookup_insert_ne in Hi.
    + rewrite Hk by congruence. by rewrite iv_slot0, list_lookup_insert_ne.
  - intros h. rewrite Hk by congruence. apply iv_drive0.
  - intros h p Hp. rewrite Hk, HkT by congruence. by apply iv_dw0.
  - intros h. rewrite HkT by congruence. apply iv_done0.
  - intros p Hp. destruct (decide (p = npm)) as [->|]; [|by apply iv_alloc0; apply HkT; congruence].
    rewrite <- iv_lenG0. by eapply lookup_lt_Some.
  - intros p m' x Hp Hx Hs. destruct (decide (p = npm)) as [->|].
    + assert (m' = MJoin j) as -> by congruence. destruct Hopen as [?|Hne]; [by right|left]. exists (mkJoin n rs).
      assert (exists i, rs !! i = Some None) as [i Hi]; [|exists i; split; [|done]].
      * apply open_slots_pos. intros Hz. lia.
      * apply list_lookup_insert_eq. by eapply lookup_lt_Some.
    + destruct (iv_open0 p m' x Hp Hx Hs) as [Hwf|Hin]; [|right; apply HkT; congruence].
      left. destruct m'; try done. destruct Hwf as (y & i & Hy & Hi).
      destruct (decide (j0 = j)) as [->|].
      * by pose proof (iv_joinpm0 p j (npm, qs) Hp HDj).
      * exists y, i. split; [|done]. simpl. by rewrite list_lookup_insert_ne.
Qed.

(** ** The contexts and the pool *)

Lemma inv_world G D s T w' : Inv G D s T -> core w' = core (world s) ->
  blk_delivery_waiting w' = blk_delivery_waiting (world s) ->
  (forall h ctx, blk_fetch_waiting w' !! h = Some ctx -> G !! fc_pm ctx = Some (MFetch h)) ->
  (forall t, t ∈ vpool w' -> t ∈ vpool (world s) \/ exists m, G !! t_pm t = Some m /\
    match m with MVerify _ | MPart _ => sat0 (core (world s)) m (Some (AVal (VBool (t_result t)))) | _ => False end) ->
  (forall q m x, G !! q = Some m -> pms s !! q = Some x -> state x = Pending ->
    waits_for s q m -> waits_for (set_world w' s) q m) ->
  Inv G D (set_world w' s) T.
Proof.
  intros [] Hc Hd Hf Hp Hw. assert (outs (set_world w' s) = outs s) as Ho by (unfold outs; simpl; by rewrite Hc).
  split; rewrite ?Ho; simpl; rewrite ?Hc, ?Hd; try done.
  - intros t Ht. destruct (Hp t Ht); eauto.
  - intros q m x Hm Hx Hs. destruct (iv_open0 q m x Hm Hx Hs); eauto.
Qed.

(** A change that the invariant does not look at. *)
Lemma inv_world_same G D s T w' : Inv G D s T -> core w' = core (world s) ->
  blk_delivery_waiting w' = blk_delivery_waiting (world s) ->
  blk_fetch_waiting w' = blk_fetch_waiting (world s) -> vpool w' = vpool (world s) ->
  Inv G D (set_world w' s) T.
Proof.
  intros I Hc Hd Hf Hp. apply (inv_world _ _ _ _ _ I); try done.
  - rewrite Hf. apply I.
  - rewrite Hp. by left.
  - intros q m x _ _ _. destruct m; simpl; rewrite ?Hd, ?Hf, ?Hp; done.
Qed.

Lemma inv_fw_set G D s T h ctx : Inv G D s T -> G !! fc_pm ctx = Some (MFetch h) ->
  (forall old, blk_fetch_waiting (world s) !! h = Some old -> fc_pm old = fc_pm ctx) ->
  Inv G D (set_world (set_fetch (<[h:=ctx]> (blk_fetch_waiting (world s))) (world s)) s) T.
Proof.
  intros I Hm Hold. apply (inv_world _ _ _ _ _ I); try done; simpl; auto.
  - intros h' ctx'. rewrite lookup_insert. case_decide; [by intros [= <-]; subst|apply I].
  - intros q m x _ _ _. destruct m as [h0| | | | | |]; try done. simpl. intros (old & Hh & <-). destruct (decide (h0 = h)) as [->|].
    + exists ctx. by rewrite lookup_insert_eq, (Hold old Hh).
    + exists old. by rewrite lookup_insert_ne.
Qed.

Definition not_pending (s : St) (q : pid) : Prop := forall x, pms s !! q = Some x -> state x <> Pending.

Lemma inv_fw_delete G D s T h ctx : Inv G D s T -> blk_fetch_waiting (world s) !! h = Some ctx ->
  not_pending s (fc_pm ctx) ->
  Inv G D (set_world (set_fetch (delete h (blk_fetch_waiting (world s))) (world s)) s) T.
Proof.
  intros I Hh Hn. apply (inv_world _ _ _ _ _ I); try done; simpl; auto.
  - intros h' ctx' [_ Hx]%lookup_delete_Some. by apply I.
  - intros q m x _ Hx Hs. destruct m; try done. simpl. intros (old & Ho & <-). exists old. split; [|done].
    rewrite lookup_delete_ne; [done|]. intros ->. simplify_eq. by apply (Hn x).
Qed.

Lemma inv_pool_add G D s T t m : Inv G D s T -> G !! t_pm t = Some m ->
  match m with MVerify _ | MPart _ => sat0 (core (world s)) m (Some (AVal (VBool (t_result t)))) | _ => False end ->
  Inv G D (set_world (set_vpool (vpool (world s) ++ [t]) (world s)) s) T.
Proof.
  intros I Hm Ht. apply (inv_world _ _ _ _ _ I); try done; simpl; auto.
  - apply I.
  - intros t' [?| ->%list_elem_of_singleton]%elem_of_app; [by left|right]. by exists m.
  - intros q m' x _ _ _. destruct m'; try done; simpl; intros (t' & ? & ?); exists t'; (split; [|done]); apply elem_of_app; by left.
Qed.

Lemma inv_pool_del G D s T q : Inv G D s T -> not_pending s q ->
  Inv G D (set_world (set_vpool (filter (fun t => t_pm t <> q) (vpool (world s))) (world s)) s) T.
Proof.
  intros I Hn. apply (inv_world _ _ _ _ _ I); try done; simpl; auto.
  - apply I.
  - intros t [_ ?]%list_elem_of_filter. by left.
  - intros p m x _ Hx Hs. destruct m; try done; simpl; intros (t & ? & <-); exists t; (split; [|done]);
      apply list_elem_of_filter; (split; [|done]); intros <-; by apply (Hn x).
Qed.

Abbreviation set_dw m s := (set_world (set_delivery m (world s)) s).

Lemma inv_dw_insert G D s T h q : Inv G D s T -> blk_delivery_waiting (world s) !! h = None ->
  G !! q = Some (MDeliver h) -> ~ is_delivered (core (world s)) h ->
  Inv G D (set_dw (<[h:=q]> (blk_delivery_waiting (world s))) s) (TDrive h :: T).
Proof.
  intros I Hh Hq Hd. pose proof I as [].
  assert (TDrive h ∉ outs s ++ T) as Hnot.
  { intros Hin. destruct (iv_drive0 h Hin) as [[? ?] _]. congruence. }
  assert (forall k, k <> TDrive h -> k ∈ outs s ++ TDrive h :: T <-> k ∈ outs s ++ T) as Hk.
  { intros k ?. rewrite !elem_of_app, elem_of_cons. naive_solver. }
  split; simpl; try done.
  - change (outs (set_dw _ s)) with (outs s). rewrite <- Permutation_middle. by constructor.
  - intros j idx. change (outs (set_dw _ s)) with (outs s). rewrite Hk by done. apply iv_slot0.
  - intros h'. change (outs (set_dw _ s)) with (outs s). destruct (decide (h' = h)) as [->|].
    + intros _. by rewrite lookup_insert_eq.
    + rewrite Hk by congruence. rewrite lookup_insert_ne by done. apply iv_drive0.
  - intros h' p. change (outs (set_dw _ s)) with (outs s). rewrite lookup_insert. case_decide; subst.
    + intros [= <-]. split; [done|]. left. rewrite elem_of_app, elem_of_cons. auto.
    + intros Hp. destruct (iv_dw0 h' p Hp) as [? Hx]. split; [done|]. rewrite Hk by congruence.
      destruct Hx as [?|[?|?]]; auto. right; left. by right.
  - intros h' [?|?]%elem_of_cons; [done|auto].
  - intros p [?|?]%elem_of_cons; [done|auto].
  - intros p m x Hm Hx Hs. destruct (iv_open0 p m x Hm Hx Hs) as [Hw|?]; [left|right; by right].
    destruct m; try done. simpl in *. rewrite lookup_insert_ne; [done|]. intros ->. congruence.
Qed.

Lemma inv_dw_delete G D s T h : Inv G D s (TDone h :: T) ->
  (forall p, blk_delivery_waiting (world s) !! h = Some p -> not_pending s p) ->
  Inv G D (set_dw (delete h (blk_delivery_waiting (world s))) s) T.
Proof.
  intros I Hn. pose proof I as [].
  pose proof iv_nodup0 as Hnd. rewrite <- Permutation_middle in Hnd. apply NoDup_cons in Hnd as [Hnot Hnd].
  assert (forall k, k <> TDone h -> k ∈ outs s ++ T <-> k ∈ outs s ++ TDone h :: T) as Hk.
  { intros k ?. rewrite !elem_of_app, elem_of_cons. naive_solver. }
  assert (forall h', TDrive h' ∈ outs s ++ T -> h' <> h) as Hne.
  { intros h' Hin ->. rewrite Hk in Hin by done. destruct (iv_drive0 h Hin) as [_ Hu]. apply Hu, iv_done0. by left. }
  split; simpl; try done.
  - intros j idx. change (outs (set_dw _ s)) with (outs s). rewrite Hk by done. apply iv_slot0.
  - intros h'. change (outs (set_dw _ s)) with (outs s). intros Hin. pose proof (Hne h' Hin).
    rewrite lookup_delete_ne by done. apply iv_drive0. by apply Hk.
  - intros h' p. change (outs (set_dw _ s)) with (outs s). rewrite lookup_delete_Some. intros [Hx Hp].
    destruct (iv_dw0 h' p Hp) as [? Hc]. split; [done|]. rewrite Hk by congruence.
    destruct Hc as [?|[Hc|?]]; auto. right; left. apply elem_of_cons in Hc as [?|?]; [congruence|done].
  - intros h' ?. apply iv_done0. by right.
  - intros p ?. apply iv_alloc0. by right.
  - intros p m x Hm Hx Hs. destruct (iv_open0 p m x Hm Hx Hs) as [Hw|[?|?]%elem_of_cons]; [left|done|by right].
    destruct m; try done. simpl in *. rewrite lookup_delete_ne; [done|]. intros ->. by apply (Hn p Hw x).
Qed.

(** The delivery of a block that does not verify ends. *)
Lemma inv_bad G D s T h : Inv G D s (TDrive h :: T) -> bad_block (core (world s)) h -> Inv G D s T.
Proof.
  intros I Hb. pose proof I as [].
  pose proof iv_nodup0 as Hnd. rewrite <- Permutation_middle in Hnd. apply NoDup_cons in Hnd as [Hnot Hnd].
  assert (forall k, k <> TDrive h -> k ∈ outs s ++ T <-> k ∈ outs s ++ TDrive h :: T) as Hk.
  { intros k ?. rewrite !elem_of_app, elem_of_cons. naive_solver. }
  split; try done.
  - intros j idx. rewrite Hk by done. apply iv_slot0.
  - intros h' Hin. apply iv_drive0. rewrite <- Hk; [done|]. by intros [= ->].
  - intros h' q Hq. destruct (iv_dw0 h' q Hq) as [? Hc]. split; [done|].
    destruct (decide (h' = h)) as [->|]; [by right; right|]. rewrite Hk by congruence.
    destruct Hc as [?|[Hc|?]]; auto. right; left. by apply elem_of_cons in Hc as [?|?].
  - intros h' ?. apply iv_done0. by right.
  - intros p ?. apply iv_alloc0. by right.
  - intros p m x Hm Hx Hs. destruct (iv_open0 p m x Hm Hx Hs) as [?|[?|?]%elem_of_cons]; [by left|done|by right].
Qed.
End Typing.
