(* ===== verification/DeliveryRun.v ===== *)
(** * The delivery engine keeps its invariant

    Specifications of the promise operations and of the engine's functions:
    each keeps [Inv], moves the core only by calls it has checked ([core_step]),
    fails no assertion and, given [need] levels of nesting for the callbacks
    it runs, never exceeds the bound on the nesting. *)

From stdpp Require Import strings.
From S2P Require Import Prelude Certs Entity Core Network DeliveryCore Promise Delivery DeliveryInv.

Section Running.
Context `{BlockHash} `{!CommandType} `{!AsyncVerify} `{EqDecision PeerId}.

Abbreviation St := (Store (A := BVal) (K := Closure) (W := Base)).
Abbreviation PErr := (PmError (E := BaseError)).
Abbreviation BM := (M St PErr).
Abbreviation Cb := (Callback (K := Closure)).
Abbreviation RunFn := (pid -> Cb -> BM unit).
Abbreviation Val := (option (Any (A := BVal))).
Abbreviation Joins := (list (pid * list pid)).
Abbreviation core_of s := (core (world s)).

(** ** The calls into the core *)

(** What async_deliver_blk has established when it delivers a block. *)
Record fit (c : HotStuffCore) (b : Block) : Prop := {
  ft_verify : block_verify (config c) (get_hash genesis_content) b = Some true;
  ft_parents : forall h, h ∈ parent_hashes (content b) -> is_delivered c h;
  ft_fetched : exists q, qc (content b) = Some q /\ is_blk_fetched (storage c) (qc_obj_hash q) = true;
}.

Definition fits (c : HotStuffCore) (i : Input) : Prop :=
  match i with
  | InBlock ct => is_Some (qc ct) /\ Z.of_nat (length (parent_hashes ct)) < 2 ^ 32
  | InDeliver x => exists b, hp c !! x = Some b /\ delivered b = false /\ fit c b
  | InProposal prop => exists b, hp c !! prop_blk prop = Some b /\ delivered b = true
  | InVote v => vote_verify (config c) v = Some true /\ is_delivered c (vote_blk_hash v)
  | InPropose _ _ _ => False
  end.

Definition core_step (c c' : HotStuffCore) : Prop := exists i, fits c i /\ c' = (exec i c).2.

(** ** What a step of the engine leaves in place *)

(** Stored blocks that are neither delivered nor under way. *)
Definition free (s : St) : gset uint256 := undelivered (core_of s) ∖ dom (blk_delivery_waiting (world s)).

(** The blocks the event at hand answers requests for. *)
Context {answered : uint256 -> Prop}.

(** A delivery that goes on when a block has come which does not come now. *)
Definition held (cb : Cb) : Prop := exists h r npm, cb = OnFulfilled (User (KFetched h r)) npm /\ ~ answered h.

(** Such a callback of a promise that is not settled. *)
Definition holding (s : St) (q : pid) (cb : Cb) : Prop :=
  exists x, pms s !! q = Some x /\ state x = Pending /\ cb ∈ fulfilled_callbacks x.

Record follows (s s' : St) : Prop := {
  fo_path : rtc core_step (core_of s) (core_of s');
  fo_frame : frame (fun _ => True) (core_of s) (core_of s');
  fo_fw : forall h ctx, blk_fetch_waiting (world s) !! h = Some ctx ->
    exists ctx', blk_fetch_waiting (world s') !! h = Some ctx' /\ fc_pm ctx' = fc_pm ctx;
  fo_dw : forall h, is_delivered (core_of s) h ->
    blk_delivery_waiting (world s') !! h = blk_delivery_waiting (world s) !! h \/
    blk_delivery_waiting (world s') !! h = None;
  fo_free : free s' ⊆ free s;
  fo_settled : forall q x, pms s !! q = Some x -> state x <> Pending ->
    exists x', pms s' !! q = Some x' /\ state x' = state x /\ result x' = result x;
  fo_held : forall q cb, held cb -> holding s q cb -> holding s' q cb;
  fo_under_way : forall h, is_Some (blk_delivery_waiting (world s) !! h) ->
    is_Some (blk_delivery_waiting (world s') !! h) \/ is_delivered (core_of s') h;
}.

#[export] Instance follows_preorder : PreOrder follows.
Proof.
  split.
  - intros s. split; [reflexivity..| |auto|done| |done|auto]; eauto.
  - intros s1 s2 s3 [] []. split; [by etrans|by etrans| | |by etrans| |by eauto|].
    + intros h ctx Hh. destruct (fo_fw0 h ctx Hh) as (c2 & Hc2 & <-). by apply fo_fw1.
    + intros h Hd. assert (is_delivered (core_of s2) h) as Hd2.
      { eapply delivered_mono; [by eapply frame_evolves|done]. }
      destruct (fo_dw0 h Hd) as [<-|Hn]; [by apply fo_dw1|right].
      destruct (fo_dw1 h Hd2) as [->|?]; [by rewrite Hn|done].
    + intros q x Hx Hs. destruct (fo_settled0 q x Hx Hs) as (x2 & Hx2 & Hs2 & <-).
      rewrite <- Hs2 in Hs |- *. by apply fo_settled1.
    + intros h Hh. destruct (fo_under_way0 h Hh) as [?|Hd]; [auto|right].
      eapply delivered_mono; [by eapply frame_evolves|done].
Qed.

(** Steps that touch only the promises, or the contexts. *)
Lemma follows_pms s ps js : (forall q x, pms s !! q = Some x -> state x <> Pending ->
    exists x', ps !! q = Some x' /\ state x' = state x /\ result x' = result x) ->
  (forall q cb, held cb -> holding s q cb -> holding (mkStore ps js (world s)) q cb) ->
  follows s (mkStore ps js (world s)).
Proof. intros Hp Hh. split; simpl; [reflexivity..| |auto|done|done|done|auto]. eauto. Qed.

(** New promises, and new joins. *)
Lemma follows_app s ps js : follows s (mkStore (pms s ++ ps) js (world s)).
Proof.
  apply follows_pms.
  - intros q x Hq _. exists x. split; [by apply lookup_app_l_Some|done].
  - intros q cb _ (x & Hq & ?). exists x. split; [by apply lookup_app_l_Some|done].
Qed.

Lemma follows_world s w' : core w' = core_of s ->
  (forall h ctx, blk_fetch_waiting (world s) !! h = Some ctx ->
     exists ctx', blk_fetch_waiting w' !! h = Some ctx' /\ fc_pm ctx' = fc_pm ctx) ->
  (forall h, is_delivered (core_of s) h -> blk_delivery_waiting w' !! h = blk_delivery_waiting (world s) !! h \/
     blk_delivery_waiting w' !! h = None) ->
  (forall h, is_Some (blk_delivery_waiting (world s) !! h) ->
     is_Some (blk_delivery_waiting w' !! h) \/ is_delivered (core_of s) h) ->
  follows s (set_world w' s).
Proof.
  intros Hc Hf Hd Hk. split; simpl; rewrite ?Hc; [reflexivity..|done|done| |eauto|done|done].
  unfold free. simpl. rewrite Hc. intros h [Hu Hn]%elem_of_difference. apply elem_of_difference. split; [done|].
  rewrite elem_of_dom in Hn |- *. intros Hin. destruct (Hk h Hin) as [?|Hdl]; [done|].
  apply undelivered_spec in Hu as [_ Hu]. unfold is_delivered in Hdl. congruence.
Qed.

(** ** Triples

    [m] keeps the invariant, exchanging the tokens [T] for [T']. *)

Definition closed (G : list Meaning) (D : Joins) : Prop :=
  forall p j, G !! p = Some (MJoin j) -> (j < length D)%nat.

(** What an exception may be: one of the program's, no assertion. *)
Definition raises (s : St) (e : PErr) (s' : St) : Prop :=
  (exists err, e = EUser err /\ err <> EAssertion) /\ rtc core_step (core_of s) (core_of s').

Record reached (s : St) (G : list Meaning) (D : Joins) (T' : list Tok) (G' : list Meaning) (D' : Joins) (s' : St) : Prop := {
  re_G : G `prefix_of` G';
  re_D : D `prefix_of` D';
  re_inv : Inv G' D' s' T';
  re_closed : closed G' D';
  re_follows : follows s s';
}.

Definition triple {X} (G : list Meaning) (D : Joins) (s : St) (m : BM X) (T' : list Tok)
    (Q : X -> list Meaning -> Joins -> St -> Prop) : Prop :=
  wp m (fun a s' => exists G' D', reached s G D T' G' D' s' /\ Q a G' D' s') (raises s) s.

Lemma reached_trans s G D T1 G1 D1 s1 T2 G2 D2 s2 :
  reached s G D T1 G1 D1 s1 -> reached s1 G1 D1 T2 G2 D2 s2 -> reached s G D T2 G2 D2 s2.
Proof. intros [] []. split; [by etrans|by etrans|done|done|by etrans]. Qed.

Lemma raises_after s s1 e s2 : rtc core_step (core_of s) (core_of s1) -> raises s1 e s2 -> raises s e s2.
Proof. intros F [He Hp]. split; [done|]. by etrans. Qed.

Lemma triple_wp {X} G D s s1 G1 D1 T1 (m : BM X) T2 Q :
  reached s G D T1 G1 D1 s1 -> triple G1 D1 s1 m T2 Q ->
  wp m (fun a s' => exists G' D', reached s G D T2 G' D' s' /\ Q a G' D' s') (raises s) s1.
Proof.
  intros R Ht. eapply wp_mono; [exact Ht|..].
  - intros a s2 (G2 & D2 & R2 & HQ). exists G2, D2. split; [|done]. by eapply reached_trans.
  - intros e s2. apply raises_after. apply R.
Qed.

Lemma triple_bind {X Y} G D s (m : BM X) (f : X -> BM Y) T1 T2 Q1 Q2 :
  triple G D s m T1 Q1 ->
  (forall a G1 D1 s1, reached s G D T1 G1 D1 s1 -> Q1 a G1 D1 s1 -> triple G1 D1 s1 (f a) T2 Q2) ->
  triple G D s (m ≫= f) T2 Q2.
Proof.
  intros Hm Hf. apply wp_bind. eapply wp_mono; [exact Hm|..|done].
  intros a s1 (G1 & D1 & R & HQ). eapply triple_wp; [exact R|]. by apply Hf.
Qed.

Lemma triple_mono {X} G D s (m : BM X) T (Q Q' : X -> list Meaning -> Joins -> St -> Prop) :
  triple G D s m T Q -> (forall a G' D' s', reached s G D T G' D' s' -> Q a G' D' s' -> Q' a G' D' s') ->
  triple G D s m T Q'.
Proof.
  intros Hm HQ. eapply wp_mono; [exact Hm|..|done]. intros a s' (G' & D' & R & ?). exists G', D'. auto.
Qed.

(** A computation that changes nothing. *)
Lemma triple_pure {X} G D s (m : BM X) T a (Q : X -> list Meaning -> Joins -> St -> Prop) :
  m s = (inl a, s) -> Inv G D s T -> closed G D -> Q a G D s -> triple G D s m T Q.
Proof. intros Hm I C HQ. unfold triple, wp. rewrite Hm. exists G, D. by repeat (split; [done|]). Qed.

Lemma triple_ret {X} G D s T (a : X) (Q : X -> list Meaning -> Joins -> St -> Prop) :
  Inv G D s T -> closed G D -> Q a G D s -> triple G D s (mret a) T Q.
Proof. by apply triple_pure. Qed.

(** A step that returns in a state known outright. *)
Lemma triple_step {X} G D s (m : BM X) T' a s' G' D' (Q : X -> list Meaning -> Joins -> St -> Prop) :
  m s = (inl a, s') -> reached s G D T' G' D' s' -> Q a G' D' s' -> triple G D s m T' Q.
Proof. intros Hm R HQ. unfold triple, wp. rewrite Hm. by exists G', D'. Qed.

Lemma triple_perm {X} G D s (m : BM X) T T' Q : T ≡ₚ T' -> triple G D s m T Q -> triple G D s m T' Q.
Proof.
  intros HT Hm. eapply wp_mono; [exact Hm|..|done]. intros a s' (G' & D' & [] & HQ). exists G', D'.
  split; [|done]. split; try done. by eapply inv_perm.
Qed.

(** ** The nesting a callback needs *)

Definition level (s : St) : nat := 2 * size (undelivered (core_of s)).

Definition need (s : St) (cb : Cb) : nat :=
  match cb with
  | OnFulfilled (User (KFetched _ _)) _ => level s + size (free s) + 6
  | OnFulfilled (User (KVoteVerify _)) _ => level s + 5
  | OnFulfilled (AllSlot _ _ _) _ => level s + 4
  | _ => level s + 3
  end.

Definition need_m (s : St) (m : Meaning) : nat :=
  match m with
  | MFetch _ => level s + size (free s) + 6
  | MPart _ => level s + 5
  | MDeliver _ | MVerify _ | MVote _ => level s + 4
  | MJoin _ => level s + 3
  | MNone => 0
  end.

Lemma level_follows s s' : follows s s' -> (level s' <= level s)%nat.
Proof.
  intros F. unfold level. enough (size (undelivered (core_of s')) <= size (undelivered (core_of s)))%nat by lia.
  apply subseteq_size. eapply undelivered_frame, F.
Qed.
Lemma free_follows s s' : follows s s' -> (size (free s') <= size (free s))%nat.
Proof. intros F. apply subseteq_size, F. Qed.
Lemma need_follows s s' cb : follows s s' -> (need s' cb <= need s cb)%nat.
Proof.
  intros F. pose proof (level_follows _ _ F). pose proof (free_follows _ _ F).
  destruct cb as [[[]|j idx npm0|npm0|npm0] npm|f npm|npm|npm]; simpl; lia.
Qed.
Lemma need_m_follows s s' m : follows s s' -> (need_m s' m <= need_m s m)%nat.
Proof. intros F. pose proof (level_follows _ _ F). pose proof (free_follows _ _ F). destruct m; simpl; lia. Qed.

Lemma need_meaning c G D s p m cb : cb_ok c G D p m cb -> (need s cb <= need_m s m)%nat.
Proof.
  destruct cb as [[[h r|x|prop|v|v|r]|j idx npm0|npm0|npm0] npm|f npm|npm|npm]; simpl; try done.
  - by intros [-> _].
  - intros (_ & b & q & _ & _ & _ & (j & npm' & qs & -> & _)). simpl. lia.
  - intros (_ & h & _ & (j & npm' & qs & -> & _)). simpl. lia.
  - intros (_ & (j & npm' & qs & -> & _)). simpl. lia.
  - by intros [-> _].
  - intros (_ & hs & (j & npm' & qs & -> & _)). simpl. lia.
  - intros (_ & Hm & _). destruct m; simpl; try done; lia.
Qed.

Abbreviation anything := (fun _ _ _ _ => True).

Lemma wp_load p x (Q : _ -> St -> Prop) (X : PErr -> St -> Prop) s :
  pms s !! p = Some x -> Q x s -> wp (load p) Q X s.
Proof. intros Hp HQ. unfold load. apply wp_bind, wp_get. rewrite Hp. by apply wp_ret. Qed.

Lemma wp_store p x (Q : unit -> St -> Prop) (X : PErr -> St -> Prop) s :
  Q tt (set_pms (<[p:=x]> (pms s)) s) -> wp (store p x) Q X s.
Proof. intros HQ. by apply wp_modify. Qed.

(** [rn] runs any callback that needs at most [n] levels. *)
Definition run_spec (rn : RunFn) (n : nat) : Prop := forall G D s T p cb x m,
  Inv G D s (tok_of (core_of s) cb ++ T) -> closed G D -> pms s !! p = Some x -> state x = Fulfilled ->
  G !! p = Some m -> cb_ok (core_of s) G D p m cb -> (need s cb <= n)%nat ->
  triple G D s (rn p cb) T anything.

Lemma reached_refl G D s T : Inv G D s T -> closed G D -> reached s G D T G D s.
Proof. by split. Qed.

(** Replacing a promise by one in the same state. *)
Lemma follows_insert s p x x' : pms s !! p = Some x ->
  (state x <> Pending -> state x' = state x /\ result x' = result x) ->
  (state x = Pending -> forall cb, held cb -> cb ∈ fulfilled_callbacks x -> state x' = Pending /\ cb ∈ fulfilled_callbacks x') ->
  follows s (set_pms (<[p:=x']> (pms s)) s).
Proof.
  intros Hp Hs Hh. apply follows_pms.
  - intros q y Hq Hn. destruct (decide (q = p)) as [->|].
    + simplify_eq. exists x'. rewrite list_lookup_insert_eq by (by eapply lookup_lt_Some). naive_solver.
    + exists y. by rewrite list_lookup_insert_ne.
  - intros q cb Hcb (y & Hq & Hy & Hin). unfold holding. simpl. destruct (decide (q = p)) as [->|].
    + simplify_eq. exists x'. rewrite list_lookup_insert_eq by (by eapply lookup_lt_Some). by destruct (Hh Hy cb Hcb Hin).
    + exists y. by rewrite list_lookup_insert_ne.
Qed.

Section Ops.
Context (rn : RunFn) (n : nat) (Hrn : run_spec rn n).

Lemma run_all_spec G D s T p x m cbs :
  Inv G D s ((cbs ≫= tok_of (core_of s)) ++ T) -> closed G D -> pms s !! p = Some x -> state x = Fulfilled ->
  G !! p = Some m -> Forall (cb_ok (core_of s) G D p m) cbs -> Forall (fun cb => need s cb <= n)%nat cbs ->
  triple G D s (run_all rn p cbs) T anything.
Proof.
  revert G D s x. induction cbs as [|cb cbs IH]; intros G D s x I C Hp Hs Hm Hok Hnd; simpl.
  { by apply triple_ret. }
  apply Forall_cons in Hok as [Hcb Hok]. apply Forall_cons in Hnd as [Hn Hnd].
  rewrite bind_cons, <- (assoc_L (++)) in I.
  eapply (triple_bind _ _ _ _ _ ((cbs ≫= tok_of (core_of s)) ++ T)).
  { by eapply (Hrn G D s ((cbs ≫= tok_of (core_of s)) ++ T) p cb x m). }
  intros _ G1 D1 s1 [HG HD I1 C1 F] _.
  pose proof (frame_evolves _ _ _ (fo_frame _ _ F)) as Ev.
  rewrite <- (toks_mono (core_of s) (core_of s1) G D Ev p m cbs Hok) in I1.
  destruct (fo_settled _ _ F p x Hp) as (x1 & Hp1 & Hs1 & _); [by rewrite Hs|].
  eapply IH; [exact I1|done|exact Hp1|congruence|by eapply prefix_lookup_Some|..].
  - eapply Forall_impl; [exact Hok|]. intros cb'. by apply cb_ok_mono.
  - eapply Forall_impl; [exact Hnd|]. intros cb' ?. etrans; [exact (need_follows _ _ cb' F)|done].
Qed.

Lemma resolve_spec G D s T p m v : Inv G D s T -> closed G D -> G !! p = Some m ->
  sat (core_of s) G D m v -> (forall h, m = MFetch h -> answered h) -> (need_m s m <= n)%nat ->
  triple G D s (resolve rn p v) T (fun _ _ _ s' => not_pending s' p).
Proof.
  intros I C Hm Hv Ha Hn. destruct (lookup_lt_is_Some_2 (pms s) p) as [x Hp].
  { rewrite <- (iv_lenG _ _ _ _ I). by eapply lookup_lt_Some. }
  pose proof (iv_pm _ _ _ _ I p x Hp) as (m' & Hm' & Hx). simplify_eq.
  unfold resolve. apply wp_bind. eapply wp_load; [done|]. destruct (state x) eqn:Hs; [|..].
  2,3: apply triple_ret; [done..|]; intros y Hy; simplify_eq; congruence.
  apply wp_bind, wp_store. unfold trigger_fulfill.
  set (x1 := mkPromise _ _ Pending v _). apply wp_bind. eapply (wp_load _ x1).
  { simpl. by rewrite list_lookup_insert_eq by (by eapply lookup_lt_Some). }
  apply wp_bind, wp_store. simpl. unfold set_pms at 1. simpl. rewrite list_insert_insert_eq.
  set (x2 := mkPromise _ _ Fulfilled v _). fold (set_pms (<[p:=x2]> (pms s)) s). set (s1 := set_pms _ s).
  assert (follows s s1) as F1.
  { apply (follows_insert s p x); [done|by rewrite Hs|]. intros _ cb (h & r & npm & -> & Hna) Hin.
    rewrite Forall_forall in Hx. destruct (Hx _ Hin) as [-> _]. by destruct Hna; apply Ha. }
  assert (Inv G D s1 ((fulfilled_callbacks x ≫= tok_of (core_of s)) ++ T)) as I1.
  { eapply inv_pm; [done|done| |done|].
    - by exists m.
    - unfold pm_toks. simpl. by rewrite Hs. }
  assert (pms s1 !! p = Some x2) as Hp1 by (apply list_lookup_insert_eq; by eapply lookup_lt_Some).
  assert (reached s G D ((fulfilled_callbacks x ≫= tok_of (core_of s)) ++ T) G D s1) as R1 by (by split).
  eapply triple_wp; [exact R1|]. eapply triple_bind.
  - eapply run_all_spec; [exact I1|done|exact Hp1|done|exact Hm|exact Hx|].
    eapply Forall_impl; [exact Hx|]. intros cb Hcb. etrans; [exact (need_meaning _ _ _ s1 _ _ _ Hcb)|].
    etrans; [exact (need_m_follows _ _ _ F1)|done].
  - intros _ G2 D2 s2 [HG HD I2 C2 F2] _. destruct (fo_settled _ _ F2 p x2 Hp1) as (x3 & Hp3 & Hs3 & Hr3); [done|].
    simpl in Hs3. apply wp_bind. eapply wp_load; [done|]. set (x4 := mkPromise _ _ _ _ _).
    exists G2, D2. split.
    + split; [done..| |done|].
      * eapply inv_pm; [exact I2|exact Hp3| |by simpl; rewrite Hs3|].
        -- pose proof (iv_pm _ _ _ _ I2 p x3 Hp3) as (m3 & Hm3 & Hx3). exists m3. split; [done|].
           simpl. by rewrite Hs3 in Hx3 |- *.
        -- unfold pm_toks. simpl. by rewrite Hs3.
      * apply (follows_insert s2 p x3); [done|by split|by rewrite Hs3].
    + intros y. simpl. rewrite list_lookup_insert_eq by (by eapply lookup_lt_Some). intros [= <-]. simpl. congruence.
Qed.

Definition plain (m : Meaning) : Prop := m = MNone \/ exists v, m = MVote v.

Lemma plain_waits m s q : plain m -> waits_for s q m.
Proof. by intros [->|[v ->]]. Qed.
Lemma plain_join m j : plain m -> m <> MJoin j.
Proof. by intros [->|[v ->]]. Qed.

Lemma closed_snoc G D m : closed G D -> (forall j, m <> MJoin j) -> closed (G ++ [m]) D.
Proof.
  intros C Hm p j [?|[_ Hp]]%lookup_app_Some; [by eapply C|]. apply list_lookup_singleton_Some in Hp as [_ Hp].
  by destruct (Hm j).
Qed.

(** Allocation, with the promise still to be settled or attached. *)
Lemma new_promise_spec G D s T m : Inv G D s T -> closed G D -> (forall j, m <> MJoin j) ->
  triple G D s new_promise (TOpen (length (pms s)) :: T)
    (fun p G' D' s' => p = length (pms s) /\ G' = G ++ [m] /\ D' = D /\ s' = set_pms (pms s ++ [Promise_new]) s).
Proof.
  intros I C Hm. eapply (triple_step _ _ _ _ _ _ _ (G ++ [m]) D); [done|..].
  - split; [by exists [m]|done| |by apply closed_snoc|].
    + apply inv_new; [done|]. intros j Hj. by destruct (Hm j).
    + apply follows_app.
  - done.
Qed.

Lemma inv_drop_plain G D s T q m : Inv G D s (TOpen q :: T) -> G !! q = Some m -> plain m -> Inv G D s T.
Proof. intros I Hq Hp. eapply inv_drop_open; [done|]. intros m' x Hm' _ _. simplify_eq. by apply plain_waits. Qed.

Lemma lookup_snoc {A} (l : list A) x : (l ++ [x]) !! length l = Some x.
Proof. by rewrite lookup_app_r, Nat.sub_diag. Qed.

Lemma resolved_spec G D s T m v : Inv G D s T -> closed G D -> (forall j, m <> MJoin j) ->
  sat0 (core_of s) m v -> triple G D s (resolved rn v) T (fun p G' _ _ => G' !! p = Some m).
Proof.
  intros I C Hm Hv. set (s1 := set_pms (pms s ++ [Promise_new]) s). set (p := length (pms s)).
  set (x := mkPromise [] [] Fulfilled v None : Promise (A := BVal) (K := Closure)).
  assert (p < length (pms s ++ [Promise_new (A := BVal) (K := Closure)]))%nat as Hl by (rewrite length_app; simpl; lia).
  assert (wp (resolved rn v) (fun a s' => a = p /\ s' = set_pms (<[p:=x]> (pms s1)) s1) (raises s) s) as Hrun.
  { unfold resolved. apply wp_bind. unfold new_promise. wp_steps. fold p. fold s1. unfold resolve.
    apply wp_bind. eapply wp_load; [apply lookup_snoc|]. simpl. apply wp_bind, wp_store. unfold trigger_fulfill.
    apply wp_bind. eapply wp_load; [by apply list_lookup_insert_eq|]. simpl. apply wp_bind, wp_store. simpl.
    apply wp_bind, wp_ret. apply wp_bind. eapply wp_load; [apply list_lookup_insert_eq; by rewrite length_insert|].
    simpl. apply wp_store. simpl. apply wp_ret. unfold set_pms. simpl. by rewrite !list_insert_insert_eq. }
  assert (pms s1 !! p = Some Promise_new) as Hp by apply lookup_snoc.
  assert (Inv (G ++ [m]) D s1 (TOpen p :: T)) as I1.
  { apply inv_new; [done|]. intros j Hj. by destruct (Hm j). }
  assert ((G ++ [m]) !! p = Some m) as HGp.
  { unfold p. rewrite <- (iv_lenG _ _ _ _ I). apply lookup_snoc. }
  eapply wp_mono; [exact Hrun| |done]. intros a s' [-> ->]. exists (G ++ [m]), D. split; [|done].
  assert (follows s s1) as F1.
  { apply follows_app. }
  split; [by exists [m]|done| |by apply closed_snoc|].
  - apply (inv_drop_open _ _ _ _ p).
    + eapply inv_pm; [exact I1|exact Hp| |done|done].
      exists m. split; [done|]. simpl. by destruct m.
    + intros m' y _. simpl. rewrite list_lookup_insert_eq by done. by intros [= <-].
  - etrans; [exact F1|]. apply (follows_insert s1 p Promise_new); [done|done|]. by intros _ cb _ ?%elem_of_nil.
Qed.

Lemma tok_of_npm c f npm : tok_of c (OnFulfilled f npm) = tok_of c (OnFulfilled f 0%nat).
Proof. by destruct f as [[]| | |]. Qed.
Lemma need_npm s f npm : need s (OnFulfilled f npm) = need s (OnFulfilled f 0%nat).
Proof. by destruct f as [[]| | |]. Qed.

Lemma then_spec G D s T p m f g mn :
  Inv G D s (tok_of (core_of s) (OnFulfilled f 0%nat) ++ T) -> closed G D -> G !! p = Some m -> plain mn ->
  (forall npm G', G `prefix_of` G' -> G' !! npm = Some mn -> cb_ok (core_of s) G' D p m (OnFulfilled f npm)) ->
  (not_pending s p -> need s (OnFulfilled f 0%nat) <= n)%nat ->
  triple G D s (then_ rn p f g) T (fun npm G' _ _ => G' !! npm = Some mn).
Proof.
  intros I C Hm Hmn Hok Hn. destruct (lookup_lt_is_Some_2 (pms s) p) as [x Hp].
  { rewrite <- (iv_lenG _ _ _ _ I). by eapply lookup_lt_Some. }
  pose proof (iv_pm _ _ _ _ I p x Hp) as (m' & Hm' & Hx). simplify_eq.
  unfold then_. apply wp_bind. eapply wp_load; [done|]. simpl.
  eapply triple_bind; [by apply (new_promise_spec _ _ _ _ mn I C); intros; apply plain_join|].
  intros npm G1 D1 s1 [HG HD I1 C1 F1] (-> & -> & -> & ->).
  set (npm := length (pms s)) in *. set (s1 := set_pms _ s) in *.
  assert ((G ++ [mn]) !! npm = Some mn) as Hnpm.
  { unfold npm. rewrite <- (iv_lenG _ _ _ _ I). apply lookup_snoc. }
  eapply inv_drop_plain in I1; [|done..]. specialize (Hok npm (G ++ [mn]) HG Hnpm).
  assert (pms s1 !! p = Some x) as Hp1 by (by apply lookup_app_l_Some).
  assert ((G ++ [mn]) !! p = Some m) as Hm1 by (by eapply prefix_lookup_Some).
  destruct (state x) eqn:Hs; [|..|done].
  - unfold add_on_fulfilled, add_on_rejected. apply wp_bind, wp_bind, wp_bind.
    eapply wp_load; [done|]. apply wp_store. apply wp_bind.
    eapply wp_load; [simpl; apply list_lookup_insert_eq; by eapply lookup_lt_Some|].
    apply wp_store. simpl. unfold set_pms at 1. simpl. rewrite list_insert_insert_eq.
    set (x' := mkPromise _ _ _ _ _). apply wp_ret. exists (G ++ [mn]), D. split; [|done].
    split; [done..| |done|].
    + eapply (inv_pm _ _ s1 _ _ p x); [exact I1|done| |by intros _|].
      * exists m. split; [done|]. simpl. rewrite Hs. apply Forall_app. split; [|by apply Forall_singleton].
        eapply Forall_impl; [exact Hx|]. intros cb. by apply cb_ok_mono.
      * unfold pm_toks. simpl. rewrite Hs, bind_app, bind_singleton, tok_of_npm. by rewrite (assoc_L (++)).
    + apply (follows_insert s1 p x); [done|by rewrite Hs|]. intros _ cb _ Hin. split; [done|]. apply elem_of_app. by left.
  - eapply triple_bind.
    + eapply (Hrn (G ++ [mn]) D s1 T p _ x m); [by rewrite tok_of_npm|done..|]; rewrite need_npm; apply Hn; intros y Hy; simplify_eq; by rewrite Hs.
    + intros _ G2 D2 s2 R _. apply triple_ret; [apply R|apply R|]. eapply prefix_lookup_Some; [done|apply R].
Qed.

Lemma reached_lookup_G s G D T G' D' s' q m : reached s G D T G' D' s' -> G !! q = Some m -> G' !! q = Some m.
Proof. intros [] Hq. by eapply prefix_lookup_Some. Qed.
Lemma reached_lookup_D s G D T G' D' s' j e : reached s G D T G' D' s' -> D !! j = Some e -> D' !! j = Some e.
Proof. intros [] Hq. by eapply prefix_lookup_Some. Qed.

Lemma all_loop_spec G D s T j npm qs idx ps :
  Inv G D s ((TSlot j <$> seq idx (length ps)) ++ T) -> closed G D -> D !! j = Some (npm, qs) ->
  drop idx qs = ps -> Forall (fun q => exists m, G !! q = Some m /\ slot_meaning m) ps -> (level s + 4 <= n)%nat ->
  triple G D s (all_loop rn j npm idx ps) T anything.
Proof.
  revert G D s idx. induction ps as [|p ps IH]; intros G D s idx I C Hj Hd Hms Hn; simpl.
  { by apply triple_ret. }
  apply Forall_cons in Hms as [(m & Hm & Hsm) Hms].
  assert (qs !! idx = Some p) as Hp by (rewrite <- (Nat.add_0_r idx), <- lookup_drop, Hd; done).
  eapply triple_bind.
  { eapply (then_spec G D s ((TSlot j <$> seq (S idx) (length ps)) ++ T) p m (AllSlot j idx npm) _ MNone);
      [exact I|done|done|by left| |done].
    intros np G' HG' Hnp. simpl. split; [done|]. split; [done|]. by exists qs. }
  intros np G1 D1 s1 R _. eapply IH; [apply R|apply R|by eapply reached_lookup_D|..].
  - by rewrite (drop_S _ _ _ Hp) in Hd; injection Hd.
  - eapply Forall_impl; [exact Hms|]. intros q (m' & ? & ?). exists m'. split; [by eapply reached_lookup_G|done].
  - pose proof (level_follows _ _ (re_follows _ _ _ _ _ _ _ R)). lia.
Qed.

Lemma all_spec G D s T qs : Inv G D s T -> closed G D ->
  Forall (fun q => exists m, G !! q = Some m /\ slot_meaning m) qs -> qs <> [] ->
  Z.of_nat (length qs) < 2 ^ 64 -> (level s + 4 <= n)%nat ->
  triple G D s (all rn qs) T (fun a G' D' _ => exists j, G' !! a = Some (MJoin j) /\ D' !! j = Some (a, qs)).
Proof.
  intros I C Hms Hne Hlen Hn. unfold all. apply wp_bind. unfold new_promise.
  apply wp_bind, wp_get. apply wp_bind, wp_modify. apply wp_ret.
  set (npm := length (pms s)). set (s1 := set_pms _ s).
  destruct qs as [|q0 qs0]; [done|]. apply wp_bind, wp_get. apply wp_bind, wp_modify.
  generalize dependent (q0 :: qs0). clear q0 qs0. intros qs Hms Hne Hlen.
  change (joins s1) with (joins s). set (j := length (joins s)). set (m := MJoin j).
  assert (Inv (G ++ [m]) D s1 (TOpen npm :: T)) as I1.
  { apply inv_new; [done|]. intros ? [= <-]. by rewrite (iv_lenD _ _ _ _ I). }
  assert ((G ++ [m]) !! npm = Some m) as Hnpm.
  { unfold npm. rewrite <- (iv_lenG _ _ _ _ I). apply lookup_snoc. }
  eapply (inv_join_new _ _ _ _ _ qs) in I1; [|done| |done|done].
  2:{ intros p [Hp|[Hl Hp]]%lookup_app_Some.
      - apply C in Hp. rewrite (iv_lenD _ _ _ _ I) in Hp. simpl in Hp. lia.
      - apply lookup_lt_Some in Hp. simpl in Hp. rewrite (iv_lenG _ _ _ _ I) in *. unfold npm. lia. }
  change (joins s1) with (joins s) in I1. fold j in I1. set (jn := mkJoin _ _) in *.
  set (s2 := set_joins (joins s ++ [jn]) s1).
  assert (reached s G D ((TSlot j <$> seq 0 (length qs)) ++ T) (G ++ [m]) (D ++ [(npm, qs)]) s2) as R.
  { split; [by exists [m]|by exists [(npm, qs)]|exact I1| |].
    - intros p i [Hp|[_ Hp]]%lookup_app_Some; rewrite length_app; simpl.
      + apply C in Hp. lia.
      + apply list_lookup_singleton_Some in Hp as [_ [= <-]]. unfold j. rewrite (iv_lenD _ _ _ _ I). lia.
    - change s2 with (mkStore (pms s ++ [Promise_new]) (joins s ++ [jn]) (world s)).
      apply follows_app. }
  assert ((D ++ [(npm, qs)]) !! j = Some (npm, qs)) as Hj.
  { unfold j. rewrite <- (iv_lenD _ _ _ _ I). apply lookup_snoc. }
  eapply triple_wp; [exact R|]. eapply triple_bind.
  - eapply all_loop_spec; [apply R|apply R|exact Hj|done| |].
    + eapply Forall_impl; [exact Hms|]. intros q (m' & ? & ?). exists m'. split; [by eapply reached_lookup_G|done].
    + pose proof (level_follows _ _ (re_follows _ _ _ _ _ _ _ R)). lia.
  - intros _ G3 D3 s3 R3 _. apply triple_ret; [apply R3..|]. exists j.
    split; [by eapply reached_lookup_G|by eapply reached_lookup_D].
Qed.

(** ** The core *)

Lemma set_core_same (s : St) : set_world (set_core (core_of s) (world s)) s = s.
Proof. by destruct s as [? ? []]. Qed.

Lemma set_dw_same (s : St) : set_world (set_delivery (blk_delivery_waiting (world s)) (world s)) s = s.
Proof. by destruct s as [? ? []]. Qed.

Lemma lift_core_pure {X} (m : M HotStuffCore Error X) s a : m (core_of s) = (inl a, core_of s) ->
  lift_core m s = (inl a, s).
Proof. intros Hm. unfold lift_core, lift. by rewrite Hm, set_core_same. Qed.

Lemma wp_lift_deref x b (Q : Block -> St -> Prop) (X : PErr -> St -> Prop) s :
  hp (core_of s) !! x = Some b -> Q b s -> wp (lift_core (deref x)) Q X s.
Proof.
  intros Hx HQ. unfold wp. rewrite (lift_core_pure _ s b); [done|].
  unfold deref, mbind, M_bind. simpl. by rewrite Hx.
Qed.

Lemma wp_get_base (Q : Base -> St -> Prop) (X : PErr -> St -> Prop) s : Q (world s) s -> wp get_base Q X s.
Proof. done. Qed.

Lemma wp_update_base f (Q : unit -> St -> Prop) (X : PErr -> St -> Prop) s :
  Q tt (set_world (f (world s)) s) -> wp (update_base f) Q X s.
Proof. done. Qed.

(** A call of the core that delivers nothing. *)
Lemma lift_still_spec {X} G D s T (m : M HotStuffCore Error X) i : Inv G D s T -> closed G D ->
  along (frame (fun _ => False)) m -> fits (core_of s) i -> (exec i (core_of s)).2 = (m (core_of s)).2 ->
  triple G D s (lift_core m) T anything.
Proof.
  intros I C Hm Hi He. specialize (Hm (core_of s)). unfold triple, wp, lift_core, lift.
  assert (rtc core_step (core_of s) (m (core_of s)).2) as Hp.
  { apply rtc_once. by exists i. }
  destruct (m (core_of s)) as [[a|e] c]; simpl in *.
  - exists G, D. split; [|done]. split; [done..| |done|].
    + apply inv_core; [done|by eapply frame_evolves|eapply frame_stored; [done|apply I]|].
      intros h Hh Hd. eapply delivered_back in Hd; [|done]. destruct Hd as [Hd|(x & _ & [])].
      by apply (iv_drive _ _ _ _ I h).
    + split; simpl; [done|by eapply frame_weaken; [|done]|eauto|auto| |eauto|done|auto].
      unfold free. simpl. apply difference_mono_r. by eapply undelivered_frame.
  - split; [|done]. by exists (ECore e).
Qed.

(** ** Blocks *)

Lemma inv_block G D s T h x : Inv G D s T -> find_blk (storage (core_of s)) h = Some x ->
  exists b q, hp (core_of s) !! x = Some b /\ hash b = h /\ qc (content b) = Some q /\
    Z.of_nat (length (parent_hashes (content b))) < 2 ^ 32.
Proof.
  intros I Hx. destruct (sd_cache _ (iv_stored _ _ _ _ I) h x Hx) as (b & Hb & Hh).
  destruct (sd_block _ (iv_stored _ _ _ _ I) x b Hb) as ([q Hq] & Hl). by exists b, q.
Qed.

Lemma inv_drive_undelivered G D s T h : Inv G D s (TDrive h :: T) -> ~ is_delivered (core_of s) h.
Proof. intros I. apply (iv_drive _ _ _ _ I h). rewrite elem_of_app, elem_of_cons. auto. Qed.

Lemma reached_core s G D T G' D' s' : reached s G D T G' D' s' -> evolves (core_of s) (core_of s').
Proof. intros [_ _ _ _ F]. eapply frame_evolves, F. Qed.

Lemma core_deliver_spec G D s T x b : Inv G D s (TDrive (hash b) :: T) -> closed G D ->
  hp (core_of s) !! x = Some b -> find_blk (storage (core_of s)) (hash b) = Some x -> fit (core_of s) b ->
  triple G D s (lift_core (on_deliver_blk x)) (TDone (hash b) :: T)
    (fun r _ _ s' => r = true /\ (level s' + 2 <= level s)%nat).
Proof.
  intros I C Hb Hx Hfit. pose proof (inv_drive_undelivered _ _ _ _ _ I) as Hu.
  assert (delivered b = false) as Hdb.
  { apply not_true_is_false. intros Hd. apply Hu. unfold is_delivered. by rewrite (delivered_at _ _ _ _ Hx Hb). }
  pose proof (on_deliver_blk_result x (core_of s)) as Hres. pose proof (frame_on_deliver_blk x (core_of s)) as Hfr.
  assert (rtc core_step (core_of s) (on_deliver_blk x (core_of s)).2) as Hpath.
  { apply rtc_once. exists (InDeliver x). split; [by exists b|].
    simpl. unfold mbind, M_bind. by destruct (on_deliver_blk x (core_of s)) as [[]]. }
  unfold triple, wp, lift_core, lift in *. destruct (on_deliver_blk x (core_of s)) as [[r|e] c]; simpl in *.
  2:{ split; [|done]. by exists (ECore e). }
  destruct r; [|destruct Hres as [_ (b' & ? & ?)]; simplify_eq; congruence].
  destruct Hres as (b1 & b' & Hb1 & _ & Hb' & Hd'). simplify_eq.
  pose proof (frame_evolves _ _ _ Hfr) as Ev.
  assert (find_blk (storage c) (hash b) = Some x) as Hxc by (by rewrite (fr_storage _ _ _ Hfr)).
  assert (is_delivered c (hash b)) as Hdc by (unfold is_delivered; by rewrite (delivered_at _ _ _ _ Hxc Hb')).
  assert (forall h, h <> hash b -> is_delivered c h -> is_delivered (core_of s) h) as Hother.
  { intros h Hne Hh. eapply delivered_back in Hh; [|done]. destruct Hh as [?|(y & Hy & <-)]; [done|].
    destruct (sd_cache _ (iv_stored _ _ _ _ I) h x Hy) as (b2 & ? & ?). by simplify_eq. }
  assert (hash b ∈ undelivered (core_of s)) as Hin.
  { apply undelivered_spec. split; [by eexists|]. by apply not_true_is_false. }
  exists G, D. split; [split; [done..| |done|]|split; [done|]].
  - apply inv_deliver; [done..|eapply frame_stored; [done|apply I]|done|done].
  - split; simpl; [done|by eapply frame_weaken; [|done]|eauto|auto| |eauto|done|auto].
    unfold free. simpl. apply difference_mono_r. by eapply undelivered_frame.
  - unfold level. simpl. pose proof (undelivered_deliver _ _ _ _ Hfr Hin Hdc). lia.
Qed.

Lemma base_deliver_spec G D s T x b : Inv G D s (TDrive (hash b) :: T) -> closed G D ->
  hp (core_of s) !! x = Some b -> find_blk (storage (core_of s)) (hash b) = Some x -> fit (core_of s) b ->
  (level s + 2 <= n)%nat -> triple G D s (base_deliver_blk rn x) T anything.
Proof.
  intros I C Hb Hx Hfit Hn.
  unfold base_deliver_blk. apply wp_bind. eapply wp_lift_deref; [done|]. apply wp_bind, wp_get_base.
  apply wp_bind. unfold assertion.
  replace (forallb _ _) with true.
  2:{ symmetry. apply forallb_forall. intros h Hh%list_elem_of_In. by apply (ft_parents _ _ Hfit). }
  apply wp_ret. eapply triple_bind; [by apply core_deliver_spec|].
  intros r G1 D1 s1 R1 [-> Hl1]. apply wp_bind. simpl. apply wp_update_base.
  set (s2 := set_world _ s1).
  assert (Inv G1 D1 s2 (TDone (hash b) :: T)) as I2 by (apply inv_world_same; [apply R1|done..]).
  assert (reached s1 G1 D1 (TDone (hash b) :: T) G1 D1 s2) as R2.
  { split; [done..|apply R1|]. apply follows_world; simpl; eauto. }
  pose proof (iv_done _ _ _ _ I2 (hash b) ltac:(left)) as Hd2.
  eapply triple_wp; [exact R2|]. apply wp_bind, wp_get_base.
  destruct (blk_delivery_waiting (world s2) !! hash b) as [pm|] eqn:Hpm.
  - assert (G1 !! pm = Some (MDeliver (hash b))) as Hm by (by apply (iv_dw _ _ _ _ I2)).
    eapply triple_bind.
    + eapply resolve_spec; [exact I2|apply R1|exact Hm| |done|simpl; unfold level in *; simpl in *; lia].
      simpl. exists x. split; [done|]. split; [|done]. eapply find_mono; [|exact Hx].
      by eapply (reached_core s _ _ _ _ _ s1).
    + intros u G3 D3 s3 R3 Hnp. simpl in Hnp. apply wp_bind, wp_update_base. apply wp_ret.
      exists G3, D3. split; [|done]. split; [done..| |apply R3|].
      * apply inv_dw_delete; [apply R3|]. intros p Hp.
        destruct (fo_dw _ _ (re_follows _ _ _ _ _ _ _ R3) (hash b) Hd2) as [He|He]; rewrite He in Hp; [|done].
        by simplify_eq.
      * apply follows_world; simpl; [done|eauto|..].
        -- intros h _. destruct (decide (h = hash b)) as [->|]; [right; apply lookup_delete_eq|left; by apply lookup_delete_ne].
        -- intros h Hh. destruct (decide (h = hash b)) as [->|]; [right|left; by rewrite lookup_delete_ne].
           eapply delivered_mono; [by eapply reached_core|done].
  - apply triple_ret; [|apply R1|done].
    apply inv_dw_delete in I2; [|by intros p Hp; simplify_eq].
    by rewrite (delete_id _ _ Hpm), set_dw_same in I2.
Qed.

(** ** Fetching *)

Lemma update_base_spec G D s T w' : Inv G D s T -> closed G D -> core w' = core_of s ->
  blk_delivery_waiting w' = blk_delivery_waiting (world s) ->
  (forall h ctx, blk_fetch_waiting w' !! h = Some ctx -> G !! fc_pm ctx = Some (MFetch h)) ->
  (forall h ctx, blk_fetch_waiting (world s) !! h = Some ctx ->
     exists ctx', blk_fetch_waiting w' !! h = Some ctx' /\ fc_pm ctx' = fc_pm ctx) ->
  vpool w' = vpool (world s) -> reached s G D T G D (set_world w' s).
Proof.
  intros I C Hc Hd Hf Hk Hp. split; [done..| |done|].
  - apply inv_world; [done..|by rewrite Hp; left|].
    intros q m x _ _ _. destruct m; simpl; rewrite ?Hd, ?Hp; try done.
    intros (ctx & Hh & <-). by apply Hk.
  - apply follows_world; [done|done|..]; rewrite Hd; auto.
Qed.

Lemma add_fetch_replica_spec G D s T h r now : Inv G D s T -> closed G D ->
  triple G D s (add_fetch_replica h r now) T anything.
Proof.
  intros I C. unfold add_fetch_replica. apply wp_bind, wp_get_base.
  destruct (blk_fetch_waiting (world s) !! h) as [ctx|] eqn:Hh; [|by apply triple_ret].
  eapply (triple_bind _ _ _ _ _ T _ (fun _ G1 D1 s1 => blk_fetch_waiting (world s1) !! h = Some ctx)).
  - unfold mwhen. case_match; [|by apply triple_ret]. apply wp_update_base. exists G, D. split; [|done].
    apply update_base_spec; try done; simpl; [apply I|eauto].
  - intros _ G1 D1 s1 [HG HD I1 C1 F1] Hh1. apply wp_update_base. exists G1, D1. split; [|done].
    apply update_base_spec; try done; simpl; intros h' c'.
    + rewrite lookup_insert. case_decide; [intros [= <-]; subst; simpl|]; by apply I1.
    + intros Hc'. rewrite lookup_insert. case_decide; [subst; simplify_eq|]; eauto.
Qed.

Lemma async_fetch_spec G D s T h r now : Inv G D s T -> closed G D ->
  triple G D s (async_fetch_blk rn h r now) T (fun p G' _ _ => G' !! p = Some (MFetch h)).
Proof.
  intros I C. unfold async_fetch_blk, find_block. apply wp_bind, wp_bind, wp_get_base. apply wp_ret.
  destruct (find_blk (storage (core_of s)) h) as [x|] eqn:Hx.
  { apply resolved_spec; [done..|]. by exists x. }
  apply wp_bind, wp_get_base.
  eapply (triple_bind _ _ _ _ _ T _ (fun p G' _ _ => G' !! p = Some (MFetch h))).
  - destruct (blk_fetch_waiting (world s) !! h) as [ctx|] eqn:Hh.
    { apply triple_ret; [done..|]. by apply (iv_fw _ _ _ _ I). }
    eapply triple_bind; [by apply (new_promise_spec _ _ _ _ (MFetch h) I C)|].
    intros p G1 D1 s1 [HG HD I1 C1 F1] (-> & -> & -> & ->).
    assert ((G ++ [MFetch h]) !! length (pms s) = Some (MFetch h)) as Hp.
    { rewrite <- (iv_lenG _ _ _ _ I). apply lookup_snoc. }
    apply wp_bind, wp_update_base. apply wp_ret. eexists _, D. split; [|exact Hp]. split; [done..| |done|].
    + eapply inv_drop_open.
      * apply inv_fw_set; [exact I1|done|]. simpl. by rewrite Hh.
      * intros m y Hm _ _. rewrite Hp in Hm. injection Hm as <-. simpl. eexists. by rewrite lookup_insert_eq.
    + apply follows_world; simpl; [done| |auto..]. intros h' ctx Hc. exists ctx. split; [|done].
      rewrite lookup_insert_ne; [done|]. by intros ->; simplify_eq.
  - intros p G1 D1 s1 R1 Hp. eapply triple_bind.
    + destruct r as [r|]; [apply add_fetch_replica_spec; apply R1|apply triple_ret; apply R1 || done].
    + intros u G2 D2 s2 R2 _. apply triple_ret; [apply R2..|]. by eapply reached_lookup_G.
Qed.

(** A fulfilled fetch has its block in the storage. *)
Lemma fetched_stored G D s T p h : Inv G D s T -> G !! p = Some (MFetch h) -> not_pending s p ->
  is_Some (find_blk (storage (core_of s)) h).
Proof.
  intros I Hm Hn. destruct (lookup_lt_is_Some_2 (pms s) p) as [x Hp].
  { rewrite <- (iv_lenG _ _ _ _ I). by eapply lookup_lt_Some. }
  destruct (iv_pm _ _ _ _ I p x Hp) as (m & Hm' & Hx). simplify_eq. specialize (Hn x Hp).
  destruct (state x); try done. destruct Hx as (y & _ & ?). by exists y.
Qed.

(** ** Delivering *)

Lemma async_deliver_spec G D s T h r : Inv G D s T -> closed G D -> (level s + size (free s) + 5 <= n)%nat ->
  triple G D s (async_deliver_blk rn h r) T (fun p G' _ s' => G' !! p = Some (MDeliver h) /\
    (is_Some (blk_delivery_waiting (world s') !! h) \/ is_delivered (core_of s') h)).
Proof.
  intros I C Hn. unfold async_deliver_blk, blk_delivered, find_block.
  apply wp_bind, wp_bind, wp_get_base. apply wp_ret. apply wp_bind, wp_bind, wp_get_base. apply wp_ret.
  destruct (is_blk_delivered _ _ h) eqn:Hd.
  { destruct (find_blk (storage (core_of s)) h) as [x|] eqn:Hx.
    - apply wp_bind, wp_ret. eapply triple_mono; [apply (resolved_spec _ _ _ _ (MDeliver h)); [done..|by exists x]|].
      intros p G' D' s' R Hp. split; [done|right]. by eapply delivered_mono; [eapply reached_core|].
    - unfold is_blk_delivered in Hd. unfold find_blk in Hx. by rewrite Hx in Hd. }
  apply wp_bind, wp_get_base. destruct (blk_delivery_waiting (world s) !! h) as [pm|] eqn:Hpm.
  { apply triple_ret; [done..|]. split; [by apply (iv_dw _ _ _ _ I)|left; by eexists]. }
  eapply triple_bind; [by apply (new_promise_spec _ _ _ _ (MDeliver h) I C)|].
  intros p G1 D1 s1 [HG HD I1 C1 F1] (-> & -> & -> & ->). clear HD.
  set (s1 := set_pms _ s) in *. set (p := length (pms s)) in *. set (G1 := G ++ [MDeliver h]) in *.
  assert (G1 !! p = Some (MDeliver h)) as Hp by (unfold G1, p; rewrite <- (iv_lenG _ _ _ _ I); apply lookup_snoc).
  apply wp_bind, wp_update_base. set (s2 := set_world _ s1).
  assert (Inv G1 D s2 (TDrive h :: T)) as I2.
  { eapply (inv_drop_open _ _ _ _ p).
    - eapply inv_perm; [|apply inv_dw_insert; [exact I1|done|done|change (~ is_blk_delivered (hp (core_of s)) (storage (core_of s)) h = true); by rewrite Hd]]. by constructor.
    - intros m y Hm _ _. rewrite Hp in Hm. injection Hm as <-. simpl. by rewrite lookup_insert_eq. }
  assert (follows s1 s2) as F2.
  { apply follows_world; simpl; [done|eauto|..].
    - intros h' Hd'. left. rewrite lookup_insert_ne; [done|]. intros ->. unfold is_delivered in Hd'. congruence.
    - intros h' [q Hq]. left. rewrite lookup_insert. case_decide; eauto. }
  eapply triple_wp; [by split; [done..|exact I2| |]|].
  eapply triple_bind; [by apply async_fetch_spec|].
  intros pf G3 D3 s3 R3 Hpf. pose proof R3 as [HG3 HD3 I3 C3 F3].
  eapply triple_bind.
  - eapply (then_spec G3 D3 s3 T pf (MFetch h) (User (KFetched h r)) None MNone); [exact I3|done|done|by left|..].
    + intros np G' _ Hnp. simpl. done.
    + intros Hnp. destruct (fetched_stored _ _ _ _ _ _ I3 Hpf Hnp) as [x Hx].
      assert (storage (core_of s3) = storage (core_of s)) as Hst by apply (fr_storage _ _ _ (fo_frame _ _ F3)).
      rewrite Hst in Hx.
      assert (h ∈ free s /\ h ∉ free s2) as [Hin Hout].
      { unfold free. rewrite !elem_of_difference, !elem_of_dom, undelivered_spec. simpl.
        rewrite lookup_insert_eq, Hpm. split; [split; [split; [by eexists|done]|by intros [? ?]]|].
        intros [_ Hf]. by apply Hf. }
      assert (size (free s3) < size (free s))%nat.
      { apply subset_size, strict_spec_alt. split.
        - etrans; [apply F3|]. etrans; [apply F2|apply F1].
        - intros He. apply Hout. apply (fo_free _ _ F3). by rewrite He. }
      pose proof (level_follows _ _ F3). pose proof (level_follows _ _ F2). pose proof (level_follows _ _ F1).
      simpl. lia.
  - intros np G4 D4 s4 R4 _. apply triple_ret; [apply R4..|]. split.
    + eapply reached_lookup_G; [exact R4|]. by eapply reached_lookup_G.
    + apply (fo_under_way s2 s4); [etrans; [exact F3|apply R4]|]. simpl. by rewrite lookup_insert_eq.
Qed.

Lemma deliver_all_spec G D s T hs r : Inv G D s T -> closed G D -> (level s + size (free s) + 5 <= n)%nat ->
  triple G D s (deliver_all rn hs r) T (fun ps G' _ _ => meanings G' ps (MDeliver <$> hs)).
Proof.
  revert G D s. induction hs as [|h hs IH]; intros G D s I C Hn; simpl.
  { apply triple_ret; [done..|constructor]. }
  eapply triple_bind; [by apply async_deliver_spec|]. intros p G1 D1 s1 R1 [Hp _].
  eapply triple_bind.
  - apply IH; [apply R1..|]. pose proof (level_follows _ _ (re_follows _ _ _ _ _ _ _ R1)).
    pose proof (free_follows _ _ (re_follows _ _ _ _ _ _ _ R1)). lia.
  - intros ps G2 D2 s2 R2 Hps. apply triple_ret; [apply R2..|]. constructor; [by eapply reached_lookup_G|done].
Qed.

Lemma fetch_all_spec G D s T hs r : Inv G D s T -> closed G D ->
  triple G D s (fetch_all rn hs r) T (fun ps G' _ _ => meanings G' ps (MFetch <$> hs)).
Proof.
  revert G D s. induction hs as [|h hs IH]; intros G D s I C; simpl.
  { apply triple_ret; [done..|constructor]. }
  eapply triple_bind; [by apply async_fetch_spec|]. intros p G1 D1 s1 R1 Hp.
  eapply triple_bind; [apply IH; apply R1|]. intros ps G2 D2 s2 R2 Hps.
  apply triple_ret; [apply R2..|]. constructor; [by eapply reached_lookup_G|done].
Qed.

(** ** Verification *)

Lemma answer_spec G D s T inl r m : Inv G D s T -> closed G D ->
  match m with MVerify _ | MPart _ => sat0 (core_of s) m (Some (AVal (VBool r))) | _ => False end ->
  triple G D s (answer rn inl r) T (fun p G' _ _ => G' !! p = Some m).
Proof.
  intros I C Hm. assert (sat0 (core_of s) m (Some (AVal (VBool r)))) as Hs by (by destruct m).
  assert (forall j, m <> MJoin j) as Hj by (by destruct m).
  unfold answer. destruct inl; [by apply resolved_spec|]. unfold vpool_verify.
  eapply triple_bind; [by apply (new_promise_spec _ _ _ _ m I C)|].
  intros p G1 D1 s1 [HG HD I1 C1 F1] (-> & -> & -> & ->). set (s1 := set_pms _ s) in *.
  assert ((G ++ [m]) !! length (pms s) = Some m) as Hp.
  { rewrite <- (iv_lenG _ _ _ _ I). apply lookup_snoc. }
  apply wp_bind, wp_update_base. apply wp_ret. exists (G ++ [m]), D. split; [|exact Hp]. split; [done..| |done|].
  - eapply inv_drop_open.
    + eapply (inv_pool_add _ _ _ _ (mkTask r (length (pms s))) m I1); [exact Hp|by destruct m].
    + intros m' y Hm' _ _. rewrite Hp in Hm'. injection Hm' as <-.
      destruct m; try done; simpl; eexists; (split; [apply elem_of_app; right; by left|done]).
  - apply follows_world; simpl; eauto.
Qed.

Lemma block_verify_spec G D s T x b : Inv G D s T -> closed G D -> hp (core_of s) !! x = Some b ->
  triple G D s (block_verify_async rn x) T (fun p G' _ _ => G' !! p = Some (MVerify x)).
Proof.
  intros I C Hb. destruct (sd_block _ (iv_stored _ _ _ _ I) x b Hb) as ([q Hq] & _).
  destruct (sd_genesis _ (iv_stored _ _ _ _ I)) as (g & Hg & Hgh & _).
  unfold block_verify_async. apply wp_bind. eapply wp_lift_deref; [done|]. apply wp_bind, wp_get_base.
  rewrite Hq. apply wp_bind, wp_ret. apply wp_bind. eapply wp_lift_deref; [done|]. rewrite Hgh.
  case_decide as Hd.
  - apply resolved_spec; [done..|]. exists true, b. split; [done|]. split; [done|].
    unfold block_verify. rewrite Hq. by rewrite decide_True.
  - apply wp_bind. destruct (qc_verify q (config (core_of s))) as [r|] eqn:Hr.
    + apply wp_ret, answer_spec; [done..|]. exists r, b. split; [done|]. split; [done|].
      unfold block_verify. rewrite Hq. by rewrite decide_False.
    + apply wp_throw. split; [by exists EVerify|done].
Qed.

Lemma vote_verify_spec G D s T v : Inv G D s T -> closed G D -> (level s + 5 <= n)%nat ->
  triple G D s (vote_verify_async rn v) T (fun p G' _ _ => G' !! p = Some (MVote v)).
Proof.
  intros I C Hn. unfold vote_verify_async. apply wp_bind, wp_get_base. apply wp_bind.
  destruct (get_pubkey (config (core_of s)) (voter v)) as [pk|] eqn:Hpk.
  2:{ apply wp_throw. split; [by exists EVerify|done]. }
  apply wp_ret. eapply triple_bind.
  - apply (answer_spec _ _ _ _ _ _ (MPart v) I C). by exists pk.
  - intros p G1 D1 s1 R1 Hp. eapply (then_spec _ _ _ T p (MPart v)); [apply R1|apply R1|done|right; by exists v|..].
    + intros np G' _ Hnp. simpl. done.
    + intros _. pose proof (level_follows _ _ (re_follows _ _ _ _ _ _ _ R1)). simpl. lia.
Qed.

(** ** The bodies of the closures *)

Lemma meanings_slots G qs ms : meanings G qs ms -> Forall slot_meaning ms ->
  Forall (fun q => exists m, G !! q = Some m /\ slot_meaning m) qs.
Proof.
  induction 1 as [|q m qs ms Hq _ IH]; [by constructor|]. intros [? ?]%Forall_cons. constructor; [by exists m|auto].
Qed.

Lemma on_fetched_spec G D s T h x r : Inv G D s (TDrive h :: T) -> closed G D ->
  find_blk (storage (core_of s)) h = Some x -> (level s + size (free s) + 5 <= n)%nat ->
  triple G D s (on_fetched rn x r) T anything.
Proof.
  intros I C Hx Hn. destruct (inv_block _ _ _ _ _ _ I Hx) as (b & q & Hb & Hh & Hq & Hl).
  pose proof (inv_drive_undelivered _ _ _ _ _ I) as Hu.
  unfold on_fetched. apply wp_bind. eapply wp_lift_deref; [done|]. rewrite Hq. apply wp_bind, wp_ret.
  apply wp_bind, wp_get_base. rewrite decide_False.
  2:{ intros ->. destruct (sd_genesis _ (iv_stored _ _ _ _ I)) as (g & Hg & _ & Hd). simplify_eq.
      apply Hu. unfold is_delivered. by rewrite (delivered_at _ _ _ _ Hx Hb). }
  eapply triple_bind; [by eapply block_verify_spec|]. intros p1 G1 D1 s1 R1 Hp1.
  eapply triple_bind; [apply async_fetch_spec; apply R1|]. intros p2 G2 D2 s2 R2 Hp2.
  assert (level s2 + size (free s2) + 5 <= n)%nat as Hn2.
  { pose proof (level_follows _ _ (re_follows _ _ _ _ _ _ _ R1)). pose proof (free_follows _ _ (re_follows _ _ _ _ _ _ _ R1)).
    pose proof (level_follows _ _ (re_follows _ _ _ _ _ _ _ R2)). pose proof (free_follows _ _ (re_follows _ _ _ _ _ _ _ R2)). lia. }
  eapply triple_bind; [by apply deliver_all_spec; [apply R2..|]|]. intros ps G3 D3 s3 R3 Hps.
  assert (level s3 <= level s2)%nat as Hn3 by apply level_follows, R3.
  assert (meanings G3 (p1 :: p2 :: ps) (deps b x q)) as Hms.
  { constructor; [eapply reached_lookup_G; [exact R3|]; eapply reached_lookup_G; [exact R2|exact Hp1]|]. constructor; [by eapply reached_lookup_G|done]. }
  assert (length (p1 :: p2 :: ps) = S (S (length (parent_hashes (content b))))) as Hlen.
  { apply Forall2_length in Hps. rewrite length_fmap in Hps. simpl. lia. }
  eapply triple_bind.
  { apply (all_spec _ _ _ _ (p1 :: p2 :: ps)); [apply R3..| |done|lia|lia].
    eapply meanings_slots; [exact Hms|]. repeat constructor. apply Forall_fmap, Forall_true. done. }
  intros a G4 D4 s4 R4 (j & Ha & Hj). pose proof (reached_core _ _ _ _ _ _ _ R1) as E1.
  pose proof (reached_core _ _ _ _ _ _ _ R2) as E2. pose proof (reached_core _ _ _ _ _ _ _ R3) as E3.
  pose proof (reached_core _ _ _ _ _ _ _ R4) as E4.
  assert (evolves (core_of s) (core_of s4)) as Ev by (etrans; [exact E1|etrans; [exact E2|by etrans]]).
  destruct (ev_block _ _ Ev x b Hb) as (b4 & Hb4 & Hc4 & Hh4 & _).
  eapply triple_bind; [|intros np G5 D5 s5 R5 _; by apply triple_ret; [apply R5..|]].
  eapply (then_spec G4 D4 s4 T a (MJoin j) (User (KDeliver x)) None MNone); [|apply R4|done|by left|..].
  - simpl. rewrite Hb4, Hh4, Hh. apply R4.
  - intros np G' HG' Hnp. simpl. split; [done|]. exists b4, q. split; [done|].
    split; [rewrite Hh4, Hh; by eapply find_mono|]. split; [by rewrite Hc4|].
    exists j, a, (p1 :: p2 :: ps). split; [done|]. split; [done|]. unfold deps. rewrite Hc4.
    apply (meanings_mono G4 G' HG'), (meanings_mono G3 G4); [apply R4|exact Hms].
  - intros _. pose proof (level_follows _ _ (re_follows _ _ _ _ _ _ _ R4)). simpl. lia.
Qed.

(** ** Running a callback *)

Lemma join_values c G D m ms v : joined G D m ms -> sat c G D m v ->
  exists rs, v = Some (AValues rs) /\ Forall2 (sat0 c) ms rs.
Proof.
  intros (j & npm & qs & -> & Hj & Hms) (npm' & qs' & rs & Hj' & -> & Hrs). simplify_eq. exists rs. split; [done|].
  clear Hj. revert rs Hrs. induction Hms as [|q m qs ms Hq _ IH]; intros rs Hrs.
  - apply Forall2_nil_inv_l in Hrs as ->. constructor.
  - apply Forall2_cons_inv_l in Hrs as (w & ws & (m' & ? & ?) & Hws & ->). simplify_eq. constructor; auto.
Qed.

Lemma chain_void G D s T f v npm :
  triple G D s (call rn (user rn) f v) T (fun r _ _ _ => r = RVoid) -> G !! npm = Some MNone ->
  triple G D s (chain rn (user rn) (resolve rn) f v npm) T anything.
Proof.
  intros Hc Hnpm. eapply triple_bind; [exact Hc|]. intros r G1 D1 s1 R1 ->.
  eapply triple_mono; [eapply resolve_spec; [apply R1..|by eapply reached_lookup_G|done|done|simpl; lia]|done].
Qed.

Lemma all_slot_spec G D s T j idx npm qs q m v : Inv G D s (TSlot j idx :: T) -> closed G D ->
  D !! j = Some (npm, qs) -> qs !! idx = Some q -> G !! q = Some m -> slot_meaning m -> sat0 (core_of s) m v ->
  (level s + 3 <= n)%nat -> triple G D s (all_slot rn j idx npm v) T anything.
Proof.
  intros I C Hj Hq Hm Hsm Hv Hn.
  assert (exists w, v = Some w) as [w ->].
  { destruct m; simpl in *; try done.
    - destruct Hv as (? & ? & ?). eauto.
    - destruct Hv as (? & ? & ?). eauto.
    - destruct Hv as (? & ? & ? & ?). eauto.
    - destruct Hv as (? & ? & ?). eauto. }
  destruct (proj1 (iv_slot _ _ _ _ I j idx)) as (jn & Hjn & _); [rewrite elem_of_app, elem_of_cons; auto|].
  destruct (inv_slot _ _ _ _ _ _ _ _ _ _ _ _ I Hjn Hj Hq Hm Hv) as (T' & I' & HT & Hnpm & Hsat & Hne).
  unfold all_slot. apply wp_bind, wp_get. rewrite Hjn. apply wp_bind, wp_ret. apply wp_bind, wp_modify.
  set (s1 := set_joins _ s) in *.
  assert (follows s s1) as F1 by (apply follows_pms; eauto).
  assert (reached s G D T' G D s1) as R1 by (by split).
  destruct (u64 (jsize jn - 1) =? 0) eqn:Hz.
  - apply Z.eqb_eq in Hz. eapply triple_wp; [exact R1|].
    eapply wp_mono; [eapply (resolve_spec G D s1 T' npm); [done|done|exact Hnpm|by apply Hsat|done|]| |done].
    + simpl. pose proof (level_follows _ _ F1). lia.
    + intros u s2 (G2 & D2 & [HG HD I2 C2 F2] & Hnp). exists G2, D2. split; [|done]. split; [done..| |done|done].
      destruct HT as [->| ->]; [done|]. eapply inv_drop_open; [exact I2|].
      intros m' y _ Hy Hp. by destruct (Hnp y Hy).
  - apply Z.eqb_neq in Hz. rewrite (Hne Hz) in *. exists G, D. by split.
Qed.

Lemma cast_blks c hs rs s (X : PErr -> St -> Prop) : Forall2 (sat0 c) (MFetch <$> hs) rs ->
  wp (mapM cast_blk rs) (fun _ s' => s' = s) X s.
Proof.
  revert rs. induction hs as [|h hs IH]; intros rs Hrs.
  { apply Forall2_nil_inv_l in Hrs as ->. by apply wp_ret. }
  rewrite fmap_cons in Hrs. apply Forall2_cons_inv_l in Hrs as (w & ws & (x & -> & _) & Hws & ->).
  simpl. apply wp_bind, wp_ret. apply wp_bind. eapply wp_mono; [by apply IH| |done].
  intros bs s' ->. by apply wp_ret.
Qed.

Lemma triple_then {X Y} G D s T (m : BM X) (a : Y) (Q : Y -> list Meaning -> Joins -> St -> Prop) :
  triple G D s m T anything -> (forall G' D' s', Q a G' D' s') -> triple G D s (_ ← m; mret a) T Q.
Proof.
  intros Hm HQ. eapply triple_bind; [exact Hm|]. intros u G1 D1 s1 R1 _. apply triple_ret; [apply R1..|apply HQ].
Qed.

(** The bodies that return nothing. *)
Lemma user_spec G D s T p x m k npm : let cb := OnFulfilled (User k) npm in
  Inv G D s (tok_of (core_of s) cb ++ T) -> closed G D -> pms s !! p = Some x -> state x = Fulfilled ->
  G !! p = Some m -> cb_ok (core_of s) G D p m cb -> (need s cb <= S n)%nat ->
  (forall v, k <> KVoteVerify v) ->
  triple G D s (user rn k (result x)) T (fun r _ _ _ => r = RVoid).
Proof.
  intros cb I C Hp Hs Hm Hcb Hn Hk. subst cb.
  destruct (iv_pm _ _ _ _ I p x Hp) as (m' & Hm' & Hx). rewrite Hs in Hx. simplify_eq.
  destruct k as [h r|y|prop|v|v|r]; simpl in *.
  - destruct Hcb as [-> _]. destruct Hx as (y & -> & Hy). apply wp_bind, wp_ret.
    apply triple_then; [|done]. eapply on_fetched_spec; [exact I|done|exact Hy|lia].
  - destruct Hcb as (_ & b & q & Hb & Hf & Hq & Hj). rewrite Hb in I. simpl in I.
    destruct (join_values _ _ _ _ _ _ Hj Hx) as (rs & -> & Hrs). unfold deps in Hrs.
    apply Forall2_cons_inv_l in Hrs as (w & ws & (vd & b' & -> & Hb' & Hv) & Hrs & ->). simplify_eq.
    apply Forall2_cons_inv_l in Hrs as (w2 & ws2 & (y2 & -> & Hy2) & Hrs & ->).
    apply wp_bind, wp_ret. simpl. apply wp_bind, wp_ret. apply wp_bind, wp_ret.
    destruct vd.
    + apply triple_then; [|done]. apply triple_then; [|done].
      eapply base_deliver_spec; [exact I|done|done|done| |lia]. split; [done| |].
      * intros h Hh. apply list_elem_of_lookup in Hh as [i Hi].
        assert ((MDeliver <$> parent_hashes (content b)) !! i = Some (MDeliver h)) as Hi' by (by rewrite list_lookup_fmap, Hi).
        destruct (Forall2_lookup_l _ _ _ _ _ Hrs Hi') as (w3 & _ & y3 & _ & _ & Hd). exact Hd.
      * exists q. split; [done|]. unfold is_blk_fetched, find_blk in *. rewrite Hy2. by apply bool_decide_eq_true_2.
    + apply wp_bind, wp_ret. apply triple_ret; [|done..]. eapply inv_bad; [exact I|]. by exists y, b.
  - destruct Hcb as (_ & h & Hf & Hj). destruct (join_values _ _ _ _ _ _ Hj Hx) as (rs & _ & Hrs).
    apply Forall2_cons_inv_l in Hrs as (w & ws & (y & -> & Hy & Hd) & _ & ->). simplify_eq.
    apply triple_then; [|done].
    eapply (lift_still_spec _ _ _ _ _ (InProposal prop)); [exact I|done|apply frame_on_receive_proposal| |done].
    destruct (inv_block _ _ _ _ _ _ I Hf) as (b & q & Hb & Hh & _). exists b. split; [done|].
    unfold is_delivered in Hd. by rewrite (delivered_at _ _ _ _ Hf Hb) in Hd.
  - destruct Hcb as (_ & Hj). destruct (join_values _ _ _ _ _ _ Hj Hx) as (rs & -> & Hrs).
    apply Forall2_cons_inv_l in Hrs as (w & ws & (y & -> & Hy & Hd) & Hrs & ->).
    apply Forall2_cons_inv_l in Hrs as (w2 & ws2 & (r & -> & Hr) & _ & ->).
    apply wp_bind, wp_ret. simpl. apply wp_bind, wp_ret. apply wp_bind, wp_ret.
    apply triple_then; [|done].
    destruct r; [|by apply triple_ret].
    by eapply (lift_still_spec _ _ _ _ _ (InVote v)); [exact I|done|apply frame_on_receive_vote|..].
  - by destruct (Hk v).
  - destruct Hcb as (_ & hs & Hj). destruct (join_values _ _ _ _ _ _ Hj Hx) as (rs & -> & Hrs).
    apply wp_bind, wp_ret. apply wp_bind. eapply wp_mono; [by eapply cast_blks| |done]. intros bs s' ->.
    apply wp_bind. unfold send_msg. apply wp_update_base. apply wp_ret.
    exists G, D. split; [|done]. apply update_base_spec; try done; simpl; [apply I|eauto].
Qed.

Lemma run_callback_spec G D s T p x m cb :
  Inv G D s (tok_of (core_of s) cb ++ T) -> closed G D -> pms s !! p = Some x -> state x = Fulfilled ->
  G !! p = Some m -> cb_ok (core_of s) G D p m cb -> (need s cb <= S n)%nat ->
  triple G D s (run_callback rn (user rn) p cb) T anything.
Proof.
  intros I C Hp Hs Hm Hcb Hn. unfold run_callback. apply wp_bind. eapply wp_load; [done|].
  pose proof (iv_pm _ _ _ _ I p x Hp) as (m' & Hm' & Hx). rewrite Hs in Hx. simplify_eq.
  destruct cb as [[k|j idx npm0|npm0|npm0] npm|f npm|npm|npm]; try (destruct Hcb; done).
  - assert ((exists v, k = KVoteVerify v) \/ forall v, k <> KVoteVerify v) as [[v ->]|Hk].
    { destruct k as [| | | |v|]; try (by right); left; by exists v. }
    + destruct Hcb as [-> Hnpm]. simpl in Hx, Hn. destruct Hx as (pk & Hpk & Hv). rewrite Hv.
      unfold chain. apply wp_bind. simpl. apply wp_bind, wp_ret. apply wp_ret.
      eapply triple_mono; [eapply (resolve_spec _ _ _ _ _ (MVote v)); [exact I|done|done| |done|simpl; lia]|done].
      eexists. split; [done|]. unfold vote_verify. by rewrite Hpk.
    + apply chain_void; [by eapply (user_spec _ _ _ _ p x m k npm)|].
      destruct k; simpl in Hcb; try (by destruct Hcb). by destruct (Hk v).
  - destruct Hcb as (Hnpm & Hsm & qs & Hj & Hq). apply chain_void; [|done]. apply triple_then; [|done].
    eapply all_slot_spec; [exact I|done|done|done|done|done| |simpl in Hn; lia]. by destruct m.
Qed.

End Ops.

(** Enough levels for the nesting, for every callback. *)
Theorem run_ok n : run_spec (run user n) n.
Proof.
  induction n as [|n IH]; intros G D s T p cb x m I C Hp Hs Hm Hcb Hn.
  { destruct cb as [[[]|j idx npm0|npm0|npm0] npm|f npm|npm|npm]; simpl in Hn; lia. }
  simpl. by eapply (run_callback_spec (run user n) n IH _ _ _ _ p x m cb).
Qed.

Lemma level_free_bound s : (level s + size (free s) <= 3 * size (blk_cache (storage (core_of s))))%nat.
Proof.
  assert (size (undelivered (core_of s)) <= size (blk_cache (storage (core_of s))))%nat as Hu.
  { rewrite <- size_dom. apply subseteq_size. unfold undelivered. intros h [_ ?]%elem_of_filter. done. }
  assert (size (free s) <= size (undelivered (core_of s)))%nat as Hf.
  { apply subseteq_size. unfold free. set_solver. }
  unfold level. lia.
Qed.

(** ** The handlers *)

(** Between handlers no callback is running. *)
Definition engine_ok (s : St) : Prop := exists G D, Inv G D s [] /\ closed G D.

(** A computation of a handler: the blocks in the storage may grow. *)
Definition keeps_ok {X} (s : St) (m : BM X) (Q : X -> St -> Prop) : Prop :=
  wp m (fun a s' => engine_ok s' /\ evolves (core_of s) (core_of s') /\ rtc core_step (core_of s) (core_of s') /\
      (forall q cb, held cb -> holding s q cb -> holding s' q cb) /\ Q a s')
    (raises s) s.

Lemma keeps_bind {X Y} s (m : BM X) (f : X -> BM Y) Q1 Q2 : keeps_ok s m Q1 ->
  (forall a s1, engine_ok s1 -> evolves (core_of s) (core_of s1) -> Q1 a s1 -> keeps_ok s1 (f a) Q2) ->
  keeps_ok s (m ≫= f) Q2.
Proof.
  intros Hm Hf. apply wp_bind. eapply wp_mono; [exact Hm|..|done].
  intros a s1 (O1 & E1 & P1 & K1 & HQ). eapply wp_mono; [by apply Hf|..].
  - intros b s2 (O2 & E2 & P2 & K2 & ?). split; [done|]. split; [by etrans|]. split; [by etrans|]. split; [by eauto|done].
  - intros e s2. by apply raises_after.
Qed.

Lemma keeps_triple {X} G D s (m : BM X) Q (Q' : X -> St -> Prop) : triple G D s m [] Q ->
  (forall a G' D' s', reached s G D [] G' D' s' -> Q a G' D' s' -> Q' a s') -> keeps_ok s m Q'.
Proof.
  intros Hm HQ. eapply wp_mono; [exact Hm|..|done]. intros a s' (G' & D' & R & Ha).
  split; [exists G', D'; split; apply R|]. split; [by eapply reached_core|]. split; [apply R|]. split; [apply R|]. by eapply HQ.
Qed.

Lemma keeps_mono {X} s (m : BM X) (Q Q' : X -> St -> Prop) : keeps_ok s m Q -> (forall a s', Q a s' -> Q' a s') -> keeps_ok s m Q'.
Proof. intros Hm HQ. eapply wp_mono; [exact Hm| |done]. intros a s' (? & ? & ? & ? & ?). repeat (split; [done|]). auto. Qed.

Lemma keeps_ret {X} s (a : X) (Q : X -> St -> Prop) : engine_ok s -> Q a s -> keeps_ok s (mret a) Q.
Proof. intros O HQ. apply wp_ret. by repeat (split; [done|]). Qed.

(** Storing a block from the network. *)
Definition content_ok (c : Content) : Prop :=
  is_Some (qc c) /\ Z.of_nat (length (parent_hashes c)) < 2 ^ 32.

Abbreviation cache_size s := (size (blk_cache (storage (core_of s)))).

Lemma store_spec s c : engine_ok s -> content_ok c ->
  keeps_ok s (lift_core (store_blk (Block_parsed c))) (fun x s' =>
    find_blk (storage (core_of s')) (get_hash c) = Some x /\ (cache_size s' <= S (cache_size s))%nat).
Proof.
  intros (G & D & I & C) [Hq Hl].
  destruct (store_blk_stored (Block_parsed c) (core_of s) (iv_stored _ _ _ _ I) Hq Hl eq_refl) as (x & c' & Hrun & Ev & Hst & Hx & Hd & Hs).
  unfold keeps_ok, wp, lift_core, lift. rewrite Hrun. simpl. split; [|split; [done|split; [|by split]]].
  - exists G, D. split; [|done]. apply (inv_core _ _ _ _ _ I); [done..|].
    intros h Hh Hdh. apply (iv_drive _ _ _ _ I h Hh). by apply Hd.
  - apply rtc_once. exists (InBlock c). split; [done|]. simpl. unfold mbind, M_bind. by rewrite Hrun.
Qed.

Lemma store_blks_spec s cs : engine_ok s -> Forall content_ok cs ->
  keeps_ok s (store_blks cs) (fun xs s' => (cache_size s' <= length cs + cache_size s)%nat /\
    Forall (fun x => exists h, find_blk (storage (core_of s')) h = Some x /\ h ∈ get_hash <$> cs) xs).
Proof.
  revert s. induction cs as [|c cs IH]; intros s O Hcs; simpl; [by apply keeps_ret|].
  apply Forall_cons in Hcs as [Hc Hcs]. eapply keeps_bind; [by apply store_spec|].
  intros x s1 O1 E1 [Hx Hs1]. eapply keeps_bind; [by apply IH|].
  intros xs s2 O2 E2 [Hs2 Hxs]. apply keeps_ret; [done|]. split; [lia|]. constructor.
  - exists (get_hash c). split; [by eapply find_mono|by left].
  - eapply Forall_impl; [exact Hxs|]. intros y (h & ? & ?). exists h. split; [done|by right].
Qed.

Section Handlers.
Context (n : nat).
Abbreviation rn := (run user n).
Abbreviation cached := (run_ok n).

(** The end of a handler: a continuation for the values of some promises. *)
Lemma join_then_spec G D s ps ms k : Inv G D s [] -> closed G D -> meanings G ps ms ->
  Forall slot_meaning ms -> ps <> [] -> Z.of_nat (length ps) < 2 ^ 64 -> (level s + 4 <= n)%nat ->
  (forall c np, tok_of c (OnFulfilled (User k) np) = []) -> (need s (OnFulfilled (User k) 0%nat) = level s + 3)%nat ->
  (forall c G' D' m p np, evolves (core_of s) c -> joined G' D' m ms -> G' !! np = Some MNone ->
     cb_ok c G' D' p m (OnFulfilled (User k) np)) ->
  keeps_ok s (a ← all rn ps; _ ← then_ rn a (User k) None; mret tt) (fun _ s' => follows s s').
Proof.
  intros I C Hps Hms Hne Hlen Hn Htok Hneed Hcb. eapply (keeps_triple _ _ _ _ anything); [|by intros ???? []].
  eapply triple_bind.
  { apply (all_spec rn n (run_ok n) _ _ _ _ ps); [done..| |done|done|lia]. by eapply meanings_slots. }
  intros a G2 D2 s2 R2 (j & Ha & Hj). apply triple_then; [|done].
  eapply (triple_mono _ _ _ _ _ (fun np G' _ _ => G' !! np = Some MNone)); [|done].
  eapply (then_spec rn n (run_ok n) _ _ _ _ a (MJoin j)); [rewrite Htok; apply R2|apply R2|done|by left|..].
  - intros np G' HG' Hnp. apply Hcb; [by eapply reached_core| |done].
    exists j, a, ps. split; [done|]. split; [done|]. apply (meanings_mono G2 G' HG'), (meanings_mono G G2); [apply R2|done].
  - intros _. pose proof (need_follows _ _ (OnFulfilled (User k) 0%nat) (re_follows _ _ _ _ _ _ _ R2)). lia.
Qed.

Lemma keeps_run {X Y} G D s (m : BM X) (f : X -> BM Y) Q1 Q2 : triple G D s m [] Q1 ->
  (forall a G1 D1 s1, reached s G D [] G1 D1 s1 -> Q1 a G1 D1 s1 -> keeps_ok s1 (f a) Q2) ->
  keeps_ok s (m ≫= f) Q2.
Proof.
  intros Hm Hf. apply wp_bind. eapply wp_mono; [exact Hm|..|done].
  intros a s1 (G1 & D1 & R & HQ). pose proof (reached_core _ _ _ _ _ _ _ R) as Ev.
  eapply wp_mono; [by eapply Hf|..].
  - intros b s2 (O2 & E2 & P2 & K2 & ?). split; [done|]. split; [by etrans|]. split; [etrans; [apply R|done]|]. split; [|done].
    intros q cb Hcb Hq. apply K2, (fo_held _ _ (re_follows _ _ _ _ _ _ _ R)); done.
  - intros e s2. apply raises_after, R.
Qed.

Lemma propose_handler_spec s pr c peer : engine_ok s -> content_ok c ->
  (3 * S (cache_size s) + 5 <= n)%nat -> keeps_ok s (propose_handler rn pr c peer) (fun _ _ => True).
Proof.
  intros O Hc Hn. destruct peer as [peer|]; [|by apply keeps_ret].
  simpl. eapply keeps_bind; [by apply store_spec|]. intros x s1 (G & D & I & C) E1 [Hx Hs1].
  destruct (inv_block _ _ _ _ _ _ I Hx) as (b & q & Hb & Hh & _). pose proof (level_free_bound s1) as Hlf.
  apply wp_bind. eapply wp_lift_deref; [done|]. rewrite Hh.
  eapply keeps_run; [apply (async_deliver_spec rn n (run_ok n)); [done|done|lia]|].
  intros pd G1 D1 s2 R1 [Hpd _]. pose proof (level_follows _ _ (re_follows _ _ _ _ _ _ _ R1)).
  eapply keeps_mono; [|by intros ? s3 ?]. eapply (join_then_spec _ _ _ [pd] [MDeliver (get_hash c)]); [apply R1|apply R1|by constructor|by constructor|done|done|lia|done|done|].
  intros c' G' D' m p np Ev Hj Hnp. split; [done|]. exists (get_hash c). split; [|done].
  eapply find_mono; [exact Ev|]. eapply find_mono; [by eapply reached_core|done].
Qed.

(** A vote stores nothing, and its block is under way or delivered. *)
Lemma vote_handler_spec s v peer : engine_ok s -> (3 * cache_size s + 5 <= n)%nat ->
  keeps_ok s (vote_handler rn v peer) (fun _ s' => storage (core_of s') = storage (core_of s) /\ (is_Some peer ->
    is_Some (blk_delivery_waiting (world s') !! vote_blk_hash v) \/ is_delivered (core_of s') (vote_blk_hash v))).
Proof.
  intros (G & D & I & C) Hn. destruct peer as [peer|]; [|apply keeps_ret; [by exists G, D|split; [done|by intros []]]].
  pose proof (level_free_bound s) as Hlf.
  simpl. eapply keeps_run; [apply (async_deliver_spec rn n (run_ok n)); [done|done|lia]|].
  intros pd G1 D1 s1 R1 [Hpd Hdw]. pose proof (level_follows _ _ (re_follows _ _ _ _ _ _ _ R1)).
  eapply keeps_run; [apply (vote_verify_spec rn n (run_ok n)); [apply R1..|lia]|].
  intros pv G2 D2 s2 R2 Hpv. pose proof (level_follows _ _ (re_follows _ _ _ _ _ _ _ R2)).
  eapply keeps_mono.
  - eapply (join_then_spec _ _ _ [pd; pv] [MDeliver (vote_blk_hash v); MVote v]); [apply R2|apply R2| |by repeat constructor|done|done|lia|done|done|].
    + constructor; [by eapply reached_lookup_G|by constructor].
    + intros c' G' D' m p np _ Hj Hnp. by split.
  - intros u s3 F3. assert (follows s1 s3) as F13 by (etrans; [apply R2|exact F3]). split.
    + rewrite (fr_storage _ _ _ (fo_frame _ _ F13)). apply (fr_storage _ _ _ (fo_frame _ _ (re_follows _ _ _ _ _ _ _ R1))).
    + intros _. destruct Hdw as [Hw|Hd]; [by apply (fo_under_way _ _ F13)|right].
      eapply delivered_mono; [by eapply frame_evolves, F13|done].
Qed.

Lemma req_blk_handler_spec s hs peer : engine_ok s -> hs <> [] -> Z.of_nat (length hs) < 2 ^ 64 ->
  (3 * cache_size s + 5 <= n)%nat -> keeps_ok s (req_blk_handler rn hs peer) (fun _ _ => True).
Proof.
  intros (G & D & I & C) Hne Hlen Hn. destruct peer as [peer|]; [|apply keeps_ret; [by exists G, D|done]].
  pose proof (level_free_bound s) as Hlf.
  simpl. eapply keeps_run; [by apply (fetch_all_spec rn)|].
  intros ps G1 D1 s1 R1 Hps. pose proof (level_follows _ _ (re_follows _ _ _ _ _ _ _ R1)).
  pose proof (Forall2_length _ _ _ Hps) as Hl. rewrite length_fmap in Hl.
  eapply keeps_mono; [|by intros ? s3 ?]. eapply (join_then_spec _ _ _ ps (MFetch <$> hs)); [apply R1|apply R1|done| | |lia|lia|done|done|].
  - apply Forall_fmap, Forall_true. done.
  - by destruct ps, hs.
  - intros c' G' D' m p np _ Hj Hnp. split; [done|]. by exists hs.
Qed.

Lemma base_fetch_spec s x h : engine_ok s -> find_blk (storage (core_of s)) h = Some x -> answered h ->
  (3 * cache_size s + 6 <= n)%nat ->
  keeps_ok s (base_fetch_blk rn x) (fun _ s' => storage (core_of s') = storage (core_of s)).
Proof.
  intros (G & D & I & C) Hx Hah Hn. destruct (inv_block _ _ _ _ _ _ I Hx) as (b & q & Hb & Hh & _).
  unfold base_fetch_blk. apply wp_bind. eapply wp_lift_deref; [done|]. apply wp_bind, wp_update_base.
  set (s1 := set_world _ s).
  assert (Inv G D s1 []) as I1 by (by apply inv_world_same).
  apply wp_bind, wp_get_base. rewrite Hh.
  match goal with |- wp ?m _ _ _ => change (keeps_ok s1 m (fun _ s' => storage (core_of s') = storage (core_of s1))) end.
  destruct (blk_fetch_waiting (world s1) !! h) as [ctx|] eqn:Hctx.
  2:{ apply keeps_ret; [by exists G, D|done]. }
  assert (G !! fc_pm ctx = Some (MFetch h)) as Hm by (by apply (iv_fw _ _ _ _ I1)).
  pose proof (level_free_bound s1) as Hlf.
  eapply keeps_run.
  { eapply (resolve_spec rn n (run_ok n)); [exact I1|done|exact Hm|by exists x|by intros h' [= <-]|]. simpl. change (core_of s1) with (core_of s) in Hlf. lia. }
  intros u G2 D2 s2 [HG HD I2 C2 F2] Hnp. simpl in Hnp. apply wp_update_base.
  destruct (fo_fw _ _ F2 h ctx Hctx) as (ctx' & Hctx' & Hpm).
  split; [|split; [reflexivity|split; [reflexivity|split; [done|]]]].
  - exists G2, D2. split; [|done]. apply (inv_fw_delete _ _ _ _ _ ctx'); [done|done|by rewrite Hpm].
  - simpl. apply (fr_storage _ _ _ (fo_frame _ _ F2)).
Qed.

Lemma fetched_all_spec s xs : engine_ok s -> Forall (fun x => exists h, find_blk (storage (core_of s)) h = Some x /\ answered h) xs ->
  (3 * cache_size s + 6 <= n)%nat -> keeps_ok s (fetched_all rn xs) (fun _ _ => True).
Proof.
  revert s. induction xs as [|x xs IH]; intros s O Hxs Hn; simpl; [by apply keeps_ret|].
  apply Forall_cons in Hxs as [(h & Hx & Hah) Hxs]. eapply keeps_bind; [by eapply base_fetch_spec|].
  intros u s1 O1 E1 Hst. simpl in Hst. apply IH; [done| |by rewrite Hst].
  eapply Forall_impl; [exact Hxs|]. intros y (h' & Hy & ?). exists h'. by rewrite Hst.
Qed.

Lemma resp_blk_handler_spec s cs : engine_ok s -> Forall content_ok cs -> Forall answered (get_hash <$> cs) ->
  (3 * (length cs + cache_size s) + 6 <= n)%nat -> keeps_ok s (resp_blk_handler rn cs) (fun _ _ => True).
Proof.
  intros O Hcs Ha Hn. eapply keeps_bind; [by apply store_blks_spec|].
  intros xs s1 O1 E1 [Hs Hxs]. rewrite Forall_forall in Ha. apply fetched_all_spec; [done| |lia].
  eapply Forall_impl; [exact Hxs|]. intros x (h & ? & ?). exists h. auto.
Qed.

Lemma task_done_spec s i : engine_ok s -> (3 * cache_size s + 6 <= n)%nat ->
  keeps_ok s (task_done rn i) (fun _ _ => True).
Proof.
  intros (G & D & I & C) Hn. unfold task_done. apply wp_bind, wp_get_base.
  destruct (vpool (world s) !! i) as [t|] eqn:Ht; [|apply keeps_ret; [by exists G, D|done]].
  destruct (iv_pool _ _ _ _ I t ltac:(by eapply list_elem_of_lookup_2)) as (m & Hm & Hs).
  pose proof (level_free_bound s) as Hlf.
  eapply keeps_run.
  { eapply (resolve_spec rn n (run_ok n)); [exact I|done|exact Hm|by destruct m|by destruct m|]. destruct m; simpl; try done; lia. }
  intros u G2 D2 s2 [HG HD I2 C2 F2] Hnp. simpl in Hnp. apply wp_update_base.
  split; [|done]. exists G2, D2. split; [|done]. by apply inv_pool_del.
Qed.

Lemma timeout_spec s h : engine_ok s -> keeps_ok s (timeout_cb h) (fun _ _ => True).
Proof.
  intros (G & D & I & C). unfold timeout_cb. apply wp_bind, wp_get_base.
  destruct (blk_fetch_waiting (world s) !! h) as [ctx|]; [|apply keeps_ret; [by exists G, D|done]].
  apply wp_update_base. split; [|do 3 (split; [done|]); done]. exists G, D. split; [by apply inv_world_same|done].
Qed.
End Handlers.
End Running.
