(* ===== verification/DeliverySafe.v ===== *)
(** * The delivery engine in every execution

    The invariant of the delivery engine holds in every state a started
    replica reaches, with its own proposals between the events; from it: the
    core only moves by calls the network model admits, events are handled to
    their end within a stated nesting of callbacks, no wake-up is lost, and
    when nothing is outstanding every delivery has ended. *)

From stdpp Require Import strings countable.
From S2P Require Import Prelude Certs Entity Core Agreement CoreInv CoreInit Network DeliveryCore Promise Delivery DeliveryInv DeliveryRun.

Section Safe.
Context `{BlockHash} `{!CommandType} `{!AsyncVerify} `{EqDecision PeerId}.
Context {NetAddr : Type} `{EqDecision NetAddr}.

Abbreviation St := (Store (A := BVal) (K := Closure) (W := Base)).
Abbreviation PErr := (PmError (E := BaseError)).
Abbreviation core_of s := (core (world s)).
Abbreviation cache_size s := (size (blk_cache (storage (core_of s)))).

(** A parsed message: blocks come with a certificate and with a number of
    parents that was read from 32 bits; a request names a block. *)
Definition input_ok (i : BaseInput) : Prop :=
  match i with
  | BPropose _ c _ => content_ok c
  | BReqBlock hs _ => hs <> [] /\ Z.of_nat (length hs) < 2 ^ 64
  | BRespBlock cs => Forall content_ok cs
  | BVote _ _ | BTaskDone _ | BTimeout _ => True
  end.

(** Any message that was parsed: requests can be empty. *)
Definition parsed_input (i : BaseInput) : Prop := input_ok i \/ exists peer, i = BReqBlock [] peer.

(** The blocks an event brings, and a bound on the nesting of callbacks. *)
Definition arriving (i : BaseInput) : nat :=
  match i with BPropose _ _ _ => 1 | BRespBlock cs => length cs | _ => 0 end.
Definition enough (s : St) (i : BaseInput) : nat := 3 * (arriving i + cache_size s) + 6.

(** The block with this digest is in an answer to a request for blocks. *)
Definition brings (h : uint256) (i : BaseInput) : Prop :=
  match i with BRespBlock cs => h ∈ get_hash <$> cs | _ => False end.

Lemma handle_ok fuel s i : engine_ok s -> input_ok i -> (enough s i <= fuel)%nat ->
  keeps_ok (answered := fun h => brings h i) s (handle_event fuel i) (fun _ _ => True).
Proof.
  intros O Hi Hn. unfold enough, handle_event in *. destruct i; simpl in *.
  - apply propose_handler_spec; [done..|lia].
  - eapply keeps_mono; [apply vote_handler_spec; [done|lia]|done].
  - destruct Hi. apply req_blk_handler_spec; [done..|lia].
  - apply resp_blk_handler_spec; [done..|by apply Forall_forall|lia].
  - apply task_done_spec; [done|lia].
  - by apply timeout_spec.
Qed.

(** ** Executions of the engine *)

Definition state0 (c : HotStuffCore) : St := mkStore [] [] (mkBase c ∅ ∅ [] [] 0 0).

(** Events that [P] admits, as long as nothing is thrown, and the proposals that
    the pace maker makes between them, which deliver no block that is under way. *)
Inductive base_step_of (P : BaseInput -> Prop) : St -> St -> Prop :=
  | step_event fuel i s s' : P i -> input_ok i -> (enough s i <= fuel)%nat ->
      handle_event fuel i s = (inl tt, s') -> base_step_of P s s'
  | step_propose cs ps ex s : let c' := (exec (InPropose cs ps ex) (core_of s)).2 in
      Z.of_nat (length ps) < 2 ^ 32 ->
      (forall h, is_Some (blk_delivery_waiting (world s) !! h) -> is_delivered c' h -> is_delivered (core_of s) h) ->
      base_step_of P s (set_world (set_core c' (world s)) s).
Definition base_step : St -> St -> Prop := base_step_of (fun _ => True).

Lemma ready_stored rid k c : stored (ready rid k c).
Proof.
  split.
  - intros h x. simpl. intros [<- <-]%lookup_singleton_Some. by eexists.
  - intros x b. simpl. intros [-> <-]%list_lookup_singleton_Some. simpl. split; [by eexists|]. lia.
  - by eexists.
Qed.

Lemma engine_start c : stored c -> engine_ok (state0 c).
Proof.
  intros Hc. exists [], []. split; [|done]. split; simpl; try done; try by intros ? ?%elem_of_nil.
  - constructor.
  - intros j idx. split; [by intros ?%elem_of_nil|]. by intros (x & ? & _).
Qed.


Lemma exec_propose cs ps ex c : (exec (InPropose cs ps ex) c).2 = (on_propose cs ps ex c).2.
Proof. simpl. unfold mbind, M_bind. by destruct (on_propose cs ps ex c) as [[]]. Qed.

Lemma base_step_ok P s s' : engine_ok s -> base_step_of P s s' -> engine_ok s'.
Proof.
  intros O Hst. revert O. destruct Hst as [fuel i s1 s2 _ Hi Hn Hrun|cs ps ex s1 c' Hl Hw]; intros O.
  - pose proof (handle_ok fuel s1 i O Hi Hn) as Hk. unfold keeps_ok, wp in Hk. rewrite Hrun in Hk. apply Hk.
  - destruct O as (G & D & I & C). exists G, D. split; [|done].
    destruct (on_propose_sound cs ps ex Hl (core_of s1)) as [Ev Hst].
    rewrite <- exec_propose in *. fold c' in Ev, Hst. apply inv_core; [done..|by apply Hst, (iv_stored _ _ _ _ I)|].
    intros h Hh Hd. destruct (iv_drive _ _ _ _ I h Hh) as [Hdw Hu]. by apply Hu, Hw.
Qed.

Lemma reach_ok c s : stored c -> rtc base_step (state0 c) s -> engine_ok s.
Proof.
  intros Hc. apply (rtc_ind_r engine_ok); [by apply engine_start|]. intros x y _ Hxy Hx. by eapply base_step_ok.
Qed.

(** ** The calls into the core in the replicated system *)

(** The inputs [ins] given to a core one after the other. *)
Fixpoint exec_all (ins : list Input) (c : HotStuffCore) : HotStuffCore :=
  match ins with [] => c | i :: ins => exec_all ins (exec i c).2 end.

Fixpoint fits_all (ins : list Input) (c : HotStuffCore) : Prop :=
  match ins with [] => True | i :: ins => fits c i /\ fits_all ins (exec i c).2 end.

Lemma core_steps_inputs c c' : rtc core_step c c' -> exists ins, fits_all ins c /\ c' = exec_all ins c.
Proof.
  induction 1 as [c|c c1 c' (i & Hi & ->) _ (ins & Hf & ->)]; [by exists []|]. by exists (i :: ins).
Qed.

(** ** What an unfinished delivery waits for *)










(** ** A delivery that is not answered *)









(** ** What one message can break *)

Lemma empty_request fuel s peer : handle_event fuel (BReqBlock [] (Some peer)) s =
  (inr EMismatch, set_pms (pms s ++ [Promise_new]) s).
Proof. by destruct s. Qed.

Lemma unknown_voter fuel s v peer : engine_ok s -> (enough s (BVote v (Some peer)) <= fuel)%nat ->
  get_pubkey (config (core_of s)) (voter v) = None ->
  (handle_event fuel (BVote v (Some peer)) s).1 <> inl tt.
Proof.
  intros (G & D & I & C) Hn Hpk. unfold enough in Hn. simpl in Hn. pose proof (level_free_bound s) as Hlf.
  assert (wp (handle_event fuel (BVote v (Some peer))) (fun _ _ => False) (fun _ _ => True) s) as Hwp.
  2:{ unfold wp in Hwp. by destruct (handle_event fuel (BVote v (Some peer)) s) as [[]]. }
  unfold handle_event. simpl. apply wp_bind.
  eapply wp_mono; [apply (async_deliver_spec (answered := fun _ => True) _ fuel (run_ok fuel) G D s [] (vote_blk_hash v) peer I C); lia| |done].
  intros pd s1 (G1 & D1 & R & _). apply wp_bind. unfold vote_verify_async. apply wp_bind, wp_get_base.
  apply wp_bind. rewrite (ev_config _ _ (reached_core _ _ _ _ _ _ _ R)), Hpk. done.
Qed.
End Safe.

(** ** The engine in the replicated system *)

Section Refine.
Context `{BlockHash} `{!CommandType} `{!CertSchemeLaws} `{!CollisionFree}.
Variable byz : gset Z.
Abbreviation hist := (history (B := uint256)).

(** The signatures an input of the core depends on are no forgeries. *)
Definition unforged (hs : hist) (c : HotStuffCore) (i : Input) : Prop :=
  match i with
  | InDeliver x => forall b q, hp c !! x = Some b -> qc (content b) = Some q ->
      qc_valid q /\ qc_unforged byz hs (config c) q
  | InVote v => vote_unforged byz hs (config c) v
  | _ => True
  end.

Lemma fits_admissible hs c i : stored c -> fits c i -> unforged hs c i -> admissible byz false hs c i.
Proof.
  intros Hst Hf Hu. destruct i as [ct|x|prop|v|cs ps ex]; simpl in *; try done.
  - destruct Hf as (b & Hb & _ & [Hv Hp (q & Hq & Hft)]). exists b. split; [done|]. intros _. split; [|done].
    split; [..|exact Hv| | |].
    + intros q' Hq'. by destruct (Hu b q' Hb Hq').
    + intros q' Hq'. by destruct (Hu b q' Hb Hq').
    + intros h Hh. specialize (Hp h Hh). unfold is_delivered, is_blk_delivered in Hp.
      destruct (blk_cache (storage c) !! h) as [y|] eqn:Hy; [|done].
      destruct (sd_cache _ Hst h y Hy) as (by' & Hby & Hhash). rewrite Hby in Hp. exists y, by'. by repeat split.
    + intros q' Hq'. by simplify_eq.
  - destruct Hf as (b & Hb & _). by eexists.
  - by destruct Hf.
Qed.

Lemma exec_sound c i : fits c i -> sound_step c (exec i c).2.
Proof.
  intros Hf. destruct i as [ct|x|prop|v|cs ps ex]; simpl in *; try done.
  - apply (along_bind sound_step); [by apply store_blk_sound; destruct Hf|intros ? s; reflexivity].
  - apply (along_bind sound_step); [apply (frame_sound (eq x)), frame_on_deliver_blk|intros ? s; reflexivity].
  - apply (frame_sound (fun _ => False)), frame_on_receive_proposal.
  - apply (frame_sound (fun _ => False)), frame_on_receive_vote.
Qed.

(** The inputs [ins] given to replica [r], and that none is forged. *)
Fixpoint feed (r : ReplicaID) (ins : list Input) (net : Net) : Net :=
  match ins with
  | [] => net
  | i :: ins => match reps net !! r with Some c => feed r ins (apply_input r c i net) | None => net end
  end.

Fixpoint unforged_all (r : ReplicaID) (ins : list Input) (net : Net) : Prop :=
  match ins with
  | [] => True
  | i :: ins =>
    match reps net !! r with
    | Some c => unforged (nhist net) c i /\ unforged_all r ins (apply_input r c i net)
    | None => True
    end
  end.

Lemma feed_steps r ins net c : stored c -> reps net !! r = Some c -> fits_all ins c -> unforged_all r ins net ->
  rtc (step byz false) net (feed r ins net) /\ reps (feed r ins net) !! r = Some (exec_all ins c).
Proof.
  revert net c. induction ins as [|i ins IH]; intros net c Hst Hc; [done|]. simpl. rewrite Hc.
  intros [Hf Hfs] [Hu Hus]. destruct (IH (apply_input r c i net) (exec i c).2) as [Hr Hl].
  - by apply (exec_sound c i Hf).
  - simpl. by rewrite lookup_insert_eq.
  - done.
  - done.
  - split; [|done]. eapply rtc_l; [|exact Hr]. constructor; [done|]. by apply fits_admissible.
Qed.
End Refine.

(** ** The theorems *)

Section Theorems.
Context `{BlockHash} `{!CommandType} `{!CertSchemeLaws} `{!CollisionFree} `{!AsyncVerify} `{EqDecision PeerId}.
Context {NetAddr : Type} `{EqDecision NetAddr}.
Variables (rid : ReplicaID) (k : PrivKey) (listen : NetAddr) (rs : list (NetAddr * PubKey * PeerId)).

Abbreviation St := (Store (A := BVal) (K := Closure) (W := Base)).
Abbreviation core_of s := (core (world s)).

Definition deployed : Prop :=
  0 < Z.of_nat (length rs) <= 2 ^ 16 /\ others listen rs = Z.of_nat (length rs) - 1.

(** The states of a started replica. *)
Definition engine_run (s : St) : Prop := rtc base_step (state0 (started rid k listen rs)) s.

Lemma engine_run_ok s : deployed -> engine_run s -> engine_ok s.
Proof.
  intros [Hn Ho]. destruct (started_ready rid k listen rs Hn Ho) as (c & Hc & _).
  apply reach_ok. rewrite Hc. apply ready_stored.
Qed.


Lemma event_wp s i fuel : deployed -> engine_run s -> input_ok i -> (enough s i <= fuel)%nat ->
  wp (handle_event fuel i) (fun _ s' => rtc core_step (core_of s) (core_of s')) (raises s) s.
Proof.
  intros Hd Hr Hi Hn. eapply wp_mono; [apply (handle_ok fuel s i); [by apply engine_run_ok|done..]| |done].
  by intros [] s' (_ & _ & ? & _).
Qed.

(** C5. Whatever arrives, the engine moves the core only by calls
    that the model of the replicated system admits: blocks are delivered
    after their certificate verified, their parents were delivered and the
    block of the certificate was fetched, proposals and votes are passed on
    for delivered blocks only, votes after they verified.  So what an event
    does to the core is an execution of that system, provided the signatures
    involved are no forgeries. *)
Theorem engine_refines_network byz net r s i fuel : deployed -> engine_run s -> input_ok i ->
  (enough s i <= fuel)%nat -> reps net !! r = Some (core_of s) ->
  let s' := (handle_event fuel i s).2 in
  exists ins, fits_all ins (core_of s) /\ core_of s' = exec_all ins (core_of s) /\
    (unforged_all byz r ins net ->
     rtc (step byz false) net (feed r ins net) /\ reps (feed r ins net) !! r = Some (core_of s')).
Proof.
  intros Hd Hr Hi Hn Hnet s'. pose proof (event_wp s i fuel Hd Hr Hi Hn) as Hwp.
  assert (rtc core_step (core_of s) (core_of s')) as Hp.
  { unfold s'. unfold wp in Hwp. destruct (handle_event fuel i s) as [[?|e] s1]; [done|apply Hwp]. }
  destruct (core_steps_inputs _ _ Hp) as (ins & Hf & He). exists ins. do 2 (split; [done|]). intros Hu.
  rewrite He. destruct (engine_run_ok s Hd Hr) as (G & D & I & _).
  by apply feed_steps; [apply I|..].
Qed.

(** C8. Every event is handled to its end: with callbacks nested up to three
    levels per stored or arriving block and six more, the result is the one of
    any larger bound.  No promise is missing and no assertion fails; a promise is
    of the wrong type for one event only, the request for no blocks, for which
    promise::all throws.  What else is thrown are exceptions of the configuration
    (an unknown replica) and of the core. *)
Theorem events_terminate s i fuel : deployed -> engine_run s -> parsed_input i -> (enough s i <= fuel)%nat ->
  handle_event fuel i s = handle_event (enough s i) i s /\
  match (handle_event fuel i s).1 with
  | inl _ => True
  | inr e => (exists err, e = EUser err /\ err <> EAssertion) \/ e = EMismatch /\ exists peer, i = BReqBlock [] (Some peer)
  end.
Proof.
  intros Hd Hr [Hi|[[peer|] ->]] Hn.
  2: by rewrite !empty_request; split; [|right; split; [|by exists peer]].
  2: done.
  enough (handle_event fuel i s = handle_event (enough s i) i s /\
    match (handle_event fuel i s).1 with inl _ => True | inr e => exists err, e = EUser err /\ err <> EAssertion end) as [He Hx].
  { split; [done|]. destruct (handle_event fuel i s).1; [done|by left]. }
  assert (forall f, (enough s i <= f)%nat ->
    match (handle_event f i s).1 with inl _ => True | inr e => exists err, e = EUser err /\ err <> EAssertion end) as Hres.
  { intros f Hf. pose proof (event_wp s i f Hd Hr Hi Hf) as Hwp. unfold wp, raises in Hwp.
    destruct (handle_event f i s) as [[?|e] s1]; [done|apply Hwp]. }
  split; [|by apply Hres]. destruct (handle_event_refines _ _ i Hn s) as [He|He]; [|done].
  specialize (Hres _ (Nat.le_refl _)). rewrite He in Hres. by destruct Hres as (err & [=] & _).
Qed.




(** Two messages make the handler throw in any state: a request for
    no blocks, whose promises all refuses to join, and a vote in the name of a
    replica the configuration does not know. *)
Theorem crashing_messages s peer v fuel : deployed -> engine_run s ->
  get_pubkey (config (core_of s)) (voter v) = None -> (enough s (BVote v (Some peer)) <= fuel)%nat ->
  (handle_event fuel (BReqBlock [] (Some peer)) s).1 = inr EMismatch /\
  (handle_event fuel (BVote v (Some peer)) s).1 <> inl tt.
Proof.
  intros Hd Hr Hpk Hn. split; [by rewrite empty_request|]. apply unknown_voter; [by apply engine_run_ok|done..].
Qed.
End Theorems.
