(* ===== verification/DeliveryRuns.v ===== *)
(** * The delivery engine run on messages

    Replica 1 of four on the symbolic instance: blocks that arrive out of
    order are fetched, verified, delivered and voted for; and an early vote of
    a Byzantine replica keeps a block that the leader sent from ever being
    delivered. *)

From stdpp Require Import strings countable.
From S2P Require Import Prelude Certs Entity Core Agreement CoreInv CoreSteps CoreInit Network Safety Scenario Runs DeliveryCore Promise Delivery DeliveryInv DeliveryRun DeliverySafe.

(** A certificate with too few signatures is answered at once. *)
#[export] Instance sym_async : AsyncVerify := {|
  pc_inline _ := false;
  qc_inline q c := Z.of_nat (length q.2) <? nmajority c;
|}.
#[export] Instance sym_peer_dec : EqDecision PeerId | 100 := Z.eq_dec.

Abbreviation St := (Store (A := BVal) (K := Closure) (W := Base)).

(** The events handled in turn, each below its bound; [None] if one throws. *)
Fixpoint handle_all (ins : list BaseInput) (s : St) : option St :=
  match ins with
  | [] => Some s
  | i :: ins =>
    match handle_event (enough s i) i s with
    | (inl _, s') => handle_all ins s'
    | (inr _, _) => None
    end
  end.

Lemma handle_all_steps (P : BaseInput -> Prop) ins s s' : Forall P ins -> Forall input_ok ins -> handle_all ins s = Some s' -> rtc (base_step_of P) s s'.
Proof.
  revert s. induction ins as [|i ins IH]; intros s HP Hok; simpl; [by intros [= ->]|].
  apply Forall_cons in HP as [Pi HP]. apply Forall_cons in Hok as [Hi Hok]. destruct (handle_event (enough s i) i s) as [[[]|e] s1] eqn:Hrun; [|done].
  intros Hs. eapply rtc_l; [by eapply step_event|]. by apply IH.
Qed.

Definition start1 : St := state0 (started 1 (key4 1) (listen4 1) rs4).
Definition after (ins : list BaseInput) : St := default start1 (handle_all ins start1).

Definition dlv1 (s : St) (c : Content) : bool :=
  is_blk_delivered (hp (core (world s))) (storage (core (world s))) (hash_of c).
Definition sto1 (s : St) (c : Content) : bool := is_blk_fetched (storage (core (world s))) (hash_of c).
Definition voted1 (s : St) : list uint256 := signed (core (world s)).

(** b3 arrives first; its ancestors are asked for one after the other. *)
Definition late : list BaseInput :=
  [BPropose 0 b3 (Some 0); BRespBlock [b2]; BRespBlock [b1]; BTaskDone 0; BTaskDone 0].

(** A vote of replica 3 for b1, which it has seen already, and then what the
    leader 0 sends. *)
Definition vote3 : Vote := mkVote 3 (hash_of b1) (3, hash_of b1).
Definition early : list BaseInput :=
  [BVote vote3 (Some 3);
   BTaskDone 0; BPropose 0 b1 (Some 0); BTimeout (hash_of b1);
   BPropose 0 b2 (Some 0); BTaskDone 0; BPropose 0 b3 (Some 0); BTaskDone 0; BTimeout (hash_of b1)].

Lemma after_run ins : Forall input_ok ins -> okb (handle_all ins start1) = true -> rtc base_step start1 (after ins).
Proof. intros Hok Hrun. apply (handle_all_steps (fun _ => True) ins); [by apply Forall_true|exact Hok|]. by apply default_ok. Qed.

Definition blocks3 : list Content := [b1; b2; b3].

(** The vote comes before the leader's proposal: the block is asked for from the
    voter alone, which does not answer; the proposal, which brings the block,
    neither answers that request nor adds its sender to those asked.  Without the
    vote the replica delivers and votes for all. *)
Example early_vote_run :
  rtc base_step start1 (after early) /\
  forallb (sto1 (after early)) blocks3 = true /\ existsb (dlv1 (after early)) blocks3 = false /\
  voted1 (after early) = [] /\
  sent (world (after early)) = replicate 3 (SendReqBlock 3 (hash_of b1)) /\
  rtc base_step start1 (after (tail early)) /\
  forallb (dlv1 (after (tail early))) blocks3 = true /\
  voted1 (after (tail early)) = hash_of <$> [b3; b2; b1].
Proof.
  assert (Forall input_ok early) as Hok by (repeat constructor; by eexists).
  assert (Forall input_ok (tail early)) as Hok' by (apply Forall_tail; exact Hok).
  split; [apply after_run; [exact Hok|by vm_compute]|].
  do 4 (split; [by vm_compute|]).
  split; [apply after_run; [exact Hok'|by vm_compute]|].
  split; by vm_compute.
Qed.

(** ** Witnesses *)


Lemma deployed4 : deployed (listen4 1) rs4.
Proof. by split. Qed.

Lemma late_ok n : Forall input_ok (take n late).
Proof. apply Forall_take. repeat constructor; by eexists. Qed.

Lemma net4_rep1 : reps net4 !! 1 = Some (core (world start1)).
Proof.
  unfold net4, initial. cbn [reps]. apply lookup_set_to_map; [by intros ????|]. unfold start1, state0. cbn [core world]. exists 1. split; [|reflexivity].
  by apply (bool_decide_eq_true_1 (1 ∈ node_ids 4 ∖ byz4)).
Qed.

Lemma engine_refines_network_witness :
  reps net4 !! 1 = Some (core (world start1)) /\
  exists ins, fits_all ins (core (world start1)) /\
    core (world (handle_event 20 (BPropose 0 b1 (Some 0)) start1).2) = exec_all ins (core (world start1)).
Proof.
  split; [exact net4_rep1|].
  destruct (engine_refines_network 1 (key4 1) (listen4 1) rs4 byz4 net4 1 start1 (BPropose 0 b1 (Some 0)) 20) as (ins & Hf & He & _).
  - exact deployed4.
  - apply rtc_refl.
  - split; [by eexists|done].
  - apply Nat.leb_le. by vm_compute.
  - exact net4_rep1.
  - exists ins. split; [exact Hf|exact He].
Defined.

Lemma events_terminate_witness : let s := after (take 3 late) in
  handle_event 100 (BTaskDone 0) s = handle_event (enough s (BTaskDone 0)) (BTaskDone 0) s.
Proof.
  intros s. apply (events_terminate 1 (key4 1) (listen4 1) rs4).
  - exact deployed4.
  - apply after_run; [apply late_ok|by vm_compute].
  - by left.
  - apply Nat.leb_le. by vm_compute.
Defined.






Lemma crashing_messages_witness :
  (handle_event 20 (BReqBlock [] (Some 3)) start1).1 = inr EMismatch /\
  (handle_event 20 (BVote (mkVote 9 gh (9, gh)) (Some 3)) start1).1 <> inl tt.
Proof.
  apply (crashing_messages 1 (key4 1) (listen4 1) rs4).
  - exact deployed4.
  - apply rtc_refl.
  - by vm_compute.
  - apply Nat.leb_le. by vm_compute.
Defined.
